(* ===== verification/_CoqProject ===== *)
-Q . S2P
Prelude.v
NgxNumber.v
NgxBase64.v
NgxUtf8.v
NgxEscape.v
NgxSprintf.v
NgxStr.v
NgxHash.v
NgxHashTable.v
NgxHashWildcard.v
NgxHttpRequest.v
NgxHttpRequestLine.v
NgxHttpHeaderLine.v
NgxHttpStatusLine.v
NgxHttpUri.v
NgxHttpArgs.v
NgxTime.v
NgxStore.v
NgxRbtree.v
NgxRbtreeDelete.v
NgxRbtreeClient.v
NgxEventTimer.v
NgxRadix.v
NgxShmtx.v
NgxParse.v
NgxPalloc.v
NgxQueue.v
NgxHttpLocation.v
NgxMail.v
NgxCrc32.v
NgxInet.v
NgxHttpRange.v
NgxSlab.v
NgxSlabLists.v
NgxSlabMap.v
NgxSlabPages.v
NgxSlabChunks.v
NgxSlabCorrect.v
NgxHttpLimitReq.v
NgxSlabZone.v
NgxResolver.v
NgxHttpUpstreamRr.v
NgxHttpUpstreamPeers.v
