(* ===== verification/Prelude.v ===== *)
(** * A verification library for nginx 1.0.15 (src/nginx/1.0.15/src)

    nginx is a web server written in C.  A worker process runs one loop: it asks the
    kernel for events, calls the handlers of the timers that are due (src/event), and
    the handlers read requests, parse them (src/http/ngx_http_parse.c), choose a
    location and produce a response, from a file or from an upstream server.  All of this
    stands on src/core: strings, numbers, times, addresses, pools of memory, queues, trees.
    Processes share memory that is guarded by a mutex and divided by a slab allocator.
    This library models these layers from the bottom up and proves what the layers
    above rely on.

    ** Files

    - [Prelude]: notation, tactics and the hint database [ngx], words of fixed width
      ([u8] .. [u64], [s64]), byte strings ([list Z]), lemmas on lists and integers.
    - [NgxNumber], [NgxSprintf], [NgxBase64], [NgxUtf8], [NgxEscape], [NgxStr]:
      src/core/ngx_string.c, in the order of that file's sections.
    - [NgxHash]: the keys of src/core/ngx_hash.c; [NgxHashTable]: its tables, down to the
      bytes of their elements; [NgxHashWildcard]: the nested tables of wildcard names.
      [NgxParse]: src/core/ngx_parse.c.
    - [NgxTime]: ngx_gmtime and ngx_http_time of src/core/ngx_times.c, and
      src/http/ngx_http_parse_time.c.
    - [NgxHttpRequest] (the fields of [ngx_http_request_t] that the parsers use, the
      buffer, the loop over it), [NgxHttpRequestLine], [NgxHttpHeaderLine],
      [NgxHttpStatusLine], [NgxHttpUri], [NgxHttpArgs]: src/http/ngx_http_parse.c, one
      function or group of functions per file, one definition per state.
    - [NgxStore]: a state monad over stores of objects at addresses, for the code that
      links structures by pointers.  [NgxRbtree], [NgxRbtreeDelete],
      [NgxRbtreeClient]: src/core/ngx_rbtree.c; [NgxEventTimer]: src/event/
      ngx_event_timer.c on top of it; [NgxRadix]: src/core/ngx_radix_tree.c;
      [NgxPalloc]: src/core/ngx_palloc.c.
    - [NgxShmtx]: src/core/ngx_shmtx.c as a step relation of many processes.
    - [NgxQueue]: src/core/ngx_queue.h and .c.  [NgxHttpLocation]: the locations of
      src/http/ngx_http.c, which are sorted in such a queue and made into a tree, and the
      search of src/http/ngx_http_core_module.c in it.
    - [NgxInet]: src/core/ngx_inet.c, addresses as text.  [NgxCrc32]: src/core/ngx_crc32.c.
    - [NgxMail]: src/mail/ngx_mail_parse.c and the sessions of the POP3 and IMAP handlers
      that call it.
    - [NgxHttpRange]: src/http/modules/ngx_http_range_filter_module.c.
    - [NgxSlab] (the allocator of src/core/ngx_slab.c), [NgxSlabLists] (its linked lists
      of pages), [NgxSlabMap] (the maps of chunks in use), [NgxSlabPages] and
      [NgxSlabChunks] (the regions of a pool, and what the operations on pages and on
      chunks do to them), [NgxSlabCorrect] (the theorems).
    - [NgxHttpLimitReq]: src/http/modules/ngx_http_limit_req_module.c, on a queue and a
      red-black tree in shared memory; it is proved against the class [SlabPool], and
      [NgxSlabZone] shows that the pools of [NgxSlab] are an instance of it.
    - [NgxResolver]: the DNS messages of src/core/ngx_resolver.c.
    - [NgxHttpUpstreamRr]: the choice of a peer in src/http/
      ngx_http_upstream_round_robin.c; [NgxHttpUpstreamPeers]: the configured peers and
      the interleaved requests that share them.

    ** How code becomes definitions

    Integers are [Z] with the wrap-around of their C type written out where it can
    happen.  A byte string is a list of numbers; a pointer into a buffer is an index; a
    read outside the buffer has no value ([None]), so that a theorem which says that a
    function returns also says that it reads inside its input.  A state machine is a
    function of the state, the variables of the C function and the next byte, one
    definition per [case].  Linked structures live in finite maps from addresses, with
    [NULL] as 0; reading an address that holds no object has no result.  Loops that are
    not structural take fuel, and the theorems show that the fuel given is enough: the
    number of remaining bytes, of stored objects, or, for the loops of the red-black
    tree, twice the logarithm of its size.  Code outside the sources is a parameter:
    [posix_memalign] and [malloc] in [NgxPalloc] (class [Allocator]) and [NgxRadix] (class [Pages]),
    the handlers of events in [NgxEventTimer], the insert function of a tree in
    [NgxRbtree] (class of functions that link a node as a leaf), the resolution of host
    names in [NgxHttpUpstreamPeers]; whether an allocation succeeds is an argument where
    the pool itself does not matter.

    ** What is proved

    - Numbers, text encodings, escapes: readers return the value of what they accept
      and reject the rest; encoding and decoding are inverse; counting calls announce
      exactly what writing calls write; no function writes past its buffer.
    - HTTP parsers: they are total on every buffer; input cut into pieces at any place
      gives the result of one call; pointers of an accepted request are ordered inside
      the consumed bytes; well-formed lines are parsed to their parts; the flags that
      ask for normalisation miss no URI (apart from the findings); normalisation
      refines the specification by a stack of segments and its result has no [..].
    - Times: dates are valid and inverse to counting days; printing and parsing are
      inverse for every time up to the year 9999.
    - Red-black tree: insertion and deletion keep the balance, the links and the order
      and change the contents by exactly the node given; timers: arming, cancelling and
      expiry keep the tree consistent with the flags of the events, the expiry loop
      terminates, and an armed timer fires, across the wrap-around of the clock, unless the
      handler of another event stops or moves it.
    - Radix tree: find is longest prefix match on the stored map, insert and delete
      change the map at one prefix, errors change nothing; delete cuts off exactly the
      nodes that are not needed any more and gives them to the free list.
    - Mutex: mutual exclusion and no lost wake-up in every interleaving.
    - Pools: regions handed out never meet; a pool's life neither leaks nor frees twice.

    - Hash tables: a table that is built is within its memory and finds exactly its names;
      wildcard tables find the longest name that stands for a name.
    - Queue: the operations refine those on lists, and sorting is stable.  Locations: the
      tree finds what a search of the list of configured locations by longest prefix
      finds, and from the configuration to the result the search follows the documented
      rule of exact, prefix and regular locations, where they are not nested.
    - Mail: commands are parsed to their parts, in pieces as at once, and a session keeps
      its arguments inside the buffer.  Addresses: reading what was written gives the
      address back; nothing is written past the buffer.  CRC: the loops with either
      table compute the checksum bit by bit, in pieces as at once.
    - Ranges: the header gives the ranges its grammar means and 416 where it breaks the
      grammar, and the response is made of exactly these parts of the body: for one range
      however the body is cut into buffers, for several with the body in one buffer.
    - Slab pools: allocation and freeing refine a map of disjoint chunks, aligned and
      inside the pool, never touch a chunk that is in use, and a wrong free changes
      nothing, apart from the findings.  Request limits: the handler refines a list of
      leaky buckets that gives the pool the same calls; no value gets more than its rate
      and burst, one for each minute and a burst for each time the zone is full; and a
      zone made by ngx_http_limit_req_init_zone in a real slab pool stays consistent.
    - DNS: queries are read back as what was asked; names are copied as they are meant
      with all pointers followed, into the memory found for them; the two passes over the
      answers agree; this in responses that end before their buffer does, and apart from
      the findings.
    - Peers: with weights whose products fit their type, no interleaving of requests makes
      the balancer leave its arrays; a peer chosen among several is usable; the weights
      are exact shares.

    ** Not modelled

    System calls, sockets, signals and the event interfaces of the kernel; OpenSSL,
    zlib, PCRE and perl, which are not part of the sources; the modules that mostly
    pass buffers on; the proxying of requests (src/http/ngx_http_upstream.c) around the
    choice of a peer, which is driven by socket events.  Of the modelled files: the
    string tree of ngx_string.c, the cached time strings, the creation of mutexes, the
    file variants of locks, the contents of pool memory, the trees of names and the timers
    of the resolver, ngx_parse_url, the directives of the modules, and the peers of a name
    that is resolved at run time.

    ** Plan

    What is left and could be modelled in the same way: the arrays of names that
    hash tables are built from, arrays and lists,
    the tokenizer of the configuration, scripts and variables, the chunked body and SSI
    parsers, and the processing of headers in src/http/ngx_http_request.c. *)

From stdpp Require Export base numbers list strings gmap.
From Stdlib Require Export ZArith Lia Bool.

Open Scope Z_scope.

(** * Machine integers

    Unsigned and signed integers of width [w] are [Z] values; every place
    where the C code stores into a fixed-width object applies [wrap] or
    [swrap].  Signed overflow is modelled as two's complement wrap-around,
    which is what the compilers the code targets generate for it. *)

Definition wrap (w z : Z) : Z := z mod 2 ^ w.

Definition swrap (w z : Z) : Z := (z + 2 ^ (w - 1)) mod 2 ^ w - 2 ^ (w - 1).

Abbreviation u8 := (wrap 8).
Abbreviation u16 := (wrap 16).
Abbreviation u32 := (wrap 32).
Abbreviation u64 := (wrap 64).
Abbreviation i32 := (swrap 32).
Abbreviation i64 := (swrap 64).

Lemma wrap_range w z : 0 <= w -> 0 <= wrap w z < 2 ^ w.
Proof. intros. apply Z.mod_pos_bound. lia. Qed.

Lemma wrap_small w z : 0 <= z < 2 ^ w -> wrap w z = z.
Proof. apply Z.mod_small. Qed.

Lemma wrap_wrap w z : 0 <= w -> wrap w (wrap w z) = wrap w z.
Proof. intros. apply wrap_small, wrap_range. done. Qed.

Lemma swrap_small w z :
  - 2 ^ (w - 1) <= z < 2 ^ (w - 1) -> 0 < w -> swrap w z = z.
Proof.
  intros Hz Hw. unfold swrap.
  assert (2 ^ w = 2 * 2 ^ (w - 1)) as E.
  { replace w with (Z.succ (w - 1)) at 1 by lia. apply Z.pow_succ_r. lia. }
  rewrite Z.mod_small; lia.
Qed.

Lemma swrap_range w z : 0 < w -> - 2 ^ (w - 1) <= swrap w z < 2 ^ (w - 1).
Proof.
  intros Hw. unfold swrap.
  assert (2 ^ w = 2 * 2 ^ (w - 1)) as E.
  { replace w with (Z.succ (w - 1)) at 1 by lia. apply Z.pow_succ_r. lia. }
  assert (0 < 2 ^ (w - 1)) by (apply Z.pow_pos_nonneg; lia).
  pose proof (Z.mod_pos_bound (z + 2 ^ (w - 1)) (2 ^ w)). lia.
Qed.

(** [swrap] only depends on the residue, and keeps it. *)
Lemma swrap_mod w z : 0 < w -> swrap w z mod 2 ^ w = z mod 2 ^ w.
Proof.
  intros Hw. unfold swrap. rewrite Zminus_mod_idemp_l. f_equal. lia.
Qed.

Lemma swrap_eq_mod w a b :
  a mod 2 ^ w = b mod 2 ^ w -> swrap w a = swrap w b.
Proof.
  intros E. unfold swrap.
  by rewrite <- (Zplus_mod_idemp_l a), E, Zplus_mod_idemp_l.
Qed.

Lemma i64_u64 a : i64 (u64 a) = i64 a.
Proof. apply swrap_eq_mod. unfold wrap. apply Zmod_mod. Qed.

(** [ngx_align_ptr(p, a)] of ngx_config.h, and [ngx_align(d, a)]. *)
Definition ngx_align_ptr (p a : Z) : Z := Z.land (p + (a - 1)) (Z.lnot (a - 1)).

(** Rounding up to a power of two. *)
Lemma align_pow2 p c : 0 <= c -> ngx_align_ptr p (2 ^ c) = p + (2 ^ c - 1) - (p + (2 ^ c - 1)) mod 2 ^ c.
Proof.
  intros Hc. unfold ngx_align_ptr. assert (2 ^ c - 1 = Z.ones c) as -> by (rewrite Z.ones_equiv; lia). rewrite <- Z.ldiff_land, Z.ldiff_ones_r, Z.shiftl_mul_pow2, Z.shiftr_div_pow2 by lia.
  pose proof (Z.div_mod (p + Z.ones c) (2 ^ c)). lia.
Qed.

(** The macro of ngx_core.h, on a 64-bit value. *)
Definition ngx_abs (value : Z) : Z := if value >=? 0 then value else i64 (- value).

Lemma ngx_abs_small z : - 2 ^ 63 < z < 2 ^ 63 -> ngx_abs z = Z.abs z.
Proof.
  intros Hz. unfold ngx_abs. destruct (Z.geb_spec z 0); [lia|]. rewrite swrap_small by lia. lia.
Qed.

(** A linear update of a wrapped value is the wrapped linear update. *)
Lemma swrap_lin w a k b :
  0 < w -> swrap w (swrap w a * k + b) = swrap w (a * k + b).
Proof.
  intros Hw. apply swrap_eq_mod.
  rewrite <- Zplus_mod_idemp_l, <- Zmult_mod_idemp_l, swrap_mod by done.
  by rewrite Zmult_mod_idemp_l, Zplus_mod_idemp_l.
Qed.

Lemma swrap_mul w a k : 0 < w -> swrap w (swrap w a * k) = swrap w (a * k).
Proof. intros. pose proof (swrap_lin w a k 0). by rewrite !Z.add_0_r in *; auto. Qed.

Lemma wrap_lin w a k b : wrap w (wrap w a * k + b) = wrap w (a * k + b).
Proof.
  unfold wrap. rewrite <- Zplus_mod_idemp_l, <- Zmult_mod_idemp_l, Zmod_mod.
  by rewrite Zmult_mod_idemp_l, Zplus_mod_idemp_l.
Qed.

(** * Bit fields

    Shifts and masks as division and remainder; two fields that do not
    overlap are joined by addition. *)

Lemma land_ones_mod z n : 0 <= n -> Z.land z (2 ^ n - 1) = z mod 2 ^ n.
Proof. intros. rewrite Z.sub_1_r, <- Z.ones_equiv. by apply Z.land_ones. Qed.

Lemma lor_shiftl_add a b n :
  0 <= n -> 0 <= b < 2 ^ n -> Z.lor (Z.shiftl a n) b = a * 2 ^ n + b.
Proof.
  intros Hn Hb. rewrite <- Z.shiftl_mul_pow2 by done.
  symmetry. apply Z.add_nocarry_lor. apply Z.bits_inj'. intros i Hi.
  rewrite Z.land_spec, Z.bits_0.
  destruct (Z.ltb_spec i n).
  - by rewrite Z.shiftl_spec_low.
  - rewrite <- (Z.mod_small b (2 ^ n)) by done.
    rewrite Z.mod_pow2_bits_high by lia. by rewrite andb_false_r.
Qed.

(** * Characters and bytes *)

Declare Scope cchar_scope.
Delimit Scope cchar_scope with cc.

Definition parse_cc (l : list Byte.byte) : option Z :=
  match l with [b] => Some (Z.of_N (Byte.to_N b)) | _ => None end.

Definition print_cc (z : Z) : option (list Byte.byte) := None.

(** ["x"%cc] is the code of the character x, a [Z] literal. *)
String Notation Z parse_cc print_cc : cchar_scope.

Definition LF : Z := 10.
Definition CR : Z := 13.

(** The bytes of a C string literal, without its terminating zero. *)
Definition cstr (s : string) : list Z :=
  (fun b => Z.of_N (Byte.to_N b)) <$> String.list_byte_of_string s.

Definition is_byte (c : Z) : Prop := 0 <= c < 256.

Definition is_bytes (l : list Z) : Prop := Forall is_byte l.

#[export] Instance is_byte_dec c : Decision (is_byte c).
Proof. unfold is_byte. apply _. Defined.

#[export] Instance is_bytes_dec l : Decision (is_bytes l).
Proof. unfold is_bytes. apply _. Defined.

(** Every byte, for proofs by evaluation over all 256 values. *)
Definition all_bytes : list Z := Z.of_nat <$> seq 0 256.

Lemma byte_forall (P : Z -> bool) :
  forallb P all_bytes = true -> forall c, is_byte c -> P c = true.
Proof.
  rewrite forallb_forall. intros H c Hc. apply H.
  unfold all_bytes. apply in_map_iff. exists (Z.to_nat c).
  unfold is_byte in Hc. split; [lia|]. apply in_seq. lia.
Qed.

(** * Return codes of src/core/ngx_core.h *)

Definition NGX_OK : Z := 0.
Definition NGX_ERROR : Z := -1.
Definition NGX_AGAIN : Z := -2.
Definition NGX_BUSY : Z := -3.
Definition NGX_DONE : Z := -4.
Definition NGX_DECLINED : Z := -5.
Definition NGX_ABORT : Z := -6.

(** * Character classes shared by the parsers *)

Definition is_digit (c : Z) : bool := ("0"%cc <=? c) && (c <=? "9"%cc).

(** [(c >= 'A' && c <= 'Z') ? (c | 0x20) : c]: the macros [ngx_tolower] and
    [ngx_toupper] of src/core/ngx_string.h; their [(u_char)] cast is the
    identity on the bytes they are applied to. *)
Definition ngx_tolower (c : Z) : Z :=
  if ("A"%cc <=? c) && (c <=? "Z"%cc) then Z.lor c 32 else c.

Definition ngx_toupper (c : Z) : Z :=
  if ("a"%cc <=? c) && (c <=? "z"%cc) then Z.land c (Z.lnot 32) else c.

(** * Reads through a pointer

    A buffer is the list of its bytes and a pointer into it an offset; a
    read outside the buffer is [None]. *)

Definition rd (m : list Z) (i : Z) : option Z :=
  if i <? 0 then None else m !! Z.to_nat i.

Lemma rd_in m i : 0 <= i < Z.of_nat (length m) -> is_Some (rd m i).
Proof.
  intros H. unfold rd. destruct (Z.ltb_spec i 0); [lia|].
  apply lookup_lt_is_Some. lia.
Qed.

Lemma rd_app_r l k i : rd (l ++ k) (Z.of_nat (length l) + Z.of_nat i) = k !! i.
Proof.
  unfold rd. destruct (Z.ltb_spec (Z.of_nat (length l) + Z.of_nat i) 0); [lia|].
  rewrite lookup_app_r by lia. f_equal. lia.
Qed.

(** * Induction in groups of three *)

Lemma list_ind3 {A} (P : list A -> Prop) :
  P [] -> (forall a, P [a]) -> (forall a b, P [a; b]) ->
  (forall a b c l, P l -> P (a :: b :: c :: l)) -> forall l, P l.
Proof.
  intros H0 H1 H2 H3. fix IH 1.
  intros [|a [|b [|c l]]]; [apply H0|apply H1|apply H2|apply H3, IH].
Qed.

(** * Record update

    [r <| f := v |>] is [r] with the field [f] replaced.  A record type gives
    its eta expansion once; [field_setter] derives the setter of a field from
    it. *)

Class EtaRecord (R : Type) := eta_record : R -> R.

Class FieldSetter {R T : Type} (field : R -> T) := set_field : T -> R -> R.

Notation "r <| f := v |>" := (set_field (field := f) v r)
  (at level 1, left associativity, format "r  <| f  :=  v |>").

Ltac field_setter :=
  lazymatch goal with
  | |- @FieldSetter ?R ?T ?f =>
      let v := fresh "v" in let r := fresh "r" in
      intros v r;
      let e := eval hnf in (eta_record r) in
      match eval pattern (f r) in e with
      | ?k _ => let t := eval cbv beta in (k v) in exact t
      end
  end.

(** * Tactics *)

(** Split every boolean test of the goal, closing what arithmetic closes. *)
Ltac split_if :=
  repeat match goal with
  | |- context [if ?b then _ else _] => destruct b eqn:?; try lia
  end.

(** The same in a hypothesis. *)
Ltac split_if_in H :=
  repeat match type of H with
  | context [if ?b then _ else _] => destruct b eqn:?; try lia
  end.

(** A decidable closed goal by evaluation of its decision procedure. *)
Ltac by_eval :=
  match goal with
  | |- ?P => refine (bool_decide_eq_true_1 P _); vm_compute; reflexivity
  end.

Create HintDb ngx.
#[export] Hint Resolve wrap_range swrap_range rd_in : ngx.
