(* ===== verification/NgxNumber.v ===== *)
(** Numbers and text: the decimal and hexadecimal readers [ngx_atoi],
    [ngx_atosz], [ngx_atoof], [ngx_atotm], [ngx_atofp], [ngx_hextoi], the
    writers [ngx_sprintf_num] and [ngx_hex_dump] of src/core/ngx_string.c.

    A C argument pair [(u_char *line, size_t n)] is the list of its [n]
    bytes.  [ngx_int_t], [ssize_t], [off_t] and [time_t] are 64-bit. *)

From S2P Require Import Prelude.

Open Scope Z_scope.

(** * Readers *)

(** The body of the loops: [value = value * 10 + ( *line - '0')] on every
    digit, [None] as soon as a byte is no digit. *)
Fixpoint decimal_loop (value : Z) (line : list Z) : option Z :=
  match line with
  | [] => Some value
  | c :: line' =>
      if (c <? "0"%cc) || ("9"%cc <? c) then None
      else decimal_loop (i64 (value * 10 + (c - "0"%cc))) line'
  end.

(** What follows the loops: a negative value is an error. *)
Definition nonnegative (r : option Z) : Z :=
  match r with
  | None => NGX_ERROR
  | Some value => if value <? 0 then NGX_ERROR else value
  end.

Definition ngx_atoi (line : list Z) : Z :=
  if decide (length line = 0%nat) then NGX_ERROR
  else nonnegative (decimal_loop 0 line).

Definition ngx_atosz (line : list Z) : Z :=
  if decide (length line = 0%nat) then NGX_ERROR
  else nonnegative (decimal_loop 0 line).

Definition ngx_atoof (line : list Z) : Z :=
  if decide (length line = 0%nat) then NGX_ERROR
  else nonnegative (decimal_loop 0 line).

Definition ngx_atotm (line : list Z) : Z :=
  if decide (length line = 0%nat) then NGX_ERROR
  else nonnegative (decimal_loop 0 line).

(** Fixed point numbers: the state of the loop is [value], [dot], [point]. *)
Fixpoint atofp_loop (value dot point : Z) (line : list Z) : option (Z * Z) :=
  match line with
  | [] => Some (value, point)
  | c :: line' =>
      if point =? 0 then None
      else if c =? "."%cc then
        if dot =? 1 then None else atofp_loop value 1 point line'
      else if (c <? "0"%cc) || ("9"%cc <? c) then None
      else atofp_loop (i64 (value * 10 + (c - "0"%cc))) dot (point - dot) line'
  end.

(** [while (point--) value = value * 10;] *)
Fixpoint scale10 (value : Z) (point : nat) : Z :=
  match point with
  | O => value
  | S point' => scale10 (i64 (value * 10)) point'
  end.

Definition ngx_atofp (line : list Z) (point : Z) : Z :=
  if decide (length line = 0%nat) then NGX_ERROR
  else match atofp_loop 0 0 point line with
       | None => NGX_ERROR
       | Some (value, point') => nonnegative (Some (scale10 value (Z.to_nat point')))
       end.

Fixpoint hex_loop (value : Z) (line : list Z) : option Z :=
  match line with
  | [] => Some value
  | ch :: line' =>
      if ("0"%cc <=? ch) && (ch <=? "9"%cc)
      then hex_loop (i64 (value * 16 + (ch - "0"%cc))) line'
      else
        let c := u8 (Z.lor ch 32) in
        if ("a"%cc <=? c) && (c <=? "f"%cc)
        then hex_loop (i64 (value * 16 + (c - "a"%cc + 10))) line'
        else None
  end.

Definition ngx_hextoi (line : list Z) : Z :=
  if decide (length line = 0%nat) then NGX_ERROR
  else nonnegative (hex_loop 0 line).

(** * Writers *)

(** The [static u_char hex[]] and [HEX[]] tables. *)
Definition hex_lower : list Z := cstr "0123456789abcdef".
Definition hex_upper : list Z := cstr "0123456789ABCDEF".

Fixpoint ngx_hex_dump (src : list Z) : list Z :=
  match src with
  | [] => []
  | c :: src' =>
      nth (Z.to_nat (Z.shiftr c 4)) hex_lower 0
        :: nth (Z.to_nat (Z.land c 15)) hex_lower 0
        :: ngx_hex_dump src'
  end.

(** [sizeof("-9223372036854775808") - 1]: the room of [temp]. *)
Definition NGX_INT64_LEN : nat := 20%nat.

(** [do { *--p = digit; } while (ui64 = ui64 / base)]: [temp] is filled from
    its end; [None] is a write below [temp]. *)
Fixpoint digits_loop (room : nat) (digit : Z -> Z) (base n : Z) (temp : list Z)
  : option (list Z) :=
  match room with
  | O => None
  | S room' =>
      let temp' := digit (n mod base) :: temp in
      let n' := n / base in
      if n' =? 0 then Some temp' else digits_loop room' digit base n' temp'
  end.

(** The digits of [ui64] as the three branches of the code produce them;
    [ui64 & 0xf] and [ui64 >>= 4] are the remainder and quotient by 16. *)
Definition number_digits (ui64 hexadecimal : Z) : option (list Z) :=
  if hexadecimal =? 0 then
    if ui64 <=? 2 ^ 32 - 1
    then digits_loop NGX_INT64_LEN (fun d => u8 (d + "0"%cc)) 10 (u32 ui64) []
    else digits_loop NGX_INT64_LEN (fun d => u8 (d + "0"%cc)) 10 ui64 []
  else if hexadecimal =? 1 then
    digits_loop NGX_INT64_LEN (fun d => nth (Z.to_nat d) hex_lower 0) 16 ui64 []
  else
    digits_loop NGX_INT64_LEN (fun d => nth (Z.to_nat d) hex_upper 0) 16 ui64 [].

(** [while (len++ < width && buf < last) *buf++ = zero;]: [k] is the number
    of times [len++ < width] holds. *)
Fixpoint pad_loop (k : nat) (room zero : Z) : list Z :=
  match k with
  | O => []
  | S k' => if 0 <? room then zero :: pad_loop k' (room - 1) zero else []
  end.

(** The bytes written between [buf] and [last]; [room] is [last - buf] and
    the returned pointer is [buf] plus the length of the result. *)
Definition ngx_sprintf_num (room ui64 zero hexadecimal width : Z)
  : option (list Z) :=
  match number_digits ui64 hexadecimal with
  | None => None
  | Some p =>
      let len := Z.of_nat (length p) in
      let pad := pad_loop (Z.to_nat (width - len)) room zero in
      let room' := room - Z.of_nat (length pad) in
      let len' := if room' <? len then room' else len in
      Some (pad ++ take (Z.to_nat len') p)
  end.

(** * Positional values

    The specification of the readers and writers: [num_acc base val v l]
    extends the number [v] by the digits [l], [val] giving the value of one
    digit character. *)

Definition num_acc (base : Z) (val : Z -> Z) (v : Z) (l : list Z) : Z :=
  fold_left (fun v c => v * base + val c) l v.

Definition dec_val (c : Z) : Z := c - "0"%cc.

Definition dec_value (l : list Z) : Z := num_acc 10 dec_val 0 l.

Definition is_xdigit (c : Z) : bool :=
  is_digit c || (("a"%cc <=? c) && (c <=? "f"%cc)) || (("A"%cc <=? c) && (c <=? "F"%cc)).

Definition hex_val (c : Z) : Z :=
  if is_digit c then c - "0"%cc
  else if "a"%cc <=? c then c - "a"%cc + 10 else c - "A"%cc + 10.

Definition hex_value (l : list Z) : Z := num_acc 16 hex_val 0 l.

Section Positional.
Context (base : Z) (val : Z -> Z).

Lemma num_acc_app v l k :
  num_acc base val v (l ++ k) = num_acc base val (num_acc base val v l) k.
Proof. apply fold_left_app. Qed.

Lemma num_acc_shift v l :
  num_acc base val v l = v * base ^ Z.of_nat (length l) + num_acc base val 0 l.
Proof.
  revert v. induction l as [|c l IH]; intros v; [cbn; lia|].
  change (num_acc base val v (c :: l)) with (num_acc base val (v * base + val c) l).
  change (num_acc base val 0 (c :: l)) with (num_acc base val (0 * base + val c) l).
  rewrite (IH (v * base + val c)), (IH (0 * base + val c)).
  cbn [length]. rewrite Nat2Z.inj_succ, Z.pow_succ_r by lia. ring.
Qed.

Lemma num_acc_bound l :
  0 < base -> Forall (fun c => 0 <= val c < base) l ->
  0 <= num_acc base val 0 l < base ^ Z.of_nat (length l).
Proof.
  intros Hb. induction 1 as [|c l Hc _ IH]; [cbn; lia|].
  change (num_acc base val 0 (c :: l)) with (num_acc base val (0 * base + val c) l).
  rewrite num_acc_shift. cbn [length]. rewrite Nat2Z.inj_succ, Z.pow_succ_r by lia.
  assert (0 < base ^ Z.of_nat (length l)) by (apply Z.pow_pos_nonneg; lia). nia.
Qed.

Context (digit : Z -> Z).
Hypothesis base_pos : 1 < base.
Hypothesis digit_val : forall d, 0 <= d < base -> val (digit d) = d.

(** What the digit loop leaves in [temp] is the positional notation of [n]. *)
Lemma digits_loop_spec room n temp r :
  0 <= n -> digits_loop room digit base n temp = Some r ->
  exists ds, r = ds ++ temp /\ num_acc base val 0 ds = n /\
    (0 < length ds <= room)%nat /\
    Forall (fun c => exists d, 0 <= d < base /\ c = digit d) ds.
Proof using base_pos digit_val.
  revert n temp. induction room as [|room IH]; intros n temp Hn; [done|].
  cbn [digits_loop].
  pose proof (Z.mod_pos_bound n base) as Hm.
  pose proof (Z.div_mod n base) as Hd.
  destruct (Z.eqb_spec (n / base) 0) as [E|E].
  - intros [= <-]. exists [digit (n mod base)].
    split_and!; [done| |cbn; lia|cbn; lia|].
    + unfold num_acc. cbn. rewrite digit_val by lia. lia.
    + apply Forall_singleton. exists (n mod base). split; [lia|done].
  - intros H. apply IH in H as (ds & -> & Hv & Hl & Hf);
      [|apply Z.div_pos; lia].
    exists (ds ++ [digit (n mod base)]). rewrite <- app_assoc.
    split_and!; [done| |rewrite length_app; cbn; lia|rewrite length_app; cbn; lia|].
    + rewrite num_acc_app, Hv. unfold num_acc. cbn. rewrite digit_val by lia. lia.
    + apply Forall_app_2; [done|]. apply Forall_singleton.
      exists (n mod base). split; [lia|done].
Qed.

(** The loop stays inside [temp] when it has room for all the digits. *)
Lemma digits_loop_total room n temp :
  0 <= n < base ^ Z.of_nat room -> (0 < room)%nat ->
  is_Some (digits_loop room digit base n temp).
Proof using base_pos.
  revert n temp. induction room as [|room IH]; intros n temp Hn Hr; [lia|].
  cbn [digits_loop]. destruct (Z.eqb_spec (n / base) 0) as [E|E]; [done|].
  rewrite Nat2Z.inj_succ, Z.pow_succ_r in Hn by lia.
  assert (0 < n / base).
  { assert (0 <= n / base) by (apply Z.div_pos; lia). lia. }
  apply IH.
  - split; [lia|]. apply Z.div_lt_upper_bound; lia.
  - destruct room; [|lia]. cbn in Hn. rewrite Z.div_small in E; lia.
Qed.
End Positional.

(** * The decimal readers *)

Lemma is_digit_spec c : is_digit c = negb ((c <? "0"%cc) || ("9"%cc <? c)).
Proof. unfold is_digit. lia. Qed.

Lemma is_digit_val c : is_digit c = true -> 0 <= dec_val c < 10.
Proof. unfold is_digit, dec_val. lia. Qed.

Lemma dec_value_bound l :
  forallb is_digit l = true -> 0 <= dec_value l < 10 ^ Z.of_nat (length l).
Proof.
  intros H. apply num_acc_bound; [lia|].
  apply Forall_forall. intros c Hc. apply is_digit_val.
  rewrite forallb_forall in H. apply H. by apply list_elem_of_In.
Qed.

(** The loop with a wrapped accumulator computes the wrapped number. *)
Lemma decimal_loop_spec line v :
  decimal_loop (i64 v) line =
    if forallb is_digit line then Some (i64 (num_acc 10 dec_val v line)) else None.
Proof.
  revert v. induction line as [|c line IH]; intros v; [done|].
  cbn [decimal_loop forallb]. rewrite is_digit_spec.
  destruct ((c <? "0"%cc) || ("9"%cc <? c)); [done|].
  rewrite swrap_lin by done. rewrite IH. done.
Qed.

Lemma decimal_loop_0 line :
  decimal_loop 0 line =
    if forallb is_digit line then Some (i64 (dec_value line)) else None.
Proof. exact (decimal_loop_spec line 0). Qed.

(** What each of the four readers promises of its argument. *)
Definition reads_decimal (f : list Z -> Z) : Prop :=
  forall line,
    (line <> [] /\ forallb is_digit line = true /\ dec_value line < 2 ^ 63 ->
     f line = dec_value line) /\
    (forallb is_digit line = true /\ 2 ^ 63 <= dec_value line < 2 ^ 64 ->
     f line = NGX_ERROR) /\
    (line = [] \/ forallb is_digit line = false -> f line = NGX_ERROR).

Lemma decimal_reader f :
  (forall line, f line = if decide (length line = 0%nat) then NGX_ERROR
                         else nonnegative (decimal_loop 0 line)) ->
  reads_decimal f.
Proof.
  intros Hf line. rewrite Hf, decimal_loop_0.
  assert (forall w, 2 ^ 63 <= w < 2 ^ 64 -> i64 w < 0) as Hneg.
  { intros w Hw. unfold swrap. rewrite <- (Z.mod_add _ (-1)) by lia.
    rewrite Z.mod_small; lia. }
  split_and!.
  - intros (Hn & Hd & Hb). rewrite Hd.
    destruct (decide _) as [E|_]; [by apply length_zero_iff_nil in E|]. cbn.
    pose proof (dec_value_bound line Hd). rewrite swrap_small by lia.
    destruct (Z.ltb_spec (dec_value line) 0); lia.
  - intros (Hd & Hb). rewrite Hd. destruct (decide _); [done|]. cbn.
    specialize (Hneg _ Hb). by destruct (Z.ltb_spec (i64 (dec_value line)) 0); [|lia].
  - intros [->|E]; [done|]. rewrite E. by destruct (decide _).
Qed.

(** The four decimal readers of ngx_string.c return the value of a
    non-empty string of digits that fits in 63 bits, and return NGX_ERROR for
    the empty string, for a string with a byte that is no digit, and for a
    number in [2^63, 2^64), whose accumulator has turned negative. *)
Theorem decimal_readers_correct :
  Forall reads_decimal [ngx_atoi; ngx_atosz; ngx_atoof; ngx_atotm].
Proof. repeat constructor; by apply decimal_reader. Qed.

(** The sign test does not detect every overflow: a number of 20 digits
    can wrap past 2^64 to a small positive value, which is returned. *)
Theorem atoi_overflow_accepted :
  let line := cstr "18446744073709551617" in
  forallb is_digit line = true /\ dec_value line = 2 ^ 64 + 1 /\
  ngx_atoi line = 1 /\ ngx_atoof line = 1.
Proof. vm_compute. done. Qed.

(** * The writer *)

Definition dec_digit (d : Z) : Z := u8 (d + "0"%cc).

Lemma dec_digit_val d : 0 <= d < 10 -> dec_val (dec_digit d) = d.
Proof. intros. unfold dec_val, dec_digit. rewrite wrap_small; lia. Qed.

Lemma dec_digit_is_digit d : 0 <= d < 10 -> is_digit (dec_digit d) = true.
Proof. intros. unfold is_digit, dec_digit. rewrite wrap_small; lia. Qed.

(** Facts on the sixteen digits, by evaluation. *)
Lemma digit16_forall (P : Z -> bool) :
  forallb P (Z.of_nat <$> seq 0 16) = true -> forall d, 0 <= d < 16 -> P d = true.
Proof.
  rewrite forallb_forall. intros H d Hd. apply H, in_map_iff.
  exists (Z.to_nat d). split; [lia|]. apply in_seq. lia.
Qed.

Definition lower_digit (d : Z) : Z := nth (Z.to_nat d) hex_lower 0.
Definition upper_digit (d : Z) : Z := nth (Z.to_nat d) hex_upper 0.

Lemma lower_digit_val d : 0 <= d < 16 -> hex_val (lower_digit d) = d.
Proof.
  intros. apply Z.eqb_eq. revert d H. apply digit16_forall. vm_compute. done.
Qed.

Lemma upper_digit_val d : 0 <= d < 16 -> hex_val (upper_digit d) = d.
Proof.
  intros. apply Z.eqb_eq. revert d H. apply digit16_forall. vm_compute. done.
Qed.

Lemma hex_digits_xdigit d :
  0 <= d < 16 -> is_xdigit (lower_digit d) && is_xdigit (upper_digit d) = true.
Proof. revert d. apply digit16_forall. vm_compute. done. Qed.

(** The three branches of the digit production, as one loop. *)
Lemma number_digits_cases ui64 hexadecimal :
  0 <= ui64 < 2 ^ 64 ->
  number_digits ui64 hexadecimal =
    if hexadecimal =? 0 then digits_loop NGX_INT64_LEN dec_digit 10 ui64 []
    else if hexadecimal =? 1 then digits_loop NGX_INT64_LEN lower_digit 16 ui64 []
    else digits_loop NGX_INT64_LEN upper_digit 16 ui64 [].
Proof.
  intros H. unfold number_digits. destruct (hexadecimal =? 0); [|done].
  destruct (Z.leb_spec ui64 (2 ^ 32 - 1)); [|done]. rewrite wrap_small by lia. done.
Qed.

Lemma sprintf_num_total room ui64 zero hexadecimal width :
  0 <= ui64 < 2 ^ 64 -> 0 <= room ->
  exists out, ngx_sprintf_num room ui64 zero hexadecimal width = Some out /\
              Z.of_nat (length out) <= room.
Proof.
  intros Hn Hr. unfold ngx_sprintf_num. rewrite number_digits_cases by done.
  assert (exists p, (if hexadecimal =? 0 then digits_loop NGX_INT64_LEN dec_digit 10 ui64 []
     else if hexadecimal =? 1 then digits_loop NGX_INT64_LEN lower_digit 16 ui64 []
     else digits_loop NGX_INT64_LEN upper_digit 16 ui64 []) = Some p) as [p ->].
  { destruct (hexadecimal =? 0); [|destruct (hexadecimal =? 1)];
      apply digits_loop_total; unfold NGX_INT64_LEN; lia. }
  assert (forall k r, 0 <= r -> Z.of_nat (length (pad_loop k r zero)) <= r) as Hpad.
  { induction k as [|k IH]; intros r ?; cbn; [lia|].
    destruct (Z.ltb_spec 0 r); cbn; [specialize (IH (r - 1)); lia|lia]. }
  eexists. split; [done|]. rewrite length_app, length_take.
  specialize (Hpad (Z.to_nat (width - Z.of_nat (length p))) room Hr).
  match goal with |- context [if ?b then _ else _] => destruct b eqn:? end; lia.
Qed.

(** [ngx_sprintf_num] never writes below its [temp] array, for any
    64-bit number and any base, and never writes past [last]. *)
Theorem sprintf_num_in_bounds room ui64 zero hexadecimal width :
  0 <= ui64 < 2 ^ 64 -> 0 <= room ->
  exists out, ngx_sprintf_num room ui64 zero hexadecimal width = Some out /\
              Z.of_nat (length out) <= room.
Proof. apply sprintf_num_total. Qed.

Lemma sprintf_num_in_bounds_witness :
  exists out, ngx_sprintf_num 4 18446744073709551615 "0"%cc 2 18 = Some out /\
              Z.of_nat (length out) <= 4.
Proof. apply (sprintf_num_in_bounds 4 18446744073709551615); lia. Defined.

(** With enough room the padding is complete and the number is not cut. *)
Lemma pad_loop_full k room zero :
  Z.of_nat k <= room -> pad_loop k room zero = replicate k zero.
Proof.
  revert room. induction k as [|k IH]; intros room H; [done|].
  cbn [pad_loop]. destruct (Z.ltb_spec 0 room); [|lia].
  cbn [replicate]. by rewrite IH by lia.
Qed.

Lemma sprintf_num_full room ui64 zero hexadecimal width p :
  number_digits ui64 hexadecimal = Some p ->
  Z.of_nat (length p) <= room -> width <= room ->
  ngx_sprintf_num room ui64 zero hexadecimal width =
    Some (replicate (Z.to_nat (width - Z.of_nat (length p))) zero ++ p).
Proof.
  intros Hp Hl Hw. unfold ngx_sprintf_num. rewrite Hp.
  rewrite pad_loop_full by lia. rewrite length_replicate.
  rewrite take_ge; [done|]. split_if; lia.
Qed.

Lemma num_acc_zeros base val zero k l :
  val zero = 0 -> num_acc base val 0 (replicate k zero ++ l) = num_acc base val 0 l.
Proof.
  intros Hz. induction k as [|k IH]; [done|].
  cbn [replicate app]. rewrite <- IH. unfold num_acc at 1. cbn [fold_left].
  by rewrite Hz.
Qed.

Lemma forallb_replicate {A} (f : A -> bool) k x :
  f x = true -> forallb f (replicate k x) = true.
Proof. intros H. induction k; cbn; [done|]. by rewrite H. Qed.

Lemma forallb_Forall_digits (f : Z -> bool) (digit : Z -> Z) base ds :
  (forall d, 0 <= d < base -> f (digit d) = true) ->
  Forall (fun c => exists d, 0 <= d < base /\ c = digit d) ds ->
  forallb f ds = true.
Proof.
  intros Hf. induction 1 as [|c ds (d & Hd & ->) _ IH]; [done|].
  cbn. by rewrite Hf, IH.
Qed.

(** A number printed in decimal by [ngx_sprintf_num], zero-padded to any
    width that fits, is read back by [ngx_atoi]. *)
Theorem sprintf_num_atoi room n width :
  0 <= n < 2 ^ 63 -> 20 <= room -> width <= room ->
  exists out, ngx_sprintf_num room n "0"%cc 0 width = Some out /\ ngx_atoi out = n.
Proof.
  intros Hn Hr Hw.
  destruct (digits_loop_total 10 dec_digit ltac:(lia) NGX_INT64_LEN n [])
    as [p Hp]; [unfold NGX_INT64_LEN; lia..|].
  pose proof Hp as Hp'.
  apply (digits_loop_spec 10 dec_val) in Hp as (ds & E & Hv & Hl & Hf);
    [|lia|apply dec_digit_val|lia].
  rewrite app_nil_r in E. subst ds. unfold NGX_INT64_LEN in Hl.
  rewrite (sprintf_num_full _ _ _ _ _ p);
    [|rewrite number_digits_cases by lia; exact Hp'|lia|lia].
  eexists. split; [done|].
  set (out := replicate _ _ ++ p).
  assert (forallb is_digit out = true) as Hd.
  { unfold out. rewrite forallb_app, forallb_replicate by done.
    by apply (forallb_Forall_digits _ dec_digit 10); [apply dec_digit_is_digit|]. }
  assert (dec_value out = n) as Hval.
  { unfold out, dec_value. by rewrite num_acc_zeros. }
  destruct (decimal_reader ngx_atoi (fun _ => eq_refl) out) as [H _].
  rewrite H; [done|]. split_and!; [|done|lia].
  unfold out. destruct p; [cbn in Hl; lia|]. by intros [_ ?]%app_eq_nil.
Qed.

Lemma sprintf_num_atoi_witness :
  exists out, ngx_sprintf_num 20 9223372036854775807 "0"%cc 0 2 = Some out /\
              ngx_atoi out = 9223372036854775807.
Proof. apply (sprintf_num_atoi 20 9223372036854775807 2); lia. Defined.

(** * Hexadecimal *)

(** One byte through the two tests of the code. *)
Lemma hex_byte_tests c :
  is_byte c ->
  (("0"%cc <=? c) && (c <=? "9"%cc) = is_digit c) /\
  (is_digit c = false ->
   let c' := u8 (Z.lor c 32) in
   (("a"%cc <=? c') && (c' <=? "f"%cc) = is_xdigit c) /\
   (is_xdigit c = true -> c' - "a"%cc + 10 = hex_val c)).
Proof.
  intros Hc. split; [done|].
  assert (is_digit c
    || Bool.eqb (("a"%cc <=? u8 (Z.lor c 32)) && (u8 (Z.lor c 32) <=? "f"%cc)) (is_xdigit c)
       && (negb (is_xdigit c) || (u8 (Z.lor c 32) - "a"%cc + 10 =? hex_val c)) = true) as H.
  { revert c Hc. apply byte_forall. vm_compute. done. }
  intros E. rewrite E in H. cbn [orb] in H. apply andb_true_iff in H as [H1 H2].
  split; [by apply Bool.eqb_prop|]. intros Hx. rewrite Hx in H2. cbn [negb orb] in H2.
  by apply Z.eqb_eq.
Qed.

Lemma hex_loop_spec line v :
  is_bytes line ->
  hex_loop (i64 v) line =
    if forallb is_xdigit line then Some (i64 (num_acc 16 hex_val v line)) else None.
Proof.
  intros Hb. revert v. induction Hb as [|c line Hc _ IH]; intros v; [done|].
  cbn [hex_loop forallb]. destruct (hex_byte_tests c Hc) as [-> H].
  destruct (is_digit c) eqn:E.
  - assert (is_xdigit c = true) as -> by (unfold is_xdigit; by rewrite E).
    rewrite swrap_lin by done. rewrite IH. cbn [andb].
    assert (hex_val c = c - "0"%cc) as Hv by (unfold hex_val; by rewrite E).
    unfold num_acc at 2. cbn [fold_left]. by rewrite Hv.
  - destruct H as [-> H]; [done|]. destruct (is_xdigit c); [|done].
    rewrite swrap_lin, H, IH by done. done.
Qed.

Lemma hextoi_value line :
  is_bytes line -> line <> [] -> forallb is_xdigit line = true ->
  0 <= hex_value line < 2 ^ 63 -> ngx_hextoi line = hex_value line.
Proof.
  intros Hb Hn Hx Hv. unfold ngx_hextoi.
  destruct (decide _) as [E|_]; [by apply length_zero_iff_nil in E|].
  change (hex_loop 0 line) with (hex_loop (i64 0) line).
  rewrite hex_loop_spec, Hx by done. fold (hex_value line). cbn.
  rewrite swrap_small by lia. destruct (Z.ltb_spec (hex_value line) 0); lia.
Qed.

(** The two hexadecimal digits of a byte. *)
Lemma hex_dump_byte c :
  is_byte c ->
  let h := lower_digit (Z.shiftr c 4) in
  let l := lower_digit (Z.land c 15) in
  is_byte h /\ is_byte l /\ is_xdigit h = true /\ is_xdigit l = true /\
  hex_val h * 16 + hex_val l = c.
Proof.
  intros Hc.
  assert (let h := lower_digit (Z.shiftr c 4) in
          let l := lower_digit (Z.land c 15) in
          bool_decide (is_byte h) && bool_decide (is_byte l) && is_xdigit h
          && is_xdigit l && (hex_val h * 16 + hex_val l =? c) = true) as H.
  { revert c Hc. apply byte_forall. vm_compute. done. }
  cbv zeta in *.
  repeat (apply andb_true_iff in H as [H ?]).
  split_and!; try by (eapply bool_decide_eq_true_1; eassumption).
  - done.
  - done.
  - by apply Z.eqb_eq.
Qed.

Lemma hex_dump_props src :
  is_bytes src ->
  is_bytes (ngx_hex_dump src) /\ forallb is_xdigit (ngx_hex_dump src) = true /\
  forall v, num_acc 16 hex_val v (ngx_hex_dump src) = num_acc 256 id v src.
Proof.
  induction 1 as [|c src Hc _ (IHb & IHx & IHv)]; [split_and!; [constructor|done|done]|].
  destruct (hex_dump_byte c Hc) as (? & ? & Hh & Hl & Hv).
  cbn [ngx_hex_dump]. fold (lower_digit (Z.shiftr c 4)) (lower_digit (Z.land c 15)).
  split_and!.
  - do 2 (constructor; [done|]). done.
  - cbn [forallb]. by rewrite Hh, Hl, IHx.
  - intros v. specialize (IHv (v * 256 + id c)). unfold num_acc in *. cbn [fold_left].
    rewrite <- IHv. f_equal. unfold id. lia.
Qed.

(** [ngx_hextoi] reads back what [ngx_hex_dump] writes: the dump of at
    most seven bytes has two digits per byte and the value of the bytes as a
    big-endian number. *)
Theorem hex_dump_hextoi src :
  is_bytes src -> (0 < length src <= 7)%nat ->
  length (ngx_hex_dump src) = (2 * length src)%nat /\
  ngx_hextoi (ngx_hex_dump src) = num_acc 256 id 0 src.
Proof.
  intros Hb Hl. destruct (hex_dump_props src Hb) as (Hb' & Hx & Hv).
  assert (forall l, length (ngx_hex_dump l) = (2 * length l)%nat) as Hlen.
  { induction l as [|c l IH]; [done|]. cbn [ngx_hex_dump length]. rewrite IH. lia. }
  split; [apply Hlen|]. rewrite <- Hv. apply hextoi_value; [done| |done|].
  - intros E. pose proof (Hlen src) as H. rewrite E in H. cbn in H. lia.
  - unfold hex_value. rewrite Hv.
    pose proof (num_acc_bound 256 id src ltac:(lia) ltac:(by apply (Forall_impl _ _ _ Hb))) as Hbd.
    assert (256 ^ Z.of_nat (length src) <= 256 ^ 7) by (apply Z.pow_le_mono_r; lia).
    lia.
Qed.

Lemma hex_dump_hextoi_witness :
  length (ngx_hex_dump [222; 173; 190; 239]) = 8%nat /\
  ngx_hextoi (ngx_hex_dump [222; 173; 190; 239]) = 3735928559.
Proof.
  apply (hex_dump_hextoi [222; 173; 190; 239]); [by_eval|cbn; lia].
Defined.

(** * Fixed point numbers *)

Lemma atofp_loop_int xs v point rest :
  forallb is_digit xs = true -> point <> 0 ->
  atofp_loop (i64 v) 0 point (xs ++ rest) =
    atofp_loop (i64 (num_acc 10 dec_val v xs)) 0 point rest.
Proof.
  revert v. induction xs as [|c xs IH]; intros v Hd Hp; [done|].
  cbn [forallb] in Hd. apply andb_true_iff in Hd as [Hc Hd].
  cbn [app atofp_loop]. rewrite (proj2 (Z.eqb_neq point 0)) by done.
  assert ((c =? "."%cc) = false) as -> by (unfold is_digit in Hc; lia).
  rewrite is_digit_spec in Hc. apply negb_true_iff in Hc. rewrite Hc.
  rewrite Z.sub_0_r, swrap_lin by done. by rewrite IH.
Qed.

Lemma atofp_loop_frac ys v point :
  forallb is_digit ys = true -> 0 <= point ->
  atofp_loop (i64 v) 1 point ys =
    if Z.of_nat (length ys) <=? point
    then Some (i64 (num_acc 10 dec_val v ys), point - Z.of_nat (length ys)) else None.
Proof.
  revert v point. induction ys as [|c ys IH]; intros v point Hd Hp.
  - cbn [atofp_loop length]. change (Z.of_nat 0) with 0. rewrite Z.sub_0_r.
    by destruct (Z.leb_spec 0 point); [|lia].
  - cbn [forallb] in Hd. apply andb_true_iff in Hd as [Hc Hd].
    cbn [atofp_loop length].
    destruct (Z.eqb_spec point 0) as [->|Hp0].
    { destruct (Z.leb_spec (Z.of_nat (S (length ys))) 0); [lia|done]. }
    assert ((c =? "."%cc) = false) as -> by (unfold is_digit in Hc; lia).
    rewrite is_digit_spec in Hc. apply negb_true_iff in Hc. rewrite Hc.
    rewrite swrap_lin, IH by (done || lia).
    destruct (Z.leb_spec (Z.of_nat (length ys)) (point - 1)),
      (Z.leb_spec (Z.of_nat (S (length ys))) point); try lia; [|done].
    do 2 f_equal. lia.
Qed.

Lemma scale10_spec k v : scale10 (i64 v) k = i64 (v * 10 ^ Z.of_nat k).
Proof.
  revert v. induction k as [|k IH]; intros v.
  { cbn [scale10]. f_equal. cbn. lia. }
  cbn [scale10]. rewrite swrap_mul, IH by done. f_equal.
  rewrite Nat2Z.inj_succ, Z.pow_succ_r by lia. ring.
Qed.

(** [ngx_atofp] on "xs.ys" returns the number scaled by 10^point when the
    fraction has at most [point] digits and the result fits, and NGX_ERROR
    when the fraction has more. *)
Theorem atofp_correct xs ys point :
  forallb is_digit xs = true -> forallb is_digit ys = true -> 0 < point ->
  let n := Z.of_nat (length ys) in
  let line := xs ++ "."%cc :: ys in
  (n <= point -> dec_value (xs ++ ys) * 10 ^ (point - n) < 2 ^ 63 ->
   ngx_atofp line point = dec_value (xs ++ ys) * 10 ^ (point - n)) /\
  (point < n -> ngx_atofp line point = NGX_ERROR).
Proof.
  intros Hx Hy Hp n line. unfold ngx_atofp.
  destruct (decide (length line = 0%nat)) as [E|_].
  { unfold line in E. rewrite length_app in E. cbn in E. lia. }
  unfold line. change (atofp_loop 0 0) with (atofp_loop (i64 0) 0).
  rewrite atofp_loop_int by (done || lia). cbn [atofp_loop].
  rewrite (proj2 (Z.eqb_neq point 0)) by lia. rewrite Z.eqb_refl. cbn [Z.eqb].
  rewrite atofp_loop_frac by (done || lia). fold n.
  rewrite <- num_acc_app. fold (dec_value (xs ++ ys)).
  split; intros Hn.
  - intros Hb. destruct (Z.leb_spec n point); [|lia].
    rewrite scale10_spec, Z2Nat.id by lia.
    pose proof (dec_value_bound (xs ++ ys)) as Hv.
    rewrite forallb_app, Hx, Hy in Hv. specialize (Hv eq_refl).
    assert (0 < 10 ^ (point - n)) by (apply Z.pow_pos_nonneg; lia).
    cbn [nonnegative]. rewrite swrap_small by nia.
    destruct (Z.ltb_spec (dec_value (xs ++ ys) * 10 ^ (point - n)) 0); nia.
  - destruct (Z.leb_spec n point); [lia|done].
Qed.

Lemma atofp_correct_witness :
  ngx_atofp (cstr "10.5") 2 = 1050 /\ ngx_atofp (cstr "10.555") 2 = NGX_ERROR.
Proof.
  split.
  - apply (proj1 (atofp_correct (cstr "10") (cstr "5") 2 eq_refl eq_refl ltac:(lia)));
      [vm_compute; done|vm_compute; done].
  - apply (proj2 (atofp_correct (cstr "10") (cstr "555") 2 eq_refl eq_refl ltac:(lia))).
    vm_compute. done.
Defined.
