(* ===== verification/NgxBase64.v ===== *)
(** Base64: [ngx_encode_base64], [ngx_decode_base64], [ngx_decode_base64url]
    and [ngx_decode_base64_internal] of src/core/ngx_string.c, with the two
    length macros of ngx_string.h.

    An [ngx_str_t] is the list of its bytes; the destination of a call is the
    list the call writes, whose length is the [dst->len] it sets. *)

From S2P Require Import Prelude.

Open Scope Z_scope.

(** * The code *)

Definition basis64_encode : list Z :=
  cstr "ABCDEFGHIJKLMNOPQRSTUVWXYZabcdefghijklmnopqrstuvwxyz0123456789+/".

Definition enc (i : Z) : Z := nth (Z.to_nat i) basis64_encode 0.

Fixpoint ngx_encode_base64 (s : list Z) : list Z :=
  match s with
  | s0 :: s1 :: s2 :: s' =>
      enc (Z.land (Z.shiftr s0 2) 63)
        :: enc (Z.lor (Z.shiftl (Z.land s0 3) 4) (Z.shiftr s1 4))
        :: enc (Z.lor (Z.shiftl (Z.land s1 15) 2) (Z.shiftr s2 6))
        :: enc (Z.land s2 63)
        :: ngx_encode_base64 s'
  | [s0; s1] =>
      [enc (Z.land (Z.shiftr s0 2) 63);
       enc (Z.lor (Z.shiftl (Z.land s0 3) 4) (Z.shiftr s1 4));
       enc (Z.shiftl (Z.land s1 15) 2);
       "="%cc]
  | [s0] =>
      [enc (Z.land (Z.shiftr s0 2) 63);
       enc (Z.shiftl (Z.land s0 3) 4);
       "="%cc;
       "="%cc]
  | [] => []
  end.

(** The [basis64] table of [ngx_decode_base64]. *)
Definition basis64_decode : list Z :=
  [77; 77; 77; 77; 77; 77; 77; 77; 77; 77; 77; 77; 77; 77; 77; 77;
   77; 77; 77; 77; 77; 77; 77; 77; 77; 77; 77; 77; 77; 77; 77; 77;
   77; 77; 77; 77; 77; 77; 77; 77; 77; 77; 77; 62; 77; 77; 77; 63;
   52; 53; 54; 55; 56; 57; 58; 59; 60; 61; 77; 77; 77; 77; 77; 77;
   77; 0; 1; 2; 3; 4; 5; 6; 7; 8; 9; 10; 11; 12; 13; 14;
   15; 16; 17; 18; 19; 20; 21; 22; 23; 24; 25; 77; 77; 77; 77; 77;
   77; 26; 27; 28; 29; 30; 31; 32; 33; 34; 35; 36; 37; 38; 39; 40;
   41; 42; 43; 44; 45; 46; 47; 48; 49; 50; 51; 77; 77; 77; 77; 77;
   77; 77; 77; 77; 77; 77; 77; 77; 77; 77; 77; 77; 77; 77; 77; 77;
   77; 77; 77; 77; 77; 77; 77; 77; 77; 77; 77; 77; 77; 77; 77; 77;
   77; 77; 77; 77; 77; 77; 77; 77; 77; 77; 77; 77; 77; 77; 77; 77;
   77; 77; 77; 77; 77; 77; 77; 77; 77; 77; 77; 77; 77; 77; 77; 77;
   77; 77; 77; 77; 77; 77; 77; 77; 77; 77; 77; 77; 77; 77; 77; 77;
   77; 77; 77; 77; 77; 77; 77; 77; 77; 77; 77; 77; 77; 77; 77; 77;
   77; 77; 77; 77; 77; 77; 77; 77; 77; 77; 77; 77; 77; 77; 77; 77;
   77; 77; 77; 77; 77; 77; 77; 77; 77; 77; 77; 77; 77; 77; 77; 77].

(** The [basis64] table of [ngx_decode_base64url]. *)
Definition basis64url_decode : list Z :=
  [77; 77; 77; 77; 77; 77; 77; 77; 77; 77; 77; 77; 77; 77; 77; 77;
   77; 77; 77; 77; 77; 77; 77; 77; 77; 77; 77; 77; 77; 77; 77; 77;
   77; 77; 77; 77; 77; 77; 77; 77; 77; 77; 77; 77; 77; 62; 77; 77;
   52; 53; 54; 55; 56; 57; 58; 59; 60; 61; 77; 77; 77; 77; 77; 77;
   77; 0; 1; 2; 3; 4; 5; 6; 7; 8; 9; 10; 11; 12; 13; 14;
   15; 16; 17; 18; 19; 20; 21; 22; 23; 24; 25; 77; 77; 77; 77; 63;
   77; 26; 27; 28; 29; 30; 31; 32; 33; 34; 35; 36; 37; 38; 39; 40;
   41; 42; 43; 44; 45; 46; 47; 48; 49; 50; 51; 77; 77; 77; 77; 77;
   77; 77; 77; 77; 77; 77; 77; 77; 77; 77; 77; 77; 77; 77; 77; 77;
   77; 77; 77; 77; 77; 77; 77; 77; 77; 77; 77; 77; 77; 77; 77; 77;
   77; 77; 77; 77; 77; 77; 77; 77; 77; 77; 77; 77; 77; 77; 77; 77;
   77; 77; 77; 77; 77; 77; 77; 77; 77; 77; 77; 77; 77; 77; 77; 77;
   77; 77; 77; 77; 77; 77; 77; 77; 77; 77; 77; 77; 77; 77; 77; 77;
   77; 77; 77; 77; 77; 77; 77; 77; 77; 77; 77; 77; 77; 77; 77; 77;
   77; 77; 77; 77; 77; 77; 77; 77; 77; 77; 77; 77; 77; 77; 77; 77;
   77; 77; 77; 77; 77; 77; 77; 77; 77; 77; 77; 77; 77; 77; 77; 77].

(** The first loop of [ngx_decode_base64_internal]: the length up to the
    first '=', [None] when a byte before it is not in the alphabet. *)
Fixpoint decode_scan (basis : list Z) (src : list Z) : option nat :=
  match src with
  | [] => Some 0%nat
  | c :: src' =>
      if c =? "="%cc then Some 0%nat
      else if nth (Z.to_nat c) basis 0 =? 77 then None
      else option_map S (decode_scan basis src')
  end.

(** The second loop and the two tests that follow it. *)
Fixpoint decode_groups (basis : list Z) (s : list Z) : list Z :=
  let b c := nth (Z.to_nat c) basis 0 in
  match s with
  | s0 :: s1 :: s2 :: s3 :: s' =>
      u8 (Z.lor (Z.shiftl (b s0) 2) (Z.shiftr (b s1) 4))
        :: u8 (Z.lor (Z.shiftl (b s1) 4) (Z.shiftr (b s2) 2))
        :: u8 (Z.lor (Z.shiftl (b s2) 6) (b s3))
        :: decode_groups basis s'
  | [s0; s1; s2] =>
      [u8 (Z.lor (Z.shiftl (b s0) 2) (Z.shiftr (b s1) 4));
       u8 (Z.lor (Z.shiftl (b s1) 4) (Z.shiftr (b s2) 2))]
  | [s0; s1] => [u8 (Z.lor (Z.shiftl (b s0) 2) (Z.shiftr (b s1) 4))]
  | _ => []
  end.

(** [None] is [NGX_ERROR], [Some dst] is [NGX_OK] with the bytes written. *)
Definition ngx_decode_base64_internal (src basis : list Z) : option (list Z) :=
  match decode_scan basis src with
  | None => None
  | Some len =>
      if decide (len mod 4 = 1)%nat then None
      else Some (decode_groups basis (take len src))
  end.

Definition ngx_decode_base64 (src : list Z) : option (list Z) :=
  ngx_decode_base64_internal src basis64_decode.

Definition ngx_decode_base64url (src : list Z) : option (list Z) :=
  ngx_decode_base64_internal src basis64url_decode.

Definition ngx_base64_encoded_length (len : nat) : nat := ((len + 2) / 3 * 4)%nat.
Definition ngx_base64_decoded_length (len : nat) : nat := ((len + 3) / 4 * 3)%nat.

(** * The bit shuffling as arithmetic *)

Lemma shr z n : 0 <= n -> Z.shiftr z n = z / 2 ^ n.
Proof. intros. by apply Z.shiftr_div_pow2. Qed.

Lemma enc_i0 s0 : is_byte s0 -> Z.land (Z.shiftr s0 2) 63 = s0 / 4.
Proof.
  unfold is_byte. intros. change 63 with (2 ^ 6 - 1).
  rewrite land_ones_mod, shr by lia. change (2 ^ 2) with 4. change (2 ^ 6) with 64.
  Z.div_mod_to_equations. lia.
Qed.

Lemma enc_i1' s0 : Z.shiftl (Z.land s0 3) 4 = (s0 mod 4) * 16.
Proof.
  change 3 with (2 ^ 2 - 1). by rewrite land_ones_mod, Z.shiftl_mul_pow2 by lia.
Qed.

Lemma enc_i2' s1 : Z.shiftl (Z.land s1 15) 2 = (s1 mod 16) * 4.
Proof.
  change 15 with (2 ^ 4 - 1). by rewrite land_ones_mod, Z.shiftl_mul_pow2 by lia.
Qed.

Lemma enc_i1 s0 s1 :
  is_byte s1 ->
  Z.lor (Z.shiftl (Z.land s0 3) 4) (Z.shiftr s1 4) = (s0 mod 4) * 16 + s1 / 16.
Proof.
  unfold is_byte. intros. change 3 with (2 ^ 2 - 1).
  rewrite land_ones_mod, shr by lia. change (2 ^ 2) with 4. change (2 ^ 4) with 16.
  apply lor_shiftl_add; [lia|]. Z.div_mod_to_equations. lia.
Qed.

Lemma enc_i2 s1 s2 :
  is_byte s2 ->
  Z.lor (Z.shiftl (Z.land s1 15) 2) (Z.shiftr s2 6) = (s1 mod 16) * 4 + s2 / 64.
Proof.
  unfold is_byte. intros. change 15 with (2 ^ 4 - 1).
  rewrite land_ones_mod, shr by lia. change (2 ^ 4) with 16. change (2 ^ 6) with 64.
  apply lor_shiftl_add; [lia|]. Z.div_mod_to_equations. lia.
Qed.

Lemma enc_i3 s2 : Z.land s2 63 = s2 mod 64.
Proof. change 63 with (2 ^ 6 - 1). by rewrite land_ones_mod by lia. Qed.

Lemma dec_o0 i0 i1 :
  0 <= i0 < 64 -> 0 <= i1 < 64 ->
  u8 (Z.lor (Z.shiftl i0 2) (Z.shiftr i1 4)) = i0 * 4 + i1 / 16.
Proof.
  intros. rewrite shr by lia. change (2 ^ 4) with 16.
  assert (0 <= i1 / 16 < 4) by (Z.div_mod_to_equations; lia).
  rewrite lor_shiftl_add by lia. apply wrap_small. lia.
Qed.

Lemma dec_o1 i1 i2 :
  0 <= i1 < 64 -> 0 <= i2 < 64 ->
  u8 (Z.lor (Z.shiftl i1 4) (Z.shiftr i2 2)) = (i1 mod 16) * 16 + i2 / 4.
Proof.
  intros. rewrite shr by lia. change (2 ^ 2) with 4.
  assert (0 <= i2 / 4 < 16) by (Z.div_mod_to_equations; lia).
  rewrite lor_shiftl_add by lia. unfold wrap. change (2 ^ 4) with 16. change (2 ^ 8) with 256.
  Z.div_mod_to_equations. lia.
Qed.

Lemma dec_o2 i2 i3 :
  0 <= i2 < 64 -> 0 <= i3 < 64 ->
  u8 (Z.lor (Z.shiftl i2 6) i3) = (i2 mod 4) * 64 + i3.
Proof.
  intros. rewrite lor_shiftl_add by lia. unfold wrap.
  change (2 ^ 6) with 64. change (2 ^ 8) with 256. Z.div_mod_to_equations. lia.
Qed.

(** * The alphabets *)

Definition url_alphabet (c : Z) : Z :=
  if c =? "+"%cc then "-"%cc else if c =? "/"%cc then "_"%cc else c.

(** A decoding table with a translation of the encoder's alphabet. *)
Definition inverts (tr : Z -> Z) (basis : list Z) : Prop :=
  tr "="%cc = "="%cc /\
  forall i, 0 <= i < 64 ->
    tr (enc i) <> "="%cc /\ nth (Z.to_nat (tr (enc i))) basis 0 = i.

Lemma inverts_eval tr basis :
  (tr "="%cc =? "="%cc) &&
  forallb (fun i => negb (tr (enc i) =? "="%cc)
                    && (nth (Z.to_nat (tr (enc i))) basis 0 =? i))
    (Z.of_nat <$> seq 0 64) = true ->
  inverts tr basis.
Proof.
  intros [H0 H]%andb_true_iff. apply Z.eqb_eq in H0. split; [done|].
  rewrite forallb_forall in H. intros i Hi.
  assert (In i (Z.of_nat <$> seq 0 64)) as Hin.
  { apply in_map_iff. exists (Z.to_nat i). split; [lia|]. apply in_seq. lia. }
  apply H in Hin. apply andb_true_iff in Hin as [H1 H2].
  split; [by apply Z.eqb_neq, negb_true_iff|by apply Z.eqb_eq].
Qed.

Lemma inverts_base64 : inverts id basis64_decode.
Proof. apply inverts_eval. vm_compute. done. Qed.

Lemma inverts_base64url : inverts url_alphabet basis64url_decode.
Proof. apply inverts_eval. vm_compute. done. Qed.

(** * Round trip *)

Section RoundTrip.
Context (tr : Z -> Z) (basis : list Z) (Hinv : inverts tr basis).

Lemma scan_digit i rest :
  0 <= i < 64 ->
  decode_scan basis (tr (enc i) :: rest) = option_map S (decode_scan basis rest).
Proof using Hinv.
  intros Hi. destruct Hinv as [_ H]. destruct (H i Hi) as [Hne Hnth].
  cbn [decode_scan]. rewrite Hnth.
  destruct (Z.eqb_spec (tr (enc i)) "="%cc); [done|].
  destruct (Z.eqb_spec i 77); [lia|done].
Qed.

Lemma scan_pad rest : decode_scan basis (tr "="%cc :: rest) = Some 0%nat.
Proof using Hinv. destruct Hinv as [-> _]. done. Qed.

Lemma basis_digit i : 0 <= i < 64 -> nth (Z.to_nat (tr (enc i))) basis 0 = i.
Proof using Hinv. intros Hi. by apply Hinv. Qed.

(** The six-bit digits of the bytes are in range. *)
Ltac digits :=
  unfold is_byte in *; Z.div_mod_to_equations; lia.

Lemma decode_encode_parts s :
  is_bytes s ->
  exists len, decode_scan basis (tr <$> ngx_encode_base64 s) = Some len /\
    (len mod 4 <> 1)%nat /\
    decode_groups basis (take len (tr <$> ngx_encode_base64 s)) = s.
Proof using Hinv.
  induction s as [|s0|s0 s1|s0 s1 s2 s IH] using list_ind3; intros Hb.
  - exists 0%nat. done.
  - apply Forall_cons in Hb as [H0 _]. exists 2%nat.
    cbn [ngx_encode_base64 fmap list_fmap]. rewrite enc_i0, enc_i1' by done.
    rewrite !scan_digit, scan_pad by digits. split_and!; [done|done|].
    cbn [take decode_groups]. rewrite !basis_digit, dec_o0 by digits.
    f_equal. digits.
  - apply Forall_cons in Hb as [H0 [H1 _]%Forall_cons]. exists 3%nat.
    cbn [ngx_encode_base64 fmap list_fmap]. rewrite enc_i0, enc_i1, enc_i2' by done.
    rewrite !scan_digit, scan_pad by digits. split_and!; [done|done|].
    cbn [take decode_groups]. rewrite !basis_digit, dec_o0, dec_o1 by digits.
    f_equal; [digits|]. f_equal. digits.
  - apply Forall_cons in Hb as [H0 [H1 [H2 Hb]%Forall_cons]%Forall_cons].
    destruct (IH Hb) as (len & Hs & Hm & Hg). exists (S (S (S (S len)))).
    cbn [ngx_encode_base64 fmap list_fmap]. rewrite enc_i0, enc_i1, enc_i2, enc_i3 by done.
    rewrite !scan_digit by digits.
    change (list_fmap Z Z tr) with (fmap (M:=list) tr) in *. rewrite Hs.
    split_and!; [done| |].
    + replace (S (S (S (S len)))) with (len + 1 * 4)%nat by lia.
      by rewrite Nat.Div0.mod_add.
    + cbn [take decode_groups]. rewrite !basis_digit, Hg, dec_o0, dec_o1, dec_o2 by digits.
      f_equal; [digits|]. f_equal; [digits|]. f_equal. digits.
Qed.

Lemma decode_encode s :
  is_bytes s -> ngx_decode_base64_internal (tr <$> ngx_encode_base64 s) basis = Some s.
Proof using Hinv.
  intros Hb. destruct (decode_encode_parts s Hb) as (len & Hs & Hm & Hg).
  unfold ngx_decode_base64_internal. rewrite Hs, Hg. by destruct (decide _).
Qed.
End RoundTrip.

Lemma encoded_length s :
  length (ngx_encode_base64 s) = ngx_base64_encoded_length (length s).
Proof.
  unfold ngx_base64_encoded_length.
  induction s as [|s0|s0 s1|s0 s1 s2 s IH] using list_ind3; [done..|].
  cbn [ngx_encode_base64 length]. rewrite IH.
  replace (S (S (S (length s))) + 2)%nat with (length s + 2 + 1 * 3)%nat by lia.
  rewrite Nat.div_add by lia. lia.
Qed.

(** C21: every byte string survives base64: [ngx_decode_base64] of
    [ngx_encode_base64], and [ngx_decode_base64url] of the encoding in the URL
    alphabet, return the source; the encoding has the length the allocation
    macro [ngx_base64_encoded_length] computes. *)
Theorem base64_roundtrip s :
  is_bytes s ->
  ngx_decode_base64 (ngx_encode_base64 s) = Some s /\
  ngx_decode_base64url (url_alphabet <$> ngx_encode_base64 s) = Some s /\
  length (ngx_encode_base64 s) = ngx_base64_encoded_length (length s).
Proof.
  intros Hb. split_and!.
  - etrans; [|exact (decode_encode id basis64_decode inverts_base64 s Hb)].
    by rewrite list_fmap_id.
  - exact (decode_encode url_alphabet basis64url_decode inverts_base64url s Hb).
  - apply encoded_length.
Qed.

Lemma base64_roundtrip_witness :
  ngx_decode_base64 (ngx_encode_base64 [0; 255; 16; 131]) = Some [0; 255; 16; 131] /\
  ngx_decode_base64url (url_alphabet <$> ngx_encode_base64 [0; 255; 16; 131])
    = Some [0; 255; 16; 131] /\
  length (ngx_encode_base64 [0; 255; 16; 131]) = 8%nat.
Proof. apply (base64_roundtrip [0; 255; 16; 131]). by_eval. Defined.

(** * What the decoder accepts *)

(** The bytes before the first '='. *)
Fixpoint before_pad (src : list Z) : list Z :=
  match src with
  | [] => []
  | c :: src' => if c =? "="%cc then [] else c :: before_pad src'
  end.

Definition in_alphabet (basis : list Z) (c : Z) : bool :=
  negb (nth (Z.to_nat c) basis 0 =? 77).

Lemma decode_scan_spec basis src :
  decode_scan basis src =
    if forallb (in_alphabet basis) (before_pad src)
    then Some (length (before_pad src)) else None.
Proof.
  induction src as [|c src IH]; [done|]. cbn [decode_scan before_pad].
  destruct (c =? "="%cc); [done|]. cbn [forallb length]. unfold in_alphabet at 1.
  destruct (nth (Z.to_nat c) basis 0 =? 77); cbn [negb andb]; [done|].
  rewrite IH. by destruct (forallb _ _).
Qed.

Lemma decode_groups_length basis s :
  (length s mod 4 <> 1)%nat ->
  length (decode_groups basis s) = (length s * 3 / 4)%nat.
Proof.
  revert s. fix IH 1. intros [|s0 [|s1 [|s2 [|s3 s]]]] Hm; [done|done|done|done|].
  cbn [decode_groups length]. rewrite IH.
  - replace (S (S (S (S (length s)))) * 3)%nat with (length s * 3 + 3 * 4)%nat by lia.
    rewrite Nat.div_add by lia. lia.
  - intros E. apply Hm. cbn [length].
    replace (S (S (S (S (length s))))) with (length s + 1 * 4)%nat by lia.
    by rewrite Nat.Div0.mod_add.
Qed.

(** The decoder accepts exactly the strings whose bytes before the first
    '=' are all in the alphabet and whose number is not 1 modulo 4; what it
    writes fits in the buffer sized by [ngx_base64_decoded_length]. *)
Theorem base64_decode_accepts src :
  let p := before_pad src in
  (is_Some (ngx_decode_base64 src) <->
     forallb (in_alphabet basis64_decode) p = true /\ (length p mod 4 <> 1)%nat) /\
  (forall dst, ngx_decode_base64 src = Some dst ->
     length dst = (length p * 3 / 4)%nat /\
     (length dst <= ngx_base64_decoded_length (length src))%nat).
Proof.
  intros p. unfold ngx_decode_base64, ngx_decode_base64_internal.
  rewrite decode_scan_spec. fold p.
  destruct (forallb _ p) eqn:Hf; [|split; [split; [by intros [? ?]|by intros [? _]]|done]].
  destruct (decide _) as [E|E].
  { split; [split; [by intros [? ?]|by intros [_ ?]]|done]. }
  split; [done|]. intros dst [= <-].
  assert (take (length p) src = p /\ (length p <= length src)%nat) as [Ht Hl].
  { clear Hf E. subst p. induction src as [|c src [IH1 IH2]]; [done|].
    cbn [before_pad]. destruct (c =? "="%cc); [split; [done|cbn; lia]|].
    cbn [length take]. rewrite IH1. split; [done|lia]. }
  rewrite Ht, decode_groups_length by done. split; [done|].
  unfold ngx_base64_decoded_length.
  etrans; [apply (Nat.Div0.div_le_mono _ (length src * 3)); lia|].
  apply Nat.Div0.div_le_upper_bound.
  pose proof (Nat.div_mod_eq (length src + 3) 4).
  pose proof (Nat.mod_upper_bound (length src + 3) 4). lia.
Qed.
