(* ===== verification/NgxUtf8.v ===== *)
(** UTF-8: [ngx_utf8_decode], [ngx_utf8_length] and [ngx_utf8_cpystrn] of
    src/core/ngx_string.c.

    A pointer is the list of the bytes readable from it on; [None] is a read
    past the readable memory. *)

From S2P Require Import Prelude.

Open Scope Z_scope.

(** * The code *)

(** [while (len) ...] and the final test of [ngx_utf8_decode]. *)
Fixpoint utf8_tail (len : nat) (u valid : Z) (p : list Z) : option (Z * list Z) :=
  match len with
  | O => Some (if valid <? u then u else 0xffffffff, p)
  | S len' =>
      match p with
      | [] => None
      | i :: p' =>
          if i <? 0x80 then Some (0xffffffff, p')
          else utf8_tail len' (u32 (Z.lor (Z.shiftl u 6) (Z.land i 0x3f))) valid p'
      end
  end.

(** The test [n - 1 < len] and what follows it; [n] is a [size_t]. *)
Definition utf8_sequence (p p' : list Z) (n u valid : Z) (len : nat)
  : option (Z * list Z) :=
  if u64 (n - 1) <? Z.of_nat len then Some (0xfffffffe, p)
  else utf8_tail len u valid p'.

(** The value returned and the advanced pointer. *)
Definition ngx_utf8_decode (p : list Z) (n : Z) : option (Z * list Z) :=
  match p with
  | [] => None
  | u :: p' =>
      if 0xf0 <=? u then utf8_sequence p p' n (Z.land u 0x07) 0xffff 3
      else if 0xe0 <=? u then utf8_sequence p p' n (Z.land u 0x0f) 0x7ff 2
      else if 0xc2 <=? u then utf8_sequence p p' n (Z.land u 0x1f) 0x7f 1
      else Some (0xffffffff, p')
  end.

(** The loop of [ngx_utf8_length]: [rem] is [last - p].  Every turn advances
    [p], so [n] turns suffice; the last result is never reached. *)
Fixpoint utf8_length_loop (fuel : nat) (p : list Z) (rem n len : Z) : option Z :=
  if rem <=? 0 then Some len
  else match fuel with
  | O => None
  | S fuel' =>
      match p with
      | [] => None
      | c :: p' =>
          if c <? 0x80 then utf8_length_loop fuel' p' (rem - 1) n (len + 1)
          else match ngx_utf8_decode p n with
               | None => None
               | Some (u, q) =>
                   if 0x10ffff <? u then Some n
                   else utf8_length_loop fuel' q
                          (rem - (Z.of_nat (length p) - Z.of_nat (length q))) n (len + 1)
               end
      end
  end.

Definition ngx_utf8_length (p : list Z) (n : Z) : option Z :=
  utf8_length_loop (Z.to_nat n) p n n 0.

(** [ngx_utf8_cpystrn]: the bytes copied before the terminating zero; [k] is
    [n] after [--n], the number of turns left. *)
Fixpoint utf8_cpystrn_loop (k : nat) (src : list Z) (len : Z) : option (list Z) :=
  match k with
  | O => Some []
  | S k' =>
      match src with
      | [] => None
      | c :: src' =>
          if c <? 0x80 then
            if c =? 0 then Some []
            else cons c <$> utf8_cpystrn_loop k' src' (u64 (len - 1))
          else match ngx_utf8_decode src len with
               | None => None
               | Some (u, next) =>
                   if 0x10ffff <? u then Some []
                   else
                     let copied := (length src - length next)%nat in
                     app (take copied src)
                       <$> utf8_cpystrn_loop k' next (u64 (len - Z.of_nat copied))
               end
      end
  end.

(** What the call stores at [dst]: nothing for [n = 0], else the copied bytes
    and the terminating zero; the returned pointer is at the zero. *)
Definition ngx_utf8_cpystrn (src : list Z) (n : nat) (len : Z) : option (list Z) :=
  match n with
  | O => Some []
  | S k => (fun out => out ++ [0]) <$> utf8_cpystrn_loop k src len
  end.

(** * The encoding the decoder is meant for *)

Definition utf8_encode (c : Z) : list Z :=
  if c <? 0x80 then [c]
  else if c <? 0x800 then [0xc0 + c / 64; 0x80 + c mod 64]
  else if c <? 0x10000 then
    [0xe0 + c / 4096; 0x80 + (c / 64) mod 64; 0x80 + c mod 64]
  else
    [0xf0 + c / 262144; 0x80 + (c / 4096) mod 64; 0x80 + (c / 64) mod 64; 0x80 + c mod 64].

(** One turn of the inner loop on a continuation byte. *)
Lemma utf8_tail_cont len u valid b p :
  0 <= b < 64 -> 0 <= u < 2 ^ 26 ->
  utf8_tail (S len) u valid (0x80 + b :: p) = utf8_tail len (u * 64 + b) valid p.
Proof.
  intros Hb Hu. cbn [utf8_tail]. destruct (Z.ltb_spec (0x80 + b) 0x80); [lia|].
  change 0x3f with (2 ^ 6 - 1). rewrite land_ones_mod by lia.
  replace ((0x80 + b) mod 2 ^ 6) with b by (change (2 ^ 6) with 64; Z.div_mod_to_equations; lia).
  rewrite lor_shiftl_add, wrap_small by lia. done.
Qed.

Lemma utf8_sequence_enough p p' n u valid len :
  Z.of_nat len < n < 2 ^ 64 -> utf8_sequence p p' n u valid len = utf8_tail len u valid p'.
Proof.
  intros. unfold utf8_sequence. rewrite wrap_small by lia.
  destruct (Z.ltb_spec (n - 1) (Z.of_nat len)); [lia|done].
Qed.

Lemma utf8_tail_done u valid p : valid < u -> utf8_tail 0 u valid p = Some (u, p).
Proof. intros. cbn. by destruct (Z.ltb_spec valid u); [|lia]. Qed.

Ltac dm := Z.div_mod_to_equations; lia.

Lemma utf8_decode_encode c rest n :
  0x80 <= c <= 0x10ffff -> Z.of_nat (length (utf8_encode c)) <= n < 2 ^ 64 ->
  ngx_utf8_decode (utf8_encode c ++ rest) n = Some (c, rest).
Proof.
  intros Hc. unfold utf8_encode.
  destruct (Z.ltb_spec c 0x80); [lia|].
  destruct (Z.ltb_spec c 0x800); [|destruct (Z.ltb_spec c 0x10000)];
    cbn [length app]; intros Hn; unfold ngx_utf8_decode.
  - assert (0 <= c / 64 < 32) by dm.
    destruct (Z.leb_spec 0xf0 (0xc0 + c / 64)); [lia|].
    destruct (Z.leb_spec 0xe0 (0xc0 + c / 64)); [lia|].
    destruct (Z.leb_spec 0xc2 (0xc0 + c / 64)); [|dm].
    rewrite utf8_sequence_enough by lia.
    change 0x1f with (2 ^ 5 - 1). rewrite land_ones_mod by lia. change (2 ^ 5) with 32.
    replace ((0xc0 + c / 64) mod 32) with (c / 64) by dm.
    rewrite utf8_tail_cont by (lia || dm). rewrite utf8_tail_done by dm.
    do 2 f_equal. dm.
  - assert (0 <= c / 4096 < 16) by dm.
    destruct (Z.leb_spec 0xf0 (0xe0 + c / 4096)); [lia|].
    destruct (Z.leb_spec 0xe0 (0xe0 + c / 4096)); [|lia].
    rewrite utf8_sequence_enough by lia.
    change 0x0f with (2 ^ 4 - 1). rewrite land_ones_mod by lia. change (2 ^ 4) with 16.
    replace ((0xe0 + c / 4096) mod 16) with (c / 4096) by dm.
    rewrite utf8_tail_cont by (lia || dm). rewrite utf8_tail_cont by (lia || dm).
    rewrite utf8_tail_done by dm. do 2 f_equal. dm.
  - assert (0 <= c / 262144 < 5) by dm.
    destruct (Z.leb_spec 0xf0 (0xf0 + c / 262144)); [|lia].
    rewrite utf8_sequence_enough by lia.
    change 0x07 with (2 ^ 3 - 1). rewrite land_ones_mod by lia. change (2 ^ 3) with 8.
    replace ((0xf0 + c / 262144) mod 8) with (c / 262144) by dm.
    rewrite utf8_tail_cont by (lia || dm). rewrite utf8_tail_cont by (lia || dm).
    rewrite utf8_tail_cont by (lia || dm). rewrite utf8_tail_done by dm.
    do 2 f_equal. dm.
Qed.

(** A text is the list of its code points, [utf8_text] its bytes. *)
Definition utf8_text (cs : list Z) : list Z := concat (utf8_encode <$> cs).

Lemma utf8_text_cons c cs : utf8_text (c :: cs) = utf8_encode c ++ utf8_text cs.
Proof. done. Qed.

Lemma utf8_encode_ascii c : c < 0x80 -> utf8_encode c = [c].
Proof. intros. unfold utf8_encode. by destruct (Z.ltb_spec c 0x80); [|lia]. Qed.

(** A code point that is not ASCII starts with a byte of the upper half. *)
Lemma utf8_encode_upper c :
  0x80 <= c <= 0x10ffff ->
  exists b bs, utf8_encode c = b :: bs /\ 0x80 <= b /\ (1 <= length bs <= 3)%nat.
Proof.
  intros Hc. unfold utf8_encode. destruct (Z.ltb_spec c 0x80); [lia|].
  destruct (Z.ltb_spec c 0x800); [|destruct (Z.ltb_spec c 0x10000)];
    eexists _, _; (split; [done|]); split; cbn; dm || lia.
Qed.

Lemma utf8_length_loop_text cs fuel rest rem n len :
  Forall (fun c => 0 <= c <= 0x10ffff) cs ->
  rem = Z.of_nat (length (utf8_text cs)) -> rem <= Z.of_nat fuel ->
  rem <= n < 2 ^ 64 ->
  utf8_length_loop fuel (utf8_text cs ++ rest) rem n len =
    Some (len + Z.of_nat (length cs)).
Proof.
  intros Hcs. revert fuel rem len.
  induction Hcs as [|c cs Hc _ IH]; intros fuel rem len Hrem Hfuel Hn.
  - cbn in Hrem. subst rem. destruct fuel; cbn; f_equal; lia.
  - rewrite utf8_text_cons in *. rewrite length_app in Hrem.
    destruct (Z.ltb_spec c 0x80) as [Ha|Ha].
    + rewrite utf8_encode_ascii in * by done. cbn [app length] in *.
      destruct fuel as [|fuel]; [lia|]. cbn [utf8_length_loop].
      destruct (Z.leb_spec rem 0); [lia|]. destruct (Z.ltb_spec c 0x80); [|lia].
      rewrite IH by lia. f_equal. lia.
    + destruct (utf8_encode_upper c) as (b & bs & E & Hb & Hl); [lia|].
      pose proof (utf8_decode_encode c (utf8_text cs ++ rest) n ltac:(lia)) as Hd.
      rewrite E in *. cbn [length] in Hrem, Hd. specialize (Hd ltac:(lia)).
      rewrite <- app_assoc. destruct fuel as [|fuel]; [lia|].
      cbn [utf8_length_loop app] in *.
      destruct (Z.leb_spec rem 0); [lia|]. destruct (Z.ltb_spec b 0x80); [lia|].
      rewrite Hd. destruct (Z.ltb_spec 0x10ffff c); [lia|].
      rewrite IH; [f_equal; cbn [length]; lia|..];
        cbn [length]; rewrite ?length_app; lia.
Qed.

Lemma utf8_cpystrn_loop_text cs k rest len :
  Forall (fun c => 0 < c <= 0x10ffff) cs ->
  Z.of_nat (length (utf8_text cs)) <= len < 2 ^ 64 ->
  utf8_cpystrn_loop k (utf8_text cs ++ 0 :: rest) len = Some (utf8_text (take k cs)).
Proof.
  intros Hcs. revert k len.
  induction Hcs as [|c cs Hc _ IH]; intros k len Hlen.
  - destruct k; done.
  - destruct k as [|k]; [done|]. rewrite utf8_text_cons in *.
    rewrite length_app in Hlen. cbn [take]. rewrite utf8_text_cons.
    destruct (Z.ltb_spec c 0x80) as [Ha|Ha].
    + rewrite utf8_encode_ascii in * by done. cbn [app length] in *.
      cbn [utf8_cpystrn_loop]. destruct (Z.ltb_spec c 0x80); [|lia].
      destruct (Z.eqb_spec c 0); [lia|].
      rewrite wrap_small, IH by lia. done.
    + destruct (utf8_encode_upper c) as (b & bs & E & Hb & Hl); [lia|].
      pose proof (utf8_decode_encode c (utf8_text cs ++ 0 :: rest) len ltac:(lia)) as Hd.
      rewrite E in *. cbn [length] in Hlen, Hd. specialize (Hd ltac:(lia)).
      rewrite <- app_assoc. cbn [utf8_cpystrn_loop app] in *.
      destruct (Z.ltb_spec b 0x80); [lia|]. rewrite Hd.
      destruct (Z.ltb_spec 0x10ffff c); [lia|].
      set (q := utf8_text cs ++ 0 :: rest).
      replace (length (b :: bs ++ q) - length q)%nat with (length (b :: bs))
        by (cbn [length]; rewrite length_app; lia).
      change (b :: bs ++ q) with ((b :: bs) ++ q). rewrite take_app_length.
      rewrite wrap_small by (cbn [length]; lia). unfold q.
      rewrite IH by (cbn [length]; lia). done.
Qed.

(** On valid UTF-8 text the three operations agree with the code points:
    [ngx_utf8_decode] returns the code point and advances past it,
    [ngx_utf8_length] counts the code points, and [ngx_utf8_cpystrn] copies
    the first [n - 1] of them whole and terminates the copy with a zero. *)
Theorem utf8_valid_text cs rest :
  Forall (fun c => 0 < c <= 0x10ffff) cs ->
  let text := utf8_text cs in
  let size := Z.of_nat (length text) in
  size < 2 ^ 64 ->
  (forall c cs', cs = c :: cs' -> 0x80 <= c ->
     ngx_utf8_decode (text ++ rest) size = Some (c, utf8_text cs' ++ rest)) /\
  ngx_utf8_length (text ++ rest) size = Some (Z.of_nat (length cs)) /\
  (forall n, ngx_utf8_cpystrn (text ++ 0 :: rest) (S n) size =
               Some (utf8_text (take n cs) ++ [0])).
Proof.
  intros Hcs text size Hsize. split_and!.
  - intros c cs' E Hc. subst text size cs.
    apply Forall_cons in Hcs as [Hc' _]. rewrite utf8_text_cons, length_app in Hsize |- *.
    rewrite <- app_assoc. apply utf8_decode_encode; lia.
  - unfold ngx_utf8_length. subst text size.
    rewrite (utf8_length_loop_text cs); [done| |lia..].
    eapply Forall_impl; [exact Hcs|]. cbn. lia.
  - intros n. unfold ngx_utf8_cpystrn. subst text size.
    rewrite utf8_cpystrn_loop_text; [done|done|lia].
Qed.

Lemma utf8_valid_text_witness :
  let cs := [0x41; 0xe9; 0x20ac; 0x1f600] in
  ngx_utf8_length (utf8_text cs ++ [7]) 10 = Some 4.
Proof.
  apply (utf8_valid_text [0x41; 0xe9; 0x20ac; 0x1f600] [7]); [by_eval|vm_compute; done].
Defined.

(** * What the decoder returns *)

Lemma utf8_tail_range len bound u valid p r q :
  0 <= u < bound -> bound * 64 ^ Z.of_nat len <= 2 ^ 32 -> is_bytes p ->
  utf8_tail len u valid p = Some (r, q) ->
  r = 0xffffffff \/
  (valid < r < bound * 64 ^ Z.of_nat len /\
   exists used, p = used ++ q /\ length used = len).
Proof.
  revert u bound p. induction len as [|len IH]; intros u bound p Hu Hb Hp; cbn [utf8_tail].
  - destruct (Z.ltb_spec valid u); intros [= <- <-]; [|by left].
    right. split; [lia|]. by exists [].
  - destruct p as [|i p]; [done|]. destruct (i <? 0x80); [intros [= <- <-]; by left|].
    apply Forall_cons in Hp as [Hi Hp].
    rewrite Nat2Z.inj_succ, Z.pow_succ_r in * by lia.
    assert (0 < 64 ^ Z.of_nat len) by (apply Z.pow_pos_nonneg; lia).
    change 0x3f with (2 ^ 6 - 1). rewrite land_ones_mod by lia.
    pose proof (Z.mod_pos_bound i (2 ^ 6) ltac:(lia)).
    rewrite lor_shiftl_add by lia. rewrite wrap_small by nia. intros H'.
    apply (IH _ (bound * 64)) in H' as [?|[Hr (used & -> & Hl)]]; [by left| |lia..|done].
    right. split; [lia|]. exists (i :: used). split; [done|]. cbn. lia.
Qed.

(** [ngx_utf8_decode] returns one of the two error values, the
    incomplete one with the pointer left where it was, or a value of at least
    0x80 after consuming exactly the bytes of its length class: two bytes
    below 0x800, three below 0x10000, four from 0x10000 on, so that no
    overlong form is accepted. *)
Theorem utf8_decode_results p n r q :
  is_bytes p -> ngx_utf8_decode p n = Some (r, q) ->
  r = 0xffffffff \/ (r = 0xfffffffe /\ q = p) \/
  exists used, p = used ++ q /\
    (length used = 2%nat /\ 0x80 <= r < 0x800 \/
     length used = 3%nat /\ 0x800 <= r < 0x10000 \/
     length used = 4%nat /\ 0x10000 <= r < 0x200000).
Proof.
  intros Hp. unfold ngx_utf8_decode. destruct p as [|u p]; [done|].
  apply Forall_cons in Hp as [Hu Hp]. unfold is_byte in Hu.
  pose proof (Z.mod_pos_bound u (2 ^ 3) ltac:(lia)).
  pose proof (Z.mod_pos_bound u (2 ^ 4) ltac:(lia)).
  pose proof (Z.mod_pos_bound u (2 ^ 5) ltac:(lia)).
  destruct (Z.leb_spec 0xf0 u); [|destruct (Z.leb_spec 0xe0 u);
    [|destruct (Z.leb_spec 0xc2 u); [|intros [= <- <-]; by left]]];
  unfold utf8_sequence; (destruct (_ <? _); [intros [= <- <-]; by right; left|]).
  - change 0x07 with (2 ^ 3 - 1). rewrite land_ones_mod by lia. intros H'.
    apply (utf8_tail_range _ 8) in H' as [?|[Hr (used & -> & Hl)]]; [by left| |lia..|done].
    right; right. exists (u :: used). split; [done|]. cbn. lia.
  - change 0x0f with (2 ^ 4 - 1). rewrite land_ones_mod by lia. intros H'.
    apply (utf8_tail_range _ 16) in H' as [?|[Hr (used & -> & Hl)]]; [by left| |lia..|done].
    right; right. exists (u :: used). split; [done|]. cbn. lia.
  - change 0x1f with (2 ^ 5 - 1). rewrite land_ones_mod by lia. intros H'.
    apply (utf8_tail_range _ 32) in H' as [?|[Hr (used & -> & Hl)]]; [by left| |lia..|done].
    right; right. exists (u :: used). split; [done|]. cbn. lia.
Qed.

Lemma utf8_decode_results_witness :
  let r := 0xfffffffe in let p := [0xe2; 0x82] in
  ngx_utf8_decode p 2 = Some (r, p) /\
  (r = 0xffffffff \/ (r = 0xfffffffe /\ p = p) \/
   exists used, p = used ++ p /\
    (length used = 2%nat /\ 0x80 <= r < 0x800 \/
     length used = 3%nat /\ 0x800 <= r < 0x10000 \/
     length used = 4%nat /\ 0x10000 <= r < 0x200000)).
Proof.
  split; [reflexivity|].
  apply (utf8_decode_results [0xe2; 0x82] 2); [by_eval|reflexivity].
Defined.

(** Two things the decoder lets through: a trailing byte of 0xc0 or more is
    taken for a continuation byte, and the count [ngx_utf8_length] hands to
    the decoder is the whole size, so a character cut at the end of the
    string is read past its end. *)
Example utf8_bad_continuation : ngx_utf8_decode [0xc3; 0xff] 2 = Some (0xff, []).
Proof. reflexivity. Qed.

Example utf8_length_overread :
  ngx_utf8_length [0x61; 0xc3] 2 = None /\ ngx_utf8_length [0x61; 0xc3; 0xa9] 2 = Some 2.
Proof. split; reflexivity. Qed.
