(* ===== verification/NgxEscape.v ===== *)
(** URI and HTML escaping: [ngx_escape_uri], [ngx_unescape_uri] and
    [ngx_escape_html] of src/core/ngx_string.c.

    A source [(u_char *src, size_t size)] is the list of its bytes.  A call
    with [dst == NULL], which only counts, and a call that writes are two
    definitions, as they are two loops in the code. *)

From S2P Require Import Prelude NgxNumber.

Open Scope Z_scope.

(** * ngx_escape_uri *)

Definition escape_uri_map : list Z :=
  [0xffffffff; 0x80000029; 0x00000000; 0x80000000;
   0xffffffff; 0xffffffff; 0xffffffff; 0xffffffff].

Definition escape_args_map : list Z :=
  [0xffffffff; 0x88000869; 0x00000000; 0x80000000;
   0xffffffff; 0xffffffff; 0xffffffff; 0xffffffff].

Definition escape_uri_component_map : list Z :=
  [0xffffffff; 0xfc009fff; 0x78000001; 0xb8000001;
   0xffffffff; 0xffffffff; 0xffffffff; 0xffffffff].

Definition escape_html_map : list Z :=
  [0xffffffff; 0x000000ad; 0x00000000; 0x80000000;
   0xffffffff; 0xffffffff; 0xffffffff; 0xffffffff].

Definition escape_refresh_map : list Z :=
  [0xffffffff; 0x00000085; 0x00000000; 0x80000000;
   0xffffffff; 0xffffffff; 0xffffffff; 0xffffffff].

Definition escape_memcached_map : list Z :=
  [0xffffffff; 0x00000021; 0x00000000; 0x00000000;
   0x00000000; 0x00000000; 0x00000000; 0x00000000].

(** The constants [NGX_ESCAPE_URI] to [NGX_ESCAPE_MAIL_AUTH] index it. *)
Definition escape_maps : list (list Z) :=
  [escape_uri_map; escape_args_map; escape_uri_component_map; escape_html_map;
   escape_refresh_map; escape_memcached_map; escape_memcached_map].

(** [escape[ch >> 5] & (1 << (ch & 0x1f))] *)
Definition bit_set (escape : list Z) (ch : Z) : bool :=
  negb (Z.land (nth (Z.to_nat (Z.shiftr ch 5)) escape 0)
               (Z.shiftl 1 (Z.land ch 0x1f)) =? 0).

Fixpoint escape_count (escape : list Z) (src : list Z) : Z :=
  match src with
  | [] => 0
  | c :: src' => (if bit_set escape c then 1 else 0) + escape_count escape src'
  end.

Fixpoint escape_write (escape : list Z) (src : list Z) : list Z :=
  match src with
  | [] => []
  | c :: src' =>
      (if bit_set escape c
       then ["%"%cc; nth (Z.to_nat (Z.shiftr c 4)) hex_lower 0;
             nth (Z.to_nat (Z.land c 0xf)) hex_lower 0]
       else [c]) ++ escape_write escape src'
  end.

(** The two modes of the call; [inl] is the count, [inr] the bytes written. *)
Definition ngx_escape_uri (dst_null : bool) (src : list Z) (type : nat)
  : Z + list Z :=
  let escape := nth type escape_maps [] in
  if dst_null then inl (escape_count escape src)
  else inr (escape_write escape src).

(** * ngx_unescape_uri *)

Definition NGX_UNESCAPE_URI : Z := 1.
Definition NGX_UNESCAPE_REDIRECT : Z := 2.

Inductive unescape_state := sw_usual | sw_quoted | sw_quoted_second.

#[export] Instance unescape_state_eq_dec : EqDecision unescape_state.
Proof. solve_decision. Defined.

Definition has_flag (type flag : Z) : bool := negb (Z.land type flag =? 0).

(** What one turn of the loop does: the bytes it writes, the new [state] and
    [decoded], and whether it jumps to [done].  [prev] is [*(s - 2)] and
    [ch0] is [*(s - 1)]. *)
Definition unescape_step (type : Z) (state : unescape_state) (decoded prev ch0 : Z)
  : list Z * unescape_state * Z * bool :=
  match state with
  | sw_usual =>
      if (ch0 =? "?"%cc) && has_flag type (Z.lor NGX_UNESCAPE_URI NGX_UNESCAPE_REDIRECT)
      then ([ch0], sw_usual, decoded, true)
      else if ch0 =? "%"%cc then ([], sw_quoted, decoded, false)
      else ([ch0], sw_usual, decoded, false)
  | sw_quoted =>
      if ("0"%cc <=? ch0) && (ch0 <=? "9"%cc)
      then ([], sw_quoted_second, u8 (ch0 - "0"%cc), false)
      else
        let c := u8 (Z.lor ch0 0x20) in
        if ("a"%cc <=? c) && (c <=? "f"%cc)
        then ([], sw_quoted_second, u8 (c - "a"%cc + 10), false)
        else ([ch0], sw_usual, decoded, false)
  | sw_quoted_second =>
      if ("0"%cc <=? ch0) && (ch0 <=? "9"%cc) then
        let ch := u8 (Z.shiftl decoded 4 + ch0 - "0"%cc) in
        if has_flag type NGX_UNESCAPE_REDIRECT then
          if ("%"%cc <? ch) && (ch <? 0x7f)
          then ([ch], sw_usual, decoded, false)
          else (["%"%cc; prev; ch0], sw_usual, decoded, false)
        else ([ch], sw_usual, decoded, false)
      else
        let c := u8 (Z.lor ch0 0x20) in
        if ("a"%cc <=? c) && (c <=? "f"%cc) then
          let ch := u8 (Z.shiftl decoded 4 + c - "a"%cc + 10) in
          if has_flag type NGX_UNESCAPE_URI then
            if ch =? "?"%cc then ([ch], sw_usual, decoded, true)
            else ([ch], sw_usual, decoded, false)
          else if has_flag type NGX_UNESCAPE_REDIRECT then
            if ch =? "?"%cc then ([ch], sw_usual, decoded, true)
            else if ("%"%cc <? ch) && (ch <? 0x7f)
            then ([ch], sw_usual, decoded, false)
            else (["%"%cc; prev; ch0], sw_usual, decoded, false)
          else ([ch], sw_usual, decoded, false)
        else ([], sw_usual, decoded, false)
  end.

Fixpoint unescape_loop (type : Z) (state : unescape_state) (decoded prev : Z)
  (s : list Z) : list Z * list Z :=
  match s with
  | [] => ([], [])
  | ch :: s' =>
      let '(out, state', decoded', stop) := unescape_step type state decoded prev ch in
      if stop then (out, s')
      else let '(d, rest) := unescape_loop type state' decoded' ch s' in
           (out ++ d, rest)
  end.

(** The bytes written at [*dst] and what is left at [*src]. *)
Definition ngx_unescape_uri (src : list Z) (type : Z) : list Z * list Z :=
  unescape_loop type sw_usual 0 0 src.

(** * ngx_escape_html *)

Definition html_extra (c : Z) : Z :=
  if c =? "<"%cc then 3 else if c =? ">"%cc then 3
  else if c =? "&"%cc then 4 else if c =? 34 then 5 else 0.

Fixpoint escape_html_count (src : list Z) : Z :=
  match src with
  | [] => 0
  | c :: src' => html_extra c + escape_html_count src'
  end.

Definition html_entity (ch : Z) : list Z :=
  if ch =? "<"%cc then cstr "&lt;"
  else if ch =? ">"%cc then cstr "&gt;"
  else if ch =? "&"%cc then cstr "&amp;"
  else if ch =? 34 then cstr "&quot;"
  else [ch].

Fixpoint escape_html_write (src : list Z) : list Z :=
  match src with
  | [] => []
  | c :: src' => html_entity c ++ escape_html_write src'
  end.

Definition ngx_escape_html (dst_null : bool) (src : list Z) : Z + list Z :=
  if dst_null then inl (escape_html_count src) else inr (escape_html_write src).

(** * URI round trip *)

Lemma escape_write_length escape src :
  Z.of_nat (length (escape_write escape src)) =
    Z.of_nat (length src) + 2 * escape_count escape src.
Proof.
  induction src as [|c src IH]; [done|]. cbn [escape_write escape_count length].
  rewrite length_app. destruct (bit_set escape c); cbn [length]; lia.
Qed.

(** The two hex digits of a byte through the unescape state machine. *)
Lemma unescape_hex c decoded :
  is_byte c ->
  let h := nth (Z.to_nat (Z.shiftr c 4)) hex_lower 0 in
  let l := nth (Z.to_nat (Z.land c 0xf)) hex_lower 0 in
  exists d, unescape_step 0 sw_quoted decoded "%"%cc h = ([], sw_quoted_second, d, false) /\
            unescape_step 0 sw_quoted_second d h l = ([c], sw_usual, d, false).
Proof.
  intros Hc h l. exists (Z.shiftr c 4).
  assert (bool_decide (unescape_step 0 sw_quoted decoded "%"%cc h
                       = ([], sw_quoted_second, Z.shiftr c 4, false))
          && bool_decide (unescape_step 0 sw_quoted_second (Z.shiftr c 4) h l
                       = ([c], sw_usual, Z.shiftr c 4, false)) = true) as H.
  { subst h l. revert c Hc. apply byte_forall. vm_compute. done. }
  apply andb_true_iff in H as [H1 H2].
  split; eapply bool_decide_eq_true_1; eassumption.
Qed.

Lemma unescape_escape escape src decoded prev :
  bit_set escape "%"%cc = true -> is_bytes src ->
  unescape_loop 0 sw_usual decoded prev (escape_write escape src) = (src, []).
Proof.
  intros Hp Hs. revert decoded prev.
  induction Hs as [|c src Hc _ IH]; intros decoded prev; [done|].
  cbn [escape_write]. destruct (bit_set escape c) eqn:E.
  - destruct (unescape_hex c decoded Hc) as (d & H1 & H2).
    cbn [app unescape_loop]. change (unescape_step 0 sw_usual decoded prev "%"%cc)
      with ([] : list Z, sw_quoted, decoded, false).
    cbv beta iota zeta in H1, H2 |- *. rewrite H1. cbv beta iota. rewrite H2.
    cbv beta iota. by rewrite IH.
  - cbn [app unescape_loop unescape_step].
    change (has_flag 0 _) with false. rewrite andb_false_r.
    destruct (Z.eqb_spec c "%"%cc) as [->|_]; [congruence|]. by rewrite IH.
Qed.

Lemma escape_maps_percent type :
  (type < 7)%nat -> type <> 4%nat -> bit_set (nth type escape_maps []) "%"%cc = true.
Proof. intros. do 7 (destruct type as [|type]; [reflexivity || lia|]). lia. Qed.

(** The comment above the [refresh] table lists "%" among the characters to
    escape; the table does not have its bit. *)
Example escape_refresh_percent : bit_set escape_refresh_map "%"%cc = false.
Proof. reflexivity. Qed.

(** For every escape type but NGX_ESCAPE_REFRESH, whose table leaves "%"
    alone, unescaping an escaped string gives it back; the counting call
    returns half the number of bytes the writing call adds, so that the buffer
    the callers allocate is exactly filled. *)
Theorem escape_uri_roundtrip type src :
  (type < 7)%nat -> type <> 4%nat -> is_bytes src ->
  exists n out,
    ngx_escape_uri true src type = inl n /\
    ngx_escape_uri false src type = inr out /\
    Z.of_nat (length out) = Z.of_nat (length src) + 2 * n /\
    ngx_unescape_uri out 0 = (src, []).
Proof.
  intros Ht Hr Hs. eexists _, _. split_and!; [reflexivity|reflexivity| |].
  - apply escape_write_length.
  - by apply unescape_escape; [apply escape_maps_percent|].
Qed.

Lemma escape_uri_roundtrip_witness :
  exists n out,
    ngx_escape_uri true [47; 37; 32; 255] 2 = inl n /\
    ngx_escape_uri false [47; 37; 32; 255] 2 = inr out /\
    Z.of_nat (length out) = 4 + 2 * n /\
    ngx_unescape_uri out 0 = ([47; 37; 32; 255], []).
Proof. apply (escape_uri_roundtrip 2 [47; 37; 32; 255]); [lia|lia|by_eval]. Defined.

(** Bytes read and not yet written in each state. *)
Definition pending (state : unescape_state) : nat :=
  match state with sw_usual => 0 | sw_quoted => 1 | sw_quoted_second => 2 end%nat.

Lemma unescape_step_length type state decoded prev ch out state' decoded' stop :
  unescape_step type state decoded prev ch = (out, state', decoded', stop) ->
  (length out + pending state' <= 1 + pending state)%nat.
Proof.
  destruct state; cbn [unescape_step]; cbv zeta;
    repeat match goal with |- context [if ?b then _ else _] => destruct b end;
    intros [= <- <- <- <-]; cbn; lia.
Qed.

(** [ngx_unescape_uri] never writes more bytes than it has read, in
    every mode and after every prefix of the input, so that it can run in
    place ([*dst == *src], as its callers do): [s1] is what was consumed. *)
Theorem unescape_in_place type src :
  exists s1, let '(d, rest) := ngx_unescape_uri src type in
    src = s1 ++ rest /\ (length d <= length s1)%nat.
Proof.
  assert (forall s state decoded prev, exists s1,
    let '(d, rest) := unescape_loop type state decoded prev s in
    s = s1 ++ rest /\ (length d <= length s1 + pending state)%nat) as H.
  { induction s as [|ch s IH]; intros state decoded prev; [by exists []; cbn; split; [|lia]|].
    cbn [unescape_loop].
    destruct (unescape_step type state decoded prev ch) as [[[out st'] d'] stop] eqn:E.
    apply unescape_step_length in E.
    destruct stop; [exists [ch]; split; [done|cbn; lia]|].
    destruct (IH st' d' ch) as (s1 & Hs1).
    destruct (unescape_loop type st' d' ch s) as [d rest] eqn:E'.
    destruct Hs1 as [-> Hl]. exists (ch :: s1).
    split; [done|]. rewrite length_app. cbn [length]. lia. }
  destruct (H src sw_usual 0 0) as (s1 & Hs1). exists s1.
  unfold ngx_unescape_uri. destruct (unescape_loop _ _ _ _ _). cbn in Hs1.
  by rewrite Nat.add_0_r in Hs1.
Qed.

(** * HTML *)

Lemma html_entity_length c : Z.of_nat (length (html_entity c)) = 1 + html_extra c.
Proof. unfold html_entity, html_extra. by split_if. Qed.

Lemma html_entity_safe c x :
  In x (html_entity c) -> x <> "<"%cc /\ x <> ">"%cc /\ x <> 34.
Proof.
  unfold html_entity. destruct (Z.eqb_spec c "<"%cc); [|destruct (Z.eqb_spec c ">"%cc);
    [|destruct (Z.eqb_spec c "&"%cc); [|destruct (Z.eqb_spec c 34)]]];
  cbn; lia.
Qed.

Lemma html_entity_inj a b x y :
  html_entity a ++ x = html_entity b ++ y -> a = b /\ x = y.
Proof.
  unfold html_entity.
  destruct (Z.eqb_spec a "<"%cc) as [->|]; [|destruct (Z.eqb_spec a ">"%cc) as [->|];
    [|destruct (Z.eqb_spec a "&"%cc) as [->|]; [|destruct (Z.eqb_spec a 34) as [->|]]]];
  (destruct (Z.eqb_spec b "<"%cc) as [->|]; [|destruct (Z.eqb_spec b ">"%cc) as [->|];
    [|destruct (Z.eqb_spec b "&"%cc) as [->|]; [|destruct (Z.eqb_spec b 34) as [->|]]]]);
  cbn; intros E; simplify_eq; done.
Qed.

(** [ngx_escape_html] leaves no [<], [>] or double quote, its counting
    call returns the exact growth, and it is injective: no two texts have the
    same escaped form. *)
Theorem escape_html_correct src :
  exists n out,
    ngx_escape_html true src = inl n /\ ngx_escape_html false src = inr out /\
    Z.of_nat (length out) = Z.of_nat (length src) + n /\
    Forall (fun c => c <> "<"%cc /\ c <> ">"%cc /\ c <> 34) out /\
    forall src', ngx_escape_html false src' = inr out -> src' = src.
Proof.
  eexists _, _. split_and!; [reflexivity|reflexivity| | |].
  - induction src as [|c src IH]; [done|].
    cbn [escape_html_write escape_html_count length]. rewrite length_app.
    pose proof (html_entity_length c). lia.
  - induction src as [|c src IH]; [done|]. cbn [escape_html_write].
    apply Forall_app_2; [|done]. apply Forall_forall. intros x Hx.
    apply (html_entity_safe c). by apply list_elem_of_In.
  - intros src' [= E]. revert src' E.
    induction src as [|c src IH]; intros [|c' src'] E; [done| | |].
    + cbn [escape_html_write] in E. apply app_eq_nil in E as [E _].
      pose proof (html_entity_length c') as H. rewrite E in H.
      unfold html_extra in H. cbn in H. split_if_in H.
    + cbn [escape_html_write] in E. symmetry in E. apply app_eq_nil in E as [E _].
      pose proof (html_entity_length c) as H. rewrite E in H.
      unfold html_extra in H. cbn in H. split_if_in H.
    + cbn [escape_html_write] in E. apply html_entity_inj in E as [-> E].
      f_equal. by apply IH.
Qed.
