(* ===== verification/NgxSprintf.v ===== *)
(** Formatted output: [ngx_vslprintf], [ngx_sprintf], [ngx_snprintf] and
    [ngx_slprintf] of src/core/ngx_string.c.

    [fmt] is the list of the format's characters without its terminating
    zero, [room] is [last - buf], and the result is the bytes written at
    [buf].  The variable arguments are a list of [va_arg]s: an integer of the
    C type the conversion names, an [ngx_str_t] (or a variable value), or a
    pointer to readable bytes.  [None] stands for what the C code leaves
    undefined: a missing or ill-typed argument, a format that ends inside a
    directive, a read past the bytes of a string; and for [%f], whose double
    arithmetic is not modelled. *)

From S2P Require Import Prelude NgxNumber.

Open Scope Z_scope.

(** [(size_t) -1] *)
Definition SIZE_MAX : Z := 2 ^ 64 - 1.

Inductive va_arg :=
  | va_int (z : Z)
  | va_str (s : list Z)
  | va_ptr (mem : list Z).

(** The flags a directive collects before its conversion character. *)
Record directive := mk_directive {
  d_zero : Z;
  d_width : Z;
  d_sign : bool;
  d_hex : Z;
  d_max_width : bool;
  d_frac_width : Z;
  d_slen : Z;
}.

(** [while ( *fmt >= '0' && *fmt <= '9') width = width * 10 + *fmt++ - '0';] *)
Fixpoint width_loop (width : Z) (fmt : list Z) : Z * list Z :=
  match fmt with
  | [] => (width, [])
  | c :: fmt' =>
      if ("0"%cc <=? c) && (c <=? "9"%cc)
      then width_loop (u64 (width * 10 + c - "0"%cc)) fmt'
      else (width, fmt)
  end.

(** The [for ( ;; ) switch ( *fmt)] that reads the flags. *)
Fixpoint flags_loop (d : directive) (fmt : list Z) (args : list va_arg)
  : option (directive * list Z * list va_arg) :=
  match fmt with
  | [] => Some (d, [], args)
  | c :: fmt' =>
      if c =? "u"%cc then
        flags_loop (mk_directive (d_zero d) (d_width d) false (d_hex d)
                      (d_max_width d) (d_frac_width d) (d_slen d)) fmt' args
      else if c =? "m"%cc then
        flags_loop (mk_directive (d_zero d) (d_width d) (d_sign d) (d_hex d)
                      true (d_frac_width d) (d_slen d)) fmt' args
      else if c =? "X"%cc then
        flags_loop (mk_directive (d_zero d) (d_width d) false 2
                      (d_max_width d) (d_frac_width d) (d_slen d)) fmt' args
      else if c =? "x"%cc then
        flags_loop (mk_directive (d_zero d) (d_width d) false 1
                      (d_max_width d) (d_frac_width d) (d_slen d)) fmt' args
      else if c =? "."%cc then
        let '(frac, fmt'') := width_loop (d_frac_width d) fmt' in
        Some (mk_directive (d_zero d) (d_width d) (d_sign d) (d_hex d)
                (d_max_width d) frac (d_slen d), fmt'', args)
      else if c =? "*"%cc then
        match args with
        | va_int n :: args' =>
            flags_loop (mk_directive (d_zero d) (d_width d) (d_sign d) (d_hex d)
                          (d_max_width d) (d_frac_width d) (u64 n)) fmt' args'
        | _ => None
        end
      else Some (d, fmt, args)
  end.

(** The integer conversions: the directive as the case leaves it, with the
    value of [i64] (when [d_sign]) or [ui64].  [NGX_INT_T_LEN] and
    [NGX_ATOMIC_T_LEN] are 20 and [NGX_PTR_SIZE] is 8 on 64-bit platforms. *)
Definition integer_conversion (d : directive) (c z : Z) : option (directive * Z) :=
  let signed := mk_directive (d_zero d) (d_width d) true (d_hex d)
                  (d_max_width d) (d_frac_width d) (d_slen d) in
  let unsigned := mk_directive (d_zero d) (d_width d) false (d_hex d)
                  (d_max_width d) (d_frac_width d) (d_slen d) in
  let wide := if d_max_width d
              then mk_directive (d_zero d) 20 (d_sign d) (d_hex d)
                     (d_max_width d) (d_frac_width d) (d_slen d)
              else d in
  let word := if d_sign d then i64 z else u64 z in
  let int := if d_sign d then i32 z else u32 z in
  if c =? "O"%cc then Some (signed, i64 z)
  else if c =? "P"%cc then Some (signed, i32 z)
  else if c =? "T"%cc then Some (signed, i64 z)
  else if c =? "M"%cc then
    if i64 (u64 z) =? -1 then Some (signed, -1) else Some (unsigned, u64 z)
  else if c =? "z"%cc then Some (d, word)
  else if c =? "i"%cc then Some (wide, word)
  else if c =? "d"%cc then Some (d, int)
  else if c =? "l"%cc then Some (d, word)
  else if c =? "D"%cc then Some (d, int)
  else if c =? "L"%cc then Some (d, word)
  else if c =? "A"%cc then Some (wide, word)
  else if c =? "r"%cc then Some (signed, i64 z)
  else if c =? "p"%cc then
    Some (mk_directive "0"%cc 16 false 2 (d_max_width d) (d_frac_width d) (d_slen d), u64 z)
  else None.

(** What follows the [switch]: the minus sign and the number. *)
Definition write_number (room : Z) (d : directive) (v : Z) : option (list Z) :=
  if d_sign d && (v <? 0)
  then cons "-"%cc <$> ngx_sprintf_num (room - 1) (u64 (- v)) (d_zero d) (d_hex d) (d_width d)
  else ngx_sprintf_num room (u64 v) (d_zero d) (d_hex d) (d_width d).

(** [while ( *p && buf < last) *buf++ = *p++;] *)
Fixpoint copy_string (room : Z) (p : list Z) : option (list Z) :=
  match p with
  | [] => None
  | c :: p' =>
      if (c =? 0) || (room <=? 0) then Some []
      else cons c <$> copy_string (room - 1) p'
  end.

(** [ngx_cpymem(buf, p, len)] with [len] bytes readable at [p]. *)
Definition copy_bytes (p : list Z) (len : Z) : option (list Z) :=
  if Z.of_nat (length p) <? len then None else Some (take (Z.to_nat len) p).

(** The [switch] on the conversion character. *)
Definition conversion (room : Z) (d : directive) (c : Z) (args : list va_arg)
  : option (list Z * list va_arg) :=
  if (c =? "V"%cc) || (c =? "v"%cc) then
    match args with
    | va_str s :: args' =>
        Some (take (Z.to_nat (Z.min room (Z.of_nat (length s)))) s, args')
    | _ => None
    end
  else if c =? "s"%cc then
    match args with
    | va_ptr p :: args' =>
        out ← (if d_slen d =? SIZE_MAX then copy_string room p
               else copy_bytes p (Z.min room (d_slen d)));
        Some (out, args')
    | _ => None
    end
  else if c =? "f"%cc then None
  else if c =? "c"%cc then
    match args with
    | va_int z :: args' => Some ([Z.land z 0xff], args')
    | _ => None
    end
  else if c =? "Z"%cc then Some ([0], args)
  else if c =? "N"%cc then Some ([LF], args)
  else if c =? "%"%cc then Some (["%"%cc], args)
  else match args with
       | va_int z :: args' =>
           match integer_conversion d c z with
           | Some (d', v) => out ← write_number room d' v; Some (out, args')
           | None => Some ([c], args)
           end
       | _ => match integer_conversion d c 0 with
              | Some _ => None
              | None => Some ([c], args)
              end
       end.

(** One directive, from the character after the percent sign on. *)
Definition run_directive (room : Z) (fmt : list Z) (args : list va_arg)
  : option (list Z * list Z * list va_arg) :=
  let zero := match fmt with c :: _ => if c =? "0"%cc then "0"%cc else " "%cc | [] => " "%cc end in
  let '(width, fmt1) := width_loop 0 fmt in
  '(d, fmt2, args2) ← flags_loop (mk_directive zero width true 0 false 0 SIZE_MAX) fmt1 args;
  match fmt2 with
  | [] => None
  | c :: fmt3 =>
      '(out, args3) ← conversion room d c args2;
      Some (out, fmt3, args3)
  end.

(** The outer loop; a turn consumes at least one character of [fmt]. *)
Fixpoint vslprintf_loop (fuel : nat) (room : Z) (fmt : list Z) (args : list va_arg)
  : option (list Z) :=
  match fmt with
  | [] => Some []
  | c :: fmt' =>
      if room <=? 0 then Some []
      else match fuel with
      | O => None
      | S fuel' =>
          if c =? "%"%cc then
            '(out, fmt'', args') ← run_directive room fmt' args;
            rest ← vslprintf_loop fuel' (room - Z.of_nat (length out)) fmt'' args';
            Some (out ++ rest)
          else
            rest ← vslprintf_loop fuel' (room - 1) fmt' args;
            Some (c :: rest)
      end
  end.

Definition ngx_vslprintf (room : Z) (fmt : list Z) (args : list va_arg) : option (list Z) :=
  vslprintf_loop (length fmt) room fmt args.

(** [last] is [(void * ) -1]; [buf] is the address of the buffer. *)
Definition ngx_sprintf (buf : Z) (fmt : list Z) (args : list va_arg) : option (list Z) :=
  ngx_vslprintf (2 ^ 64 - 1 - buf) fmt args.

Definition ngx_snprintf (max : Z) (fmt : list Z) (args : list va_arg) : option (list Z) :=
  ngx_vslprintf max fmt args.

Definition ngx_slprintf (buf last : Z) (fmt : list Z) (args : list va_arg) : option (list Z) :=
  ngx_vslprintf (last - buf) fmt args.

(** * The loop never runs out of turns *)

Lemma width_loop_length width fmt w fmt' :
  width_loop width fmt = (w, fmt') -> (length fmt' <= length fmt)%nat.
Proof.
  revert width. induction fmt as [|c fmt IH]; intros width; cbn [width_loop].
  - intros [= _ <-]. done.
  - destruct (_ && _); [|intros [= _ <-]; done]. intros H. apply IH in H. cbn. lia.
Qed.

Lemma flags_loop_length d fmt args d' fmt' args' :
  flags_loop d fmt args = Some (d', fmt', args') -> (length fmt' <= length fmt)%nat.
Proof.
  revert d args. induction fmt as [|c fmt IH]; intros d args; cbn [flags_loop].
  - intros [= _ <- _]. done.
  - repeat match goal with
    | |- context [if ?b then _ else _] => destruct b
    end; try (intros H; apply IH in H; cbn; lia).
    + destruct (width_loop (d_frac_width d) fmt) as [w f] eqn:E.
      apply width_loop_length in E. intros [= _ <- _]. cbn. lia.
    + destruct args as [|[] args]; try done. intros H. apply IH in H. cbn. lia.
    + intros [= _ <- _]. done.
Qed.

Lemma run_directive_length room fmt args out fmt' args' :
  run_directive room fmt args = Some (out, fmt', args') -> (length fmt' < length fmt)%nat.
Proof.
  unfold run_directive. destruct (width_loop 0 fmt) as [w f1] eqn:E1.
  apply width_loop_length in E1.
  destruct (flags_loop _ f1 args) as [[[d f2] a2]|] eqn:E2; cbn; [|done].
  apply flags_loop_length in E2. destruct f2 as [|c f3]; [done|].
  destruct (conversion room d c a2) as [[o a3]|]; cbn; [|done].
  intros [= _ <- _]. cbn in E2. lia.
Qed.

Lemma vslprintf_loop_fuel fuel room fmt args :
  (length fmt <= fuel)%nat ->
  vslprintf_loop fuel room fmt args = vslprintf_loop (length fmt) room fmt args.
Proof.
  intros Hf.
  enough (forall n m, (length fmt <= n)%nat -> (length fmt <= m)%nat ->
    vslprintf_loop n room fmt args = vslprintf_loop m room fmt args) as H by (apply H; lia).
  clear. intros n. revert room fmt args.
  induction n as [|n IH]; intros room [|c fmt] args m Hn Hm; cbn in Hn, Hm; try lia;
    destruct m as [|m]; try done; try lia.
  cbn [vslprintf_loop]. destruct (room <=? 0); [done|].
  destruct (c =? "%"%cc).
  - destruct (run_directive room fmt args) as [[[o f] a]|] eqn:E; cbn; [|done].
    apply run_directive_length in E. by rewrite (IH _ f a m) by lia.
  - by rewrite (IH _ fmt args m) by lia.
Qed.

(** * Nothing is written past [last] *)

Lemma sprintf_num_length room v zero hexadecimal width out :
  0 <= room -> ngx_sprintf_num room (u64 v) zero hexadecimal width = Some out ->
  Z.of_nat (length out) <= room.
Proof.
  intros Hr H. pose proof (wrap_range 64 v ltac:(lia)).
  destruct (sprintf_num_total room (u64 v) zero hexadecimal width) as (o & E & Hl); [lia..|].
  congruence.
Qed.

Lemma write_number_length room d v out :
  1 <= room -> write_number room d v = Some out -> Z.of_nat (length out) <= room.
Proof.
  intros Hr. unfold write_number. destruct (_ && _).
  - destruct (ngx_sprintf_num _ _ _ _ _) as [o|] eqn:E; cbn; [|done].
    apply sprintf_num_length in E; [|lia]. intros [= <-]. cbn. lia.
  - apply sprintf_num_length. lia.
Qed.

Lemma copy_string_length room p out :
  0 <= room -> copy_string room p = Some out -> Z.of_nat (length out) <= room.
Proof.
  revert room out. induction p as [|c p IH]; intros room out Hr; cbn; [done|].
  destruct (c =? 0); cbn; [intros [= <-]; cbn; lia|].
  destruct (Z.leb_spec room 0); [intros [= <-]; cbn; lia|].
  destruct (copy_string (room - 1) p) as [o|] eqn:E; cbn; [|done].
  apply IH in E; [|lia]. intros [= <-]. cbn. lia.
Qed.

Lemma conversion_length room d c args out args' :
  1 <= room -> conversion room d c args = Some (out, args') -> Z.of_nat (length out) <= room.
Proof.
  intros Hr. unfold conversion.
  destruct (_ || _).
  { destruct args as [|[] ?]; try done. intros [= <- _]. rewrite length_take. lia. }
  destruct (_ =? "s"%cc).
  { destruct args as [|[] ?]; try done. destruct (_ =? SIZE_MAX).
    - destruct (copy_string room mem) as [o|] eqn:E; cbn; [|done].
      intros [= <- _]. eapply copy_string_length; [|done]. lia.
    - unfold copy_bytes. destruct (_ <? _); cbn; [done|].
      intros [= <- _]. rewrite length_take. lia. }
  destruct (_ =? "f"%cc); [done|].
  destruct (_ =? "c"%cc).
  { destruct args as [|[] ?]; try done. intros [= <- _]. cbn. lia. }
  do 3 (destruct (_ =? _); [intros [= <- _]; cbn; lia|]).
  destruct args as [|[z|s|p] args].
  1, 3, 4: destruct (integer_conversion d c 0); intros [= <- _]; cbn; lia.
  destruct (integer_conversion d c z) as [[d' v]|]; [|intros [= <- _]; cbn; lia].
  destruct (write_number room d' v) as [o|] eqn:E; cbn; [|done].
  intros [= <- _]. by eapply write_number_length.
Qed.

(** Whatever the format and the arguments, [ngx_vslprintf] writes at most
    [last - buf] bytes; its loop always has a turn left (more fuel than the
    format has characters changes nothing). *)
Theorem vslprintf_in_bounds room fmt args :
  0 <= room ->
  (forall out, ngx_vslprintf room fmt args = Some out -> Z.of_nat (length out) <= room) /\
  (forall fuel, (length fmt <= fuel)%nat ->
     vslprintf_loop fuel room fmt args = ngx_vslprintf room fmt args).
Proof.
  intros Hr. split; [|intros; by apply vslprintf_loop_fuel].
  unfold ngx_vslprintf. generalize (length fmt) as fuel. intros fuel.
  revert room fmt args Hr. induction fuel as [|fuel IH]; intros room [|c fmt] args Hr out.
  1, 3: intros [= <-]; cbn; lia.
  all: cbn [vslprintf_loop]; destruct (Z.leb_spec room 0); [intros [= <-]; cbn; lia|].
  { done. }
  destruct (c =? "%"%cc).
  - destruct (run_directive room fmt args) as [[[o f] a]|] eqn:E; cbn; [|done].
    unfold run_directive in E. destruct (width_loop 0 fmt) as [w f1].
    destruct (flags_loop _ f1 args) as [[[d f2] a2]|]; cbn in E; [|done].
    destruct f2 as [|c2 f3]; [done|].
    destruct (conversion room d c2 a2) as [[o' a3]|] eqn:Ec; cbn in E; [|done].
    injection E as -> _ _. apply conversion_length in Ec; [|lia].
    destruct (vslprintf_loop fuel _ f a) as [rest|] eqn:E'; cbn; [|done].
    apply IH in E'; [|lia]. intros [= <-]. rewrite length_app. lia.
  - destruct (vslprintf_loop fuel (room - 1) fmt args) as [rest|] eqn:E; cbn; [|done].
    apply IH in E; [|lia]. intros [= <-]. cbn. lia.
Qed.

Lemma vslprintf_in_bounds_witness :
  ngx_vslprintf 7 (cstr "%s: %05d%Z") [va_ptr (cstr "id" ++ [0]); va_int (-42)]
    = Some (cstr "id: -00") /\
  Z.of_nat (length (cstr "id: -00")) <= 7.
Proof.
  assert (ngx_vslprintf 7 (cstr "%s: %05d%Z") [va_ptr (cstr "id" ++ [0]); va_int (-42)]
    = Some (cstr "id: -00")) as E by (vm_compute; reflexivity).
  split; [exact E|].
  apply (vslprintf_in_bounds 7 (cstr "%s: %05d%Z")
           [va_ptr (cstr "id" ++ [0]); va_int (-42)]); [lia|exact E].
Defined.

(** * Evaluating a format

    The text of a format piece by piece, with enough room: its plain characters, then
    each directive. *)

Lemma vslprintf_text t n room fmt args :
  forallb (fun c => negb (c =? "%"%cc)) t = true -> Z.of_nat (length t) = n -> n <= room ->
  ngx_vslprintf room (t ++ fmt) args = (rest ← ngx_vslprintf (room - n) fmt args; Some (t ++ rest)).
Proof.
  intros Ht <-. revert room. induction t as [|c t IH]; intros room Hr.
  { cbn [app length]. rewrite Z.sub_0_r. by destruct (ngx_vslprintf room fmt args). }
  cbn [forallb] in Ht. apply andb_true_iff in Ht as [Hc Ht].
  cbn [length app] in *. unfold ngx_vslprintf at 1. cbn [length vslprintf_loop].
  destruct (Z.leb_spec room 0); [lia|]. destruct (Z.eqb_spec c "%"%cc); [done|].
  fold (ngx_vslprintf (room - 1) (t ++ fmt) args). rewrite IH by (done || lia).
  replace (room - 1 - Z.of_nat (length t)) with (room - Z.of_nat (S (length t))) by lia.
  by destruct (ngx_vslprintf (room - Z.of_nat (S (length t))) fmt args).
Qed.

Lemma vslprintf_directive room fmt args out fmt' args' :
  0 < room -> run_directive room fmt args = Some (out, fmt', args') ->
  ngx_vslprintf room ("%"%cc :: fmt) args = (rest ← ngx_vslprintf (room - Z.of_nat (length out)) fmt' args'; Some (out ++ rest)).
Proof.
  intros Hr E. unfold ngx_vslprintf at 1. cbn [length vslprintf_loop]. destruct (Z.leb_spec room 0); [lia|].
  rewrite Z.eqb_refl, E. cbn [mbind option_bind]. apply run_directive_length in E. by rewrite vslprintf_loop_fuel by lia.
Qed.

(** The decimal digits of a number. *)
Definition decimal (n : Z) : list Z := default [] (number_digits n 0).

Lemma decimal_digits n :
  0 <= n < 2 ^ 64 -> number_digits n 0 = Some (decimal n) /\ 1 <= Z.of_nat (length (decimal n)) <= 20 /\ forallb is_digit (decimal n) = true.
Proof.
  intros Hn. destruct (digits_loop_total 10 dec_digit ltac:(lia) NGX_INT64_LEN n []) as [p Hp]; [unfold NGX_INT64_LEN; lia..|].
  assert (number_digits n 0 = Some p) as Hd by (rewrite number_digits_cases by lia; exact Hp).
  assert (decimal n = p) as -> by (unfold decimal; by rewrite Hd).
  apply (digits_loop_spec 10 dec_val) in Hp as (ds & -> & _ & Hl & Hf); [|lia|apply dec_digit_val|lia].
  rewrite app_nil_r in *. unfold NGX_INT64_LEN in Hl. split_and!; [done|lia..|].
  apply (forallb_Forall_digits _ dec_digit 10); [apply dec_digit_is_digit|done].
Qed.

Lemma print_O room rest args n :
  0 <= n < 2 ^ 63 -> 20 <= room -> run_directive room ("O"%cc :: rest) (va_int n :: args) = Some (decimal n, rest, args).
Proof.
  intros Hn Hr. destruct (decimal_digits n) as (Hd & Hl & _); [lia|]. unfold run_directive. cbn -[ngx_sprintf_num Z.of_nat decimal].
  unfold conversion. cbn -[ngx_sprintf_num decimal Z.ltb]. unfold write_number. cbn -[ngx_sprintf_num decimal Z.ltb].
  rewrite (swrap_small 64) by lia. destruct (Z.ltb_spec n 0); [lia|]. rewrite (wrap_small 64) by lia.
  rewrite (sprintf_num_full _ _ _ _ _ (decimal n)) by (done || lia). cbn. by replace (Z.to_nat _) with 0%nat by lia.
Qed.

Lemma print_V room rest args s :
  Z.of_nat (length s) <= room -> run_directive room ("V"%cc :: rest) (va_str s :: args) = Some (s, rest, args).
Proof.
  intros Hr. unfold run_directive. cbn -[Z.of_nat Z.min]. unfold conversion. cbn -[Z.of_nat Z.min].
  by rewrite take_ge by lia.
Qed.

(** [%0muA]: the number with zeros up to the 20 characters of [NGX_ATOMIC_T_LEN]. *)
Definition padded (n : Z) : list Z := replicate (20 - length (decimal n)) "0"%cc ++ decimal n.

Lemma padded_length n : 0 <= n < 2 ^ 64 -> length (padded n) = 20%nat.
Proof. intros Hn. destruct (decimal_digits n Hn) as (_ & Hl & _). unfold padded. rewrite length_app, length_replicate. lia. Qed.

Lemma print_0muA room rest args n :
  0 <= n < 2 ^ 64 -> 20 <= room ->
  run_directive room ("0"%cc :: "m"%cc :: "u"%cc :: "A"%cc :: rest) (va_int n :: args) = Some (padded n, rest, args).
Proof.
  intros Hn Hr. destruct (decimal_digits n Hn) as (Hd & Hl & _). unfold run_directive. cbn -[ngx_sprintf_num Z.of_nat padded].
  unfold conversion. cbn -[ngx_sprintf_num padded]. unfold write_number. cbn -[ngx_sprintf_num padded].
  rewrite (wrap_small 64 n) by lia. rewrite (wrap_small 64 n) by lia.
  rewrite (sprintf_num_full _ _ _ _ _ (decimal n)) by (done || lia). unfold padded.
  cbn [mbind option_bind]. by replace (Z.to_nat (20 - Z.of_nat (length (decimal n)))) with (20 - length (decimal n))%nat by lia.
Qed.
