(* ===== verification/NgxStr.v ===== *)
(** String operations of src/core/ngx_string.c and [ngx_strlchr] of
    src/core/ngx_string.h: copies, comparisons, searches and [ngx_sort].

    A pointer is the list of the bytes readable from it on; a pointer returned
    is the offset from the first argument, [None] inside the outer option is
    [NULL].  [None] outside is a read past the readable bytes. *)

From S2P Require Import Prelude.
From stdpp Require Import sorting.

Open Scope Z_scope.

(** * Copies *)

(** The [n] bytes written at [dst]. *)
Fixpoint ngx_strlow (src : list Z) (n : nat) {struct n} : option (list Z) :=
  match n with
  | O => Some []
  | S n' => match src with
            | [] => None
            | c :: src' => cons (ngx_tolower c) <$> ngx_strlow src' n'
            end
  end.

(** [while (--n) { *dst = *src; if ( *dst == '\0') return dst; ... }
    *dst = '\0'; return dst;]: the bytes written, the zero included. *)
Fixpoint cpystrn_loop (n : nat) (src : list Z) : option (list Z) :=
  match n with
  | O => Some [0]
  | S n' => match src with
            | [] => None
            | c :: src' => if c =? 0 then Some [0] else cons c <$> cpystrn_loop n' src'
            end
  end.

Definition ngx_cpystrn (src : list Z) (n : nat) : option (list Z) :=
  match n with
  | O => Some []
  | S n' => cpystrn_loop n' src
  end.

(** * Comparisons *)

(** [return c1 - c2] of two [ngx_uint_t]s as an [ngx_int_t]. *)
Definition char_diff (c1 c2 : Z) : Z := i64 (u64 (c1 - c2)).

Fixpoint ngx_strcasecmp (s1 s2 : list Z) : option Z :=
  match s1, s2 with
  | a :: s1', b :: s2' =>
      let c1 := ngx_tolower a in
      let c2 := ngx_tolower b in
      if c1 =? c2 then (if negb (c1 =? 0) then ngx_strcasecmp s1' s2' else Some 0)
      else Some (char_diff c1 c2)
  | _, _ => None
  end.

Fixpoint ngx_strncasecmp (s1 s2 : list Z) (n : nat) {struct n} : option Z :=
  match n with
  | O => Some 0
  | S n' =>
      match s1, s2 with
      | a :: s1', b :: s2' =>
          let c1 := ngx_tolower a in
          let c2 := ngx_tolower b in
          if c1 =? c2 then (if negb (c1 =? 0) then ngx_strncasecmp s1' s2' n' else Some 0)
          else Some (char_diff c1 c2)
      | _, _ => None
      end
  end.

(** The C library's [strncmp], whose sign only is specified. *)
Fixpoint strncmp (s1 s2 : list Z) (n : nat) {struct n} : option Z :=
  match n with
  | O => Some 0
  | S n' =>
      match s1, s2 with
      | a :: s1', b :: s2' =>
          if a =? b then (if a =? 0 then Some 0 else strncmp s1' s2' n') else Some (a - b)
      | _, _ => None
      end
  end.

(** The C library's [memcmp], whose sign only is specified. *)
Fixpoint memcmp (s1 s2 : list Z) (n : nat) {struct n} : option Z :=
  match n with
  | O => Some 0
  | S n' =>
      match s1, s2 with
      | a :: s1', b :: s2' => if a =? b then memcmp s1' s2' n' else Some (a - b)
      | _, _ => None
      end
  end.

(** [for ( ;; ) { if (s1[n] != s2[n]) return ...; if (n == 0) return 0; n--; }] *)
Fixpoint rstrncmp_loop (f : Z -> Z) (s1 s2 : list Z) (n : nat) : option Z :=
  a ← s1 !! n; b ← s2 !! n;
  if negb (f a =? f b) then Some (f a - f b)
  else match n with
       | O => Some 0
       | S n' => rstrncmp_loop f s1 s2 n'
       end.

Definition ngx_rstrncmp (s1 s2 : list Z) (n : nat) : option Z :=
  match n with O => Some 0 | S n' => rstrncmp_loop (fun c => c) s1 s2 n' end.

(** [if (c >= 'a' && c <= 'z') c -= 'a' - 'A';] *)
Definition upper (c : Z) : Z :=
  if ("a"%cc <=? c) && (c <=? "z"%cc) then u8 (c - ("a"%cc - "A"%cc)) else c.

Definition ngx_rstrncasecmp (s1 s2 : list Z) (n : nat) : option Z :=
  match n with O => Some 0 | S n' => rstrncmp_loop upper s1 s2 n' end.

Definition ngx_memn2cmp (s1 s2 : list Z) (n1 n2 : nat) : option Z :=
  let '(n, z) := if (n1 <=? n2)%nat then (n1, -1) else (n2, 1) in
  m ← memcmp s1 s2 n;
  if negb (m =? 0) || (n1 =? n2)%nat then Some m else Some z.

Fixpoint ngx_dns_strcmp (s1 s2 : list Z) : option Z :=
  match s1, s2 with
  | a :: s1', b :: s2' =>
      let c1 := ngx_tolower a in
      let c2 := ngx_tolower b in
      if c1 =? c2 then (if negb (c1 =? 0) then ngx_dns_strcmp s1' s2' else Some 0)
      else
        let c1 := if c1 =? "."%cc then " "%cc else c1 in
        let c2 := if c2 =? "."%cc then " "%cc else c2 in
        Some (char_diff c1 c2)
  | _, _ => None
  end.

(** * Searches *)

(** [p] up to [last] is the list. *)
Fixpoint ngx_strlchr (p : list Z) (c : Z) : option nat :=
  match p with
  | [] => None
  | x :: p' => if x =? c then Some O else S <$> ngx_strlchr p' c
  end.

(** [s1++] and on: the offset found further on, from here. *)
Definition next (r : option (option nat)) : option (option nat) :=
  match r with Some (Some k) => Some (Some (S k)) | r => r end.

(** [ngx_strnstr]: [c2] and [s2] are the first character and the rest of the
    needle, a C string of which [n] is the length without the first one. *)
Fixpoint strnstr_loop (c2 : Z) (s2 : list Z) (n : nat) (s1 : list Z) (len : nat)
  {struct len} : option (option nat) :=
  match len with
  | O => Some None
  | S len' =>
      match s1 with
      | [] => None
      | c1 :: s1' =>
          if c1 =? 0 then Some None
          else if c1 =? c2 then
            if (len' <? n)%nat then Some None
            else
              m ← strncmp s1' s2 n;
              if negb (m =? 0) then next (strnstr_loop c2 s2 n s1' len')
              else Some (Some O)
          else next (strnstr_loop c2 s2 n s1' len')
      end
  end.

(** The needle is [c2 :: s2], without its terminating zero. *)
Definition ngx_strnstr (s1 : list Z) (c2 : Z) (s2 : list Z) (len : nat) : option (option nat) :=
  strnstr_loop c2 (s2 ++ [0]) (length s2) s1 len.

Fixpoint ngx_strstrn (s1 : list Z) (c2 : Z) (s2 : list Z) (n : nat) : option (option nat) :=
  match s1 with
  | [] => None
  | c1 :: s1' =>
      if c1 =? 0 then Some None
      else if c1 =? c2 then
        m ← strncmp s1' s2 n;
        if negb (m =? 0) then next (ngx_strstrn s1' c2 s2 n) else Some (Some O)
      else next (ngx_strstrn s1' c2 s2 n)
  end.

Fixpoint strcasestrn_loop (c2 : Z) (s2 : list Z) (n : nat) (s1 : list Z) : option (option nat) :=
  match s1 with
  | [] => None
  | a :: s1' =>
      if a =? 0 then Some None
      else if ngx_tolower a =? c2 then
        m ← ngx_strncasecmp s1' s2 n;
        if negb (m =? 0) then next (strcasestrn_loop c2 s2 n s1') else Some (Some O)
      else next (strcasestrn_loop c2 s2 n s1')
  end.

(** [s2] is a [char *]: [(ngx_uint_t) *s2++] extends the sign of its first
    character, so that one above 127 is never found. *)
Definition ngx_strcasestrn (s1 : list Z) (c2 : Z) (s2 : list Z) (n : nat) : option (option nat) :=
  strcasestrn_loop (ngx_tolower (u64 (swrap 8 c2))) s2 n s1.

(** [room] is [last - s1] after [last -= n]. *)
Fixpoint strlcasestrn_loop (c2 : Z) (s2 : list Z) (n : nat) (s1 : list Z) (room : nat)
  {struct room} : option (option nat) :=
  match room with
  | O => Some None
  | S room' =>
      match s1 with
      | [] => None
      | a :: s1' =>
          if ngx_tolower a =? c2 then
            m ← ngx_strncasecmp s1' s2 n;
            if negb (m =? 0) then next (strlcasestrn_loop c2 s2 n s1' room')
            else Some (Some O)
          else next (strlcasestrn_loop c2 s2 n s1' room')
      end
  end.

(** [len] is [last - s1]. *)
Definition ngx_strlcasestrn (s1 : list Z) (len : Z) (c2 : Z) (s2 : list Z) (n : nat)
  : option (option nat) :=
  strlcasestrn_loop (ngx_tolower c2) s2 n s1 (Z.to_nat (len - Z.of_nat n)).

(** * Insertion sort *)

Section sort.
Context {A : Type} (cmp : A -> A -> Z).

(** The inner loop: [p2] is the index of the hole, [p] the copied element. *)
Fixpoint sort_shift (p : A) (base : list A) (p2 : nat) : list A :=
  match p2 with
  | O => <[O := p]> base
  | S q =>
      match base !! q with
      | Some x => if 0 <? cmp x p then sort_shift p (<[p2 := x]> base) q
                  else <[p2 := p]> base
      | None => base
      end
  end.

(** The outer loop, from index [p1] with [k] elements left. *)
Fixpoint sort_outer (base : list A) (p1 k : nat) : list A :=
  match k with
  | O => base
  | S k' =>
      match base !! p1 with
      | Some p => sort_outer (sort_shift p base p1) (S p1) k'
      | None => base
      end
  end.

(** [alloc] tells whether [ngx_alloc] succeeds. *)
Definition ngx_sort (alloc : bool) (base : list A) : list A :=
  if alloc then sort_outer base 1 (length base - 1) else base.

End sort.

Example sort_small : ngx_sort (fun a b => a - b) true [3; 1; 2; 1] = [1; 1; 2; 3].
Proof. reflexivity. Qed.

(** * Searches find the first occurrence *)

(** [needle] occurs in [s] at [k], up to [f]. *)
Definition occurs (f : Z -> Z) (needle s : list Z) (k : nat) : Prop :=
  f <$> needle `prefix_of` f <$> drop k s.

(** [r] is the first occurrence. *)
Definition first_occurrence (f : Z -> Z) (needle s : list Z) (r : option nat) : Prop :=
  match r with
  | None => forall k, ~ occurs f needle s k
  | Some k => occurs f needle s k /\ forall j, (j < k)%nat -> ~ occurs f needle s j
  end.

Lemma occurs_nil f c needle k : ~ occurs f (c :: needle) [] k.
Proof. unfold occurs. rewrite drop_nil. by intros ?%prefix_nil_inv. Qed.

Lemma first_occurrence_none f needle c s r :
  ~ occurs f needle (c :: s) 0 -> first_occurrence f needle s r ->
  first_occurrence f needle (c :: s) (option_map S r).
Proof.
  intros H0 Hr. destruct r as [k|]; cbn in *.
  - destruct Hr as [Hk Hj]. split; [exact Hk|]. intros [|j] Hlt; [done|]. apply Hj. lia.
  - intros [|k]; [done|]. apply Hr.
Qed.

Lemma first_occurrence_here f needle s :
  occurs f needle s 0 -> first_occurrence f needle s (Some 0%nat).
Proof. intros H. split; [done|]. lia. Qed.

Lemma next_Some r x : r = Some x -> next r = Some (option_map S x).
Proof. intros ->. by destruct x. Qed.

Lemma char_diff_small c1 c2 :
  is_byte c1 -> is_byte c2 -> char_diff c1 c2 = c1 - c2.
Proof.
  unfold is_byte, char_diff. intros. rewrite <- (swrap_small 64 (c1 - c2)) at 2 by lia.
  apply swrap_eq_mod. unfold wrap. by rewrite Zmod_mod.
Qed.

Lemma ngx_tolower_byte c : is_byte c -> is_byte (ngx_tolower c).
Proof.
  intros Hc. pose proof (byte_forall (fun c => bool_decide (is_byte (ngx_tolower c)))) as H.
  apply (bool_decide_unpack _). rewrite Is_true_true. apply H; [|done].
  vm_compute. reflexivity.
Qed.

Lemma ngx_tolower_zero c : is_byte c -> ngx_tolower c = 0 -> c = 0.
Proof.
  intros Hc. pose proof (byte_forall (fun c => negb (ngx_tolower c =? 0) || (c =? 0))) as H.
  assert (negb (ngx_tolower c =? 0) || (c =? 0) = true) as E by (apply H; [vm_compute; reflexivity|done]).
  lia.
Qed.

Definition no_zero (s : list Z) : Prop := Forall (fun c => c <> 0) s.

#[export] Instance no_zero_dec s : Decision (no_zero s).
Proof. unfold no_zero. apply _. Defined.

(** Comparing with a needle that has no zero byte, inside the text. *)
Lemma strncasecmp_prefix s after s2 :
  is_bytes s -> is_bytes s2 -> no_zero s2 -> (length s2 <= length s)%nat ->
  exists m, ngx_strncasecmp (s ++ after) s2 (length s2) = Some m /\
    (m = 0 <-> ngx_tolower <$> s2 `prefix_of` ngx_tolower <$> s).
Proof.
  intros Hs Hs2 Hn. revert s Hs. induction s2 as [|b s2 IH]; intros s Hs Hl.
  { exists 0. split; [by destruct s|]. split; [intros _; apply prefix_nil|done]. }
  apply Forall_cons in Hs2 as [Hb Hs2]. apply Forall_cons in Hn as [Hb0 Hn].
  destruct s as [|a s]; [cbn in Hl; lia|]. apply Forall_cons in Hs as [Ha Hs].
  cbn [length ngx_strncasecmp app]. cbv zeta.
  destruct (Z.eqb_spec (ngx_tolower a) (ngx_tolower b)) as [E|E].
  - destruct (Z.eqb_spec (ngx_tolower a) 0) as [E0|E0].
    { exfalso. apply Hb0, ngx_tolower_zero; [done|congruence]. }
    cbn [negb]. destruct (IH Hs2 Hn s Hs) as (m & -> & Hm); [cbn in Hl; lia|].
    exists m. split; [done|]. cbn [fmap list_fmap]. rewrite E, Hm.
    split; [apply prefix_cons|apply prefix_cons_inv_2].
  - eexists. split; [reflexivity|]. rewrite char_diff_small by (by apply ngx_tolower_byte).
    cbn [fmap list_fmap]. split; [lia|]. intros ?%prefix_cons_inv_1. congruence.
Qed.

(** The same for [strncmp] on a C string, which may be shorter. *)
Lemma strncmp_prefix s s2 rest rest2 :
  no_zero s -> no_zero s2 ->
  exists m, strncmp (s ++ 0 :: rest) (s2 ++ rest2) (length s2) = Some m /\
    (m = 0 <-> s2 `prefix_of` s).
Proof.
  intros Hs Hn. revert s Hs. induction s2 as [|b s2 IH]; intros s Hs.
  { exists 0. split; [done|]. split; [intros _; apply prefix_nil|done]. }
  apply Forall_cons in Hn as [Hb0 Hn]. cbn [length strncmp app].
  destruct s as [|a s]; cbn [app].
  - destruct (Z.eqb_spec 0 b); [lia|]. eexists. split; [reflexivity|].
    split; [lia|by intros ?%prefix_nil_inv].
  - apply Forall_cons in Hs as [Ha Hs]. destruct (Z.eqb_spec a b) as [->|E].
    + destruct (Z.eqb_spec b 0); [done|]. destruct (IH Hn s Hs) as (m & -> & Hm).
      exists m. split; [done|]. rewrite Hm. split; [apply prefix_cons|apply prefix_cons_inv_2].
    + eexists. split; [reflexivity|]. split; [lia|]. intros ?%prefix_cons_inv_1. congruence.
Qed.

Lemma occurs_length f needle s k :
  occurs f needle s k -> (k + length needle <= length s \/ needle = [])%nat.
Proof.
  unfold occurs. intros H%prefix_length. rewrite !length_fmap, length_drop in H.
  destruct needle; [by right|left]. cbn in *. lia.
Qed.

Lemma strlcasestrn_spec s after c2 s2 :
  is_bytes s -> is_bytes (c2 :: s2) -> no_zero (c2 :: s2) ->
  exists r, ngx_strlcasestrn (s ++ after) (Z.of_nat (length s)) c2 s2 (length s2) = Some r /\
    first_occurrence ngx_tolower (c2 :: s2) s r.
Proof.
  intros Hs Hn Hz. unfold ngx_strlcasestrn. apply Forall_cons in Hn as [Hc2 Hs2].
  apply Forall_cons in Hz as [_ Hz]. 
  replace (Z.to_nat (Z.of_nat (length s) - Z.of_nat (length s2))) with (length s - length s2)%nat by lia.
  induction Hs as [|a s Ha Hs IH].
  { exists None. split; [done|]. intros k. apply occurs_nil. }
  destruct (decide (length s < length s2)%nat) as [Hlt|Hge].
  { replace (length (a :: s) - length s2)%nat with 0%nat by (cbn; lia). exists None.
    split; [done|]. intros k Hk. apply occurs_length in Hk as [Hk|?]; [cbn in Hk; lia|done]. }
  replace (length (a :: s) - length s2)%nat with (S (length s - length s2)) by (cbn; lia).
  cbn [strlcasestrn_loop app]. destruct IH as (r & Er & Hr).
  destruct (Z.eqb_spec (ngx_tolower a) (ngx_tolower c2)) as [E|E].
  - destruct (strncasecmp_prefix s after s2) as (m & -> & Hm); [done..|lia|]. cbn [mbind option_bind].
    destruct (Z.eqb_spec m 0) as [Em|Em]; cbn [negb].
    + exists (Some 0%nat). split; [done|]. apply first_occurrence_here.
      unfold occurs. cbn [drop fmap list_fmap]. rewrite E. apply prefix_cons. by apply Hm.
    + exists (option_map S r). split; [by apply next_Some|].
      apply first_occurrence_none; [|done]. unfold occurs. cbn [drop fmap list_fmap].
      intros Hpre%prefix_cons_inv_2. by apply Em, Hm.
  - exists (option_map S r). split; [by apply next_Some|].
    apply first_occurrence_none; [|done]. unfold occurs. cbn [drop fmap list_fmap].
    intros ?%prefix_cons_inv_1. congruence.
Qed.

(** [ngx_strlcasestrn] finds the first occurrence, up to case, of a needle
    without zero bytes in the text between [s1] and [last], and nothing when
    there is none; it reads inside the text only. *)
Theorem strlcasestrn_first s after c2 s2 :
  is_bytes s -> is_bytes (c2 :: s2) -> no_zero (c2 :: s2) ->
  exists r, ngx_strlcasestrn (s ++ after) (Z.of_nat (length s)) c2 s2 (length s2) = Some r /\
    first_occurrence ngx_tolower (c2 :: s2) s r.
Proof. apply strlcasestrn_spec. Qed.

Example strlcasestrn_first_witness :
  exists r, ngx_strlcasestrn (cstr "xaXAbc") 6 "a"%cc (cstr "B") 1 = Some r /\
    first_occurrence ngx_tolower (cstr "aB") (cstr "xaXAbc") r.
Proof. apply (strlcasestrn_first (cstr "xaXAbc") [] "a"%cc (cstr "B")); by_eval. Defined.

(** On a C string without and with a length limit, [ngx_strstrn] and
    [ngx_strnstr] return the first occurrence of the needle ([ngx_strnstr]
    inside the first [len] bytes) and [NULL] when there is none, without
    reading past the terminating zero. *)
Theorem strstrn_strnstr_first s rest c2 s2 len :
  no_zero s -> no_zero (c2 :: s2) ->
  (exists r, ngx_strstrn (s ++ 0 :: rest) c2 (s2 ++ [0]) (length s2) = Some r /\
     first_occurrence id (c2 :: s2) s r) /\
  (exists r, ngx_strnstr (s ++ 0 :: rest) c2 s2 len = Some r /\
     first_occurrence id (c2 :: s2) (take len s) r).
Proof.
  intros Hs Hz. apply Forall_cons in Hz as [Hc2 Hz]. split.
  - induction Hs as [|a s Ha Hs IH].
    { exists None. split; [done|]. intros k. apply occurs_nil. }
    destruct IH as (r & Er & Hr). cbn [app ngx_strstrn].
    destruct (Z.eqb_spec a 0); [done|]. destruct (Z.eqb_spec a c2) as [->|E].
    + destruct (strncmp_prefix s s2 rest [0]) as (m & -> & Hm); [done..|]. cbn [mbind option_bind].
      destruct (Z.eqb_spec m 0) as [Em|Em]; cbn [negb].
      * exists (Some 0%nat). split; [done|]. apply first_occurrence_here.
        unfold occurs. rewrite !list_fmap_id. apply prefix_cons. by apply Hm.
      * exists (option_map S r). split; [by apply next_Some|]. apply first_occurrence_none; [|done].
        unfold occurs. rewrite !list_fmap_id. intros Hpre%prefix_cons_inv_2. by apply Em, Hm.
    + exists (option_map S r). split; [by apply next_Some|]. apply first_occurrence_none; [|done].
      unfold occurs. rewrite !list_fmap_id. intros ?%prefix_cons_inv_1. congruence.
  - unfold ngx_strnstr. revert len. induction Hs as [|a s Ha Hs IH]; intros len.
    { exists None. split; [by destruct len|]. rewrite take_nil. intros k. apply occurs_nil. }
    destruct len as [|len].
    { exists None. split; [done|]. intros k. apply occurs_nil. }
    destruct (IH len) as (r & Er & Hr). cbn [app strnstr_loop take].
    destruct (Z.eqb_spec a 0); [done|]. destruct (Z.eqb_spec a c2) as [->|E].
    + destruct (Nat.ltb_spec len (length s2)) as [Hlt|Hge].
      { exists None. split; [done|]. intros k Hk.
        apply occurs_length in Hk as [Hk|?]; [|done]. cbn in Hk. rewrite length_take in Hk. lia. }
      destruct (strncmp_prefix s s2 rest [0]) as (m & -> & Hm); [done..|]. cbn [mbind option_bind].
      assert (s2 `prefix_of` s <-> s2 `prefix_of` take len s) as Hp.
      { split.
        - intros [k ->]. rewrite take_app_ge by lia. by eexists.
        - intros [k Hk]. exists (k ++ drop len s). rewrite app_assoc, <- Hk. by rewrite take_drop. }
      destruct (Z.eqb_spec m 0) as [Em|Em]; cbn [negb].
      * exists (Some 0%nat). split; [done|]. apply first_occurrence_here.
        unfold occurs. rewrite !list_fmap_id. apply prefix_cons. by apply Hp, Hm.
      * exists (option_map S r). split; [by apply next_Some|]. apply first_occurrence_none; [|done].
        unfold occurs. rewrite !list_fmap_id. intros Hpre%prefix_cons_inv_2. by apply Em, Hm, Hp.
    + exists (option_map S r). split; [by apply next_Some|]. apply first_occurrence_none; [|done].
      unfold occurs. rewrite !list_fmap_id. intros ?%prefix_cons_inv_1. congruence.
Qed.

Example strstrn_strnstr_first_witness :
  (exists r, ngx_strstrn (cstr "ababc" ++ [0]) "a"%cc (cstr "bc" ++ [0]) 2 = Some r /\
     first_occurrence id (cstr "abc") (cstr "ababc") r) /\
  (exists r, ngx_strnstr (cstr "ababc" ++ [0]) "a"%cc (cstr "bc") 4 = Some r /\
     first_occurrence id (cstr "abc") (cstr "abab") r).
Proof. apply (strstrn_strnstr_first (cstr "ababc") [] "a"%cc (cstr "bc") 4); by_eval. Defined.

(** * Comparisons *)

(** Lexicographic order of byte strings. *)
Fixpoint lex (a b : list Z) : comparison :=
  match a, b with
  | [], [] => Eq
  | [], _ => Lt
  | _, [] => Gt
  | x :: a', y :: b' => match x ?= y with Eq => lex a' b' | o => o end
  end.

(** A result with the sign of the comparison [o]. *)
Definition sign_is (m : Z) (o : comparison) : Prop :=
  match o with Eq => m = 0 | Lt => m < 0 | Gt => 0 < m end.

Lemma lex_eq a b : lex a b = Eq <-> a = b.
Proof.
  revert b. induction a as [|x a IH]; intros [|y b]; cbn; try done.
  destruct (Z.compare_spec x y) as [->| |]; [rewrite IH|..]; split; intros; congruence || (simplify_eq; lia).
Qed.

Abbreviation blt a b := (lex a b = Lt).

Lemma lex_antisym a b : lex b a = CompOpp (lex a b).
Proof.
  revert b. induction a as [|x a IH]; intros [|y b]; cbn; try done. rewrite Z.compare_antisym.
  destruct (x ?= y); cbn; done.
Qed.

Lemma lex_gt a b : lex a b = Gt <-> blt b a.
Proof. rewrite (lex_antisym b a). by destruct (lex b a). Qed.

Lemma lex_refl a : lex a a = Eq.
Proof. by apply lex_eq. Qed.

Lemma blt_trans a b c : blt a b -> blt b c -> blt a c.
Proof.
  revert b c. induction a as [|x a IH]; intros [|y b] [|z c]; cbn; try done.
  destruct (Z.compare_spec x y) as [->|H1|H1]; try done.
  - destruct (y ?= z); try done. apply IH.
  - intros _. destruct (Z.compare_spec y z) as [->|H2|H2]; try done; rewrite (proj2 (Z.compare_lt_iff _ _)) by lia; done.
Qed.

Lemma blt_irrefl a : ~ blt a a.
Proof. by rewrite lex_refl. Qed.

Lemma sign_of_diff x y : x <> y -> sign_is (x - y) (x ?= y).
Proof. intros. destruct (Z.compare_spec x y); cbn; lia. Qed.

(** The key under which [ngx_dns_strcmp] compares a character. *)
Definition dns_key (c : Z) : Z := if ngx_tolower c =? "."%cc then " "%cc else ngx_tolower c.

Lemma tolower_pos c : is_byte c -> c <> 0 -> 0 < ngx_tolower c < 256.
Proof.
  intros Hc H0. pose proof (ngx_tolower_byte c Hc) as Hb.
  assert (ngx_tolower c <> 0) by (intros E; by apply ngx_tolower_zero in E).
  unfold is_byte in Hb. lia.
Qed.

Lemma strcasecmp_lex s1 s2 r1 r2 :
  is_bytes s1 -> is_bytes s2 -> no_zero s1 -> no_zero s2 ->
  exists m, ngx_strcasecmp (s1 ++ 0 :: r1) (s2 ++ 0 :: r2) = Some m /\
    sign_is m (lex (ngx_tolower <$> s1) (ngx_tolower <$> s2)).
Proof.
  intros Hb1. revert s2. induction Hb1 as [|a s1 Ha Hb1 IH]; intros s2 Hb2 Hz1 Hz2.
  - destruct s2 as [|b s2]; [by exists 0|].
    apply Forall_cons in Hb2 as [Hb _]. apply Forall_cons in Hz2 as [Hb0 _].
    pose proof (tolower_pos b Hb Hb0). cbn [app ngx_strcasecmp]. change (ngx_tolower 0) with 0.
    destruct (Z.eqb_spec 0 (ngx_tolower b)); [lia|]. eexists. split; [reflexivity|].
    rewrite char_diff_small by (unfold is_byte; lia). cbn. lia.
  - apply Forall_cons in Hz1 as [Ha0 Hz1]. pose proof (tolower_pos a Ha Ha0).
    destruct s2 as [|b s2]; cbn [app ngx_strcasecmp]; cbv zeta.
    + change (ngx_tolower 0) with 0. destruct (Z.eqb_spec (ngx_tolower a) 0); [lia|].
      eexists. split; [reflexivity|]. rewrite char_diff_small by (unfold is_byte; lia). cbn. lia.
    + apply Forall_cons in Hb2 as [Hb Hb2]. apply Forall_cons in Hz2 as [Hb0 Hz2].
      pose proof (tolower_pos b Hb Hb0). cbn [fmap list_fmap lex].
      destruct (Z.eqb_spec (ngx_tolower a) (ngx_tolower b)) as [E|E].
      * rewrite E, Z.compare_refl. destruct (Z.eqb_spec (ngx_tolower b) 0); [lia|].
        cbn [negb]. by apply IH.
      * eexists. split; [reflexivity|]. rewrite char_diff_small by (unfold is_byte; lia).
        pose proof (sign_of_diff _ _ E) as Hd.
        by destruct (Z.compare_spec (ngx_tolower a) (ngx_tolower b)).
Qed.

Lemma dns_strcmp_lex s1 s2 r1 r2 :
  is_bytes s1 -> is_bytes s2 -> no_zero s1 -> no_zero s2 ->
  Forall (fun c => c <> " "%cc) s1 -> Forall (fun c => c <> " "%cc) s2 ->
  exists m, ngx_dns_strcmp (s1 ++ 0 :: r1) (s2 ++ 0 :: r2) = Some m /\
    sign_is m (lex (dns_key <$> s1) (dns_key <$> s2)).
Proof.
  assert (forall c, is_byte c -> c <> 0 -> c <> " "%cc ->
    0 < dns_key c < 256 /\ ngx_tolower c <> " "%cc) as Hk.
  { intros c Hc H0 H32. pose proof (tolower_pos c Hc H0).
    pose proof (byte_forall (fun c => negb (ngx_tolower c =? 32) || (c =? 32))) as H'.
    assert (negb (ngx_tolower c =? 32) || (c =? 32) = true)
      by (apply H'; [vm_compute; reflexivity|done]).
    unfold dns_key. destruct (_ =? "."%cc); lia. }
  assert (forall a b, is_byte a -> a <> 0 -> a <> " "%cc -> is_byte b -> b <> 0 -> b <> " "%cc ->
    ngx_tolower a <> ngx_tolower b -> dns_key a <> dns_key b) as Hinj.
  { intros a b Ha Ha0 Ha1 Hb Hb0 Hb1 E. destruct (Hk a) as [_ ?], (Hk b) as [_ ?]; [done..|].
    unfold dns_key.
    destruct (Z.eqb_spec (ngx_tolower a) "."%cc), (Z.eqb_spec (ngx_tolower b) "."%cc); congruence. }
  intros Hb1. revert s2. induction Hb1 as [|a s1 Ha Hb1 IH]; intros s2 Hb2 Hz1 Hz2 Hs1 Hs2.
  - destruct s2 as [|b s2]; [by exists 0|].
    apply Forall_cons in Hb2 as [Hb _]. apply Forall_cons in Hz2 as [Hb0 _].
    apply Forall_cons in Hs2 as [Hb1 _]. destruct (Hk b Hb Hb0 Hb1) as [Hd _].
    pose proof (tolower_pos b Hb Hb0). cbn [app ngx_dns_strcmp]. change (ngx_tolower 0) with 0.
    destruct (Z.eqb_spec 0 (ngx_tolower b)); [lia|]. eexists. split; [reflexivity|].
    fold (dns_key b). rewrite char_diff_small by (unfold is_byte; cbn; lia). cbn. lia.
  - apply Forall_cons in Hz1 as [Ha0 Hz1]. apply Forall_cons in Hs1 as [Ha1 Hs1].
    pose proof (tolower_pos a Ha Ha0). destruct (Hk a Ha Ha0 Ha1) as [Hda _].
    destruct s2 as [|b s2]; cbn [app ngx_dns_strcmp]; cbv zeta.
    + change (ngx_tolower 0) with 0. destruct (Z.eqb_spec (ngx_tolower a) 0); [lia|].
      eexists. split; [reflexivity|]. fold (dns_key a).
      rewrite char_diff_small by (unfold is_byte; cbn; lia). cbn. lia.
    + apply Forall_cons in Hb2 as [Hb Hb2]. apply Forall_cons in Hz2 as [Hb0 Hz2].
      apply Forall_cons in Hs2 as [Hb1' Hs2]. destruct (Hk b Hb Hb0 Hb1') as [Hdb _].
      cbn [fmap list_fmap lex].
      destruct (Z.eqb_spec (ngx_tolower a) (ngx_tolower b)) as [E|E].
      * assert (dns_key a = dns_key b) as -> by (unfold dns_key; by rewrite E).
        rewrite Z.compare_refl. destruct (Z.eqb_spec (ngx_tolower a) 0); [lia|].
        cbn [negb]. by apply IH.
      * fold (dns_key a) (dns_key b). eexists. split; [reflexivity|].
        rewrite char_diff_small by (unfold is_byte; lia).
        pose proof (Hinj a b Ha Ha0 Ha1 Hb Hb0 Hb1' E) as E'.
        pose proof (sign_of_diff _ _ E') as Hd.
        by destruct (Z.compare_spec (dns_key a) (dns_key b)).
Qed.

Lemma memn2cmp_lex s1 s2 :
  exists m, ngx_memn2cmp s1 s2 (length s1) (length s2) = Some m /\ sign_is m (lex s1 s2).
Proof.
  unfold ngx_memn2cmp. revert s2. induction s1 as [|a s1 IH]; intros [|b s2].
  1-3: by eexists.
  destruct (IH s2) as (m & Em & Hm). cbn [length Nat.leb lex].
  destruct (Z.compare_spec a b) as [->| |].
  - destruct (length s1 <=? length s2)%nat; cbn [memcmp]; rewrite Z.eqb_refl; by exists m.
  - destruct (length s1 <=? length s2)%nat; cbn [memcmp]; (destruct (Z.eqb_spec a b); [lia|]);
      cbn [mbind option_bind]; (destruct (Z.eqb_spec (a - b) 0); [lia|]); eexists; (split; [done|]);
      cbn; lia.
  - destruct (length s1 <=? length s2)%nat; cbn [memcmp]; (destruct (Z.eqb_spec a b); [lia|]);
      cbn [mbind option_bind]; (destruct (Z.eqb_spec (a - b) 0); [lia|]); eexists; (split; [done|]);
      cbn; lia.
Qed.

(** The comparison functions order strings lexicographically:
    [ngx_strcasecmp] by the lower-cased bytes, [ngx_memn2cmp] by the bytes,
    and [ngx_dns_strcmp], on names without spaces, by the lower-cased bytes
    with the dot below every other character; in particular they return zero
    exactly on strings equal under that key. *)
Theorem comparisons_lexicographic s1 s2 r1 r2 :
  is_bytes s1 -> is_bytes s2 -> no_zero s1 -> no_zero s2 ->
  Forall (fun c => c <> " "%cc) s1 -> Forall (fun c => c <> " "%cc) s2 ->
  exists m n d,
    ngx_strcasecmp (s1 ++ 0 :: r1) (s2 ++ 0 :: r2) = Some m /\
    sign_is m (lex (ngx_tolower <$> s1) (ngx_tolower <$> s2)) /\
    ngx_memn2cmp s1 s2 (length s1) (length s2) = Some n /\ sign_is n (lex s1 s2) /\
    ngx_dns_strcmp (s1 ++ 0 :: r1) (s2 ++ 0 :: r2) = Some d /\
    sign_is d (lex (dns_key <$> s1) (dns_key <$> s2)).
Proof.
  intros. destruct (strcasecmp_lex s1 s2 r1 r2) as (m & ? & ?); [done..|].
  destruct (memn2cmp_lex s1 s2) as (n & ? & ?).
  destruct (dns_strcmp_lex s1 s2 r1 r2) as (d & ? & ?); [done..|].
  by exists m, n, d.
Qed.

Example comparisons_lexicographic_witness :
  exists m n d,
    ngx_strcasecmp (cstr "a.B" ++ [0]) (cstr "A-b" ++ [0]) = Some m /\ m > 0 /\
    ngx_memn2cmp (cstr "a.B") (cstr "A-b") 3 3 = Some n /\ n > 0 /\
    ngx_dns_strcmp (cstr "a.B" ++ [0]) (cstr "A-b" ++ [0]) = Some d /\ d < 0.
Proof.
  destruct (comparisons_lexicographic (cstr "a.B") (cstr "A-b") [] [])
    as (m & n & d & ? & Hm & ? & Hn & ? & Hd); [by_eval..|].
  exists m, n, d. split_and!; try done; [apply Z.lt_gt, Hm|apply Z.lt_gt, Hn].
Defined.

(** * Sorting *)

Section sort_theorem.
Context {A : Type} (cmp : A -> A -> Z).

(** The element [p] moved down from the end of [pre], over the elements
    greater than it; [rpre] is [pre] reversed. *)
Fixpoint insert_down (p : A) (rpre : list A) : list A :=
  match rpre with
  | [] => [p]
  | x :: rpre' => if 0 <? cmp x p then insert_down p rpre' ++ [x] else reverse rpre ++ [p]
  end.

Lemma insert_down_length p rpre : length (insert_down p rpre) = S (length rpre).
Proof.
  induction rpre as [|x rpre IH]; [done|]. cbn [insert_down].
  destruct (0 <? cmp x p); rewrite length_app, ?IH, ?length_reverse; cbn [length]; lia.
Qed.

(** The inner loop, with any element in the hole. *)
Lemma sort_shift_insert p rpre hole post :
  sort_shift cmp p (reverse rpre ++ hole :: post) (length rpre) = insert_down p rpre ++ post.
Proof.
  revert hole post. induction rpre as [|x rpre IH]; intros hole post; [done|].
  cbn [length sort_shift insert_down]. rewrite reverse_cons, <- app_assoc. cbn [app].
  assert ((reverse rpre ++ x :: hole :: post) !! length rpre = Some x) as ->.
  { rewrite lookup_app_r by (rewrite length_reverse; lia).
    by rewrite length_reverse, Nat.sub_diag. }
  replace (S (length rpre)) with (length (reverse rpre) + 1)%nat by (rewrite length_reverse; lia).
  rewrite !insert_app_r. cbn [insert list_insert].
  destruct (0 <? cmp x p); [by rewrite IH, <- app_assoc|].
  by rewrite <- !app_assoc.
Qed.

(** Insertion of the elements one after the other. *)
Fixpoint insert_all (sorted rest : list A) : list A :=
  match rest with
  | [] => sorted
  | p :: rest' => insert_all (insert_down p (reverse sorted)) rest'
  end.

Lemma sort_outer_insert sorted rest :
  sort_outer cmp (sorted ++ rest) (length sorted) (length rest) = insert_all sorted rest.
Proof.
  revert sorted. induction rest as [|p rest IH]; intros sorted; cbn [length sort_outer insert_all].
  { by rewrite app_nil_r. }
  rewrite lookup_app_r by lia. rewrite Nat.sub_diag. cbn [lookup list_lookup].
  pose proof (sort_shift_insert p (reverse sorted) p rest) as Hs.
  rewrite reverse_involutive, length_reverse in Hs. rewrite Hs.
  rewrite <- IH. f_equal. rewrite insert_down_length, length_reverse. done.
Qed.

Lemma ngx_sort_insert base : ngx_sort cmp true base = insert_all [] base.
Proof.
  unfold ngx_sort. destruct base as [|p base]; [done|].
  cbn [length]. rewrite Nat.sub_succ, Nat.sub_0_r. cbn [insert_all].
  exact (sort_outer_insert [p] base).
Qed.

(** What the callers' comparison functions are: antisymmetric by sign, and
    transitive. *)
Context (cmp_anti : forall x y, 0 < cmp x y <-> cmp y x < 0)
        (cmp_trans : forall x y z, cmp x y <= 0 -> cmp y z <= 0 -> cmp x z <= 0).

Abbreviation le := (fun x y => cmp x y <= 0).

Lemma insert_down_Permutation p rpre : insert_down p rpre ≡ₚ p :: rpre.
Proof.
  induction rpre as [|x rpre IH]; [done|]. cbn [insert_down].
  destruct (0 <? cmp x p).
  - rewrite IH. rewrite Permutation_app_comm. cbn. apply Permutation_swap.
  - rewrite reverse_Permutation. by rewrite Permutation_app_comm.
Qed.

Lemma insert_down_sorted p rpre :
  StronglySorted le (reverse rpre) -> StronglySorted le (insert_down p rpre).
Proof.
  induction rpre as [|x rpre IH]; intros Hs; [by repeat constructor|].
  cbn [insert_down]. pose proof Hs as Hs'. rewrite reverse_cons in Hs'.
  apply StronglySorted_app in Hs' as (Hlt & Hs1 & _).
  destruct (Z.ltb_spec 0 (cmp x p)) as [Hx|Hx]; apply StronglySorted_app; split_and!.
  - intros y z Hy Hz. apply list_elem_of_singleton in Hz as ->.
    rewrite insert_down_Permutation in Hy. apply elem_of_cons in Hy as [-> |Hy].
    + apply cmp_anti in Hx. cbn. lia.
    + apply Hlt; [by rewrite elem_of_reverse|by apply list_elem_of_singleton].
  - by apply IH.
  - by repeat constructor.
  - intros y z Hy Hz. apply list_elem_of_singleton in Hz as ->.
    rewrite elem_of_reverse in Hy. apply elem_of_cons in Hy as [-> |Hy]; [done|].
    apply (cmp_trans y x p); [|done]. apply (Hlt y x); [by rewrite elem_of_reverse|].
    by apply list_elem_of_singleton.
  - done.
  - by repeat constructor.
Qed.

(** The elements equal to [k], in their order. *)
Definition equal_to (k : A) (l : list A) : list A := filter (fun x => cmp x k = 0) l.

Lemma insert_down_stable k p rpre :
  equal_to k (insert_down p rpre) = equal_to k (reverse rpre ++ [p]).
Proof.
  induction rpre as [|x rpre IH]; [done|]. cbn [insert_down].
  destruct (Z.ltb_spec 0 (cmp x p)) as [Hx|Hx]; [|done].
  unfold equal_to in *. rewrite filter_app, IH, reverse_cons, !filter_app.
  rewrite <- !app_assoc. f_equal.
  rewrite !filter_cons, !filter_nil.
  destruct (decide (cmp p k = 0)) as [Ep|], (decide (cmp x k = 0)) as [Ex|]; try done.
  exfalso. assert (cmp k p <= 0).
  { destruct (Z.le_gt_cases (cmp k p) 0); [done|]. pose proof (proj1 (cmp_anti k p)). lia. }
  pose proof (cmp_trans x k p). lia.
Qed.

Lemma insert_all_correct sorted rest :
  StronglySorted le sorted ->
  StronglySorted le (insert_all sorted rest) /\ insert_all sorted rest ≡ₚ sorted ++ rest /\
  forall k, equal_to k (insert_all sorted rest) = equal_to k (sorted ++ rest).
Proof.
  revert sorted. induction rest as [|p rest IH]; intros sorted Hs; cbn [insert_all].
  { by rewrite app_nil_r. }
  destruct (IH (insert_down p (reverse sorted))) as (H1 & H2 & H3).
  { apply insert_down_sorted. by rewrite reverse_involutive. }
  split_and!; [done| |].
  - rewrite H2, insert_down_Permutation, reverse_Permutation.
    by rewrite <- Permutation_middle.
  - intros k. rewrite H3. unfold equal_to in *. rewrite filter_app.
    fold (equal_to k (insert_down p (reverse sorted))). rewrite insert_down_stable.
    unfold equal_to. rewrite reverse_involutive, <- filter_app, <- app_assoc. done.
Qed.

Lemma ngx_sort_correct base :
  StronglySorted le (ngx_sort cmp true base) /\ ngx_sort cmp true base ≡ₚ base /\
  forall k, equal_to k (ngx_sort cmp true base) = equal_to k base.
Proof. rewrite ngx_sort_insert. apply (insert_all_correct []). constructor. Qed.

End sort_theorem.

(** [ngx_sort] only asks whether the comparison is above 0. *)
Lemma insert_down_ext {A} (c1 c2 : A -> A -> Z) p l : (forall x y, (0 <? c1 x y) = (0 <? c2 x y)) -> insert_down c1 p l = insert_down c2 p l.
Proof. intros H. induction l as [|x l IH]; [done|]. cbn [insert_down]. by rewrite H, IH. Qed.

Lemma insert_all_ext {A} (c1 c2 : A -> A -> Z) a l : (forall x y, (0 <? c1 x y) = (0 <? c2 x y)) -> insert_all c1 a l = insert_all c2 a l.
Proof. intros H. revert a. induction l as [|x l IH]; intros a; [done|]. cbn [insert_all]. by rewrite (insert_down_ext c1 c2), IH. Qed.

(** [ngx_sort] sorts: for a comparison function that is antisymmetric by
    sign and transitive the result is sorted, has the same elements, and keeps
    the order of equal elements; when the allocation fails the array is left
    as it was. *)
Theorem ngx_sort_stable {A} (cmp : A -> A -> Z) base :
  (forall x y, 0 < cmp x y <-> cmp y x < 0) ->
  (forall x y z, cmp x y <= 0 -> cmp y z <= 0 -> cmp x z <= 0) ->
  StronglySorted (fun x y => cmp x y <= 0) (ngx_sort cmp true base) /\
  ngx_sort cmp true base ≡ₚ base /\
  (forall k, filter (fun x => cmp x k = 0) (ngx_sort cmp true base) =
             filter (fun x => cmp x k = 0) base) /\
  ngx_sort cmp false base = base.
Proof.
  intros Ha Ht. destruct (ngx_sort_correct cmp Ha Ht base) as (? & ? & ?). by split_and!.
Qed.

Example ngx_sort_stable_witness :
  let cmp := fun x y : Z * Z => x.1 - y.1 in
  StronglySorted (fun x y => cmp x y <= 0) (ngx_sort cmp true [(2, 1); (1, 2); (2, 3); (1, 4)]) /\
  ngx_sort cmp true [(2, 1); (1, 2); (2, 3); (1, 4)] = [(1, 2); (1, 4); (2, 1); (2, 3)].
Proof.
  split; [|reflexivity].
  apply (ngx_sort_stable (fun x y : Z * Z => x.1 - y.1)); intros; lia.
Defined.
