(* ===== verification/NgxHash.v ===== *)
(** Hash keys of src/core/ngx_hash.c: [ngx_hash_key], [ngx_hash_key_lc] and
    [ngx_hash_strlow], over the macro [ngx_hash] of src/core/ngx_hash.h.

    Keys are 64-bit unsigned. *)

From S2P Require Import Prelude.

Open Scope Z_scope.

(** [((ngx_uint_t) key * 31 + c)] *)
Definition ngx_hash (key c : Z) : Z := u64 (key * 31 + c).

Definition ngx_hash_key (data : list Z) : Z := foldl ngx_hash 0 data.

Definition ngx_hash_key_lc (data : list Z) : Z :=
  foldl (fun key c => ngx_hash key (ngx_tolower c)) 0 data.

(** The key and the bytes written at [dst]. *)
Fixpoint hash_strlow_loop (key : Z) (src : list Z) : Z * list Z :=
  match src with
  | [] => (key, [])
  | c :: src' =>
      let d := ngx_tolower c in
      let '(key', dst) := hash_strlow_loop (ngx_hash key d) src' in
      (key', d :: dst)
  end.

Definition ngx_hash_strlow (src : list Z) : Z * list Z := hash_strlow_loop 0 src.

(** * Agreement *)

Lemma foldl_hash_map (f : Z -> Z) key data :
  foldl (fun key c => ngx_hash key (f c)) key data = foldl ngx_hash key (f <$> data).
Proof. revert key. induction data as [|c data IH]; intros key; [done|]. apply IH. Qed.

Lemma hash_strlow_loop_spec key src :
  hash_strlow_loop key src = (foldl ngx_hash key (ngx_tolower <$> src), ngx_tolower <$> src).
Proof.
  revert key. induction src as [|c src IH]; intros key; [done|].
  cbn [hash_strlow_loop]. by rewrite IH.
Qed.

(** The horner form of the key. *)
Lemma foldl_hash_app key a b :
  foldl ngx_hash key (a ++ b) = foldl ngx_hash (foldl ngx_hash key a) b.
Proof. apply foldl_app. Qed.
