(* ===== verification/NgxHashTable.v ===== *)
(** Hash tables of src/core/ngx_hash.c: [ngx_hash_init] and [ngx_hash_find].

    A table is built once.  Its elements lie one after the other in a region of memory, the
    elements of a bucket together and followed by a null pointer: an element is the value (8
    bytes), the length of the name (2 bytes) and the name in lower case, up to a multiple of
    8 bytes.  The region is a map from offsets to bytes, and starts at a multiple of the
    size of a cache line; an access outside of it has no result.  The sizes of the buckets
    are counted in 16 bits.

    The memory of the region is [junk] before it is written, [alloc] tells which of the
    allocations succeed, and [cacheline] is [ngx_cacheline_size]. *)

From S2P Require Import Prelude NgxHash NgxStr.

Open Scope Z_scope.

(** * Memory *)

Abbreviation memory := (gmap Z Z).

Fixpoint store_bytes (mem : memory) (a : Z) (l : list Z) : option memory :=
  match l with
  | [] => Some mem
  | x :: l => _ ← mem !! a; store_bytes (<[a := x]> mem) (a + 1) l
  end.

Fixpoint load_bytes (mem : memory) (a : Z) (n : nat) : option (list Z) :=
  match n with
  | O => Some []
  | S n => x ← mem !! a; l ← load_bytes mem (a + 1) n; Some (x :: l)
  end.

(** Numbers of [n] bytes, the lowest byte first. *)
Fixpoint to_bytes (n : nat) (v : Z) : list Z :=
  match n with O => [] | S n => v mod 256 :: to_bytes n (v / 256) end.
Fixpoint of_bytes (l : list Z) : Z :=
  match l with [] => 0 | x :: l => x + 256 * of_bytes l end.

Definition load_number (mem : memory) (a : Z) (n : nat) : option Z := of_bytes <$> load_bytes mem a n.

(** * Building a table *)

Definition sizeof_ptr : Z := 8.

(** [key.data] is what lies at the pointer, which may be longer than [key.len]; [None] is
    the null pointer. *)
Record ngx_hash_key_t := mk_key {
  k_data : option (list Z);
  k_len : Z;
  k_hash : Z;
  k_value : Z;
}.

(** [None] is a bucket that is the null pointer. *)
Record ngx_hash_t := mk_hash {
  buckets : list (option Z);
  hash_size : Z;
  elements : memory;
}.

Record ngx_hash_init_t := mk_init {
  max_size : Z;
  bucket_size : Z;
}.

Definition NGX_HASH_ELT_SIZE (k : ngx_hash_key_t) : Z := sizeof_ptr + ngx_align_ptr (k_len k + 2) sizeof_ptr.

(** [hinit->bucket_size < NGX_HASH_ELT_SIZE(&names[n]) + sizeof(void * )] *)
Definition too_long (hinit : ngx_hash_init_t) (k : ngx_hash_key_t) : bool := bucket_size hinit <? NGX_HASH_ELT_SIZE k + sizeof_ptr.

Definition start_size (hinit : ngx_hash_init_t) (nelts : Z) : option Z :=
  let bucket_size := u64 (bucket_size hinit - sizeof_ptr) in
  if bucket_size / (2 * sizeof_ptr) =? 0 then None
  else
    let start := nelts / (bucket_size / (2 * sizeof_ptr)) in
    let start := if start =? 0 then 1 else start in
    Some (if (10000 <? max_size hinit) && negb (nelts =? 0) && (max_size hinit / nelts <? 100) then max_size hinit - 1000 else start).

(** [test[key] = (u_short) (test[key] + NGX_HASH_ELT_SIZE(&names[n]))] *)
Definition count_elt (size : Z) (k : ngx_hash_key_t) (test : list Z) : option (list Z) :=
  let key := Z.to_nat (k_hash k mod size) in
  t ← test !! key; Some (<[key := u16 (t + NGX_HASH_ELT_SIZE k)]> test).

(** Whether the names fit into [size] buckets. *)
Fixpoint fits (size bucket_size : Z) (names : list ngx_hash_key_t) (test : list Z) : option bool :=
  match names with
  | [] => Some true
  | k :: names =>
      match k_data k with
      | None => fits size bucket_size names test
      | Some _ =>
          test ← count_elt size k test;
          t ← test !! Z.to_nat (k_hash k mod size);
          if u16 bucket_size <? t then Some false else fits size bucket_size names test
      end
  end.

(** [for (size = start; size < hinit->max_size; size++)]; the result has no size when the
    loop ends. *)
Fixpoint size_loop (fuel : nat) (hinit : ngx_hash_init_t) (names : list ngx_hash_key_t) (size : Z) : option (option Z) :=
  match fuel with
  | O => None
  | S fuel =>
      if size <? max_size hinit then
        b ← fits size (u64 (bucket_size hinit - sizeof_ptr)) names (replicate (Z.to_nat size) 0);
        if b : bool then Some (Some size) else size_loop fuel hinit names (size + 1)
      else Some None
  end.

Fixpoint count_elts (size : Z) (names : list ngx_hash_key_t) (test : list Z) : option (list Z) :=
  match names with
  | [] => Some test
  | k :: names =>
      match k_data k with
      | None => count_elts size names test
      | Some _ => test ← count_elt size k test; count_elts size names test
      end
  end.

(** The sizes of the buckets, rounded up to lines, and the offsets of those that are not empty. *)
Definition bucket_bytes (cacheline : Z) (t : Z) : Z := if t =? sizeof_ptr then t else u16 (ngx_align_ptr t cacheline).

Fixpoint total_bytes (test : list Z) : Z :=
  match test with [] => 0 | t :: test => (if t =? sizeof_ptr then 0 else t) + total_bytes test end.

Fixpoint place_buckets (elts : Z) (test : list Z) : list (option Z) :=
  match test with
  | [] => []
  | t :: test => if t =? sizeof_ptr then None :: place_buckets elts test else Some elts :: place_buckets (elts + t) test
  end.

(** An element at an offset. *)
Definition store_elt (mem : memory) (a : Z) (k : ngx_hash_key_t) (data : list Z) : option memory :=
  mem ← store_bytes mem a (to_bytes 8 (k_value k));
  mem ← store_bytes mem (a + 8) (to_bytes 2 (u16 (k_len k)));
  name ← ngx_strlow data (Z.to_nat (k_len k));
  store_bytes mem (a + 10) name.

Fixpoint store_elts (size : Z) (buckets : list (option Z)) (names : list ngx_hash_key_t) (test : list Z) (mem : memory) : option (list Z * memory) :=
  match names with
  | [] => Some (test, mem)
  | k :: names =>
      match k_data k with
      | None => store_elts size buckets names test mem
      | Some data =>
          let key := Z.to_nat (k_hash k mod size) in
          b ← buckets !! key; b ← b; t ← test !! key;
          mem ← store_elt mem (b + t) k data;
          test ← count_elt size k test;
          store_elts size buckets names test mem
      end
  end.

Fixpoint store_ends (buckets : list (option Z)) (test : list Z) (mem : memory) : option memory :=
  match buckets, test with
  | [], _ => Some mem
  | None :: buckets, _ :: test => store_ends buckets test mem
  | Some b :: buckets, t :: test => mem ← store_bytes mem (b + t) (to_bytes 8 0); store_ends buckets test mem
  | _, [] => None
  end.

Definition new_memory (junk : Z -> Z) (len : Z) : memory := list_to_map ((fun a => (a, junk a)) <$> seqZ 0 len).

(** The outer option is for what has no meaning in C, the inner one for [NGX_ERROR]. *)
Definition ngx_hash_init (cacheline : Z) (alloc : nat -> bool) (junk : Z -> Z) (hinit : ngx_hash_init_t) (names : list ngx_hash_key_t) : option (option ngx_hash_t) :=
  if existsb (too_long hinit) names then Some None
  else if negb (alloc 0%nat) then Some None
  else
    start ← start_size hinit (Z.of_nat (length names));
    r ← size_loop (Z.to_nat (max_size hinit - start) + 1) hinit names start;
    match r with
    | None => Some None
    | Some size =>
        test ← count_elts size names (replicate (Z.to_nat size) sizeof_ptr);
        let test := bucket_bytes cacheline <$> test in
        let len := total_bytes test in
        if negb (alloc 1%nat) then Some None
        else if negb (alloc 2%nat) then Some None
        else
          let buckets := place_buckets 0 test in
          '(test, mem) ← store_elts size buckets names (replicate (Z.to_nat size) 0) (new_memory junk len);
          mem ← store_ends buckets test mem;
          Some (Some (mk_hash buckets size mem))
    end.

(** * Finding *)

(** [for (i = 0; i < len; i++) if (name[i] != elt->name[i])] *)
Fixpoint same_name (name : list Z) (mem : memory) (a : Z) : option bool :=
  match name with
  | [] => Some true
  | c :: name => x ← mem !! a; if c =? x then same_name name mem (a + 1) else Some false
  end.

(** [while (elt->value)]; 0 is the null pointer. *)
Fixpoint find_loop (fuel : nat) (mem : memory) (elt : Z) (name : list Z) : option Z :=
  match fuel with
  | O => None
  | S fuel =>
      value ← load_number mem elt 8;
      if value =? 0 then Some 0
      else
        len ← load_number mem (elt + 8) 2;
        same ← (if negb (Z.of_nat (length name) =? len) then Some false else same_name name mem (elt + 10));
        if same : bool then Some value else find_loop fuel mem (ngx_align_ptr (elt + 10 + len) sizeof_ptr) name
  end.

Definition ngx_hash_find (hash : ngx_hash_t) (key : Z) (name : list Z) : option Z :=
  if hash_size hash =? 0 then None
  else
    b ← buckets hash !! Z.to_nat (key mod hash_size hash);
    match b with
    | None => Some 0
    | Some elt => find_loop (size (elements hash) + 1) (elements hash) elt name
    end.

(** * Examples *)

Definition small_key (s : String.string) (value : Z) : ngx_hash_key_t := mk_key (Some (cstr s)) (Z.of_nat (length (cstr s))) (ngx_hash_key_lc (cstr s)) value.
Definition small_names : list ngx_hash_key_t := [small_key "Host" 1; small_key "Accept" 2; small_key "Content-Length" 3; small_key "x" 4].

Definition found_values (hinit : ngx_hash_init_t) (names : list ngx_hash_key_t) (l : list String.string) : option (list (option Z)) :=
  match ngx_hash_init 64 (fun _ => true) (fun _ => 170) hinit names with
  | Some (Some h) => Some ((fun s => ngx_hash_find h (ngx_hash_key (cstr s)) (cstr s)) <$> l)
  | _ => None
  end.

Example small_hash : found_values (mk_init 512 64) small_names ["host"; "accept"; "content-length"; "x"; "Host"; "y"]%string = Some (Some <$> [1; 2; 3; 4; 0; 0]).
Proof. vm_compute. reflexivity. Qed.

(** * Memory *)

(** The bytes at an address. *)
Definition has (mem : memory) (a : Z) (l : list Z) : Prop := forall j x, l !! j = Some x -> mem !! (a + Z.of_nat j) = Some x.
Definition allocated (mem : memory) (a n : Z) : Prop := forall j, a <= j < a + n -> is_Some (mem !! j).

Lemma has_cons mem a x l : has mem a (x :: l) <-> mem !! a = Some x /\ has mem (a + 1) l.
Proof.
  split.
  - intros H. split; [rewrite <- (Z.add_0_r a); by apply (H 0%nat)|]. intros j y Hj. rewrite <- (H (S j) y Hj). f_equal. lia.
  - intros [H1 H2] [|j] y Hj; [injection Hj as <-; by rewrite Z.add_0_r|]. rewrite <- (H2 j y Hj). f_equal. lia.
Qed.

Lemma has_app mem a l k : has mem a (l ++ k) <-> has mem a l /\ has mem (a + Z.of_nat (length l)) k.
Proof.
  revert a. induction l as [|x l IH]; intros a; cbn [app length]; [rewrite Z.add_0_r; split; [by split|by intros [_ ?]]|].
  rewrite !has_cons, IH. replace (a + 1 + Z.of_nat (length l)) with (a + Z.of_nat (S (length l))) by lia. tauto.
Qed.

Lemma has_agree mem mem' a l : (forall j, a <= j < a + Z.of_nat (length l) -> mem' !! j = mem !! j) -> has mem a l -> has mem' a l.
Proof. intros H Hl j x Hj. rewrite H; [by apply Hl|]. apply lookup_lt_Some in Hj. lia. Qed.

Lemma load_has mem a l : has mem a l -> load_bytes mem a (length l) = Some l.
Proof. revert a. induction l as [|x l IH]; intros a; [done|]. rewrite has_cons. intros [H1 H2]. cbn [length load_bytes]. rewrite H1. cbn [mbind option_bind]. by rewrite (IH _ H2). Qed.

Lemma store_bytes_run mem a l : allocated mem a (Z.of_nat (length l)) ->
  exists mem', store_bytes mem a l = Some mem' /\ has mem' a l /\ (forall j, ~ (a <= j < a + Z.of_nat (length l)) -> mem' !! j = mem !! j) /\ (forall j, is_Some (mem !! j) -> is_Some (mem' !! j)).
Proof.
  revert mem a. induction l as [|x l IH]; intros mem a H; [by exists mem|]. cbn [length] in H. cbn [store_bytes]. destruct (H a) as [y ->]; [lia|]. cbn [mbind option_bind].
  destruct (IH (<[a := x]> mem) (a + 1)) as (mem' & -> & H1 & H2 & H3).
  { intros j Hj. rewrite lookup_insert_ne by lia. apply H. lia. }
  exists mem'. split_and!; [done| | |].
  - apply has_cons. split; [|done]. rewrite H2 by lia. apply lookup_insert_eq.
  - intros j Hj. cbn [length] in Hj. rewrite H2 by lia. apply lookup_insert_ne. lia.
  - intros j Hj. apply H3. destruct (decide (j = a)) as [-> |]; [rewrite lookup_insert_eq; by eexists|by rewrite lookup_insert_ne].
Qed.

Lemma to_bytes_length n v : length (to_bytes n v) = n.
Proof. revert v. induction n as [|n IH]; intros v; [done|]. cbn. by rewrite IH. Qed.

Lemma of_to_bytes n v : 0 <= v < 256 ^ Z.of_nat n -> of_bytes (to_bytes n v) = v.
Proof.
  revert v. induction n as [|n IH]; intros v Hv; [change (256 ^ Z.of_nat 0) with 1 in Hv; cbn; lia|]. cbn [to_bytes of_bytes].
  rewrite Nat2Z.inj_succ, Z.pow_succ_r in Hv by lia. rewrite IH; [pose proof (Z.div_mod v 256); lia|]. split; [apply Z.div_pos; lia|apply Z.div_lt_upper_bound; lia].
Qed.

Lemma load_number_has mem a n v : has mem a (to_bytes n v) -> 0 <= v < 256 ^ Z.of_nat n -> load_number mem a n = Some v.
Proof. intros H Hv. unfold load_number. pose proof (load_has _ _ _ H) as E. rewrite to_bytes_length in E. rewrite E. cbn. by rewrite of_to_bytes. Qed.

Lemma same_name_has mem a name l : has mem a l -> length name = length l -> same_name name mem a = Some (bool_decide (name = l)).
Proof.
  revert a l. induction name as [|c name IH]; intros a [|x l] H Hl; [done..|]. apply has_cons in H as [H1 H2]. cbn [same_name]. rewrite H1. cbn [mbind option_bind].
  destruct (Z.eqb_spec c x) as [-> |Hn]; [|by rewrite bool_decide_eq_false_2 by congruence]. rewrite (IH _ l) by (done || by injection Hl). f_equal. apply bool_decide_ext. split; congruence.
Qed.

Lemma strlow_run data n : (n <= length data)%nat -> ngx_strlow data n = Some (ngx_tolower <$> take n data).
Proof. revert data. induction n as [|n IH]; intros [|c data] H; cbn in *; [done..|lia|]. by rewrite IH by lia. Qed.

(** * Elements *)

Definition lower_name (k : ngx_hash_key_t) : list Z := ngx_tolower <$> take (Z.to_nat (k_len k)) (default [] (k_data k)).
Definition elt_bytes (k : ngx_hash_key_t) : list Z := to_bytes 8 (k_value k) ++ to_bytes 2 (u16 (k_len k)) ++ lower_name k.
Definition present (k : ngx_hash_key_t) : bool := match k_data k with Some _ => true | None => false end.

Definition key_ok (k : ngx_hash_key_t) : Prop :=
  0 <= k_len k /\ 0 <= k_hash k /\ 0 < k_value k < 2 ^ 64 /\ (forall d, k_data k = Some d -> k_len k <= Z.of_nat (length d)).

Lemma elt_size k : NGX_HASH_ELT_SIZE k = 8 + (k_len k + 9) / 8 * 8.
Proof. unfold NGX_HASH_ELT_SIZE, sizeof_ptr. change 8 with (2 ^ 3) at 2. rewrite align_pow2 by lia. change (2 ^ 3) with 8. pose proof (Z.div_mod (k_len k + 2 + (8 - 1)) 8). replace (k_len k + 2 + (8 - 1)) with (k_len k + 9) in * by lia. lia. Qed.

Lemma elt_size_bounds k : 0 <= k_len k -> 16 <= NGX_HASH_ELT_SIZE k /\ k_len k + 10 <= NGX_HASH_ELT_SIZE k /\ NGX_HASH_ELT_SIZE k mod 8 = 0.
Proof.
  intros H. rewrite elt_size. pose proof (Z.div_mod (k_len k + 9) 8). pose proof (Z.mod_pos_bound (k_len k + 9) 8). split_and!; [|lia|rewrite Z.add_mod, Z.mod_mul by lia; done].
  pose proof (Z.div_le_lower_bound (k_len k + 9) 8 1). lia.
Qed.

(** Where [ngx_hash_find] goes on. *)
Lemma next_elt a k : a mod 8 = 0 -> ngx_align_ptr (a + 10 + k_len k) sizeof_ptr = a + NGX_HASH_ELT_SIZE k.
Proof.
  intros Ha. rewrite elt_size. unfold sizeof_ptr. change 8 with (2 ^ 3) at 1. rewrite align_pow2 by lia. change (2 ^ 3) with 8.
  pose proof (Z.div_mod a 8). replace (a + 10 + k_len k + (8 - 1)) with ((k_len k + 9) + (a / 8 + 1) * 8) by lia. rewrite Z.mod_add by lia. pose proof (Z.div_mod (k_len k + 9) 8). lia.
Qed.

Lemma elt_bytes_length k : key_ok k -> present k = true -> Z.of_nat (length (elt_bytes k)) = k_len k + 10.
Proof.
  intros (H1 & _ & _ & H2) Hp. unfold elt_bytes, lower_name. unfold present in Hp. destruct (k_data k) as [d|] eqn:E; [|done]. specialize (H2 d eq_refl).
  rewrite !length_app, !to_bytes_length, length_fmap, length_take. unfold default, from_option, id. lia.
Qed.

(** Elements one after the other. *)
Fixpoint elts_at (mem : memory) (a : Z) (ks : list ngx_hash_key_t) : Prop :=
  match ks with [] => True | k :: ks => has mem a (elt_bytes k) /\ elts_at mem (a + NGX_HASH_ELT_SIZE k) ks end.

Fixpoint bytes_of (ks : list ngx_hash_key_t) : Z := match ks with [] => 0 | k :: ks => NGX_HASH_ELT_SIZE k + bytes_of ks end.

Definition keys_ok (ks : list ngx_hash_key_t) : Prop := Forall (fun k => key_ok k /\ present k = true) ks.

Lemma bytes_of_app ks ks' : bytes_of (ks ++ ks') = bytes_of ks + bytes_of ks'.
Proof. induction ks as [|k ks IH]; cbn; [done|]. rewrite IH. lia. Qed.

Lemma bytes_of_bounds ks : keys_ok ks -> 16 * Z.of_nat (length ks) <= bytes_of ks /\ bytes_of ks mod 8 = 0.
Proof.
  induction 1 as [|k ks [(H1 & _) _] _ [IH1 IH2]]; [done|]. cbn [bytes_of length]. destruct (elt_size_bounds k H1) as (H2 & _ & H3). split; [lia|]. by rewrite Z.add_mod, H3, IH2 by lia.
Qed.

Lemma elts_at_agree mem mem' a ks : keys_ok ks -> (forall j, a <= j < a + bytes_of ks -> mem' !! j = mem !! j) -> elts_at mem a ks -> elts_at mem' a ks.
Proof.
  intros Hks. revert a. induction Hks as [|k ks [Hk Hp] Hks IH]; intros a H; [done|]. intros [H1 H2]. cbn [bytes_of] in H. pose proof (bytes_of_bounds ks Hks).
  pose proof (elt_bytes_length k Hk Hp). destruct Hk as (Hk & _). pose proof (elt_size_bounds k Hk). split.
  - eapply has_agree; [|done]. intros j Hj. apply H. lia.
  - apply IH; [|done]. intros j Hj. apply H. lia.
Qed.

Lemma elts_at_app mem a ks ks' : elts_at mem a (ks ++ ks') <-> elts_at mem a ks /\ elts_at mem (a + bytes_of ks) ks'.
Proof.
  revert a. induction ks as [|k ks IH]; intros a; cbn; [rewrite Z.add_0_r; tauto|]. rewrite IH. replace (a + NGX_HASH_ELT_SIZE k + bytes_of ks) with (a + (NGX_HASH_ELT_SIZE k + bytes_of ks)) by lia. tauto.
Qed.

(** The value of the first key of a name. *)
Fixpoint first_value (ks : list ngx_hash_key_t) (name : list Z) : Z :=
  match ks with [] => 0 | k :: ks => if bool_decide (name = lower_name k) then k_value k else first_value ks name end.

Lemma bucket_find_run mem ks a name fuel : keys_ok ks -> Forall (fun k => k_len k < 2 ^ 16) ks -> elts_at mem a ks -> has mem (a + bytes_of ks) (to_bytes 8 0) -> a mod 8 = 0 -> (length ks < fuel)%nat ->
  find_loop fuel mem a name = Some (first_value ks name).
Proof.
  intros Hks. revert a fuel. induction Hks as [|k ks [Hk Hp] Hks IH]; intros a fuel Hl He Hz Ha Hf; (destruct fuel as [|fuel]; [cbn in Hf; lia|]); cbn [find_loop].
  - cbn in Hz. rewrite Z.add_0_r in Hz. by rewrite (load_number_has _ _ 8 0 Hz).
  - apply Forall_cons in Hl as [Hlk Hl]. destruct He as [He1 He2]. pose proof Hk as (H1 & H2 & H3 & H4). unfold elt_bytes in He1. rewrite !has_app, !to_bytes_length in He1. destruct He1 as (B1 & B2 & B3).
    change (Z.of_nat 8) with 8 in *. change (Z.of_nat 2) with 2 in *. rewrite <- Z.add_assoc in B3. change (8 + 2) with 10 in B3.
    rewrite wrap_small in B2 by lia. rewrite (load_number_has _ _ 8 _ B1) by (change (256 ^ Z.of_nat 8) with (2 ^ 64); lia). cbn [mbind option_bind]. destruct (Z.eqb_spec (k_value k) 0); [lia|].
    rewrite (load_number_has _ _ 2 _ B2) by (change (256 ^ Z.of_nat 2) with (2 ^ 16); lia). cbn [mbind option_bind]. cbn [first_value].
    assert (Z.of_nat (length (lower_name k)) = k_len k) as Hnl. { pose proof (elt_bytes_length k Hk Hp) as E. unfold elt_bytes in E. rewrite !length_app, !to_bytes_length in E. lia. }
    assert ((if negb (Z.of_nat (length name) =? k_len k) then Some false else same_name name mem (a + 10)) = Some (bool_decide (name = lower_name k))) as ->.
    { destruct (Z.eqb_spec (Z.of_nat (length name)) (k_len k)) as [E|E]; cbn [negb]; [apply same_name_has; [done|lia]|]. rewrite bool_decide_eq_false_2; [done|]. intros ->. lia. }
    cbn [mbind option_bind]. destruct (bool_decide (name = lower_name k)); [done|]. rewrite next_elt by done. destruct (elt_size_bounds k H1) as (_ & _ & Hm). apply IH; [done|done| | |cbn in Hf; lia].
    + cbn [bytes_of] in Hz. by rewrite Z.add_assoc in Hz.
    + by rewrite Z.add_mod, Ha, Hm by lia.
Qed.

(** * Buckets *)

Definition bucket_keys (size i : Z) (names : list ngx_hash_key_t) : list ngx_hash_key_t := filter (fun k => present k = true /\ k_hash k mod size = i) names.

Lemma bucket_keys_ok size i names : Forall key_ok names -> keys_ok (bucket_keys size i names).
Proof. intros H. apply Forall_forall. intros k Hk. apply list_elem_of_filter in Hk as [[Hp _] Hk]. rewrite Forall_forall in H. auto. Qed.

Lemma bucket_keys_cons size i k names : bucket_keys size i (k :: names) = if decide (present k = true /\ k_hash k mod size = i) then k :: bucket_keys size i names else bucket_keys size i names.
Proof. unfold bucket_keys. rewrite filter_cons. by repeat case_decide. Qed.

(** What a pass of counting leaves. *)
Definition counted (size : Z) (names : list ngx_hash_key_t) (test test' : list Z) : Prop :=
  length test' = length test /\ forall i t, test !! i = Some t -> test' !! i = Some (t + bytes_of (bucket_keys size (Z.of_nat i) names)).

Lemma counted_nil size test : counted size [] test test.
Proof. split; [done|]. intros i t Hi. cbn. by rewrite Z.add_0_r. Qed.

Lemma counted_skip size k names test test' : present k = false -> counted size names test test' -> counted size (k :: names) test test'.
Proof. intros Hk [H1 H2]. split; [done|]. intros i t Hi. rewrite bucket_keys_cons, decide_False by (intros [? _]; congruence). by apply H2. Qed.

Lemma counted_step size k names test t test' : 0 < size -> 0 <= k_hash k -> present k = true -> test !! Z.to_nat (k_hash k mod size) = Some t ->
  counted size names (<[Z.to_nat (k_hash k mod size) := t + NGX_HASH_ELT_SIZE k]> test) test' -> counted size (k :: names) test test'.
Proof.
  intros Hs Hh Hp Ht [H1 H2]. rewrite length_insert in H1. split; [done|]. intros i u Hi. rewrite bucket_keys_cons. pose proof (Z.mod_pos_bound (k_hash k) size Hs).
  destruct (decide (i = Z.to_nat (k_hash k mod size))) as [-> |Hn].
  - rewrite decide_True by (split; [done|lia]). cbn [bytes_of]. assert (u = t) as -> by congruence. rewrite (H2 _ (t + NGX_HASH_ELT_SIZE k)); [f_equal; lia|]. apply list_lookup_insert_eq. by eapply lookup_lt_Some.
  - rewrite decide_False by (intros [_ E]; lia). apply H2. by rewrite list_lookup_insert_ne by done.
Qed.

Section build.
Context (hinit : ngx_hash_init_t) (names : list ngx_hash_key_t) (cacheline_shift : Z).
Context (bucket_size_range : 24 <= bucket_size hinit <= 2 ^ 15) (cacheline_range : 3 <= cacheline_shift <= 15).

Definition room : Z := bucket_size hinit - sizeof_ptr.
Definition short (k : ngx_hash_key_t) : Prop := key_ok k /\ NGX_HASH_ELT_SIZE k <= room.

Lemma room_u64 : u64 (bucket_size hinit - sizeof_ptr) = room.
Proof. unfold room, sizeof_ptr in *. apply wrap_small. lia. Qed.

Lemma room_range : 16 <= room <= 2 ^ 15 - 8.
Proof. unfold room, sizeof_ptr. lia. Qed.

Lemma short_size k : short k -> 16 <= NGX_HASH_ELT_SIZE k <= room /\ k_len k < 2 ^ 15 /\ 0 <= k_hash k.
Proof. intros [(H1 & H2 & _) H3]. pose proof (elt_size_bounds k H1). pose proof room_range. split_and!; lia. Qed.

Lemma slot_is_Some size k (test : list Z) : 0 < size -> 0 <= k_hash k -> length test = Z.to_nat size -> exists t, test !! Z.to_nat (k_hash k mod size) = Some t.
Proof. intros Hs Hh Hl. apply lookup_lt_is_Some. pose proof (Z.mod_pos_bound (k_hash k) size Hs). lia. Qed.

Lemma fits_run size ks test : 0 < size -> length test = Z.to_nat size -> Forall short ks -> Forall (fun t => 0 <= t <= room) test ->
  exists b, fits size room ks test = Some b /\ (b = true -> exists test', counted size ks test test' /\ Forall (fun t => 0 <= t <= room) test').
Proof.
  intros Hs Hl Hks. revert test Hl. induction Hks as [|k ks Hk Hks IH]; intros test Hl Ht; cbn [fits]; [exists true; split; [done|]; intros _; exists test; split; [apply counted_nil|done]|].
  pose proof (short_size k Hk) as (S1 & S2 & S3). destruct (k_data k) as [d|] eqn:Hd.
  - unfold count_elt. destruct (slot_is_Some size k test Hs S3 Hl) as [t Hi]. rewrite Hi. cbn [mbind option_bind]. rewrite list_lookup_insert_eq by (by eapply lookup_lt_Some). cbn [mbind option_bind].
    pose proof (proj1 (Forall_lookup _ _) Ht _ _ Hi) as Hti. cbn in Hti. pose proof room_range. rewrite !wrap_small by lia. destruct (Z.ltb_spec room (t + NGX_HASH_ELT_SIZE k)); [by exists false|].
    destruct (IH (<[Z.to_nat (k_hash k mod size) := t + NGX_HASH_ELT_SIZE k]> test)) as (b & -> & Hb); [by rewrite length_insert|apply Forall_insert; [done|lia]|]. exists b. split; [done|]. intros E.
    destruct (Hb E) as (test' & Hc & Ht'). exists test'. split; [|done]. apply (counted_step _ _ _ _ t); try done. unfold present. by rewrite Hd.
  - destruct (IH test Hl Ht) as (b & -> & Hb). exists b. split; [done|]. intros E. destruct (Hb E) as (test' & Hc & Ht'). exists test'. split; [|done]. apply counted_skip; [unfold present; by rewrite Hd|done].
Qed.

Lemma count_elts_run size ks test : 0 < size -> length test = Z.to_nat size -> Forall short ks -> (forall i t, test !! i = Some t -> 0 <= t /\ t + bytes_of (bucket_keys size (Z.of_nat i) ks) < 2 ^ 16) ->
  exists test', count_elts size ks test = Some test' /\ counted size ks test test'.
Proof.
  intros Hs Hl Hks. revert test Hl. induction Hks as [|k ks Hk Hks IH]; intros test Hl Ht; cbn [count_elts]; [exists test; split; [done|apply counted_nil]|].
  pose proof (short_size k Hk) as (S1 & S2 & S3). assert (forall i, 0 <= bytes_of (bucket_keys size i ks)) as Hnn.
  { intros i. pose proof (bytes_of_bounds (bucket_keys size i ks)) as Hb. destruct Hb; [|lia]. apply bucket_keys_ok. apply (Forall_impl _ _ _ Hks). by intros x [? _]. }
  destruct (k_data k) as [d|] eqn:Hd.
  - unfold count_elt. destruct (slot_is_Some size k test Hs S3 Hl) as [t Hi]. rewrite Hi. cbn [mbind option_bind]. pose proof (Z.mod_pos_bound (k_hash k) size Hs).
    assert (present k = true) as Hp by (unfold present; by rewrite Hd).
    pose proof (Ht _ _ Hi) as [Ht0 Ht1]. rewrite bucket_keys_cons, decide_True in Ht1 by (split; [done|lia]). cbn [bytes_of] in Ht1.
    rewrite wrap_small by (pose proof (Hnn (Z.of_nat (Z.to_nat (k_hash k mod size)))); lia).
    destruct (IH (<[Z.to_nat (k_hash k mod size) := t + NGX_HASH_ELT_SIZE k]> test)) as (test' & -> & Hc); [by rewrite length_insert| |exists test'; split; [done|by apply (counted_step _ _ _ _ t)]].
    intros i u Hu. destruct (decide (i = Z.to_nat (k_hash k mod size))) as [-> |Hne].
    + rewrite list_lookup_insert_eq in Hu by (by eapply lookup_lt_Some). injection Hu as <-. lia.
    + rewrite list_lookup_insert_ne in Hu by done. destruct (Ht _ _ Hu) as [U1 U2]. rewrite bucket_keys_cons, decide_False in U2 by (intros [_ E]; lia). done.
  - destruct (IH test Hl) as (test' & -> & Hc); [|exists test'; split; [done|apply counted_skip; [unfold present; by rewrite Hd|done]]].
    intros i u Hu. destruct (Ht _ _ Hu) as [U1 U2]. rewrite bucket_keys_cons, decide_False in U2 by (intros [E _]; unfold present in E; by rewrite Hd in E). done.
Qed.

(** The bytes of the elements of a bucket. *)
Definition bucket_load (size i : Z) : Z := bytes_of (bucket_keys size i names).
Definition fit (size : Z) : Prop := 0 < size /\ forall i, 0 <= i < size -> bucket_load size i <= room.

Context (names_short : Forall short names).

Lemma names_ok : Forall key_ok names.
Proof. apply (Forall_impl _ _ _ names_short). by intros k [? _]. Qed.

Lemma bucket_load_nonneg size i : 0 <= bucket_load size i.
Proof. pose proof (bytes_of_bounds _ (bucket_keys_ok size i names names_ok)). unfold bucket_load. lia. Qed.

Lemma size_loop_run fuel size : 0 < size -> (0 < fuel)%nat -> max_size hinit - size < Z.of_nat fuel ->
  exists r, size_loop fuel hinit names size = Some r /\ forall s, r = Some s -> fit s.
Proof.
  revert size. induction fuel as [|fuel IH]; intros size Hs Hf0 Hf; [lia|]. cbn [size_loop]. destruct (Z.ltb_spec size (max_size hinit)); [|by eexists].
  rewrite room_u64. destruct (fits_run size names (replicate (Z.to_nat size) 0)) as (b & -> & Hb); [done|apply length_replicate|done| |].
  { apply Forall_replicate. pose proof room_range. lia. }
  cbn [mbind option_bind]. destruct b; [|apply IH; lia]. exists (Some size). split; [done|]. intros s [= <-]. split; [done|]. intros i Hi. destruct (Hb eq_refl) as (test' & [_ Hc] & Ht').
  specialize (Hc (Z.to_nat i) 0 ltac:(apply lookup_replicate_2; lia)). pose proof (proj1 (Forall_lookup _ _) Ht' _ _ Hc) as H2. cbn in H2. unfold bucket_load. replace (Z.of_nat (Z.to_nat i)) with i in H2 by lia. lia.
Qed.

(** Buckets in the region: an empty one is null, the others lie apart, each with room for
    its elements and the null pointer after them. *)
Record placed (size len : Z) (bs : list (option Z)) : Prop := {
  pl_length : length bs = Z.to_nat size;
  pl_empty : forall i, 0 <= i < size -> bucket_load size i = 0 -> bs !! Z.to_nat i = Some None;
  pl_full : forall i, 0 <= i < size -> bucket_load size i <> 0 -> exists b, bs !! Z.to_nat i = Some (Some b);
  pl_range : forall i b, bs !! i = Some (Some b) -> 0 <= b /\ b mod 8 = 0 /\ b + bucket_load size (Z.of_nat i) + 8 <= len;
  pl_apart : forall i j b c, bs !! i = Some (Some b) -> bs !! j = Some (Some c) -> (i < j)%nat -> b + bucket_load size (Z.of_nat i) + 8 <= c;
}.

Lemma place_lookup e test i : place_buckets e test !! i = (fun t => if t =? sizeof_ptr then None else Some (e + total_bytes (take i test))) <$> test !! i.
Proof.
  revert e i. induction test as [|t test IH]; intros e [|i]; cbn [place_buckets]; [done..| |]; destruct (t =? sizeof_ptr) eqn:E; cbn [lookup list_lookup take total_bytes fmap option_fmap option_map]; rewrite ?E.
  - done.
  - by rewrite Z.add_0_r.
  - apply IH.
  - rewrite IH. destruct (test !! i) as [u|]; [|done]. cbn. destruct (u =? sizeof_ptr); [done|]. do 2 f_equal. lia.
Qed.

Lemma total_take test i j t : Forall (fun t => 0 <= t) test -> (i < j)%nat -> test !! i = Some t -> t <> sizeof_ptr -> total_bytes (take i test) + t <= total_bytes (take j test).
Proof.
  revert i j. induction test as [|u test IH]; intros [|i] [|j] Hp Hij Hi Ht; try done; try lia; apply Forall_cons in Hp as [Hu Hp]; cbn [take total_bytes].
  - injection Hi as ->. destruct (Z.eqb_spec t sizeof_ptr); [done|]. assert (forall l, Forall (fun t => 0 <= t) l -> 0 <= total_bytes l) as Hnn by (induction 1; cbn; [done|]; case_match; lia).
    pose proof (Hnn (take j test) (Forall_take _ _ _ Hp)). lia.
  - specialize (IH i j Hp ltac:(lia) Hi Ht). lia.
Qed.

Lemma total_mod test : Forall (fun t => t = sizeof_ptr \/ t mod 8 = 0) test -> total_bytes test mod 8 = 0.
Proof. induction 1 as [|t test Ht _ IH]; [done|]. cbn. destruct (Z.eqb_spec t sizeof_ptr); [done|]. destruct Ht as [|Ht]; [done|]. by rewrite Z.add_mod, Ht, IH by lia. Qed.

Lemma bucket_bytes_spec w : 0 <= w <= room -> w mod 8 = 0 ->
  let t := bucket_bytes (2 ^ cacheline_shift) (sizeof_ptr + w) in (w = 0 -> t = sizeof_ptr) /\ (w <> 0 -> w + 8 <= t /\ t <> sizeof_ptr /\ t mod 8 = 0).
Proof.
  intros Hw Hm. unfold bucket_bytes, sizeof_ptr in *. split; [by intros ->|]. intros Hn. pose proof room_range. destruct (Z.eqb_spec (8 + w) 8); [lia|]. rewrite align_pow2 by lia.
  assert (8 <= 2 ^ cacheline_shift <= 2 ^ 15) as Hc by (split; [change 8 with (2 ^ 3)|]; apply Z.pow_le_mono_r; lia). pose proof (Z.mod_pos_bound (8 + w + (2 ^ cacheline_shift - 1)) (2 ^ cacheline_shift)).
  rewrite wrap_small by lia. split_and!; [lia|lia|]. set (x := 8 + w + (2 ^ cacheline_shift - 1)) in *. pose proof (Z.div_mod x (2 ^ cacheline_shift)) as E.
  assert (x - x mod 2 ^ cacheline_shift = x / 2 ^ cacheline_shift * 2 ^ cacheline_shift) as -> by lia. generalize (x / 2 ^ cacheline_shift). intros q.
  replace cacheline_shift with (cacheline_shift - 3 + 3) by lia. rewrite Z.pow_add_r by lia. change (2 ^ 3) with 8. rewrite Z.mul_assoc. by apply Z.mod_mul.
Qed.

(** The sizes that the buckets are placed by. *)
Definition size_for (size : Z) (i : nat) (t : Z) : Prop :=
  0 <= Z.of_nat i < size /\ (bucket_load size (Z.of_nat i) = 0 -> t = sizeof_ptr) /\ (bucket_load size (Z.of_nat i) <> 0 -> bucket_load size (Z.of_nat i) + 8 <= t /\ t <> sizeof_ptr /\ t mod 8 = 0).

Lemma placed_by_sizes size test : length test = Z.to_nat size -> (forall i t, test !! i = Some t -> size_for size i t) -> placed size (total_bytes test) (place_buckets 0 test).
Proof.
  intros Hl H2.
  assert (forall i b, place_buckets 0 test !! i = Some (Some b) -> exists t, test !! i = Some t /\ bucket_load size (Z.of_nat i) + 8 <= t /\ t <> sizeof_ptr /\ b = total_bytes (take i test)) as H3.
  { intros i b Hb. rewrite place_lookup in Hb. destruct (test !! i) as [t|] eqn:Hi; [|done]. cbn in Hb. destruct (Z.eqb_spec t sizeof_ptr) as [|Hn]; [done|]. injection Hb as <-. exists t. destruct (H2 _ _ Hi) as (_ & A & B).
    destruct (decide (bucket_load size (Z.of_nat i) = 0)) as [E0|E0]; [by destruct (Hn (A E0))|]. destruct (B E0) as (B1 & B2 & B3). by split_and!. }
  assert (Forall (fun t => 0 <= t) test /\ Forall (fun t => t = sizeof_ptr \/ t mod 8 = 0) test) as [Hnn Hmod].
  { split; apply Forall_lookup; intros i t Hi; destruct (H2 _ _ Hi) as (_ & A & B); destruct (decide (bucket_load size (Z.of_nat i) = 0)) as [E0|E0]; try (specialize (A E0)); try (destruct (B E0) as (B1 & B2 & B3)); auto;
      [subst; done|]. pose proof (bucket_load_nonneg size (Z.of_nat i)). lia. }
  assert (forall i, 0 <= i < size -> exists t, test !! Z.to_nat i = Some t /\ size_for size (Z.to_nat i) t) as Hin.
  { intros i Hi. destruct (lookup_lt_is_Some_2 test (Z.to_nat i)) as [t Ht]; [lia|]. eauto. }
  split.
  - rewrite <- Hl. generalize 0. clear. induction test as [|t test IH]; intros e; [done|]. cbn. case_match; cbn; by rewrite IH.
  - intros i Hi E. destruct (Hin i Hi) as (t & Ht & _ & A & _). replace (Z.of_nat (Z.to_nat i)) with i in A by lia. rewrite place_lookup, Ht. cbn. by rewrite (A E).
  - intros i Hi E. destruct (Hin i Hi) as (t & Ht & _ & _ & B). replace (Z.of_nat (Z.to_nat i)) with i in B by lia. destruct (B E) as (_ & B2 & _). rewrite place_lookup, Ht. cbn. destruct (Z.eqb_spec t sizeof_ptr); [done|by eexists].
  - intros i b Hb. destruct (H3 _ _ Hb) as (t & Ht & T1 & T2 & ->). apply lookup_lt_Some in Ht as Hlt. pose proof (total_take test i (length test) t Hnn Hlt Ht T2) as HT. rewrite firstn_all in HT.
    pose proof (total_mod _ (Forall_take _ i _ Hmod)). split_and!; [|done|lia]. assert (forall l, Forall (fun t => 0 <= t) l -> 0 <= total_bytes l) as Hn by (induction 1; cbn; [done|]; case_match; lia). by apply Hn, Forall_take.
  - intros i j b c Hb Hc Hij. destruct (H3 _ _ Hb) as (t & Ht & T1 & T2 & ->). destruct (H3 _ _ Hc) as (u & _ & _ & _ & ->). pose proof (total_take test i j t Hnn Hij Ht T2). lia.
Qed.

Lemma place_run size : fit size -> exists test, count_elts size names (replicate (Z.to_nat size) sizeof_ptr) = Some test /\
  let test := bucket_bytes (2 ^ cacheline_shift) <$> test in placed size (total_bytes test) (place_buckets 0 test).
Proof.
  intros [Hs Hfit]. pose proof room_range as Hroom. destruct (count_elts_run size names (replicate (Z.to_nat size) sizeof_ptr)) as (test & E & Hl & Ht); [done|apply length_replicate|done| |].
  { intros i t Hi. apply lookup_replicate in Hi as [-> Hi]. unfold sizeof_ptr. specialize (Hfit (Z.of_nat i) ltac:(lia)). unfold bucket_load in Hfit. lia. }
  exists test. split; [done|]. cbv zeta. rewrite length_replicate in Hl. apply placed_by_sizes; [by rewrite length_fmap|].
  intros i t Hi. rewrite list_lookup_fmap in Hi. destruct (test !! i) as [u|] eqn:Hu; [|done]. injection Hi as <-. apply lookup_lt_Some in Hu as Hlt.
  split; [lia|]. rewrite (Ht i sizeof_ptr) in Hu by (apply lookup_replicate_2; lia). injection Hu as <-. apply bucket_bytes_spec.
  - split; [apply bucket_load_nonneg|apply Hfit; lia].
  - apply (bytes_of_bounds _ (bucket_keys_ok size (Z.of_nat i) names names_ok)).
Qed.

(** ** Storing the elements *)

Section store.
Context (size len : Z) (bs : list (option Z)) (bs_placed : placed size len bs) (size_fit : fit size).

(** The names so far are stored. *)
Record stored (done : list ngx_hash_key_t) (test : list Z) (mem : memory) : Prop := {
  st_alloc : allocated mem 0 len;
  st_test : length test = Z.to_nat size /\ forall i t, test !! i = Some t -> t = bytes_of (bucket_keys size (Z.of_nat i) done);
  st_elts : forall i b, bs !! i = Some (Some b) -> elts_at mem b (bucket_keys size (Z.of_nat i) done);
}.

Lemma bucket_keys_app i ks ks' : bucket_keys size i (ks ++ ks') = bucket_keys size i ks ++ bucket_keys size i ks'.
Proof. apply filter_app. Qed.

Lemma store_elt_run mem a k d : key_ok k -> k_data k = Some d -> allocated mem a (k_len k + 10) ->
  exists mem', store_elt mem a k d = Some mem' /\ has mem' a (elt_bytes k) /\ (forall j, ~ (a <= j < a + (k_len k + 10)) -> mem' !! j = mem !! j) /\ (forall j, is_Some (mem !! j) -> is_Some (mem' !! j)).
Proof.
  intros Hk Hd Ha. pose proof Hk as (H1 & _ & _ & H4). specialize (H4 d Hd). unfold store_elt.
  destruct (store_bytes_run mem a (to_bytes 8 (k_value k))) as (m1 & -> & A1 & A2 & A3); [intros j Hj; apply Ha; rewrite to_bytes_length in Hj; lia|]. cbn [mbind option_bind].
  destruct (store_bytes_run m1 (a + 8) (to_bytes 2 (u16 (k_len k)))) as (m2 & -> & B1 & B2 & B3); [intros j Hj; apply A3, Ha; rewrite to_bytes_length in Hj; lia|]. cbn [mbind option_bind].
  rewrite strlow_run by lia. cbn [mbind option_bind]. rewrite to_bytes_length in A2, B2.
  assert (length (ngx_tolower <$> take (Z.to_nat (k_len k)) d) = Z.to_nat (k_len k)) as Hl by (rewrite length_fmap, length_take; lia).
  destruct (store_bytes_run m2 (a + 10) (ngx_tolower <$> take (Z.to_nat (k_len k)) d)) as (m3 & -> & C1 & C2 & C3); [intros j Hj; apply B3, A3, Ha; rewrite Hl in Hj; lia|]. rewrite Hl in C2.
  exists m3. split_and!; [done| | |auto].
  - unfold elt_bytes, lower_name. rewrite Hd. rewrite !has_app, !to_bytes_length. split_and!.
    + eapply has_agree; [|eapply has_agree; [|exact A1]]; intros j Hj; rewrite to_bytes_length in Hj; [apply C2; lia|apply B2; lia].
    + eapply has_agree; [|exact B1]; intros j Hj; rewrite to_bytes_length in Hj; apply C2; lia.
    + rewrite <- Z.add_assoc. exact C1.
  - intros j Hj. rewrite C2, B2, A2 by lia. done.
Qed.

Lemma load_le i ks ks' : names = ks ++ ks' -> bytes_of (bucket_keys size i ks) + bytes_of (bucket_keys size i ks') = bucket_load size i.
Proof. intros E. unfold bucket_load. rewrite E, bucket_keys_app, bytes_of_app. done. Qed.

Lemma bucket_keys_one i k : present k = true -> bucket_keys size i [k] = if decide (k_hash k mod size = i) then [k] else [].
Proof. intros Hp. rewrite bucket_keys_cons. repeat case_decide; done || tauto. Qed.

Lemma stored_step done k rest test mem d : names = done ++ k :: rest -> k_data k = Some d -> stored done test mem ->
  exists b t mem', bs !! Z.to_nat (k_hash k mod size) = Some (Some b) /\ test !! Z.to_nat (k_hash k mod size) = Some t /\ store_elt mem (b + t) k d = Some mem' /\
    u16 (t + NGX_HASH_ELT_SIZE k) = t + NGX_HASH_ELT_SIZE k /\ stored (done ++ [k]) (<[Z.to_nat (k_hash k mod size) := t + NGX_HASH_ELT_SIZE k]> test) mem'.
Proof.
  intros E Hd [S1 [S2 S3] S4]. destruct size_fit as [Hs Hfit]. assert (short k) as Hk by (apply (proj1 (Forall_forall _ _) names_short); rewrite E; apply elem_of_app; right; by left).
  pose proof (short_size k Hk) as (K1 & K2 & K3). pose proof Hk as [Hok _]. assert (present k = true) as Hp by (unfold present; by rewrite Hd). pose proof (Z.mod_pos_bound (k_hash k) size Hs) as Hi.
  assert (keys_ok (bucket_keys size (k_hash k mod size) done)) as Hdone by (apply bucket_keys_ok; pose proof names_ok as F; rewrite E in F; by apply Forall_app in F as [? _]).
  assert (forall i, bytes_of (bucket_keys size i done) + bytes_of (bucket_keys size i [k]) <= bucket_load size i) as Hle.
  { intros i. rewrite <- bytes_of_app, <- bucket_keys_app. pose proof (load_le i (done ++ [k]) rest) as L. rewrite <- app_assoc in L. specialize (L E).
    assert (keys_ok (bucket_keys size i rest)) as Hr by (apply bucket_keys_ok; pose proof names_ok as F; rewrite E in F; apply Forall_app in F as [_ F]; by apply Forall_cons in F as [_ F]).
    pose proof (bytes_of_bounds _ Hr). lia. }
  pose proof (Hle (k_hash k mod size)) as HB. rewrite bucket_keys_one, decide_True in HB by done. cbn [bytes_of] in HB. pose proof (bytes_of_bounds _ Hdone) as [Hd1 _].
  destruct (pl_full _ _ _ bs_placed (k_hash k mod size)) as [b Hb]; [done|lia|]. destruct (slot_is_Some size k test Hs K3 S2) as [t Ht].
  pose proof (S3 _ _ Ht) as Et. rewrite Z2Nat.id in Et by lia. destruct (pl_range _ _ _ bs_placed _ _ Hb) as (R1 & R2 & R3). rewrite Z2Nat.id in R3 by lia.
  pose proof (elt_size_bounds k (proj1 Hok)) as (E1 & E2 & E3).
  destruct (store_elt_run mem (b + t) k d Hok Hd) as (mem' & Hst & M1 & M2 & M3); [intros j Hj; apply S1; lia|]. exists b, t, mem'. split_and!; [done..| |].
  { apply wrap_small. specialize (Hfit _ Hi). pose proof room_range. lia. }
  split.
  - intros j Hj. by apply M3, S1.
  - rewrite length_insert. split; [done|]. intros i u Hu. rewrite bucket_keys_app, bytes_of_app, bucket_keys_one by done. destruct (decide (i = Z.to_nat (k_hash k mod size))) as [-> |Hn].
    + rewrite list_lookup_insert_eq in Hu by (by eapply lookup_lt_Some). injection Hu as <-. rewrite Z2Nat.id, decide_True by (done || lia). cbn [bytes_of]. lia.
    + rewrite list_lookup_insert_ne in Hu by done. rewrite decide_False by lia. cbn [bytes_of]. rewrite (S3 _ _ Hu). lia.
  - intros i c Hc. rewrite bucket_keys_app, bucket_keys_one by done. destruct (decide (i = Z.to_nat (k_hash k mod size))) as [-> |Hn].
    + assert (c = b) as -> by congruence. specialize (S4 _ _ Hb). rewrite Z2Nat.id in * by lia. rewrite decide_True by done. apply elts_at_app. split; [|split; [by rewrite <- Et|done]].
      apply (elts_at_agree mem); [done| |done]. intros j Hj. apply M2. lia.
    + rewrite decide_False, app_nil_r by lia. apply (elts_at_agree mem); [|intros j Hj; apply M2|by apply S4].
      * apply bucket_keys_ok. pose proof names_ok as F. rewrite E in F. by apply Forall_app in F as [? _].
      * specialize (Hle (Z.of_nat i)). rewrite bucket_keys_one, decide_False in Hle by (done || lia). cbn [bytes_of] in Hle.
        destruct (decide (i < Z.to_nat (k_hash k mod size))%nat); [pose proof (pl_apart _ _ _ bs_placed _ _ _ _ Hc Hb ltac:(lia))|pose proof (pl_apart _ _ _ bs_placed _ _ _ _ Hb Hc ltac:(lia)) as A; rewrite Z2Nat.id in A by lia]; lia.
Qed.

Lemma store_elts_run rest done test mem : names = done ++ rest -> stored done test mem -> exists test' mem', store_elts size bs rest test mem = Some (test', mem') /\ stored names test' mem'.
Proof.
  revert done test mem. induction rest as [|k rest IH]; intros done test mem E H; cbn [store_elts]; [rewrite app_nil_r in E; subst done; by eexists _, _|].
  assert (names = (done ++ [k]) ++ rest) as E' by (by rewrite <- app_assoc). destruct (k_data k) as [d|] eqn:Hd.
  - destruct (stored_step done k rest test mem d E Hd H) as (b & t & mem' & -> & Ht & Hst & Hw & H'). cbn [mbind option_bind]. rewrite Ht. cbn [mbind option_bind]. rewrite Hst. cbn [mbind option_bind].
    unfold count_elt. rewrite Ht. cbn [mbind option_bind]. rewrite Hw. by apply (IH (done ++ [k])).
  - apply (IH (done ++ [k]) test mem E'). destruct H as [S1 [S2 S3] S4]. assert (forall i, bucket_keys size i (done ++ [k]) = bucket_keys size i done) as Hb.
    { intros i. rewrite bucket_keys_app, bucket_keys_cons, decide_False, app_nil_r by (intros [Hp _]; unfold present in Hp; by rewrite Hd in Hp). done. }
    split; [done|split; [done|]|]; intros i; rewrite Hb; auto.
Qed.

Definition zeros : list Z := to_bytes 8 0.

Lemma zeros_stay mem mem' a c : has mem a zeros -> has mem' c zeros -> (forall j, ~ (c <= j < c + 8) -> mem' !! j = mem !! j) -> has mem' a zeros.
Proof.
  intros H1 H2 H3 j x Hj. pose proof (lookup_lt_Some _ _ _ Hj) as Hlt. change (length zeros) with 8%nat in Hlt. assert (forall i, (i < 8)%nat -> zeros !! i = Some 0) as Hz by (intros i Hi; do 8 (destruct i as [|i]; [done|]); lia).
  rewrite (Hz j Hlt) in Hj. injection Hj as <-. destruct (decide (c <= a + Z.of_nat j < c + 8)).
  - replace (a + Z.of_nat j) with (c + Z.of_nat (Z.to_nat (a + Z.of_nat j - c))) by lia. apply H2, Hz. lia.
  - rewrite H3 by done. apply H1, Hz. done.
Qed.

Lemma store_ends_run cs test mem : length cs = length test -> (forall i b t, cs !! i = Some (Some b) -> test !! i = Some t -> allocated mem (b + t) 8) ->
  exists mem', store_ends cs test mem = Some mem' /\ (forall j, is_Some (mem !! j) -> is_Some (mem' !! j)) /\ (forall a, has mem a zeros -> has mem' a zeros) /\
    (forall i b t, cs !! i = Some (Some b) -> test !! i = Some t -> has mem' (b + t) zeros) /\
    (forall j, (forall i b t, cs !! i = Some (Some b) -> test !! i = Some t -> ~ (b + t <= j < b + t + 8)) -> mem' !! j = mem !! j).
Proof.
  revert test mem. induction cs as [|[b|] cs IH]; intros [|t test] mem Hl Ha; try done; [by exists mem|..]; cbn [store_ends].
  - destruct (store_bytes_run mem (b + t) zeros) as (m1 & E1 & A1 & A2 & A3); [by apply (Ha 0%nat)|]. unfold zeros in E1. rewrite E1. cbn [mbind option_bind].
    destruct (IH test m1) as (m2 & -> & B1 & B2 & B3 & B4); [by injection Hl|intros i b' t' Hb Ht j Hj; apply A3; by apply (Ha (S i) b' t')|]. exists m2. split_and!; [done|auto| | |].
    + intros a H. apply B2. by apply (zeros_stay mem m1 a (b + t)).
    + intros [|i] b' t' Hb Ht; [injection Hb as <-; injection Ht as <-; by apply B2|by apply (B3 i)].
    + intros j Hj. rewrite B4; [|intros i b' t' Hb Ht; by apply (Hj (S i))]. apply A2. by apply (Hj 0%nat).
  - destruct (IH test mem) as (m2 & -> & B1 & B2 & B3 & B4); [by injection Hl|intros i b' t' Hb Ht; by apply (Ha (S i))|]. exists m2. split_and!; [done|auto|auto| |].
    + intros [|i] b' t' Hb Ht; [done|by apply (B3 i)].
    + intros j Hj. apply B4. intros i b' t' Hb Ht. by apply (Hj (S i)).
Qed.

Definition in_table (mem : memory) : Prop :=
  allocated mem 0 len /\ forall i b, bs !! i = Some (Some b) -> elts_at mem b (bucket_keys size (Z.of_nat i) names) /\ has mem (b + bucket_load size (Z.of_nat i)) zeros.

Lemma store_run junk : exists test mem mem', store_elts size bs names (replicate (Z.to_nat size) 0) (new_memory junk len) = Some (test, mem) /\ store_ends bs test mem = Some mem' /\ in_table mem'.
Proof.
  destruct (store_elts_run names [] (replicate (Z.to_nat size) 0) (new_memory junk len) eq_refl) as (test & mem & E & [S1 [S2 S3] S4]).
  { split.
    - intros j Hj. unfold new_memory. destruct (list_to_map _ !! j) eqn:E; [by eexists|]. apply not_elem_of_list_to_map in E. destruct E. apply list_elem_of_fmap. exists (j, junk j). split; [done|]. apply list_elem_of_fmap. exists j. split; [done|]. apply elem_of_seqZ. lia.
    - split; [apply length_replicate|]. intros i t Ht. by apply lookup_replicate in Ht as [-> _].
    - done. }
  destruct (store_ends_run bs test mem) as (mem' & E' & A1 & A2 & A3 & A4).
  { rewrite S2. apply (pl_length _ _ _ bs_placed). }
  { intros i b t Hb Ht j Hj. destruct (pl_range _ _ _ bs_placed _ _ Hb) as (R1 & R2 & R3). rewrite (S3 _ _ Ht) in Hj. unfold bucket_load in R3. pose proof (bytes_of_bounds _ (bucket_keys_ok size (Z.of_nat i) names names_ok)). apply S1. lia. }
  exists test, mem, mem'. split_and!; [done|done|]. split; [intros j Hj; by apply A1, S1|]. intros i b Hb.
  assert (exists t, test !! i = Some t) as [t Ht] by (apply lookup_lt_is_Some; rewrite S2, <- (pl_length _ _ _ bs_placed); by eapply lookup_lt_Some).
  pose proof (S3 _ _ Ht) as Et. split; [|unfold bucket_load; rewrite <- Et; by apply (A3 i)].
  apply (elts_at_agree mem); [apply bucket_keys_ok, names_ok| |by apply S4]. intros j Hj. apply A4. intros i' b' t' Hb' Ht'. rewrite (S3 _ _ Ht'). unfold bucket_load in *.
  pose proof (bytes_of_bounds _ (bucket_keys_ok size (Z.of_nat i') names names_ok)).
  destruct (decide (i = i')) as [<- |Hne]; [assert (b' = b) as -> by congruence; lia|].
  destruct (decide (i < i')%nat); [pose proof (pl_apart _ _ _ bs_placed _ _ _ _ Hb Hb' ltac:(lia))|pose proof (pl_apart _ _ _ bs_placed _ _ _ _ Hb' Hb ltac:(lia))]; unfold bucket_load in *; lia.
Qed.

End store.

End build.

(** * A table finds its names *)

Lemma start_size_run hinit n : 24 <= bucket_size hinit <= 2 ^ 15 -> 0 <= n -> exists start, start_size hinit n = Some start /\ 0 < start.
Proof.
  intros Hb Hn. unfold start_size, sizeof_ptr. rewrite wrap_small by lia. pose proof (Z.div_le_lower_bound (bucket_size hinit - 8) (2 * 8) 1 ltac:(lia) ltac:(lia)).
  destruct (Z.eqb_spec ((bucket_size hinit - 8) / (2 * 8)) 0); [lia|]. eexists. split; [done|]. destruct (Z.ltb_spec 10000 (max_size hinit)); cbn [andb]; [case_match; [lia|]|];
    destruct (Z.eqb_spec (n / ((bucket_size hinit - 8) / (2 * 8))) 0); try lia; pose proof (Z.div_pos n ((bucket_size hinit - 8) / (2 * 8)) Hn ltac:(lia)); lia.
Qed.

Lemma fuel_enough mem b n w : allocated mem 0 n -> 0 <= b -> b + w <= n -> w <= Z.of_nat (size mem).
Proof.
  intros Ha Hb Hw. destruct (Z.le_gt_cases w 0); [lia|]. assert (list_to_set (seqZ b w) ⊆ dom mem) as Hsub.
  { intros j Hj. apply elem_of_list_to_set, elem_of_seqZ in Hj. apply elem_of_dom, Ha. lia. }
  apply subseteq_size in Hsub. rewrite size_list_to_set, length_seqZ, size_dom in Hsub by apply NoDup_seqZ. lia.
Qed.

(** What [ngx_hash_find] sees of a table. *)
Definition represents (h : ngx_hash_t) (names : list ngx_hash_key_t) : Prop :=
  forall key name, 0 <= key -> ngx_hash_find h key name = Some (first_value (bucket_keys (hash_size h) (key mod hash_size h) names) name).

Lemma table_finds hinit names size len bs mem : 24 <= bucket_size hinit <= 2 ^ 15 -> Forall (short hinit) names -> fit hinit names size -> placed names size len bs -> in_table names size len bs mem ->
  represents (mk_hash bs size mem) names.
Proof.
  intros Hb Hns [Hs Hfit] Hpl [Ha Ht] key name Hk. unfold ngx_hash_find. cbn [hash_size buckets elements]. destruct (Z.eqb_spec size 0); [lia|]. pose proof (Z.mod_pos_bound key size Hs) as Hi.
  assert (Forall key_ok names) as Hok by (apply (Forall_impl _ _ _ Hns); by intros k [? _]). pose proof (bucket_keys_ok size (key mod size) names Hok) as Hks. pose proof (bytes_of_bounds _ Hks) as [Hb1 _].
  destruct (decide (bucket_load names size (key mod size) = 0)) as [E|E].
  - rewrite (pl_empty _ _ _ _ Hpl _ Hi E). cbn [mbind option_bind]. unfold bucket_load in E. destruct (bucket_keys size (key mod size) names); [done|]. cbn [length] in Hb1. lia.
  - destruct (pl_full _ _ _ _ Hpl _ Hi E) as [b Hbk]. rewrite Hbk. cbn [mbind option_bind]. destruct (Ht _ _ Hbk) as [T1 T2]. destruct (pl_range _ _ _ _ Hpl _ _ Hbk) as (R1 & R2 & R3). rewrite Z2Nat.id in * by lia.
    apply bucket_find_run; [done| |done|done|done|].
    + apply Forall_forall. intros k Hin. apply list_elem_of_filter in Hin as [_ Hin]. pose proof (short_size hinit Hb k (proj1 (Forall_forall _ _) Hns k Hin)). lia.
    + pose proof (fuel_enough mem b len (bytes_of (bucket_keys size (key mod size) names)) Ha R1) as F. unfold bucket_load in R3. lia.
Qed.

(** [ngx_hash_init] does nothing that has no meaning, and a table that it makes represents
    the names. *)
Lemma hash_init_run cacheline_shift alloc junk hinit names : 24 <= bucket_size hinit <= 2 ^ 15 -> 3 <= cacheline_shift <= 15 -> Forall key_ok names ->
  exists r, ngx_hash_init (2 ^ cacheline_shift) alloc junk hinit names = Some r /\ forall h, r = Some h -> represents h names.
Proof.
  intros Hb Hc Hok. unfold ngx_hash_init. destruct (existsb (too_long hinit) names) eqn:Hx; [by eexists|]. case_match; [by eexists|].
  assert (Forall (short hinit) names) as Hns.
  { apply Forall_forall. intros k Hk. split; [by apply (proj1 (Forall_forall _ _) Hok)|]. destruct (too_long hinit k) eqn:Hl; [|unfold too_long in Hl; apply Z.ltb_ge in Hl; unfold room; lia].
    assert (existsb (too_long hinit) names = true); [|congruence]. apply existsb_exists. exists k. split; [by apply list_elem_of_In|done]. }
  destruct (start_size_run hinit (Z.of_nat (length names)) Hb ltac:(lia)) as (start & -> & Hst). cbn [mbind option_bind].
  destruct (size_loop_run hinit names Hb Hns (Z.to_nat (max_size hinit - start) + 1) start Hst ltac:(lia) ltac:(lia)) as (r & -> & Hr). cbn [mbind option_bind].
  destruct r as [size|]; [|by eexists]. specialize (Hr size eq_refl). destruct (place_run hinit names cacheline_shift Hb Hc Hns size Hr) as (test & -> & Hpl). cbn [mbind option_bind].
  cbv zeta in *. do 2 (case_match; [by eexists|]). destruct (store_run hinit names cacheline_shift Hb Hc Hns size _ _ Hpl Hr junk) as (test' & mem & mem' & -> & E & Ht). cbn [mbind option_bind]. rewrite E. cbn [mbind option_bind].
  eexists. split; [done|]. intros h [= <-]. by eapply table_finds.
Qed.

Lemma first_value_bucket (hash : list Z -> Z) size names name : Forall (fun k => present k = true -> k_hash k = hash (lower_name k)) names ->
  first_value (bucket_keys size (hash name mod size) names) name = first_value (filter (fun k => present k = true) names) name.
Proof.
  induction 1 as [|k names Hk _ IH]; [done|]. rewrite bucket_keys_cons, filter_cons. destruct (decide (present k = true)) as [Hp|Hp]; [|by rewrite decide_False by tauto]. cbn [first_value].
  destruct (bool_decide (name = lower_name k)) eqn:E.
  - apply bool_decide_eq_true in E. rewrite decide_True by (split; [done|]; by rewrite (Hk Hp), E). cbn [first_value]. by rewrite bool_decide_eq_true_2.
  - destruct (decide (present k = true /\ k_hash k mod size = hash name mod size)); [cbn [first_value]; by rewrite E|done].
Qed.

(** C9: [ngx_hash_init] reads and writes only the names and the memory it has asked for; when
    it makes a table, [ngx_hash_find] reads only that table and finds, for every name with
    its hash, the value of the first of the names that is equal to it in lower case, and a
    null pointer when there is none. *)
Theorem hash_finds_names cacheline_shift alloc junk hinit names (hash : list Z -> Z) : 24 <= bucket_size hinit <= 2 ^ 15 -> 3 <= cacheline_shift <= 15 ->
  Forall key_ok names -> Forall (fun k => present k = true -> k_hash k = hash (lower_name k)) names ->
  exists r, ngx_hash_init (2 ^ cacheline_shift) alloc junk hinit names = Some r /\
    forall h name, r = Some h -> 0 <= hash name -> ngx_hash_find h (hash name) name = Some (first_value (filter (fun k => present k = true) names) name).
Proof.
  intros Hb Hc Hok Hh. destruct (hash_init_run cacheline_shift alloc junk hinit names Hb Hc Hok) as (r & Hr & Hf). exists r. split; [done|]. intros h name E Hn.
  by rewrite (Hf h E), first_value_bucket by done.
Qed.

Lemma small_names_ok : Forall key_ok small_names /\ Forall (fun k => present k = true -> k_hash k = ngx_hash_key (lower_name k)) small_names.
Proof. split; [|by repeat constructor]. repeat (apply Forall_cons; split; [split_and!; [done|done|done|done|intros d [= <-]; cbn; lia]|]). done. Qed.

Lemma hash_finds_names_witness : exists r, ngx_hash_init 64 (fun _ => true) (fun _ => 170) (mk_init 512 64) small_names = Some r /\
  forall h name, r = Some h -> 0 <= ngx_hash_key name -> ngx_hash_find h (ngx_hash_key name) name = Some (first_value (filter (fun k => present k = true) small_names) name).
Proof.
  apply (hash_finds_names 6 (fun _ => true) (fun _ => 170) (mk_init 512 64) small_names ngx_hash_key); [cbn; lia|lia|apply small_names_ok|apply small_names_ok].
Defined.

(** With buckets of 65536 bytes the 16 bits of the sizes wrap: 17 names of 4000 bytes are
    taken to fit into one bucket, whatever their hashes, and the first of them is written past its end. *)
Definition long_names : list ngx_hash_key_t := (fun i => let d := (97 + i) :: replicate 3999 97 in mk_key (Some d) 4000 i 8) <$> seqZ 0 17.

Theorem hash_bucket_overflow : ngx_hash_init 64 (fun _ => true) (fun _ => 0) (mk_init 512 (2 ^ 16)) long_names = None.
Proof. vm_compute. reflexivity. Qed.
