(* ===== verification/NgxHashWildcard.v ===== *)
(** Wildcard hash tables of src/core/ngx_hash.c: [ngx_hash_wildcard_init],
    [ngx_hash_find_wc_head], [ngx_hash_find_wc_tail] and [ngx_hash_find_combined], which find
    the server of a name among names such as "*.example.com" and "www.example.*".

    The names are cut into labels at the dots.  A table has the first labels; the value of a
    label is a word whose two low bits say whether it is a value or the address of the table
    of the labels that follow.  The tables are in a map from addresses, [addr n] being the
    address of the [n]-th one; [alloc n] and [junk n] are the allocations and the memory of
    the [n]-th call of [ngx_hash_init].  The arrays of names are lists, and [alloc n 3]
    tells whether they can grow. *)

From S2P Require Import Prelude NgxHash NgxStr NgxHashTable.

Open Scope Z_scope.

Definition DOT : Z := 46.

Record ngx_hash_wildcard_t := mk_wc {
  wc_hash : ngx_hash_t;
  wc_value : Z;
}.

Abbreviation wc_heap := (gmap Z ngx_hash_wildcard_t).

(** * Finding *)

(** [while (n) { if (name[n - 1] == '.') break; n--; }] *)
Fixpoint after_dot (name : list Z) (n : nat) : option nat :=
  match n with
  | O => Some 0%nat
  | S m => c ← name !! m; if c =? DOT then Some n else after_dot name m
  end.

Definition is_table (value : Z) : bool := negb (Z.land value 2 =? 0).
Definition head_only (value : Z) : bool := negb (Z.land value 1 =? 0).
Definition untagged (value : Z) : Z := Z.land value (Z.lnot 3).

Fixpoint find_wc_head (fuel : nat) (heap : wc_heap) (hwc : ngx_hash_wildcard_t) (name : list Z) : option Z :=
  match fuel with
  | O => None
  | S fuel =>
      n ← after_dot name (length name);
      let part := drop n name in
      value ← ngx_hash_find (wc_hash hwc) (ngx_hash_key part) part;
      if negb (value =? 0) then
        if is_table value then
          if (n =? 0)%nat then
            if head_only value then Some 0 else hwc ← heap !! untagged value; Some (wc_value hwc)
          else
            hwc ← heap !! untagged value;
            value ← find_wc_head fuel heap hwc (take (n - 1) name);
            Some (if negb (value =? 0) then value else wc_value hwc)
        else if head_only value then Some (if (n =? 0)%nat then 0 else untagged value)
        else Some value
      else Some (wc_value hwc)
  end.

Definition ngx_hash_find_wc_head (heap : wc_heap) (hwc : ngx_hash_wildcard_t) (name : list Z) : option Z := find_wc_head (length name + 1) heap hwc name.

(** [for (i = 0; i < len; i++) { if (name[i] == '.') break; ... }]: the bytes before the dot. *)
Fixpoint before_dot (name : list Z) : list Z :=
  match name with [] => [] | c :: name => if c =? DOT then [] else c :: before_dot name end.

Fixpoint find_wc_tail (fuel : nat) (heap : wc_heap) (hwc : ngx_hash_wildcard_t) (name : list Z) : option Z :=
  match fuel with
  | O => None
  | S fuel =>
      let part := before_dot name in
      let i := length part in
      if (i =? length name)%nat then Some 0
      else
        value ← ngx_hash_find (wc_hash hwc) (ngx_hash_key part) part;
        if negb (value =? 0) then
          if is_table value then
            hwc ← heap !! untagged value;
            value ← find_wc_tail fuel heap hwc (drop (i + 1) name);
            Some (if negb (value =? 0) then value else wc_value hwc)
          else Some value
        else Some (wc_value hwc)
  end.

Definition ngx_hash_find_wc_tail (heap : wc_heap) (hwc : ngx_hash_wildcard_t) (name : list Z) : option Z := find_wc_tail (length name + 1) heap hwc name.

(** [None] is a table without buckets, or a null pointer. *)
Record ngx_hash_combined_t := mk_combined {
  c_hash : option ngx_hash_t;
  c_wc_head : option ngx_hash_wildcard_t;
  c_wc_tail : option ngx_hash_wildcard_t;
}.

Definition find_in {T} (find : T -> option Z) (t : option T) : option Z := match t with Some t => find t | None => Some 0 end.

Definition ngx_hash_find_combined (heap : wc_heap) (hash : ngx_hash_combined_t) (key : Z) (name : list Z) : option Z :=
  value ← find_in (fun h => ngx_hash_find h key name) (c_hash hash);
  if negb (value =? 0) then Some value
  else if (length name =? 0)%nat then Some 0
  else
    value ← find_in (fun h => ngx_hash_find_wc_head heap h name) (c_wc_head hash);
    if negb (value =? 0) then Some value
    else
      value ← find_in (fun h => ngx_hash_find_wc_tail heap h name) (c_wc_tail hash);
      Some (if negb (value =? 0) then value else 0).

(** * Building *)

(** [for (len = 0; len < names[n].key.len; len++)]: the length of the label and whether a dot
    ends it. *)
Fixpoint label_scan (data : list Z) (n : nat) {struct n} : option (nat * bool) :=
  match n with
  | O => Some (0%nat, false)
  | S n =>
      match data with
      | [] => None
      | c :: data => if c =? DOT then Some (0%nat, true) else '(len, dot) ← label_scan data n; Some (S len, dot)
      end
  end.

(** [for (i = n + 1; i < nelts; i++)]: the names that begin with the same label, without it,
    and the names from [i] on. *)
Fixpoint same_label (data : list Z) (len dot_len : nat) (dot : bool) (names : list ngx_hash_key_t) : option (list ngx_hash_key_t * list ngx_hash_key_t) :=
  match names with
  | [] => Some ([], [])
  | k :: rest =>
      d ← k_data k;
      m ← strncmp data d len;
      if negb (m =? 0) then Some ([], names)
      else
        stop ← (if negb dot && (Z.of_nat len <? k_len k) then c ← d !! len; Some (negb (c =? DOT)) else Some false);
        if stop : bool then Some ([], names)
        else
          '(next, rest) ← same_label data len dot_len dot rest;
          Some (mk_key (Some (drop dot_len d)) (u64 (k_len k - Z.of_nat dot_len)) 0 (k_value k) :: next, rest)
  end.

Record wc_state := mk_wcs {
  st_heap : wc_heap;
  st_count : nat;
}.

Section init.
Context (cacheline : Z) (alloc : nat -> nat -> bool) (junk : nat -> Z -> Z) (addr : nat -> Z) (hinit : ngx_hash_init_t).

(** [ngx_hash_init] for a table that is still to be allocated. *)
Definition init_table (names : list ngx_hash_key_t) (st : wc_state) : option (option (Z * wc_state)) :=
  let n := st_count st in
  r ← ngx_hash_init cacheline (alloc n) (junk n) hinit names;
  Some (match r with
        | None => None
        | Some h => Some (addr n, mk_wcs (<[addr n := mk_wc h 0]> (st_heap st)) (S n))
        end).

(** [if (names[n].key.len == len) wdc->value = names[n].value;] *)
Definition set_value (own : bool) (wdc value : Z) (st : wc_state) : option wc_state :=
  if own then w ← st_heap st !! wdc; Some (mk_wcs (<[wdc := mk_wc (wc_hash w) value]> (st_heap st)) (st_count st))
  else Some st.

(** [for (n = 0; n < nelts; n = i)] with the names that are left and those in [curr_names];
    the call for [next_names] is a call of the loop with no names in [curr_names]. *)
Fixpoint wildcard_loop (fuel : nat) (names curr : list ngx_hash_key_t) (st : wc_state) : option (option (Z * wc_state)) :=
  match fuel with
  | O => None
  | S fuel =>
      match names with
      | [] => if negb (alloc (st_count st) 3%nat) then Some None else init_table curr st
      | k :: names =>
          data ← k_data k;
          '(label, dot) ← label_scan data (Z.to_nat (k_len k));
          let name (value : Z) := mk_key (Some data) (Z.of_nat label) (ngx_hash_key_lc (take label data)) value in
          let dot_len := (label + 1)%nat in
          let len := if (dot : bool) then (label + 1)%nat else label in
          let own := k_len k =? Z.of_nat len in
          '(next, rest) ← same_label data len dot_len dot names;
          let next := if own then next else mk_key (Some (drop len data)) (k_len k - Z.of_nat len) 0 (k_value k) :: next in
          match next with
          | [] => wildcard_loop fuel rest (curr ++ [name (if dot then Z.lor (k_value k) 1 else k_value k)]) st
          | _ =>
              r ← wildcard_loop fuel next [] st;
              match r with
              | None => Some None
              | Some (wdc, st) =>
                  st ← set_value own wdc (k_value k) st;
                  wildcard_loop fuel rest (curr ++ [name (Z.lor wdc (if dot then 3 else 2))]) st
              end
          end
      end
  end.

Definition names_weight (names : list ngx_hash_key_t) : nat := sum_list_with (fun k => (Z.to_nat (k_len k) + 2)%nat) names.

Definition ngx_hash_wildcard_init (names : list ngx_hash_key_t) (st : wc_state) : option (option (Z * wc_state)) := wildcard_loop (names_weight names + 1) names [] st.

End init.

(** * Examples *)

Definition text_key (t : list Z) (value : Z) : ngx_hash_key_t := mk_key (Some (t ++ [0])) (Z.of_nat (length t)) 0 value.
Definition wc_names : list ngx_hash_key_t := (fun '(s, v) => text_key (cstr s) v) <$> [("com.", 4); ("com.example", 8); ("com.example.mail.", 12); ("com.test.a.", 16); ("org.wiki.", 20)]%string.

(** "*.com", ".example.com", "*.mail.example.com", "*.a.test.com" and "*.wiki.org" *)
Example wildcard_names : match ngx_hash_wildcard_init 64 (fun _ _ => true) (fun _ _ => 170) (fun n => 4096 + 64 * Z.of_nat n) (mk_init 512 64) wc_names (mk_wcs ∅ 0) with
  | Some (Some (a, st)) => (fun s => h ← st_heap st !! a; ngx_hash_find_wc_head (st_heap st) h (cstr s)) <$>
      ["com"; "x.com"; "example.com"; "www.example.com"; "mail.example.com"; "a.mail.example.com"; "test.com"; "b.a.test.com"; "wiki.org"; "a.b.wiki.org"; "net"]%string
  | _ => []
  end = Some <$> [0; 4; 8; 8; 8; 12; 4; 16; 0; 20; 0].
Proof. vm_compute. reflexivity. Qed.

(** * Names as trees of labels *)

(** Names in an order in which those with the same first labels are together, and a name
    comes before those that go on after it: [Leaf] ends a name, [Sub] goes on and may end one
    too.  A star is the dot at the end of a name that stands for one more label at least. *)
Inductive entry :=
| Leaf (star : bool) (v : Z)
| Sub (own : option (bool * Z)) (ch : forest)
with forest :=
| FNil
| FCons (l : list Z) (e : entry) (f : forest).

Fixpoint names_of (f : forest) : list (list (list Z) * bool * Z) :=
  match f with
  | FNil => []
  | FCons l e f => entry_names l e ++ names_of f
  end
with entry_names (l : list Z) (e : entry) : list (list (list Z) * bool * Z) :=
  match e with
  | Leaf star v => [([l], star, v)]
  | Sub own ch => match own with Some (star, v) => [([l], star, v)] | None => [] end ++ ((fun '(ls, star, v) => (l :: ls, star, v)) <$> names_of ch)
  end.

Fixpoint join (ls : list (list Z)) : list Z :=
  match ls with [] => [] | [l] => l | l :: ls => l ++ DOT :: join ls end.
Definition wc_text (ls : list (list Z)) (star : bool) : list Z := join ls ++ (if star then [DOT] else []).
Definition name_key (x : list (list Z) * bool * Z) : ngx_hash_key_t := let '(ls, star, v) := x in text_key (wc_text ls star) v.

Definition label_ok (l : list Z) : Prop := l <> [] /\ Forall (fun c => c <> DOT /\ c <> 0 /\ ngx_tolower c = c) l.
Definition value_ok (v : Z) : Prop := 0 < v < 2 ^ 64 /\ v mod 4 = 0.
Definition own_value (own : option (bool * Z)) : Z := match own with Some (_, v) => v | None => 0 end.

Fixpoint entry_of (l : list Z) (f : forest) : option entry :=
  match f with FNil => None | FCons l' e f => if bool_decide (l = l') then Some e else entry_of l f end.

Fixpoint wf (f : forest) : Prop :=
  match f with
  | FNil => True
  | FCons l e f => label_ok l /\ entry_of l f = None /\ wf_entry e /\ wf f
  end
with wf_entry (e : entry) : Prop :=
  match e with
  | Leaf star v => value_ok v
  | Sub own ch => (match own with Some (_, v) => value_ok v | None => True end) /\ ch <> FNil /\ wf ch
  end.

Scheme forest_mut := Induction for forest Sort Prop with entry_mut := Induction for entry Sort Prop.

(** Induction with the subtrees of the first entry. *)
Lemma forest_rect' (P : forest -> Prop) : P FNil -> (forall l star v f, P f -> P (FCons l (Leaf star v) f)) -> (forall l own ch f, P ch -> P f -> P (FCons l (Sub own ch) f)) -> forall f, P f.
Proof. intros H1 H2 H3. apply (forest_mut P (fun e => match e with Leaf _ _ => True | Sub _ ch => P ch end)); auto. intros l [star v|own ch] He f Hf; auto. Qed.

Definition dots (star : bool) : list Z := if star then [DOT] else [].

Lemma wc_text_one l star : wc_text [l] star = l ++ dots star.
Proof. done. Qed.
Lemma wc_text_cons l ls star : ls <> [] -> wc_text (l :: ls) star = l ++ DOT :: wc_text ls star.
Proof. intros H. unfold wc_text. destruct ls as [|l' ls]; [done|]. cbn [join]. by rewrite <- app_assoc. Qed.

Lemma names_labels f x : x ∈ names_of f -> x.1.1 <> [].
Proof.
  revert x. induction f as [|l star v f IH|l own ch f IHch IH] using forest_rect'; intros x; cbn; [by intros ?%elem_of_nil| |].
  - rewrite elem_of_cons. intros [-> |H]; [done|by apply IH].
  - rewrite !elem_of_app. intros [[H|H]|H]; [destruct own as [[star v]|]; [apply list_elem_of_singleton in H as ->; done|by apply elem_of_nil in H]| |by apply IH].
    apply list_elem_of_fmap in H as ([[ls star] v] & -> & _). done.
Qed.

(** The names of a subtree. *)
Definition under (l : list Z) (k : list (list Z) * bool * Z) : ngx_hash_key_t := let '(ls, star, v) := k in text_key (l ++ DOT :: wc_text ls star) v.

Lemma name_key_cons l x : x.1.1 <> [] -> name_key (let '(ls, star, v) := x in (l :: ls, star, v)) = under l x.
Proof. destruct x as [[ls star] v]. cbn [fst]. intros H. unfold name_key, under. by rewrite wc_text_cons. Qed.

Definition keys (f : forest) : list ngx_hash_key_t := name_key <$> names_of f.

Lemma keys_leaf l star v f : keys (FCons l (Leaf star v) f) = text_key (l ++ dots star) v :: keys f.
Proof. done. Qed.

Lemma keys_sub l own ch f : keys (FCons l (Sub own ch) f) = (match own with Some (star, v) => [text_key (l ++ dots star) v] | None => [] end) ++ (under l <$> names_of ch) ++ keys f.
Proof.
  unfold keys. cbn [names_of entry_names]. rewrite !fmap_app, <- app_assoc. f_equal; [by destruct own as [[star v]|]|]. f_equal. rewrite <- list_fmap_compose. apply list_fmap_ext.
  intros i x Hx. apply name_key_cons. apply (names_labels ch). by eapply list_elem_of_lookup_2.
Qed.

(** * Grouping by the first label *)

Lemma strncmp_text p x t y : Forall (fun c => c <> 0) p -> exists m, strncmp (p ++ x) (t ++ 0 :: y) (length p) = Some m /\ (m = 0 <-> p `prefix_of` t).
Proof.
  intros Hp. revert t. induction Hp as [|c p Hc Hp IH]; intros t; cbn [length strncmp app]; [exists 0; split; [done|]; split; [intros _; apply prefix_nil|done]|].
  destruct t as [|d t]; cbn [app].
  - destruct (Z.eqb_spec c 0); [done|]. eexists. split; [done|]. split; [lia|]. intros H. by apply prefix_nil_not in H.
  - destruct (Z.eqb_spec c d) as [-> |Hn].
    + destruct (Z.eqb_spec d 0); [done|]. destruct (IH t) as (m & -> & Hm). exists m. split; [done|]. rewrite Hm. split; [apply prefix_cons|apply prefix_cons_inv_2].
    + eexists. split; [done|]. split; [lia|]. intros H%prefix_cons_inv_1. done.
Qed.

Definition dotless (l : list Z) : Prop := Forall (fun c => c <> DOT) l.

Lemma label_dotless l : label_ok l -> dotless l.
Proof. intros [_ H]. apply (Forall_impl _ _ _ H). tauto. Qed.
Lemma label_no_nul l : label_ok l -> Forall (fun c => c <> 0) l.
Proof. intros [_ H]. apply (Forall_impl _ _ _ H). tauto. Qed.

Lemma first_label_unique l l2 a t2 : dotless l -> dotless l2 -> (t2 = [] \/ exists t3, t2 = DOT :: t3) -> l ++ DOT :: a = l2 ++ t2 -> l = l2.
Proof.
  intros H1. revert l2. induction H1 as [|c l Hc H1 IH]; intros l2 H2 Ht E; destruct H2 as [|c2 l2 Hc2 H2]; cbn in E; [done|congruence| |].
  - destruct Ht as [-> |[t3 ->]]; congruence.
  - injection E as -> E. by rewrite (IH l2 H2 Ht E).
Qed.

(** A text that begins with another label. *)
Definition other_label (l : list Z) (t : list Z) : Prop := exists l2 t2, t = l2 ++ t2 /\ label_ok l2 /\ l2 <> l /\ (t2 = [] \/ exists t3, t2 = DOT :: t3).

Definition pattern (l : list Z) (dot : bool) : list Z := l ++ dots dot.

Lemma pattern_no_nul l dot : label_ok l -> Forall (fun c => c <> 0) (pattern l dot).
Proof. intros H. apply Forall_app. split; [by apply label_no_nul|]. by destruct dot; repeat constructor. Qed.

Lemma same_label_stop l dot x t v rest : label_ok l -> other_label l t ->
  same_label (pattern l dot ++ x) (length (pattern l dot)) (length l + 1) dot (text_key t v :: rest) = Some ([], text_key t v :: rest).
Proof.
  intros Hl (l2 & t2 & -> & Hl2 & Hne & Ht2). cbn [same_label text_key k_data]. cbn [mbind option_bind].
  destruct (strncmp_text (pattern l dot) x (l2 ++ t2) [] (pattern_no_nul l dot Hl)) as (m & -> & Hm). cbn [mbind option_bind]. destruct (Z.eqb_spec m 0) as [E|E]; [|done]. cbn [negb].
  apply Hm in E as [z Ez]. unfold pattern in *. destruct dot; cbn [dots] in *; rewrite <- app_assoc in Ez; cbn [app] in Ez.
  - symmetry in Ez. by apply first_label_unique in Ez as ->; [|apply label_dotless..|].
  - rewrite app_nil_r. cbn [negb andb k_len]. destruct z as [|c z].
    + rewrite app_nil_r in Ez. exfalso. destruct Ht2 as [-> |[t3 ->]]; [rewrite app_nil_r in Ez; congruence|]. pose proof (label_dotless l Hl) as Hd. rewrite <- Ez in Hd. apply Forall_app in Hd as [_ Hd]. by apply Forall_cons in Hd as [? _].
    + assert (c <> DOT) as Hc. { intros ->. symmetry in Ez. by apply first_label_unique in Ez as ->; [|apply label_dotless..|]. }
      rewrite Ez, <- app_assoc, lookup_app_r, Nat.sub_diag by lia. cbn.
      destruct (Z.ltb_spec (Z.of_nat (length l)) (Z.of_nat (length (l ++ c :: z)))) as [|Hle]; [|rewrite length_app in Hle; cbn in Hle; lia]. by destruct (Z.eqb_spec c DOT).
Qed.

Lemma same_label_run l dot x ts rs : label_ok l -> Forall (fun y => Z.of_nat (length (wc_text y.1.1 y.1.2)) < 2 ^ 63) ts -> Z.of_nat (length l) < 2 ^ 63 ->
  (rs = [] \/ exists t v rs', rs = text_key t v :: rs' /\ other_label l t) ->
  same_label (pattern l dot ++ x) (length (pattern l dot)) (length l + 1) dot ((under l <$> ts) ++ rs) = Some (name_key <$> ts, rs).
Proof.
  intros Hl Hts Hll Hrs. induction Hts as [|[[ls star] v] ts Ht Hts IH]; cbn [fmap list_fmap app].
  - destruct Hrs as [-> |(t & v & rs' & -> & Ho)]; [done|by apply same_label_stop].
  - cbn [fst snd] in Ht. set (t := wc_text ls star) in *. cbn [same_label under text_key k_data]. fold t. cbn [mbind option_bind].
    destruct (strncmp_text (pattern l dot) x (l ++ DOT :: t) [] (pattern_no_nul l dot Hl)) as (m & -> & Hm). cbn [mbind option_bind].
    assert (m = 0) as ->. { apply Hm. unfold pattern. destruct dot; cbn [dots]; [exists t; by rewrite <- app_assoc|exists (DOT :: t); by rewrite app_nil_r]. } cbn [Z.eqb negb].
    assert ((if negb dot && (Z.of_nat (length (pattern l dot)) <? k_len (text_key (l ++ DOT :: t) v)) then c ← ((l ++ DOT :: t) ++ [0]) !! length (pattern l dot); Some (negb (c =? DOT)) else Some false) = Some false) as Hstop.
    { destruct dot; [done|]. unfold pattern. cbn [dots negb andb k_len text_key]. rewrite app_nil_r. case_match; [|done]. by rewrite <- app_assoc, lookup_app_r, Nat.sub_diag by lia. }
    rewrite Hstop. cbn [mbind option_bind]. rewrite IH. cbn [mbind option_bind k_value]. do 3 f_equal. unfold name_key, text_key. fold t. f_equal.
    + f_equal. rewrite <- app_assoc. replace (length l + 1)%nat with (length (l ++ [DOT])) by (rewrite length_app; done). change ((DOT :: t) ++ [0]) with ([DOT] ++ t ++ [0]). rewrite app_assoc. by rewrite drop_app_length.
    + cbn [text_key k_len]. change (k_len (text_key (l ++ DOT :: t) v)) with (Z.of_nat (length (l ++ DOT :: t))). rewrite length_app. cbn [length]. rewrite wrap_small by lia. lia.
Qed.

(** * The tables of a tree *)

(** The key of a label in a table. *)
Record label_key (k : ngx_hash_key_t) (l : list Z) : Prop := {
  lk_ok : key_ok k;
  lk_name : lower_name k = l;
  lk_hash : k_hash k = ngx_hash_key l;
  lk_present : present k = true;
}.

Definition tag (own : option (bool * Z)) : Z := match own with Some (false, _) => 2 | _ => 3 end.

Fixpoint repr (heap : wc_heap) (ks : list ngx_hash_key_t) (f : forest) : Prop :=
  match f, ks with
  | FNil, [] => True
  | FCons l e f, k :: ks => label_key k l /\ repr_entry heap (k_value k) e /\ repr heap ks f
  | _, _ => False
  end
with repr_entry (heap : wc_heap) (w : Z) (e : entry) : Prop :=
  match e with
  | Leaf star v => w = v + (if star then 1 else 0)
  | Sub own ch => exists a h ks, value_ok a /\ w = a + tag own /\ heap !! a = Some (mk_wc h (own_value own)) /\ represents h ks /\ repr heap ks ch
  end.

Lemma repr_mono heap heap' ks f : heap ⊆ heap' -> repr heap ks f -> repr heap' ks f.
Proof.
  intros Hh. revert ks. induction f as [|l star v f IH|l own ch f IHch IH] using forest_rect'; intros [|k ks]; try done; intros (H1 & H2 & H3); (split_and!; [done| |by apply IH]); [done|].
  destruct H2 as (a & h & ks' & A1 & A2 & A3 & A4 & A5). exists a, h, ks'. split_and!; [done|done|by eapply lookup_weaken|done|by apply IHch].
Qed.


(** How much fuel a tree takes. *)
Fixpoint need (f : forest) : nat := match f with FNil => 1 | FCons _ e f => S (Nat.max (need_entry e) (need f)) end
with need_entry (e : entry) : nat := match e with Leaf _ _ => 0 | Sub _ ch => need ch end.

Lemma label_scan_dot l x n : dotless l -> (length l < n)%nat -> label_scan (l ++ DOT :: x) n = Some (length l, true).
Proof.
  intros H. revert n. induction H as [|c l Hc H IH]; intros n Hn; (destruct n as [|n]; [cbn in Hn; lia|]); cbn [app label_scan length]; [done|].
  destruct (Z.eqb_spec c DOT); [done|]. by rewrite IH by (cbn in Hn; lia).
Qed.

Lemma label_scan_end l x : dotless l -> label_scan (l ++ x) (length l) = Some (length l, false).
Proof. intros H. induction H as [|c l Hc H IH]; [done|]. cbn [app label_scan length]. destruct (Z.eqb_spec c DOT); [done|]. by rewrite IH. Qed.

Lemma label_scan_run l star x : label_ok l -> label_scan ((l ++ dots star) ++ x) (length (l ++ dots star)) = Some (length l, star).
Proof.
  intros H%label_dotless. rewrite <- app_assoc. destruct star; cbn [dots]; [rewrite length_app; apply label_scan_dot; [done|cbn; lia]|]. rewrite app_nil_r. by apply label_scan_end.
Qed.

(** The key that the loop pushes for a label. *)
Definition pushed (data l : list Z) (value : Z) : ngx_hash_key_t := mk_key (Some data) (Z.of_nat (length l)) (ngx_hash_key_lc (take (length l) data)) value.

Lemma pushed_key l x w : label_ok l -> 0 < w < 2 ^ 64 -> label_key (pushed (l ++ x) l w) l.
Proof.
  intros [_ Hl] Hw. assert (ngx_tolower <$> l = l) as Hlow. { rewrite <- (list_fmap_id l) at 2. apply Forall_fmap_ext. apply (Forall_impl _ _ _ Hl). tauto. }
  assert (k_hash (pushed (l ++ x) l w) = ngx_hash_key l) as Hh. { cbn. rewrite take_app_length. unfold ngx_hash_key_lc. rewrite foldl_hash_map, Hlow. done. }
  assert (forall a, 0 <= a -> 0 <= foldl ngx_hash a l) as Hnn. { clear. induction l as [|c l IH]; intros a Ha; [done|]. cbn. apply IH. apply wrap_range. lia. }
  split; [|unfold lower_name; cbn; by rewrite Nat2Z.id, take_app_length|done|done]. split_and!; cbn [pushed k_len k_value k_data]; [lia|rewrite Hh; by apply Hnn|lia|lia|].
  intros d [= <-]. rewrite length_app. lia.
Qed.

Lemma lor_low a b : a mod 4 = 0 -> 0 <= b < 4 -> Z.lor a b = a + b.
Proof.
  intros Hm Hb. pose proof (Z.div_mod a 4 ltac:(lia)) as E. assert (Z.land a b = 0) as Hland.
  { replace b with (Z.land (Z.ones 2) b) by (rewrite Z.land_comm, Z.land_ones by lia; change (2 ^ 2) with 4; apply Z.mod_small; lia). rewrite Z.land_assoc, Z.land_ones by lia. change (2 ^ 2) with 4. by rewrite Hm. }
  rewrite Z.add_nocarry_lxor by done. by rewrite Z.lxor_lor.
Qed.

Lemma tagged_lor a b : value_ok a -> 0 <= b < 4 -> Z.lor a b = a + b /\ 0 < a + b < 2 ^ 64.
Proof. intros [Ha Hm] Hb. split; [by apply lor_low|]. pose proof (Z.div_mod a 4 ltac:(lia)) as E. change (2 ^ 64) with (4 * 4611686018427387904) in *. lia. Qed.

Lemma names_first f x : wf f -> x ∈ names_of f -> exists l t2, wc_text x.1.1 x.1.2 = l ++ t2 /\ label_ok l /\ entry_of l f <> None /\ (t2 = [] \/ exists t3, t2 = DOT :: t3).
Proof.
  induction f as [|l star v f IH|l own ch f IHch IH] using forest_rect'; cbn [names_of entry_names wf entry_of].
  - by intros _ ?%elem_of_nil.
  - intros (Hl & He & _ & Hf) Hx. apply elem_of_app in Hx as [Hx|Hx].
    + apply list_elem_of_singleton in Hx as ->. exists l, (dots star). split_and!; [done|done|by rewrite bool_decide_eq_true_2|]. destruct star; [right; by exists []|by left].
    + destruct (IH Hf Hx) as (l2 & t2 & E & Hl2 & Hn & Ht). exists l2, t2. split_and!; [done|done| |done]. by case_bool_decide.
  - intros (Hl & He & _ & Hf) Hx. rewrite !elem_of_app in Hx. destruct Hx as [[Hx|Hx]|Hx].
    + destruct own as [[star v]|]; [|by apply elem_of_nil in Hx]. apply list_elem_of_singleton in Hx as ->. exists l, (dots star). split_and!; [done|done|by rewrite bool_decide_eq_true_2|]. destruct star; [right; by exists []|by left].
    + apply list_elem_of_fmap in Hx as ([[ls star] v] & -> & Hx). cbn [fst snd]. apply names_labels in Hx as Hne. rewrite wc_text_cons by done. eexists l, _. split_and!; [done|done|by rewrite bool_decide_eq_true_2|]. right. by eexists.
    + destruct (IH Hf Hx) as (l2 & t2 & E & Hl2 & Hn & Ht). exists l2, t2. split_and!; [done|done| |done]. by case_bool_decide.
Qed.

Lemma keys_head f l : wf f -> entry_of l f = None -> keys f = [] \/ exists t v rs, keys f = text_key t v :: rs /\ other_label l t.
Proof.
  intros Hf Hl. unfold keys. destruct (names_of f) as [|[[ls star] v] xs] eqn:E; [by left|]. right. eexists _, v, _. split; [done|].
  destruct (names_first f (ls, star, v) Hf) as (l2 & t2 & Et & Hl2 & Hn & Ht); [rewrite E; by left|]. exists l2, t2. split_and!; [done|done| |done]. intros ->. done.
Qed.

Lemma names_nonempty f : f <> FNil -> wf f -> names_of f <> [].
Proof.
  induction f as [|l star v f IH|l own ch f IHch IH] using forest_rect'; [done|done|]. intros _ (_ & _ & (_ & Hne & Hch) & _) E. cbn in E. apply app_eq_nil in E as [E _]. apply app_eq_nil in E as [_ E]. apply fmap_nil_inv in E. by apply IHch.
Qed.

Definition short_names (f : forest) : Prop := Forall (fun y => Z.of_nat (length (wc_text y.1.1 y.1.2)) < 2 ^ 63) (names_of f).

Lemma short_names_sub l own ch f : short_names (FCons l (Sub own ch) f) -> Forall (fun y => Z.of_nat (length (l ++ DOT :: wc_text y.1.1 y.1.2)) < 2 ^ 63) (names_of ch) /\ short_names f.
Proof.
  unfold short_names. cbn [names_of entry_names]. rewrite !Forall_app. intros [[_ H] Hf]. split; [|done]. rewrite Forall_fmap in H. apply Forall_forall. intros x Hx. pose proof (proj1 (Forall_forall _ _) H x Hx) as Hy.
  destruct x as [[ls star] v]. apply names_labels in Hx. unfold compose in Hy. cbn [fst snd] in *. by rewrite wc_text_cons in Hy.
Qed.

(** The addresses of the first [limit] tables. *)
Definition addresses (addr : nat -> Z) (limit : nat) : Prop :=
  (forall n, (n < limit)%nat -> value_ok (addr n)) /\ (forall n m, (n < limit)%nat -> (m < limit)%nat -> addr n = addr m -> n = m).

(** How many tables a tree takes. *)
Fixpoint tables (f : forest) : nat := match f with FNil => 1 | FCons _ e f => (entry_tables e + tables f)%nat end
with entry_tables (e : entry) : nat := match e with Leaf _ _ => 0 | Sub _ ch => tables ch end.

Section build.
Context (cacheline_shift : Z) (alloc : nat -> nat -> bool) (junk : nat -> Z -> Z) (addr : nat -> Z) (hinit : ngx_hash_init_t).
Context (bucket_size_range : 24 <= bucket_size hinit <= 2 ^ 15) (cacheline_range : 3 <= cacheline_shift <= 15).
Context (limit : nat) (addr_good : addresses addr limit).

Abbreviation loop := (wildcard_loop (2 ^ cacheline_shift) alloc junk addr hinit).

(** The next addresses are free. *)
Definition fresh (st : wc_state) : Prop := forall n, (st_count st <= n < limit)%nat -> st_heap st !! addr n = None.

(** A label that ends a name. *)
Lemma leaf_step fuel l star v f curr st : label_ok l -> wf f -> entry_of l f = None -> Z.of_nat (length l) < 2 ^ 63 ->
  loop (S fuel) (keys (FCons l (Leaf star v) f)) curr st = loop fuel (keys f) (curr ++ [pushed (l ++ dots star ++ [0]) l (if star then Z.lor v 1 else v)]) st.
Proof.
  intros Hl Hf He Hlen. rewrite keys_leaf. cbn [wildcard_loop]. cbn [text_key k_data k_len k_value mbind option_bind]. rewrite Nat2Z.id, label_scan_run by done. cbn [mbind option_bind].
  assert ((if star then (length l + 1)%nat else length l) = length (pattern l star)) as -> by (unfold pattern; rewrite length_app; destruct star; cbn; lia).
  pose proof (same_label_run l star [0] [] (keys f) Hl ltac:(constructor) Hlen (keys_head f l Hf He)) as Hs. cbn [fmap list_fmap app] in Hs. unfold pattern in *. rewrite Hs. cbn [mbind option_bind].
  unfold pattern. rewrite Z.eqb_refl. unfold pushed. by rewrite <- app_assoc.
Qed.

(** A label that other labels follow. *)
Lemma sub_step fuel l own ch f curr st : label_ok l -> wf f -> entry_of l f = None -> wf ch -> ch <> FNil -> Z.of_nat (length l) < 2 ^ 63 -> short_names ch ->
  exists x v, (match own with Some (_, v') => v = v' | None => True end) /\
  loop (S fuel) (keys (FCons l (Sub own ch) f)) curr st =
    (r ← loop fuel (keys ch) [] st;
     match r with
     | None => Some None
     | Some (wdc, st) =>
         st ← set_value (match own with Some _ => true | None => false end) wdc v st;
         loop fuel (keys f) (curr ++ [pushed (l ++ x) l (Z.lor wdc (tag own))]) st
     end).
Proof.
  intros Hl Hf He Hch Hne Hlen Hs. rewrite keys_sub. pose proof (names_nonempty ch Hne Hch) as Hnn. destruct own as [[star v]|].
  - exists (dots star ++ [0]), v. split; [done|]. cbn [app wildcard_loop]. cbn [text_key k_data k_len k_value mbind option_bind]. rewrite Nat2Z.id, label_scan_run by done. cbn [mbind option_bind].
    assert ((if star then (length l + 1)%nat else length l) = length (pattern l star)) as -> by (unfold pattern; rewrite length_app; destruct star; cbn; lia).
    pose proof (same_label_run l star [0] (names_of ch) (keys f) Hl Hs Hlen (keys_head f l Hf He)) as E. unfold pattern in *. rewrite E. cbn [mbind option_bind].
    unfold pattern. rewrite Z.eqb_refl. fold (keys ch). destruct (keys ch) as [|k ks] eqn:Ek; [by apply fmap_nil_inv in Ek|]. unfold pushed, tag. rewrite <- app_assoc. by destruct star.
  - destruct (names_of ch) as [|x0 xs] eqn:En; [done|]. destruct x0 as [[ls star] v]. exists (DOT :: wc_text ls star ++ [0]), v. split; [done|]. cbn [fmap list_fmap app under wildcard_loop].
    set (t := wc_text ls star). cbn [text_key k_data k_len k_value mbind option_bind].
    assert (t <> []) as Ht. { destruct (names_first ch (ls, star, v) Hch) as (l2 & t2 & E & [Hl2 _] & _); [rewrite En; by left|]. cbn [fst snd] in E. fold t in E. rewrite E. by destruct l2. }
    rewrite Nat2Z.id, <- app_assoc. cbn [app]. rewrite label_scan_dot by (by apply label_dotless || (rewrite length_app; cbn; lia)). cbn [mbind option_bind].
    assert ((length l + 1)%nat = length (pattern l true)) as Hpl by (unfold pattern; rewrite length_app; done).
    pose proof (same_label_run l true (t ++ [0]) xs (keys f) Hl) as E. unfold short_names in Hs. rewrite En in Hs. apply Forall_cons in Hs as [Hs0 Hs]. specialize (E Hs Hlen (keys_head f l Hf He)). rewrite <- Hpl in E.
    unfold pattern in E. rewrite <- app_assoc in E. cbn [dots app] in E. rewrite E. cbn [mbind option_bind]. rewrite length_app. cbn [length].
    destruct (Z.eqb_spec (Z.of_nat (length l + S (length t))) (Z.of_nat (length l + 1))) as [E0|_]; [exfalso; destruct t; [done|cbn in E0; lia]|].
    assert (keys ch = text_key t v :: (name_key <$> xs)) as -> by (unfold keys; by rewrite En). unfold text_key, pushed, tag.
    assert (drop (length l + 1) (l ++ DOT :: t ++ [0]) = t ++ [0]) as ->. { replace (length l + 1)%nat with (length (l ++ [DOT])) by (rewrite length_app; done). change (l ++ DOT :: t ++ [0]) with (l ++ [DOT] ++ t ++ [0]). rewrite app_assoc. apply drop_app_length. }
    assert (Z.of_nat (length (l ++ DOT :: t)) - Z.of_nat (length l + 1) = Z.of_nat (length t)) as Hlt by (rewrite length_app; cbn; lia). rewrite ?Hlt. 
    replace (Z.of_nat (length l + S (length t)) - Z.of_nat (length l + 1)) with (Z.of_nat (length t)) by lia. done.
Qed.

(** What the loop makes of a tree. *)
Definition built (st : wc_state) (curr : list ngx_hash_key_t) (f : forest) (r : option (Z * wc_state)) : Prop :=
  forall a st', r = Some (a, st') -> exists h ks heap, represents h (curr ++ ks) /\ repr heap ks f /\ heap !! a = None /\ value_ok a /\
    st_heap st' = <[a := mk_wc h 0]> heap /\ st_heap st ⊆ heap /\ fresh st' /\ st_count st' = (st_count st + tables f)%nat.

Lemma init_table_run names st : Forall key_ok names -> fresh st -> (st_count st < limit)%nat -> exists r, init_table (2 ^ cacheline_shift) alloc junk addr hinit names st = Some r /\
  forall a st', r = Some (a, st') -> exists h, represents h names /\ a = addr (st_count st) /\ st_heap st' = <[a := mk_wc h 0]> (st_heap st) /\ fresh st' /\ st_count st' = S (st_count st).
Proof.
  intros Hn Hf Hlim. unfold init_table. destruct (hash_init_run cacheline_shift (alloc (st_count st)) (junk (st_count st)) hinit names bucket_size_range cacheline_range Hn) as ([h|] & -> & Hr); cbn [mbind option_bind]; [|by eexists].
  eexists. split; [done|]. intros a st' [= <- <-]. exists h. split_and!; [by apply Hr|done|done| |done]. intros n Hc. cbn in *. rewrite lookup_insert_ne by (intros E; apply (proj2 addr_good) in E; lia). apply Hf. lia.
Qed.

Lemma built_push st0 st curr k l e f r : st_heap st0 ⊆ st_heap st -> st_count st = (st_count st0 + entry_tables e)%nat -> label_key k l -> repr_entry (st_heap st) (k_value k) e -> built st (curr ++ [k]) f r -> built st0 curr (FCons l e f) r.
Proof.
  intros Hsub Hcnt Hk He Hr a st' E. destruct (Hr a st' E) as (h & ks & heap & B1 & B2 & B3 & B4 & B5 & B6 & B7 & B8). exists h, (k :: ks), heap. split_and!; [by rewrite <- app_assoc in B1| |done|done|done|by etransitivity|done|cbn [tables]; lia].
  split_and!; [done| |done]. destruct e as [star v|own ch]; [done|]. destruct He as (a' & h' & ks' & A1 & A2 & A3 & A4 & A5). exists a', h', ks'. split_and!; [done|done|by eapply lookup_weaken|done|by eapply repr_mono].
Qed.

Lemma wildcard_run f : wf f -> short_names f -> forall fuel curr st, (need f <= fuel)%nat -> Forall key_ok curr -> fresh st -> (st_count st + tables f <= limit)%nat -> exists r, loop fuel (keys f) curr st = Some r /\ built st curr f r.
Proof.
  induction f as [|l star v f IH|l own ch f IHch IH] using forest_rect'; intros Hwf Hsn fuel curr st Hfuel Hcurr Hst Hlim; cbn [need need_entry tables entry_tables] in Hfuel, Hlim; (destruct fuel as [|fuel]; [lia|]).
  - cbn [keys names_of fmap list_fmap wildcard_loop]. case_match; [exists None; split; [done|]; by intros a st'|]. destruct (init_table_run curr st Hcurr Hst ltac:(lia)) as (r & -> & Hr). exists r. split; [done|].
    intros a st' E. destruct (Hr a st' E) as (h & H1 & -> & H3 & H4 & H5). exists h, [], (st_heap st). rewrite app_nil_r. split_and!; [done|done|apply Hst; lia|apply (proj1 addr_good); lia|done|done|done|cbn [tables]; lia].
  - destruct Hwf as (Hl & He & Hv & Hf). apply Forall_cons in Hsn as [Hs0 Hsn]. cbn [fst snd] in Hs0. rewrite wc_text_one, length_app in Hs0. rewrite leaf_step by (done || lia).
    destruct (tagged_lor v 1 Hv ltac:(lia)) as [Hor Hr]. assert (label_key (pushed (l ++ dots star ++ [0]) l (if star then Z.lor v 1 else v)) l) as Hk.
    { apply pushed_key; [done|]. rewrite Hor. destruct Hv as [Hv _]. destruct star; lia. }
    destruct (IH Hf Hsn fuel (curr ++ [pushed (l ++ dots star ++ [0]) l (if star then Z.lor v 1 else v)]) st) as (r & -> & Hb); [lia|apply Forall_app; split; [done|]; apply Forall_singleton, Hk|done|done|].
    exists r. split; [done|]. eapply built_push; [done|cbn; lia|done| |done]. cbn [repr_entry pushed k_value]. rewrite Hor. destruct star; lia.
  - destruct Hwf as (Hl & He & (Hown & Hne & Hch) & Hf). destruct (short_names_sub _ _ _ _ Hsn) as [Hsl Hsf].
    assert (short_names ch) as Hsch. { apply (Forall_impl _ _ _ Hsl). intros y Hy. rewrite length_app in Hy. cbn in Hy. lia. }
    assert (Z.of_nat (length l) < 2 ^ 63) as Hll. { destruct (names_of ch) as [|y ys] eqn:E; [by destruct (names_nonempty ch Hne Hch)|]. apply Forall_cons in Hsl as [Hy _]. rewrite length_app in Hy. lia. }
    destruct (sub_step fuel l own ch f curr st Hl Hf He Hch Hne Hll Hsch) as (x & v & Hv & ->).
    destruct (IHch Hch Hsch fuel [] st) as (r1 & -> & Hb1); [lia|done|done|lia|]. cbn [mbind option_bind]. destruct r1 as [[wdc st1]|]; [|exists None; split; [done|]; by intros a st'].
    destruct (Hb1 wdc st1 eq_refl) as (h & ks & heap & B1 & B2 & B3 & B4 & B5 & B6 & B7 & B8). cbn [app] in B1.
    assert (exists st2, set_value (match own with Some _ => true | None => false end) wdc v st1 = Some st2 /\ st_heap st2 = <[wdc := mk_wc h (own_value own)]> heap /\ fresh st2 /\ st_count st2 = st_count st1) as (st2 & -> & Hh2 & Hf2 & Hc2).
    { destruct own as [[star v']|]; cbn [set_value]; [|by exists st1]. rewrite B5, lookup_insert_eq. cbn [mbind option_bind wc_hash]. eexists. split; [done|]. cbn [st_heap]. split_and!; [rewrite insert_insert_eq; by rewrite Hv| |done].
      intros n Hc. cbn [st_count st_heap] in *. specialize (B7 n Hc). rewrite B5 in B7. apply lookup_insert_None in B7 as [Hn1 Hn2]. by rewrite !lookup_insert_ne by done. }
    cbn [mbind option_bind]. destruct (tagged_lor wdc (tag own) B4) as [Hor Hr]; [destruct own as [[[] ?]|]; cbn; lia|].
    assert (label_key (pushed (l ++ x) l (Z.lor wdc (tag own))) l) as Hk by (apply pushed_key; [done|by rewrite Hor]).
    assert (heap ⊆ st_heap st2) as Hsub by (rewrite Hh2; by apply insert_subseteq).
    destruct (IH Hf Hsf fuel (curr ++ [pushed (l ++ x) l (Z.lor wdc (tag own))]) st2) as (r & -> & Hb); [lia|apply Forall_app; split; [done|]; apply Forall_singleton, Hk|done|lia|].
    exists r. split; [done|]. eapply built_push; [by etransitivity|cbn [entry_tables]; lia|done| |done]. exists wdc, h, ks. split_and!; [done|cbn; done|rewrite Hh2; apply lookup_insert_eq|done|by eapply repr_mono].
Qed.

(** The fuel that [ngx_hash_wildcard_init] gives is enough. *)
Lemma need_le f : wf f -> (need f <= names_weight (keys f) + 1)%nat.
Proof.
  induction f as [|l star v f IH|l own ch f IHch IH] using forest_rect'; [cbn; lia|..].
  - intros (Hl & _ & _ & Hf). specialize (IH Hf). rewrite keys_leaf. cbn [need need_entry names_weight sum_list_with] in *. unfold names_weight in IH. lia.
  - intros (Hl & _ & (_ & Hne & Hch) & Hf). specialize (IH Hf). specialize (IHch Hch). rewrite keys_sub. unfold names_weight in *. rewrite !sum_list_with_app.
    assert (sum_list_with (fun k => (Z.to_nat (k_len k) + 2)%nat) (keys ch) + 1 <= sum_list_with (fun k => (Z.to_nat (k_len k) + 2)%nat) (under l <$> names_of ch))%nat as Hw.
    { unfold keys. pose proof (names_nonempty ch Hne Hch) as Hnn. clear -Hnn. destruct (names_of ch) as [|x xs]; [done|]. clear Hnn.
      assert (forall x, (Z.to_nat (k_len (name_key x)) + 1 <= Z.to_nat (k_len (under l x)))%nat) as Hx by (intros [[ls star] v]; cbn [under name_key text_key k_len]; rewrite !Nat2Z.id, length_app; cbn; lia).
      cbn [fmap list_fmap sum_list_with]. pose proof (Hx x). assert (sum_list_with (fun k => (Z.to_nat (k_len k) + 2)%nat) (name_key <$> xs) <= sum_list_with (fun k => (Z.to_nat (k_len k) + 2)%nat) (under l <$> xs))%nat; [|lia].
      clear -Hx. induction xs as [|y ys IH]; [done|]. cbn [fmap list_fmap sum_list_with]. pose proof (Hx y). lia. }
    cbn [need need_entry]. lia.
Qed.

End build.

(** * Finding in a tree *)

Fixpoint split_dots (name : list Z) : list (list Z) :=
  match name with
  | [] => [[]]
  | c :: name => if c =? DOT then [] :: split_dots name else match split_dots name with [] => [[c]] | l :: ls => (c :: l) :: ls end
  end.

Lemma split_dotless b : dotless b -> split_dots b = [b].
Proof. induction 1 as [|c b Hc _ IH]; [done|]. cbn. destruct (Z.eqb_spec c DOT); [done|]. by rewrite IH. Qed.

Lemma split_nonempty b : split_dots b <> [].
Proof. destruct b as [|c b]; [done|]. cbn. case_match; [done|]. by case_match. Qed.

Lemma split_app a b : split_dots (a ++ DOT :: b) = split_dots a ++ split_dots b.
Proof.
  induction a as [|c a IH]; [done|]. cbn [app split_dots]. destruct (c =? DOT); [by rewrite IH|]. rewrite IH. pose proof (split_nonempty a). by destruct (split_dots a).
Qed.

Lemma after_dot_run name m : (m <= length name)%nat -> exists n, after_dot name m = Some n /\ (n <= m)%nat /\ dotless (drop n (take m name)) /\ (n = 0%nat \/ exists p, n = S p /\ name !! p = Some DOT).
Proof.
  induction m as [|m IH]; intros Hm; cbn [after_dot]; [exists 0%nat; split_and!; [done|lia|constructor|by left]|].
  destruct (lookup_lt_is_Some_2 name m) as [c Hc]; [lia|]. rewrite Hc. cbn [mbind option_bind]. destruct (Z.eqb_spec c DOT) as [-> |Hn].
  - exists (S m). split_and!; [done|lia| |right; by exists m]. rewrite drop_ge by (rewrite length_take; lia). constructor.
  - destruct IH as (n & -> & H1 & H2 & H3); [lia|]. exists n. split_and!; [done|lia| |done]. rewrite (take_S_r _ _ c) by done. rewrite drop_app_le by (rewrite length_take; lia). apply Forall_app. split; [done|]. by apply Forall_singleton.
Qed.

(** The last label of a name, and the rest. *)
Lemma after_dot_spec name : exists n, after_dot name (length name) = Some n /\ dotless (drop n name) /\
  ((n = 0%nat /\ split_dots name = [drop n name]) \/ (0 < n <= length name /\ split_dots name = split_dots (take (n - 1) name) ++ [drop n name])%nat).
Proof.
  destruct (after_dot_run name (length name)) as (n & H1 & H2 & H3 & H4); [done|]. rewrite firstn_all in H3. exists n. split_and!; [done|done|]. destruct H4 as [-> |(p & -> & Hp)].
  - left. split; [done|]. by apply split_dotless.
  - right. split; [lia|]. rewrite <- (take_drop_middle _ _ _ Hp) at 1. rewrite split_app, (split_dotless _ H3). by replace (S p - 1)%nat with p by lia.
Qed.

Lemma tagged_parts a b : a mod 4 = 0 -> 0 <= b < 4 -> is_table (a + b) = (2 <=? b) /\ head_only (a + b) = Z.odd b /\ untagged (a + b) = a.
Proof.
  intros Ha Hb. rewrite <- lor_low by done. unfold is_table, head_only, untagged. rewrite !Z.land_lor_distr_l.
  assert (Z.land a 3 = 0) as H3 by (change 3 with (Z.ones 2); rewrite Z.land_ones by lia; done).
  assert (Z.land a 2 = 0) as -> by (change 2 with (Z.land 3 2); by rewrite Z.land_assoc, H3). assert (Z.land a 1 = 0) as -> by (change 1 with (Z.land 3 1); by rewrite Z.land_assoc, H3).
  assert (Z.land a (Z.lnot 3) = a) as ->.
  { change 3 with (Z.ones 2). rewrite <- Z.ldiff_land, Z.ldiff_ones_r, Z.shiftl_mul_pow2, Z.shiftr_div_pow2 by lia. change (2 ^ 2) with 4. pose proof (Z.div_mod a 4). lia. }
  assert (b = 0 \/ b = 1 \/ b = 2 \/ b = 3) as [-> |[-> |[-> | ->]]] by lia; split_and!; try done; apply Z.lor_0_r.
Qed.

(** The words of the labels of a table. *)
Lemma first_word heap ks f l : repr heap ks f -> wf f ->
  match entry_of l f with
  | None => first_value (filter (fun k => present k = true) ks) l = 0
  | Some e => repr_entry heap (first_value (filter (fun k => present k = true) ks) l) e /\ wf_entry e
  end.
Proof.
  revert ks. induction f as [|l' star v f IH|l' own ch f _ IH] using forest_rect'; intros [|k ks]; try done; intros (H1 & H2 & H3) (W1 & W2 & W3 & W4);
    cbn [entry_of]; rewrite filter_cons, decide_True by apply H1; cbn [first_value]; rewrite (lk_name _ _ H1); (case_bool_decide; [done|by apply IH]).
Qed.

Lemma find_word heap h ks f l : represents h ks -> repr heap ks f -> wf f -> exists w, ngx_hash_find h (ngx_hash_key l) l = Some w /\
  match entry_of l f with None => w = 0 | Some e => repr_entry heap w e /\ wf_entry e end.
Proof.
  intros Hh Hr Hf. assert (0 <= ngx_hash_key l) as Hk. { unfold ngx_hash_key. assert (forall a, 0 <= a -> 0 <= foldl ngx_hash a l) as Hnn; [|by apply Hnn]. clear. induction l as [|c l IH]; intros a Ha; [done|]. cbn. apply IH, wrap_range. lia. }
  rewrite (Hh (ngx_hash_key l) l Hk). rewrite first_value_bucket; [eexists; split; [done|by apply first_word]|].
  clear -Hr. revert ks Hr. induction f as [|l' star v f IH|l' own ch f _ IH] using forest_rect'; intros [|k ks]; try done; intros (H1 & H2 & H3); (constructor; [intros _; rewrite (lk_name _ _ H1); apply H1|by apply IH]).
Qed.

Lemma entry_word heap w e : repr_entry heap w e -> wf_entry e -> w <> 0.
Proof. destruct e as [star v|own ch]; cbn; [intros -> [? _]; destruct star; lia|]. intros (a & h & ks & [Ha _] & -> & _) _. destruct own as [[[] ?]|]; cbn; lia. Qed.

(** What a name finds: the labels in the order of the search. *)
Fixpoint look (f : forest) (q : list (list Z)) : Z :=
  match f, q with
  | FCons l e f', l' :: q' => if bool_decide (l' = l) then look_entry e q' else look f' q
  | _, _ => 0
  end
with look_entry (e : entry) (q : list (list Z)) : Z :=
  match e with
  | Leaf star v => if star && bool_decide (q = []) then 0 else v
  | Sub own ch =>
      if bool_decide (q = []) then match own with Some (false, v) => v | _ => 0 end
      else if look ch q =? 0 then own_value own else look ch q
  end.

Lemma look_of f l q : look f (l :: q) = match entry_of l f with Some e => look_entry e q | None => 0 end.
Proof. induction f as [|l' star v f IH|l' own ch f _ IH] using forest_rect'; [done|..]; cbn [look entry_of]; (case_bool_decide; [done|apply IH]). Qed.

(** A search below a table gives what the tree gives, or else nothing or the value of the
    table. *)
Lemma find_head_run fuel heap f ks h tv name : represents h ks -> repr heap ks f -> wf f -> (length name < fuel)%nat ->
  exists r, find_wc_head fuel heap (mk_wc h tv) name = Some r /\ (r = look f (reverse (split_dots name)) \/ look f (reverse (split_dots name)) = 0 /\ r = tv).
Proof.
  revert f ks h tv name. induction fuel as [|fuel IH]; intros f ks h tv name Hh Hr Hf Hn; [lia|]. cbn [find_wc_head wc_hash wc_value].
  destruct (after_dot_spec name) as (n & -> & Hd & Hs). cbn [mbind option_bind]. set (part := drop n name) in *.
  destruct (find_word heap h ks f part Hh Hr Hf) as (w & -> & Hw). cbn [mbind option_bind].
  assert (exists q, reverse (split_dots name) = part :: q /\ (n = 0%nat <-> q = []) /\ (n <> 0%nat -> q = reverse (split_dots (take (n - 1) name)) /\ (length (take (n - 1) name) < length name)%nat)) as (q & -> & Hq & Hq').
  { destruct Hs as [[-> ->]|[Hn0 ->]]; [exists []; split_and!; [done|done|done]|]. exists (reverse (split_dots (take (n - 1) name))). rewrite reverse_app. split_and!; [done| |intros _; split; [done|rewrite length_take; lia]].
    split; [lia|]. intros E. apply (f_equal reverse) in E. rewrite reverse_involutive in E. by apply split_nonempty in E. }
  rewrite look_of. destruct (entry_of part f) as [e|]; [|subst w; eexists; split; [done|]; by right]. destruct Hw as [Hw We]. pose proof (entry_word _ _ _ Hw We). destruct (Z.eqb_spec w 0); [done|]. cbn [negb].
  destruct e as [star v|own ch]; cbn [repr_entry wf_entry] in Hw, We.
  - destruct We as [_ Hm]. subst w. destruct (tagged_parts v (if star then 1 else 0) Hm) as (-> & -> & ->); [destruct star; lia|]. cbn [look_entry]. destruct star; cbn [Z.odd Z.leb Z.compare Pos.compare Pos.compare_cont andb].
    + eexists. split; [done|]. left. destruct (Nat.eqb_spec n 0) as [E|E]; [by rewrite bool_decide_eq_true_2 by tauto|by rewrite bool_decide_eq_false_2 by tauto].
    + eexists. split; [done|]. left. lia.
  - destruct Hw as (a & h' & ks' & [_ Hm] & -> & Ha & Hh' & Hr'). destruct We as (_ & _ & Hch).
    destruct (tagged_parts a (tag own) Hm) as (-> & -> & ->); [destruct own as [[[] ?]|]; cbn; lia|]. assert ((2 <=? tag own) = true) as -> by (by destruct own as [[[] ?]|]). rewrite Ha. cbn [look_entry mbind option_bind wc_value].
    destruct (Nat.eqb_spec n 0) as [E|E].
    + rewrite bool_decide_eq_true_2 by tauto. by destruct own as [[[] ?]|]; (eexists; split; [done|left]).
    + rewrite bool_decide_eq_false_2 by tauto. destruct (Hq' E) as [-> Hlt]. destruct (IH ch ks' h' (own_value own) (take (n - 1) name) Hh' Hr' Hch) as (r & -> & Hrr); [lia|]. cbn [mbind option_bind].
      eexists. split; [done|]. left. destruct Hrr as [-> |[-> ->]]; [by destruct (Z.eqb_spec (look ch (reverse (split_dots (take (n - 1) name)))) 0) as [-> |]|]. rewrite Z.eqb_refl. by case_match.
Qed.

(** ** Wildcards at the end *)

(** The names of a table for the end of a name have no star; each stands for names that go
    on. *)
Fixpoint starless (f : forest) : Prop :=
  match f with FNil => True | FCons _ e f => starless_entry e /\ starless f end
with starless_entry (e : entry) : Prop :=
  match e with
  | Leaf star _ => star = false
  | Sub own ch => (match own with Some (star, _) => star = false | None => True end) /\ starless ch
  end.

Fixpoint starred (f : forest) : forest :=
  match f with FNil => FNil | FCons l e f => FCons l (starred_entry e) (starred f) end
with starred_entry (e : entry) : entry :=
  match e with
  | Leaf _ v => Leaf true v
  | Sub own ch => Sub (match own with Some (_, v) => Some (true, v) | None => None end) (starred ch)
  end.

Lemma starred_of l f : entry_of l (starred f) = starred_entry <$> entry_of l f.
Proof. induction f as [|l' star v f IH|l' own ch f _ IH] using forest_rect'; [done|..]; cbn [starred entry_of]; (case_bool_decide; [done|apply IH]). Qed.

Lemma starless_of l f e : starless f -> entry_of l f = Some e -> starless_entry e.
Proof. induction f as [|l' star v f IH|l' own ch f _ IH] using forest_rect'; [done|..]; cbn [starless entry_of]; intros [H1 H2]; (case_bool_decide; [by intros [= <-]|by apply IH]). Qed.

Lemma starred_names f : names_of (starred f) = (fun '(ls, _, v) => (ls, true, v)) <$> names_of f.
Proof.
  induction f as [|l star v f IH|l own ch f IHch IH] using forest_rect'; [done|cbn; by rewrite IH|]. cbn [starred starred_entry names_of entry_names]. rewrite !fmap_app, IH, IHch. f_equal. f_equal; [by destruct own as [[star v]|]|].
  rewrite <- !list_fmap_compose. apply list_fmap_ext. by intros i [[ls star] v] _.
Qed.

Lemma starred_wf f : wf f -> wf (starred f).
Proof.
  induction f as [|l star v f IH|l own ch f IHch IH] using forest_rect'; [done|..]; cbn [starred starred_entry wf wf_entry]; rewrite starred_of; intros (H1 & -> & H3 & H4); split_and!; auto.
  - by destruct own as [[star v]|]; destruct H3.
  - destruct H3 as (_ & H3 & _). by destruct ch.
  - by apply IHch, H3.
Qed.

Lemma before_dot_spec name : dotless (before_dot name) /\ ((before_dot name = name) \/ name = before_dot name ++ DOT :: drop (length (before_dot name) + 1) name).
Proof.
  induction name as [|c name [IH1 IH2]]; [split; [constructor|by left]|]. cbn [before_dot]. destruct (Z.eqb_spec c DOT) as [-> |Hc]; [split; [constructor|by right]|]. split; [by constructor|].
  destruct IH2 as [-> |IH2]; [by left|]. right. cbn [length Nat.add app drop]. by rewrite <- IH2.
Qed.

Lemma find_tail_run fuel heap f ks h tv name : represents h ks -> repr heap ks f -> wf f -> starless f -> (length name < fuel)%nat ->
  exists r, find_wc_tail fuel heap (mk_wc h tv) name = Some r /\ (r = look (starred f) (split_dots name) \/ look (starred f) (split_dots name) = 0 /\ r = tv).
Proof.
  revert f ks h tv name. induction fuel as [|fuel IH]; intros f ks h tv name Hh Hr Hf Hsl Hn; [lia|]. cbn [find_wc_tail wc_hash wc_value].
  destruct (before_dot_spec name) as [Hd Hs]. set (part := before_dot name) in *. destruct Hs as [E|E].
  { rewrite E, Nat.eqb_refl. rewrite E in Hd. rewrite (split_dotless _ Hd), look_of, starred_of. exists 0. split; [done|]. left. destruct (entry_of name f) as [[star v|[[star v]|] ch]|]; done. }
  destruct (Nat.eqb_spec (length part) (length name)) as [El|_]; [rewrite E, length_app in El; cbn in El; lia|].
  destruct (find_word heap h ks f part Hh Hr Hf) as (w & -> & Hw). cbn [mbind option_bind]. set (rest := drop (length part + 1) name) in *.
  assert (split_dots name = part :: split_dots rest) as -> by (rewrite E, split_app, (split_dotless _ Hd); done). rewrite look_of, starred_of.
  destruct (entry_of part f) as [e|] eqn:He; [|subst w; eexists; split; [done|]; by right]. destruct Hw as [Hw We]. pose proof (entry_word _ _ _ Hw We). destruct (Z.eqb_spec w 0); [done|]. cbn [negb].
  pose proof (starless_of _ _ _ Hsl He) as Hse. pose proof (split_nonempty rest) as Hne. destruct e as [star v|own ch]; cbn [repr_entry wf_entry starless_entry] in Hw, We, Hse; cbn [fmap option_fmap option_map starred_entry look_entry].
  - destruct We as [_ Hm]. subst w star. destruct (tagged_parts v 0 Hm) as (-> & _ & _); [lia|]. rewrite bool_decide_eq_false_2 by done. eexists. split; [done|]. left. cbn. lia.
  - destruct Hw as (a & h' & ks' & [_ Hm] & -> & Ha & Hh' & Hr'). destruct We as (_ & _ & Hch). destruct Hse as [_ Hsc].
    destruct (tagged_parts a (tag own) Hm) as (-> & _ & ->); [destruct own as [[[] ?]|]; cbn; lia|]. assert ((2 <=? tag own) = true) as -> by (by destruct own as [[[] ?]|]). rewrite Ha. cbn [mbind option_bind wc_value].
    rewrite bool_decide_eq_false_2 by done. destruct (IH ch ks' h' (own_value own) rest Hh' Hr' Hch Hsc) as (r & -> & Hrr); [unfold rest; rewrite length_drop; rewrite E, length_app in Hn; cbn in Hn; rewrite E, length_app; cbn; lia|]. cbn [mbind option_bind].
    assert (own_value (match own with Some (_, v) => Some (true, v) | None => None end) = own_value own) as -> by (by destruct own as [[? ?]|]).
    eexists. split; [done|]. left. destruct Hrr as [-> |[-> ->]]; [by destruct (Z.eqb_spec (look (starred ch) (split_dots rest)) 0) as [-> |]|]. rewrite Z.eqb_refl. by case_match.
Qed.

(** * The longest name *)

(** A name stands for the names that begin with its labels, and go on if it has a star. *)
Definition matches (q : list (list Z)) (x : list (list Z) * bool * Z) : Prop := x.1.1 `prefix_of` q /\ (x.1.2 = true -> x.1.1 <> q).

Definition longest (names : list (list (list Z) * bool * Z)) (q : list (list Z)) (v : Z) : Prop :=
  (v = 0 /\ forall x, x ∈ names -> ~ matches q x) \/
  (v <> 0 /\ exists x, x ∈ names /\ matches q x /\ x.2 = v /\ forall y, y ∈ names -> matches q y -> (length y.1.1 <= length x.1.1)%nat).

Lemma names_entry f x : x ∈ names_of f -> exists l ls, x.1.1 = l :: ls /\ entry_of l f <> None.
Proof.
  induction f as [|l star v f IH|l own ch f IHch IH] using forest_rect'; cbn [names_of entry_names entry_of]; [by intros ?%elem_of_nil|..]; intros Hx; apply elem_of_app in Hx as [Hx|Hx].
  2, 4: destruct (IH Hx) as (l' & ls & E & Hn); exists l', ls; split; [done|by case_bool_decide].
  - apply list_elem_of_singleton in Hx as ->. exists l, []. by rewrite bool_decide_eq_true_2.
  - apply elem_of_app in Hx as [Hx|Hx].
    + destruct own as [[star v]|]; [|by apply elem_of_nil in Hx]. apply list_elem_of_singleton in Hx as ->. exists l, []. by rewrite bool_decide_eq_true_2.
    + apply list_elem_of_fmap in Hx as ([[ls star] v] & -> & _). exists l, ls. by rewrite bool_decide_eq_true_2.
Qed.

(** Names that do not match do not matter. *)
Lemma longest_app_l names names' q v : (forall x, x ∈ names' -> ~ matches q x) -> longest names q v -> longest (names ++ names') q v.
Proof.
  intros Hn [[-> H]|(Hv & x & Hx & Hm & E & H)]; [left; split; [done|]; intros x [?|?]%elem_of_app; auto|]. right. split; [done|]. exists x. split_and!; [apply elem_of_app; by left|done|done|].
  intros y [Hy|Hy]%elem_of_app Hmy; [auto|]. by destruct (Hn y Hy).
Qed.

Lemma longest_app_r names names' q v : (forall x, x ∈ names -> ~ matches q x) -> longest names' q v -> longest (names ++ names') q v.
Proof.
  intros Hn [[-> H]|(Hv & x & Hx & Hm & E & H)]; [left; split; [done|]; intros x [?|?]%elem_of_app; auto|]. right. split; [done|]. exists x. split_and!; [apply elem_of_app; by right|done|done|].
  intros y [Hy|Hy]%elem_of_app Hmy; [by destruct (Hn y Hy)|auto].
Qed.

Lemma matches_cons l ls star v q : matches (l :: q) (l :: ls, star, v) <-> matches q (ls, star, v).
Proof.
  unfold matches. cbn. split; intros [H1 H2]; (split; [|intros Hs E; apply (H2 Hs); congruence]); [by apply prefix_cons_inv_2 in H1|by apply prefix_cons].
Qed.

Lemma not_matches_nil x : x.1.1 <> [] -> ~ matches [] x.
Proof. intros H [[k E] _]. symmetry in E. by apply app_eq_nil in E as [? _]. Qed.

Lemma one_longest l star v q : v <> 0 -> longest [([l], star, v)] (l :: q) (if star && bool_decide (q = []) then 0 else v).
Proof.
  intros Hv. destruct (star && bool_decide (q = [])) eqn:E.
  - apply andb_true_iff in E as [-> ->%bool_decide_eq_true]. left. split; [done|]. intros x ->%list_elem_of_singleton [_ H]. by apply H.
  - right. split; [done|]. exists ([l], star, v). split_and!; [by left| |done|intros y ->%list_elem_of_singleton; done]. split; [apply prefix_cons, prefix_nil|]. cbn. intros -> [= <-]. done.
Qed.

(** The names of a label that other labels follow. *)
Lemma sub_longest l own ch q : (match own with Some (_, v) => value_ok v | None => True end) -> longest (names_of ch) q (look ch q) ->
  longest (entry_names l (Sub own ch)) (l :: q) (look_entry (Sub own ch) q).
Proof.
  intros Hown Hch. cbn [entry_names look_entry]. set (sub := (fun '(ls, star, v) => (l :: ls, star, v)) <$> names_of ch).
  assert (forall x, x ∈ sub -> exists y, y ∈ names_of ch /\ x.1.1 = l :: y.1.1 /\ x.2 = y.2 /\ (matches (l :: q) x <-> matches q y)) as Hsub.
  { intros x ([[ls star] v] & -> & Hy)%list_elem_of_fmap. exists (ls, star, v). split_and!; [done|done|done|apply matches_cons]. }
  destruct (bool_decide (q = [])) eqn:Eq.
  - apply bool_decide_eq_true in Eq as ->. apply longest_app_l; [intros x Hx; destruct (Hsub x Hx) as (y & Hy & _ & _ & ->); by apply not_matches_nil, (names_labels ch)|].
    destruct own as [[star v]|]; [|left; by split; [|intros x ?%elem_of_nil]]. destruct Hown as [Hv _]. pose proof (one_longest l star v [] ltac:(lia)) as H. rewrite bool_decide_eq_true_2, andb_true_r in H by done. by destruct star.
  - destruct (Z.eqb_spec (look ch q) 0) as [E0|E0].
    + apply longest_app_l.
      * intros x Hx. destruct (Hsub x Hx) as (y & Hy & _ & _ & ->). rewrite E0 in Hch. destruct Hch as [[_ H]|[H _]]; [by apply H|done].
      * destruct own as [[star v]|]; [|left; by split; [|intros x ?%elem_of_nil]]. destruct Hown as [Hv _]. pose proof (one_longest l star v q ltac:(lia)) as H. by rewrite Eq, andb_false_r in H.
    + destruct Hch as [[H _]|(Hv & y & Hy & Hm & E & H)]; [done|]. right. split; [done|]. destruct y as [[ls star] v]. exists (l :: ls, star, v). split_and!; [|by apply matches_cons|done|].
      * apply elem_of_app. right. apply list_elem_of_fmap. by exists (ls, star, v).
      * intros z [Hz|Hz]%elem_of_app Hmz; [destruct own as [[s u]|]; [apply list_elem_of_singleton in Hz as ->; cbn; lia|by apply elem_of_nil in Hz]|].
        destruct (Hsub z Hz) as (y & Hy' & -> & _ & Hmy). specialize (H y Hy' (proj1 Hmy Hmz)). cbn in *. lia.
Qed.

Lemma look_longest f q : wf f -> longest (names_of f) q (look f q).
Proof.
  revert q. induction f as [|l star v f IH|l own ch f IHch IH] using forest_rect'; intros q.
  - left. split; [done|]. by intros x ?%elem_of_nil.
  - intros (Hl & He & [Hv _] & Hf). destruct q as [|l' q]; [left; split; [done|]; intros x Hx; by apply not_matches_nil, (names_labels (FCons l (Leaf star v) f))|]. cbn [look names_of]. case_bool_decide as E.
    + subst l'. apply longest_app_l; [|apply one_longest; lia]. intros x Hx [H _]. destruct (names_entry f x Hx) as (l2 & ls & El & Hn). rewrite El in H. apply prefix_cons_inv_1 in H as ->. done.
    + apply longest_app_r; [|by apply IH]. intros x ->%list_elem_of_singleton [H _]. apply prefix_cons_inv_1 in H. congruence.
  - intros (Hl & He & (Hown & Hne & Hch) & Hf). destruct q as [|l' q]; [left; split; [done|]; intros x Hx; by apply not_matches_nil, (names_labels (FCons l (Sub own ch) f))|]. cbn [look names_of]. case_bool_decide as E.
    + subst l'. apply longest_app_l; [|by apply sub_longest; [|apply IHch]]. intros x Hx [H _]. destruct (names_entry f x Hx) as (l2 & ls & El & Hn). rewrite El in H. apply prefix_cons_inv_1 in H as ->. done.
    + apply longest_app_r; [|by apply IH]. intros x Hx [H _]. cbn [entry_names] in Hx. apply elem_of_app in Hx as [Hx|Hx].
      * destruct own as [[s u]|]; [|by apply elem_of_nil in Hx]. apply list_elem_of_singleton in Hx as ->. apply prefix_cons_inv_1 in H. congruence.
      * apply list_elem_of_fmap in Hx as ([[ls s] u] & -> & _). apply prefix_cons_inv_1 in H. congruence.
Qed.

(** * Names find their values *)

(** What the tables at an address find, also when more tables are built. *)
Definition finds (heap : wc_heap) (a : Z) (f : forest) : Prop :=
  exists w, heap !! a = Some w /\ forall heap', heap ⊆ heap' ->
    (forall name, exists v, ngx_hash_find_wc_head heap' w name = Some v /\ longest (names_of f) (reverse (split_dots name)) v) /\
    (starless f -> forall name, exists v, ngx_hash_find_wc_tail heap' w name = Some v /\ longest ((fun '(ls, _, v) => (ls, true, v)) <$> names_of f) (split_dots name) v).

Lemma wildcard_init_run cacheline_shift alloc junk addr limit hinit f st : 24 <= bucket_size hinit <= 2 ^ 15 -> 3 <= cacheline_shift <= 15 ->
  addresses addr limit -> wf f -> short_names f -> fresh addr limit st -> (st_count st + tables f <= limit)%nat ->
  exists r, ngx_hash_wildcard_init (2 ^ cacheline_shift) alloc junk addr hinit (keys f) st = Some r /\
    forall a st', r = Some (a, st') -> finds (st_heap st') a f /\ st_heap st ⊆ st_heap st' /\ fresh addr limit st' /\ st_count st' = (st_count st + tables f)%nat.
Proof.
  intros Hb Hc Ha Hf Hs Hst Hlim. destruct (wildcard_run cacheline_shift alloc junk addr hinit Hb Hc limit Ha f Hf Hs (names_weight (keys f) + 1) [] st (need_le f Hf) ltac:(constructor) Hst Hlim) as (r & Hr & B).
  exists r. split; [done|]. intros a st' E. destruct (B a st' E) as (h & ks & heap & B1 & B2 & B3 & B4 & B5 & B6 & B7 & B8). cbn [app] in B1.
  assert (heap ⊆ st_heap st') as Hsub by (rewrite B5; by apply insert_subseteq). split_and!; [|by etransitivity|done|done].
  exists (mk_wc h 0). split; [rewrite B5; apply lookup_insert_eq|]. intros heap' Hh. assert (repr heap' ks f) as Hr' by (eapply repr_mono; [|done]; by etransitivity). split.
  - intros name. destruct (find_head_run (length name + 1) heap' f ks h 0 name B1 Hr' Hf ltac:(lia)) as (v & Hv & Hl). exists v. split; [done|].
    assert (v = look f (reverse (split_dots name))) as -> by (destruct Hl as [|[? ?]]; congruence). by apply look_longest.
  - intros Hsl name. destruct (find_tail_run (length name + 1) heap' f ks h 0 name B1 Hr' Hf Hsl ltac:(lia)) as (v & Hv & Hl). exists v. split; [done|].
    assert (v = look (starred f) (split_dots name)) as -> by (destruct Hl as [|[? ?]]; congruence). rewrite <- starred_names. by apply look_longest, starred_wf.
Qed.

(** C10: for names in the order of a tree of labels, [ngx_hash_wildcard_init] gives an error or
    tables in which [ngx_hash_find_wc_head] finds, for every name, the value of the longest
    of the names that stands for it, read from its last label on, and a null pointer when there
    is none; and [ngx_hash_find_wc_tail] the same from the first label on. *)
Theorem wildcard_finds_longest cacheline_shift alloc junk addr limit hinit f st : 24 <= bucket_size hinit <= 2 ^ 15 -> 3 <= cacheline_shift <= 15 ->
  addresses addr limit -> wf f -> short_names f -> fresh addr limit st -> (st_count st + tables f <= limit)%nat ->
  exists r, ngx_hash_wildcard_init (2 ^ cacheline_shift) alloc junk addr hinit (keys f) st = Some r /\
    forall a st', r = Some (a, st') -> exists w, st_heap st' !! a = Some w /\
      (forall name, exists v, ngx_hash_find_wc_head (st_heap st') w name = Some v /\ longest (names_of f) (reverse (split_dots name)) v) /\
      (starless f -> forall name, exists v, ngx_hash_find_wc_tail (st_heap st') w name = Some v /\ longest ((fun '(ls, _, v) => (ls, true, v)) <$> names_of f) (split_dots name) v).
Proof.
  intros Hb Hc Ha Hf Hs Hst Hlim. destruct (wildcard_init_run cacheline_shift alloc junk addr limit hinit f st Hb Hc Ha Hf Hs Hst Hlim) as (r & Hr & H). exists r. split; [done|].
  intros a st' E. destruct (H a st' E) as [(w & Hw & Hall) _]. exists w. split; [done|by apply Hall].
Qed.

(** The tree of the example. *)
Definition wc_tree : forest :=
  FCons (cstr "com") (Sub (Some (true, 4)) (FCons (cstr "example") (Sub (Some (false, 8)) (FCons (cstr "mail") (Leaf true 12) FNil)) (FCons (cstr "test") (Sub None (FCons (cstr "a") (Leaf true 16) FNil)) FNil)))
    (FCons (cstr "org") (Sub None (FCons (cstr "wiki") (Leaf true 20) FNil)) FNil).

Lemma wc_tree_ok : keys wc_tree = wc_names /\ wf wc_tree /\ short_names wc_tree.
Proof. split; [done|]. split; [|repeat (apply Forall_cons; split; [done|]); done]. repeat (split || apply Forall_cons); done. Qed.

Definition sample_addr (n : nat) : Z := 4096 + 64 * Z.of_nat n.

Lemma sample_addr_ok : addresses sample_addr 8.
Proof.
  unfold addresses, sample_addr. split; [|intros n m _ _; lia]. intros n Hn. split; [lia|]. replace (4096 + 64 * Z.of_nat n) with ((1024 + 16 * Z.of_nat n) * 4) by lia. by apply Z.mod_mul.
Qed.

(** The tables of the example are built, so that the theorem says what they find. *)
Lemma wildcard_finds_longest_witness : exists a st' w,
  ngx_hash_wildcard_init 64 (fun _ _ => true) (fun _ _ => 170) sample_addr (mk_init 512 64) wc_names (mk_wcs ∅ 0) = Some (Some (a, st')) /\ st_heap st' !! a = Some w /\
  (forall name, exists v, ngx_hash_find_wc_head (st_heap st') w name = Some v /\ longest (names_of wc_tree) (reverse (split_dots name)) v).
Proof.
  destruct (wildcard_finds_longest 6 (fun _ _ => true) (fun _ _ => 170) sample_addr 8 (mk_init 512 64) wc_tree (mk_wcs ∅ 0)) as (r & Hr & H);
    [cbn; lia|lia|apply sample_addr_ok|apply wc_tree_ok|apply wc_tree_ok|done|cbn; lia|].
  destruct r as [[a st']|]; [|exfalso; vm_compute in Hr; discriminate Hr]. destruct (H a st' eq_refl) as (w & Hw & Hh & _). exists a, st', w. by split_and!.
Defined.

(** * The combined search *)

(** "www.example.*", "www.test.a.*" and "mail.*" *)
Definition tail_tree : forest :=
  FCons (cstr "mail") (Leaf false 4) (FCons (cstr "www") (Sub None (FCons (cstr "example") (Leaf false 8) (FCons (cstr "test") (Sub None (FCons (cstr "a") (Leaf false 12) FNil)) FNil))) FNil).

Example tail_names : wf tail_tree /\ starless tail_tree /\
  match ngx_hash_wildcard_init 64 (fun _ _ => true) (fun _ _ => 170) sample_addr (mk_init 512 64) (keys tail_tree) (mk_wcs ∅ 0) with
  | Some (Some (a, st)) => (fun s => h ← st_heap st !! a; ngx_hash_find_wc_tail (st_heap st) h (cstr s)) <$> ["mail"; "mail.x"; "www.example"; "www.example.com"; "www.test.com"; "www.test.a.b.c"]%string
  | _ => []
  end = Some <$> [0; 4; 0; 8; 0; 12].
Proof. split; [repeat (split || apply Forall_cons); done|]. split; [by repeat split|]. vm_compute. reflexivity. Qed.

(** An exact name is found first, then the longest name for its end, then the longest name for
    its beginning. *)
Theorem combined_order heap names h a1 w1 f1 a2 w2 f2 name : represents h names -> Forall (fun k => present k = true -> k_hash k = ngx_hash_key (lower_name k)) names ->
  finds heap a1 f1 -> heap !! a1 = Some w1 -> finds heap a2 f2 -> starless f2 -> heap !! a2 = Some w2 -> name <> [] -> 0 <= ngx_hash_key name ->
  exists v, ngx_hash_find_combined heap (mk_combined (Some h) (Some w1) (Some w2)) (ngx_hash_key name) name = Some v /\
    let exact := first_value (filter (fun k => present k = true) names) name in
    (exact <> 0 /\ v = exact) \/
    (exact = 0 /\ v <> 0 /\ longest (names_of f1) (reverse (split_dots name)) v) \/
    (exact = 0 /\ longest (names_of f1) (reverse (split_dots name)) 0 /\ longest ((fun '(ls, _, v) => (ls, true, v)) <$> names_of f2) (split_dots name) v).
Proof.
  intros Hr Hh (w1' & E1 & F1) Hw1 (w2' & E2 & F2) Hs Hw2 Hne Hk. simplify_eq. unfold ngx_hash_find_combined. cbn [c_hash c_wc_head c_wc_tail find_in].
  rewrite (Hr _ name Hk), first_value_bucket by done. cbn [mbind option_bind]. set (exact := first_value _ name). destruct (Z.eqb_spec exact 0) as [E|E]; cbn [negb]; [|exists exact; split; [done|]; by left].
  destruct (Nat.eqb_spec (length name) 0) as [El|_]; [by apply nil_length_inv in El|]. destruct (F1 heap ltac:(done)) as [H1 _]. destruct (F2 heap ltac:(done)) as [_ H2].
  destruct (H1 name) as (v1 & -> & L1). cbn [mbind option_bind]. destruct (Z.eqb_spec v1 0) as [-> |Hv1]; cbn [negb]; [|exists v1; split; [done|]; right; by left].
  destruct (H2 Hs name) as (v2 & -> & L2). cbn [mbind option_bind]. exists v2. split; [by destruct (Z.eqb_spec v2 0) as [-> |]|]. right. by right.
Qed.
