(* ===== verification/NgxHttpRequest.v ===== *)
(** The request object the HTTP parsers work on, the buffer they read, and the
    loop they share.

    Sources: src/http/ngx_http_request.h (the fields of [ngx_http_request_t]
    the parsers use, the codes), src/http/ngx_http_parse.c (the [usual] table
    and the string comparison macros).

    A pointer into the buffer is an offset from [b->start]; [None] is [NULL].
    The three line parsers (request line, header line, status line) have the
    same shape: a [for] loop over the bytes from [b->pos] to [b->last] around a
    [switch] on the state, which a later call resumes with more bytes in the
    buffer.  [line_loop] is that loop; its lemmas are proved once, for every
    parser that implements the [LineParser] interface. *)

From S2P Require Import Prelude NgxEscape.

Open Scope Z_scope.

(** * Codes *)

Definition NGX_HTTP_PARSE_HEADER_DONE : Z := 1.
Definition NGX_HTTP_PARSE_INVALID_METHOD : Z := 10.
Definition NGX_HTTP_PARSE_INVALID_REQUEST : Z := 11.
Definition NGX_HTTP_PARSE_INVALID_09_METHOD : Z := 12.
Definition NGX_HTTP_PARSE_INVALID_HEADER : Z := 13.

Definition NGX_HTTP_GET : Z := 0x0002.
Definition NGX_HTTP_HEAD : Z := 0x0004.
Definition NGX_HTTP_POST : Z := 0x0008.
Definition NGX_HTTP_PUT : Z := 0x0010.
Definition NGX_HTTP_DELETE : Z := 0x0020.
Definition NGX_HTTP_MKCOL : Z := 0x0040.
Definition NGX_HTTP_COPY : Z := 0x0080.
Definition NGX_HTTP_MOVE : Z := 0x0100.
Definition NGX_HTTP_OPTIONS : Z := 0x0200.
Definition NGX_HTTP_PROPFIND : Z := 0x0400.
Definition NGX_HTTP_PROPPATCH : Z := 0x0800.
Definition NGX_HTTP_LOCK : Z := 0x1000.
Definition NGX_HTTP_UNLOCK : Z := 0x2000.
Definition NGX_HTTP_PATCH : Z := 0x4000.
Definition NGX_HTTP_TRACE : Z := 0x8000.

Definition NGX_HTTP_LC_HEADER_LEN : Z := 32.

(** * The request *)

Abbreviation ptr := (option Z).

(** The fields of [ngx_http_request_t] the parsers read and write;
    [http_minor] and [http_major] are 16-bit fields, [upstream] stands for
    [r->upstream != NULL]. *)
Record ngx_http_request_t := mk_request {
  r_request_start : ptr;
  r_request_end : ptr;
  r_method_end : ptr;
  r_schema_start : ptr;
  r_schema_end : ptr;
  r_host_start : ptr;
  r_host_end : ptr;
  r_port_start : ptr;
  r_port_end : ptr;
  r_uri_start : ptr;
  r_uri_end : ptr;
  r_uri_ext : ptr;
  r_args_start : ptr;
  r_http_protocol_data : ptr;
  r_header_name_start : ptr;
  r_header_name_end : ptr;
  r_header_start : ptr;
  r_header_end : ptr;
  r_method : Z;
  r_http_minor : Z;
  r_http_major : Z;
  r_http_version : Z;
  r_complex_uri : bool;
  r_quoted_uri : bool;
  r_plus_in_uri : bool;
  r_space_in_uri : bool;
  r_invalid_header : bool;
  r_upstream : bool;
  r_state : Z;
  r_header_hash : Z;
  r_lowcase_index : Z;
  r_lowcase_header : list Z;
}.

#[export] Instance eta_request : EtaRecord ngx_http_request_t := fun r =>
  mk_request (r_request_start r) (r_request_end r) (r_method_end r) (r_schema_start r) (r_schema_end r) (r_host_start r) (r_host_end r) (r_port_start r) (r_port_end r)
    (r_uri_start r) (r_uri_end r) (r_uri_ext r) (r_args_start r) (r_http_protocol_data r) (r_header_name_start r) (r_header_name_end r) (r_header_start r) (r_header_end r) (r_method r) (r_http_minor r) (r_http_major r) (r_http_version r) (r_complex_uri r) (r_quoted_uri r) (r_plus_in_uri r) (r_space_in_uri r) (r_invalid_header r) (r_upstream r) (r_state r) (r_header_hash r) (r_lowcase_index r) (r_lowcase_header r).

#[export] Instance set_request_start : FieldSetter r_request_start := ltac:(field_setter).
#[export] Instance set_request_end : FieldSetter r_request_end := ltac:(field_setter).
#[export] Instance set_method_end : FieldSetter r_method_end := ltac:(field_setter).
#[export] Instance set_schema_start : FieldSetter r_schema_start := ltac:(field_setter).
#[export] Instance set_schema_end : FieldSetter r_schema_end := ltac:(field_setter).
#[export] Instance set_host_start : FieldSetter r_host_start := ltac:(field_setter).
#[export] Instance set_host_end : FieldSetter r_host_end := ltac:(field_setter).
#[export] Instance set_port_start : FieldSetter r_port_start := ltac:(field_setter).
#[export] Instance set_port_end : FieldSetter r_port_end := ltac:(field_setter).
#[export] Instance set_uri_start : FieldSetter r_uri_start := ltac:(field_setter).
#[export] Instance set_uri_end : FieldSetter r_uri_end := ltac:(field_setter).
#[export] Instance set_uri_ext : FieldSetter r_uri_ext := ltac:(field_setter).
#[export] Instance set_args_start : FieldSetter r_args_start := ltac:(field_setter).
#[export] Instance set_http_protocol_data : FieldSetter r_http_protocol_data := ltac:(field_setter).
#[export] Instance set_header_name_start : FieldSetter r_header_name_start := ltac:(field_setter).
#[export] Instance set_header_name_end : FieldSetter r_header_name_end := ltac:(field_setter).
#[export] Instance set_header_start : FieldSetter r_header_start := ltac:(field_setter).
#[export] Instance set_header_end : FieldSetter r_header_end := ltac:(field_setter).
#[export] Instance set_method : FieldSetter r_method := ltac:(field_setter).
#[export] Instance set_http_minor : FieldSetter r_http_minor := ltac:(field_setter).
#[export] Instance set_http_major : FieldSetter r_http_major := ltac:(field_setter).
#[export] Instance set_http_version : FieldSetter r_http_version := ltac:(field_setter).
#[export] Instance set_complex_uri : FieldSetter r_complex_uri := ltac:(field_setter).
#[export] Instance set_quoted_uri : FieldSetter r_quoted_uri := ltac:(field_setter).
#[export] Instance set_plus_in_uri : FieldSetter r_plus_in_uri := ltac:(field_setter).
#[export] Instance set_space_in_uri : FieldSetter r_space_in_uri := ltac:(field_setter).
#[export] Instance set_invalid_header : FieldSetter r_invalid_header := ltac:(field_setter).
#[export] Instance set_upstream : FieldSetter r_upstream := ltac:(field_setter).
#[export] Instance set_state : FieldSetter r_state := ltac:(field_setter).
#[export] Instance set_header_hash : FieldSetter r_header_hash := ltac:(field_setter).
#[export] Instance set_lowcase_index : FieldSetter r_lowcase_index := ltac:(field_setter).
#[export] Instance set_lowcase_header : FieldSetter r_lowcase_header := ltac:(field_setter).

(** A request as [ngx_pcalloc] leaves it. *)
Definition request0 : ngx_http_request_t :=
  mk_request None None None None None None None None None None None None None None None None None None 0 0 0 0 false false false false false false 0 0 0 (replicate 32 0).

(** The part of [ngx_buf_t] the parsers use: the bytes from [b->start] on and
    the offsets of [pos] and [last]. *)
Record ngx_buf_t := mk_buf {
  b_mem : list Z;
  b_pos : Z;
  b_last : Z;
}.

Definition wf_buf (b : ngx_buf_t) : Prop :=
  0 <= b_pos b <= b_last b /\ b_last b <= Z.of_nat (length (b_mem b)).

#[export] Instance wf_buf_dec b : Decision (wf_buf b).
Proof. unfold wf_buf. apply _. Defined.

(** The bytes from [from] up to, not including, [until]; [None] when they are
    not all in the memory. *)
Definition slice (mem : list Z) (from until : Z) : option (list Z) :=
  if (0 <=? from) && (from <=? until) && (until <=? Z.of_nat (length mem))
  then Some (take (Z.to_nat (until - from)) (drop (Z.to_nat from) mem))
  else None.

Lemma slice_app mem mem' from until :
  until <= Z.of_nat (length mem) ->
  slice (mem ++ mem') from until = slice mem from until.
Proof.
  intros Hu. unfold slice. rewrite length_app.
  destruct (Z.leb_spec 0 from), (Z.leb_spec from until); cbn; try done.
  destruct (Z.leb_spec until (Z.of_nat (length mem))); [|lia].
  destruct (Z.leb_spec until (Z.of_nat (length mem + length mem'))); [|lia].
  f_equal. rewrite drop_app_le by lia. rewrite take_app_le; [done|].
  rewrite length_drop. lia.
Qed.

Lemma slice_is_Some mem from until :
  0 <= from <= until -> until <= Z.of_nat (length mem) ->
  slice mem from until = Some (take (Z.to_nat (until - from)) (drop (Z.to_nat from) mem)).
Proof. intros. unfold slice. by split_if. Qed.

Lemma slice_bounds mem from until w :
  slice mem from until = Some w ->
  0 <= from <= until /\ until <= Z.of_nat (length mem) /\
  Z.of_nat (length w) = until - from.
Proof.
  unfold slice. destruct (_ && _) eqn:E; [|done]. intros [= <-].
  rewrite length_take, length_drop. lia.
Qed.

Lemma slice_snoc mem from until w ch :
  slice mem from until = Some w -> rd mem until = Some ch ->
  slice mem from (until + 1) = Some (w ++ [ch]).
Proof.
  intros Hw Hch. pose proof (slice_bounds _ _ _ _ Hw) as (Hb & Hl & _).
  unfold rd in Hch. destruct (Z.ltb_spec until 0); [done|].
  pose proof (lookup_lt_Some _ _ _ Hch).
  rewrite slice_is_Some in Hw |- * by lia. injection Hw as <-.
  replace (Z.to_nat (until + 1 - from)) with (S (Z.to_nat (until - from))) by lia.
  f_equal. apply take_S_r. rewrite lookup_drop, <- Hch. f_equal. lia.
Qed.

(** Up to the end of the memory, before and after it has grown. *)
Lemma slice_grow mem1 mem2 pos l :
  slice mem1 pos (Z.of_nat (length mem1)) = Some l ->
  slice (mem1 ++ mem2) pos (Z.of_nat (length (mem1 ++ mem2))) = Some (l ++ mem2) /\
  slice (mem1 ++ mem2) (Z.of_nat (length mem1)) (Z.of_nat (length (mem1 ++ mem2)))
    = Some mem2.
Proof.
  intros Hl. pose proof (slice_bounds _ _ _ _ Hl) as (Hb & _ & Hlen).
  rewrite slice_is_Some in Hl by lia. injection Hl as <-.
  rewrite !slice_is_Some by (rewrite ?length_app; lia).
  rewrite length_app, drop_app_le by lia. rewrite drop_app_le by lia.
  rewrite !Nat2Z.id, drop_all. cbn.
  rewrite !take_ge by (rewrite ?length_app, ?length_drop; lia). done.
Qed.

Lemma slice_is_Some_bytes mem from until w :
  slice mem from until = Some w -> is_bytes mem -> is_bytes w.
Proof.
  intros Hs Hm. pose proof (slice_bounds _ _ _ _ Hs) as (? & ? & ?).
  rewrite slice_is_Some in Hs by lia. injection Hs as <-.
  by apply Forall_take, Forall_drop.
Qed.

(** A byte of the memory and what follows it. *)
Lemma drop_cons_rd mem p ch l :
  0 <= p -> take (length (ch :: l)) (drop (Z.to_nat p) mem) = ch :: l ->
  rd mem p = Some ch /\ take (length l) (drop (Z.to_nat (p + 1)) mem) = l.
Proof.
  intros Hp Hl. cbn [length] in Hl.
  destruct (drop (Z.to_nat p) mem) as [|x m] eqn:Ed; [done|].
  cbn [take] in Hl. injection Hl as -> Hl. split.
  - unfold rd. destruct (Z.ltb_spec p 0); [lia|].
    by rewrite <- (Nat.add_0_r (Z.to_nat p)), <- lookup_drop, Ed.
  - replace (Z.to_nat (p + 1)) with (Z.to_nat p + 1)%nat by lia.
    by rewrite <- drop_drop, Ed.
Qed.

Lemma slice_empty mem p : 0 <= p <= Z.of_nat (length mem) -> slice mem p p = Some [].
Proof. intros. rewrite slice_is_Some by lia. by rewrite Z.sub_diag. Qed.

(** * Character table *)

(** The [usual] table (not Win32): all bytes but NUL, LF, CR, and the space,
    [#], [%], [+], [.], [/] and [?]. *)
Definition usual_map : list Z :=
  [0xffffdbfe; 0x7fff37d6; 0xffffffff; 0xffffffff;
   0xffffffff; 0xffffffff; 0xffffffff; 0xffffffff].

(** [usual[ch >> 5] & (1 << (ch & 0x1f))] *)
Definition usual (ch : Z) : bool := bit_set usual_map ch.

(** * Comparison of the method name

    The token is the list of the bytes from [m] on.  [ngx_str..cmp] are the
    portable macros; [le_str..cmp] the ones for little-endian platforms with
    unaligned loads. *)

Definition tok (m : list Z) (i : nat) : Z := nth i m 0.

Definition ngx_str3_cmp (m : list Z) (c0 c1 c2 c3 : Z) : bool :=
  (tok m 0 =? c0) && (tok m 1 =? c1) && (tok m 2 =? c2).

Definition ngx_str3Ocmp (m : list Z) (c0 c1 c2 c3 : Z) : bool :=
  (tok m 0 =? c0) && (tok m 2 =? c2) && (tok m 3 =? c3).

Definition ngx_str4cmp (m : list Z) (c0 c1 c2 c3 : Z) : bool :=
  (tok m 0 =? c0) && (tok m 1 =? c1) && (tok m 2 =? c2) && (tok m 3 =? c3).

Definition ngx_str5cmp (m : list Z) (c0 c1 c2 c3 c4 : Z) : bool :=
  (tok m 0 =? c0) && (tok m 1 =? c1) && (tok m 2 =? c2) && (tok m 3 =? c3)
  && (tok m 4 =? c4).

Definition ngx_str6cmp (m : list Z) (c0 c1 c2 c3 c4 c5 : Z) : bool :=
  (tok m 0 =? c0) && (tok m 1 =? c1) && (tok m 2 =? c2) && (tok m 3 =? c3)
  && (tok m 4 =? c4) && (tok m 5 =? c5).

Definition ngx_str7_cmp (m : list Z) (c0 c1 c2 c3 c4 c5 c6 c7 : Z) : bool :=
  (tok m 0 =? c0) && (tok m 1 =? c1) && (tok m 2 =? c2) && (tok m 3 =? c3)
  && (tok m 4 =? c4) && (tok m 5 =? c5) && (tok m 6 =? c6).

Definition ngx_str8cmp (m : list Z) (c0 c1 c2 c3 c4 c5 c6 c7 : Z) : bool :=
  (tok m 0 =? c0) && (tok m 1 =? c1) && (tok m 2 =? c2) && (tok m 3 =? c3)
  && (tok m 4 =? c4) && (tok m 5 =? c5) && (tok m 6 =? c6) && (tok m 7 =? c7).

Definition ngx_str9cmp (m : list Z) (c0 c1 c2 c3 c4 c5 c6 c7 c8 : Z) : bool :=
  (tok m 0 =? c0) && (tok m 1 =? c1) && (tok m 2 =? c2) && (tok m 3 =? c3)
  && (tok m 4 =? c4) && (tok m 5 =? c5) && (tok m 6 =? c6) && (tok m 7 =? c7)
  && (tok m 8 =? c8).

(** [*(uint32_t * ) (m + 4 * i)] as a little-endian machine loads it. *)
Definition load32 (m : list Z) (i : nat) : Z :=
  tok m (4 * i) + tok m (4 * i + 1) * 2 ^ 8 + tok m (4 * i + 2) * 2 ^ 16
  + tok m (4 * i + 3) * 2 ^ 24.

(** [(c3 << 24) | (c2 << 16) | (c1 << 8) | c0] *)
Definition word32 (c0 c1 c2 c3 : Z) : Z :=
  Z.lor (Z.lor (Z.lor (Z.shiftl c3 24) (Z.shiftl c2 16)) (Z.shiftl c1 8)) c0.

Definition le_str4cmp (m : list Z) (c0 c1 c2 c3 : Z) : bool :=
  load32 m 0 =? word32 c0 c1 c2 c3.

Definition le_str5cmp (m : list Z) (c0 c1 c2 c3 c4 : Z) : bool :=
  le_str4cmp m c0 c1 c2 c3 && (tok m 4 =? c4).

Definition le_str6cmp (m : list Z) (c0 c1 c2 c3 c4 c5 : Z) : bool :=
  le_str4cmp m c0 c1 c2 c3
  && (Z.land (load32 m 1) 0xffff =? Z.lor (Z.shiftl c5 8) c4).

Definition le_str8cmp (m : list Z) (c0 c1 c2 c3 c4 c5 c6 c7 : Z) : bool :=
  le_str4cmp m c0 c1 c2 c3 && (load32 m 1 =? word32 c4 c5 c6 c7).

Definition le_str9cmp (m : list Z) (c0 c1 c2 c3 c4 c5 c6 c7 c8 : Z) : bool :=
  le_str8cmp m c0 c1 c2 c3 c4 c5 c6 c7 && (tok m 8 =? c8).

(** * The line loop *)

(** What one turn of the [switch] does. *)
Inductive step_result (S : Type) :=
  | Continue (s : S)
  | Goto_done (s : S)
  | Goto_header_done (s : S)
  | Return (rc : Z) (s : S).

Arguments Continue {S} s.
Arguments Goto_done {S} s.
Arguments Goto_header_done {S} s.
Arguments Return {S} rc s.

Definition step_map {S T : Type} (f : S -> T) (res : step_result S) : step_result T :=
  match res with
  | Continue s => Continue (f s)
  | Goto_done s => Goto_done (f s)
  | Goto_header_done s => Goto_header_done (f s)
  | Return rc s => Return rc (f s)
  end.

(** A parser's [switch]: the memory (for the tokens it looks back at), the
    offset [p], the byte [*p] and the loop variables.  It reads nothing after
    [p]. *)
Class LineParser (S : Type) := {
  line_step : list Z -> Z -> Z -> S -> option (step_result S);
  line_step_local mem mem' p ch s :
    0 <= p < Z.of_nat (length mem) ->
    line_step (mem ++ mem') p ch s = line_step mem p ch s;
}.

Section line_loop.
Context {St : Type} `{LineParser St}.

(** [for (p = b->pos; p < b->last; p++) { ch = *p; switch (state) ... }]; the
    bytes are those from [p] up to [b->last]. *)
Fixpoint line_loop (mem : list Z) (p : Z) (bytes : list Z) (s : St)
  : option (Z * step_result St) :=
  match bytes with
  | [] => Some (p, Continue s)
  | ch :: bytes' =>
      match line_step mem p ch s with
      | Some (Continue s') => line_loop mem (p + 1) bytes' s'
      | Some res => Some (p, res)
      | None => None
      end
  end.

Lemma line_loop_app mem p l1 l2 s :
  line_loop mem p (l1 ++ l2) s =
  match line_loop mem p l1 s with
  | Some (p', Continue s') => line_loop mem p' l2 s'
  | res => res
  end.
Proof.
  revert p s. induction l1 as [|ch l1 IH]; intros p s; [done|]. cbn.
  destruct (line_step mem p ch s) as [[]|]; [apply IH|done..].
Qed.

Lemma line_loop_pos mem p l s p' s' :
  line_loop mem p l s = Some (p', Continue s') -> p' = p + Z.of_nat (length l).
Proof.
  revert p s. induction l as [|ch l IH]; intros p s; cbn [line_loop length].
  - intros [= -> _]. lia.
  - destruct (line_step mem p ch s) as [[]|]; [|done..]. intros E%IH. lia.
Qed.

Lemma line_loop_stop mem p l s q res :
  line_loop mem p l s = Some (q, res) ->
  match res with Continue _ => True | _ => p <= q < p + Z.of_nat (length l) end.
Proof.
  revert p s. induction l as [|ch l IH]; intros p s; cbn [line_loop].
  { by intros [= <- <-]. }
  destruct (line_step mem p ch s) as [res'|]; [|done].
  destruct res'; [|intros [= <- <-]; cbn [length]; lia..].
  intros E%IH. destruct res; cbn [length]; try done; lia.
Qed.

(** Only the memory up to the last byte read matters. *)
Lemma line_loop_local mem mem' p l s :
  0 <= p -> p + Z.of_nat (length l) <= Z.of_nat (length mem) ->
  line_loop (mem ++ mem') p l s = line_loop mem p l s.
Proof.
  revert p s. induction l as [|ch l IH]; intros p s Hp Hl; [done|].
  cbn [line_loop length] in *. rewrite line_step_local by lia.
  destruct (line_step mem p ch s) as [[]|]; [apply IH; lia|done..].
Qed.

(** A change of the loop variables the turns do not notice. *)
Lemma line_loop_map (f : St -> St) mem p l s :
  (forall p ch s, line_step mem p ch (f s) = step_map f <$> line_step mem p ch s) ->
  line_loop mem p l (f s) = (fun '(p, res) => (p, step_map f res)) <$> line_loop mem p l s.
Proof.
  intros Hf. revert p s. induction l as [|ch l IH]; intros p s; [done|].
  cbn [line_loop]. rewrite Hf.
  destruct (line_step mem p ch s) as [[]|]; cbn; [apply IH|done..].
Qed.

(** A loop over two chunks, the second one read when the memory has grown, is
    the loop over the whole. *)
Lemma line_loop_chunks mem1 mem2 p l s :
  0 <= p -> p + Z.of_nat (length l) = Z.of_nat (length mem1) ->
  line_loop (mem1 ++ mem2) p (l ++ mem2) s =
  match line_loop mem1 p l s with
  | Some (p', Continue s') => line_loop (mem1 ++ mem2) p' mem2 s'
  | res => res
  end.
Proof. intros. rewrite line_loop_app, line_loop_local by lia. done. Qed.

(** An invariant of the turns holds where the loop stops. *)
Lemma line_loop_inv (I : Z -> St -> Prop) (Q : Z -> step_result St -> Prop) mem p l s :
  (forall p s, I p s -> Q p (Continue s)) ->
  (forall q ch s, I q s -> rd mem q = Some ch ->
     exists res, line_step mem q ch s = Some res /\
       match res with Continue s' => I (q + 1) s' | _ => Q q res end) ->
  0 <= p -> take (length l) (drop (Z.to_nat p) mem) = l -> I p s ->
  exists q res, line_loop mem p l s = Some (q, res) /\ Q q res.
Proof.
  intros HQ Hstep. revert p s. induction l as [|ch l IH]; intros p s Hp Hl HI.
  { exists p, (Continue s). split; [done|]. by apply HQ. }
  destruct (drop_cons_rd _ _ _ _ Hp Hl) as [Hrd Hl'].
  destruct (Hstep p ch s HI Hrd) as (res & E & Hres). cbn [line_loop]. rewrite E.
  destruct res as [s'| | |]; [|by eexists _, _..].
  apply IH; [lia|done..].
Qed.

(** The loop over the rest of a buffer, from an invariant at [pos]. *)
Lemma line_loop_buffer (I : Z -> St -> Prop) (Q : Z -> step_result St -> Prop) mem pos s :
  (forall p s, I p s -> Q p (Continue s)) ->
  (forall q ch s, I q s -> rd mem q = Some ch ->
     exists res, line_step mem q ch s = Some res /\
       match res with Continue s' => I (q + 1) s' | _ => Q q res end) ->
  0 <= pos <= Z.of_nat (length mem) -> I pos s ->
  exists l p res, slice mem pos (Z.of_nat (length mem)) = Some l /\
    line_loop mem pos l s = Some (p, res) /\ Q p res /\
    match res with
    | Continue _ => p = Z.of_nat (length mem)
    | _ => pos <= p < Z.of_nat (length mem)
    end.
Proof.
  intros HQ Hstep Hpos HI. set (l := drop (Z.to_nat pos) mem).
  assert (slice mem pos (Z.of_nat (length mem)) = Some l) as Hl.
  { subst l. rewrite slice_is_Some by lia. f_equal. apply take_ge. rewrite length_drop. lia. }
  pose proof (slice_bounds _ _ _ _ Hl) as (_ & _ & Hlen).
  destruct (line_loop_inv I Q mem pos l s) as (p & res & E & Hres); [done..|lia| |done|].
  { by rewrite take_ge. }
  exists l, p, res. split_and!; [done..|].
  destruct res; [apply line_loop_pos in E; lia|
    apply line_loop_stop in E; cbn in E; lia..].
Qed.

End line_loop.

(** * Lemmas on the tables and macros *)

(** The table is what its comment says it is. *)
Lemma usual_spec ch :
  is_byte ch ->
  usual ch = negb (existsb (Z.eqb ch)
    [0; LF; CR; " "%cc; "#"%cc; "%"%cc; "+"%cc; "."%cc; "/"%cc; "?"%cc]).
Proof.
  intros Hc. apply eqb_prop. revert ch Hc. apply byte_forall.
  vm_compute. reflexivity.
Qed.
