(* ===== verification/NgxHttpRequestLine.v ===== *)
(** The request line: [ngx_http_parse_request_line] of
    src/http/ngx_http_parse.c.

    Each state of the C enumeration is a constructor of [request_state], each
    [case] of the [switch] a definition [case_<state>], and [request_step]
    the [switch].  A [case] takes the offset [p] of the byte [ch] and the
    request, and ends in [Continue] (the [break]s), [Goto_done] or [Return]. *)

From S2P Require Import Prelude NgxEscape NgxHttpRequest.

Open Scope Z_scope.

(** * States *)

Inductive request_state :=
  | sw_start
  | sw_method
  | sw_spaces_before_uri
  | sw_schema
  | sw_schema_slash
  | sw_schema_slash_slash
  | sw_host
  | sw_port
  | sw_host_http_09
  | sw_after_slash_in_uri
  | sw_check_uri
  | sw_check_uri_http_09
  | sw_uri
  | sw_http_09
  | sw_http_H
  | sw_http_HT
  | sw_http_HTT
  | sw_http_HTTP
  | sw_first_major_digit
  | sw_major_digit
  | sw_first_minor_digit
  | sw_minor_digit
  | sw_spaces_after_digit
  | sw_almost_done.

#[export] Instance request_state_eq_dec : EqDecision request_state.
Proof. solve_decision. Defined.

Definition request_states : list request_state :=
  [sw_start; sw_method; sw_spaces_before_uri; sw_schema; sw_schema_slash;
   sw_schema_slash_slash; sw_host; sw_port; sw_host_http_09;
   sw_after_slash_in_uri; sw_check_uri; sw_check_uri_http_09; sw_uri;
   sw_http_09; sw_http_H; sw_http_HT; sw_http_HTT; sw_http_HTTP;
   sw_first_major_digit; sw_major_digit; sw_first_minor_digit; sw_minor_digit;
   sw_spaces_after_digit; sw_almost_done].

(** The number of a state, as [r->state] holds it between two calls. *)
Definition request_state_code (st : request_state) : Z :=
  match st with
  | sw_start => 0 | sw_method => 1 | sw_spaces_before_uri => 2 | sw_schema => 3
  | sw_schema_slash => 4 | sw_schema_slash_slash => 5 | sw_host => 6
  | sw_port => 7 | sw_host_http_09 => 8 | sw_after_slash_in_uri => 9
  | sw_check_uri => 10 | sw_check_uri_http_09 => 11 | sw_uri => 12
  | sw_http_09 => 13 | sw_http_H => 14 | sw_http_HT => 15 | sw_http_HTT => 16
  | sw_http_HTTP => 17 | sw_first_major_digit => 18 | sw_major_digit => 19
  | sw_first_minor_digit => 20 | sw_minor_digit => 21
  | sw_spaces_after_digit => 22 | sw_almost_done => 23
  end.

Definition request_state_of (code : Z) : option request_state :=
  if code <? 0 then None else request_states !! Z.to_nat code.

(** * The method *)

(** The comparison macros of one of the two builds. *)
Record str_macros := {
  str3_cmp : list Z -> Z -> Z -> Z -> Z -> bool;
  str3Ocmp : list Z -> Z -> Z -> Z -> Z -> bool;
  str4cmp : list Z -> Z -> Z -> Z -> Z -> bool;
  str5cmp : list Z -> Z -> Z -> Z -> Z -> Z -> bool;
  str6cmp : list Z -> Z -> Z -> Z -> Z -> Z -> Z -> bool;
  str7_cmp : list Z -> Z -> Z -> Z -> Z -> Z -> Z -> Z -> Z -> bool;
  str8cmp : list Z -> Z -> Z -> Z -> Z -> Z -> Z -> Z -> Z -> bool;
  str9cmp : list Z -> Z -> Z -> Z -> Z -> Z -> Z -> Z -> Z -> Z -> bool;
}.

Definition portable_macros : str_macros :=
  {| str3_cmp := ngx_str3_cmp; str3Ocmp := ngx_str3Ocmp; str4cmp := ngx_str4cmp;
     str5cmp := ngx_str5cmp; str6cmp := ngx_str6cmp; str7_cmp := ngx_str7_cmp;
     str8cmp := ngx_str8cmp; str9cmp := ngx_str9cmp |}.

Definition little_endian_macros : str_macros :=
  {| str3_cmp := le_str4cmp; str3Ocmp := le_str4cmp; str4cmp := le_str4cmp;
     str5cmp := le_str5cmp; str6cmp := le_str6cmp; str7_cmp := le_str8cmp;
     str8cmp := le_str8cmp; str9cmp := le_str9cmp |}.

(** [switch (p - m)]: the new value of [r->method], [old] when no case
    assigns it. *)
Definition method_of (mac : str_macros) (len : Z) (m : list Z) (old : Z) : Z :=
  if len =? 3 then
    if str3_cmp mac m "G"%cc "E"%cc "T"%cc " "%cc then NGX_HTTP_GET
    else if str3_cmp mac m "P"%cc "U"%cc "T"%cc " "%cc then NGX_HTTP_PUT
    else old
  else if len =? 4 then
    if tok m 1 =? "O"%cc then
      if str3Ocmp mac m "P"%cc "O"%cc "S"%cc "T"%cc then NGX_HTTP_POST
      else if str3Ocmp mac m "C"%cc "O"%cc "P"%cc "Y"%cc then NGX_HTTP_COPY
      else if str3Ocmp mac m "M"%cc "O"%cc "V"%cc "E"%cc then NGX_HTTP_MOVE
      else if str3Ocmp mac m "L"%cc "O"%cc "C"%cc "K"%cc then NGX_HTTP_LOCK
      else old
    else if str4cmp mac m "H"%cc "E"%cc "A"%cc "D"%cc then NGX_HTTP_HEAD
    else old
  else if len =? 5 then
    let method := if str5cmp mac m "M"%cc "K"%cc "C"%cc "O"%cc "L"%cc
                  then NGX_HTTP_MKCOL else old in
    let method := if str5cmp mac m "P"%cc "A"%cc "T"%cc "C"%cc "H"%cc
                  then NGX_HTTP_PATCH else method in
    if str5cmp mac m "T"%cc "R"%cc "A"%cc "C"%cc "E"%cc then NGX_HTTP_TRACE
    else method
  else if len =? 6 then
    if str6cmp mac m "D"%cc "E"%cc "L"%cc "E"%cc "T"%cc "E"%cc then NGX_HTTP_DELETE
    else if str6cmp mac m "U"%cc "N"%cc "L"%cc "O"%cc "C"%cc "K"%cc
    then NGX_HTTP_UNLOCK
    else old
  else if len =? 7 then
    if str7_cmp mac m "O"%cc "P"%cc "T"%cc "I"%cc "O"%cc "N"%cc "S"%cc " "%cc
    then NGX_HTTP_OPTIONS else old
  else if len =? 8 then
    if str8cmp mac m "P"%cc "R"%cc "O"%cc "P"%cc "F"%cc "I"%cc "N"%cc "D"%cc
    then NGX_HTTP_PROPFIND else old
  else if len =? 9 then
    if str9cmp mac m "P"%cc "R"%cc "O"%cc "P"%cc "P"%cc "A"%cc "T"%cc "C"%cc "H"%cc
    then NGX_HTTP_PROPPATCH else old
  else old.

(** * The cases *)

Abbreviation request_line_vars := (request_state * ngx_http_request_t)%type.

Abbreviation request_result := (step_result request_line_vars).

(** [c = (u_char) (ch | 0x20); c >= 'a' && c <= 'z'] *)
Definition is_alpha (ch : Z) : bool :=
  let c := u8 (Z.lor ch 0x20) in ("a"%cc <=? c) && (c <=? "z"%cc).

Definition method_char (ch : Z) : bool :=
  negb (((ch <? "A"%cc) || ("Z"%cc <? ch)) && negb (ch =? "_"%cc)).

Definition case_start (p ch : Z) (r : ngx_http_request_t) : request_result :=
  let r := r <| r_request_start := Some p |> in
  if (ch =? CR) || (ch =? LF) then Continue (sw_start, r)
  else if negb (method_char ch) then Return NGX_HTTP_PARSE_INVALID_METHOD (sw_start, r)
  else Continue (sw_method, r).

(** The bytes of the token are read through [r->request_start]. *)
Definition case_method (mac : str_macros) (mem : list Z) (p ch : Z)
  (r : ngx_http_request_t) : option request_result :=
  if ch =? " "%cc then
    let r := r <| r_method_end := Some (p - 1) |> in
    m ← r_request_start r;
    token ← slice mem m (p + 1);
    Some (Continue (sw_spaces_before_uri,
      r <| r_method := method_of mac (p - m) token (r_method r) |>))
  else if negb (method_char ch) then
    Some (Return NGX_HTTP_PARSE_INVALID_METHOD (sw_method, r))
  else Some (Continue (sw_method, r)).

Definition case_spaces_before_uri (p ch : Z) (r : ngx_http_request_t) : request_result :=
  if ch =? "/"%cc then Continue (sw_after_slash_in_uri, r <| r_uri_start := Some p |>)
  else if is_alpha ch then Continue (sw_schema, r <| r_schema_start := Some p |>)
  else if ch =? " "%cc then Continue (sw_spaces_before_uri, r)
  else Return NGX_HTTP_PARSE_INVALID_REQUEST (sw_spaces_before_uri, r).

Definition case_schema (p ch : Z) (r : ngx_http_request_t) : request_result :=
  if is_alpha ch then Continue (sw_schema, r)
  else if ch =? ":"%cc then Continue (sw_schema_slash, r <| r_schema_end := Some p |>)
  else Return NGX_HTTP_PARSE_INVALID_REQUEST (sw_schema, r).

Definition case_schema_slash (p ch : Z) (r : ngx_http_request_t) : request_result :=
  if ch =? "/"%cc then Continue (sw_schema_slash_slash, r)
  else Return NGX_HTTP_PARSE_INVALID_REQUEST (sw_schema_slash, r).

Definition case_schema_slash_slash (p ch : Z) (r : ngx_http_request_t) : request_result :=
  if ch =? "/"%cc then Continue (sw_host, r <| r_host_start := Some (p + 1) |>)
  else Return NGX_HTTP_PARSE_INVALID_REQUEST (sw_schema_slash_slash, r).

Definition host_char (ch : Z) : bool :=
  is_alpha ch || ((is_digit ch) || (ch =? "."%cc) || (ch =? "-"%cc)).

(** [r->schema_end + n]; the pointer is set before these states. *)
Definition ptr_add (q : ptr) (n : Z) : ptr := (fun a => a + n) <$> q.

Definition case_host (p ch : Z) (r : ngx_http_request_t) : request_result :=
  if host_char ch then Continue (sw_host, r)
  else
    let r := r <| r_host_end := Some p |> in
    if ch =? ":"%cc then Continue (sw_port, r)
    else if ch =? "/"%cc then
      Continue (sw_after_slash_in_uri, r <| r_uri_start := Some p |>)
    else if ch =? " "%cc then
      Continue (sw_host_http_09,
        r <| r_uri_start := ptr_add (r_schema_end r) 1 |>
          <| r_uri_end := ptr_add (r_schema_end r) 2 |>)
    else Return NGX_HTTP_PARSE_INVALID_REQUEST (sw_host, r).

Definition case_port (p ch : Z) (r : ngx_http_request_t) : request_result :=
  if is_digit ch then Continue (sw_port, r)
  else if ch =? "/"%cc then
    Continue (sw_after_slash_in_uri,
      r <| r_port_end := Some p |> <| r_uri_start := Some p |>)
  else if ch =? " "%cc then
    Continue (sw_host_http_09,
      r <| r_port_end := Some p |>
        <| r_uri_start := ptr_add (r_schema_end r) 1 |>
        <| r_uri_end := ptr_add (r_schema_end r) 2 |>)
  else Return NGX_HTTP_PARSE_INVALID_REQUEST (sw_port, r).

Definition case_host_http_09 (p ch : Z) (r : ngx_http_request_t) : request_result :=
  if ch =? " "%cc then Continue (sw_host_http_09, r)
  else if ch =? CR then Continue (sw_almost_done, r <| r_http_minor := 9 |>)
  else if ch =? LF then Goto_done (sw_host_http_09, r <| r_http_minor := 9 |>)
  else if ch =? "H"%cc then Continue (sw_http_H, r <| r_http_protocol_data := Some p |>)
  else Return NGX_HTTP_PARSE_INVALID_REQUEST (sw_host_http_09, r).

Definition case_after_slash_in_uri (p ch : Z) (r : ngx_http_request_t) : request_result :=
  if usual ch then Continue (sw_check_uri, r)
  else if ch =? " "%cc then Continue (sw_check_uri_http_09, r <| r_uri_end := Some p |>)
  else if ch =? CR then
    Continue (sw_almost_done, r <| r_uri_end := Some p |> <| r_http_minor := 9 |>)
  else if ch =? LF then
    Goto_done (sw_after_slash_in_uri,
      r <| r_uri_end := Some p |> <| r_http_minor := 9 |>)
  else if ch =? "."%cc then Continue (sw_uri, r <| r_complex_uri := true |>)
  else if ch =? "%"%cc then Continue (sw_uri, r <| r_quoted_uri := true |>)
  else if ch =? "/"%cc then Continue (sw_uri, r <| r_complex_uri := true |>)
  else if ch =? "?"%cc then Continue (sw_uri, r <| r_args_start := Some (p + 1) |>)
  else if ch =? "#"%cc then Continue (sw_uri, r <| r_complex_uri := true |>)
  else if ch =? "+"%cc then Continue (sw_after_slash_in_uri, r <| r_plus_in_uri := true |>)
  else if ch =? 0 then Return NGX_HTTP_PARSE_INVALID_REQUEST (sw_after_slash_in_uri, r)
  else Continue (sw_check_uri, r).

Definition case_check_uri (p ch : Z) (r : ngx_http_request_t) : request_result :=
  if usual ch then Continue (sw_check_uri, r)
  else if ch =? "/"%cc then Continue (sw_after_slash_in_uri, r <| r_uri_ext := None |>)
  else if ch =? "."%cc then Continue (sw_check_uri, r <| r_uri_ext := Some (p + 1) |>)
  else if ch =? " "%cc then Continue (sw_check_uri_http_09, r <| r_uri_end := Some p |>)
  else if ch =? CR then
    Continue (sw_almost_done, r <| r_uri_end := Some p |> <| r_http_minor := 9 |>)
  else if ch =? LF then
    Goto_done (sw_check_uri, r <| r_uri_end := Some p |> <| r_http_minor := 9 |>)
  else if ch =? "%"%cc then Continue (sw_uri, r <| r_quoted_uri := true |>)
  else if ch =? "?"%cc then Continue (sw_uri, r <| r_args_start := Some (p + 1) |>)
  else if ch =? "#"%cc then Continue (sw_uri, r <| r_complex_uri := true |>)
  else if ch =? "+"%cc then Continue (sw_check_uri, r <| r_plus_in_uri := true |>)
  else if ch =? 0 then Return NGX_HTTP_PARSE_INVALID_REQUEST (sw_check_uri, r)
  else Continue (sw_check_uri, r).

Definition case_check_uri_http_09 (p ch : Z) (r : ngx_http_request_t) : request_result :=
  if ch =? " "%cc then Continue (sw_check_uri_http_09, r)
  else if ch =? CR then Continue (sw_almost_done, r <| r_http_minor := 9 |>)
  else if ch =? LF then Goto_done (sw_check_uri_http_09, r <| r_http_minor := 9 |>)
  else if ch =? "H"%cc then Continue (sw_http_H, r <| r_http_protocol_data := Some p |>)
  else Continue (sw_check_uri, r <| r_space_in_uri := true |>).

Definition case_uri (p ch : Z) (r : ngx_http_request_t) : request_result :=
  if usual ch then Continue (sw_uri, r)
  else if ch =? " "%cc then Continue (sw_http_09, r <| r_uri_end := Some p |>)
  else if ch =? CR then
    Continue (sw_almost_done, r <| r_uri_end := Some p |> <| r_http_minor := 9 |>)
  else if ch =? LF then
    Goto_done (sw_uri, r <| r_uri_end := Some p |> <| r_http_minor := 9 |>)
  else if ch =? "#"%cc then Continue (sw_uri, r <| r_complex_uri := true |>)
  else if ch =? 0 then Return NGX_HTTP_PARSE_INVALID_REQUEST (sw_uri, r)
  else Continue (sw_uri, r).

Definition case_http_09 (p ch : Z) (r : ngx_http_request_t) : request_result :=
  if ch =? " "%cc then Continue (sw_http_09, r)
  else if ch =? CR then Continue (sw_almost_done, r <| r_http_minor := 9 |>)
  else if ch =? LF then Goto_done (sw_http_09, r <| r_http_minor := 9 |>)
  else if ch =? "H"%cc then Continue (sw_http_H, r <| r_http_protocol_data := Some p |>)
  else Continue (sw_uri, r <| r_space_in_uri := true |>).

(** The four states after the "H" of "HTTP/": the expected byte or an error. *)
Definition case_http_H (p ch : Z) (r : ngx_http_request_t) : request_result :=
  if ch =? "T"%cc then Continue (sw_http_HT, r)
  else Return NGX_HTTP_PARSE_INVALID_REQUEST (sw_http_H, r).

Definition case_http_HT (p ch : Z) (r : ngx_http_request_t) : request_result :=
  if ch =? "T"%cc then Continue (sw_http_HTT, r)
  else Return NGX_HTTP_PARSE_INVALID_REQUEST (sw_http_HT, r).

Definition case_http_HTT (p ch : Z) (r : ngx_http_request_t) : request_result :=
  if ch =? "P"%cc then Continue (sw_http_HTTP, r)
  else Return NGX_HTTP_PARSE_INVALID_REQUEST (sw_http_HTT, r).

Definition case_http_HTTP (p ch : Z) (r : ngx_http_request_t) : request_result :=
  if ch =? "/"%cc then Continue (sw_first_major_digit, r)
  else Return NGX_HTTP_PARSE_INVALID_REQUEST (sw_http_HTTP, r).

Definition case_first_major_digit (p ch : Z) (r : ngx_http_request_t) : request_result :=
  if (ch <? "1"%cc) || ("9"%cc <? ch)
  then Return NGX_HTTP_PARSE_INVALID_REQUEST (sw_first_major_digit, r)
  else Continue (sw_major_digit, r <| r_http_major := u16 (ch - "0"%cc) |>).

Definition case_major_digit (p ch : Z) (r : ngx_http_request_t) : request_result :=
  if ch =? "."%cc then Continue (sw_first_minor_digit, r)
  else if negb (is_digit ch)
  then Return NGX_HTTP_PARSE_INVALID_REQUEST (sw_major_digit, r)
  else Continue (sw_major_digit,
         r <| r_http_major := u16 (r_http_major r * 10 + ch - "0"%cc) |>).

Definition case_first_minor_digit (p ch : Z) (r : ngx_http_request_t) : request_result :=
  if negb (is_digit ch)
  then Return NGX_HTTP_PARSE_INVALID_REQUEST (sw_first_minor_digit, r)
  else Continue (sw_minor_digit, r <| r_http_minor := u16 (ch - "0"%cc) |>).

Definition case_minor_digit (p ch : Z) (r : ngx_http_request_t) : request_result :=
  if ch =? CR then Continue (sw_almost_done, r)
  else if ch =? LF then Goto_done (sw_minor_digit, r)
  else if ch =? " "%cc then Continue (sw_spaces_after_digit, r)
  else if negb (is_digit ch)
  then Return NGX_HTTP_PARSE_INVALID_REQUEST (sw_minor_digit, r)
  else Continue (sw_minor_digit,
         r <| r_http_minor := u16 (r_http_minor r * 10 + ch - "0"%cc) |>).

Definition case_spaces_after_digit (p ch : Z) (r : ngx_http_request_t) : request_result :=
  if ch =? " "%cc then Continue (sw_spaces_after_digit, r)
  else if ch =? CR then Continue (sw_almost_done, r)
  else if ch =? LF then Goto_done (sw_spaces_after_digit, r)
  else Return NGX_HTTP_PARSE_INVALID_REQUEST (sw_spaces_after_digit, r).

Definition case_almost_done (p ch : Z) (r : ngx_http_request_t) : request_result :=
  let r := r <| r_request_end := Some (p - 1) |> in
  if ch =? LF then Goto_done (sw_almost_done, r)
  else Return NGX_HTTP_PARSE_INVALID_REQUEST (sw_almost_done, r).

(** * The parser *)

Definition request_step (mac : str_macros) (mem : list Z) (p ch : Z)
  (s : request_line_vars) : option request_result :=
  let '(state, r) := s in
  match state with
  | sw_start => Some (case_start p ch r)
  | sw_method => case_method mac mem p ch r
  | sw_spaces_before_uri => Some (case_spaces_before_uri p ch r)
  | sw_schema => Some (case_schema p ch r)
  | sw_schema_slash => Some (case_schema_slash p ch r)
  | sw_schema_slash_slash => Some (case_schema_slash_slash p ch r)
  | sw_host => Some (case_host p ch r)
  | sw_port => Some (case_port p ch r)
  | sw_host_http_09 => Some (case_host_http_09 p ch r)
  | sw_after_slash_in_uri => Some (case_after_slash_in_uri p ch r)
  | sw_check_uri => Some (case_check_uri p ch r)
  | sw_check_uri_http_09 => Some (case_check_uri_http_09 p ch r)
  | sw_uri => Some (case_uri p ch r)
  | sw_http_09 => Some (case_http_09 p ch r)
  | sw_http_H => Some (case_http_H p ch r)
  | sw_http_HT => Some (case_http_HT p ch r)
  | sw_http_HTT => Some (case_http_HTT p ch r)
  | sw_http_HTTP => Some (case_http_HTTP p ch r)
  | sw_first_major_digit => Some (case_first_major_digit p ch r)
  | sw_major_digit => Some (case_major_digit p ch r)
  | sw_first_minor_digit => Some (case_first_minor_digit p ch r)
  | sw_minor_digit => Some (case_minor_digit p ch r)
  | sw_spaces_after_digit => Some (case_spaces_after_digit p ch r)
  | sw_almost_done => Some (case_almost_done p ch r)
  end.

(** From the label [done] on; [p] is the offset of the line feed. *)
Definition request_done (p : Z) (r : ngx_http_request_t) : Z * ngx_http_request_t :=
  let r := match r_request_end r with
           | None => r <| r_request_end := Some p |>
           | Some _ => r
           end in
  let r := r <| r_http_version := r_http_major r * 1000 + r_http_minor r |>
             <| r_state := 0 |> in
  if (r_http_version r =? 9) && negb (r_method r =? NGX_HTTP_GET)
  then (NGX_HTTP_PARSE_INVALID_09_METHOD, r)
  else (NGX_OK, r).

(** The [switch] looks back at the method token only. *)
Lemma request_step_local mac mem mem' p ch s :
  0 <= p < Z.of_nat (length mem) ->
  request_step mac (mem ++ mem') p ch s = request_step mac mem p ch s.
Proof.
  intros Hp. destruct s as [[] r]; try done. cbn. unfold case_method.
  destruct (ch =? _); [|done]. cbn. destruct (r_request_start r) as [m|]; [|done].
  cbn. by rewrite slice_app by lia.
Qed.

#[export] Instance request_parser (mac : str_macros) : LineParser request_line_vars := {
  line_step := request_step mac;
  line_step_local := request_step_local mac;
}.

Abbreviation request_loop mac := (line_loop (H := request_parser mac)).

(** What follows the loop. *)
Definition request_return (b : ngx_buf_t) (p : Z) (res : request_result)
  : option (Z * ngx_http_request_t * ngx_buf_t) :=
  match res with
  | Continue (state, r) =>
      Some (NGX_AGAIN, r <| r_state := request_state_code state |>,
            mk_buf (b_mem b) p (b_last b))
  | Goto_done (_, r) =>
      let '(rc, r) := request_done p r in
      Some (rc, r, mk_buf (b_mem b) (p + 1) (b_last b))
  | Goto_header_done _ => None
  | Return rc (_, r) => Some (rc, r, b)
  end.

Definition ngx_http_parse_request_line (mac : str_macros) (r : ngx_http_request_t)
  (b : ngx_buf_t) : option (Z * ngx_http_request_t * ngx_buf_t) :=
  state ← request_state_of (r_state r);
  bytes ← slice (b_mem b) (b_pos b) (b_last b);
  '(p, res) ← request_loop mac (b_mem b) (b_pos b) bytes (state, r);
  request_return b p res.

(** A whole line in one buffer, for a fresh request. *)
Definition parse_line (line : list Z) : option (Z * ngx_http_request_t * ngx_buf_t) :=
  ngx_http_parse_request_line portable_macros request0
    (mk_buf line 0 (Z.of_nat (length line))).

Example parse_get :
  (fun '(rc, r, b) => (rc, r_method r, r_uri_start r, r_args_start r, r_uri_end r,
                       r_uri_ext r, r_http_version r, b_pos b))
  <$> parse_line (cstr "GET /a/b.html?x=1 HTTP/1.1" ++ [CR; LF]) =
  Some (NGX_OK, NGX_HTTP_GET, Some 4, Some 14, Some 17, Some 9, 1001, 28).
Proof. reflexivity. Qed.

(** * The two builds of the method comparison *)

Lemma word32_sum c0 c1 c2 c3 :
  is_byte c0 -> is_byte c1 -> is_byte c2 -> is_byte c3 ->
  word32 c0 c1 c2 c3 = c0 + c1 * 2 ^ 8 + c2 * 2 ^ 16 + c3 * 2 ^ 24.
Proof.
  unfold is_byte, word32. intros.
  rewrite (lor_shiftl_add c3 (Z.shiftl c2 16) 24), Z.shiftl_mul_pow2 by
    (try rewrite Z.shiftl_mul_pow2; lia).
  replace (c3 * 2 ^ 24 + c2 * 2 ^ 16) with (Z.shiftl (c3 * 2 ^ 8 + c2) 16)
    by (rewrite Z.shiftl_mul_pow2; lia).
  rewrite lor_shiftl_add by (try rewrite Z.shiftl_mul_pow2; lia).
  rewrite Z.shiftl_mul_pow2 by lia.
  replace ((c3 * 2 ^ 8 + c2) * 2 ^ 16 + c1 * 2 ^ 8)
    with (Z.shiftl (c3 * 2 ^ 16 + c2 * 2 ^ 8 + c1) 8)
    by (rewrite Z.shiftl_mul_pow2; lia).
  rewrite lor_shiftl_add by lia. lia.
Qed.

Lemma tok_byte m i : is_bytes m -> is_byte (tok m i).
Proof.
  intros H. unfold tok. destruct (nth_in_or_default i m 0) as [Hi| ->].
  - by apply (proj1 (List.Forall_forall is_byte m) H).
  - unfold is_byte. lia.
Qed.

Lemma load32_eq m i c0 c1 c2 c3 :
  is_bytes m -> is_byte c0 -> is_byte c1 -> is_byte c2 -> is_byte c3 ->
  (load32 m i =? word32 c0 c1 c2 c3) =
  (tok m (4 * i) =? c0) && (tok m (4 * i + 1) =? c1)
  && (tok m (4 * i + 2) =? c2) && (tok m (4 * i + 3) =? c3).
Proof.
  intros Hm H0 H1 H2 H3. rewrite word32_sum by done. unfold load32.
  pose proof (tok_byte m (4 * i) Hm). pose proof (tok_byte m (4 * i + 1) Hm).
  pose proof (tok_byte m (4 * i + 2) Hm). pose proof (tok_byte m (4 * i + 3) Hm).
  unfold is_byte in *. apply eq_true_iff_eq.
  rewrite !andb_true_iff, !Z.eqb_eq. lia.
Qed.

Lemma load32_low m i c4 c5 :
  is_bytes m -> is_byte c4 -> is_byte c5 ->
  (Z.land (load32 m i) 0xffff =? Z.lor (Z.shiftl c5 8) c4) =
  (tok m (4 * i) =? c4) && (tok m (4 * i + 1) =? c5).
Proof.
  intros Hm H4 H5. unfold is_byte in H4, H5.
  rewrite lor_shiftl_add by lia. change 0xffff with (2 ^ 16 - 1).
  rewrite land_ones_mod by lia. unfold load32.
  replace (tok m (4 * i) + tok m (4 * i + 1) * 2 ^ 8 + tok m (4 * i + 2) * 2 ^ 16
           + tok m (4 * i + 3) * 2 ^ 24)
    with (tok m (4 * i) + tok m (4 * i + 1) * 2 ^ 8
          + (tok m (4 * i + 2) + tok m (4 * i + 3) * 2 ^ 8) * 2 ^ 16) by lia.
  rewrite Z.mod_add by lia.
  pose proof (tok_byte m (4 * i) Hm). pose proof (tok_byte m (4 * i + 1) Hm).
  unfold is_byte in *. rewrite Z.mod_small by lia. apply eq_true_iff_eq.
  rewrite !andb_true_iff, !Z.eqb_eq. lia.
Qed.

(** On a token followed by the space that ends it, both builds find the same
    method: the four-byte loads compare the space too, and the [O] the
    portable macro skips was tested before. *)
Lemma method_of_builds len m old :
  is_bytes m -> tok m (Z.to_nat len) = " "%cc ->
  method_of little_endian_macros len m old = method_of portable_macros len m old.
Proof.
  intros Hm Hsp. unfold method_of, little_endian_macros, portable_macros; cbn [str3_cmp
    str3Ocmp str4cmp str5cmp str6cmp str7_cmp str8cmp str9cmp].
  unfold le_str9cmp, le_str8cmp, le_str6cmp, le_str5cmp, le_str4cmp.
  rewrite !load32_eq, !load32_low by (done || by_eval). cbn [Nat.mul Nat.add].
  unfold ngx_str3_cmp, ngx_str3Ocmp, ngx_str4cmp, ngx_str5cmp, ngx_str6cmp,
    ngx_str7_cmp, ngx_str8cmp, ngx_str9cmp.
  destruct (Z.eqb_spec len 3) as [->|].
  { change (Z.to_nat 3) with 3%nat in Hsp. by rewrite Hsp, Z.eqb_refl, !andb_true_r. }
  destruct (Z.eqb_spec len 4) as [->|].
  { destruct (tok m 1 =? "O"%cc); [by rewrite !andb_true_r|done]. }
  destruct (Z.eqb_spec len 5) as [->|]; [done|].
  destruct (Z.eqb_spec len 6) as [->|]; [by rewrite <- !andb_assoc|].
  destruct (Z.eqb_spec len 7) as [->|].
  { change (Z.to_nat 7) with 7%nat in Hsp.
    by rewrite Hsp, Z.eqb_refl, !andb_true_r, <- !andb_assoc. }
  destruct (Z.eqb_spec len 8) as [->|]; [by rewrite <- !andb_assoc|].
  destruct (Z.eqb_spec len 9) as [->|]; [by rewrite <- !andb_assoc|done].
Qed.

Lemma request_state_of_code st : request_state_of (request_state_code st) = Some st.
Proof. by destruct st. Qed.

(** The body of every [case] but that of the method. *)
Ltac unfold_case :=
  cbv delta [case_start case_spaces_before_uri case_schema case_schema_slash
    case_schema_slash_slash case_host case_port case_host_http_09
    case_after_slash_in_uri case_check_uri case_check_uri_http_09 case_uri case_http_09
    case_http_H case_http_HT case_http_HTT case_http_HTTP case_first_major_digit
    case_major_digit case_first_minor_digit case_minor_digit case_spaces_after_digit
    case_almost_done] beta zeta.

(** * Resuming *)

(** The value of [r->state] is read before the loop only. *)
Lemma request_step_state mac x mem p ch s :
  let f := fun '(st, r) => (st, r <| r_state := x |>) : request_line_vars in
  request_step mac mem p ch (f s) = step_map f <$> request_step mac mem p ch s.
Proof.
  intros f. subst f. destruct s as [st r]. destruct st; cbn [request_step].
  2: { unfold case_method. repeat case_match; try done. cbn.
       destruct (r_request_start r) as [m|]; cbn; [|done].
       by destruct (slice mem m (p + 1)). }
  all: unfold_case;
    repeat case_match; reflexivity.
Qed.

Lemma request_step_codes mac mem p ch s rc s' :
  request_step mac mem p ch s = Some (Return rc s') ->
  rc = NGX_HTTP_PARSE_INVALID_METHOD \/ rc = NGX_HTTP_PARSE_INVALID_REQUEST.
Proof.
  destruct s as [[] r]; cbn [request_step].
  2: { unfold case_method. repeat case_match; try naive_solver. cbn.
       destruct (r_request_start r) as [m|]; cbn; [|done].
       by destruct (slice mem m (p + 1)). }
  all: unfold_case;
    repeat case_match; naive_solver.
Qed.

(** What the caller sees: on a syntax error neither [b->pos] nor [r->state] is
    updated, and the request is abandoned; in the other cases everything is
    compared. *)
Definition request_outcome (x : option (Z * ngx_http_request_t * ngx_buf_t))
  : option (Z * ngx_http_request_t * option ngx_buf_t) :=
  '(rc, r, b) ← x;
  if (rc =? NGX_HTTP_PARSE_INVALID_METHOD) || (rc =? NGX_HTTP_PARSE_INVALID_REQUEST)
  then Some (rc, r <| r_state := 0 |>, None)
  else Some (rc, r, Some b).

Lemma line_loop_codes mac mem p l s q rc s' :
  request_loop mac mem p l s = Some (q, Return rc s') ->
  rc = NGX_HTTP_PARSE_INVALID_METHOD \/ rc = NGX_HTTP_PARSE_INVALID_REQUEST.
Proof.
  revert p s. induction l as [|ch l IH]; intros p s; cbn [line_loop line_step request_parser];
    [done|].
  destruct (request_step mac mem p ch s) as [[]|] eqn:E; try done; [apply IH|].
  intros [= -> -> ->]. by eapply request_step_codes.
Qed.

(** C12: the parser is resumable: when the bytes received so far give
    [NGX_AGAIN], parsing what arrives later from the saved state gives what
    parsing all bytes at once gives; any other result is final, whatever
    follows in the buffer.  So the result does not depend on how the line is
    cut into packets. *)
Theorem request_line_resumes mac r mem1 mem2 pos rc r1 b1 :
  let parse r mem pos :=
    ngx_http_parse_request_line mac r (mk_buf mem pos (Z.of_nat (length mem))) in
  parse r mem1 pos = Some (rc, r1, b1) ->
  if decide (rc = NGX_AGAIN)
  then request_outcome (parse r (mem1 ++ mem2) pos) =
       request_outcome (parse r1 (mem1 ++ mem2) (b_pos b1))
  else request_outcome (parse r (mem1 ++ mem2) pos) =
       request_outcome (Some (rc, r1,
         mk_buf (mem1 ++ mem2) (b_pos b1) (Z.of_nat (length (mem1 ++ mem2))))).
Proof.
  intros parse. subst parse. cbn beta. unfold ngx_http_parse_request_line. cbn [b_mem b_pos b_last].
  destruct (request_state_of (r_state r)) as [st|] eqn:Est; cbn; [|done].
  destruct (slice mem1 pos _) as [l|] eqn:Hl; cbn; [|done].
  destruct (slice_grow _ mem2 _ _ Hl) as [Hw Hr]. rewrite Hw. cbn.
  pose proof (slice_bounds _ _ _ _ Hl) as (Hb & _ & Hlen).
  rewrite line_loop_chunks by lia.
  destruct (request_loop mac mem1 pos l (st, r)) as [[p' [[st' r']|[st' r']|[st' r']|rc' [st' r']]]|] eqn:E;
    cbn; [|destruct (request_done p' r') as [rc' r''] eqn:Ed|done| |done].
  - intros [= <- <- <-]. apply line_loop_pos in E. replace p' with (Z.of_nat (length mem1)) by lia.
    rewrite decide_True by done. cbn. rewrite request_state_of_code. cbn.
    rewrite Hr. cbn.
    rewrite (line_loop_map (fun '(st, r) => (st, r <| r_state := request_state_code st' |>)) _ _ _ (st', r'))
      by (intros; apply request_step_state).
    destruct (request_loop mac (mem1 ++ mem2) _ mem2 (st', r'))
      as [[q [[st2 r2]|[st2 r2]|[st2 r2]|rc2 [st2 r2]]]|] eqn:E2; cbn; try done.
    + unfold request_done. cbn. destruct (r_request_end r2); cbn; by destruct (_ && _).
    + by apply line_loop_codes in E2 as [-> | ->].
  - intros [= <- <- <-]. destruct (decide _) as [->|_]; [|done].
    revert Ed. unfold request_done. by case_match; case_match.
  - intros [= <- <- <-]. destruct (decide _) as [->|_].
    + by apply line_loop_codes in E as [? | ?].
    + by apply line_loop_codes in E as [-> | ->].
Qed.

Example request_line_resumes_witness :
  let b := mk_buf (cstr "GET /a HT") 0 9 in
  exists rc r1 b1,
    ngx_http_parse_request_line portable_macros request0 b = Some (rc, r1, b1) /\
    rc = NGX_AGAIN /\
    request_outcome (ngx_http_parse_request_line portable_macros request0
      (mk_buf (cstr "GET /a HT" ++ cstr "TP/1.0" ++ [LF]) 0 16)) =
    request_outcome (ngx_http_parse_request_line portable_macros r1
      (mk_buf (cstr "GET /a HT" ++ cstr "TP/1.0" ++ [LF]) (b_pos b1) 16)).
Proof.
  cbv zeta.
  destruct (ngx_http_parse_request_line portable_macros request0
    (mk_buf (cstr "GET /a HT") 0 9)) as [[[rc r1] b1]|] eqn:E; [|done].
  exists rc, r1, b1. split; [done|].
  pose proof (request_line_resumes portable_macros request0 (cstr "GET /a HT")
    (cstr "TP/1.0" ++ [LF]) 0 rc r1 b1 E) as H.
  assert (rc = NGX_AGAIN) as -> by (vm_compute in E; by injection E).
  split; [done|]. exact H.
Defined.

(** * Invariants of the parser *)

(** A path that needs no normalisation: it starts with a slash, has no "//",
    no "/." and none of the characters [%], [#] and [?]. *)
Definition plain_char (prev c : Z) : bool :=
  negb ((c =? "%"%cc) || (c =? "#"%cc) || (c =? "?"%cc))
  && negb ((prev =? "/"%cc) && ((c =? "/"%cc) || (c =? "."%cc))).

Fixpoint plain_tail (prev : Z) (w : list Z) : bool :=
  match w with
  | [] => true
  | c :: w' => plain_char prev c && plain_tail c w'
  end.

Definition plain_path (w : list Z) : bool :=
  match w with
  | [] => false
  | c :: w' => (c =? "/"%cc) && plain_tail c w'
  end.

Lemma plain_tail_snoc prev w c :
  plain_tail prev (w ++ [c]) = plain_tail prev w && plain_char (default prev (last w)) c.
Proof.
  revert prev. induction w as [|d w IH]; intros prev; cbn [plain_tail app].
  - by rewrite andb_true_r.
  - rewrite IH, andb_assoc, last_cons. by destruct (last w).
Qed.

Lemma plain_path_snoc w c :
  plain_path w = true -> plain_char (default 0 (last w)) c = true ->
  plain_path (w ++ [c]) = true.
Proof.
  destruct w as [|d w]; [done|]. cbn [plain_path app]. rewrite plain_tail_snoc, last_cons.
  rewrite !andb_true_iff. intros [-> ->]. by destruct (last w).
Qed.

(** The flags that send the URI to [ngx_http_parse_complex_uri], and the one
    for a space inside it, are all clear. *)
Definition clean (r : ngx_http_request_t) : Prop :=
  r_complex_uri r = false /\ r_quoted_uri r = false /\ r_space_in_uri r = false.

Definition no_uri (r : ngx_http_request_t) : Prop :=
  r_uri_ext r = None /\ r_args_start r = None /\
  r_http_protocol_data r = None /\ r_request_end r = None.

Definition no_host (r : ngx_http_request_t) : Prop :=
  r_host_start r = None /\ r_host_end r = None.

Definition host_ok (r : ngx_http_request_t) : Prop :=
  match r_host_start r, r_host_end r with
  | None, None => True
  | Some h, Some e => h <= e
  | _, _ => False
  end.

(** The method token lies between [lo] and the space before [hi]. *)
Definition method_ok (lo hi : Z) (r : ngx_http_request_t) : Prop :=
  exists a m, r_request_start r = Some a /\ r_method_end r = Some m /\
    lo <= a <= m /\ m + 1 < hi.

(** The extension and the arguments lie between [u] and [hi]. *)
Definition uri_ptrs (u hi : Z) (r : ngx_http_request_t) : Prop :=
  match r_uri_ext r with
  | None => True
  | Some x => u < x <= match r_args_start r with Some s => s - 1 | None => hi end
  end /\
  match r_args_start r with None => True | Some s => u + 2 <= s <= hi end.

(** Where the path of a URI that ends at [e] ends. *)
Definition path_end (r : ngx_http_request_t) (e : Z) : Z :=
  match r_args_start r with Some s => s - 1 | None => e end.

Definition plain_slice (mem : list Z) (from until : Z) : Prop :=
  exists w, slice mem from until = Some w /\ plain_path w = true.

(** The same, and the last byte is not a slash. *)
Definition checked_slice (mem : list Z) (from until : Z) : Prop :=
  exists w, slice mem from until = Some w /\ plain_path w = true /\
    default 0 (last w) <> "/"%cc.

Definition in_uri (lo : Z) (mem : list Z) (p u : Z) (r : ngx_http_request_t) : Prop :=
  r_uri_start r = Some u /\ method_ok lo u r /\ rd mem u = Some "/"%cc /\ u < p /\
  uri_ptrs u p r /\ host_ok r /\
  r_http_protocol_data r = None /\ r_request_end r = None.

Definition uri_done (lo : Z) (mem : list Z) (hi u e : Z) (r : ngx_http_request_t) : Prop :=
  r_uri_start r = Some u /\ r_uri_end r = Some e /\ method_ok lo u r /\
  rd mem u = Some "/"%cc /\ u < e <= hi /\ uri_ptrs u e r /\ host_ok r /\
  (clean r -> plain_slice mem u (path_end r e)).

Definition in_host (lo : Z) (mem : list Z) (p s h : Z) (r : ngx_http_request_t) : Prop :=
  no_uri r /\ method_ok lo s r /\ r_schema_end r = Some s /\
  rd mem (s + 1) = Some "/"%cc /\ r_host_start r = Some h /\ s + 2 < h <= p.

(** The version states: "HTTP" starts at [r->http_protocol.data]. *)
Definition in_version (lo : Z) (mem : list Z) (p : Z) (r : ngx_http_request_t) : Prop :=
  exists u e h, uri_done lo mem (p - 1) u e r /\ r_request_end r = None /\
    r_http_protocol_data r = Some h /\ e < h < p.

Definition request_inv (lo : Z) (mem : list Z) (p : Z) (s : request_line_vars) : Prop :=
  let '(st, r) := s in
  0 <= lo <= p /\
  match st with
  | sw_start => no_uri r /\ no_host r
  | sw_method => no_uri r /\ no_host r /\
      exists a, r_request_start r = Some a /\ lo <= a < p
  | sw_spaces_before_uri | sw_schema => no_uri r /\ no_host r /\ method_ok lo p r
  | sw_schema_slash => no_uri r /\ no_host r /\ method_ok lo (p - 1) r /\
      r_schema_end r = Some (p - 1)
  | sw_schema_slash_slash => no_uri r /\ no_host r /\ method_ok lo (p - 2) r /\
      r_schema_end r = Some (p - 2) /\ rd mem (p - 1) = Some "/"%cc
  | sw_host => exists s h, in_host lo mem p s h r /\ r_host_end r = None
  | sw_port => exists s h e, in_host lo mem p s h r /\ r_host_end r = Some e /\ h <= e
  | sw_after_slash_in_uri => exists u, in_uri lo mem p u r /\ r_args_start r = None /\
      (clean r -> plain_slice mem u p)
  | sw_check_uri => exists u, in_uri lo mem p u r /\ r_args_start r = None /\
      (clean r -> checked_slice mem u p)
  | sw_uri => exists u, in_uri lo mem p u r /\
      (clean r -> exists s, r_args_start r = Some s /\ plain_slice mem u (s - 1))
  | sw_check_uri_http_09 => exists u e, uri_done lo mem (p - 1) u e r /\
      r_args_start r = None /\ r_http_protocol_data r = None /\ r_request_end r = None
  | sw_http_09 | sw_host_http_09 => exists u e, uri_done lo mem (p - 1) u e r /\
      r_http_protocol_data r = None /\ r_request_end r = None
  | sw_almost_done => exists u e, uri_done lo mem (p - 1) u e r /\
      r_request_end r = None /\
      match r_http_protocol_data r with None => True | Some h => e < h < p - 1 end
  | _ => in_version lo mem p r
  end.

(** What holds where the loop stops. *)
Definition request_post (lo : Z) (mem : list Z) (p : Z) (res : request_result) : Prop :=
  match res with
  | Continue s => request_inv lo mem p s
  | Goto_done (_, r) => 0 <= lo <= p /\
      exists u e, uri_done lo mem p u e r /\
      match r_request_end r with None => True | Some q => q = p - 1 /\ e <= q end /\
      match r_http_protocol_data r with
      | None => True
      | Some h => e < h < default p (r_request_end r)
      end
  | Goto_header_done _ => False
  | Return _ _ => True
  end.

Lemma usual_plain ch :
  usual ch = true ->
  ch <> "/"%cc /\ ch <> "."%cc /\ ch <> "%"%cc /\ ch <> "#"%cc /\ ch <> "?"%cc /\
  ch <> " "%cc /\ ch <> CR /\ ch <> LF.
Proof. intros H. split_and!; intros ->; discriminate H. Qed.

Lemma method_ok_mono lo hi hi' r : method_ok lo hi r -> hi <= hi' -> method_ok lo hi' r.
Proof. intros (a & m & ? & ? & ? & ?) ?. exists a, m. split_and!; done || lia. Qed.

Lemma plain_char_other prev c :
  c <> "/"%cc -> c <> "."%cc -> c <> "%"%cc -> c <> "#"%cc -> c <> "?"%cc ->
  plain_char prev c = true.
Proof. intros. unfold plain_char. lia. Qed.

Lemma plain_slice_checked mem u p ch :
  plain_slice mem u p -> rd mem p = Some ch ->
  ch <> "/"%cc -> ch <> "."%cc -> ch <> "%"%cc -> ch <> "#"%cc -> ch <> "?"%cc ->
  checked_slice mem u (p + 1).
Proof.
  intros (w & Hs & Hw) Hch. intros. exists (w ++ [ch]). split_and!.
  - by apply slice_snoc.
  - apply plain_path_snoc; [done|]. by apply plain_char_other.
  - by rewrite last_snoc.
Qed.

Lemma checked_slice_plain mem u p : checked_slice mem u p -> plain_slice mem u p.
Proof. intros (w & ? & ? & _). by exists w. Qed.

Lemma checked_slice_snoc mem u p ch :
  checked_slice mem u p -> rd mem p = Some ch ->
  ch <> "%"%cc -> ch <> "#"%cc -> ch <> "?"%cc -> plain_slice mem u (p + 1).
Proof.
  intros (w & Hs & Hw & Hl) Hch. intros. exists (w ++ [ch]). split.
  - by apply slice_snoc.
  - apply plain_path_snoc; [done|]. unfold plain_char. lia.
Qed.

Lemma checked_slice_checked mem u p ch :
  checked_slice mem u p -> rd mem p = Some ch ->
  ch <> "/"%cc -> ch <> "%"%cc -> ch <> "#"%cc -> ch <> "?"%cc ->
  checked_slice mem u (p + 1).
Proof.
  intros Hc Hch ?. intros. pose proof Hc as (w & Hs & _).
  destruct (checked_slice_snoc mem u p ch) as (w' & Hs' & Hw'); [done..|].
  exists w'. split_and!; [done..|]. rewrite (slice_snoc mem u p w ch) in Hs' by done.
  injection Hs' as <-. by rewrite last_snoc.
Qed.

Lemma plain_slice_one mem u : rd mem u = Some "/"%cc -> plain_slice mem u (u + 1).
Proof.
  intros Hu. exists ["/"%cc]. split; [|done].
  unfold rd in Hu. destruct (Z.ltb_spec u 0); [done|].
  pose proof (lookup_lt_Some _ _ _ Hu).
  apply (slice_snoc _ _ _ []); [by apply slice_empty; lia|].
  unfold rd. by destruct (Z.ltb_spec u 0); [lia|].
Qed.

(** Run the [case] of the goal and give its result. *)
Ltac run_case :=
  unfold_case; repeat case_match; eexists; (split; [reflexivity|]); cbn.

(** The boolean tests of the context as propositions, and the fields of the
    request as variables. *)
Ltac fields r :=
  unfold in_uri, in_host, in_version, uri_done, method_ok, no_uri, no_host, host_ok,
    uri_ptrs, path_end, clean in *;
  destruct r; cbn in *;
  repeat match goal with
  | H : _ /\ _ |- _ => destruct H
  | H : exists _, _ |- _ => destruct H
  end; simplify_eq; cbn in *.

Ltac tests :=
  repeat match goal with
  | H : (_ =? _) = true |- _ => apply Z.eqb_eq in H; subst
  | H : (_ =? _) = false |- _ => apply Z.eqb_neq in H
  | H : usual _ = true |- _ => apply usual_plain in H; destruct_and! H
  end.

Ltac close_inv :=
  repeat match goal with
  | |- exists _, _ => eexists
  | |- _ /\ _ => split
  end;
  first [eassumption | reflexivity | done | lia | solve [repeat case_match; done || lia]
    | idtac].

(** The claims on the bytes of the path. *)
Ltac close_path :=
  intros Hclean;
  repeat match goal with
  | H : _ /\ _ /\ _ -> _ |- _ => specialize (H Hclean)
  | H : exists _, _ /\ _ |- _ => destruct H as (? & ? & ?)
  end; simplify_eq; try discriminate;
  repeat match goal with |- exists _, _ => eexists; split; [reflexivity|] end;
  rewrite ?Z.add_simpl_r;
  first [eassumption | by apply plain_slice_one
    | by apply checked_slice_plain
    | solve [eapply plain_slice_checked; (eassumption || done)]
    | solve [eapply checked_slice_checked; (eassumption || done)]
    | solve [eapply checked_slice_snoc; (eassumption || done)]
    | solve [apply checked_slice_plain; eapply plain_slice_checked; (eassumption || done)]
    | exfalso; destruct Hclean as (? & ? & ?); discriminate].


Section invariant.
Context (mac : str_macros) (lo : Z) (mem : list Z).

(** What one turn owes. *)
Definition step_ok (p ch : Z) (s : request_line_vars) : Prop :=
  exists res, request_step mac mem p ch s = Some res /\
    match res with
    | Continue s' => request_inv lo mem (p + 1) s'
    | _ => request_post lo mem p res
    end.


Ltac step_start Hst Hinv :=
  unfold step_ok;
  repeat (apply elem_of_cons in Hst as [-> | Hst]); [..|by apply elem_of_nil in Hst];
  cbn [request_inv] in Hinv; destruct Hinv as [Hlo Hinv]; cbn [request_step].

Lemma step_before_uri p ch st r :
  st ∈ [sw_start; sw_spaces_before_uri; sw_schema; sw_schema_slash; sw_schema_slash_slash] ->
  rd mem p = Some ch -> request_inv lo mem p (st, r) -> step_ok p ch (st, r).
Proof.
  intros Hst Hch Hinv. step_start Hst Hinv; run_case; try done; tests; fields r;
    replace (p + 1 - 1) with p by lia; replace (p + 1 - 2) with (p - 1) by lia;
    close_inv.
  - intros _. by apply plain_slice_one.
  - by replace (p - 2 + 1) with (p - 1) by lia.
Qed.

Lemma step_method p ch r :
  rd mem p = Some ch -> request_inv lo mem p (sw_method, r) -> step_ok p ch (sw_method, r).
Proof.
  unfold step_ok. cbn. intros Hch (Hlo & Hu & Hh & a & Ha & Hap). unfold case_method.
  destruct (ch =? " "%cc).
  - cbn. rewrite Ha. cbn. unfold rd in Hch. destruct (Z.ltb_spec p 0); [done|].
    pose proof (lookup_lt_Some _ _ _ Hch). rewrite slice_is_Some by lia. cbn.
    eexists; split; [done|]. cbn. fields r. close_inv.
  - destruct (negb (method_char ch)); eexists; split; try done.
    cbn. fields r. close_inv.
Qed.

Lemma step_host p ch st r :
  st ∈ [sw_host; sw_port] ->
  rd mem p = Some ch -> request_inv lo mem p (st, r) -> step_ok p ch (st, r).
Proof.
  intros Hst Hch Hinv. step_start Hst Hinv; run_case; try done; tests; fields r; close_inv;
    try match goal with |- _ -> plain_slice mem (?x + 1) (?x + 2) =>
          replace (x + 2) with (x + 1 + 1) by lia
        end; close_path.
Qed.

Lemma step_in_uri p ch st r :
  st ∈ [sw_after_slash_in_uri; sw_check_uri; sw_uri] ->
  rd mem p = Some ch -> request_inv lo mem p (st, r) -> step_ok p ch (st, r).
Proof.
  intros Hst Hch Hinv. step_start Hst Hinv; run_case; try done; tests; fields r; close_inv.
  all: close_path.
Qed.

Lemma step_after_uri p ch st r :
  st ∈ [sw_host_http_09; sw_check_uri_http_09; sw_http_09; sw_almost_done] ->
  rd mem p = Some ch -> request_inv lo mem p (st, r) -> step_ok p ch (st, r).
Proof.
  intros Hst Hch Hinv. step_start Hst Hinv; run_case; try done; tests; fields r; close_inv.
  all: close_path.
Qed.

Lemma step_version p ch st r :
  st ∈ [sw_http_H; sw_http_HT; sw_http_HTT; sw_http_HTTP; sw_first_major_digit; sw_major_digit;
        sw_first_minor_digit; sw_minor_digit; sw_spaces_after_digit] ->
  rd mem p = Some ch -> request_inv lo mem p (st, r) -> step_ok p ch (st, r).
Proof.
  intros Hst Hch Hinv. step_start Hst Hinv; run_case; try done; tests; fields r; close_inv.
  all: close_path.
Qed.
Lemma request_step_ok p ch s :
  request_inv lo mem p s -> rd mem p = Some ch -> step_ok p ch s.
Proof.
  destruct s as [st r]. intros Hinv Hch.
  destruct (decide (st = sw_method)) as [->|Hm]; [by apply step_method|].
  destruct st; try done;
    first [apply step_before_uri; [by_eval|done..] | apply step_host; [by_eval|done..]
      | apply step_in_uri; [by_eval|done..] | apply step_after_uri; [by_eval|done..]
      | apply step_version; [by_eval|done..]].
Qed.

End invariant.

(** * Theorems on the result *)

(** A request on which no line was parsed yet. *)
Definition fresh (r : ngx_http_request_t) : Prop :=
  r_state r = 0 /\ no_uri r /\ no_host r.

#[export] Instance fresh_dec r : Decision (fresh r).
Proof. unfold fresh, no_uri, no_host. apply _. Defined.

(** The loop over the bytes of a buffer, from a fresh request. *)
Lemma request_loop_post mac mem pos r :
  fresh r -> 0 <= pos <= Z.of_nat (length mem) ->
  exists l p res, slice mem pos (Z.of_nat (length mem)) = Some l /\
    request_loop mac mem pos l (sw_start, r) = Some (p, res) /\
    request_post pos mem p res /\
    match res with
    | Continue _ => p = Z.of_nat (length mem)
    | _ => pos <= p < Z.of_nat (length mem)
    end.
Proof.
  intros (Hst & Hu & Hh) Hpos.
  apply (line_loop_buffer (H := request_parser mac) (request_inv pos mem)); [done| |done|].
  - intros q ch s Hs Hch. by apply request_step_ok.
  - cbn. split_and!; done || lia.
Qed.

Lemma request_line_unfold mac mem pos r l p res :
  r_state r = 0 -> slice mem pos (Z.of_nat (length mem)) = Some l ->
  request_loop mac mem pos l (sw_start, r) = Some (p, res) ->
  ngx_http_parse_request_line mac r (mk_buf mem pos (Z.of_nat (length mem))) =
  request_return (mk_buf mem pos (Z.of_nat (length mem))) p res.
Proof.
  intros Hr Hl E. unfold ngx_http_parse_request_line.
  cbn [b_mem b_pos b_last]. by rewrite Hr, Hl; cbn [mbind option_bind];
    change (request_state_of 0) with (Some sw_start); cbn [mbind option_bind]; rewrite E.
Qed.

Lemma request_done_fields p r :
  exists rc, (rc = NGX_OK \/ rc = NGX_HTTP_PARSE_INVALID_09_METHOD) /\
  request_done p r =
    (rc, r <| r_request_end := Some (default p (r_request_end r)) |>
           <| r_http_version := r_http_major r * 1000 + r_http_minor r |>
           <| r_state := 0 |>).
Proof.
  unfold request_done. destruct r as [? [q|]]; cbn; repeat case_match;
    (eexists; split; [|reflexivity]; by (left + right)).
Qed.

(** The parser is total and its codes mean what they say: on a fresh
    request it never reads outside the buffer or through a null pointer,
    [NGX_AGAIN] is returned exactly when every byte was consumed without
    finding the end of the line, and a complete line ends in [NGX_OK] or
    [NGX_HTTP_PARSE_INVALID_09_METHOD] with [b->pos] after its line feed. *)
Theorem request_line_total mac mem pos r :
  fresh r -> 0 <= pos <= Z.of_nat (length mem) ->
  exists rc r' b',
    ngx_http_parse_request_line mac r (mk_buf mem pos (Z.of_nat (length mem)))
      = Some (rc, r', b') /\
    b_mem b' = mem /\ b_last b' = Z.of_nat (length mem) /\
    (rc = NGX_AGAIN /\ b_pos b' = b_last b' \/
     (rc = NGX_OK \/ rc = NGX_HTTP_PARSE_INVALID_09_METHOD) /\
       pos < b_pos b' <= b_last b' \/
     (rc = NGX_HTTP_PARSE_INVALID_METHOD \/ rc = NGX_HTTP_PARSE_INVALID_REQUEST) /\
       b_pos b' = pos).
Proof.
  intros Hf Hpos. destruct (request_loop_post mac mem pos r Hf Hpos) as (l & p & res & Hl & E & Hpost & Hstop).
  rewrite (request_line_unfold mac mem pos r l p res) by (done || apply Hf).
  destruct res as [[st r']|[st r']|[st r']|rc [st r']]; [| |done|].
  - eexists _, _, _. split; [done|]. cbn. split_and!; [done..|left].
    done.
  - cbn [request_return]. destruct (request_done_fields p r') as (rc & Hrc & ->).
    eexists _, _, _. split; [reflexivity|]. cbn. split_and!; [done..|right; left].
    split; [done|lia].
  - eexists _, _, _. split; [done|]. cbn. split_and!; [done..|right; right].
    apply line_loop_codes in E. done.
Qed.

Example request_line_total_witness :
  exists rc r' b',
    ngx_http_parse_request_line portable_macros request0 (mk_buf (cstr "GET /a") 0 6)
      = Some (rc, r', b') /\
    b_mem b' = cstr "GET /a" /\ b_last b' = 6 /\
    (rc = NGX_AGAIN /\ b_pos b' = b_last b' \/
     (rc = NGX_OK \/ rc = NGX_HTTP_PARSE_INVALID_09_METHOD) /\
       0 < b_pos b' <= b_last b' \/
     (rc = NGX_HTTP_PARSE_INVALID_METHOD \/ rc = NGX_HTTP_PARSE_INVALID_REQUEST) /\
       b_pos b' = 0).
Proof.
  apply (request_line_total portable_macros (cstr "GET /a") 0 request0); [by_eval|cbn; lia].
Defined.

(** The pointers of a complete line, as [request_done] leaves them. *)
Lemma request_line_done mac mem pos r rc r' b' :
  fresh r -> 0 <= pos <= Z.of_nat (length mem) ->
  ngx_http_parse_request_line mac r (mk_buf mem pos (Z.of_nat (length mem)))
    = Some (rc, r', b') ->
  rc = NGX_OK \/ rc = NGX_HTTP_PARSE_INVALID_09_METHOD ->
  exists u e q, uri_done pos mem q u e r' /\ r_request_end r' = Some q /\
    q < b_pos b' <= Z.of_nat (length mem) /\
    match r_http_protocol_data r' with None => True | Some h => e < h < q end.
Proof.
  intros Hf Hpos. destruct (request_loop_post mac mem pos r Hf Hpos) as (l & p & res & Hl & E & Hpost & Hstop).
  rewrite (request_line_unfold mac mem pos r l p res) by (done || apply Hf).
  destruct res as [[st r1]|[st r1]|[st r1]|rc' [st r1]]; [| |done|].
  - intros [= <- _ _] [|]; done.
  - destruct Hpost as (Hlo & u & e & Hud & Hq & Hh). cbn [request_return].
    destruct (request_done_fields p r1) as (rc' & _ & ->). intros [= _ <- <-] _.
    exists u, e, (default p (r_request_end r1)). cbn. split_and!; try done.
    + unfold uri_done, method_ok, uri_ptrs, host_ok, clean, path_end in *. cbn.
      destruct_and! Hud. destruct (r_request_end r1); cbn; split_and!; done || lia.
    + destruct (r_request_end r1); cbn; lia.
    + lia.
  - intros [= <- _ _] [-> | ->]; apply line_loop_codes in E as [? | ?]; done.
Qed.

(** C20: after [NGX_OK] the pointers of the request are set and ordered:
    method, URI, protocol and end of line follow each other inside the line
    just consumed, the URI starts with a slash, the extension and the
    arguments lie inside it, and the host, when there is one, is not of
    negative length.  This is what makes the pointer subtractions of
    [ngx_http_process_request_line] well defined. *)
Theorem request_line_pointers mac mem pos r r' b' :
  fresh r -> 0 <= pos <= Z.of_nat (length mem) ->
  ngx_http_parse_request_line mac r (mk_buf mem pos (Z.of_nat (length mem)))
    = Some (NGX_OK, r', b') ->
  exists a m u e q,
    r_request_start r' = Some a /\ r_method_end r' = Some m /\
    r_uri_start r' = Some u /\ r_uri_end r' = Some e /\ r_request_end r' = Some q /\
    pos <= a <= m /\ m + 1 < u < e /\ e <= q < b_pos b' /\
    b_pos b' <= Z.of_nat (length mem) /\
    rd mem u = Some "/"%cc /\ uri_ptrs u e r' /\ host_ok r' /\
    match r_http_protocol_data r' with None => True | Some h => e < h < q end.
Proof.
  intros Hf Hpos Hp.
  destruct (request_line_done mac mem pos r NGX_OK r' b' Hf Hpos Hp (or_introl eq_refl))
    as (u & e & q & (? & ? & (a & m & ? & ? & ? & ?) & ? & ? & ? & ? & _) & ? & ? & ?).
  exists a, m, u, e, q. split_and!; done || lia.
Qed.

Example request_line_pointers_witness :
  exists r' b' a m u e q,
    parse_line (cstr "PUT http://h:8/x?y HTTP/1.0" ++ [LF]) = Some (NGX_OK, r', b') /\
    r_request_start r' = Some a /\ r_method_end r' = Some m /\
    r_uri_start r' = Some u /\ r_uri_end r' = Some e /\ r_request_end r' = Some q /\
    0 <= a <= m /\ m + 1 < u < e /\ e <= q < b_pos b' /\ b_pos b' <= 28 /\ uri_ptrs u e r'.
Proof.
  unfold parse_line.
  destruct (ngx_http_parse_request_line portable_macros request0 _) as [[[rc r'] b']|] eqn:E; [|done].
  assert (rc = NGX_OK) as -> by (vm_compute in E; by injection E).
  destruct (request_line_pointers portable_macros (cstr "PUT http://h:8/x?y HTTP/1.0" ++ [LF]) 0
    request0 r' b') as (a & m & u & e & q & H); [by_eval|cbn; lia|exact E|].
  exists r', b', a, m, u, e, q. destruct_and! H. by split_and!.
Defined.

(** C11: the parser does not miss a URI that has to be normalised: when it
    leaves [complex_uri], [quoted_uri] and [space_in_uri] clear, the path is
    used as it is, and it has no "//", no "/." (so no "/./" or "/../" segment),
    no [%], no [#] and no [?]. *)
Theorem request_line_plain mac mem pos r r' b' :
  fresh r -> 0 <= pos <= Z.of_nat (length mem) ->
  ngx_http_parse_request_line mac r (mk_buf mem pos (Z.of_nat (length mem)))
    = Some (NGX_OK, r', b') ->
  r_complex_uri r' = false -> r_quoted_uri r' = false -> r_space_in_uri r' = false ->
  exists u e w, r_uri_start r' = Some u /\ r_uri_end r' = Some e /\
    slice mem u (path_end r' e) = Some w /\ plain_path w = true.
Proof.
  intros Hf Hpos Hp ? ? ?.
  destruct (request_line_done mac mem pos r NGX_OK r' b' Hf Hpos Hp (or_introl eq_refl))
    as (u & e & q & (? & ? & _ & _ & _ & _ & _ & Hc) & _).
  destruct Hc as (w & ? & ?); [done|]. by exists u, e, w.
Qed.

Example request_line_plain_witness :
  exists r' b' u e w,
    parse_line (cstr "GET /a/b.c?/../ HTTP/1.0" ++ [LF]) = Some (NGX_OK, r', b') /\
    r_uri_start r' = Some u /\ r_uri_end r' = Some e /\
    slice (cstr "GET /a/b.c?/../ HTTP/1.0" ++ [LF]) u (path_end r' e) = Some w /\
    plain_path w = true.
Proof.
  unfold parse_line.
  destruct (ngx_http_parse_request_line portable_macros request0 _) as [[[rc r'] b']|] eqn:E; [|done].
  assert (rc = NGX_OK /\ r_complex_uri r' = false /\ r_quoted_uri r' = false /\
          r_space_in_uri r' = false) as (-> & ? & ? & ?)
    by (vm_compute in E; by injection E as <- <- _).
  destruct (request_line_plain portable_macros (cstr "GET /a/b.c?/../ HTTP/1.0" ++ [LF]) 0
    request0 r' b') as (u & e & w & Hw); [by_eval|cbn; lia|exact E|done..|].
  by exists r', b', u, e, w.
Defined.

(** The hypothesis on the space is needed: after an unescaped space the
    parser resumes in [sw_check_uri] without looking at the byte it has just
    read, so that "/a /../b" is accepted with [complex_uri] and [quoted_uri]
    clear and its "/../" is never resolved. *)
Theorem space_hides_dot_dot :
  exists r' b', parse_line (cstr "GET /a /../b HTTP/1.0" ++ [LF]) = Some (NGX_OK, r', b') /\
    r_complex_uri r' = false /\ r_quoted_uri r' = false /\ r_space_in_uri r' = true /\
    r_uri_start r' = Some 4 /\ r_uri_end r' = Some 12 /\
    slice (cstr "GET /a /../b HTTP/1.0") 4 12 = Some (cstr "/a /../b").
Proof. eexists _, _. split; [vm_compute; reflexivity|]. cbn. by split_and!. Qed.

(** * Well-formed lines *)

(** The methods the parser knows. *)
Definition method_table : list (list Z * Z) :=
  [(cstr "GET", NGX_HTTP_GET); (cstr "PUT", NGX_HTTP_PUT); (cstr "POST", NGX_HTTP_POST);
   (cstr "COPY", NGX_HTTP_COPY); (cstr "MOVE", NGX_HTTP_MOVE); (cstr "LOCK", NGX_HTTP_LOCK);
   (cstr "HEAD", NGX_HTTP_HEAD); (cstr "MKCOL", NGX_HTTP_MKCOL);
   (cstr "PATCH", NGX_HTTP_PATCH); (cstr "TRACE", NGX_HTTP_TRACE);
   (cstr "DELETE", NGX_HTTP_DELETE); (cstr "UNLOCK", NGX_HTTP_UNLOCK);
   (cstr "OPTIONS", NGX_HTTP_OPTIONS); (cstr "PROPFIND", NGX_HTTP_PROPFIND);
   (cstr "PROPPATCH", NGX_HTTP_PROPPATCH)].

(** The request once the method is read. *)
Definition after_method (n code : Z) : ngx_http_request_t :=
  request0 <| r_request_start := Some 0 |> <| r_method_end := Some (n - 1) |>
           <| r_method := code |>.

Lemma method_table_read :
  Forall (fun '(name, code) =>
    request_loop portable_macros (name ++ [" "%cc]) 0 (name ++ [" "%cc]) (sw_start, request0) =
    Some (Z.of_nat (length name) + 1,
          Continue (sw_spaces_before_uri, after_method (Z.of_nat (length name)) code)))
    method_table.
Proof. repeat constructor. Qed.

(** Bytes a URI of the request line may have. *)
Definition uri_char (c : Z) : Prop :=
  c <> " "%cc /\ c <> CR /\ c <> LF /\ c <> 0.

#[export] Instance uri_char_dec c : Decision (uri_char c).
Proof. unfold uri_char. apply _. Defined.

(** All a URI byte may change. *)
Definition forget_uri (r : ngx_http_request_t) : ngx_http_request_t :=
  r <| r_complex_uri := false |> <| r_quoted_uri := false |> <| r_plus_in_uri := false |>
    <| r_uri_ext := None |> <| r_args_start := None |>.

Definition uri_states : list request_state := [sw_after_slash_in_uri; sw_check_uri; sw_uri].

Lemma uri_byte_step mem p ch st r :
  st ∈ uri_states -> uri_char ch ->
  exists st' r', request_step portable_macros mem p ch (st, r) = Some (Continue (st', r')) /\
    st' ∈ uri_states /\ forget_uri r' = forget_uri r.
Proof.
  intros Hst (? & ? & ? & ?). unfold uri_states in Hst.
  repeat (apply elem_of_cons in Hst as [-> | Hst]); [..|by apply elem_of_nil in Hst];
    cbn [request_step]; unfold_case; repeat case_match; tests; try done;
    (eexists _, _; split; [reflexivity|split; [by_eval|reflexivity]]).
Qed.

Lemma uri_bytes_loop mem p l st r :
  st ∈ uri_states -> Forall uri_char l ->
  exists st' r', request_loop portable_macros mem p l (st, r) =
      Some (p + Z.of_nat (length l), Continue (st', r')) /\
    st' ∈ uri_states /\ forget_uri r' = forget_uri r.
Proof.
  revert p st r. induction l as [|ch l IH]; intros p st r Hst Hl.
  { exists st, r. by rewrite Z.add_0_r. }
  apply Forall_cons in Hl as [Hch Hl].
  destruct (uri_byte_step mem p ch st r Hst Hch) as (st1 & r1 & E1 & Hst1 & Hr1).
  destruct (IH (p + 1) st1 r1 Hst1 Hl) as (st2 & r2 & E2 & Hst2 & Hr2).
  exists st2, r2. cbn [line_loop line_step request_parser length]. rewrite E1, E2.
  split_and!; [|done|congruence]. do 2 f_equal. lia.
Qed.

(** " HTTP/x.y", CR, LF after the URI. *)
Definition request_version_tail (major minor : Z) : list Z :=
  cstr " HTTP/" ++ [major; "."%cc; minor; CR; LF].

Definition after_version (p major minor : Z) (r : ngx_http_request_t) : ngx_http_request_t :=
  r <| r_uri_end := Some p |> <| r_http_protocol_data := Some (p + 1) |>
    <| r_http_major := u16 (major - "0"%cc) |>
    <| r_http_minor := u16 (minor - "0"%cc) |>
    <| r_request_end := Some (p + 9) |>.

Lemma request_version_loop mem p st r major minor :
  st ∈ uri_states -> "1"%cc <= major <= "9"%cc -> "0"%cc <= minor <= "9"%cc ->
  request_loop portable_macros mem p (request_version_tail major minor) (st, r) =
  Some (p + 10, Goto_done (sw_almost_done, after_version p major minor r)).
Proof.
  intros Hst Hma Hmi. unfold request_version_tail. cbn [cstr app].
  assert (exists st1, request_step portable_macros mem p " "%cc (st, r) =
    Some (Continue (st1, r <| r_uri_end := Some p |>)) /\
    st1 ∈ [sw_check_uri_http_09; sw_http_09]) as (st1 & E1 & Hst1).
  { unfold uri_states in Hst.
    repeat (apply elem_of_cons in Hst as [-> | Hst]); [..|by apply elem_of_nil in Hst];
    (eexists; split; [reflexivity|by_eval]). }
  change (cstr " HTTP/" ++ [major; "."%cc; minor; CR; LF])
    with (" "%cc :: "H"%cc :: "T"%cc :: "T"%cc :: "P"%cc :: "/"%cc ::
          major :: "."%cc :: minor :: CR :: [LF]).
  cbn [line_loop line_step request_parser]. rewrite E1.
  replace (request_step portable_macros mem (p + 1) "H"%cc _) with
    (Some (Continue (sw_http_H,
       r <| r_uri_end := Some p |> <| r_http_protocol_data := Some (p + 1) |>)))
    by (repeat (apply elem_of_cons in Hst1 as [-> | Hst1]); [done..|by apply elem_of_nil in Hst1]).
  cbn -[Z.add u16]. unfold case_first_major_digit.
  destruct (_ || _) eqn:E; [lia|]. cbn -[Z.add u16]. clear E.
  unfold case_first_minor_digit, is_digit. destruct (negb _) eqn:E; [lia|]. clear E.
  cbn -[Z.add u16]. unfold case_minor_digit. cbn -[Z.add u16]. unfold after_version.
  replace (p + 1 + 1 + 1 + 1 + 1 + 1 + 1 + 1 + 1 + 1) with (p + 10) by lia.
  by replace (p + 10 - 1) with (p + 9) by lia.
Qed.

(** Every well-formed request line is parsed to its parts: for each of
    the fifteen methods, any URI that starts with a slash and has no space,
    CR, LF or NUL, and any version [x.y], the parser returns [NGX_OK],
    consumes the line, and sets the method, the version and the bounds of the
    method, the URI, the protocol and the line. *)
Theorem request_line_wellformed name code uri major minor :
  (name, code) ∈ method_table -> Forall uri_char uri ->
  "1"%cc <= major <= "9"%cc -> "0"%cc <= minor <= "9"%cc ->
  let n := Z.of_nat (length name) in
  let e := n + 2 + Z.of_nat (length uri) in
  let line := name ++ [" "%cc; "/"%cc] ++ uri ++ request_version_tail major minor in
  exists r', parse_line line = Some (NGX_OK, r', mk_buf line (e + 11) (e + 11)) /\
    r_method r' = code /\ r_http_version r' = (major - "0"%cc) * 1000 + (minor - "0"%cc) /\
    r_request_start r' = Some 0 /\ r_method_end r' = Some (n - 1) /\
    r_uri_start r' = Some (n + 1) /\ r_uri_end r' = Some e /\
    r_http_protocol_data r' = Some (e + 1) /\ r_request_end r' = Some (e + 9) /\
    r_space_in_uri r' = false /\ r_host_start r' = None.
Proof.
  intros Hm Huri Hma Hmi n e line.
  pose proof (proj1 (Forall_forall _ _) method_table_read _ Hm) as Hread. cbn beta iota in Hread.
  assert (Z.of_nat (length line) = e + 11) as Hlen.
  { subst line e n. rewrite !length_app. cbn [length request_version_tail cstr]. cbn. lia. }
  assert (exists st r1, request_loop portable_macros line 0 line (sw_start, request0) =
    Some (e + 10, Goto_done (st, after_version e major minor r1)) /\
    forget_uri r1 = forget_uri ((after_method n code) <| r_uri_start := Some (n + 1) |>))
    as (st & r1 & E & Hr1).
  { assert (line = (name ++ [" "%cc]) ++ "/"%cc :: uri ++ request_version_tail major minor) as Eline
      by (subst line; by rewrite <- app_assoc).
    rewrite Eline, (line_loop_app _ _ (name ++ [" "%cc])), line_loop_local, Hread
      by (rewrite ?length_app; cbn; lia).
    cbn [line_loop line_step request_parser request_step case_spaces_before_uri Z.eqb Pos.eqb].
    fold n. rewrite line_loop_app.
    destruct (uri_bytes_loop ((name ++ [" "%cc]) ++ "/"%cc :: uri ++ request_version_tail major minor)
      (n + 1 + 1) uri sw_after_slash_in_uri ((after_method n code) <| r_uri_start := Some (n + 1) |>))
      as (st & r1 & -> & Hst & Hr1); [by_eval|done|].
    rewrite request_version_loop by done. subst e.
    replace (n + 1 + 1 + Z.of_nat (length uri)) with (n + 2 + Z.of_nat (length uri)) by lia.
    by exists sw_almost_done, r1. }
  unfold parse_line. rewrite (request_line_unfold _ line 0 request0 line (e + 10) _ eq_refl) with (2 := E).
  2: { rewrite slice_is_Some by lia. f_equal. rewrite Z.sub_0_r, Nat2Z.id. apply firstn_all. }
  rewrite Hlen. cbn [request_return].
  destruct r1; unfold forget_uri, after_method in Hr1; cbn in Hr1. simplify_eq.
  unfold request_done. cbn -[Z.add Z.mul u16]. rewrite !wrap_small by lia.
  destruct (Z.eqb_spec ((major - 48) * 1000 + (minor - 48)) 9); [lia|].
  eexists. split; [by replace (e + 10 + 1) with (e + 11) by lia|]. by cbn.
Qed.

Example request_line_wellformed_witness :
  exists r', parse_line (cstr "DELETE /x?y#z HTTP/1.1" ++ [CR; LF]) =
      Some (NGX_OK, r', mk_buf (cstr "DELETE /x?y#z HTTP/1.1" ++ [CR; LF]) 24 24) /\
    r_method r' = NGX_HTTP_DELETE /\ r_http_version r' = 1001.
Proof.
  destruct (request_line_wellformed (cstr "DELETE") NGX_HTTP_DELETE (cstr "x?y#z") "1"%cc "1"%cc)
    as (r' & H); [by_eval|by_eval|lia|lia|].
  exists r'. destruct_and! H. by split_and!.
Defined.

Lemma request_step_builds mem p ch s lo :
  is_bytes mem -> rd mem p = Some ch -> request_inv lo mem p s ->
  request_step little_endian_macros mem p ch s = request_step portable_macros mem p ch s.
Proof.
  intros Hm Hch Hinv. destruct s as [[] r]; try done. cbn [request_step].
  unfold case_method. destruct (Z.eqb_spec ch " "%cc) as [->|]; [|done]. cbn.
  destruct Hinv as (Hlo & _ & _ & a & Ha & Hap). rewrite Ha. cbn.
  destruct (slice mem a (p + 1)) as [token|] eqn:Hs; [|done]. cbn.
  rewrite method_of_builds; [done| |].
  - apply slice_is_Some_bytes in Hs; done.
  - pose proof (slice_bounds _ _ _ _ Hs) as (? & ? & ?).
    erewrite slice_snoc in Hs; [|by apply slice_is_Some; lia|done].
    injection Hs as <-. unfold tok. rewrite app_nth2; rewrite length_take, length_drop;
      [|lia]. replace (_ - _)%nat with 0%nat by lia. done.
Qed.

Lemma request_loop_builds lo mem p l s :
  is_bytes mem -> 0 <= p -> take (length l) (drop (Z.to_nat p) mem) = l ->
  request_inv lo mem p s ->
  request_loop little_endian_macros mem p l s = request_loop portable_macros mem p l s.
Proof.
  intros Hm. revert p s. induction l as [|ch l IH]; intros p s Hp Hl Hinv; [done|].
  destruct (drop_cons_rd _ _ _ _ Hp Hl) as [Hch Hl'].
  cbn [line_loop line_step request_parser]. rewrite (request_step_builds _ _ _ _ lo) by done.
  destruct (request_step_ok portable_macros lo mem p ch s Hinv Hch) as (res & -> & Hres).
  destruct res; try done. apply IH; [lia|done..].
Qed.

(** The two builds of the parser, with the portable comparison macros and
    with the 32-bit loads of little-endian machines, give the same result on
    every buffer of bytes. *)
Theorem request_line_builds mem pos r :
  is_bytes mem -> fresh r -> 0 <= pos <= Z.of_nat (length mem) ->
  ngx_http_parse_request_line little_endian_macros r (mk_buf mem pos (Z.of_nat (length mem))) =
  ngx_http_parse_request_line portable_macros r (mk_buf mem pos (Z.of_nat (length mem))).
Proof.
  intros Hm Hf Hpos.
  destruct (request_loop_post portable_macros mem pos r Hf Hpos) as (l & p & res & Hl & E & _).
  rewrite (request_line_unfold portable_macros mem pos r l p res) by (done || apply Hf).
  rewrite (request_line_unfold little_endian_macros mem pos r l p res); [done|apply Hf|done|].
  rewrite <- E. apply (request_loop_builds pos); [done|lia| |].
  - rewrite slice_is_Some in Hl by lia. injection Hl as <-.
    rewrite (take_ge (drop _ _) (Z.to_nat _)) by (rewrite length_drop; lia). by rewrite take_ge.
  - destruct Hf as (_ & ? & ?). cbn. split_and!; done || lia.
Qed.

Example request_line_builds_witness :
  ngx_http_parse_request_line little_endian_macros request0
    (mk_buf (cstr "OPTIONS /a HTTP/1.0" ++ [LF]) 0 20) =
  ngx_http_parse_request_line portable_macros request0
    (mk_buf (cstr "OPTIONS /a HTTP/1.0" ++ [LF]) 0 20).
Proof.
  apply (request_line_builds (cstr "OPTIONS /a HTTP/1.0" ++ [LF]) 0 request0);
    [by_eval|by_eval|cbn; lia].
Defined.

(** The version fields have 16 bits, so that a version of 65537.1 is taken for
    1.1. *)
Example version_wraps :
  (fun '(rc, r, _) => (rc, r_http_version r)) <$>
    parse_line (cstr "GET / HTTP/65537.1" ++ [LF]) = Some (NGX_OK, 1001).
Proof. vm_compute. reflexivity. Qed.
