(* ===== verification/NgxHttpHeaderLine.v ===== *)
(** Header lines: [ngx_http_parse_header_line] of src/http/ngx_http_parse.c.

    The loop variables are the state, the running hash, the index into
    [r->lowcase_header] and the request; [None] is a store outside that array
    or a read outside the buffer. *)

From S2P Require Import Prelude NgxEscape NgxHash NgxHttpRequest.

Open Scope Z_scope.

(** * States and tables *)

Inductive header_state :=
  | sw_start
  | sw_name
  | sw_space_before_value
  | sw_value
  | sw_space_after_value
  | sw_ignore_line
  | sw_almost_done
  | sw_header_almost_done.

#[export] Instance header_state_eq_dec : EqDecision header_state.
Proof. solve_decision. Defined.

Definition header_states : list header_state :=
  [sw_start; sw_name; sw_space_before_value; sw_value; sw_space_after_value;
   sw_ignore_line; sw_almost_done; sw_header_almost_done].

Definition header_state_code (st : header_state) : Z :=
  match st with
  | sw_start => 0 | sw_name => 1 | sw_space_before_value => 2 | sw_value => 3
  | sw_space_after_value => 4 | sw_ignore_line => 5 | sw_almost_done => 6
  | sw_header_almost_done => 7
  end.

Definition header_state_of (code : Z) : option header_state :=
  if code <? 0 then None else header_states !! Z.to_nat code.

(** [static u_char lowcase[]]: lower-cased letters, digits and the hyphen; all
    other bytes are zero. *)
Definition lowcase_table : list Z :=
  replicate 32 0
  ++ replicate 13 0 ++ ["-"%cc] ++ replicate 2 0 ++ cstr "0123456789" ++ replicate 6 0
  ++ [0] ++ cstr "abcdefghijklmnopqrstuvwxyz" ++ replicate 5 0
  ++ [0] ++ cstr "abcdefghijklmnopqrstuvwxyz" ++ replicate 5 0
  ++ replicate 128 0.

Definition lowcase (ch : Z) : Z := nth (Z.to_nat ch) lowcase_table 0.

(** * The cases *)

(** The variables of the loop. *)
Record header_vars := mk_hvars {
  hv_state : header_state;
  hv_hash : Z;
  hv_i : Z;
  hv_r : ngx_http_request_t;
}.

#[export] Instance eta_hvars : EtaRecord header_vars := fun s =>
  mk_hvars (hv_state s) (hv_hash s) (hv_i s) (hv_r s).
#[export] Instance set_hv_state : FieldSetter hv_state := ltac:(field_setter).
#[export] Instance set_hv_hash : FieldSetter hv_hash := ltac:(field_setter).
#[export] Instance set_hv_i : FieldSetter hv_i := ltac:(field_setter).
#[export] Instance set_hv_r : FieldSetter hv_r := ltac:(field_setter).

Abbreviation header_result := (step_result header_vars).

(** [r->lowcase_header[i] = c] *)
Definition store_lowcase (r : ngx_http_request_t) (i c : Z) : option ngx_http_request_t :=
  if (0 <=? i) && (i <? Z.of_nat (length (r_lowcase_header r)))
  then Some (r <| r_lowcase_header := <[Z.to_nat i := c]> (r_lowcase_header r) |>)
  else None.

Definition hcase_start (p ch : Z) (s : header_vars) : option header_result :=
  let r := (hv_r s) <| r_header_name_start := Some p |> <| r_invalid_header := false |> in
  let s := s <| hv_r := r |> in
  if ch =? CR then
    Some (Continue (s <| hv_r := r <| r_header_end := Some p |> |>
                      <| hv_state := sw_header_almost_done |>))
  else if ch =? LF then
    Some (Goto_header_done (s <| hv_r := r <| r_header_end := Some p |> |>))
  else
    let s := s <| hv_state := sw_name |> in
    let c := lowcase ch in
    if negb (c =? 0) then
      r ← store_lowcase r 0 c;
      Some (Continue (s <| hv_hash := ngx_hash 0 c |> <| hv_r := r |> <| hv_i := 1 |>))
    else if ch =? 0 then Some (Return NGX_HTTP_PARSE_INVALID_HEADER s)
    else Some (Continue (s <| hv_r := r <| r_invalid_header := true |> |>)).

(** [hash = ngx_hash(hash, c); r->lowcase_header[i++] = c;
    i &= (NGX_HTTP_LC_HEADER_LEN - 1);] *)
Definition hash_char (c : Z) (s : header_vars) : option header_result :=
  r ← store_lowcase (hv_r s) (hv_i s) c;
  Some (Continue (s <| hv_hash := ngx_hash (hv_hash s) c |> <| hv_r := r |>
                    <| hv_i := Z.land (hv_i s + 1) (NGX_HTTP_LC_HEADER_LEN - 1) |>)).

(** [p - r->header_name_start == 4
    && ngx_strncmp(r->header_name_start, "HTTP", 4) == 0] *)
Definition name_is_http (mem : list Z) (p : Z) (r : ngx_http_request_t) : option bool :=
  start ← r_header_name_start r;
  if p - start =? 4
  then w ← slice mem start p; Some (bool_decide (w = cstr "HTTP"))
  else Some false.

Definition hcase_name (allow_underscores : bool) (mem : list Z) (p ch : Z) (s : header_vars)
  : option header_result :=
  let c := lowcase ch in
  let r := hv_r s in
  if negb (c =? 0) then hash_char c s
  else if ch =? "_"%cc then
    if allow_underscores then hash_char ch s
    else Some (Continue (s <| hv_r := r <| r_invalid_header := true |> |>))
  else if ch =? ":"%cc then
    Some (Continue (s <| hv_r := r <| r_header_name_end := Some p |> |>
                      <| hv_state := sw_space_before_value |>))
  else if ch =? CR then
    Some (Continue (s <| hv_r := r <| r_header_name_end := Some p |>
                                   <| r_header_start := Some p |>
                                   <| r_header_end := Some p |> |>
                      <| hv_state := sw_almost_done |>))
  else if ch =? LF then
    Some (Goto_done (s <| hv_r := r <| r_header_name_end := Some p |>
                                    <| r_header_start := Some p |>
                                    <| r_header_end := Some p |> |>))
  else
    http ← (if (ch =? "/"%cc) && r_upstream r then name_is_http mem p r else Some false);
    if (http : bool) then Some (Continue (s <| hv_state := sw_ignore_line |>))
    else if ch =? 0 then Some (Return NGX_HTTP_PARSE_INVALID_HEADER s)
    else Some (Continue (s <| hv_r := r <| r_invalid_header := true |> |>)).

Definition hcase_space_before_value (p ch : Z) (s : header_vars) : header_result :=
  let r := hv_r s in
  if ch =? " "%cc then Continue s
  else if ch =? CR then
    Continue (s <| hv_r := r <| r_header_start := Some p |> <| r_header_end := Some p |> |>
                <| hv_state := sw_almost_done |>)
  else if ch =? LF then
    Goto_done (s <| hv_r := r <| r_header_start := Some p |> <| r_header_end := Some p |> |>)
  else if ch =? 0 then Return NGX_HTTP_PARSE_INVALID_HEADER s
  else Continue (s <| hv_r := r <| r_header_start := Some p |> |> <| hv_state := sw_value |>).

Definition hcase_value (p ch : Z) (s : header_vars) : header_result :=
  let r := hv_r s in
  if ch =? " "%cc then
    Continue (s <| hv_r := r <| r_header_end := Some p |> |>
                <| hv_state := sw_space_after_value |>)
  else if ch =? CR then
    Continue (s <| hv_r := r <| r_header_end := Some p |> |> <| hv_state := sw_almost_done |>)
  else if ch =? LF then Goto_done (s <| hv_r := r <| r_header_end := Some p |> |>)
  else if ch =? 0 then Return NGX_HTTP_PARSE_INVALID_HEADER s
  else Continue s.

Definition hcase_space_after_value (p ch : Z) (s : header_vars) : header_result :=
  if ch =? " "%cc then Continue s
  else if ch =? CR then Continue (s <| hv_state := sw_almost_done |>)
  else if ch =? LF then Goto_done s
  else if ch =? 0 then Return NGX_HTTP_PARSE_INVALID_HEADER s
  else Continue (s <| hv_state := sw_value |>).

Definition hcase_ignore_line (p ch : Z) (s : header_vars) : header_result :=
  if ch =? LF then Continue (s <| hv_state := sw_start |>) else Continue s.

Definition hcase_almost_done (p ch : Z) (s : header_vars) : header_result :=
  if ch =? LF then Goto_done s
  else if ch =? CR then Continue s
  else Return NGX_HTTP_PARSE_INVALID_HEADER s.

Definition hcase_header_almost_done (p ch : Z) (s : header_vars) : header_result :=
  if ch =? LF then Goto_header_done s
  else Return NGX_HTTP_PARSE_INVALID_HEADER s.

Definition header_step (allow_underscores : bool) (mem : list Z) (p ch : Z)
  (s : header_vars) : option header_result :=
  match hv_state s with
  | sw_start => hcase_start p ch s
  | sw_name => hcase_name allow_underscores mem p ch s
  | sw_space_before_value => Some (hcase_space_before_value p ch s)
  | sw_value => Some (hcase_value p ch s)
  | sw_space_after_value => Some (hcase_space_after_value p ch s)
  | sw_ignore_line => Some (hcase_ignore_line p ch s)
  | sw_almost_done => Some (hcase_almost_done p ch s)
  | sw_header_almost_done => Some (hcase_header_almost_done p ch s)
  end.

Lemma header_step_local au mem mem' p ch s :
  0 <= p < Z.of_nat (length mem) ->
  header_step au (mem ++ mem') p ch s = header_step au mem p ch s.
Proof.
  intros Hp. unfold header_step. destruct (hv_state s); try done.
  unfold hcase_name, name_is_http. destruct (r_header_name_start (hv_r s)); [|done].
  cbn. by rewrite slice_app by lia.
Qed.

#[export] Instance header_parser (allow_underscores : bool) : LineParser header_vars := {
  line_step := header_step allow_underscores;
  line_step_local := header_step_local allow_underscores;
}.

Abbreviation header_loop au := (line_loop (H := header_parser au)).

(** What follows the loop. *)
Definition header_return (b : ngx_buf_t) (p : Z) (res : header_result)
  : option (Z * ngx_http_request_t * ngx_buf_t) :=
  match res with
  | Continue s =>
      Some (NGX_AGAIN, (hv_r s) <| r_state := header_state_code (hv_state s) |>
              <| r_header_hash := hv_hash s |> <| r_lowcase_index := hv_i s |>,
            mk_buf (b_mem b) p (b_last b))
  | Goto_done s =>
      Some (NGX_OK, (hv_r s) <| r_state := 0 |>
              <| r_header_hash := hv_hash s |> <| r_lowcase_index := hv_i s |>,
            mk_buf (b_mem b) (p + 1) (b_last b))
  | Goto_header_done s =>
      Some (NGX_HTTP_PARSE_HEADER_DONE, (hv_r s) <| r_state := 0 |>,
            mk_buf (b_mem b) (p + 1) (b_last b))
  | Return rc s => Some (rc, hv_r s, b)
  end.

Definition ngx_http_parse_header_line (r : ngx_http_request_t) (b : ngx_buf_t)
  (allow_underscores : bool) : option (Z * ngx_http_request_t * ngx_buf_t) :=
  state ← header_state_of (r_state r);
  bytes ← slice (b_mem b) (b_pos b) (b_last b);
  '(p, res) ← header_loop allow_underscores (b_mem b) (b_pos b) bytes
                (mk_hvars state (r_header_hash r) (r_lowcase_index r) r);
  header_return b p res.

Example parse_host :
  (fun '(rc, r, b) => (rc, r_header_name_end r, r_header_start r, r_header_end r,
                       take 4 (r_lowcase_header r), b_pos b)) <$>
  ngx_http_parse_header_line request0 (mk_buf (cstr "Host:  a b  " ++ [CR; LF]) 0 14) false =
  Some (NGX_OK, Some 4, Some 7, Some 10, cstr "host", 14).
Proof. reflexivity. Qed.

Ltac unfold_hcase :=
  cbv delta [hcase_space_before_value hcase_value
    hcase_space_after_value hcase_ignore_line hcase_almost_done hcase_header_almost_done]
    beta zeta.

Lemma header_state_of_code st : header_state_of (header_state_code st) = Some st.
Proof. by destruct st. Qed.

(** * Resuming *)

(** The three fields that hold the loop variables between two calls. *)
Definition save_vars (st h i : Z) (r : ngx_http_request_t) : ngx_http_request_t :=
  r <| r_state := st |> <| r_header_hash := h |> <| r_lowcase_index := i |>.

Lemma store_lowcase_saved st h i r k c :
  store_lowcase (save_vars st h i r) k c = save_vars st h i <$> store_lowcase r k c.
Proof. unfold store_lowcase. cbn [r_lowcase_header save_vars]. cbn. by case_match. Qed.

Lemma hash_char_saved st h i c s :
  let f := fun s => s <| hv_r := save_vars st h i (hv_r s) |> in
  hash_char c (f s) = step_map f <$> hash_char c s.
Proof.
  unfold hash_char. cbn [hv_r set_field set_hv_r hv_i].
  rewrite store_lowcase_saved. by destruct (store_lowcase (hv_r s) (hv_i s) c).
Qed.

Lemma header_step_saved au st h i mem p ch s :
  let f := fun s => s <| hv_r := save_vars st h i (hv_r s) |> in
  header_step au mem p ch (f s) = step_map f <$> header_step au mem p ch s.
Proof.
  intros f. unfold header_step. replace (hv_state (f s)) with (hv_state s) by done.
  destruct (hv_state s); [| |unfold_hcase; repeat (case_match; [reflexivity|]); reflexivity..].
  - unfold hcase_start. do 2 (case_match; [reflexivity|]). case_match.
    + cbn [hv_r set_field set_hv_r].
      change (hv_r (f s)) with (save_vars st h i (hv_r s)).
      set (r := (hv_r s) <| r_header_name_start := Some p |> <| r_invalid_header := false |>).
      pose proof (store_lowcase_saved st h i r 0 (lowcase ch)) as E.
      change ((save_vars st h i (hv_r s)) <| r_header_name_start := Some p |>
        <| r_invalid_header := false |>) with (save_vars st h i r).
      etrans; [by rewrite E|]. by destruct (store_lowcase r 0 (lowcase ch)).
    + case_match; reflexivity.
  - unfold hcase_name. case_match; [apply hash_char_saved|].
    case_match; [case_match; [apply hash_char_saved|reflexivity]|].
    do 3 (case_match; [reflexivity|]).
    change (r_upstream (hv_r (f s))) with (r_upstream (hv_r s)).
    change (name_is_http mem p (hv_r (f s))) with (name_is_http mem p (hv_r s)).
    destruct (if (ch =? "/"%cc) && r_upstream (hv_r s) then _ else _) as [[]|];
      [reflexivity| |reflexivity].
    cbn [mbind option_bind]. case_match; reflexivity.
Qed.

Lemma header_step_codes au mem p ch s rc s' :
  header_step au mem p ch s = Some (Return rc s') -> rc = NGX_HTTP_PARSE_INVALID_HEADER.
Proof.
  unfold header_step.
  destruct (hv_state s);
    [| |unfold_hcase; repeat (case_match; [congruence|]); congruence..].
  - unfold hcase_start. do 2 (case_match; [congruence|]).
    case_match; [|case_match; congruence].
    destruct (store_lowcase _ _ _); cbn; congruence.
  - assert (forall c, hash_char c s <> Some (Return rc s')) as Hh.
    { intros c. unfold hash_char. destruct (store_lowcase _ _ _); cbn; congruence. }
    unfold hcase_name. case_match; [by intros ?%Hh|].
    case_match; [case_match; [by intros ?%Hh|congruence]|].
    do 3 (case_match; [congruence|]).
    destruct (if (ch =? "/"%cc) && r_upstream (hv_r s) then _ else _) as [[]|]; cbn;
      [congruence| |congruence]. case_match; congruence.
Qed.

Lemma header_loop_codes au mem p l s q rc s' :
  header_loop au mem p l s = Some (q, Return rc s') -> rc = NGX_HTTP_PARSE_INVALID_HEADER.
Proof.
  revert p s. induction l as [|ch l IH]; intros p s; cbn [line_loop line_step header_parser];
    [done|].
  destruct (header_step au mem p ch s) as [[]|] eqn:E; try done; [apply IH|].
  intros [= -> -> ->]. by eapply header_step_codes.
Qed.

(** What the caller uses of a result: the position when the line or the
    header is complete or more bytes are needed, and the saved loop variables
    when a later call or the caller reads them. *)
Definition header_outcome (x : option (Z * ngx_http_request_t * ngx_buf_t))
  : option (Z * ngx_http_request_t * option ngx_buf_t) :=
  '(rc, r, b) ← x;
  if rc =? NGX_HTTP_PARSE_INVALID_HEADER then Some (rc, save_vars 0 0 0 r, None)
  else if rc =? NGX_HTTP_PARSE_HEADER_DONE then Some (rc, save_vars 0 0 0 r, Some b)
  else Some (rc, r, Some b).

(** C14: header parsing is resumable: [NGX_AGAIN] saves the state, the hash
    and the index so that the next call, with more bytes in the buffer, ends
    as one call on all the bytes would; every other result is final. *)
Theorem header_line_resumes au r mem1 mem2 pos rc r1 b1 :
  let parse r mem pos :=
    ngx_http_parse_header_line r (mk_buf mem pos (Z.of_nat (length mem))) au in
  parse r mem1 pos = Some (rc, r1, b1) ->
  if decide (rc = NGX_AGAIN)
  then header_outcome (parse r (mem1 ++ mem2) pos) =
       header_outcome (parse r1 (mem1 ++ mem2) (b_pos b1))
  else header_outcome (parse r (mem1 ++ mem2) pos) =
       header_outcome (Some (rc, r1,
         mk_buf (mem1 ++ mem2) (b_pos b1) (Z.of_nat (length (mem1 ++ mem2))))).
Proof.
  intros parse. subst parse. cbn beta. unfold ngx_http_parse_header_line.
  cbn [b_mem b_pos b_last].
  destruct (header_state_of (r_state r)) as [st|] eqn:Est; cbn [mbind option_bind]; [|done].
  destruct (slice mem1 pos _) as [l|] eqn:Hl; cbn [mbind option_bind]; [|done].
  destruct (slice_grow _ mem2 _ _ Hl) as [Hw Hr]. rewrite Hw. cbn [mbind option_bind].
  pose proof (slice_bounds _ _ _ _ Hl) as (Hb & _ & Hlen).
  rewrite line_loop_chunks by lia.
  destruct (header_loop au mem1 pos l _) as [[p' [s|s|s|rc' s]]|] eqn:E;
    cbn [mbind option_bind header_return]; [| | | |done]; intros [= <- <- <-]; cbn [b_pos].
  - apply line_loop_pos in E. replace p' with (Z.of_nat (length mem1)) by lia.
    rewrite decide_True by done.
    set (f := fun s' => s' <| hv_r := save_vars (header_state_code (hv_state s)) (hv_hash s)
                                       (hv_i s) (hv_r s') |>).
    change ((hv_r s) <| r_state := header_state_code (hv_state s) |>
      <| r_header_hash := hv_hash s |> <| r_lowcase_index := hv_i s |>) with (hv_r (f s)).
    change (r_state (hv_r (f s))) with (header_state_code (hv_state s)).
    rewrite header_state_of_code, Hr. cbn [mbind option_bind].
    change (mk_hvars _ _ _ (hv_r (f s))) with (f s).
    rewrite (line_loop_map f) by (intros; apply header_step_saved).
    destruct (header_loop au (mem1 ++ mem2) _ mem2 _) as [[q [s2|s2|s2|rc2 s2]]|] eqn:E2;
      cbn; try done.
    by apply header_loop_codes in E2 as ->.
  - by rewrite decide_False.
  - by rewrite decide_False.
  - apply header_loop_codes in E as ->. by rewrite decide_False.
Qed.

Example header_line_resumes_witness :
  exists rc r1 b1,
    ngx_http_parse_header_line request0 (mk_buf (cstr "Ho") 0 2) false = Some (rc, r1, b1) /\
    rc = NGX_AGAIN /\
    header_outcome (ngx_http_parse_header_line request0
      (mk_buf (cstr "Ho" ++ cstr "st: x" ++ [LF]) 0 8) false) =
    header_outcome (ngx_http_parse_header_line r1
      (mk_buf (cstr "Ho" ++ cstr "st: x" ++ [LF]) (b_pos b1) 8) false).
Proof.
  destruct (ngx_http_parse_header_line request0 (mk_buf (cstr "Ho") 0 2) false)
    as [[[rc r1] b1]|] eqn:E; [|done].
  exists rc, r1, b1. split; [done|].
  pose proof (header_line_resumes false request0 (cstr "Ho")
    (cstr "st: x" ++ [LF]) 0 rc r1 b1 E) as Hres.
  assert (rc = NGX_AGAIN) as -> by (vm_compute in E; by injection E).
  split; [done|]. exact Hres.
Defined.

(** * Invariants *)

(** The index stays inside [r->lowcase_header]. *)
Definition index_ok (s : header_vars) : Prop :=
  0 <= hv_i s < NGX_HTTP_LC_HEADER_LEN /\ length (r_lowcase_header (hv_r s)) = 32%nat.

(** The name of the header, before [hi]. *)
Definition name_ok (lo hi : Z) (r : ngx_http_request_t) : Prop :=
  exists n e, r_header_name_start r = Some n /\ r_header_name_end r = Some e /\
    lo <= n < e /\ e <= hi.

(** The name, then the value, which ends at most at [hi]. *)
Definition line_ok (lo hi : Z) (r : ngx_http_request_t) : Prop :=
  exists n e v w, r_header_name_start r = Some n /\ r_header_name_end r = Some e /\
    r_header_start r = Some v /\ r_header_end r = Some w /\
    lo <= n < e /\ e <= v <= w /\ w <= hi.

Definition header_inv (lo p : Z) (s : header_vars) : Prop :=
  let r := hv_r s in
  0 <= lo <= p /\ index_ok s /\
  match hv_state s with
  | sw_start | sw_ignore_line => True
  | sw_name => exists n, r_header_name_start r = Some n /\ lo <= n < p
  | sw_space_before_value => name_ok lo (p - 1) r
  | sw_value => exists n e v, r_header_name_start r = Some n /\
      r_header_name_end r = Some e /\ r_header_start r = Some v /\ lo <= n < e /\ e <= v < p
  | sw_space_after_value | sw_almost_done => line_ok lo (p - 1) r
  | sw_header_almost_done => r_header_end r = Some (p - 1) /\ lo < p
  end.

Definition header_post (lo p : Z) (res : header_result) : Prop :=
  match res with
  | Continue s => header_inv lo p s
  | Goto_done s => index_ok s /\ line_ok lo p (hv_r s)
  | Goto_header_done s => index_ok s /\
      exists e, r_header_end (hv_r s) = Some e /\ lo <= e <= p
  | Return _ _ => True
  end.

Lemma store_lowcase_ok r i c :
  0 <= i < NGX_HTTP_LC_HEADER_LEN -> length (r_lowcase_header r) = 32%nat ->
  store_lowcase r i c =
    Some (r <| r_lowcase_header := <[Z.to_nat i := c]> (r_lowcase_header r) |>).
Proof.
  intros Hi Hl. unfold NGX_HTTP_LC_HEADER_LEN in Hi. unfold store_lowcase. rewrite Hl.
  destruct (Z.leb_spec 0 i); [|lia]. by destruct (Z.ltb_spec i (Z.of_nat 32)); [|lia].
Qed.

Lemma hash_char_ok c s :
  index_ok s ->
  hash_char c s = Some (Continue (s
    <| hv_hash := ngx_hash (hv_hash s) c |>
    <| hv_r := (hv_r s) <| r_lowcase_header :=
                 <[Z.to_nat (hv_i s) := c]> (r_lowcase_header (hv_r s)) |> |>
    <| hv_i := (hv_i s + 1) mod 32 |>)).
Proof.
  intros [Hi Hl]. unfold hash_char. rewrite store_lowcase_ok by done. cbn [mbind option_bind].
  change (NGX_HTTP_LC_HEADER_LEN - 1) with (2 ^ 5 - 1). by rewrite land_ones_mod by lia.
Qed.

Ltac hclose :=
  unfold header_inv, header_post, index_ok, name_ok, line_ok, NGX_HTTP_LC_HEADER_LEN in *;
  cbn in *;
  repeat match goal with
  | H : _ /\ _ |- _ => destruct H
  | H : exists _, _ |- _ => destruct H
  end;
  repeat match goal with
  | |- exists _, _ => eexists
  | |- _ /\ _ => split
  end; first [eassumption | reflexivity | done | lia | (rewrite length_insert; assumption)
             | (f_equal; lia) | idtac].

Section header_invariant.
Context (au : bool) (lo : Z) (mem : list Z).

(** What one turn owes. *)
Definition hstep_ok (p ch : Z) (s : header_vars) : Prop :=
  exists res, header_step au mem p ch s = Some res /\
    match res with
    | Continue s' => header_inv lo (p + 1) s'
    | _ => header_post lo p res
    end.

Lemma hstep_start p ch s :
  hv_state s = sw_start -> header_inv lo p s -> hstep_ok p ch s.
Proof.
  intros Hst Hinv. unfold hstep_ok, header_step. rewrite Hst. unfold hcase_start.
  destruct s as [st h i r]. cbn in Hst. subst st. destruct Hinv as (Hlo & [Hi Hl] & _).
  case_match; [eexists; split; [reflexivity|]; hclose|].
  case_match; [eexists; split; [reflexivity|]; hclose|].
  case_match; [|case_match; (eexists; split; [reflexivity|]; hclose)].
  rewrite store_lowcase_ok by (unfold NGX_HTTP_LC_HEADER_LEN; done || lia).
  eexists; split; [reflexivity|]. hclose.
Qed.

Lemma hash_char_inv p ch s :
  hv_state s = sw_name -> header_inv lo p s ->
  exists s', hash_char ch s = Some (Continue s') /\ header_inv lo (p + 1) s'.
Proof.
  intros Hst Hinv. rewrite hash_char_ok by apply Hinv. eexists; split; [reflexivity|].
  destruct s as [st h i r]. cbn in Hst. subst st.
  cbn [hv_i]. pose proof (Z.mod_pos_bound (i + 1) 32) as Hm.
  generalize dependent ((i + 1) mod 32). intros j Hm. hclose.
Qed.

Lemma hstep_name p ch s :
  rd mem p = Some ch -> hv_state s = sw_name -> header_inv lo p s -> hstep_ok p ch s.
Proof.
  intros Hch Hst Hinv. unfold hstep_ok, header_step. rewrite Hst. unfold hcase_name.
  assert (exists res, hash_char ch s = Some res /\
    match res with Continue s' => header_inv lo (p + 1) s' | _ => header_post lo p res end) as Hhash.
  { destruct (hash_char_inv p ch s) as (s' & ? & ?); [done..|]. by exists (Continue s'). }
  case_match.
  { destruct (hash_char_inv p (lowcase ch) s) as (s' & ? & ?); [done..|]. by exists (Continue s'). }
  assert (exists b, (if (ch =? "/"%cc) && r_upstream (hv_r s)
                     then name_is_http mem p (hv_r s) else Some false) = Some b) as [b Hb].
  { case_match; [|by eexists]. unfold name_is_http.
    destruct Hinv as (Hlo & _ & Hn). rewrite Hst in Hn. destruct Hn as (n & -> & Hn). cbn.
    case_match; [|by eexists]. unfold rd in Hch. destruct (Z.ltb_spec p 0); [done|].
    pose proof (lookup_lt_Some _ _ _ Hch). rewrite slice_is_Some by lia. by eexists. }
  rewrite Hb. clear Hb. cbn [mbind option_bind]. destruct s as [st h i r]. cbn in Hst. subst st.
  case_match; [destruct au; [exact Hhash|eexists; split; [reflexivity|]; hclose]|].
  do 3 (case_match; [eexists; split; [reflexivity|]; hclose|]).
  destruct b; [eexists; split; [reflexivity|]; hclose|].
  case_match; (eexists; split; [reflexivity|]; hclose).
Qed.

Lemma hstep_value p ch s :
  hv_state s <> sw_start -> hv_state s <> sw_name ->
  header_inv lo p s -> hstep_ok p ch s.
Proof.
  intros H1 H2 Hinv. unfold hstep_ok, header_step. destruct s as [st h i r]. cbn in H1, H2.
  destruct st; try done; cbn [hv_state]; unfold_hcase;
    repeat (case_match; [eexists; split; [reflexivity|]; hclose|]);
    (eexists; split; [reflexivity|]; hclose).
Qed.

Lemma header_step_ok p ch s :
  header_inv lo p s -> rd mem p = Some ch -> hstep_ok p ch s.
Proof.
  intros Hinv Hch. destruct (decide (hv_state s = sw_start)); [by apply hstep_start|].
  destruct (decide (hv_state s = sw_name)); [by apply hstep_name|by apply hstep_value].
Qed.

End header_invariant.

(** * Theorems on the result *)

Definition header_ready (r : ngx_http_request_t) : Prop :=
  r_state r = 0 /\ 0 <= r_lowcase_index r < NGX_HTTP_LC_HEADER_LEN /\
  length (r_lowcase_header r) = 32%nat.

#[export] Instance header_ready_dec r : Decision (header_ready r).
Proof. unfold header_ready. apply _. Defined.

Lemma header_line_unfold au mem pos r l p res :
  r_state r = 0 -> slice mem pos (Z.of_nat (length mem)) = Some l ->
  header_loop au mem pos l (mk_hvars sw_start (r_header_hash r) (r_lowcase_index r) r)
    = Some (p, res) ->
  ngx_http_parse_header_line r (mk_buf mem pos (Z.of_nat (length mem))) au =
  header_return (mk_buf mem pos (Z.of_nat (length mem))) p res.
Proof.
  intros Hr Hl E. unfold ngx_http_parse_header_line.
  cbn [b_mem b_pos b_last]. rewrite Hr, Hl.
  change (header_state_of 0) with (Some sw_start). cbn [mbind option_bind]. by rewrite E.
Qed.

(** C13: a call on a buffer is always defined (no store outside the 32 bytes of
    [r->lowcase_header], no read outside the buffer) and leaves the index
    inside the array; [NGX_OK] comes with a name that is not empty and a value
    after it, both inside the bytes just consumed; [HEADER_DONE] with
    [r->header_end] inside them; [NGX_AGAIN] consumes everything. *)
Theorem header_line_safe au mem pos r :
  header_ready r -> 0 <= pos <= Z.of_nat (length mem) ->
  exists rc r' b',
    ngx_http_parse_header_line r (mk_buf mem pos (Z.of_nat (length mem))) au
      = Some (rc, r', b') /\
    (rc = NGX_OK /\ header_ready r' /\ line_ok pos (b_pos b' - 1) r' /\
       b_pos b' <= Z.of_nat (length mem) \/
     rc = NGX_HTTP_PARSE_HEADER_DONE /\ r_state r' = 0 /\
       (exists e, r_header_end r' = Some e /\ pos <= e < b_pos b') /\
       b_pos b' <= Z.of_nat (length mem) \/
     rc = NGX_AGAIN /\ 0 <= r_lowcase_index r' < NGX_HTTP_LC_HEADER_LEN /\
       b_pos b' = Z.of_nat (length mem) \/
     rc = NGX_HTTP_PARSE_INVALID_HEADER).
Proof.
  intros (Hst & Hi & Hlc) Hpos.
  destruct (line_loop_buffer (H := header_parser au) (header_inv pos) (header_post pos) mem pos
    (mk_hvars sw_start (r_header_hash r) (r_lowcase_index r) r))
    as (l & p & res & Hl & E & Hpost & Hstop); [done| |done| |].
  - intros q ch s Hs Hch. by apply header_step_ok.
  - unfold header_inv, index_ok. cbn. split_and!; done || lia.
  - rewrite (header_line_unfold au mem pos r l p res) by done.
    destruct res as [s|s|s|rc s]; cbn [header_return]; eexists _, _, _; (split; [reflexivity|]);
      unfold header_ready; cbn [b_pos].
    + right; right; left. destruct Hpost as (_ & [Hi' _] & _).
      split; [done|]. split; [exact Hi'|done].
    + left. destruct Hpost as ([Hi' Hl'] & Hline). split; [done|].
      split; [by split; [|split; [exact Hi'|exact Hl']]|].
      replace (p + 1 - 1) with p by lia. split; [exact Hline|lia].
    + right; left. destruct Hpost as ([Hi' Hl'] & e & He & Hpe). split_and!; try done; [|lia].
      exists e. split; [done|lia].
    + right; right; right. by apply header_loop_codes in E.
Qed.

Example header_line_safe_witness :
  exists rc r' b',
    ngx_http_parse_header_line request0 (mk_buf (cstr "A:b" ++ [LF]) 0 4) true
      = Some (rc, r', b') /\
    rc = NGX_OK /\ header_ready r' /\ line_ok 0 (b_pos b' - 1) r' /\ b_pos b' <= 4.
Proof.
  destruct (header_line_safe true (cstr "A:b" ++ [LF]) 0 request0)
    as (rc & r' & b' & E & Hcases); [by_eval|cbn; lia|].
  exists rc, r', b'. split; [exact E|].
  vm_compute in E. injection E as <- <- <-.
  destruct Hcases as [Hok|[[? _]|[[? _]|?]]]; [exact Hok|done..].
Defined.

(** ** Well-formed headers *)

(** Storing the characters of a name from index [i] on. *)
Fixpoint store_name (lc : list Z) (i : Z) (l : list Z) : list Z :=
  match l with
  | [] => lc
  | c :: l' => store_name (<[Z.to_nat i := lowcase c]> lc) ((i + 1) mod 32) l'
  end.

Lemma store_name_take lc i l :
  length lc = 32%nat -> 0 <= i -> i + Z.of_nat (length l) <= 32 ->
  take (Z.to_nat i + length l) (store_name lc i l) = take (Z.to_nat i) lc ++ (lowcase <$> l).
Proof.
  revert lc i. induction l as [|c l IH]; intros lc i Hlc Hi Hl; cbn [store_name length fmap list_fmap].
  { by rewrite Nat.add_0_r, app_nil_r. }
  cbn [length] in Hl.
  assert (take (S (Z.to_nat i)) (<[Z.to_nat i:=lowcase c]> lc) = take (Z.to_nat i) lc ++ [lowcase c]) as Et.
  { rewrite (take_S_r _ _ (lowcase c)) by (apply list_lookup_insert_eq; lia).
    by rewrite take_insert_ge by lia. }
  destruct l as [|d l].
  { cbn [store_name length fmap list_fmap]. by rewrite Nat.add_1_r. }
  cbn [length] in Hl. rewrite Z.mod_small by lia.
  replace (Z.to_nat i + S (length (d :: l)))%nat with (Z.to_nat (i + 1) + length (d :: l))%nat
    by (cbn [length]; lia).
  rewrite IH by (rewrite ?length_insert; cbn [length]; lia).
  replace (Z.to_nat (i + 1)) with (S (Z.to_nat i)) by lia. rewrite Et.
  by rewrite <- app_assoc.
Qed.

(** The name phase. *)
Definition after_name (l : list Z) (s : header_vars) : header_vars :=
  s <| hv_hash := foldl ngx_hash (hv_hash s) (lowcase <$> l) |>
    <| hv_r := (hv_r s) <| r_lowcase_header :=
                 store_name (r_lowcase_header (hv_r s)) (hv_i s) l |> |>
    <| hv_i := (hv_i s + Z.of_nat (length l)) mod 32 |>.

Lemma name_loop au mem p l s :
  hv_state s = sw_name -> index_ok s -> Forall (fun c => lowcase c <> 0) l ->
  header_loop au mem p l s = Some (p + Z.of_nat (length l), Continue (after_name l s)).
Proof.
  revert p s. induction l as [|c l IH]; intros p s Hst Hix Hl.
  { cbn [line_loop length]. rewrite Z.add_0_r. do 3 f_equal.
    destruct s as [st h i r], r. unfold after_name. cbn.
    destruct Hix as [Hi _]. cbn in Hi. unfold NGX_HTTP_LC_HEADER_LEN in Hi.
    by rewrite Z.add_0_r, Z.mod_small by lia. }
  apply Forall_cons in Hl as [Hc Hl].
  cbn [line_loop line_step header_parser]. unfold header_step at 1. rewrite Hst.
  unfold hcase_name. destruct (Z.eqb_spec (lowcase c) 0); [done|]. cbn [negb].
  rewrite hash_char_ok by done. rewrite IH; [|done| |done].
  - f_equal. f_equal; [cbn [length]; lia|]. f_equal. destruct s as [st h i r], r. unfold after_name. cbn.
    rewrite Zplus_mod_idemp_l.
    by replace (i + 1 + Z.of_nat (length l)) with (i + Z.pos (Pos.of_succ_nat (length l))) by lia.
  - destruct Hix as [Hi Hlc]. split; cbn; [|by rewrite length_insert].
    apply Z.mod_pos_bound. lia.
Qed.

(** The value phase: interior spaces belong to the value. *)
Definition value_char (c : Z) : Prop := c <> CR /\ c <> LF /\ c <> 0.

#[export] Instance value_char_dec c : Decision (value_char c).
Proof. unfold value_char. apply _. Defined.

Lemma value_loop au mem p v s :
  hv_state s = sw_value \/ hv_state s = sw_space_after_value ->
  v <> [] -> last v <> Some " "%cc -> Forall value_char v ->
  exists e, header_loop au mem p v s =
    Some (p + Z.of_nat (length v),
          Continue (s <| hv_state := sw_value |> <| hv_r := (hv_r s) <| r_header_end := e |> |>)).
Proof.
  revert p s. induction v as [|c v IH]; intros p s Hst Hne Hlast Hv; [done|].
  apply Forall_cons in Hv as [(? & ? & ?) Hv].
  assert (exists s1, header_step au mem p c s = Some (Continue s1) /\
    (exists e st1, s1 = s <| hv_state := st1 |> <| hv_r := (hv_r s) <| r_header_end := e |> |> /\
      (st1 = sw_value \/ st1 = sw_space_after_value /\ c = " "%cc)))
    as (s1 & E1 & e & st1 & Es1 & Hst1).
  { destruct s as [st h i r]. cbn in Hst. unfold header_step.
    destruct Hst as [-> | ->]; cbn [hv_state]; unfold_hcase;
      destruct (Z.eqb_spec c " "%cc) as [->|];
      repeat (case_match; [lia|]); eexists; (split; [reflexivity|]).
    - by exists (Some p), sw_space_after_value; split; [|right].
    - exists (r_header_end r), sw_value. split; [by destruct r|by left].
    - exists (r_header_end r), sw_space_after_value. split; [by destruct r|by right].
    - exists (r_header_end r), sw_value. split; [by destruct r|by left]. }
  cbn [line_loop line_step header_parser length]. rewrite E1.
  destruct v as [|d v].
  { destruct Hst1 as [-> |[-> ->]]; [|done]. exists e. cbn [line_loop length]. by rewrite Es1. }
  destruct (IH (p + 1) s1) as [e' ->]; [|done| |done|].
  - rewrite Es1. destruct Hst1 as [-> |[-> _]]; [by left|by right].
  - by rewrite last_cons_cons in Hlast.
  - exists e'. f_equal. f_equal; [cbn [length]; lia|]. by rewrite Es1.
Qed.

Lemma value_rest_loop au mem p c v s :
  hv_state s = sw_value -> last (c :: v) <> Some " "%cc -> Forall value_char v ->
  exists e, header_loop au mem p v s =
    Some (p + Z.of_nat (length v), Continue (s <| hv_r := (hv_r s) <| r_header_end := e |> |>)).
Proof.
  intros Hst Hl Hv. destruct v as [|d v].
  { exists (r_header_end (hv_r s)). cbn [line_loop length]. rewrite Z.add_0_r.
    destruct s as [st h i r]. by destruct r. }
  destruct (value_loop au mem p (d :: v) s) as [e ->]; [by left|done| |done|].
  { by rewrite last_cons_cons in Hl. }
  exists e. destruct s as [st h i r]. cbn in Hst. by subst st.
Qed.

Lemma spaces_loop au mem p n s :
  hv_state s = sw_space_before_value \/ hv_state s = sw_space_after_value ->
  header_loop au mem p (replicate n " "%cc) s = Some (p + Z.of_nat n, Continue s).
Proof.
  intros Hst. revert p. induction n as [|n IH]; intros p; cbn [replicate line_loop].
  { by rewrite Z.add_0_r. }
  cbn [line_step header_parser].
  assert (header_step au mem p " "%cc s = Some (Continue s)) as ->
    by (unfold header_step; by destruct Hst as [-> | ->]).
  rewrite IH. do 2 f_equal. lia.
Qed.

(** Trailing spaces and the line end. *)
Lemma line_end_loop au mem p n s :
  hv_state s = sw_value ->
  exists st, header_loop au mem p (replicate n " "%cc ++ [CR; LF]) s =
    Some (p + Z.of_nat n + 1,
      Goto_done (s <| hv_r := (hv_r s) <| r_header_end := Some p |> |> <| hv_state := st |>)).
Proof.
  intros Hst. destruct s as [st h i r]. cbn in Hst. subst st. destruct n as [|n].
  { eexists. cbn -[Z.add]. by rewrite Z.add_0_r. }
  cbn [replicate app line_loop line_step header_parser].
  change (header_step au mem p " "%cc _) with (Some (Continue (mk_hvars sw_space_after_value h i
    (r <| r_header_end := Some p |>)))).
  cbn match. rewrite line_loop_app, spaces_loop by (by right). eexists. cbn -[Z.add Z.of_nat].
  f_equal. f_equal. lia.
Qed.

Lemma value_line_loop au mem p c v n s :
  hv_state s = sw_value -> last (c :: v) <> Some " "%cc -> Forall value_char v ->
  exists st, header_loop au mem p (v ++ replicate n " "%cc ++ [CR; LF]) s =
    Some (p + Z.of_nat (length v) + Z.of_nat n + 1,
      Goto_done (s <| hv_r := (hv_r s) <| r_header_end := Some (p + Z.of_nat (length v)) |> |>
                   <| hv_state := st |>)).
Proof.
  intros Hst Hl Hv. rewrite line_loop_app.
  destruct (value_rest_loop au mem p c v s) as [e ->]; [done..|].
  destruct (line_end_loop au mem (p + Z.of_nat (length v)) n
    (s <| hv_r := (hv_r s) <| r_header_end := e |> |>)) as [st ->]; [done|].
  exists st. destruct s as [? ? ? r]. reflexivity.
Qed.

(** A well-formed header is parsed to its name and value: for any name of
    letters, digits and hyphens, any spaces after the colon, any value that
    neither starts nor ends with a space, and any trailing spaces, the parser
    returns [NGX_OK], the bounds of the name and of the trimmed value, the hash
    key of the lower-cased name, and, up to 32 bytes, the lower-cased name. *)
Theorem header_line_wellformed au r c name a v value b :
  header_ready r ->
  Forall (fun c => lowcase c <> 0) (c :: name) ->
  v <> " "%cc -> last (v :: value) <> Some " "%cc -> Forall value_char (v :: value) ->
  let n := Z.of_nat (S (length name)) in
  let vs := n + 1 + Z.of_nat a in
  let ve := vs + Z.of_nat (S (length value)) in
  let line := (c :: name) ++ ":"%cc :: replicate a " "%cc ++ (v :: value)
                ++ replicate b " "%cc ++ [CR; LF] in
  exists r', ngx_http_parse_header_line r (mk_buf line 0 (Z.of_nat (length line))) au =
      Some (NGX_OK, r', mk_buf line (Z.of_nat (length line)) (Z.of_nat (length line))) /\
    r_header_name_start r' = Some 0 /\ r_header_name_end r' = Some n /\
    r_header_start r' = Some vs /\ r_header_end r' = Some ve /\
    r_invalid_header r' = false /\
    r_header_hash r' = ngx_hash_key (lowcase <$> c :: name) /\
    r_lowcase_index r' = n mod 32 /\
    (n <= 32 -> take (S (length name)) (r_lowcase_header r') = lowcase <$> c :: name).
Proof.
  intros Hr Hname Hv Hlast Hval n vs ve line. pose proof Hr as (Hst & Hi & Hlc).
  apply Forall_cons in Hname as [Hc Hname].
  set (r0 := r <| r_header_name_start := Some 0 |> <| r_invalid_header := false |>
               <| r_lowcase_header := <[0%nat := lowcase c]> (r_lowcase_header r) |>).
  set (s1 := after_name name (mk_hvars sw_name (ngx_hash 0 (lowcase c)) 1 r0)).
  set (s1' := s1 <| hv_r := (hv_r s1) <| r_header_name_end := Some n |> |>
                 <| hv_state := sw_space_before_value |>).
  set (s2 := s1' <| hv_r := (hv_r s1') <| r_header_start := Some vs |> |>
                 <| hv_state := sw_value |>).
  assert (exists st, header_loop au line 0 line
      (mk_hvars sw_start (r_header_hash r) (r_lowcase_index r) r) =
    Some (ve + Z.of_nat b + 1,
      Goto_done (s2 <| hv_r := (hv_r s2) <| r_header_end := Some ve |> |> <| hv_state := st |>)))
    as [st E].
  { set (mem := line) at 1. clearbody mem. subst line.
    cbn [app line_loop line_step header_parser].
    assert (header_step au mem 0 c (mk_hvars sw_start (r_header_hash r) (r_lowcase_index r) r) =
      Some (Continue (mk_hvars sw_name (ngx_hash 0 (lowcase c)) 1 r0))) as ->.
    { unfold header_step, hcase_start. cbn [hv_state].
      destruct (Z.eqb_spec c CR) as [->|]; [done|]. destruct (Z.eqb_spec c LF) as [->|]; [done|].
      destruct (Z.eqb_spec (lowcase c) 0); [done|]. cbn [negb].
      rewrite store_lowcase_ok; [reflexivity|by unfold NGX_HTTP_LC_HEADER_LEN|done]. }
    rewrite line_loop_app, name_loop; [|done| |done].
    2: { split; [by unfold NGX_HTTP_LC_HEADER_LEN|]. cbn. by rewrite length_insert. }
    fold s1. cbn [line_loop line_step header_parser].
    replace (0 + 1 + Z.of_nat (length name)) with n by (unfold n; lia).
    change (header_step au mem n ":"%cc s1) with (Some (Continue s1')).
    cbn match. rewrite line_loop_app, spaces_loop by (by left).
    cbn [app line_loop line_step header_parser].
    replace (n + 1 + Z.of_nat a) with vs by done.
    assert (forall s, hv_state s = sw_space_before_value ->
      header_step au mem vs v s = Some (Continue (s <| hv_r := (hv_r s) <| r_header_start := Some vs |> |>
        <| hv_state := sw_value |>))) as Hfirst.
    { intros s Hs. unfold header_step. rewrite Hs. unfold_hcase.
      apply Forall_cons in Hval as [(? & ? & ?) _].
      repeat (case_match; [lia|]). done. }
    rewrite Hfirst by done. fold s2.
    replace ve with (vs + 1 + Z.of_nat (length value)) by (subst ve; lia).
    apply (value_line_loop au mem (vs + 1) v); [done|done|].
    by apply Forall_cons in Hval as [_ ?]. }
  assert (Z.of_nat (length line) = ve + Z.of_nat b + 2) as Hlen.
  { subst line ve vs n. rewrite length_app. cbn [length]. rewrite length_app, length_replicate.
    rewrite length_app, length_app, length_replicate. cbn [length]. lia. }
  rewrite (header_line_unfold au line 0 r line _ _ Hst) with (2 := E).
  2: { rewrite slice_is_Some by lia. f_equal. rewrite Z.sub_0_r, Nat2Z.id. apply firstn_all. }
  cbn [header_return b_mem b_last]. eexists. split; [by rewrite Hlen; do 3 f_equal; lia|].
  subst s2 s1' s1 r0. cbn -[Z.of_nat Z.modulo Z.to_nat]. split_and!; try done.
  - f_equal. lia.
  - intros Hn. pose proof (store_name_take (<[0%nat:=lowcase c]> (r_lowcase_header r)) 1 name) as Ht.
    rewrite length_insert in Ht. change (Z.to_nat 1) with 1%nat in Ht.
    etrans; [apply Ht; [done|lia|lia]|]. by destruct (r_lowcase_header r).
Qed.

Example header_line_wellformed_witness :
  exists r', ngx_http_parse_header_line request0
      (mk_buf (cstr "Host:  a b " ++ [CR; LF]) 0 13) false =
      Some (NGX_OK, r', mk_buf (cstr "Host:  a b " ++ [CR; LF]) 13 13) /\
    r_header_start r' = Some 7 /\ r_header_end r' = Some 10 /\
    r_header_hash r' = ngx_hash_key (cstr "host").
Proof.
  destruct (header_line_wellformed false request0 "H"%cc (cstr "ost") 2 "a"%cc (cstr " b") 1)
    as (r' & Hw); [by_eval|by_eval|done|by_eval|by_eval|].
  exists r'. destruct_and! Hw. by split_and!.
Defined.

(** A name that starts with an underscore is marked invalid even where
    underscores are allowed: the first byte of a name is only looked up in the
    table. *)
Theorem leading_underscore_invalid :
  (fun '(rc, r, _) => (rc, r_invalid_header r)) <$>
    ngx_http_parse_header_line request0 (mk_buf (cstr "_a: b" ++ [LF]) 0 6) true
  = Some (NGX_OK, true) /\
  (fun '(rc, r, _) => (rc, r_invalid_header r)) <$>
    ngx_http_parse_header_line request0 (mk_buf (cstr "a_: b" ++ [LF]) 0 6) true
  = Some (NGX_OK, false).
Proof. by split. Qed.
