(* ===== verification/NgxHttpStatusLine.v ===== *)
(** The status line of an upstream response: [ngx_http_parse_status_line] of
    src/http/ngx_http_parse.c and [ngx_http_status_t] of src/http/ngx_http.h.

    Of the request only [r->state] is used. *)

From S2P Require Import Prelude NgxHttpRequest.

Open Scope Z_scope.

(** * States *)

Inductive status_state :=
  | sw_start
  | sw_H
  | sw_HT
  | sw_HTT
  | sw_HTTP
  | sw_first_major_digit
  | sw_major_digit
  | sw_first_minor_digit
  | sw_minor_digit
  | sw_status
  | sw_space_after_status
  | sw_status_text
  | sw_almost_done.

#[export] Instance status_state_eq_dec : EqDecision status_state.
Proof. solve_decision. Defined.

Definition status_states : list status_state :=
  [sw_start; sw_H; sw_HT; sw_HTT; sw_HTTP; sw_first_major_digit; sw_major_digit;
   sw_first_minor_digit; sw_minor_digit; sw_status; sw_space_after_status;
   sw_status_text; sw_almost_done].

Definition status_state_code (st : status_state) : Z :=
  match st with
  | sw_start => 0 | sw_H => 1 | sw_HT => 2 | sw_HTT => 3 | sw_HTTP => 4
  | sw_first_major_digit => 5 | sw_major_digit => 6 | sw_first_minor_digit => 7
  | sw_minor_digit => 8 | sw_status => 9 | sw_space_after_status => 10
  | sw_status_text => 11 | sw_almost_done => 12
  end.

Definition status_state_of (code : Z) : option status_state :=
  if code <? 0 then None else status_states !! Z.to_nat code.

Record ngx_http_status_t := mk_status {
  s_code : Z;
  s_count : Z;
  s_start : ptr;
  s_end : ptr;
}.

#[export] Instance eta_status : EtaRecord ngx_http_status_t := fun s =>
  mk_status (s_code s) (s_count s) (s_start s) (s_end s).
#[export] Instance set_s_code : FieldSetter s_code := ltac:(field_setter).
#[export] Instance set_s_count : FieldSetter s_count := ltac:(field_setter).
#[export] Instance set_s_start : FieldSetter s_start := ltac:(field_setter).
#[export] Instance set_s_end : FieldSetter s_end := ltac:(field_setter).

Definition status0 : ngx_http_status_t := mk_status 0 0 None None.

(** * The cases *)

Abbreviation status_vars := (status_state * ngx_http_status_t)%type.

Abbreviation status_result := (step_result status_vars).

(** A state that expects the byte [want]. *)
Definition expect (want : Z) (this next : status_state) (ch : Z) (s : ngx_http_status_t)
  : status_result :=
  if ch =? want then Continue (next, s) else Return NGX_ERROR (this, s).

Definition scase_first_major_digit (ch : Z) (s : ngx_http_status_t) : status_result :=
  if (ch <? "1"%cc) || ("9"%cc <? ch) then Return NGX_ERROR (sw_first_major_digit, s)
  else Continue (sw_major_digit, s).

Definition scase_major_digit (ch : Z) (s : ngx_http_status_t) : status_result :=
  if ch =? "."%cc then Continue (sw_first_minor_digit, s)
  else if negb (is_digit ch) then Return NGX_ERROR (sw_major_digit, s)
  else Continue (sw_major_digit, s).

Definition scase_first_minor_digit (ch : Z) (s : ngx_http_status_t) : status_result :=
  if negb (is_digit ch) then Return NGX_ERROR (sw_first_minor_digit, s)
  else Continue (sw_minor_digit, s).

Definition scase_minor_digit (ch : Z) (s : ngx_http_status_t) : status_result :=
  if ch =? " "%cc then Continue (sw_status, s)
  else if negb (is_digit ch) then Return NGX_ERROR (sw_minor_digit, s)
  else Continue (sw_minor_digit, s).

Definition scase_status (p ch : Z) (s : ngx_http_status_t) : status_result :=
  if ch =? " "%cc then Continue (sw_status, s)
  else if negb (is_digit ch) then Return NGX_ERROR (sw_status, s)
  else
    let s := s <| s_code := u64 (s_code s * 10 + ch - "0"%cc) |>
               <| s_count := u64 (s_count s + 1) |> in
    if s_count s =? 3
    then Continue (sw_space_after_status, s <| s_start := Some (p - 2) |>)
    else Continue (sw_status, s).

Definition scase_space_after_status (ch : Z) (s : ngx_http_status_t) : status_result :=
  if ch =? " "%cc then Continue (sw_status_text, s)
  else if ch =? "."%cc then Continue (sw_status_text, s)
  else if ch =? CR then Continue (sw_almost_done, s)
  else if ch =? LF then Goto_done (sw_space_after_status, s)
  else Return NGX_ERROR (sw_space_after_status, s).

Definition scase_status_text (ch : Z) (s : ngx_http_status_t) : status_result :=
  if ch =? CR then Continue (sw_almost_done, s)
  else if ch =? LF then Goto_done (sw_status_text, s)
  else Continue (sw_status_text, s).

Definition scase_almost_done (p ch : Z) (s : ngx_http_status_t) : status_result :=
  let s := s <| s_end := Some (p - 1) |> in
  if ch =? LF then Goto_done (sw_almost_done, s) else Return NGX_ERROR (sw_almost_done, s).

Definition status_step (mem : list Z) (p ch : Z) (v : status_vars) : option status_result :=
  let '(state, s) := v in
  Some match state with
  | sw_start => expect "H"%cc sw_start sw_H ch s
  | sw_H => expect "T"%cc sw_H sw_HT ch s
  | sw_HT => expect "T"%cc sw_HT sw_HTT ch s
  | sw_HTT => expect "P"%cc sw_HTT sw_HTTP ch s
  | sw_HTTP => expect "/"%cc sw_HTTP sw_first_major_digit ch s
  | sw_first_major_digit => scase_first_major_digit ch s
  | sw_major_digit => scase_major_digit ch s
  | sw_first_minor_digit => scase_first_minor_digit ch s
  | sw_minor_digit => scase_minor_digit ch s
  | sw_status => scase_status p ch s
  | sw_space_after_status => scase_space_after_status ch s
  | sw_status_text => scase_status_text ch s
  | sw_almost_done => scase_almost_done p ch s
  end.

#[export] Instance status_parser : LineParser status_vars := {
  line_step := status_step;
  line_step_local := fun _ _ _ _ _ _ => eq_refl;
}.

(** What follows the loop. *)
Definition status_return (r : ngx_http_request_t) (b : ngx_buf_t) (p : Z) (res : status_result)
  : option (Z * ngx_http_request_t * ngx_http_status_t * ngx_buf_t) :=
  match res with
  | Continue (state, s) =>
      Some (NGX_AGAIN, r <| r_state := status_state_code state |>, s,
            mk_buf (b_mem b) p (b_last b))
  | Goto_done (_, s) =>
      let s := match s_end s with None => s <| s_end := Some p |> | Some _ => s end in
      Some (NGX_OK, r <| r_state := 0 |>, s, mk_buf (b_mem b) (p + 1) (b_last b))
  | Goto_header_done _ => None
  | Return rc (_, s) => Some (rc, r, s, b)
  end.

Definition ngx_http_parse_status_line (r : ngx_http_request_t) (b : ngx_buf_t)
  (status : ngx_http_status_t)
  : option (Z * ngx_http_request_t * ngx_http_status_t * ngx_buf_t) :=
  state ← status_state_of (r_state r);
  bytes ← slice (b_mem b) (b_pos b) (b_last b);
  '(p, res) ← line_loop (b_mem b) (b_pos b) bytes (state, status);
  status_return r b p res.

Example parse_status_200 :
  (fun '(rc, _, s, b) => (rc, s_code s, s_start s, s_end s, b_pos b)) <$>
  ngx_http_parse_status_line request0 (mk_buf (cstr "HTTP/1.1 200 OK" ++ [CR; LF]) 0 17) status0
  = Some (NGX_OK, 200, Some 9, Some 15, 17).
Proof. reflexivity. Qed.

(** * Results *)

Ltac unfold_scase :=
  cbv delta [expect scase_first_major_digit scase_major_digit scase_first_minor_digit
    scase_minor_digit scase_status scase_space_after_status scase_status_text
    scase_almost_done] beta zeta.

Lemma status_state_of_code st : status_state_of (status_state_code st) = Some st.
Proof. by destruct st. Qed.

(** The code read so far has as many digits as were counted. *)
Definition status_inv (lo p : Z) (v : status_vars) : Prop :=
  let '(st, s) := v in
  0 <= lo <= p /\ s_end s = None /\
  match st with
  | sw_space_after_status | sw_status_text =>
      0 <= s_code s < 1000 /\ exists a, s_start s = Some a /\ lo <= a /\ a + 3 <= p
  | sw_almost_done =>
      0 <= s_code s < 1000 /\ exists a, s_start s = Some a /\ lo <= a /\ a + 3 <= p - 1
  | _ => 0 <= s_count s < 3 /\ 0 <= s_code s < 10 ^ s_count s /\
      lo + s_count s <= p
  end.

Definition status_post (lo p : Z) (res : status_result) : Prop :=
  match res with
  | Continue v => status_inv lo p v
  | Goto_done (_, s) => 0 <= s_code s < 1000 /\
      exists a, s_start s = Some a /\ lo <= a /\
        a + 3 <= default p (s_end s) <= p
  | Goto_header_done _ => False
  | Return rc _ => rc = NGX_ERROR
  end.

Lemma status_digit_inv ch s :
  is_digit ch = true -> 0 <= s_count s < 3 -> 0 <= s_code s < 10 ^ s_count s ->
  let s' := s <| s_code := u64 (s_code s * 10 + ch - "0"%cc) |>
              <| s_count := u64 (s_count s + 1) |> in
  s_count s' = s_count s + 1 /\ 0 <= s_code s' < 10 ^ s_count s' /\ s_code s' < 1000.
Proof.
  intros Hd Hn Hc. unfold is_digit in Hd. cbn -[Z.pow Z.mul].
  assert (s_count s = 0 \/ s_count s = 1 \/ s_count s = 2) as Hcases by lia.
  rewrite (wrap_small 64 (s_count s + 1)) by lia.
  destruct Hcases as [E|[E|E]]; rewrite E in *; rewrite wrap_small by lia; lia.
Qed.

Lemma status_step_ok lo mem p ch v :
  status_inv lo p v -> exists res, status_step mem p ch v = Some res /\
    match res with Continue v' => status_inv lo (p + 1) v' | _ => status_post lo p res end.
Proof.
  destruct v as [st s]. intros (Hlo & Hend & Hinv). cbn [status_step]. eexists. split; [reflexivity|].
  destruct (decide (st = sw_status)) as [->|Hst].
  - unfold scase_status. destruct (ch =? " "%cc).
    { cbn. split_and!; try done; lia. }
    destruct (is_digit ch) eqn:Hd; cbn [negb]; [|done]. destruct Hinv as (Hn & Hc & Hp).
    pose proof (status_digit_inv ch s Hd Hn Hc) as (Hn' & Hc' & Hl').
    cbv zeta in *. revert Hn' Hc' Hl'.
    set (s' := s <| s_code := _ |> <| s_count := _ |>). intros Hn' Hc' Hl'.
    destruct (Z.eqb_spec (s_count s') 3) as [E|].
    + split; [lia|]. split; [exact Hend|]. split.
      { change (0 <= s_code s' < 1000). lia. }
      exists (p - 2). split; [done|]. lia.
    + split; [lia|]. split; [exact Hend|]. split; [lia|]. split; [done|lia].
  - destruct st; try done; unfold_scase;
      repeat match goal with |- context [if ?b then _ else _] => destruct b eqn:? end; cbn;
      repeat match goal with
      | H : _ /\ _ |- _ => destruct H
      | H : exists _, _ |- _ => destruct H
      end;
      repeat match goal with
      | |- exists _, _ => eexists
      | |- _ /\ _ => split
      end; try rewrite Hend; cbn; try done; try eassumption; try lia.
Qed.

(** A call is always defined and returns [NGX_OK], [NGX_AGAIN] (with every
    byte consumed) or [NGX_ERROR]; a status accepted has a code below 1000 and
    a text whose start, three bytes at least before its end, lies inside the
    line. *)
Theorem status_line_safe mem pos r :
  r_state r = 0 -> 0 <= pos <= Z.of_nat (length mem) ->
  exists rc r' s' b',
    ngx_http_parse_status_line r (mk_buf mem pos (Z.of_nat (length mem))) status0
      = Some (rc, r', s', b') /\
    (rc = NGX_OK /\ r_state r' = 0 /\ 0 <= s_code s' < 1000 /\
       (exists a e, s_start s' = Some a /\ s_end s' = Some e /\
          pos <= a /\ a + 3 <= e < b_pos b') /\ b_pos b' <= Z.of_nat (length mem) \/
     rc = NGX_AGAIN /\ b_pos b' = Z.of_nat (length mem) \/
     rc = NGX_ERROR /\ r' = r /\ b_pos b' = pos).
Proof.
  intros Hr Hpos. unfold ngx_http_parse_status_line. cbn [b_mem b_pos b_last].
  rewrite Hr. change (status_state_of 0) with (Some sw_start). cbn [mbind option_bind].
  destruct (line_loop_buffer (status_inv pos) (status_post pos) mem pos (sw_start, status0))
    as (l & p & res & -> & E & Hpost & Hstop); [done| |done| |].
  { intros. by apply status_step_ok. }
  { cbn. split_and!; done || lia. }
  cbn [mbind option_bind]. rewrite E. cbn [mbind option_bind].
  destruct res as [[st s]|[st s]|[st s]|rc [st s]]; cbn [status_return]; [| |done|].
  - eexists _, _, _, _. split; [reflexivity|]. right; left. done.
  - destruct Hpost as (Hc & a & Ha & Hlo & He). eexists _, _, _, _. split; [reflexivity|].
    left. cbn [b_pos]. destruct (s_end s) as [e|] eqn:Ee; cbn in He |- *;
      (split_and!; try done; try lia; eexists _, _; split_and!; try done; try lia).
  - cbn in Hpost. subst rc. eexists _, _, _, _. split; [reflexivity|]. by right; right.
Qed.

Example status_line_safe_witness :
  exists rc r' s' b',
    ngx_http_parse_status_line request0 (mk_buf (cstr "HTTP/1.0 404" ++ [LF]) 0 13) status0
      = Some (rc, r', s', b') /\ rc = NGX_OK /\ 0 <= s_code s' < 1000.
Proof.
  destruct (status_line_safe (cstr "HTTP/1.0 404" ++ [LF]) 0 request0)
    as (rc & r' & s' & b' & E & Hcases); [done|cbn; lia|].
  exists rc, r', s', b'. split; [exact E|].
  vm_compute in E. injection E as <- <- <- <-.
  destruct Hcases as [(_ & _ & Hok & _)|[[? _]|[? _]]]; [by split|done..].
Defined.

(** ** Resuming *)

(** On an error neither [b->pos] nor [r->state] is updated. *)
Definition status_outcome
  (x : option (Z * ngx_http_request_t * ngx_http_status_t * ngx_buf_t)) :=
  '(rc, r, s, b) ← x;
  if rc =? NGX_ERROR then Some (rc, r <| r_state := 0 |>, s, None)
  else Some (rc, r, s, Some b).

Lemma status_loop_codes mem p l v q rc v' :
  line_loop mem p l v = Some (q, Return (S := status_vars) rc v') -> rc = NGX_ERROR.
Proof.
  revert p v. induction l as [|ch l IH]; intros p v; cbn [line_loop line_step status_parser];
    [done|].
  destruct (status_step mem p ch v) as [[]|] eqn:E; try done; [apply IH|].
  intros [= -> -> ->]. destruct v as [st s]. revert E. cbn [status_step].
  destruct st; unfold_scase; repeat case_match; congruence.
Qed.

(** The status line, too, can arrive in any number of pieces: after
    [NGX_AGAIN] the rest is parsed from the saved state and status to the
    result of one call on all the bytes, and any other result is final. *)
Theorem status_line_resumes r status mem1 mem2 pos rc r1 s1 b1 :
  let parse r s mem pos :=
    ngx_http_parse_status_line r (mk_buf mem pos (Z.of_nat (length mem))) s in
  parse r status mem1 pos = Some (rc, r1, s1, b1) ->
  if decide (rc = NGX_AGAIN)
  then status_outcome (parse r status (mem1 ++ mem2) pos) =
       status_outcome (parse r1 s1 (mem1 ++ mem2) (b_pos b1))
  else status_outcome (parse r status (mem1 ++ mem2) pos) =
       status_outcome (Some (rc, r1, s1,
         mk_buf (mem1 ++ mem2) (b_pos b1) (Z.of_nat (length (mem1 ++ mem2))))).
Proof.
  intros parse. subst parse. cbn beta. unfold ngx_http_parse_status_line.
  cbn [b_mem b_pos b_last].
  destruct (status_state_of (r_state r)) as [st|] eqn:Est; cbn [mbind option_bind]; [|done].
  destruct (slice mem1 pos _) as [l|] eqn:Hl; cbn [mbind option_bind]; [|done].
  destruct (slice_grow _ mem2 _ _ Hl) as [Hw Hr]. rewrite Hw. cbn [mbind option_bind].
  pose proof (slice_bounds _ _ _ _ Hl) as (Hb & _ & Hlen).
  rewrite line_loop_chunks by lia.
  destruct (line_loop mem1 pos l (st, status)) as [[p' [[st' s]|[st' s]|[st' s]|rc' [st' s]]]|] eqn:E;
    cbn [mbind option_bind status_return]; [| |done| |done]; intros [= <- <- <- <-]; cbn [b_pos].
  - apply line_loop_pos in E. replace p' with (Z.of_nat (length mem1)) by lia.
    rewrite decide_True by done.
    change (r_state (r <| r_state := status_state_code st' |>)) with (status_state_code st').
    rewrite status_state_of_code, Hr. cbn [mbind option_bind].
    destruct (line_loop (mem1 ++ mem2) _ mem2 (st', s))
      as [[q [[? ?]|[? ?]|[? ?]|rc2 [? ?]]]|] eqn:E2; try done.
    by apply status_loop_codes in E2 as ->.
  - by rewrite decide_False.
  - apply status_loop_codes in E as ->. by rewrite decide_False.
Qed.

Example status_line_resumes_witness :
  exists rc r1 s1 b1,
    ngx_http_parse_status_line request0 (mk_buf (cstr "HTTP/1.1 2") 0 10) status0
      = Some (rc, r1, s1, b1) /\
    rc = NGX_AGAIN /\
    status_outcome (ngx_http_parse_status_line request0
      (mk_buf (cstr "HTTP/1.1 2" ++ cstr "04" ++ [LF]) 0 13) status0) =
    status_outcome (ngx_http_parse_status_line r1
      (mk_buf (cstr "HTTP/1.1 2" ++ cstr "04" ++ [LF]) (b_pos b1) 13) s1).
Proof.
  destruct (ngx_http_parse_status_line request0 (mk_buf (cstr "HTTP/1.1 2") 0 10) status0)
    as [[[[rc r1] s1] b1]|] eqn:E; [|done].
  exists rc, r1, s1, b1. split; [done|].
  pose proof (status_line_resumes request0 status0 (cstr "HTTP/1.1 2")
    (cstr "04" ++ [LF]) 0 rc r1 s1 b1 E) as Hres.
  assert (rc = NGX_AGAIN) as -> by (vm_compute in E; by injection E).
  split; [done|]. exact Hres.
Defined.

(** ** Well-formed lines *)

(** Digits after the first one of a version number. *)
Lemma version_digits_loop mem p l st s :
  st = sw_major_digit \/ st = sw_minor_digit -> Forall (fun c => is_digit c = true) l ->
  line_loop mem p l (st, s) = Some (p + Z.of_nat (length l), Continue (st, s)).
Proof.
  intros Hst Hl. revert p. induction Hl as [|c l Hc Hl IH]; intros p; cbn [line_loop length].
  { by rewrite Z.add_0_r. }
  assert (line_step mem p c (st, s) = Some (Continue (st, s))) as ->.
  { cbn [line_step status_parser]. unfold is_digit in Hc.
    destruct Hst as [-> | ->]; cbn [status_step]; unfold_scase; unfold is_digit;
      (destruct (_ =? _) eqn:?; [lia|]); by destruct (negb _) eqn:?; [lia|]. }
  rewrite IH. do 2 f_equal. lia.
Qed.

Lemma status_text_loop mem p l s :
  Forall (fun c => c <> CR /\ c <> LF) l ->
  line_loop mem p l (sw_status_text, s) =
  Some (p + Z.of_nat (length l), Continue (sw_status_text, s)).
Proof.
  intros Hl. revert p. induction Hl as [|c l [Hc1 Hc2] Hl IH]; intros p; cbn [line_loop length].
  { by rewrite Z.add_0_r. }
  assert (line_step mem p c (sw_status_text, s) = Some (Continue (sw_status_text, s))) as ->.
  { cbn. unfold_scase. destruct (Z.eqb_spec c CR); [done|]. by destruct (Z.eqb_spec c LF). }
  rewrite IH. do 2 f_equal. lia.
Qed.

Lemma status_digit_case p ch code count start end_ :
  is_digit ch = true -> 0 <= count < 3 -> 0 <= code < 1000 ->
  scase_status p ch (mk_status code count start end_) =
  if count =? 2
  then Continue (sw_space_after_status,
         mk_status (code * 10 + ch - "0"%cc) 3 (Some (p - 2)) end_)
  else Continue (sw_status, mk_status (code * 10 + ch - "0"%cc) (count + 1) start end_).
Proof.
  intros Hd Hn Hc. unfold scase_status. rewrite Hd. unfold is_digit in Hd.
  destruct (Z.eqb_spec ch " "%cc); [lia|]. cbn -[Z.add Z.mul Z.sub wrap].
  rewrite !wrap_small by lia.
  destruct (Z.eqb_spec (count + 1) 3), (Z.eqb_spec count 2); try lia; [|done].
  by replace (count + 1) with 3 by lia.
Qed.

(** Three digits in a row, from no digit. *)
Lemma status_code_loop mem p a b c :
  is_digit a = true -> is_digit b = true -> is_digit c = true ->
  line_loop mem p [a; b; c] (sw_status, status0) =
  Some (p + 3, Continue (sw_space_after_status,
    mk_status ((a - "0"%cc) * 100 + (b - "0"%cc) * 10 + (c - "0"%cc)) 3 (Some p) None)).
Proof.
  intros Ha Hb Hc. cbn [line_loop line_step status_parser status_step].
  unfold status0. rewrite (status_digit_case p a) by (done || lia). unfold is_digit in Ha.
  change (0 =? 2) with false. cbn [line_step status_parser status_step].
  rewrite (status_digit_case _ b) by (done || lia). unfold is_digit in Hb.
  change (0 + 1 =? 2) with false. cbn [line_step status_parser status_step].
  rewrite (status_digit_case _ c) by (done || lia).
  change (0 + 1 + 1 =? 2) with true. cbn match.
  replace (p + 1 + 1 - 2) with p by lia. do 2 f_equal; [lia|]. do 3 f_equal. lia.
Qed.

Lemma status_version_loop mem p ma major mi minor s :
  "1"%cc <= ma <= "9"%cc -> Forall (fun c => is_digit c = true) major ->
  is_digit mi = true -> Forall (fun c => is_digit c = true) minor ->
  let l := cstr "HTTP/" ++ (ma :: major) ++ "."%cc :: (mi :: minor) ++ [" "%cc] in
  line_loop mem p l (sw_start, s) = Some (p + Z.of_nat (length l), Continue (sw_status, s)).
Proof.
  intros Hma Hmaj Hmi Hmin l.
  assert (Z.of_nat (length l) = Z.of_nat (length major) + Z.of_nat (length minor) + 9) as ->.
  { subst l. rewrite !length_app. cbn [length app]. rewrite length_app.
    change (length (cstr "HTTP/")) with 5%nat. cbn [length]. lia. }
  subst l.
  rewrite line_loop_app. change (line_loop mem p (cstr "HTTP/") (sw_start, s))
    with (Some (p + 1 + 1 + 1 + 1 + 1, Continue (sw_first_major_digit, s))). cbn match.
  cbn [app line_loop line_step status_parser status_step]. unfold scase_first_major_digit.
  destruct (_ || _) eqn:E; [lia|]. clear E.
  rewrite line_loop_app, version_digits_loop by (done || by left).
  cbn [line_loop line_step status_parser status_step].
  change (scase_major_digit "."%cc s) with (Continue (S := status_vars) (sw_first_minor_digit, s)).
  cbn match. cbn [app line_loop line_step status_parser status_step].
  unfold scase_first_minor_digit. rewrite Hmi. cbn [negb].
  rewrite line_loop_app, version_digits_loop by (done || by right).
  cbn [line_loop line_step status_parser status_step].
  change (scase_minor_digit " "%cc s) with (Continue (S := status_vars) (sw_status, s)).
  cbn match. do 2 f_equal. lia.
Qed.

(** A well-formed status line is parsed to its code and text: for any
    version [x.y] with numbers of any length, three digits and a text without
    line breaks, the parser returns [NGX_OK], the value of the digits, and the
    bounds of "<code> <text>". *)
Theorem status_line_wellformed r ma major mi minor a b c text :
  r_state r = 0 -> "1"%cc <= ma <= "9"%cc -> Forall (fun c => is_digit c = true) major ->
  is_digit mi = true -> Forall (fun c => is_digit c = true) minor ->
  is_digit a = true -> is_digit b = true -> is_digit c = true ->
  Forall (fun c => c <> CR /\ c <> LF) text ->
  let version := cstr "HTTP/" ++ (ma :: major) ++ "."%cc :: (mi :: minor) ++ [" "%cc] in
  let line := version ++ [a; b; c] ++ " "%cc :: text ++ [CR; LF] in
  let n := Z.of_nat (length version) in
  let e := n + 4 + Z.of_nat (length text) in
  exists r', ngx_http_parse_status_line r (mk_buf line 0 (Z.of_nat (length line))) status0 =
    Some (NGX_OK, r',
      mk_status ((a - "0"%cc) * 100 + (b - "0"%cc) * 10 + (c - "0"%cc)) 3 (Some n) (Some e),
      mk_buf line (Z.of_nat (length line)) (Z.of_nat (length line))).
Proof.
  intros Hr Hma Hmaj Hmi Hmin Ha Hb Hc Htext version line n e.
  assert (Z.of_nat (length line) = e + 2) as Hlen.
  { subst line e n. rewrite !length_app. cbn [length]. rewrite length_app. cbn [length]. lia. }
  set (s := mk_status ((a - "0"%cc) * 100 + (b - "0"%cc) * 10 + (c - "0"%cc)) 3 (Some n) None).
  assert (line_loop line 0 line (sw_start, status0) =
    Some (e + 1, Goto_done (sw_almost_done, s <| s_end := Some e |>))) as E.
  { set (mem := line) at 1. clearbody mem. subst line.
    pose proof (status_version_loop mem 0 ma major mi minor status0 Hma Hmaj Hmi Hmin) as Ev.
    cbv zeta in Ev. fold version in Ev. fold n in Ev. rewrite Z.add_0_l in Ev.
    rewrite line_loop_app, Ev, line_loop_app, status_code_loop by done. fold s.
    cbn [line_loop line_step status_parser].
    change (status_step mem (n + 3) " "%cc (sw_space_after_status, s))
      with (Some (Continue (S := status_vars) (sw_status_text, s))). cbn match.
    rewrite line_loop_app, status_text_loop by done. subst e.
    replace (n + 3 + 1 + Z.of_nat (length text)) with (n + 4 + Z.of_nat (length text)) by lia.
    cbn [line_loop line_step status_parser status_step].
    change (scase_status_text CR s) with (Continue (S := status_vars) (sw_almost_done, s)).
    cbn [line_step status_parser status_step]. unfold scase_almost_done.
    change (LF =? LF) with true. cbn match.
    by rewrite Z.add_simpl_r. }
  unfold ngx_http_parse_status_line. cbn [b_mem b_pos b_last].
  rewrite Hr. change (status_state_of 0) with (Some sw_start). cbn [mbind option_bind].
  rewrite slice_is_Some by lia. cbn [mbind option_bind].
  replace (take _ _) with line by (rewrite Z.sub_0_r, Nat2Z.id; symmetry; apply firstn_all).
  rewrite E. cbn [mbind option_bind status_return]. eexists. rewrite Hlen.
  cbn [b_mem b_last]. by replace (e + 1 + 1) with (e + 2) by lia.
Qed.

Example status_line_wellformed_witness :
  exists r', ngx_http_parse_status_line request0
      (mk_buf (cstr "HTTP/1.1 503 Busy now" ++ [CR; LF]) 0 23) status0 =
    Some (NGX_OK, r', mk_status 503 3 (Some 9) (Some 21),
      mk_buf (cstr "HTTP/1.1 503 Busy now" ++ [CR; LF]) 23 23).
Proof.
  apply (status_line_wellformed request0 "1"%cc [] "1"%cc [] "5"%cc "0"%cc "3"%cc (cstr "Busy now"));
    try done; try lia; by_eval.
Defined.

(** Spaces between the digits of the code are skipped, so that a
    malformed line is accepted as a 200, with [status->start] inside the
    code. *)
Theorem status_code_with_spaces :
  (fun '(rc, _, s, _) => (rc, s_code s, s_start s)) <$>
    ngx_http_parse_status_line request0 (mk_buf (cstr "HTTP/1.1 2 0 0 OK" ++ [LF]) 0 18) status0
  = Some (NGX_OK, 200, Some 11).
Proof. reflexivity. Qed.
