(* ===== verification/NgxHttpUri.v ===== *)
(** Normalisation of the request URI: [ngx_http_parse_complex_uri] of
    src/http/ngx_http_parse.c.

    The input is the list of the bytes from [r->uri_start] up to and including
    the one at [r->uri_end], which the loop may read; [rest] is the part from
    [p] on, so that [p <= r->uri_end] is [rest <> []].  The output is the list
    of the bytes from [r->uri.data] up to [u], and an offset into it stands for
    [r->uri_ext].  [None] is the end of the fuel.

    The specification decodes the escapes first and then normalises the
    segments of the path with a stack. *)

From S2P Require Import Prelude NgxEscape NgxHttpRequest NgxHttpRequestLine.

Open Scope Z_scope.

Module ComplexUri.

(** * The code *)

Inductive uri_state :=
  | sw_usual
  | sw_slash
  | sw_dot
  | sw_dot_dot
  | sw_quoted
  | sw_quoted_second.

#[export] Instance uri_state_eq_dec : EqDecision uri_state.
Proof. solve_decision. Defined.

Record uri_vars := mk_vars {
  v_state : uri_state;
  v_quoted_state : uri_state;
  v_decoded : Z;
  v_u : list Z;
  v_uri_ext : option nat;
  v_plus_in_uri : bool;
  v_quoted_uri : bool;
}.

#[export] Instance eta_uri_vars : EtaRecord uri_vars := fun v =>
  mk_vars (v_state v) (v_quoted_state v) (v_decoded v) (v_u v) (v_uri_ext v)
    (v_plus_in_uri v) (v_quoted_uri v).
#[export] Instance set_v_state : FieldSetter v_state := ltac:(field_setter).
#[export] Instance set_v_quoted_state : FieldSetter v_quoted_state := ltac:(field_setter).
#[export] Instance set_v_decoded : FieldSetter v_decoded := ltac:(field_setter).
#[export] Instance set_v_u : FieldSetter v_u := ltac:(field_setter).
#[export] Instance set_v_uri_ext : FieldSetter v_uri_ext := ltac:(field_setter).
#[export] Instance set_v_plus_in_uri : FieldSetter v_plus_in_uri := ltac:(field_setter).
#[export] Instance set_v_quoted_uri : FieldSetter v_quoted_uri := ltac:(field_setter).

(** [Advance] ends in [ch = *p++; break]; [Stay ch'] sets [ch] and breaks. *)
Inductive uri_step_result :=
  | Advance (v : uri_vars)
  | Stay (ch : Z) (v : uri_vars)
  | Goto_args (v : uri_vars)
  | Goto_done (v : uri_vars)
  | Invalid.

(** [*u++ = ch] *)
Definition put (ch : Z) (v : uri_vars) : uri_vars := v <| v_u := v_u v ++ [ch] |>.

(** [quoted_state = state; state = sw_quoted;] *)
Definition quote (v : uri_vars) : uri_vars :=
  v <| v_quoted_state := v_state v |> <| v_state := sw_quoted |>.

Definition ucase_usual (ch : Z) (v : uri_vars) : uri_step_result :=
  if usual ch then Advance (put ch v)
  else if ch =? "/"%cc then
    Advance (put ch (v <| v_uri_ext := None |> <| v_state := sw_slash |>))
  else if ch =? "%"%cc then Advance (quote v)
  else if ch =? "?"%cc then Goto_args v
  else if ch =? "#"%cc then Goto_done v
  else if ch =? "."%cc then
    Advance (put ch (v <| v_uri_ext := Some (S (length (v_u v))) |>))
  else if ch =? "+"%cc then Advance (put ch (v <| v_plus_in_uri := true |>))
  else Advance (put ch v).

Definition ucase_slash (merge_slashes : bool) (ch : Z) (v : uri_vars) : uri_step_result :=
  if usual ch then Advance (put ch (v <| v_state := sw_usual |>))
  else if ch =? "/"%cc then Advance (if merge_slashes then v else put ch v)
  else if ch =? "."%cc then Advance (put ch (v <| v_state := sw_dot |>))
  else if ch =? "%"%cc then Advance (quote v)
  else if ch =? "?"%cc then Goto_args v
  else if ch =? "#"%cc then Goto_done v
  else if ch =? "+"%cc then
    Advance (put ch (v <| v_plus_in_uri := true |> <| v_state := sw_usual |>))
  else Advance (put ch (v <| v_state := sw_usual |>)).

Definition ucase_dot (ch : Z) (v : uri_vars) : uri_step_result :=
  if usual ch then Advance (put ch (v <| v_state := sw_usual |>))
  else if ch =? "/"%cc then
    Advance (v <| v_state := sw_slash |> <| v_u := take (length (v_u v) - 1) (v_u v) |>)
  else if ch =? "."%cc then Advance (put ch (v <| v_state := sw_dot_dot |>))
  else if ch =? "%"%cc then Advance (quote v)
  else if ch =? "?"%cc then Goto_args v
  else if ch =? "#"%cc then Goto_done v
  else if ch =? "+"%cc then
    Advance (put ch (v <| v_plus_in_uri := true |> <| v_state := sw_usual |>))
  else Advance (put ch (v <| v_state := sw_usual |>)).

(** [for ( ;; ) { if (u < r->uri.data) return ...; if ( *u == '/') { u++; break; }
    u--; }], with [u] at offset [n]. *)
Fixpoint back_to_slash (data : list Z) (n : nat) : option nat :=
  if nth n data 0 =? "/"%cc then Some (S n)
  else match n with
       | O => None
       | S n' => back_to_slash data n'
       end.

Definition ucase_dot_dot (ch : Z) (v : uri_vars) : uri_step_result :=
  if usual ch then Advance (put ch (v <| v_state := sw_usual |>))
  else if ch =? "/"%cc then
    if (length (v_u v) <? 5)%nat then Invalid
    else match back_to_slash (v_u v) (length (v_u v) - 5) with
         | None => Invalid
         | Some n => Advance (v <| v_state := sw_slash |> <| v_u := take n (v_u v) |>)
         end
  else if ch =? "%"%cc then Advance (quote v)
  else if ch =? "?"%cc then Goto_args v
  else if ch =? "#"%cc then Goto_done v
  else if ch =? "+"%cc then
    Advance (put ch (v <| v_plus_in_uri := true |> <| v_state := sw_usual |>))
  else Advance (put ch (v <| v_state := sw_usual |>)).

Definition ucase_quoted (ch : Z) (v : uri_vars) : uri_step_result :=
  let v := v <| v_quoted_uri := true |> in
  if is_digit ch then
    Advance (v <| v_decoded := u8 (ch - "0"%cc) |> <| v_state := sw_quoted_second |>)
  else
    let c := u8 (Z.lor ch 0x20) in
    if ("a"%cc <=? c) && (c <=? "f"%cc) then
      Advance (v <| v_decoded := u8 (c - "a"%cc + 10) |> <| v_state := sw_quoted_second |>)
    else Invalid.

Definition ucase_quoted_second (ch : Z) (v : uri_vars) : uri_step_result :=
  if is_digit ch then
    let ch := u8 (Z.shiftl (v_decoded v) 4 + ch - "0"%cc) in
    if (ch =? "%"%cc) || (ch =? "#"%cc) then Advance (put ch (v <| v_state := sw_usual |>))
    else if ch =? 0 then Invalid
    else Stay ch (v <| v_state := v_quoted_state v |>)
  else
    let c := u8 (Z.lor ch 0x20) in
    if ("a"%cc <=? c) && (c <=? "f"%cc) then
      let ch := u8 (Z.shiftl (v_decoded v) 4 + c - "a"%cc + 10) in
      if ch =? "?"%cc then Advance (put ch (v <| v_state := sw_usual |>))
      else
        let v := if ch =? "+"%cc then v <| v_plus_in_uri := true |> else v in
        Stay ch (v <| v_state := v_quoted_state v |>)
    else Invalid.

Definition uri_step (merge_slashes : bool) (ch : Z) (v : uri_vars) : uri_step_result :=
  match v_state v with
  | sw_usual => ucase_usual ch v
  | sw_slash => ucase_slash merge_slashes ch v
  | sw_dot => ucase_dot ch v
  | sw_dot_dot => ucase_dot_dot ch v
  | sw_quoted => ucase_quoted ch v
  | sw_quoted_second => ucase_quoted_second ch v
  end.

(** How the loop ends: at the end of the URI or on [#], at [?] with what
    follows it, or with an error. *)
Inductive uri_end :=
  | End_done (v : uri_vars)
  | End_args (v : uri_vars) (args_start : list Z)
  | End_invalid.

(** [while (p <= r->uri_end) switch (state) ...] *)
Fixpoint uri_loop (fuel : nat) (merge_slashes : bool) (ch : Z) (rest : list Z) (v : uri_vars)
  : option uri_end :=
  match rest with
  | [] => Some (End_done v)
  | c :: rest' =>
      match fuel with
      | O => None
      | S fuel' =>
          match uri_step merge_slashes ch v with
          | Advance v' => uri_loop fuel' merge_slashes c rest' v'
          | Stay ch' v' => uri_loop fuel' merge_slashes ch' rest v'
          | Goto_args v' => Some (End_args v' rest)
          | Goto_done v' => Some (End_done v')
          | Invalid => Some End_invalid
          end
      end
  end.

(** What the function leaves in the request: [args] is set when a [#] cuts
    the arguments, [args_start] (the bytes from it up to [r->uri_end]) when it
    does not. *)
Record complex_uri := mk_complex_uri {
  cu_uri : list Z;
  cu_exten : option (list Z);
  cu_args : option (list Z);
  cu_args_start : option (list Z);
  cu_plus_in_uri : bool;
  cu_quoted_uri : bool;
}.

(** The bytes before the first [#], and whether there is one. *)
Fixpoint before_hash (l : list Z) : list Z * bool :=
  match l with
  | [] => ([], false)
  | c :: l' => if c =? "#"%cc then ([], true)
               else let '(a, found) := before_hash l' in (c :: a, found)
  end.

(** The label [done] and the label [args]. *)
Definition uri_finish (v : uri_vars) (args args_start : option (list Z)) : complex_uri :=
  mk_complex_uri (v_u v) ((fun n => drop n (v_u v)) <$> v_uri_ext v) args args_start
    (v_plus_in_uri v) (v_quoted_uri v).

(** [plus_in_uri] and [quoted_uri] are the flags the request line parser left. *)
Definition ngx_http_parse_complex_uri (merge_slashes plus_in_uri quoted_uri : bool)
  (uri : list Z) : option (Z * option complex_uri) :=
  match uri with
  | [] => None
  | ch :: rest =>
      res ← uri_loop (2 * length uri) merge_slashes ch rest
              (mk_vars sw_usual sw_usual 0 [] None plus_in_uri quoted_uri);
      Some match res with
      | End_done v => (NGX_OK, Some (uri_finish v None None))
      | End_args v args_start =>
          let bytes := removelast args_start in
          let '(args, cut) := before_hash bytes in
          if cut then (NGX_OK, Some (uri_finish v (Some args) None))
          else (NGX_OK, Some (uri_finish v None (Some bytes)))
      | End_invalid => (NGX_HTTP_PARSE_INVALID_REQUEST, None)
      end
  end.

(** The normalised path of a URI followed by a space. *)
Definition normalised (merge_slashes : bool) (uri : list Z) : option (Z * option (list Z)) :=
  (fun '(rc, res) => (rc, option_map cu_uri res)) <$>
    ngx_http_parse_complex_uri merge_slashes false false (uri ++ [" "%cc]).

Example normalise_dots :
  normalised true (cstr "/a/./b//../c%2e%2F%2e%2e/d?x#y") = Some (NGX_OK, Some (cstr "/a/d")).
Proof. reflexivity. Qed.

(** * Specification *)

(** The value of a hexadecimal digit. *)
Definition hexval (h : Z) : option Z :=
  if is_digit h then Some (h - "0"%cc)
  else let c := u8 (Z.lor h 0x20) in
       if ("a"%cc <=? c) && (c <=? "f"%cc) then Some (c - "a"%cc + 10) else None.

Inductive uri_stop :=
  | Stop_end
  | Stop_args (args : list Z).

(** The characters of the path with the escapes decoded, up to [?] or [#]; an
    escape cut by the end of the URI is dropped.  [None]: a bad escape, or an
    escaped NUL. *)
Fixpoint decode (l : list Z) : option (list Z * uri_stop) :=
  match l with
  | [] => Some ([], Stop_end)
  | c :: l1 =>
      if c =? "?"%cc then Some ([], Stop_args l1)
      else if c =? "#"%cc then Some ([], Stop_end)
      else if c =? "%"%cc then
        match l1 with
        | [] => Some ([], Stop_end)
        | h1 :: l2 =>
            a ← hexval h1;
            match l2 with
            | [] => Some ([], Stop_end)
            | h2 :: l3 =>
                b ← hexval h2;
                if a * 16 + b =? 0 then None
                else '(chars, stop) ← decode l3; Some (a * 16 + b :: chars, stop)
            end
        end
      else '(chars, stop) ← decode l1; Some (c :: chars, stop)
  end.

(** The closed segments, the last one first, without the one "/.." removes;
    an empty segment, which exists when slashes are not merged, goes together
    with the one before it. *)
Definition pop (closed : list (list Z)) : option (list (list Z)) :=
  match closed with
  | [] => None
  | [] :: [] => None
  | [] :: _ :: d => Some d
  | _ :: d => Some d
  end.

(** A slash after the segment [cur]. *)
Definition close_segment (merge : bool) (closed : list (list Z)) (cur : list Z)
  : option (list (list Z)) :=
  if decide (cur = []) then Some (if merge then closed else [] :: closed)
  else if decide (cur = cstr ".") then Some closed
  else if decide (cur = cstr "..") then pop closed
  else Some (cur :: closed).

Fixpoint normalise (merge : bool) (closed : list (list Z)) (cur : list Z) (chars : list Z)
  : option (list (list Z) * list Z) :=
  match chars with
  | [] => Some (closed, cur)
  | c :: chars' =>
      if c =? "/"%cc
      then d ← close_segment merge closed cur; normalise merge d [] chars'
      else normalise merge closed (cur ++ [c]) chars'
  end.

(** "/s1/s2/.../cur" *)
Definition render (closed : list (list Z)) (cur : list Z) : list Z :=
  concat (cons "/"%cc <$> reverse closed) ++ "/"%cc :: cur.

Lemma render_cons s d cur : render (s :: d) cur = render d s ++ "/"%cc :: cur.
Proof.
  unfold render. rewrite reverse_cons, fmap_app, concat_app. cbn.
  by rewrite app_nil_r, <- !app_assoc.
Qed.

Lemma render_snoc d cur c : render d (cur ++ [c]) = render d cur ++ [c].
Proof. unfold render. by rewrite <- app_assoc. Qed.

(** * Refinement *)

Definition no_slash (s : list Z) : Prop := Forall (fun c => c <> "/"%cc) s.

Definition state_of (cur : list Z) : uri_state :=
  if decide (cur = []) then sw_slash
  else if decide (cur = cstr ".") then sw_dot
  else if decide (cur = cstr "..") then sw_dot_dot
  else sw_usual.

(** The extension: what follows the last dot of the last segment. *)
Definition ext_ok (v : uri_vars) (cur : list Z) : Prop :=
  match v_uri_ext v with
  | None => True
  | Some k => state_of cur = sw_usual /\
      exists a e, cur = a ++ "."%cc :: e /\ Forall (fun c => c <> "."%cc) e /\
        drop k (v_u v) = e /\ (k <= length (v_u v))%nat
  end.

(** The loop variables represent the closed segments and the current one. *)
Definition represents (v : uri_vars) (closed : list (list Z)) (cur : list Z) : Prop :=
  v_u v = render closed cur /\ v_state v = state_of cur /\
  Forall no_slash closed /\ no_slash cur /\ ext_ok v cur.

Lemma back_to_slash_seg a s b k :
  no_slash s -> (k <= length s)%nat ->
  back_to_slash (a ++ "/"%cc :: s ++ b) (length a + k) = Some (S (length a)).
Proof.
  intros Hs. induction k as [|k IH]; intros Hk.
  - rewrite Nat.add_0_r. destruct a as [|x a]; [done|]. cbn [length back_to_slash].
    rewrite app_nth2 by (cbn; lia). cbn [length].
    by replace (S (length a) - S (length a))%nat with 0%nat by lia.
  - replace (length a + S k)%nat with (S (length a + k)) by lia.
    cbn [back_to_slash]. rewrite IH by lia.
    rewrite app_nth2 by lia. replace (S (length a + k) - length a)%nat with (S k) by lia.
    cbn [nth]. rewrite app_nth1 by lia.
    assert (nth k s 0 <> "/"%cc).
    { apply (proj1 (List.Forall_forall _ _) Hs). apply nth_In. lia. }
    by destruct (Z.eqb_spec (nth k s 0) "/"%cc).
Qed.

Lemma state_of_snoc cur c :
  c <> "/"%cc ->
  state_of (cur ++ [c]) =
  match state_of cur with
  | sw_slash => if c =? "."%cc then sw_dot else sw_usual
  | sw_dot => if c =? "."%cc then sw_dot_dot else sw_usual
  | _ => sw_usual
  end.
Proof.
  intros Hc. unfold state_of.
  destruct (decide (cur = [])) as [->|H0].
  { cbn. destruct (Z.eqb_spec c "."%cc) as [->|]; [done|].
    rewrite !decide_False; [done|congruence..]. }
  destruct (decide (cur = cstr ".")) as [->|H1].
  { cbn. destruct (Z.eqb_spec c "."%cc) as [->|]; [done|].
    rewrite !decide_False; [done|cbv; congruence..]. }
  rewrite (decide_False (P := cur ++ [c] = [])) by (by destruct cur).
  rewrite (decide_False (P := cur ++ [c] = cstr ".")).
  2: { destruct cur as [|x [|y cur]]; [done|cbv; congruence..]. }
  rewrite (decide_False (P := cur ++ [c] = cstr "..")).
  2: { destruct cur as [|x [|y [|z cur]]]; [done| |cbv; congruence..].
       intros E. apply H1. cbv in E |- *. congruence. }
  by destruct (decide (cur = cstr "..")).
Qed.

Lemma ext_ok_put v cur c v' :
  ext_ok v cur -> c <> "/"%cc -> c <> "."%cc ->
  v_u v' = v_u v ++ [c] -> v_uri_ext v' = v_uri_ext v -> ext_ok v' (cur ++ [c]).
Proof.
  unfold ext_ok. intros He Hc Hd -> ->. destruct (v_uri_ext v) as [k|]; [|done].
  destruct He as (Hst & a & e & -> & Hn & <- & Hk). split.
  - by rewrite state_of_snoc, Hst by done.
  - exists a, (drop k (v_u v) ++ [c]). split_and!.
    + by rewrite <- app_assoc.
    + apply Forall_app. split; [done|]. by constructor.
    + by rewrite drop_app_le by lia.
    + rewrite length_app. lia.
Qed.

Lemma no_slash_snoc cur c : no_slash cur -> c <> "/"%cc -> no_slash (cur ++ [c]).
Proof. intros. apply Forall_app. split; [done|]. by constructor. Qed.

(** A character that is neither a slash nor special extends the segment. *)
Lemma represents_char merge v closed cur c :
  represents v closed cur ->
  c <> "/"%cc -> c <> "%"%cc -> c <> "?"%cc -> c <> "#"%cc ->
  exists v', uri_step merge c v = Advance v' /\ represents v' closed (cur ++ [c]).
Proof.
  intros (Hu & Hst & Hcl & Hns & Hext) H1 H2 H3 H4.
  assert (exists v', uri_step merge c v = Advance v' /\ v_u v' = v_u v ++ [c] /\
    v_state v' = state_of (cur ++ [c]) /\
    (v_uri_ext v' = v_uri_ext v \/ v_uri_ext v' = Some (S (length (v_u v))) /\ c = "."%cc /\
       state_of cur = sw_usual) /\
    (c = "."%cc -> state_of cur <> sw_usual \/ v_uri_ext v' = Some (S (length (v_u v)))))
    as (v' & E & Hu' & Hst' & He' & Hdot).
  { unfold uri_step. rewrite state_of_snoc by done. rewrite Hst.
    destruct (usual c) eqn:Hus.
    - pose proof (usual_plain c Hus) as (_ & Hdot & _).
      exists (put c (v <| v_state := sw_usual |>)).
      unfold ucase_usual, ucase_slash, ucase_dot, ucase_dot_dot. rewrite Hus.
      destruct (Z.eqb_spec c "."%cc); [done|].
      assert (state_of cur = sw_usual \/ state_of cur = sw_slash \/ state_of cur = sw_dot \/
              state_of cur = sw_dot_dot) as [Es|[Es|[Es|Es]]]
        by (unfold state_of; repeat case_decide; auto); rewrite Es;
        split_and!; try done; try (by left); try (by intros ->).
      destruct v. cbn in Hst. by rewrite Hst, Es.
    - unfold ucase_usual, ucase_slash, ucase_dot, ucase_dot_dot. rewrite Hus.
      rewrite (proj2 (Z.eqb_neq c "/"%cc)), (proj2 (Z.eqb_neq c "%"%cc)),
        (proj2 (Z.eqb_neq c "?"%cc)), (proj2 (Z.eqb_neq c "#"%cc)) by done.
      assert (state_of cur = sw_usual \/ state_of cur = sw_slash \/ state_of cur = sw_dot \/
              state_of cur = sw_dot_dot) as [Es|[Es|[Es|Es]]]
        by (unfold state_of; repeat case_decide; auto); rewrite Es in *;
        destruct (Z.eqb_spec c "."%cc) as [->|]; try destruct (c =? "+"%cc);
        (eexists; split; [reflexivity|]; split_and!; cbn; try done;
         first [by left | by right | idtac]);
        (by intros _; left) || (by intros _; right) || (by intros ->) || idtac. }
  exists v'. split; [done|]. split_and!.
  - by rewrite Hu', Hu, render_snoc.
  - done.
  - done.
  - by apply no_slash_snoc.
  - destruct (decide (c = "."%cc)) as [->|Hc].
    2: { destruct He' as [He'|(_ & -> & _)]; [by apply (ext_ok_put v)|done]. }
    destruct (decide (state_of cur = sw_usual)) as [Es|Es].
    + destruct (Hdot eq_refl) as [?|Hk]; [done|]. unfold ext_ok. rewrite Hk.
      split; [by rewrite state_of_snoc, Es by done|].
      exists cur, []. rewrite Hu', drop_ge, length_app by (rewrite length_app; cbn; lia).
      split_and!; [done|by constructor|done|cbn; lia].
    + destruct He' as [He'|(_ & _ & ?)]; [|done]. unfold ext_ok in *. rewrite He'.
      destruct (v_uri_ext v); [|done]. by destruct Hext as [? _].
Qed.

(** An escaped [%], [#] or [?] is written as it is. *)
Lemma represents_literal v v0 closed cur c :
  represents v closed cur -> v_u v0 = v_u v -> v_uri_ext v0 = v_uri_ext v ->
  c = "%"%cc \/ c = "#"%cc \/ c = "?"%cc ->
  represents (put c (v0 <| v_state := sw_usual |>)) closed (cur ++ [c]).
Proof.
  intros (Hu & Hst & Hcl & Hns & Hext) Eu Ee Hc.
  assert (c <> "/"%cc /\ c <> "."%cc) as [? ?] by (destruct Hc as [->|[->| ->]]; done).
  split_and!; cbn.
  - by rewrite Eu, Hu, render_snoc.
  - rewrite state_of_snoc by done. destruct (Z.eqb_spec c "."%cc); [done|].
    by destruct (state_of cur).
  - done.
  - by apply no_slash_snoc.
  - apply (ext_ok_put v); try done. cbn. by rewrite Eu.
Qed.

Lemma render_prefix closed cur :
  exists x, render closed cur = x ++ "/"%cc :: cur /\
    x = concat (cons "/"%cc <$> reverse closed).
Proof. by eexists. Qed.

(** Going back over the ".." of the segments [s :: d]. *)
Lemma dot_dot_back closed :
  Forall no_slash closed ->
  let u := render closed (cstr "..") in
  match pop closed with
  | None => (length u <? 5)%nat = true
  | Some d => (length u <? 5)%nat = false /\
      exists n, back_to_slash u (length u - 5) = Some n /\ take n u = render d []
  end.
Proof.
  intros Hns u. subst u.
  assert (forall s d, no_slash s ->
    let u := render (s :: d) (cstr "..") in
    (s = [] -> d = [] -> (length u <? 5)%nat = true) /\
    (s <> [] -> (length u <? 5)%nat = false /\
      exists n, back_to_slash u (length u - 5) = Some n /\ take n u = render d []))
    as Hone.
  { intros s d Hs u. subst u. rewrite render_cons. unfold render.
    set (x := concat (cons "/"%cc <$> reverse d)).
    rewrite !length_app. cbn [length]. change (length (cstr "..")) with 2%nat. split.
    - intros -> ->. done.
    - intros Hne. destruct s as [|c s]; [done|]. cbn [length]. split.
      { destruct (Nat.ltb_spec (length x + S (S (length s)) + 3) 5); [lia|done]. }
      exists (S (length x)). split.
      + replace (length x + S (S (length s)) + 3 - 5)%nat with (length x + length s)%nat by lia.
        rewrite <- app_assoc. cbn [app].
        apply (back_to_slash_seg x (c :: s)); [done|cbn; lia].
      + rewrite <- app_assoc. rewrite take_app_ge by lia.
        by replace (S (length x) - length x)%nat with 1%nat by lia. }
  destruct closed as [|s d]; [done|]. apply Forall_cons in Hns as [Hs Hd].
  destruct s as [|c s]; [|by apply (Hone (c :: s) d)].
  destruct d as [|s2 d2]; [by apply (Hone [] [])|]. cbn [pop].
  apply Forall_cons in Hd as [Hs2 _]. rewrite !render_cons. unfold render.
  set (x := concat (cons "/"%cc <$> reverse d2)).
  rewrite !length_app. cbn [length]. change (length (cstr "..")) with 2%nat. split.
  { destruct (Nat.ltb_spec (length x + S (length s2) + 1 + 3) 5); [lia|done]. }
  exists (S (length x)). rewrite <- !app_assoc. cbn [app]. split.
  + replace (length x + S (length s2) + 1 + 3 - 5)%nat with (length x + length s2)%nat by lia.
    by apply (back_to_slash_seg x s2).
  + rewrite take_app_ge by lia. by replace (S (length x) - length x)%nat with 1%nat by lia.
Qed.

Lemma pop_no_slash closed d : Forall no_slash closed -> pop closed = Some d -> Forall no_slash d.
Proof.
  intros Hf. destruct closed as [|[|c s] d0]; cbn; [done| |].
  - destruct d0 as [|s2 d2]; [done|]. intros [= <-].
    apply Forall_cons in Hf as [_ Hf]. by apply Forall_cons in Hf as [_ ?].
  - intros [= <-]. by apply Forall_cons in Hf as [_ ?].
Qed.

Lemma represents_open v d :
  v_u v = render d [] -> v_state v = sw_slash -> Forall no_slash d -> v_uri_ext v = None ->
  represents v d [].
Proof. intros ? ? ? He. split_and!; try done; [by constructor|]. unfold ext_ok. by rewrite He. Qed.

(** A slash closes the segment as the specification does. *)
Lemma represents_slash merge v closed cur :
  represents v closed cur ->
  match close_segment merge closed cur with
  | None => uri_step merge "/"%cc v = Invalid
  | Some d => exists v', uri_step merge "/"%cc v = Advance v' /\ represents v' d []
  end.
Proof.
  intros (Hu & Hst & Hcl & Hns & Hext). unfold close_segment, uri_step. rewrite Hst.
  assert (state_of cur <> sw_usual -> v_uri_ext v = None) as Hnone.
  { unfold ext_ok in Hext. destruct (v_uri_ext v); [|done]. by destruct Hext as [? _]. }
  unfold state_of in *. destruct (decide (cur = [])) as [->|H0].
  { specialize (Hnone ltac:(done)). destruct merge; eexists; (split; [reflexivity|]).
    - by apply represents_open.
    - apply represents_open; try done.
      + cbn. rewrite Hu. symmetry. apply (render_cons []).
      + by constructor; [constructor|]. }
  destruct (decide (cur = cstr ".")) as [->|H1].
  { specialize (Hnone ltac:(done)). eexists. split; [reflexivity|].
    apply represents_open; try done. cbn. rewrite Hu. unfold render. rewrite !length_app.
    change (length (_ :: cstr ".")) with 2%nat. rewrite take_app_ge by lia.
    by replace (length _ + 2 - 1 - length _)%nat with 1%nat by lia. }
  destruct (decide (cur = cstr "..")) as [->|H2].
  { specialize (Hnone ltac:(done)).
    unfold ucase_dot_dot. change (usual "/"%cc) with false. cbn [Z.eqb Pos.eqb].
    pose proof (dot_dot_back closed Hcl) as Hb. cbv zeta in Hb. rewrite <- Hu in Hb.
    destruct (pop closed) as [d|] eqn:Ep; [|by rewrite Hb].
    destruct Hb as (-> & n & -> & Ht). eexists. split; [reflexivity|].
    apply represents_open; try done. by eapply pop_no_slash. }
  eexists. split; [reflexivity|].
  apply represents_open; try done; [by rewrite render_cons, <- Hu|by constructor].
Qed.

Lemma hexval_range h a : hexval h = Some a -> 0 <= a < 16.
Proof.
  unfold hexval, is_digit. cbv zeta. intros Hh. split_if_in Hh; simplify_eq; lia.
Qed.

Lemma quoted_step h v :
  ucase_quoted h v =
  match hexval h with
  | None => Invalid
  | Some a => Advance (v <| v_quoted_uri := true |> <| v_decoded := a |>
                         <| v_state := sw_quoted_second |>)
  end.
Proof.
  unfold ucase_quoted, hexval, is_digit. cbv zeta. destruct (_ && _) eqn:E.
  { by rewrite wrap_small by lia. }
  destruct (("a"%cc <=? u8 (Z.lor h 32)) && _) eqn:E'; [|done].
  by rewrite (wrap_small 8 (u8 (Z.lor h 32) - _ + 10)) by lia.
Qed.

(** The second digit: a bad one, an escaped NUL, a character to write as it
    is, or one to process as if it were not escaped. *)
Lemma quoted_second_step h v a :
  v_decoded v = a -> 0 <= a < 16 ->
  match hexval h with
  | None => ucase_quoted_second h v = Invalid
  | Some b =>
      let d := a * 16 + b in
      if d =? 0 then ucase_quoted_second h v = Invalid
      else if (d =? "%"%cc) || (d =? "#"%cc) || (d =? "?"%cc)
      then ucase_quoted_second h v = Advance (put d (v <| v_state := sw_usual |>))
      else exists plus, ucase_quoted_second h v =
             Stay d (v <| v_plus_in_uri := plus |> <| v_state := v_quoted_state v |>)
  end.
Proof.
  intros Hd Ha. unfold hexval, ucase_quoted_second. rewrite Hd, Z.shiftl_mul_pow2 by lia.
  change (2 ^ 4) with 16. destruct (is_digit h) eqn:E; unfold is_digit in E.
  - cbv zeta. rewrite wrap_small by lia.
    replace (a * 16 + h - "0"%cc) with (a * 16 + (h - "0"%cc)) by lia.
    set (d := a * 16 + (h - "0"%cc)).
    assert (d <> "?"%cc) by (unfold d; lia).
    destruct (Z.eqb_spec d "?"%cc); [done|]. rewrite orb_false_r.
    destruct (Z.eqb_spec d 0) as [Ed|].
    { rewrite Ed. done. }
    destruct (_ || _); [done|]. exists (v_plus_in_uri v). by destruct v.
  - cbv zeta. set (c := u8 (Z.lor h 32)).
    destruct (("a"%cc <=? c) && (c <=? "f"%cc)) eqn:E'; [|done].
    rewrite wrap_small by lia.
    replace (a * 16 + c - "a"%cc + 10) with (a * 16 + (c - "a"%cc + 10)) by lia.
    set (d := a * 16 + (c - "a"%cc + 10)).
    assert (d <> 0 /\ d <> "%"%cc /\ d <> "#"%cc) as (? & ? & ?) by (unfold d; lia).
    destruct (Z.eqb_spec d 0); [done|]. destruct (Z.eqb_spec d "%"%cc); [done|].
    destruct (Z.eqb_spec d "#"%cc); [done|]. cbn [orb].
    destruct (d =? "?"%cc); [done|].
    exists (if d =? "+"%cc then true else v_plus_in_uri v).
    destruct (d =? "+"%cc); [done|]. by destruct v.
Qed.

(** What the specification gives for the rest of the URI. *)
Definition spec_rest (merge : bool) (closed : list (list Z)) (cur l : list Z)
  : option (list (list Z) * list Z * uri_stop) :=
  '(chars, stop) ← decode l;
  '(d, cur') ← normalise merge closed cur chars;
  Some (d, cur', stop).

(** The result of the loop shows the result of the specification. *)
Definition shows (v : uri_vars) (closed : list (list Z)) (cur : list Z) : Prop :=
  v_u v = render closed cur /\ Forall no_slash closed /\ no_slash cur /\ ext_ok v cur.

Definition agrees (t : Z) (res : uri_end) (spec : option (list (list Z) * list Z * uri_stop))
  : Prop :=
  match spec with
  | None => res = End_invalid
  | Some (d, cur, Stop_end) => exists v, res = End_done v /\ shows v d cur
  | Some (d, cur, Stop_args a) => exists v, res = End_args v (a ++ [t]) /\ shows v d cur
  end.

Lemma represents_shows v v' closed cur :
  represents v closed cur -> v_u v' = v_u v -> v_uri_ext v' = v_uri_ext v -> shows v' closed cur.
Proof.
  intros (Hu & _ & Hcl & Hns & Hext) Eu Ee. split_and!; [by rewrite Eu|done..|].
  unfold ext_ok in *. by rewrite Eu, Ee.
Qed.

Lemma represents_same v v' closed cur :
  represents v closed cur -> v_u v' = v_u v -> v_uri_ext v' = v_uri_ext v ->
  v_state v' = v_state v -> represents v' closed cur.
Proof.
  intros (Hu & Hs & Hcl & Hns & Hext) Eu Ee Es. split_and!; [by rewrite Eu|by rewrite Es|done..|].
  unfold ext_ok in *. by rewrite Eu, Ee.
Qed.

(** One decoded character. *)
Lemma spec_rest_char merge closed cur l c chars stop :
  decode l = Some (chars, stop) ->
  ('(d, cur') ← normalise merge closed cur (c :: chars); Some (d, cur', stop)) =
  if c =? "/"%cc
  then d ← close_segment merge closed cur; spec_rest merge d [] l
  else spec_rest merge closed (cur ++ [c]) l.
Proof.
  intros E. unfold spec_rest. rewrite E. cbn [normalise mbind option_bind].
  destruct (c =? "/"%cc); [|done]. by destruct (close_segment merge closed cur).
Qed.

(** The loop on [l] and its terminator agrees with the specification, from
    every represented state and with enough fuel. *)
Definition loop_ok (merge : bool) (t : Z) (l : list Z) : Prop :=
  forall fuel ch rest v closed cur,
    (2 * length l <= fuel)%nat -> l ++ [t] = ch :: rest -> represents v closed cur ->
    exists res, uri_loop fuel merge ch rest v = Some res /\
      agrees t res (spec_rest merge closed cur l).

(** A character, raw or decoded, in front of [l]. *)
Lemma loop_char merge t l c fuel v closed cur :
  loop_ok merge t l -> (2 * length l < fuel)%nat -> represents v closed cur ->
  c <> "%"%cc -> c <> "?"%cc -> c <> "#"%cc ->
  exists res, uri_loop fuel merge c (l ++ [t]) v = Some res /\
    agrees t res ('(chars, stop) ← decode l;
                  '(d, cur') ← normalise merge closed cur (c :: chars); Some (d, cur', stop)).
Proof.
  intros IH Hf Hv H1 H2 H3. destruct fuel as [|fuel]; [lia|].
  destruct (l ++ [t]) as [|c0 rest] eqn:El; [by destruct l|]. cbn [uri_loop].
  assert (('(chars, stop) ← decode l;
           '(d, cur') ← normalise merge closed cur (c :: chars); Some (d, cur', stop)) =
    if c =? "/"%cc
    then d ← close_segment merge closed cur; spec_rest merge d [] l
    else spec_rest merge closed (cur ++ [c]) l) as ->.
  { destruct (decode l) as [[chars stop]|] eqn:Ed; [by apply spec_rest_char|].
    unfold spec_rest. rewrite Ed. cbn. destruct (c =? _); [|done].
    by destruct (close_segment merge closed cur). }
  destruct (Z.eqb_spec c "/"%cc) as [->|Hc].
  - pose proof (represents_slash merge v closed cur Hv) as Hs.
    destruct (close_segment merge closed cur) as [d|]; cbn [mbind option_bind].
    + destruct Hs as (v' & -> & Hv'). apply IH; [lia|done..].
    + rewrite Hs. eexists. by split.
  - destruct (represents_char merge v closed cur c) as (v' & -> & Hv'); [done..|].
    apply IH; [lia|done..].
Qed.

(** An escape in front of [l]. *)
Lemma loop_escape merge t l fuel rest v closed cur :
  (forall l', (length l' < length l)%nat -> loop_ok merge t l') ->
  (2 * length l < fuel)%nat -> l ++ [t] = rest -> represents v closed cur ->
  exists res, uri_loop fuel merge "%"%cc rest v = Some res /\
    agrees t res (spec_rest merge closed cur ("%"%cc :: l)).
Proof.
  intros IH Hf <- Hv. destruct fuel as [|fuel]; [lia|].
  assert (uri_step merge "%"%cc v = Advance (quote v)) as Eq.
  { destruct Hv as (_ & Hst & _). unfold uri_step. rewrite Hst. unfold state_of.
    by repeat case_decide. }
  destruct l as [|h1 l].
  { cbn [app uri_loop]. rewrite Eq. eexists. split; [by destruct fuel|].
    exists (quote v). split; [done|]. by apply (represents_shows v). }
  cbn [app uri_loop]. rewrite Eq. destruct fuel as [|fuel]; [cbn in Hf; lia|].
  unfold spec_rest. cbn [decode]. change ("%"%cc =? "?"%cc) with false.
  change ("%"%cc =? "#"%cc) with false. change ("%"%cc =? "%"%cc) with true. cbn match.
  destruct (l ++ [t]) as [|c0 rest] eqn:El; [by destruct l|].
  cbn [uri_loop]. unfold uri_step at 1. cbn [v_state quote set_field set_v_state].
  rewrite quoted_step. destruct (hexval h1) as [a|] eqn:Ea; cbn [mbind option_bind].
  2: { eexists. by split. }
  pose proof (hexval_range h1 a Ea) as Ha.
  set (v2 := (quote v) <| v_quoted_uri := true |> <| v_decoded := a |>
               <| v_state := sw_quoted_second |>).
  destruct l as [|h2 l].
  { injection El as <- <-. exists (End_done v2). split; [by destruct fuel|].
    exists v2. split; [done|]. by apply (represents_shows v). }
  injection El as <- <-. destruct fuel as [|fuel]; [cbn in Hf; lia|].
  destruct (l ++ [t]) as [|c1 rest] eqn:El; [by destruct l|].
  cbn [uri_loop]. unfold uri_step at 1. change (v_state v2) with sw_quoted_second. cbn match.
  pose proof (quoted_second_step h2 v2 a eq_refl Ha) as Hs.
  destruct (hexval h2) as [b|] eqn:Eb; cbn [mbind option_bind].
  2: { rewrite Hs. eexists. by split. }
  cbv zeta in Hs. set (d := a * 16 + b) in *.
  destruct (d =? 0) eqn:Ed0.
  { rewrite Hs. eexists. by split. }
  destruct ((d =? "%"%cc) || (d =? "#"%cc) || (d =? "?"%cc)) eqn:Elit.
  - rewrite Hs.
    assert (d = "%"%cc \/ d = "#"%cc \/ d = "?"%cc) as Hd by lia.
    destruct (IH l ltac:(cbn; lia) fuel c1 rest (put d (v2 <| v_state := sw_usual |>)) closed (cur ++ [d]))
      as (res & -> & Hres).
    + cbn in Hf. lia.
    + done.
    + by apply (represents_literal v).
    + exists res. split; [done|]. revert Hres. unfold spec_rest.
      destruct (decode l) as [[chars stop]|]; [|done]. cbn [mbind option_bind normalise].
      destruct (Z.eqb_spec d "/"%cc) as [E|]; [|done]. lia.
  - destruct Hs as [plus Hs]. rewrite Hs. rewrite <- El.
    destruct (loop_char merge t l d fuel
      (v2 <| v_plus_in_uri := plus |> <| v_state := v_quoted_state v2 |>) closed cur)
      as (res & -> & Hres); [apply IH; cbn; lia|cbn in Hf; lia| |lia..|].
    + by apply (represents_same v).
    + exists res. split; [done|]. by destruct (decode l) as [[chars stop]|].
Qed.

Lemma uri_loop_agrees merge t l : loop_ok merge t l.
Proof.
  remember (length l) as n eqn:En. revert l En.
  induction (lt_wf n) as [n _ IH]. intros l -> fuel ch rest v closed cur Hf El Hv.
  destruct l as [|c l].
  { injection El as <- <-. exists (End_done v). split; [by destruct fuel|].
    exists v. split; [done|]. by apply (represents_shows v). }
  injection El as -> <-. cbn [length] in *.
  destruct (Z.eqb_spec ch "%"%cc) as [->|H1].
  { apply (loop_escape merge t l); [|lia|done..]. intros l' Hl'. by apply (IH (length l')); [lia|]. }
  unfold spec_rest. cbn [decode].
  destruct (Z.eqb_spec ch "?"%cc) as [->|H2].
  { destruct fuel as [|fuel]; [lia|]. destruct (l ++ [t]) as [|c0 rest] eqn:El; [by destruct l|].
    cbn [uri_loop].
    assert (uri_step merge "?"%cc v = Goto_args v) as ->.
    { destruct Hv as (_ & Hst & _). unfold uri_step. rewrite Hst. unfold state_of.
      by repeat case_decide. }
    eexists. split; [reflexivity|]. exists v. rewrite El. split; [done|]. by apply (represents_shows v). }
  destruct (Z.eqb_spec ch "#"%cc) as [->|H3].
  { destruct fuel as [|fuel]; [lia|]. destruct (l ++ [t]) as [|c0 rest] eqn:El; [by destruct l|].
    cbn [uri_loop].
    assert (uri_step merge "#"%cc v = Goto_done v) as ->.
    { destruct Hv as (_ & Hst & _). unfold uri_step. rewrite Hst. unfold state_of.
      by repeat case_decide. }
    eexists. split; [reflexivity|]. exists v. split; [done|]. by apply (represents_shows v). }
  destruct (Z.eqb_spec ch "%"%cc); [done|].
  destruct (loop_char merge t l ch fuel v closed cur) as (res & -> & Hres); try done; [|lia|].
  { by apply (IH (length l)); [lia|]. }
  exists res. split; [done|]. by destruct (decode l) as [[chars stop]|].
Qed.

(** * Theorems *)

(** The arguments as the specification has them: cut at the first [#] or left
    from [args_start] on. *)
Definition args_agree (cu : complex_uri) (stop : uri_stop) : Prop :=
  match stop with
  | Stop_end => cu_args cu = None /\ cu_args_start cu = None
  | Stop_args a =>
      let '(args, cut) := before_hash a in
      if cut then cu_args cu = Some args /\ cu_args_start cu = None
      else cu_args cu = None /\ cu_args_start cu = Some a
  end.

Lemma complex_uri_spec merge plus quoted l t :
  match spec_rest merge [] [] l with
  | None => ngx_http_parse_complex_uri merge plus quoted ("/"%cc :: l ++ [t])
      = Some (NGX_HTTP_PARSE_INVALID_REQUEST, None)
  | Some (d, cur, stop) => exists cu,
      ngx_http_parse_complex_uri merge plus quoted ("/"%cc :: l ++ [t]) = Some (NGX_OK, Some cu) /\
      cu_uri cu = render d cur /\ Forall no_slash d /\ no_slash cur /\ args_agree cu stop /\
      match cu_exten cu with
      | None => True
      | Some e => exists a, cur = a ++ "."%cc :: e /\ Forall (fun c => c <> "."%cc) e
      end
  end.
Proof.
  cbn [ngx_http_parse_complex_uri length]. rewrite length_app.
  destruct (l ++ [t]) as [|c0 rest] eqn:El; [by destruct l|].
  replace (2 * S (length l + length [t]))%nat with (S (2 * length l + 3)) by (cbn; lia).
  cbn [uri_loop].
  change (uri_step merge "/"%cc (mk_vars sw_usual sw_usual 0 [] None plus quoted))
    with (Advance (mk_vars sw_slash sw_usual 0 ["/"%cc] None plus quoted)). cbn match.
  set (v := mk_vars sw_slash sw_usual 0 ["/"%cc] None plus quoted).
  assert (represents v [] []) as Hv by (by apply represents_open).
  destruct (uri_loop_agrees merge t l (2 * length l + 3)%nat c0 rest v [] [] ltac:(lia) El Hv)
    as (res & -> & Hres). cbn [mbind option_bind].
  assert (forall v1 d cur, shows v1 d cur -> forall args start,
    match cu_exten (uri_finish v1 args start) with
    | None => True
    | Some e => exists a, cur = a ++ "."%cc :: e /\ Forall (fun c => c <> "."%cc) e
    end) as Hext.
  { intros v1 d cur (_ & _ & _ & He) args start. unfold ext_ok in He. cbn.
    destruct (v_uri_ext v1) as [k|]; [|done].
    destruct He as (_ & a & e & Hc & Hf & <- & _). by exists a. }
  destruct (spec_rest merge [] [] l) as [[[d cur] [|a]]|]; cbn [agrees] in Hres.
  - destruct Hres as (v1 & -> & Hs). pose proof Hs as (Hu & Hd & Hc & _).
    eexists. split; [reflexivity|]. split_and!; try done. by apply (Hext v1 d).
  - destruct Hres as (v1 & -> & Hs). pose proof Hs as (Hu & Hd & Hc & _).
    rewrite removelast_last. cbn [args_agree]. destruct (before_hash a) as [args cut] eqn:Eh.
    destruct cut; (eexists; split; [reflexivity|]; split_and!; try done; try (by apply (Hext v1 d)));
      unfold args_agree; by rewrite Eh.
  - by rewrite Hres.
Qed.

(** C1: the in-place state machine of [ngx_http_parse_complex_uri] refines the
    specification: for every URI that starts with a slash and with enough fuel
    it returns [NGX_HTTP_PARSE_INVALID_REQUEST] exactly when decoding or
    normalising fails, and otherwise [NGX_OK] with the normalised path, the
    arguments, and an extension that is what follows the last dot of the last
    segment. *)
Theorem complex_uri_refines merge plus quoted l t :
  match ('(chars, stop) ← decode l;
         '(d, cur) ← normalise merge [] [] chars; Some (d, cur, stop)) with
  | None => ngx_http_parse_complex_uri merge plus quoted ("/"%cc :: l ++ [t])
      = Some (NGX_HTTP_PARSE_INVALID_REQUEST, None)
  | Some (d, cur, stop) => exists cu,
      ngx_http_parse_complex_uri merge plus quoted ("/"%cc :: l ++ [t]) = Some (NGX_OK, Some cu) /\
      cu_uri cu = render d cur /\ args_agree cu stop /\
      match cu_exten cu with
      | None => True
      | Some e => exists a, cur = a ++ "."%cc :: e /\ Forall (fun c => c <> "."%cc) e
      end
  end.
Proof.
  pose proof (complex_uri_spec merge plus quoted l t) as Hs. unfold spec_rest in Hs.
  destruct (decode l ≫= _) as [[[d cur] stop]|]; [|done].
  destruct Hs as (cu & ? & ? & _ & _ & ? & ?). by exists cu.
Qed.

(** ** The output has no dot segments *)

Definition good_segment (merge : bool) (s : list Z) : Prop :=
  no_slash s /\ s <> cstr "." /\ s <> cstr ".." /\ (merge = true -> s <> []).

Lemma pop_good merge closed d :
  Forall (good_segment merge) closed -> pop closed = Some d -> Forall (good_segment merge) d.
Proof.
  intros Hf. destruct closed as [|[|c s] d0]; cbn; [done| |].
  - destruct d0 as [|s2 d2]; [done|]. intros [= <-].
    apply Forall_cons in Hf as [_ Hf]. by apply Forall_cons in Hf as [_ ?].
  - intros [= <-]. by apply Forall_cons in Hf as [_ ?].
Qed.

Lemma close_segment_good merge closed cur d :
  Forall (good_segment merge) closed -> no_slash cur ->
  close_segment merge closed cur = Some d -> Forall (good_segment merge) d.
Proof.
  intros Hf Hc. unfold close_segment. repeat case_decide.
  - destruct merge; intros [= <-]; [done|]. constructor; [|done]. by split_and!; try constructor.
  - by intros [= <-].
  - by apply pop_good.
  - intros [= <-]. constructor; [|done]. by split_and!.
Qed.

Lemma normalise_good merge closed cur chars d cur' :
  Forall (good_segment merge) closed -> no_slash cur ->
  normalise merge closed cur chars = Some (d, cur') ->
  Forall (good_segment merge) d /\ no_slash cur'.
Proof.
  revert closed cur. induction chars as [|c chars IH]; intros closed cur Hf Hc; cbn [normalise].
  { by intros [= <- <-]. }
  destruct (Z.eqb_spec c "/"%cc) as [->|].
  - destruct (close_segment merge closed cur) as [d0|] eqn:E; cbn; [|done].
    apply IH; [by eapply close_segment_good|by constructor].
  - apply IH; [done|]. by apply no_slash_snoc.
Qed.

(** A segment between two slashes of a rendered path is one of the closed
    segments. *)
Lemma slash_split a r x q :
  no_slash a -> a ++ "/"%cc :: r = x ++ "/"%cc :: q ->
  exists x', x = a ++ x' /\ "/"%cc :: r = x' ++ "/"%cc :: q.
Proof.
  revert x. induction a as [|c a IH]; intros x Ha E; [by exists x|].
  apply Forall_cons in Ha as [Hc Ha]. destruct x as [|d x].
  { injection E as -> _. done. }
  injection E as <- E. destruct (IH x Ha E) as (x' & -> & E'). by exists x'.
Qed.

Lemma segment_between segs cur x s y :
  Forall no_slash segs -> no_slash cur -> no_slash s ->
  concat (cons "/"%cc <$> segs) ++ "/"%cc :: cur = x ++ "/"%cc :: s ++ "/"%cc :: y ->
  s ∈ segs.
Proof.
  intros Hsegs Hcur Hs. revert x. induction Hsegs as [|a segs Ha Hsegs IH]; intros x E.
  - cbn in E. destruct x as [|d x]; cbn in E; injection E as E.
    + exfalso. rewrite E in Hcur. apply Forall_app in Hcur as [_ Hcur].
      by apply Forall_cons in Hcur as [? _].
    + exfalso. rewrite H in Hcur. apply Forall_app in Hcur as [_ Hcur].
      by apply Forall_cons in Hcur as [? _].
  - cbn in E. rewrite <- app_assoc in E. destruct x as [|d x]; cbn in E; injection E as E.
    + apply elem_of_cons. left.
      assert (exists r, a ++ "/"%cc :: r = s ++ "/"%cc :: y) as [r Er].
      { destruct segs; cbn in E; by eexists. }
      destruct (slash_split a r s y Ha Er) as (s' & -> & E').
      destruct s' as [|c s']; [by rewrite app_nil_r|]. injection E' as <- _.
      exfalso. apply Forall_app in Hs as [_ Hs]. by apply Forall_cons in Hs as [? _].
    + apply elem_of_cons. right. rename H into E'.
      assert (exists r, concat (cons "/"%cc <$> segs) ++ "/"%cc :: cur = "/"%cc :: r) as [r Er].
      { destruct segs; cbn; by eexists. }
      rewrite Er in E'. destruct (slash_split a r x _ Ha E') as (x' & -> & E'').
      apply (IH x'). by rewrite Er.
Qed.

Lemma render_length_close merge closed cur d :
  close_segment merge closed cur = Some d ->
  (length (render d []) <= S (length (render closed cur)))%nat.
Proof.
  assert (forall d' c', (length (render d' []) <= length (render d' c'))%nat) as Hc.
  { intros. unfold render. rewrite !length_app. cbn. lia. }
  unfold close_segment. repeat case_decide; subst; [intros [= <-]..| |intros [= <-]].
  - destruct merge; [lia|]. rewrite render_cons, length_app. cbn. lia.
  - pose proof (Hc closed (cstr ".")). lia.
  - destruct closed as [|[|c s] d0]; cbn [pop]; [done| |].
    + destruct d0 as [|s2 d2]; [done|]. intros [= <-]. rewrite !render_cons, !length_app.
      pose proof (Hc d2 s2). lia.
    + intros [= <-]. rewrite render_cons, length_app. pose proof (Hc d0 (c :: s)). lia.
  - rewrite render_cons, length_app. cbn. lia.
Qed.

Lemma normalise_length merge closed cur chars d cur' :
  normalise merge closed cur chars = Some (d, cur') ->
  (length (render d cur') <= length (render closed cur) + length chars)%nat.
Proof.
  revert closed cur. induction chars as [|c chars IH]; intros closed cur; cbn [normalise length].
  { intros [= <- <-]. lia. }
  destruct (c =? "/"%cc).
  - destruct (close_segment merge closed cur) as [d0|] eqn:E; cbn; [|done].
    apply render_length_close in E. intros Hn%IH. lia.
  - intros Hn%IH. rewrite render_snoc, length_app in Hn. cbn in Hn. lia.
Qed.

(** The path part of a URI: what precedes the first [?]. *)
Fixpoint before_args (l : list Z) : list Z :=
  match l with
  | [] => []
  | c :: l' => if c =? "?"%cc then [] else c :: before_args l'
  end.

Lemma decode_length l chars stop :
  decode l = Some (chars, stop) -> (length chars <= length (before_args l))%nat.
Proof.
  remember (length l) as n eqn:En. revert l chars En.
  induction (lt_wf n) as [n _ IH]. intros l chars ->.
  destruct l as [|c l1]; [intros [= <- _]; cbn; lia|]. cbn [decode before_args].
  destruct (c =? "?"%cc); [intros [= <- _]; cbn; lia|].
  destruct (c =? "#"%cc); [intros [= <- _]; cbn; lia|].
  destruct (c =? "%"%cc).
  2: { destruct (decode l1) as [[chars' stop']|] eqn:E; cbn; [|done]. intros [= <- <-].
       apply (IH (length l1)) in E; [cbn; lia|cbn; lia|done]. }
  destruct l1 as [|h1 l2]; [intros [= <- _]; cbn; lia|].
  destruct (hexval h1) as [a|] eqn:Ea; cbn [mbind option_bind]; [|done].
  destruct l2 as [|h2 l3]; [intros [= <- _]; cbn; lia|].
  destruct (hexval h2) as [b|] eqn:Eb; cbn [mbind option_bind]; [|done].
  destruct (_ =? 0); [done|].
  destruct (decode l3) as [[chars' stop']|] eqn:E; cbn [mbind option_bind]; [|done].
  intros [= <- <-]. apply (IH (length l3)) in E; [|cbn; lia|done].
  assert (forall h x, hexval h = Some x -> h <> "?"%cc) as Hq by (intros h x Hh ->; done).
  cbn [before_args]. destruct (Z.eqb_spec h1 "?"%cc) as [->|]; [by apply Hq in Ea|].
  destruct (Z.eqb_spec h2 "?"%cc) as [->|]; [by apply Hq in Eb|]. cbn. lia.
Qed.

(** C2: a path that [ngx_http_parse_complex_uri] accepts starts with a slash,
    has no "/./" and no "/../" (and with [merge_slashes] no "//") anywhere,
    whatever was escaped in the URI, and is not longer than the path it was
    made from, so that it fits the buffer of [r->uri.len + 1] bytes. *)
Theorem complex_uri_safe merge plus quoted l t cu :
  ngx_http_parse_complex_uri merge plus quoted ("/"%cc :: l ++ [t]) = Some (NGX_OK, Some cu) ->
  head (cu_uri cu) = Some "/"%cc /\
  (length (cu_uri cu) <= S (length (before_args l)))%nat /\
  forall x y, cu_uri cu <> x ++ cstr "/./" ++ y /\ cu_uri cu <> x ++ cstr "/../" ++ y /\
    (merge = true -> cu_uri cu <> x ++ cstr "//" ++ y).
Proof.
  intros E. pose proof (complex_uri_spec merge plus quoted l t) as Hs.
  destruct (spec_rest merge [] [] l) as [[[d cur] stop]|] eqn:Er; [|congruence].
  destruct Hs as (cu' & E' & Hu & Hd & Hc & _). rewrite E in E'. injection E' as <-.
  unfold spec_rest in Er. destruct (decode l) as [[chars stop']|] eqn:Ed; cbn in Er; [|done].
  destruct (normalise merge [] [] chars) as [[d' cur']|] eqn:En; cbn in Er; [|done].
  injection Er as -> -> ->.
  pose proof (normalise_good merge [] [] chars d cur ltac:(constructor) ltac:(constructor) En)
    as [Hg _].
  apply normalise_length in En. apply decode_length in Ed. rewrite Hu. split_and!.
  - unfold render. by destruct (reverse d).
  - cbn in En. lia.
  - assert (forall s x y, no_slash s -> render d cur = x ++ "/"%cc :: s ++ "/"%cc :: y ->
      good_segment merge s) as Hseg.
    { intros s x y Hs Ey. apply segment_between in Ey; [|by apply Forall_reverse|done|done].
      rewrite elem_of_reverse in Ey. rewrite Forall_forall in Hg. exact (Hg s Ey). }
    intros x y. split_and!.
    + intros Ex. apply (Hseg (cstr ".") x y) in Ex as (_ & ? & _); [done|by_eval].
    + intros Ex. apply (Hseg (cstr "..") x y) in Ex as (_ & _ & ? & _); [done|by_eval].
    + intros -> Ex. apply (Hseg [] x y) in Ex as (_ & _ & _ & ?); [naive_solver|by_eval].
Qed.

Example complex_uri_safe_witness :
  exists cu, ngx_http_parse_complex_uri true false false (cstr "/a/%2e%2e/b?/../ ")
      = Some (NGX_OK, Some cu) /\
    cu_uri cu = cstr "/b" /\
    forall x y, cu_uri cu <> x ++ cstr "/./" ++ y /\ cu_uri cu <> x ++ cstr "/../" ++ y /\
      (true = true -> cu_uri cu <> x ++ cstr "//" ++ y).
Proof.
  destruct (ngx_http_parse_complex_uri true false false (cstr "/a/%2e%2e/b?/../ "))
    as [[rc [cu|]]|] eqn:E; [|done..].
  assert (rc = NGX_OK /\ cu_uri cu = cstr "/b") as [-> Hu]
    by (vm_compute in E; by injection E as <- <-).
  exists cu. split; [done|]. split; [done|].
  apply (complex_uri_safe true false false (cstr "a/%2e%2e/b?/../") " "%cc cu E).
Defined.

(** ** Plain paths *)

Lemma decode_plain prev l : plain_tail prev l = true -> decode l = Some (l, Stop_end).
Proof.
  revert prev. induction l as [|c l IH]; intros prev; [done|]. cbn [plain_tail decode].
  rewrite andb_true_iff. intros [Hc Hl]. unfold plain_char in Hc.
  destruct (Z.eqb_spec c "?"%cc); [lia|]. destruct (Z.eqb_spec c "#"%cc); [lia|].
  destruct (Z.eqb_spec c "%"%cc); [lia|]. by rewrite (IH c).
Qed.

Lemma normalise_plain merge closed cur prev l :
  plain_tail prev l = true ->
  match cur with [] => prev = "/"%cc | c :: _ => c <> "."%cc /\ prev <> "/"%cc end ->
  exists d cur', normalise merge closed cur l = Some (d, cur') /\
    render d cur' = render closed cur ++ l.
Proof.
  revert closed cur prev. induction l as [|c l IH]; intros closed cur prev; cbn [plain_tail normalise].
  { intros _ _. exists closed, cur. by rewrite app_nil_r. }
  rewrite andb_true_iff. intros [Hc Hl] Hcur. unfold plain_char in Hc.
  destruct (Z.eqb_spec c "/"%cc) as [->|Hne].
  - destruct cur as [|x cur]; [subst prev; lia|]. destruct Hcur as [Hx _].
    assert (close_segment merge closed (x :: cur) = Some ((x :: cur) :: closed)) as ->.
    { unfold close_segment. rewrite !decide_False; [done|cbv; congruence..]. }
    cbn [mbind option_bind].
    destruct (IH ((x :: cur) :: closed) [] "/"%cc) as (d & cur' & -> & Hr); [done..|].
    exists d, cur'. split; [done|]. by rewrite Hr, render_cons, <- app_assoc.
  - destruct (IH closed (cur ++ [c]) c) as (d & cur' & -> & Hr); [done| |].
    { destruct cur as [|x cur]; [|by destruct Hcur]. split; [|done]. subst prev. lia. }
    exists d, cur'. split; [done|]. by rewrite Hr, render_snoc, <- app_assoc.
Qed.

(** Normalisation leaves plain paths alone: [ngx_http_process_request_line]
    calls [ngx_http_parse_complex_uri] only when [complex_uri] or [quoted_uri]
    is set and uses the bytes of the line otherwise; on a path without "//",
    "/.", [%], [#] and [?] both give the same. *)
Theorem complex_uri_plain merge plus quoted l t :
  plain_path ("/"%cc :: l) = true ->
  exists cu, ngx_http_parse_complex_uri merge plus quoted ("/"%cc :: l ++ [t])
      = Some (NGX_OK, Some cu) /\
    cu_uri cu = "/"%cc :: l /\ cu_args cu = None /\ cu_args_start cu = None.
Proof.
  cbn [plain_path]. rewrite Z.eqb_refl. intros Hp.
  pose proof (complex_uri_spec merge plus quoted l t) as Hs. unfold spec_rest in Hs.
  rewrite (decode_plain "/"%cc l Hp) in Hs. cbn [mbind option_bind] in Hs.
  destruct (normalise_plain merge [] [] "/"%cc l Hp eq_refl) as (d & cur & En & Hr).
  rewrite En in Hs. cbn [mbind option_bind] in Hs.
  destruct Hs as (cu & ? & Hu & _ & _ & [? ?] & _). exists cu. split_and!; try done.
  by rewrite Hu, Hr.
Qed.

Example complex_uri_plain_witness :
  exists cu, ngx_http_parse_complex_uri false false false (cstr "/a/b.c ") = Some (NGX_OK, Some cu) /\
    cu_uri cu = cstr "/a/b.c" /\ cu_args cu = None /\ cu_args_start cu = None.
Proof. apply (complex_uri_plain false false false (cstr "a/b.c") " "%cc). done. Defined.

(** What the loop does not finish: a path that ends in "/.." or "/." keeps
    it, an escape cut by the end of the URI is dropped without an error, and
    without [merge_slashes] "/a//../b" loses its segment [a]. *)
Theorem complex_uri_unfinished :
  normalised true (cstr "/a/..") = Some (NGX_OK, Some (cstr "/a/..")) /\
  normalised true (cstr "/a/.") = Some (NGX_OK, Some (cstr "/a/.")) /\
  normalised true (cstr "/a%4") = Some (NGX_OK, Some (cstr "/a")) /\
  normalised false (cstr "/a//../b") = Some (NGX_OK, Some (cstr "/b")).
Proof. by split_and!. Qed.

End ComplexUri.
