(* ===== verification/NgxHttpArgs.v ===== *)
(** Pieces of a URI and of header values: [ngx_http_parse_unsafe_uri],
    [ngx_http_split_args], [ngx_http_arg] and
    [ngx_http_parse_multi_header_lines] of src/http/ngx_http_parse.c.

    A string is given by the list of the bytes readable from its [data] on and
    its [len]; [None] is a read past those bytes.  What is logged is not
    modelled. *)

From S2P Require Import Prelude NgxEscape NgxStr NgxHttpRequest.

Open Scope Z_scope.

(** * [ngx_http_parse_unsafe_uri] *)

(** [ngx_path_separator] on Unix. *)
Definition ngx_path_separator (c : Z) : bool := c =? "/"%cc.

(** [p[0] == '.' && p[1] == '.' && ngx_path_separator(p[2])], read from left
    to right. *)
Definition dot_dot_slash (p : list Z) : option bool :=
  a ← p !! 0%nat;
  if negb (a =? "."%cc) then Some false
  else b ← p !! 1%nat;
       if negb (b =? "."%cc) then Some false
       else c ← p !! 2%nat; Some (ngx_path_separator c).

(** The results: the URI is safe as it is, safe up to [?] ([uri->len] and the
    arguments follow), or unsafe. *)
Inductive unsafe_result :=
  | Safe
  | Safe_args (rem : nat) (args : list Z)
  | Unsafe.

(** [for ( ; len; len--)]; [Safe_args len p] is where the [?] is found. *)
Fixpoint unsafe_loop (len : nat) (p : list Z) : option unsafe_result :=
  match len with
  | O => Some Safe
  | S len' =>
      match p with
      | [] => None
      | ch :: p' =>
          if usual ch then unsafe_loop len' p'
          else if ch =? "?"%cc then Some (Safe_args len p')
          else if ch =? 0 then Some Unsafe
          else if ngx_path_separator ch && (2 <? Z.of_nat len) then
            found ← dot_dot_slash p';
            if (found : bool) then Some Unsafe else unsafe_loop len' p'
          else unsafe_loop len' p'
      end
  end.

(** [p[0] == '.' && len == 3 && p[1] == '.' && (ngx_path_separator(p[2]))] *)
Definition leading_dot_dot (p : list Z) (len : nat) : option bool :=
  a ← p !! 0%nat;
  if (a =? "."%cc) && (len =? 3)%nat
  then b ← p !! 1%nat;
       if b =? "."%cc then e ← p !! 2%nat; Some (ngx_path_separator e) else Some false
  else Some false.

(** The return code, [uri->len], and [args] when they are set. *)
Definition ngx_http_parse_unsafe_uri (data : list Z) (len : nat)
  : option (Z * nat * option (list Z)) :=
  let unsafe := Some (NGX_ERROR, len, None) in
  if (len =? 0)%nat then unsafe
  else
    c ← data !! 0%nat;
    if c =? "?"%cc then unsafe
    else
      bad ← leading_dot_dot data len;
      if (bad : bool) then unsafe
      else
        res ← unsafe_loop len data;
        match res with
        | Safe => Some (NGX_OK, len, None)
        | Safe_args rem p =>
            Some (NGX_OK, (len - rem)%nat, Some (take (rem - 1) p))
        | Unsafe => unsafe
        end.

(** * [ngx_http_split_args] *)

(** [uri] and [args]; without a [?] only [args->len] is set. *)
Definition ngx_http_split_args (uri : list Z) : list Z * list Z :=
  match ngx_strlchr uri "?"%cc with
  | Some k => (take k uri, drop (S k) uri)
  | None => (uri, [])
  end.

(** * [ngx_http_arg] *)

(** [for ( ; p < last; p++)]: [p] is an offset into [args]; the name is
    [c :: name]. *)
Fixpoint arg_loop (fuel : nat) (args : list Z) (c : Z) (name : list Z) (p : nat)
  : option (Z * option (list Z)) :=
  if (length args <=? p)%nat then Some (NGX_DECLINED, None)
  else match fuel with
  | O => None
  | S fuel' =>
      found ← ngx_strlcasestrn (drop p args) (Z.of_nat (length args) - 1 - Z.of_nat p)
                c name (length name);
      match (found : option nat) with
      | None => Some (NGX_DECLINED, None)
      | Some k =>
          let p := (p + k)%nat in
          let len := S (length name) in
          prev ← (if (p =? 0)%nat then Some true
                  else x ← args !! (p - 1)%nat; Some (x =? "&"%cc));
          hit ← (if (prev : bool)
                 then x ← args !! (p + len)%nat; Some (x =? "="%cc) else Some false);
          if (hit : bool) then
            let stop := match ngx_strlchr (drop p args) "&"%cc with
                        | Some e => (p + e)%nat
                        | None => length args
                        end in
            Some (NGX_OK, Some (take (stop - (p + len + 1)) (drop (p + len + 1) args)))
          else arg_loop fuel' args c name (S p)
      end
  end.

Definition ngx_http_arg (args : list Z) (c : Z) (name : list Z) : option (Z * option (list Z)) :=
  if (length args =? 0)%nat then Some (NGX_DECLINED, None)
  else arg_loop (length args) args c name 0.

Example http_arg_found :
  ngx_http_arg (cstr "ab=1&B=2&b=3") "b"%cc [] = Some (NGX_OK, Some (cstr "2")).
Proof. reflexivity. Qed.

(** * [ngx_http_parse_multi_header_lines] *)

Fixpoint skip_spaces (s : list Z) : list Z :=
  match s with
  | c :: s' => if c =? " "%cc then skip_spaces s' else s
  | [] => []
  end.

(** The label [skip]. *)
Fixpoint skip_item (s : list Z) : list Z :=
  match s with
  | [] => []
  | c :: s' => if (c =? ";"%cc) || (c =? ","%cc) then skip_spaces s' else skip_item s'
  end.

(** Up to the next [;]. *)
Fixpoint until_semicolon (s : list Z) : list Z :=
  match s with
  | [] => []
  | c :: s' => if c =? ";"%cc then [] else c :: until_semicolon s'
  end.

(** One turn of [while (start < end)]; [start] up to [end] is [s], followed in
    memory by [after].  [inl] is what is found, [inr] the new [start].  A match
    that runs over [end] into [after] is outside the model. *)
Definition header_item (name : list Z) (want_value : bool) (s after : list Z)
  : option (option (list Z) + list Z) :=
  m ← ngx_strncasecmp (s ++ after) name (length name);
  if negb (m =? 0) then Some (inr (skip_item s))
  else if (length s <? length name)%nat then None
  else
    let s := skip_spaces (drop (length name) s) in
    if negb want_value then
      match s with
      | [] => Some (inl None)
      | c :: _ => if c =? ","%cc then Some (inl None) else Some (inr (skip_item s))
      end
    else
      match s with
      | [] => Some (inr (skip_item s))
      | c :: s' => if negb (c =? "="%cc) then Some (inr (skip_item s'))
                   else Some (inl (Some (until_semicolon (skip_spaces s'))))
      end.

Fixpoint header_items (fuel : nat) (name : list Z) (want_value : bool) (s after : list Z)
  : option (option (option (list Z))) :=
  match s with
  | [] => Some None
  | _ :: _ =>
      match fuel with
      | O => None
      | S fuel' =>
          res ← header_item name want_value s after;
          match res with
          | inl found => Some (Some found)
          | inr s' => header_items fuel' name want_value s' after
          end
      end
  end.

(** The headers are their values, each with the bytes that follow it in
    memory; the result is the index (or [NGX_DECLINED]) and the value. *)
Fixpoint multi_header_loop (i : Z) (headers : list (list Z * list Z)) (name : list Z)
  (want_value : bool) : option (Z * option (list Z)) :=
  match headers with
  | [] => Some (NGX_DECLINED, None)
  | (value, after) :: headers' =>
      if (length value <? length name)%nat
      then multi_header_loop (i + 1) headers' name want_value
      else
        found ← header_items (length value) name want_value value after;
        match (found : option (option (list Z))) with
        | Some v => Some (i, v)
        | None => multi_header_loop (i + 1) headers' name want_value
        end
  end.

Definition ngx_http_parse_multi_header_lines (headers : list (list Z * list Z))
  (name : list Z) (want_value : bool) : option (Z * option (list Z)) :=
  multi_header_loop 0 headers name want_value.

Example cookie_found :
  ngx_http_parse_multi_header_lines [(cstr "a=1; uid = x y;b", [0])] (cstr "UID") true
  = Some (0, Some (cstr "x y")).
Proof. reflexivity. Qed.

(** * Theorems *)

Definition infix_of (p l : list Z) : Prop := exists x y, l = x ++ p ++ y.

Lemma infix_of_cons p c l : infix_of p (c :: l) <-> p `prefix_of` c :: l \/ infix_of p l.
Proof.
  split.
  - intros ([|d x] & y & E); [left; by exists y|]. injection E as -> E. right. by exists x, y.
  - intros [[y E]|(x & y & ->)]; [by exists [], y|by exists (c :: x), y].
Qed.

(** The path of a URI and what follows the [?]. *)
Lemma split_args_cons c u :
  ngx_http_split_args (c :: u) =
  if c =? "?"%cc then ([], u)
  else (c :: (ngx_http_split_args u).1, (ngx_http_split_args u).2).
Proof.
  unfold ngx_http_split_args. cbn [ngx_strlchr]. destruct (c =? "?"%cc); [done|].
  by destruct (ngx_strlchr u "?"%cc).
Qed.

Lemma split_args_path u : (ngx_http_split_args u).1 `prefix_of` u.
Proof.
  unfold ngx_http_split_args. destruct (ngx_strlchr u _); [|done]. cbn. apply prefix_take.
Qed.

Definition path_unsafe (path : list Z) : Prop := 0 ∈ path \/ infix_of (cstr "/../") path.

Lemma dot_dot_slash_spec p t rest :
  t <> "/"%cc -> (2 <= length p)%nat ->
  dot_dot_slash (p ++ t :: rest) = Some (bool_decide (cstr "../" `prefix_of` p)).
Proof.
  intros Ht Hl. destruct p as [|a [|b p]]; [cbn in Hl; lia..|].
  change (cstr "../") with ["."%cc; "."%cc; "/"%cc]. unfold dot_dot_slash. cbn.
  destruct (Z.eqb_spec a "."%cc) as [->|Ha]; cbn [negb].
  2: { rewrite bool_decide_eq_false_2; [done|]. intros E%prefix_cons_inv_1. by apply Ha. }
  destruct (Z.eqb_spec b "."%cc) as [->|Hb]; cbn [negb].
  2: { rewrite bool_decide_eq_false_2; [done|].
       intros E%prefix_cons_inv_2%prefix_cons_inv_1. by apply Hb. }
  destruct p as [|c p]; cbn; unfold ngx_path_separator.
  - destruct (Z.eqb_spec t "/"%cc); [done|]. rewrite bool_decide_eq_false_2; [done|].
    by intros E%prefix_cons_inv_2%prefix_cons_inv_2%prefix_nil_inv.
  - destruct (Z.eqb_spec c "/"%cc) as [->|Hc].
    + rewrite bool_decide_eq_true_2; [done|]. by exists p.
    + rewrite bool_decide_eq_false_2; [done|].
      intros E%prefix_cons_inv_2%prefix_cons_inv_2%prefix_cons_inv_1. by apply Hc.
Qed.

Lemma usual_not_special ch :
  usual ch = true -> ch <> "?"%cc /\ ch <> 0 /\ ch <> "/"%cc.
Proof. intros H. split_and!; intros ->; discriminate H. Qed.

(** ".." and a slash after a slash, in the whole URI or in its path. *)
Lemma dot_dot_in_path u :
  cstr "../" `prefix_of` u <-> cstr "../" `prefix_of` (ngx_http_split_args u).1.
Proof.
  split; [|intros H; etrans; [exact H|apply split_args_path]].
  intros [y ->]. change (cstr "../" ++ y) with ("."%cc :: "."%cc :: "/"%cc :: y).
  rewrite !split_args_cons. cbn. by eexists.
Qed.

(** The loop on [u], followed in memory by a byte that is not a slash. *)
Lemma unsafe_loop_spec u t rest :
  t <> "/"%cc ->
  match unsafe_loop (length u) (u ++ t :: rest) with
  | None => False
  | Some Unsafe => path_unsafe (ngx_http_split_args u).1
  | Some Safe => ~ path_unsafe u /\ ngx_http_split_args u = (u, []) /\ "?"%cc ∉ u
  | Some (Safe_args rem p) => ~ path_unsafe (ngx_http_split_args u).1 /\ "?"%cc ∈ u /\
      (length u - rem)%nat = length (ngx_http_split_args u).1 /\
      take (rem - 1) p = (ngx_http_split_args u).2 /\ (rem <= length u)%nat
  end.
Proof.
  intros Ht. induction u as [|ch u IH]; cbn [length unsafe_loop app].
  { split; [|split; [done|]]; [|by intros ?%elem_of_nil].
    intros [H|(x & y & E)]; [by apply elem_of_nil in H|]. by destruct x. }
  rewrite split_args_cons.
  assert (forall c, c <> 0 -> c <> "?"%cc ->
    (c = "/"%cc -> ~ cstr "../" `prefix_of` u) ->
    match unsafe_loop (length u) (u ++ t :: rest) with
    | None => False
    | Some Unsafe => path_unsafe (c :: (ngx_http_split_args u).1)
    | Some Safe => ~ path_unsafe (c :: u) /\
        (c :: (ngx_http_split_args u).1, (ngx_http_split_args u).2) = (c :: u, []) /\
        "?"%cc ∉ c :: u
    | Some (Safe_args rem p) => ~ path_unsafe (c :: (ngx_http_split_args u).1) /\
        "?"%cc ∈ c :: u /\
        (S (length u) - rem)%nat = length (c :: (ngx_http_split_args u).1) /\
        take (rem - 1) p = (ngx_http_split_args u).2 /\ (rem <= S (length u))%nat
    end) as Hnext.
  { intros c H0 Hq Hd.
    assert (forall path, (cstr "../" `prefix_of` path -> cstr "../" `prefix_of` u) ->
      path_unsafe (c :: path) <-> path_unsafe path) as Hiff.
    { intros path Hpath. unfold path_unsafe. rewrite elem_of_cons, infix_of_cons. split.
      - intros [[?|?]|[Hp|?]]; [congruence|by left| |by right].
        exfalso. change (cstr "/../") with ("/"%cc :: cstr "../") in Hp.
        pose proof (prefix_cons_inv_1 _ _ _ _ Hp). apply prefix_cons_inv_2 in Hp.
        apply Hd; [done|]. by apply Hpath.
      - intros [?|?]; [left; by right|right; by right]. }
    destruct (unsafe_loop (length u) (u ++ t :: rest)) as [[|rem p|]|]; [| | |done].
    - destruct IH as (Hn & E & Hnq). rewrite Hiff by done. rewrite E. split_and!; [done..|].
      rewrite elem_of_cons. intros [?|?]; [congruence|done].
    - destruct IH as (Hn & Hin & Hl & Ha & Hle). rewrite Hiff by (by rewrite <- dot_dot_in_path).
      split_and!; [done|by right|cbn; lia|done|lia].
    - rewrite Hiff by (by rewrite <- dot_dot_in_path). done. }
  destruct (usual ch) eqn:Hus.
  { destruct (usual_not_special ch Hus) as (? & ? & ?).
    destruct (Z.eqb_spec ch "?"%cc); [done|]. by apply Hnext. }
  destruct (Z.eqb_spec ch "?"%cc) as [->|Hq].
  { split_and!; [|by left|cbn; lia| |lia].
    - intros [H|(x & y & E)]; [by apply elem_of_nil in H|]. by destruct x.
    - cbn. rewrite Nat.sub_0_r, take_app_le by lia. by rewrite firstn_all. }
  destruct (Z.eqb_spec ch 0) as [->|H0].
  { left. apply elem_of_cons. by left. }
  unfold ngx_path_separator. destruct (Z.eqb_spec ch "/"%cc) as [->|Hs]; cbn [andb].
  2: { by apply Hnext. }
  destruct (Z.ltb_spec 2 (Z.of_nat (S (length u)))) as [Hl|Hl].
  - rewrite dot_dot_slash_spec by (done || lia). cbn [mbind option_bind].
    case_bool_decide as Hd.
    + right. exists []. apply dot_dot_in_path in Hd as [y ->]. by exists y.
    + by apply Hnext.
  - apply Hnext; [done..|]. intros _ [y Hy]. apply (f_equal length) in Hy. cbn in Hy. lia.
Qed.

Lemma leading_dot_dot_spec c u after :
  exists b, leading_dot_dot (c :: u ++ after) (S (length u)) = Some b /\
    (b = true <-> c :: u = cstr "../").
Proof.
  unfold leading_dot_dot. cbn [lookup list_lookup mbind option_bind].
  destruct ((c =? "."%cc) && (S (length u) =? 3)%nat) eqn:E.
  2: { exists false. split; [done|]. split; [done|]. intros E'.
       injection E' as -> ->. done. }
  apply andb_prop in E as [Ec El]. apply Z.eqb_eq in Ec as ->. apply Nat.eqb_eq in El.
  destruct u as [|d [|e [|]]]; try (cbn in El; lia). cbn.
  destruct (Z.eqb_spec d "."%cc) as [->|Hd].
  - eexists. split; [reflexivity|]. unfold ngx_path_separator.
    destruct (Z.eqb_spec e "/"%cc) as [->|He]; [done|]. split; [done|].
    intros H. cbv in H. congruence.
  - exists false. split; [done|]. split; [done|]. intros H. cbv in H. congruence.
Qed.

(** [ngx_http_parse_unsafe_uri] rejects exactly the URIs that are empty,
    start with [?], are "../", or have a NUL or a "/../" in their path, and
    splits the others at the first [?] as [ngx_http_split_args] does.  The byte
    after the URI, which the test for "/../" may read, must not be a slash. *)
Theorem unsafe_uri_correct u t rest :
  t <> "/"%cc ->
  let path := (ngx_http_split_args u).1 in
  let bad := u = [] \/ head u = Some "?"%cc \/ u = cstr "../" \/ path_unsafe path in
  exists rc len args, ngx_http_parse_unsafe_uri (u ++ t :: rest) (length u) = Some (rc, len, args) /\
    (bad -> rc = NGX_ERROR) /\
    (~ bad -> rc = NGX_OK /\ take len u = path /\
       args = if decide ("?"%cc ∈ u) then Some (ngx_http_split_args u).2 else None).
Proof.
  intros Ht path bad. pose proof (unsafe_loop_spec u t rest Ht) as Hl.
  unfold ngx_http_parse_unsafe_uri. destruct u as [|c u].
  { eexists _, _, _. split; [reflexivity|]. split; [done|]. intros []. by left. }
  cbn [length app Nat.eqb]. change ((c :: u ++ t :: rest) !! 0%nat) with (Some c).
  cbn [mbind option_bind]. destruct (Z.eqb_spec c "?"%cc) as [->|Hq].
  { eexists _, _, _. split; [reflexivity|]. split; [done|]. intros []. right; by left. }
  destruct (leading_dot_dot_spec c u (t :: rest)) as (b & Eb & Hb).
  rewrite Eb. cbn [mbind option_bind]. destruct b.
  { eexists _, _, _. split; [reflexivity|]. split; [done|]. intros []. right; right; left.
    by apply Hb. }
  assert (c :: u <> cstr "../") as Hne by (intros E; apply Hb in E; done).
  cbn [length app] in Hl.
  destruct (unsafe_loop (S (length u)) (c :: u ++ t :: rest)) as [[|rem p|]|]; [| | |done].
  - destruct Hl as (Hn & E & Hnq). cbn [mbind option_bind]. eexists _, _, _. split; [reflexivity|].
    subst bad path. rewrite E. split.
    + intros [Hx|[Hx|[Hx|Hx]]]; [done|cbn in Hx; congruence|by destruct Hne|by destruct Hn].
    + intros _. rewrite decide_False by done. split_and!; [done| |done]. apply (firstn_all (c :: u)).
  - destruct Hl as (Hn & Hin & Hlen & Ha & Hle). cbn [mbind option_bind].
    eexists _, _, _. split; [reflexivity|]. split.
    + intros [Hx|[Hx|[Hx|Hx]]]; [done|cbn in Hx; congruence|by destruct Hne|by destruct Hn].
    + intros _. rewrite decide_True by done. split_and!; [done| |by rewrite Ha].
      cbn [length] in Hlen. rewrite Hlen. destruct (split_args_path (c :: u)) as [y Hy].
      fold path in Hy |- *. rewrite Hy at 1. apply take_app_length.
  - cbn [mbind option_bind]. eexists _, _, _. split; [reflexivity|]. split; [done|].
    intros []. by right; right; right.
Qed.

Example unsafe_uri_correct_witness :
  exists rc len args,
    ngx_http_parse_unsafe_uri (cstr "/a?/../" ++ [0]) 7 = Some (rc, len, args) /\
    rc = NGX_OK /\ take len (cstr "/a?/../") = cstr "/a" /\ args = Some (cstr "/../").
Proof.
  destruct (unsafe_uri_correct (cstr "/a?/../") 0 []) as (rc & len & args & E & _ & Hok); [done|].
  exists rc, len, args. split; [exact E|]. apply Hok.
  intros [?|[?|[?|[Hz|(x & y & Hx)]]]]; [done..| |].
  - change (ngx_http_split_args (cstr "/a?/../")).1 with ["/"%cc; "a"%cc] in Hz.
    repeat (apply elem_of_cons in Hz as [? | Hz]; [done|]). by apply elem_of_nil in Hz.
  - apply (f_equal length) in Hx. rewrite !length_app in Hx. cbn in Hx. lia.
Defined.

(** "../x" is accepted (the test for a leading "../" asks for a length of
    three), and the test for "/../" reads one byte after a URI that ends in
    "/..". *)
Example unsafe_uri_gaps :
  ngx_http_parse_unsafe_uri (cstr "../x") 4 = Some (NGX_OK, 4%nat, None) /\
  ngx_http_parse_unsafe_uri (cstr "/..") 3 = None.
Proof. by split. Qed.

(** ** Arguments *)

(** The argument [name] starts at offset [k] of [args]. *)
Definition arg_at (args name : list Z) (k : nat) : Prop :=
  occurs ngx_tolower name args k /\
  (k = 0%nat \/ args !! (k - 1)%nat = Some "&"%cc) /\
  args !! (k + length name)%nat = Some "="%cc.

Fixpoint until_char (c : Z) (l : list Z) : list Z :=
  match l with
  | [] => []
  | x :: l' => if x =? c then [] else x :: until_char c l'
  end.

Lemma until_char_strlchr c l :
  until_char c l = take (match ngx_strlchr l c with Some e => e | None => length l end) l.
Proof.
  induction l as [|x l IH]; [done|]. cbn [until_char ngx_strlchr length].
  destruct (x =? c); [done|]. rewrite IH. by destruct (ngx_strlchr l c).
Qed.

Lemma strlchr_app a l c :
  c ∉ a ->
  match ngx_strlchr (a ++ l) c with Some e => e | None => length (a ++ l) end =
  (length a + match ngx_strlchr l c with Some e => e | None => length l end)%nat.
Proof.
  induction a as [|x a IH]; intros Hc; [done|]. cbn [app ngx_strlchr length].
  destruct (Z.eqb_spec x c) as [->|]; [by destruct Hc; left|].
  assert (c ∉ a) as Hca by (intros ?; apply Hc; by right). specialize (IH Hca).
  destruct (ngx_strlchr (a ++ l) c), (ngx_strlchr l c); cbn in *; lia.
Qed.

Lemma tolower_amp c : is_byte c -> ngx_tolower c = "&"%cc -> c = "&"%cc.
Proof.
  intros Hc. pose proof (byte_forall (fun c => negb (ngx_tolower c =? 38) || (c =? 38))) as H.
  assert (negb (ngx_tolower c =? 38) || (c =? 38) = true) by (apply H; [vm_compute; reflexivity|done]).
  lia.
Qed.

(** A name that matches without [&] keeps [&] out of the matched bytes. *)
Lemma occurs_no_amp name args k :
  is_bytes args -> "&"%cc ∉ name -> is_bytes name -> occurs ngx_tolower name args k ->
  "&"%cc ∉ take (length name) (drop k args).
Proof.
  intros Ha Hn Hb Hocc Hin. apply list_elem_of_lookup in Hin as [i Hi].
  apply lookup_take_Some in Hi as [Hi Hlt]. unfold occurs in Hocc. destruct Hocc as [y Hy].
  apply (f_equal (fun l => l !! i)) in Hy. rewrite list_lookup_fmap, Hi in Hy. cbn in Hy.
  rewrite lookup_app_l in Hy by (by rewrite length_fmap).
  rewrite list_lookup_fmap in Hy. destruct (name !! i) as [c|] eqn:Ec; [|done].
  cbn in Hy. injection Hy as Hy. apply Hn. symmetry in Hy.
  change (ngx_tolower 38) with 38 in Hy.
  assert (c = "&"%cc) as <-; [|by eapply list_elem_of_lookup_2].
  apply tolower_amp; [|done]. by eapply Forall_lookup_1 in Hb.
Qed.

Section arg.
Context (args : list Z) (c : Z) (name : list Z).
Context (Hargs : is_bytes args) (Hname : is_bytes (c :: name)) (Hzero : no_zero (c :: name))
        (Hamp : "&"%cc ∉ c :: name).

Lemma arg_window p :
  (p < length args)%nat ->
  exists r, ngx_strlcasestrn (drop p args) (Z.of_nat (length args) - 1 - Z.of_nat p) c name
      (length name) = Some r /\
    match r with
    | None => forall k, (p <= k)%nat -> ~ arg_at args (c :: name) k
    | Some k => occurs ngx_tolower (c :: name) args (p + k) /\
        (p + k + S (length name) < length args)%nat /\
        forall j, (p <= j < p + k)%nat -> ~ arg_at args (c :: name) j
    end.
Proof.
  intros Hp. set (w := take (length args - 1 - p) (drop p args)).
  assert (drop p args = w ++ drop (length args - 1 - p) (drop p args)) as Ew
    by (symmetry; apply take_drop).
  assert (length w = length args - 1 - p)%nat as Hw
    by (subst w; rewrite length_take, length_drop; lia).
  rewrite Ew. replace (Z.of_nat (length args) - 1 - Z.of_nat p) with (Z.of_nat (length w)) by lia.
  destruct (strlcasestrn_spec w (drop (length args - 1 - p) (drop p args)) c name)
    as (r & -> & Hr); [by apply Forall_take, Forall_drop|done..|].
  exists r. split; [done|].
  assert (forall j, arg_at args (c :: name) (p + j) -> occurs ngx_tolower (c :: name) w j) as Hin.
  { intros j (Hocc & _ & Heq). apply lookup_lt_Some in Heq. cbn [length] in Heq.
    unfold occurs in *. subst w. rewrite drop_drop in *.
    rewrite skipn_firstn_comm, drop_drop, fmap_take. destruct Hocc as [y Hy]. rewrite Hy.
    rewrite take_app_ge by (rewrite length_fmap; cbn; lia). by eexists. }
  destruct r as [k|]; cbn in Hr.
  - destruct Hr as [Hk Hj]. pose proof Hk as Hlen.
    apply occurs_length in Hlen as [Hlen|?]; [|done]. cbn [length] in Hlen. split_and!.
    + unfold occurs in *. rewrite <- drop_drop, Ew. subst w.
      destruct Hk as [y Hy]. rewrite drop_app_le by lia. rewrite fmap_app, Hy, <- app_assoc.
      by eexists.
    + lia.
    + intros j Hj' Ha. apply (Hj (j - p)%nat); [lia|]. apply Hin.
      by replace (p + (j - p))%nat with j by lia.
  - intros k Hk Ha. apply (Hr (k - p)%nat), Hin. by replace (p + (k - p))%nat with k by lia.
Qed.

Lemma arg_loop_correct fuel p :
  (length args - p <= fuel)%nat ->
  (forall j, (j < p)%nat -> ~ arg_at args (c :: name) j) ->
  exists rc v, arg_loop fuel args c name p = Some (rc, v) /\
    ((rc = NGX_DECLINED /\ v = None /\ forall k, ~ arg_at args (c :: name) k) \/
     exists k, rc = NGX_OK /\ arg_at args (c :: name) k /\
       (forall j, (j < k)%nat -> ~ arg_at args (c :: name) j) /\
       v = Some (until_char "&"%cc (drop (k + length name + 2) args))).
Proof.
  revert p. induction fuel as [|fuel IH]; intros p Hf Hbefore; cbn [arg_loop].
  all: destruct (Nat.leb_spec (length args) p) as [Hle|Hlt]; [|try lia].
  1,2: eexists _, _; split; [reflexivity|]; left; split_and!; [done..|];
    intros k Hk; (destruct (decide (k < p)%nat); [by apply (Hbefore k)|]);
    destruct Hk as (_ & _ & Hk); apply lookup_lt_Some in Hk; cbn in Hk; lia.
  destruct (arg_window p Hlt) as (r & -> & Hr). cbn [mbind option_bind].
  destruct r as [k|].
  2: { eexists _, _. split; [reflexivity|]. left. split_and!; [done..|]. intros k Hk.
       destruct (decide (k < p)%nat); [by apply (Hbefore k)|]. by apply (Hr k); [lia|]. }
  destruct Hr as (Hocc & Hlen & Hbetween). set (q := (p + k)%nat) in *.
  assert (forall j, (j < q)%nat -> ~ arg_at args (c :: name) j) as Hq.
  { intros j Hj. destruct (decide (j < p)%nat); [by apply Hbefore|]. apply Hbetween. lia. }
  assert (exists b, (if (q =? 0)%nat then Some true
    else x ← args !! (q - 1)%nat; Some (x =? "&"%cc)) = Some b /\
    (b = true <-> q = 0%nat \/ args !! (q - 1)%nat = Some "&"%cc)) as (b & -> & Hb).
  { destruct (Nat.eqb_spec q 0); [exists true; split; [done|]; split; [by left|done]|].
    destruct (lookup_lt_is_Some_2 args (q - 1)) as [x Hx]; [lia|]. rewrite Hx.
    exists (x =? "&"%cc). split; [done|]. rewrite Z.eqb_eq. split; [intros ->; by right|].
    intros [?|[= ->]]; [lia|done]. }
  cbn [mbind option_bind].
  destruct (lookup_lt_is_Some_2 args (q + S (length name))) as [x Hx]; [lia|].
  assert ((if b then x ← args !! (q + S (length name))%nat; Some (x =? "="%cc) else Some false)
    = Some (b && (x =? "="%cc))) as -> by (destruct b; [by rewrite Hx|done]).
  cbn [mbind option_bind]. destruct (b && (x =? "="%cc)) eqn:Ehit.
  - apply andb_prop in Ehit as [-> Ex]. apply Z.eqb_eq in Ex as ->.
    assert (arg_at args (c :: name) q) as Hat by (split_and!; [done|by apply Hb|done]).
    eexists _, _. split; [reflexivity|]. right. exists q. split_and!; [done..|]. f_equal.
    replace (q + S (length name) + 1)%nat with (q + length name + 2)%nat by lia.
    rewrite until_char_strlchr. f_equal.
    assert (drop q args = (take (S (length name)) (drop q args) ++ ["="%cc])
                          ++ drop (q + length name + 2) args) as Ed.
    { rewrite <- (take_drop (S (length name)) (drop q args)) at 1. rewrite <- app_assoc. f_equal.
      rewrite drop_drop. rewrite (drop_S _ "="%cc) by done. cbn. do 2 f_equal. lia. }
    pose proof (strlchr_app (take (S (length name)) (drop q args) ++ ["="%cc])
      (drop (q + length name + 2) args) "&"%cc) as Hs.
    rewrite <- Ed in Hs. rewrite length_app, length_take, length_drop in Hs. cbn [length] in Hs.
    specialize (Hs ltac:(apply not_elem_of_app; split;
      [by apply (occurs_no_amp (c :: name))|by_eval])).
    destruct (ngx_strlchr (drop q args) "&"%cc); [lia|]. rewrite length_drop in Hs |- *. lia.
  - destruct (IH (S q)) as (rc & v & -> & Hres); [lia| |by exists rc, v].
    intros j Hj. destruct (decide (j = q)) as [->|]; [|apply Hq; lia].
    intros (_ & Hprev & Heq). cbn [length] in Heq. rewrite Hx in Heq. injection Heq as ->.
    apply Hb in Hprev as ->. done.
Qed.
End arg.

(** [ngx_http_arg] finds the first argument of that name, up to case: it
    returns [NGX_OK] with the bytes between the equals sign and the next
    ampersand (or the end), and [NGX_DECLINED] exactly when there is no such
    argument; every read is inside the arguments. *)
Theorem http_arg_correct args c name :
  is_bytes args -> is_bytes (c :: name) -> no_zero (c :: name) -> "&"%cc ∉ c :: name ->
  exists rc v, ngx_http_arg args c name = Some (rc, v) /\
    ((rc = NGX_DECLINED /\ v = None /\ forall k, ~ arg_at args (c :: name) k) \/
     exists k, rc = NGX_OK /\ arg_at args (c :: name) k /\
       (forall j, (j < k)%nat -> ~ arg_at args (c :: name) j) /\
       v = Some (until_char "&"%cc (drop (k + length name + 2) args))).
Proof.
  intros H1 H2 H3 H4. unfold ngx_http_arg. destruct (Nat.eqb_spec (length args) 0) as [E|E].
  - eexists _, _. split; [reflexivity|]. left. split_and!; [done..|].
    intros k (_ & _ & Hk). apply lookup_lt_Some in Hk. lia.
  - apply (arg_loop_correct args c name H1 H2 H3 H4); [lia|]. lia.
Qed.

Example http_arg_correct_witness :
  exists rc v, ngx_http_arg (cstr "xid=1&ID=2;3&id=4") "i"%cc (cstr "d") = Some (rc, v) /\
    rc = NGX_OK /\ v = Some (cstr "2;3").
Proof.
  destruct (http_arg_correct (cstr "xid=1&ID=2;3&id=4") "i"%cc (cstr "d"))
    as (rc & v & E & Hres); [by_eval..|].
  exists rc, v. split; [exact E|]. vm_compute in E. injection E as <- <-. done.
Defined.

(** ** Header values *)

(** Comparing a name with a text that ends in a zero byte. *)
Lemma strncasecmp_zero_terminated s rest name :
  is_bytes s -> is_bytes name -> no_zero name ->
  exists m, ngx_strncasecmp (s ++ 0 :: rest) name (length name) = Some m /\
    (m = 0 <-> (ngx_tolower <$> name) `prefix_of` (ngx_tolower <$> s)).
Proof.
  intros Hs Hn Hz. revert s Hs. induction name as [|b name IH]; intros s Hs.
  { exists 0. split; [done|]. split; [intros _; apply prefix_nil|done]. }
  apply Forall_cons in Hn as [Hb Hn]. apply Forall_cons in Hz as [Hb0 Hz].
  pose proof (tolower_pos b Hb Hb0). cbn [length ngx_strncasecmp].
  destruct s as [|a s]; cbn [app]; cbv zeta.
  - change (ngx_tolower 0) with 0. destruct (Z.eqb_spec 0 (ngx_tolower b)); [lia|].
    eexists. split; [reflexivity|]. rewrite char_diff_small by (unfold is_byte; lia).
    split; [lia|by intros ?%prefix_nil_inv].
  - apply Forall_cons in Hs as [Ha Hs]. pose proof (ngx_tolower_byte a Ha).
    destruct (Z.eqb_spec (ngx_tolower a) (ngx_tolower b)) as [E|E].
    + destruct (Z.eqb_spec (ngx_tolower a) 0); [lia|]. cbn [negb].
      destruct (IH Hn Hz s Hs) as (m & -> & Hm). exists m. split; [done|].
      cbn [fmap list_fmap]. rewrite E, Hm. split; [apply prefix_cons|apply prefix_cons_inv_2].
    + eexists. split; [reflexivity|]. rewrite char_diff_small by (done || unfold is_byte; lia).
      cbn [fmap list_fmap]. split; [lia|]. intros ?%prefix_cons_inv_1. congruence.
Qed.

(** The items of a header value, each as the rest of the value from its first
    byte on: the value itself, and what follows a separator and its spaces. *)
Definition separator (c : Z) : bool := (c =? ";"%cc) || (c =? ","%cc).

Fixpoint later_items (s : list Z) : list (list Z) :=
  match s with
  | [] => []
  | c :: s' => if separator c then skip_spaces s' :: later_items s' else later_items s'
  end.

Definition items (value : list Z) : list (list Z) := value :: later_items value.

(** What an item says of a name: with a value, the bytes after the equals sign
    and its spaces up to the next semicolon; without, that the name ends the
    value or is followed by a comma. *)
Definition item_named (name s : list Z) : Prop :=
  (ngx_tolower <$> name) `prefix_of` (ngx_tolower <$> s).

Instance item_named_dec name s : Decision (item_named name s).
Proof. unfold item_named. apply _. Defined.

Definition item_value (name : list Z) (want_value : bool) (s : list Z) : option (option (list Z)) :=
  if decide (item_named name s) then
    match want_value, skip_spaces (drop (length name) s) with
    | true, c :: t => if c =? "="%cc then Some (Some (until_semicolon (skip_spaces t))) else None
    | true, [] => None
    | false, c :: _ => if c =? ","%cc then Some None else None
    | false, [] => Some None
    end
  else None.

(** An item that is only the name, followed by another item. *)
Definition bare_item (name s : list Z) : Prop :=
  item_named name s /\ exists c, head (skip_spaces (drop (length name) s)) = Some c /\ separator c.

Instance bare_item_dec name s : Decision (bare_item name s).
Proof.
  destruct (decide (item_named name s)) as [H|H]; [|right; by intros [??]].
  destruct (head (skip_spaces (drop (length name) s))) as [c|] eqn:E.
  - destruct (separator c) eqn:Ec.
    + left. split; [done|]. exists c. by rewrite Ec.
    + right. intros (_ & c' & Hc & Hs). rewrite E in Hc. injection Hc as ->. by rewrite Ec in Hs.
  - right. intros (_ & c' & Hc & Hs). by rewrite E in Hc.
Defined.

Fixpoint first_header (i : Z) (headers : list (list Z * list Z)) (name : list Z)
  (want_value : bool) : Z * option (list Z) :=
  match headers with
  | [] => (NGX_DECLINED, None)
  | (value, _) :: headers' =>
      match head (omap (item_value name want_value) (items value)) with
      | Some v => (i, v)
      | None => first_header (i + 1) headers' name want_value
      end
  end.

Lemma later_items_spaces s : later_items (skip_spaces s) = later_items s.
Proof.
  induction s as [|c s IH]; [done|]. cbn [skip_spaces].
  destruct (Z.eqb_spec c " "%cc) as [->|]; [exact IH|done].
Qed.

Lemma later_items_skip s :
  skip_item s = [] /\ later_items s = [] \/ later_items s = items (skip_item s).
Proof.
  induction s as [|c s IH]; [by left|]. cbn [skip_item later_items]. unfold separator.
  destruct (_ || _); [|exact IH]. right. unfold items. by rewrite later_items_spaces.
Qed.

Lemma later_items_drop n s :
  Forall (fun c => separator c = false) (take n s) -> later_items (drop n s) = later_items s.
Proof.
  revert s. induction n as [|n IH]; intros [|c s]; [done..|].
  cbn [take drop later_items]. intros [-> Hs]%Forall_cons. by apply IH.
Qed.

Lemma skip_spaces_suffix s : skip_spaces s `suffix_of` s.
Proof.
  induction s as [|c s IH]; [done|]. cbn [skip_spaces].
  destruct (_ =? _); [by apply suffix_cons_r|done].
Qed.

Lemma skip_item_suffix s : skip_item s `suffix_of` s.
Proof.
  induction s as [|c s IH]; [done|]. cbn [skip_item]. apply suffix_cons_r.
  destruct (_ || _); [apply skip_spaces_suffix|done].
Qed.

Lemma is_bytes_suffix t s : t `suffix_of` s -> is_bytes s -> is_bytes t.
Proof. intros [x ->] [_ ?]%Forall_app. done. Qed.

Lemma skip_item_length s : (length (skip_item s) <= length s - 1)%nat.
Proof.
  induction s as [|c s IH]; [done|]. cbn [skip_item length]. pose proof (suffix_length _ _ (skip_spaces_suffix s)).
  destruct (_ || _); lia.
Qed.

Lemma separator_tolower c : is_byte c -> separator (ngx_tolower c) = separator c.
Proof.
  intros Hc. pose proof (byte_forall (fun c => eqb (separator (ngx_tolower c)) (separator c))) as H.
  apply eqb_prop, H; [|done]. vm_compute. reflexivity.
Qed.

Lemma item_named_no_separator name s :
  is_bytes name -> is_bytes s -> Forall (fun c => separator c = false) name ->
  item_named name s -> Forall (fun c => separator c = false) (take (length name) s).
Proof.
  intros Hn Hs. revert s Hs. unfold item_named.
  induction name as [|a name IH]; intros [|b s] Hs Hsep Hp; [constructor..|].
  apply Forall_cons in Hn as [Ha Hn]. apply Forall_cons in Hs as [Hb Hs].
  apply Forall_cons in Hsep as [Hsa Hsep]. cbn in Hp |- *. constructor.
  - apply prefix_cons_inv_1 in Hp. rewrite <- separator_tolower, <- Hp, separator_tolower; done.
  - by apply IH; [..|apply prefix_cons_inv_2 in Hp].
Qed.

Section items.
  Context (name : list Z) (want : bool).
  Context (Hn : is_bytes name) (Hz : no_zero name) (Hne : name <> []).
  Context (Hsep : Forall (fun c => separator c = false) name).

Lemma item_value_nil : item_value name want [] = None.
Proof.
  unfold item_value. destruct (decide _) as [H|]; [|done]. unfold item_named in H.
  destruct name; [done|]. cbn in H. by apply prefix_nil_inv in H.
Qed.

(** The items that one turn of the loop leaves are those after its own. *)
Lemma header_item_correct s rest :
  is_bytes s -> s <> [] -> (want = true -> ~ bare_item name s) ->
  match header_item name want s (0 :: rest) with
  | None => False
  | Some (inl found) => item_value name want s = Some found
  | Some (inr s') => item_value name want s = None /\ exists t, s' = skip_item t /\
      later_items t = later_items s /\ t `suffix_of` s
  end.
Proof.
  intros Hs Hs0 Hbare. unfold header_item, item_value.
  destruct (strncasecmp_zero_terminated s rest name Hs Hn Hz) as (m & -> & Hm).
  cbn [mbind option_bind]. fold (item_named name s) in Hm.
  destruct (Z.eqb_spec m 0) as [->|Hm0]; cbn [negb].
  2: { destruct (decide _); [tauto|]. split; [done|]. by exists s. }
  destruct (decide (item_named name s)) as [Hin|]; [|tauto].
  assert (length name <= length s)%nat as Hl.
  { apply prefix_length in Hin. by rewrite !length_fmap in Hin. }
  destruct (Nat.ltb_spec (length s) (length name)); [lia|].
  pose proof (later_items_drop (length name) s
    (item_named_no_separator name s Hn Hs Hsep Hin)) as Hlater.
  rewrite <- later_items_spaces in Hlater.
  assert (skip_spaces (drop (length name) s) `suffix_of` s) as Hsuf.
  { etrans; [apply skip_spaces_suffix|apply suffix_drop]. }
  unfold bare_item in Hbare.
  destruct want; cbn [negb]; destruct (skip_spaces (drop (length name) s)) as [|c t] eqn:E.
  - split; [done|]. exists []. split_and!; [done..|by rewrite <- Hlater|apply suffix_nil].
  - destruct (Z.eqb_spec c "="%cc); [done|]. cbn [negb]. split; [done|]. exists t.
    split_and!; [done| |by eapply suffix_cons_l]. rewrite <- Hlater. cbn [later_items].
    destruct (separator c) eqn:Ec; [|done]. destruct Hbare; [done|]. split; [done|].
    exists c. by rewrite Ec.
  - done.
  - destruct (c =? ","%cc); [done|]. split; [done|]. by exists (c :: t).
Qed.

Lemma header_items_correct fuel s rest :
  is_bytes s -> (want = true -> Forall (fun t => ~ bare_item name t) (items s)) ->
  (length s <= fuel)%nat ->
  header_items fuel name want s (0 :: rest) = Some (head (omap (item_value name want) (items s))).
Proof.
  revert s. induction fuel as [|fuel IH]; intros s Hs Hbare Hf;
    (destruct s as [|c s0]; [cbn; by rewrite item_value_nil|]); [cbn in Hf; lia|].
  cbn [header_items]. set (s := c :: s0) in *. unfold items. cbn [omap list_omap].
  pose proof (header_item_correct s rest Hs ltac:(done)) as Hi.
  destruct (header_item name want s (0 :: rest)) as [[v|s']|]; cbn [mbind option_bind].
  - rewrite Hi; [done|]. intros Hw. by apply Hbare, Forall_cons in Hw as [??].
  - destruct Hi as (-> & t & -> & Ht & Hlt).
    { intros Hw. by apply Hbare, Forall_cons in Hw as [??]. }
    pose proof (skip_item_length t). pose proof (suffix_length _ _ Hlt).
    destruct (later_items_skip t) as [[-> Hnil]|Hskip]; rewrite <- Ht.
    { rewrite Hnil. by destruct fuel. }
    rewrite Hskip. apply IH.
    + eapply is_bytes_suffix; [|exact Hs]. by etrans; [apply skip_item_suffix|].
    + intros Hw. rewrite <- Hskip, Ht. by apply Hbare, Forall_cons in Hw as [??].
    + cbn in *. lia.
  - exfalso. apply Hi. intros Hw. by apply Hbare, Forall_cons in Hw as [??].
Qed.

Lemma short_value_items value :
  (length value < length name)%nat -> head (omap (item_value name want) (items value)) = None.
Proof.
  intros Hlt. cut (forall t, In t (items value) -> item_value name want t = None).
  { generalize (items value). induction l as [|t l IH]; intros Ht; [done|]. cbn [omap list_omap].
    rewrite Ht by (by left). apply IH. intros ??. apply Ht. by right. }
  intros t Ht. unfold item_value. destruct (decide _) as [Hp|]; [|done].
  apply prefix_length in Hp. rewrite !length_fmap in Hp.
  assert (length t <= length value)%nat; [|lia]. destruct Ht as [->|Ht]; [done|].
  revert Ht. clear. induction value as [|c s IH]; [done|]. cbn [later_items].
  pose proof (suffix_length _ _ (skip_spaces_suffix s)).
  destruct (separator c); [intros [<-|Ht]|intros Ht]; cbn; [lia|apply IH in Ht; lia..].
Qed.
End items.

(** On header values followed by a zero byte in memory,
    [ngx_http_parse_multi_header_lines] ends without reading past them and
    returns the first header that has an item of that name, up to case, with
    the item's value, and [NGX_DECLINED] when no header has one.  The name has
    no separators, and when a value is wanted no item is the bare name: such an
    item hides the one after it. *)
Theorem multi_header_lines_correct headers name want :
  Forall (fun '(value, after) => is_bytes value /\ (exists rest, after = 0 :: rest) /\
    (want = true -> Forall (fun s => ~ bare_item name s) (items value))) headers ->
  is_bytes name -> no_zero name -> name <> [] -> Forall (fun c => separator c = false) name ->
  ngx_http_parse_multi_header_lines headers name want = Some (first_header 0 headers name want).
Proof.
  intros Hh Hn Hz Hne Hsep. unfold ngx_http_parse_multi_header_lines. generalize 0.
  induction Hh as [|[value after] headers (Hv & [rest ->] & Hbare) Hh IH]; intros i; [done|].
  cbn [multi_header_loop first_header].
  destruct (Nat.ltb_spec (length value) (length name)) as [Hlt|_].
  - rewrite (short_value_items name want value Hlt). apply IH.
  - rewrite header_items_correct by done. cbn [mbind option_bind].
    by destruct (head _); [|apply IH].
Qed.

Example multi_header_lines_correct_witness :
  ngx_http_parse_multi_header_lines
    [(cstr "a=1", [0]); (cstr "b=2; Sid = x=y;c", [0])] (cstr "sid") true
  = Some (1, Some (cstr "x=y")).
Proof.
  rewrite (multi_header_lines_correct [(cstr "a=1", [0]); (cstr "b=2; Sid = x=y;c", [0])]
    (cstr "sid") true); [reflexivity| | by_eval..].
  constructor; [|constructor; [|constructor]]; (split_and!; [by_eval|by exists []|]);
    intros _; apply (bool_decide_unpack _); vm_compute; exact I.
Defined.

(** An item that is the bare name makes the loop step over the separator that
    follows it, so the next item is not looked at. *)
Example bare_name_hides_next_item :
  ngx_http_parse_multi_header_lines [(cstr "sid; sid=1", [0])] (cstr "sid") true
  = Some (NGX_DECLINED, None) /\
  ngx_http_parse_multi_header_lines [(cstr "side; sid=1", [0])] (cstr "sid") true
  = Some (0, Some (cstr "1")).
Proof. done. Qed.
