(* ===== verification/NgxTime.v ===== *)
(** Calendar time: [ngx_gmtime], [ngx_http_time] and [ngx_http_cookie_time] of
    src/core/ngx_times.c, and [ngx_http_parse_time] of
    src/http/ngx_http_parse_time.c.

    A [time_t] and an [ngx_uint_t] have 64 bits.  The text to parse is the list
    of its bytes, and a pointer into it is the list of the bytes from it up to
    [end]; [None] is a read past [end]. *)

From S2P Require Import Prelude NgxNumber NgxSprintf.

Open Scope Z_scope.

(** * From seconds to a date *)

(** [struct tm], the fields [ngx_gmtime] sets; [tm_mon] counts from 1 and
    [tm_year] from 0. *)
Record ngx_tm_t := mk_tm {
  tm_sec : Z;
  tm_min : Z;
  tm_hour : Z;
  tm_mday : Z;
  tm_mon : Z;
  tm_year : Z;
  tm_wday : Z;
}.

(** [(year % 4 == 0) && (year % 100 || (year % 400 == 0))] *)
Definition leap_year (year : Z) : bool :=
  (year mod 4 =? 0) && (negb (year mod 100 =? 0) || (year mod 400 =? 0)).

(** Days from March 1, 1 BC to March 1 of [year]. *)
Definition march_days (year : Z) : Z := 365 * year + year / 4 - year / 100 + year / 400.

Definition ngx_gmtime (t : Z) : ngx_tm_t :=
  let n := u64 t in
  let days := n / 86400 in
  let wday := u64 (4 + days) mod 7 in
  let n := n mod 86400 in
  let hour := n / 3600 in
  let n := n mod 3600 in
  let min := n / 60 in
  let sec := n mod 60 in
  let days := u64 (days - (31 + 28) + 719527) in
  let year := u64 (u64 (days + 2) * 400) / (365 * 400 + 100 - 4 + 1) in
  let yday := i64 (u64 (days - march_days year)) in
  let '(yday, year) :=
    if yday <? 0
    then (i64 (u64 (365 + Z.b2z (leap_year year) + yday)), u64 (year - 1))
    else (yday, year) in
  let mon := u64 (i64 ((yday + 31) * 10) ÷ 306) in
  let mday := u64 (yday - (u64 (367 * mon) / 12 - 30) + 1) in
  let '(year, mon) :=
    if 306 <=? yday then (u64 (year + 1), u64 (mon - 10)) else (year, u64 (mon + 2)) in
  mk_tm (i32 sec) (i32 min) (i32 hour) (i32 mday) (i32 mon) (i32 year) (i32 wday).

Definition week : list (list Z) :=
  cstr <$> ["Sun"; "Mon"; "Tue"; "Wed"; "Thu"; "Fri"; "Sat"]%string.

Definition months : list (list Z) :=
  cstr <$> ["Jan"; "Feb"; "Mar"; "Apr"; "May"; "Jun";
            "Jul"; "Aug"; "Sep"; "Oct"; "Nov"; "Dec"]%string.

(** [a[i]], a pointer to a zero-terminated string. *)
Definition name_at (a : list (list Z)) (i : Z) : option va_arg :=
  if i <? 0 then None else s ← a !! Z.to_nat i; Some (va_ptr (s ++ [0])).

(** The bytes written at [buf]. *)
Definition ngx_http_time (buf t : Z) : option (list Z) :=
  let tm := ngx_gmtime t in
  wd ← name_at week (tm_wday tm);
  mon ← name_at months (tm_mon tm - 1);
  ngx_sprintf buf (cstr "%s, %02d %s %4d %02d:%02d:%02d GMT")
    [wd; va_int (tm_mday tm); mon; va_int (tm_year tm);
     va_int (tm_hour tm); va_int (tm_min tm); va_int (tm_sec tm)].

Definition ngx_http_cookie_time (buf t : Z) : option (list Z) :=
  let tm := ngx_gmtime t in
  wd ← name_at week (tm_wday tm);
  mon ← name_at months (tm_mon tm - 1);
  let late := 2037 <? tm_year tm in
  ngx_sprintf buf
    (if late then cstr "%s, %02d-%s-%d %02d:%02d:%02d GMT"
     else cstr "%s, %02d-%s-%02d %02d:%02d:%02d GMT")
    [wd; va_int (tm_mday tm); mon;
     va_int (if late then tm_year tm else Z.rem (tm_year tm) 100);
     va_int (tm_hour tm); va_int (tm_min tm); va_int (tm_sec tm)].

(** * From a date to seconds *)

(** A step of the parser returns [NGX_ERROR] ([Some None]), reads past [end]
    ([None]) or goes on with a value. *)
Definition parse (A : Type) : Type := option (option A).
Definition ret {A} (x : A) : parse A := Some (Some x).
Definition fail {A} : parse A := Some None.
Definition bind {A B} (e : parse A) (k : A -> parse B) : parse B :=
  match e with Some (Some x) => k x | Some None => Some None | None => None end.
Notation "x <~ e ; k" := (bind e (fun x => k)) (at level 20, e at level 100, k at level 200).
Notation "' x <~ e ; k" := (bind e (fun x => k))
  (at level 20, x pattern, e at level 100, k at level 200).

Inductive fmt := no | rfc822 | rfc850 | isoc.

Instance fmt_eq_dec : EqDecision fmt.
Proof. solve_decision. Defined.

(** [*(p + k)] *)
Definition at_ (p : list Z) (k : nat) : parse Z := Some <$> p !! k.

(** [if ( *p < '0' || *p > '9') return NGX_ERROR;], with the digit's value. *)
Definition digit (p : list Z) (k : nat) : parse Z :=
  c <~ at_ p k;
  if (c <? "0"%cc) || ("9"%cc <? c) then fail else ret (c - "0"%cc).

Definition two_digits (p : list Z) : parse Z :=
  a <~ digit p 0; b <~ digit p 1; ret (a * 10 + b).

Definition four_digits (p : list Z) : parse Z :=
  a <~ digit p 0; b <~ digit p 1; c <~ digit p 2; d <~ digit p 3;
  ret (a * 1000 + b * 100 + c * 10 + d).

(** [if ( *p != c) return NGX_ERROR;] *)
Definition expect_char (p : list Z) (c : Z) : parse unit :=
  x <~ at_ p 0; if negb (x =? c) then fail else ret tt.

(** The first loop, up to the comma or space. *)
Fixpoint find_fmt (p : list Z) : fmt * list Z :=
  match p with
  | [] => (no, [])
  | c :: p' =>
      if c =? ","%cc then (no, p)
      else if c =? " "%cc then (isoc, p)
      else find_fmt p'
  end.

(** [for ( ; p < end; p++) if ( *p != ' ') break;] *)
Fixpoint skip_blanks (p : list Z) : list Z :=
  match p with
  | c :: p' => if negb (c =? " "%cc) then p else skip_blanks p'
  | [] => []
  end.

(** The day before the month. *)
Definition day_first (p : list Z) : parse (fmt * Z * list Z) :=
  day <~ two_digits p;
  let p := drop 2 p in
  c <~ at_ p 0;
  if c =? " "%cc then
    if (length p <? 18)%nat then fail else ret (rfc822, day, drop 1 p)
  else if c =? "-"%cc then ret (rfc850, day, drop 1 p)
  else fail.

(** The [switch] on the month's letters. *)
Definition month_at (p : list Z) : parse Z :=
  c <~ at_ p 0;
  if c =? "J"%cc then
    c1 <~ at_ p 1;
    if c1 =? "a"%cc then ret 0
    else c2 <~ at_ p 2; ret (if c2 =? "n"%cc then 5 else 6)
  else if c =? "F"%cc then ret 1
  else if c =? "M"%cc then c2 <~ at_ p 2; ret (if c2 =? "r"%cc then 2 else 4)
  else if c =? "A"%cc then c1 <~ at_ p 1; ret (if c1 =? "p"%cc then 3 else 7)
  else if c =? "S"%cc then ret 8
  else if c =? "O"%cc then ret 9
  else if c =? "N"%cc then ret 10
  else if c =? "D"%cc then ret 11
  else fail.

(** The day after the month, in the [isoc] format. *)
Definition day_second (p : list Z) : parse (Z * list Z) :=
  c <~ at_ p 0;
  let p := if c =? " "%cc then drop 1 p else p in
  day <~ digit p 0;
  let p := drop 1 p in
  c <~ at_ p 0;
  '(day, p) <~ (if negb (c =? " "%cc)
                then d <~ digit p 0; ret (day * 10 + d, drop 1 p)
                else ret (day, p));
  if (length p <? 14)%nat then fail else ret (day, p).

Definition mday : list Z := [31; 28; 31; 30; 31; 30; 31; 31; 30; 31; 30; 31].

(** The days since March 1, 1 BC by Gauss' formula, then the seconds since
    January 1, 1970; [month] is shifted so that the year starts in March. *)
Definition seconds (day month year hour min sec : Z) : Z :=
  let month := month - 1 in
  let '(month, year) := if month <=? 0 then (month + 12, u64 (year - 1)) else (month, year) in
  let time := u64 (u64 (march_days year + 367 * month ÷ 12 - 30 + day - 1 - 719527 + 31 + 28)
                   * 86400 + hour * 3600 + min * 60 + sec) in
  i64 time.

(** The checks of the fields. *)
Definition time_of (day month year hour min sec : Z) : parse Z :=
  if (23 <? hour) || (59 <? min) || (59 <? sec) then fail
  else if (day =? 29) && (month =? 1) then
    if negb (Z.land year 3 =? 0) || ((year mod 100 =? 0) && negb (year mod 400 =? 0)) then fail
    else ret (seconds day month year hour min sec)
  else
    limit <~ at_ mday (Z.to_nat month);
    if limit <? day then fail else ret (seconds day month year hour min sec).

(** [hh:mm:ss] *)
Definition clock (p : list Z) : parse (Z * Z * Z * list Z) :=
  hour <~ two_digits p;
  let p := drop 2 p in
  _ <~ expect_char p ":"%cc;
  let p := drop 1 p in
  min <~ two_digits p;
  let p := drop 2 p in
  _ <~ expect_char p ":"%cc;
  let p := drop 1 p in
  sec <~ two_digits p;
  ret (hour, min, sec, p).

(** The year after the month, in the [rfc822] and [rfc850] formats. *)
Definition year_second (f : fmt) (p : list Z) : parse (Z * list Z) :=
  match f with
  | rfc822 => year <~ four_digits p; ret (year, drop 4 p)
  | _ => year <~ two_digits p;
         ret (year + (if year <? 70 then 2000 else 1900), drop 2 p)
  end.

Definition parse_time (value : list Z) : parse Z :=
  let '(f, p) := find_fmt value in
  let p := skip_blanks (drop 1 p) in
  if (length p <? 18)%nat then fail
  else
    '(f, day, p) <~ (if decide (f = isoc) then ret (isoc, 0, p) else day_first p);
    month <~ month_at p;
    let p := drop 3 p in
    _ <~ (match f with
          | rfc822 => expect_char p " "%cc
          | rfc850 => expect_char p "-"%cc
          | _ => ret tt
          end);
    let p := drop 1 p in
    if decide (f = isoc) then
      '(day, p) <~ day_second p;
      _ <~ expect_char p " "%cc;
      '(hour, min, sec, p) <~ clock (drop 1 p);
      let p := drop 2 p in
      _ <~ expect_char p " "%cc;
      year <~ four_digits (drop 1 p);
      time_of day month year hour min sec
    else
      '(year, p) <~ year_second f p;
      _ <~ expect_char p " "%cc;
      '(hour, min, sec, _) <~ clock (drop 1 p);
      time_of day month year hour min sec.

(** [NGX_ERROR] or the seconds. *)
Definition ngx_http_parse_time (value : list Z) : option Z :=
  match parse_time value with
  | None => None
  | Some None => Some NGX_ERROR
  | Some (Some t) => Some t
  end.

Example gmtime_end_of_february :
  ngx_gmtime 951827696 = mk_tm 56 34 12 29 2 2000 2.
Proof. reflexivity. Qed.

Example http_time_prints :
  ngx_http_time 0 784111777 = Some (cstr "Sun, 06 Nov 1994 08:49:37 GMT").
Proof. vm_compute. reflexivity. Qed.

Example parse_time_formats :
  ngx_http_parse_time <$>
    [cstr "Sun, 06 Nov 1994 08:49:37 GMT"; cstr "Sunday, 06-Nov-94 08:49:37 GMT";
     cstr "Sun Nov  6 08:49:37 1994"; cstr "Thu, 29 Feb 1900 00:00:00"]
  = [Some 784111777; Some 784111777; Some 784111777; Some NGX_ERROR].
Proof. vm_compute. reflexivity. Qed.

(** * The calendar

    The specification counts days: years and months have the lengths of the
    Gregorian calendar. *)

Definition year_days (y : Z) : Z := if leap_year y then 366 else 365.

Definition month_days (y m : Z) : Z :=
  if (m =? 2) && leap_year y then 29 else nth (Z.to_nat (m - 1)) mday 0.

Definition valid_date (y m d : Z) : Prop := 1 <= m <= 12 /\ 1 <= d <= month_days y m.

Definition sum_Z (l : list Z) : Z := foldr Z.add 0 l.

(** Days from January 1, 1970 to a date. *)
Definition date_days (y m d : Z) : Z :=
  sum_Z (year_days <$> seqZ 1970 (y - 1970)) + sum_Z (month_days y <$> seqZ 1 (m - 1)) + d - 1.

Lemma sum_Z_app l k : sum_Z (l ++ k) = sum_Z l + sum_Z k.
Proof. induction l as [|x l IH]; cbn; [done|]. unfold sum_Z in *. lia. Qed.

(** The days from March to March are those of the year in which they end. *)
Lemma march_days_step y : march_days y = march_days (y - 1) + year_days y.
Proof.
  unfold year_days, leap_year, march_days.
  destruct (Z.eqb_spec (y mod 4) 0); destruct (Z.eqb_spec (y mod 100) 0);
    destruct (Z.eqb_spec (y mod 400) 0); cbn; Z.to_euclidean_division_equations; lia.
Qed.

Lemma year_days_sum y :
  1970 <= y -> sum_Z (year_days <$> seqZ 1970 (y - 1970)) = march_days (y - 1) + 306 - 719468.
Proof.
  intros Hy. pattern y. apply (Zlt_lower_bound_ind _ 1970); [|done]. clear y Hy.
  intros y IH Hy. destruct (Z.eq_dec y 1970) as [->|]; [reflexivity|].
  replace (y - 1970) with (y - 1 - 1970 + 1) by lia.
  rewrite seqZ_app, fmap_app, sum_Z_app, IH by lia.
  rewrite seqZ_cons, seqZ_nil, (march_days_step (y - 1)) by lia. cbn [fmap list_fmap].
  replace (1970 + (y - 1 - 1970)) with (y - 1) by lia. unfold sum_Z. cbn [foldr]. lia.
Qed.

Lemma month_cases m :
  1 <= m <= 12 -> m = 1 \/ m = 2 \/ m = 3 \/ m = 4 \/ m = 5 \/ m = 6 \/ m = 7 \/ m = 8 \/ m = 9 \/
    m = 10 \/ m = 11 \/ m = 12.
Proof. lia. Qed.

(** Gauss' formula, with the year shifted to start in March, counts these days. *)
Lemma gauss_days y m d :
  1970 <= y -> 1 <= m <= 12 ->
  date_days y m d =
    (if m <=? 2 then march_days (y - 1) + 367 * (m + 10) / 12 else march_days y + 367 * (m - 2) / 12)
    - 30 + d - 1 - 719527 + 31 + 28.
Proof.
  intros Hy Hm. unfold date_days. rewrite year_days_sum, (march_days_step y) by done.
  unfold year_days. generalize (march_days (y - 1)). intros D.
  pose proof (month_cases m Hm) as Hc.
  unfold month_days, sum_Z.
  repeat destruct Hc as [->|Hc]; [..|subst m]; destruct (leap_year y);
    match goal with
    | |- context [foldr Z.add 0 ?l] =>
        let v := eval vm_compute in (foldr Z.add 0 l) in change (foldr Z.add 0 l) with v
    end; cbn [Z.leb Z.compare Pos.compare Pos.compare_cont];
    Z.to_euclidean_division_equations; lia.
Qed.

(** The year found by [(days + 2) * 400 / 146097], corrected when it is one too
    late, is the year from March on that has the day. *)
Lemma year_of_day D :
  0 <= D ->
  let y := (D + 2) * 400 / 146097 in
  march_days y <= D < march_days (y + 1) \/ march_days (y - 1) <= D < march_days y.
Proof.
  intros HD y. subst y. unfold march_days. Z.to_euclidean_division_equations. lia.
Qed.

Ltac change_leb :=
  repeat match goal with
  | |- context [?a <=? ?b] => let v := eval vm_compute in (a <=? b) in change (a <=? b) with v
  end; cbv iota.

(** The empirical formula for the month is right on every day of the year. *)
Lemma date_of_yday y yday :
  1969 <= y -> 0 <= yday < year_days (y + 1) ->
  let mon := (yday + 31) * 10 / 306 in
  let d := yday - (367 * mon / 12 - 30) + 1 in
  let '(y', m) := if 306 <=? yday then (y + 1, mon - 10) else (y, mon + 2) in
  1 <= mon <= 12 /\ (1970 <= y' -> valid_date y' m d /\
    date_days y' m d = march_days y + yday - 719527 + 31 + 28).
Proof.
  intros Hy Hd mon d. unfold year_days in Hd.
  assert (1 <= mon <= 12) as Hmon.
  { subst mon. destruct (leap_year _); Z.to_euclidean_division_equations; lia. }
  pose proof (month_cases mon Hmon) as Hc.
  assert (306 * mon <= (yday + 31) * 10 < 306 * (mon + 1)) as Hf.
  { subst mon. Z.to_euclidean_division_equations. lia. }
  subst d. clearbody mon. unfold valid_date.
  destruct (Z.leb_spec 306 yday) as [Hl|Hl]; (split; [done|]); intros Hy';
    rewrite gauss_days by lia; [replace (y + 1 - 1) with y by lia|];
    generalize (march_days y); intros D; remember (y + 1) as y1 eqn:Ey1;
    repeat destruct Hc as [->|Hc]; try lia; try (subst mon; try lia);
    match goal with
    | |- context [month_days ?a ?m] =>
        let e := eval cbv -[leap_year] in (month_days a m) in change (month_days a m) with e
    end;
    try (destruct (leap_year y1)); change_leb; Z.to_euclidean_division_equations; lia.
Qed.


Lemma i64_wrapped z : - 2 ^ 63 <= z < 2 ^ 63 -> i64 (u64 z) = z.
Proof.
  intros Hz. rewrite <- (swrap_small 64 z) at 2 by lia.
  apply swrap_eq_mod. unfold wrap. by rewrite Z.mod_mod by lia.
Qed.

Lemma valid_date_day y m d : valid_date y m d -> 1 <= d <= 31.
Proof.
  intros [Hm [Hd1 Hd2]]. split; [done|]. unfold month_days in Hd2.
  assert (nth (Z.to_nat (m - 1)) mday 0 <= 31).
  { apply (Forall_nth (fun x => x <= 31)); [repeat constructor; lia|cbn; lia]. }
  destruct (_ && _); lia.
Qed.

(** The computation of [year] and [yday]; its wrap-arounds do nothing. *)
Lemma year_and_yday D :
  719468 <= D < 2 ^ 39 + 2 ^ 20 ->
  let y := (D + 2) * 400 / 146097 in
  exists y' yday, 1969 <= y' <= 2 ^ 31 - 10 /\ 0 <= yday < year_days (y' + 1) /\
    D = march_days y' + yday /\ (1970 <= y' \/ 306 <= yday) /\
    (if i64 (u64 (D - march_days y)) <? 0
     then (i64 (u64 (365 + Z.b2z (leap_year y) + i64 (u64 (D - march_days y)))), u64 (y - 1))
     else (i64 (u64 (D - march_days y)), y)) = (yday, y').
Proof.
  intros HD y. pose proof (year_of_day D ltac:(lia)) as Hyr. cbv zeta in Hyr. fold y in Hyr.
  assert (1969 <= y <= 2 ^ 31 - 10) as Hyb.
  { subst y. clear Hyr. Z.to_euclidean_division_equations. lia. }
  clearbody y.
  assert (D < march_days y -> 1970 <= y) as Hy0.
  { intros H. unfold march_days in H. clear Hyr. Z.to_euclidean_division_equations. lia. }
  assert (march_days 1969 = 719162) as E0 by reflexivity.
  pose proof (march_days_step y) as E1. pose proof (march_days_step (y + 1)) as E2.
  replace (y + 1 - 1) with y in E2 by lia.
  assert (365 <= year_days y <= 366 /\ 365 <= year_days (y + 1) <= 366) as [??].
  { unfold year_days. destruct (leap_year y), (leap_year (y + 1)); lia. }
  rewrite i64_wrapped by lia. destruct (Z.ltb_spec (D - march_days y) 0).
  - rewrite i64_wrapped, wrap_small by (destruct (leap_year y); cbn; lia).
    exists (y - 1), (D - march_days (y - 1)). replace (y - 1 + 1) with y by lia.
    split_and!; [lia..| |].
    + destruct (Z.eq_dec y 1970) as [->|]; [right|left; lia]. change (1970 - 1) with 1969. lia.
    + f_equal. unfold year_days in *. destruct (leap_year y); cbn; lia.
  - exists y, (D - march_days y). split_and!; [lia..| |done].
    destruct (Z.eq_dec y 1969) as [->|]; [right|left]; lia.
Qed.

(** The wrap-arounds of [ngx_gmtime] do nothing in that range. *)
Lemma gmtime_date t :
  0 <= t < 2 ^ 55 ->
  exists y m d, 1970 <= y < 2 ^ 31 /\ valid_date y m d /\ date_days y m d = t / 86400 /\
    ngx_gmtime t = mk_tm (t mod 86400 mod 3600 mod 60) (t mod 86400 mod 3600 / 60)
                     (t mod 86400 / 3600) d m y ((4 + t / 86400) mod 7).
Proof.
  intros Ht. unfold ngx_gmtime. rewrite (wrap_small 64 t) by lia. cbv zeta.
  assert (0 <= t / 86400 < 2 ^ 39) as HD0 by (Z.to_euclidean_division_equations; lia).
  rewrite (wrap_small 64 (4 + _)), (wrap_small 64 (t / 86400 - _ + _)) by lia.
  set (D := t / 86400 - (31 + 28) + 719527) in *.
  rewrite (wrap_small 64 (D + 2)), (wrap_small 64 ((D + 2) * 400)) by lia.
  change (365 * 400 + 100 - 4 + 1) with 146097.
  destruct (year_and_yday D ltac:(lia)) as (y & yday & Hy & Hd & ED & Hfirst & ->).
  assert (year_days (y + 1) <= 366) by (unfold year_days; destruct (leap_year _); lia).
  rewrite (swrap_small 64 ((yday + 31) * 10)), Z.quot_div_nonneg by lia.
  pose proof (date_of_yday y yday ltac:(lia) Hd) as Hdate. cbv zeta in Hdate.
  set (mon := (yday + 31) * 10 / 306) in *.
  set (d := yday - (367 * mon / 12 - 30) + 1) in *.
  rewrite (wrap_small 64 mon) by (destruct (306 <=? yday); lia).
  rewrite (wrap_small 64 (367 * mon)) by (destruct (306 <=? yday); lia).
  assert (forall z, 0 <= z < 60 -> i32 z = z) as Hi by (intros; apply swrap_small; lia).
  rewrite (Hi (_ mod 60)), (Hi (_ mod 3600 / 60)), (Hi (_ / 3600)), (Hi (_ mod 7))
    by (Z.to_euclidean_division_equations; lia).
  fold d. destruct (Z.leb_spec 306 yday) as [Hl|Hl]; destruct Hdate as [Hmon Hdate];
    (destruct Hdate as [Hv Hdays]; [lia|]);
    (assert (1 <= d <= 31) as Hd31 by (apply (valid_date_day _ _ _ Hv)));
    pose proof (proj1 Hv);
    rewrite !(wrap_small 64), !(swrap_small 32) by lia; eexists _, _, _;
    (split_and!; [| |exact Hv| |reflexivity]); lia.
Qed.

(** For every time from 1970 on (up to 2^55, more than a billion years)
    [ngx_gmtime] gives a valid date of the Gregorian calendar, a time of day,
    and the day of the week, and counting the days of the years and months up
    to that date gives back the time. *)
Theorem gmtime_correct t :
  0 <= t < 2 ^ 55 ->
  let tm := ngx_gmtime t in
  1970 <= tm_year tm /\ valid_date (tm_year tm) (tm_mon tm) (tm_mday tm) /\
  0 <= tm_hour tm < 24 /\ 0 <= tm_min tm < 60 /\ 0 <= tm_sec tm < 60 /\
  date_days (tm_year tm) (tm_mon tm) (tm_mday tm) * 86400
    + tm_hour tm * 3600 + tm_min tm * 60 + tm_sec tm = t /\
  tm_wday tm = (4 + t / 86400) mod 7.
Proof.
  intros Ht tm. pose proof (gmtime_date t Ht) as (y & m & d & Hy & Hv & Hdays & E).
  subst tm. rewrite E. cbn [tm_year tm_mon tm_mday tm_hour tm_min tm_sec tm_wday].
  rewrite Hdays. split_and!; [lia|done|..]; Z.to_euclidean_division_equations; lia.
Qed.

Example gmtime_correct_witness :
  let tm := ngx_gmtime 951827696 in
  tm = mk_tm 56 34 12 29 2 2000 2 /\
  date_days 2000 2 29 * 86400 + 12 * 3600 + 34 * 60 + 56 = 951827696.
Proof.
  split; [reflexivity|].
  destruct (gmtime_correct 951827696) as (_ & _ & _ & _ & _ & H & _); [lia|exact H].
Defined.

(** * Dates in text *)

Definition two (n : Z) : list Z := [n / 10 + "0"%cc; n mod 10 + "0"%cc].
Definition four (n : Z) : list Z := two (n / 100) ++ two (n mod 100).
Definition month_name (m : Z) : list Z := nth (Z.to_nat (m - 1)) months [].

Lemma digit_0 n p : 0 <= n < 10 -> digit (n + "0"%cc :: p) 0 = ret n.
Proof.
  intros Hn. unfold digit, at_. cbn. destruct (Z.ltb_spec (n + 48) 48); [lia|].
  destruct (Z.ltb_spec 57 (n + 48)); [lia|]. cbn. unfold ret. repeat f_equal. lia.
Qed.

Lemma two_digits_two n p : 0 <= n < 100 -> two_digits (two n ++ p) = ret n.
Proof.
  intros Hn. unfold two_digits, two. cbn [app].
  rewrite digit_0 by (Z.to_euclidean_division_equations; lia). cbn [bind ret].
  change (digit (?a :: ?l) 1) with (digit l 0).
  rewrite digit_0 by (Z.to_euclidean_division_equations; lia). cbn [bind ret].
  unfold ret. repeat f_equal. Z.to_euclidean_division_equations; lia.
Qed.

Lemma digit_at n p k : p !! k = Some (n + "0"%cc) -> 0 <= n < 10 -> digit p k = ret n.
Proof.
  intros E Hn. unfold digit, at_. rewrite E. cbn. destruct (Z.ltb_spec (n + 48) 48); [lia|].
  destruct (Z.ltb_spec 57 (n + 48)); [lia|]. cbn. unfold ret. repeat f_equal. lia.
Qed.

Lemma four_digits_four n p : 0 <= n < 10000 -> four_digits (four n ++ p) = ret n.
Proof.
  intros Hn. unfold four_digits, four, two. cbn [app].
  rewrite (digit_at (n / 100 / 10) _ 0), (digit_at (n / 100 mod 10) _ 1),
    (digit_at (n mod 100 / 10) _ 2), (digit_at (n mod 100 mod 10) _ 3)
    by (done || (Z.to_euclidean_division_equations; lia)).
  cbn [bind ret]. unfold ret. repeat f_equal. Z.to_euclidean_division_equations; lia.
Qed.

Lemma month_at_name m p : 1 <= m <= 12 -> month_at (month_name m ++ p) = ret (m - 1).
Proof.
  intros Hm. pose proof (month_cases m Hm) as Hc.
  repeat destruct Hc as [->|Hc]; [..|subst m]; reflexivity.
Qed.

Lemma month_name_length m : 1 <= m <= 12 -> length (month_name m) = 3%nat.
Proof.
  intros Hm. pose proof (month_cases m Hm) as Hc.
  repeat destruct Hc as [->|Hc]; [..|subst m]; reflexivity.
Qed.

Lemma mday_at m : 1 <= m <= 12 ->
  at_ mday (Z.to_nat (m - 1)) = ret (nth (Z.to_nat (m - 1)) mday 0).
Proof.
  intros Hm. pose proof (month_cases m Hm) as Hc.
  repeat destruct Hc as [->|Hc]; [..|subst m]; reflexivity.
Qed.

Lemma date_days_range y m d :
  1970 <= y <= 9999 -> valid_date y m d -> 0 <= date_days y m d < 2932900.
Proof.
  intros Hy Hv. pose proof (valid_date_day _ _ _ Hv). destruct Hv as [Hm _].
  rewrite gauss_days by lia. unfold march_days.
  destruct (m <=? 2) eqn:E; Z.to_euclidean_division_equations; lia.
Qed.

Lemma find_fmt_weekday wd p :
  Forall (fun c => c <> ","%cc /\ c <> " "%cc) wd -> find_fmt (wd ++ p) = find_fmt p.
Proof.
  induction 1 as [|c wd [H1 H2] _ IH]; [done|]. cbn [app find_fmt].
  destruct (Z.eqb_spec c ","%cc); [done|]. by destruct (Z.eqb_spec c " "%cc).
Qed.

(** The fields of a valid date pass the checks, and the seconds are counted. *)
Lemma time_of_valid y m d h mi s :
  1970 <= y <= 9999 -> valid_date y m d -> 0 <= h < 24 -> 0 <= mi < 60 -> 0 <= s < 60 ->
  time_of d (m - 1) y h mi s = ret (date_days y m d * 86400 + h * 3600 + mi * 60 + s).
Proof.
  intros Hy Hv Hh Hmi Hs. pose proof (valid_date_day _ _ _ Hv) as Hd31.
  pose proof (date_days_range y m d Hy Hv) as Hr.
  destruct Hv as [Hm Hd]. unfold time_of.
  destruct (Z.ltb_spec 23 h); [lia|]. destruct (Z.ltb_spec 59 mi); [lia|].
  destruct (Z.ltb_spec 59 s); [lia|]. cbn [orb].
  assert (seconds d (m - 1) y h mi s = date_days y m d * 86400 + h * 3600 + mi * 60 + s) as ->.
  { rewrite gauss_days in * by lia. unfold seconds. cbv zeta.
    replace (m - 1 - 1 <=? 0) with (m <=? 2) by lia. destruct (Z.leb_spec m 2).
    - rewrite (wrap_small 64 (y - 1)), Z.quot_div_nonneg by lia.
      replace (m - 1 - 1 + 12) with (m + 10) by lia.
      rewrite (wrap_small 64 (march_days _ + _ - _ + _ - _ - _ + _ + _)), wrap_small, swrap_small
        by lia. lia.
    - rewrite Z.quot_div_nonneg by lia. replace (m - 1 - 1) with (m - 2) by lia.
      rewrite (wrap_small 64 (march_days _ + _ - _ + _ - _ - _ + _ + _)), wrap_small, swrap_small
        by lia. lia. }
  unfold month_days in Hd.
  destruct (Z.eqb_spec d 29) as [->|]; cbn [andb].
  - destruct (Z.eqb_spec (m - 1) 1) as [|]; cbn [andb].
    + assert (m = 2) as -> by lia. change (Z.land y 3) with (Z.land y (2 ^ 2 - 1)).
      rewrite land_ones_mod by lia. change (2 ^ 2) with 4.
      change (nth (Z.to_nat (2 - 1)) mday 0) with 28 in Hd. unfold leap_year in Hd.
      destruct (y mod 4 =? 0), (y mod 100 =? 0), (y mod 400 =? 0); cbn in *; (done || lia).
    + rewrite mday_at by done. cbn [bind ret]. replace (m =? 2) with false in Hd by lia.
      cbn [andb] in Hd. by destruct (Z.ltb_spec (nth (Z.to_nat (m - 1)) mday 0) 29); [lia|].
  - rewrite mday_at by done. cbn [bind ret].
    assert (d <= nth (Z.to_nat (m - 1)) mday 0).
    { destruct (Z.eqb_spec m 2) as [->|]; [|cbn [andb] in Hd; lia].
      change (nth (Z.to_nat (2 - 1)) mday 0) with 28 in *. cbn in Hd.
      destruct (leap_year y); lia. }
    by destruct (Z.ltb_spec (nth (Z.to_nat (m - 1)) mday 0) d); [lia|].
Qed.


(** The three formats, as RFC 2616 defines them, after the name of the day of
    the week. *)
Definition rfc822_text (wd : list Z) (y m d h mi s : Z) : list Z :=
  wd ++ [","%cc; " "%cc] ++ two d ++ [" "%cc] ++ month_name m ++ [" "%cc] ++ four y ++ [" "%cc] ++
  two h ++ [":"%cc] ++ two mi ++ [":"%cc] ++ two s.

Definition rfc850_text (wd : list Z) (y m d h mi s : Z) : list Z :=
  wd ++ [","%cc; " "%cc] ++ two d ++ ["-"%cc] ++ month_name m ++ ["-"%cc] ++ two (y mod 100) ++ [" "%cc] ++
  two h ++ [":"%cc] ++ two mi ++ [":"%cc] ++ two s.

Definition isoc_text (wd : list Z) (y m d h mi s : Z) : list Z :=
  wd ++ [" "%cc] ++ month_name m ++ [" "%cc] ++
  (if d <? 10 then [" "%cc] ++ [d + "0"%cc] else two d) ++ [" "%cc] ++
  two h ++ [":"%cc] ++ two mi ++ [":"%cc] ++ two s ++ [" "%cc] ++ four y.

Lemma skip_blanks_month m p : 1 <= m <= 12 -> skip_blanks (month_name m ++ p) = month_name m ++ p.
Proof.
  intros Hm. pose proof (month_cases m Hm) as Hc.
  repeat destruct Hc as [->|Hc]; [..|subst m]; reflexivity.
Qed.

Ltac date_length :=
  repeat (rewrite ?length_app, ?length_cons, ?month_name_length by done);
  try destruct (_ <? 10); cbn [length two four app].

Section formats.
  Context (wd rest : list Z) (y m d h mi s : Z).
  Context (Hwd : Forall (fun c => c <> ","%cc /\ c <> " "%cc) wd).
  Context (Hy : 1970 <= y <= 9999) (Hv : valid_date y m d).
  Context (Hh : 0 <= h < 24) (Hmi : 0 <= mi < 60) (Hs : 0 <= s < 60).

Lemma skip_blanks_two n p : 0 <= n < 100 -> skip_blanks (" "%cc :: two n ++ p) = two n ++ p.
Proof.
  intros Hn. cbn. destruct (Z.eqb_spec (n / 10 + 48) 32); [|done].
  Z.to_euclidean_division_equations; lia.
Qed.

Lemma expect_char_ok c p : expect_char (c :: p) c = ret tt.
Proof. unfold expect_char. cbn. by rewrite Z.eqb_refl. Qed.

Lemma long_enough k (l : list Z) : (k <= length l)%nat -> (length l <? k)%nat = false.
Proof. intros. by apply Nat.ltb_ge. Qed.

Lemma clock_reads p :
  clock (two h ++ ":"%cc :: two mi ++ ":"%cc :: two s ++ p) = ret (h, mi, s, two s ++ p).
Proof.
  unfold clock. rewrite two_digits_two by lia. cbn [bind ret].
  change (drop 2 (two h ++ ?l)) with l. cbn [bind ret].
  change (expect_char (":"%cc :: ?l) ":"%cc) with (ret tt). cbn [bind ret].
  change (drop 1 (":"%cc :: ?l)) with l. rewrite two_digits_two by lia. cbn [bind ret].
  change (drop 2 (two mi ++ ?l)) with l.
  change (expect_char (":"%cc :: ?l) ":"%cc) with (ret tt). cbn [bind ret].
  change (drop 1 (":"%cc :: ?l)) with l. rewrite two_digits_two by lia. done.
Qed.


Lemma day_first_reads sep p :
  sep = " "%cc /\ (17 <= length p)%nat \/ sep = "-"%cc ->
  day_first (two d ++ sep :: p) = ret (if sep =? " "%cc then rfc822 else rfc850, d, p).
Proof.
  intros Hsep. pose proof (valid_date_day _ _ _ Hv). unfold day_first.
  rewrite two_digits_two by lia. cbn [bind ret]. change (drop 2 (two d ++ ?l)) with l.
  change (at_ (?c :: ?l) 0) with (ret c). cbn [bind ret]. change (drop 1 (?c :: ?l)) with l.
  destruct Hsep as [[-> Hp]| ->]; [|done]. rewrite long_enough by (cbn; lia). done.
Qed.

Lemma month_reads p :
  month_at (month_name m ++ p) = ret (m - 1) /\ drop 3 (month_name m ++ p) = p.
Proof.
  destruct Hv as [Hm _]. split; [by apply month_at_name|].
  rewrite drop_app_ge by (rewrite month_name_length; lia). by rewrite month_name_length.
Qed.

Lemma parse_rfc822 :
  parse_time (rfc822_text wd y m d h mi s ++ rest)
  = ret (date_days y m d * 86400 + h * 3600 + mi * 60 + s).
Proof.
  pose proof (valid_date_day _ _ _ Hv) as Hd. pose proof (proj1 Hv) as Hm.
  unfold rfc822_text, parse_time. rewrite <- !app_assoc, find_fmt_weekday by done.
  cbn [app find_fmt Z.eqb Pos.eqb]. cbv zeta. change (drop 1 (","%cc :: ?l)) with l.
  rewrite skip_blanks_two by lia.
  rewrite long_enough by (date_length; lia). destruct (decide (no = isoc)); [done|].
  rewrite day_first_reads by (left; split; [done|]; date_length; lia).
  cbn [Z.eqb Pos.eqb bind ret]. edestruct month_reads as [-> ->].
  cbn [bind ret]. rewrite expect_char_ok. cbn [bind ret]. change (drop 1 (?c :: ?l)) with l.
  destruct (decide (rfc822 = isoc)); [done|]. unfold year_second.
  rewrite four_digits_four by lia. cbn [bind ret]. change (drop 4 (four y ++ ?l)) with l.
  rewrite expect_char_ok. cbn [bind ret]. change (drop 1 (?c :: ?l)) with l.
  rewrite clock_reads. cbn [bind ret]. by apply time_of_valid.
Qed.

Lemma parse_rfc850 :
  y < 2070 ->
  parse_time (rfc850_text wd y m d h mi s ++ rest)
  = ret (date_days y m d * 86400 + h * 3600 + mi * 60 + s).
Proof.
  intros Hy'. pose proof (valid_date_day _ _ _ Hv) as Hd. pose proof (proj1 Hv) as Hm.
  unfold rfc850_text, parse_time. rewrite <- !app_assoc, find_fmt_weekday by done.
  cbn [app find_fmt Z.eqb Pos.eqb]. cbv zeta. change (drop 1 (","%cc :: ?l)) with l.
  rewrite skip_blanks_two by lia.
  rewrite long_enough by (date_length; lia). destruct (decide (no = isoc)); [done|].
  rewrite day_first_reads by (by right).
  cbn [Z.eqb Pos.eqb bind ret]. edestruct month_reads as [-> ->].
  cbn [bind ret]. rewrite expect_char_ok. cbn [bind ret]. change (drop 1 (?c :: ?l)) with l.
  destruct (decide (rfc850 = isoc)); [done|]. unfold year_second.
  rewrite two_digits_two by (Z.to_euclidean_division_equations; lia).
  cbn [bind ret]. change (drop 2 (two (y mod 100) ++ ?l)) with l.
  replace (y mod 100 + (if y mod 100 <? 70 then 2000 else 1900)) with y
    by (destruct (Z.ltb_spec (y mod 100) 70); Z.to_euclidean_division_equations; lia).
  rewrite expect_char_ok. cbn [bind ret]. change (drop 1 (?c :: ?l)) with l.
  rewrite clock_reads. cbn [bind ret]. by apply time_of_valid.
Qed.

Local Arguments digit : simpl never.

Lemma day_second_reads p :
  (13 <= length p)%nat ->
  day_second ((if d <? 10 then [" "%cc] ++ [d + "0"%cc] else two d) ++ " "%cc :: p)
  = ret (d, " "%cc :: p).
Proof.
  intros Hp. pose proof (valid_date_day _ _ _ Hv) as Hd. unfold day_second.
  destruct (Z.ltb_spec d 10).
  - cbn -[Nat.ltb]. rewrite (digit_at d) by (done || lia). cbn -[Nat.ltb]. by destruct (Nat.ltb_spec (S (length p)) 14); [lia|].
  - cbn -[Nat.ltb]. destruct (Z.eqb_spec (d / 10 + 48) 32); [Z.to_euclidean_division_equations; lia|].
    rewrite (digit_at (d / 10)) by (done || (Z.to_euclidean_division_equations; lia)). cbn -[Nat.ltb].
    destruct (Z.eqb_spec (d mod 10 + 48) 32); [Z.to_euclidean_division_equations; lia|].
    cbn -[Nat.ltb]. rewrite (digit_at (d mod 10)) by (done || (Z.to_euclidean_division_equations; lia)).
    cbn -[Nat.ltb]. destruct (Nat.ltb_spec (S (length p)) 14); [lia|]. unfold ret. repeat f_equal.
    Z.to_euclidean_division_equations; lia.
Qed.

Lemma parse_isoc :
  parse_time (isoc_text wd y m d h mi s ++ rest)
  = ret (date_days y m d * 86400 + h * 3600 + mi * 60 + s).
Proof.
  pose proof (valid_date_day _ _ _ Hv) as Hd. pose proof (proj1 Hv) as Hm.
  unfold isoc_text, parse_time. rewrite <- !app_assoc, find_fmt_weekday by done.
  cbn [app find_fmt Z.eqb Pos.eqb]. cbv zeta. change (drop 1 (" "%cc :: ?l)) with l.
  rewrite skip_blanks_month by lia.
  rewrite long_enough by (date_length; lia). destruct (decide (isoc = isoc)); [|done].
  cbn [bind ret]. edestruct month_reads as [-> ->].
  cbn [bind ret]. change (drop 1 (?c :: ?l)) with l.
  rewrite day_second_reads by (date_length; lia). cbn [bind ret].
  rewrite expect_char_ok. cbn [bind ret]. change (drop 1 (?c :: ?l)) with l.
  rewrite clock_reads. cbn [bind ret]. change (drop 2 (two s ++ ?l)) with l.
  rewrite expect_char_ok. cbn [bind ret]. change (drop 1 (?c :: ?l)) with l.
  rewrite four_digits_four by lia. cbn [bind ret]. by apply time_of_valid.
Qed.
End formats.

(** A step stays inside the text, and what it returns satisfies [Q]. *)
Definition post {A} (e : parse A) (Q : A -> Prop) : Prop :=
  match e with None => False | Some None => True | Some (Some x) => Q x end.

Lemma post_bind {A B} (e : parse A) (k : A -> parse B) Q R :
  post e R -> (forall x, R x -> post (k x) Q) -> post (bind e k) Q.
Proof. destruct e as [[x|]|]; cbn; auto. Qed.

Lemma at_post p k : (k < length p)%nat -> post (at_ p k) (fun _ => True).
Proof. intros H. unfold at_. by destruct (lookup_lt_is_Some_2 p k H) as [c ->]. Qed.

Lemma digit_post p k : (k < length p)%nat -> post (digit p k) (fun _ => True).
Proof.
  intros H. eapply post_bind; [by apply at_post|]. intros c _. cbn. by destruct (_ || _).
Qed.

Lemma two_digits_post p : (2 <= length p)%nat -> post (two_digits p) (fun _ => True).
Proof.
  intros H. eapply post_bind; [apply digit_post; lia|]. intros a _.
  eapply post_bind; [apply digit_post; lia|done].
Qed.

Lemma four_digits_post p : (4 <= length p)%nat -> post (four_digits p) (fun _ => True).
Proof.
  intros H. do 4 (eapply post_bind; [apply digit_post; lia|]; intros ? _). done.
Qed.

Lemma expect_char_post p c : (1 <= length p)%nat -> post (expect_char p c) (fun _ => True).
Proof. intros H. eapply post_bind; [by apply at_post|]. intros x _. cbn. by destruct (negb _). Qed.

Lemma day_first_post p :
  (18 <= length p)%nat ->
  post (day_first p) (fun '(f, _, p') =>
    f = rfc822 /\ (17 <= length p')%nat \/ f = rfc850 /\ (15 <= length p')%nat).
Proof.
  intros H. eapply post_bind; [apply two_digits_post; lia|]. intros d _. cbv zeta.
  eapply post_bind; [apply at_post; rewrite length_drop; lia|]. intros c _. cbv beta.
  destruct (c =? " "%cc).
  - destruct (Nat.ltb_spec (length (drop 2 p)) 18) as [|Hl]; [done|]. left. split; [done|].
    rewrite !length_drop in *. lia.
  - destruct (c =? "-"%cc); [|done]. right. split; [done|]. rewrite !length_drop in *. lia.
Qed.

Lemma month_at_post p : (3 <= length p)%nat -> post (month_at p) (fun m => 0 <= m <= 11).
Proof.
  intros H. eapply post_bind; [apply at_post; lia|]. intros c _.
  repeat match goal with
  | |- post (if ?b then _ else _) _ => destruct b
  | |- post (bind (at_ _ _) _) _ => eapply post_bind; [apply at_post; lia|]; intros ? _
  end; try done; cbn; split_if; lia.
Qed.

Lemma day_second_post p :
  (14 <= length p)%nat -> post (day_second p) (fun '(_, p') => (14 <= length p')%nat).
Proof.
  intros H. eapply post_bind; [apply at_post; lia|]. intros c _. cbv zeta.
  set (p1 := if c =? " "%cc then drop 1 p else p).
  assert (13 <= length p1)%nat as H1 by (subst p1; destruct (_ =? _); rewrite ?length_drop; lia).
  eapply post_bind; [apply digit_post; lia|]. intros d _. cbv beta.
  eapply post_bind; [apply at_post; rewrite length_drop; lia|]. intros c1 _. cbv beta.
  eapply (post_bind _ _ _ (fun _ => True)).
  - destruct (negb _); [|done]. eapply post_bind; [apply digit_post; rewrite length_drop; lia|done].
  - intros [d2 p2] _. by destruct (Nat.ltb_spec (length p2) 14).
Qed.

Lemma clock_post p :
  (8 <= length p)%nat -> post (clock p) (fun '(_, _, _, p') => p' = drop 6 p).
Proof.
  intros H. eapply post_bind; [apply two_digits_post; lia|]. intros h _. cbv zeta.
  eapply post_bind; [apply expect_char_post; rewrite !length_drop; lia|]. intros _ _.
  eapply post_bind; [apply two_digits_post; rewrite !length_drop; lia|]. intros mi _. cbv zeta.
  eapply post_bind; [apply expect_char_post; rewrite !length_drop; lia|]. intros _ _.
  eapply post_bind; [apply two_digits_post; rewrite !length_drop; lia|]. intros s _. cbn.
  by rewrite !drop_drop.
Qed.

Lemma time_of_post d m y h mi s :
  0 <= m <= 11 -> post (time_of d m y h mi s) (fun _ => True).
Proof.
  intros Hm. unfold time_of. destruct (_ || _); [done|].
  destruct (_ && _); [by destruct (_ || _)|].
  eapply post_bind; [apply at_post; cbn; lia|]. intros l _. cbn. by destruct (_ <? _).
Qed.

Lemma parse_time_post value : post (parse_time value) (fun _ => True).
Proof.
  unfold parse_time. destruct (find_fmt value) as [f0 p0]. cbv zeta.
  set (p := skip_blanks (drop 1 p0)). clearbody p.
  destruct (Nat.ltb_spec (length p) 18) as [|Hp]; [done|].
  eapply (post_bind _ _ _ (fun '(f, _, p') =>
    f = isoc /\ (18 <= length p')%nat \/
    f = rfc822 /\ (17 <= length p')%nat \/ f = rfc850 /\ (15 <= length p')%nat)).
  { destruct (decide _); [by left|].
    pose proof (day_first_post p Hp) as H. destruct (day_first p) as [[[[f d] p']|]|]; [|done..].
    cbn in *. by right. }
  intros [[f d] p1] Hf.
  assert (15 <= length p1)%nat by (destruct Hf as [[_ ?]|[[_ ?]|[_ ?]]]; lia).
  eapply post_bind; [apply month_at_post; lia|]. intros m Hm. cbv zeta.
  eapply (post_bind _ _ _ (fun _ => True)).
  { destruct f; (done || (apply expect_char_post; rewrite length_drop; lia)). }
  intros _ _. destruct (decide (f = isoc)) as [->|Hni].
  - eapply post_bind; [apply day_second_post; rewrite !length_drop; destruct Hf as [[_ ?]|[[? _]|[? _]]]; [lia|done..]|]. intros [d2 p2] Hp2.
    eapply post_bind; [apply expect_char_post; lia|]. intros _ _.
    eapply post_bind; [apply clock_post; rewrite length_drop; lia|]. intros [[[h mi] s] p3] ->.
    cbv zeta. eapply post_bind; [apply expect_char_post; rewrite !length_drop; lia|]. intros _ _.
    eapply post_bind; [apply four_digits_post; rewrite !length_drop; lia|]. intros y _.
    by apply time_of_post.
  - eapply (post_bind _ _ _ (fun '(_, p') => (9 <= length p')%nat)).
    { destruct Hf as [[? _]|[[-> ?]|[-> ?]]]; [done|..]; unfold year_second.
      - eapply post_bind; [apply four_digits_post; rewrite !length_drop; lia|]. intros y _. cbn.
        rewrite !length_drop. lia.
      - eapply post_bind; [apply two_digits_post; rewrite !length_drop; lia|]. intros y _. cbn.
        rewrite !length_drop. lia. }
    intros [y p2] Hp2. eapply post_bind; [apply expect_char_post; lia|]. intros _ _.
    eapply post_bind; [apply clock_post; rewrite length_drop; lia|]. intros [[[h mi] s] p3] _.
    by apply time_of_post.
Qed.

(** [ngx_http_parse_time] never reads past the end of the text, whatever
    the text, and on a valid date from 1970 on in one of the three formats of
    RFC 2616 (the two-digit years up to 2069) it returns the seconds from the
    epoch, whatever the name of the day and the text that follows. *)
Theorem parse_time_correct value wd rest y m d h mi s :
  Forall (fun c => c <> ","%cc /\ c <> " "%cc) wd ->
  1970 <= y <= 9999 -> valid_date y m d -> 0 <= h < 24 -> 0 <= mi < 60 -> 0 <= s < 60 ->
  let t := date_days y m d * 86400 + h * 3600 + mi * 60 + s in
  is_Some (ngx_http_parse_time value) /\
  ngx_http_parse_time (rfc822_text wd y m d h mi s ++ rest) = Some t /\
  (y < 2070 -> ngx_http_parse_time (rfc850_text wd y m d h mi s ++ rest) = Some t) /\
  ngx_http_parse_time (isoc_text wd y m d h mi s ++ rest) = Some t.
Proof.
  intros. unfold ngx_http_parse_time. split_and!.
  - pose proof (parse_time_post value) as H'. by destruct (parse_time value) as [[]|].
  - by rewrite parse_rfc822.
  - intros. by rewrite parse_rfc850.
  - by rewrite parse_isoc.
Qed.

Example parse_time_correct_witness :
  ngx_http_parse_time (cstr "Tue, 29 Feb 2000 12:34:56 GMT") = Some 951827696 /\
  ngx_http_parse_time (cstr "Tue Feb 29 12:34:56 2000") = Some 951827696.
Proof.
  destruct (parse_time_correct [] (cstr "Tue") (cstr " GMT") 2000 2 29 12 34 56)
    as (_ & H & _ & _); [by_eval|lia|done|lia..|].
  destruct (parse_time_correct [] (cstr "Tue") [] 2000 2 29 12 34 56)
    as (_ & _ & _ & H'); [by_eval|lia|done|lia..|].
  split; [exact H|exact H'].
Defined.

(** * Printing a date *)

Lemma digits_loop_last room n temp :
  0 <= n < 10 ->
  digits_loop (S room) (fun d => u8 (d + "0"%cc)) 10 n temp = Some (n + "0"%cc :: temp).
Proof.
  intros Hn. cbn [digits_loop]. rewrite Z.mod_small, Z.div_small by lia. cbn.
  by rewrite wrap_small by lia.
Qed.

Lemma digits_loop_more room n temp :
  10 <= n ->
  digits_loop (S room) (fun d => u8 (d + "0"%cc)) 10 n temp =
  digits_loop room (fun d => u8 (d + "0"%cc)) 10 (n / 10) (n mod 10 + "0"%cc :: temp).
Proof.
  intros Hn. cbn [digits_loop].
  destruct (Z.eqb_spec (n / 10) 0); [Z.to_euclidean_division_equations; lia|].
  rewrite wrap_small; [done|]. Z.to_euclidean_division_equations; lia.
Qed.

Lemma number_digits_small n :
  0 <= n < 2 ^ 32 ->
  number_digits n 0 = digits_loop 20 (fun d => u8 (d + "0"%cc)) 10 n [].
Proof.
  intros Hn. unfold number_digits. rewrite (wrap_small 32) by lia.
  change (0 =? 0) with true. cbv iota. destruct (Z.leb_spec n (2 ^ 32 - 1)); [done|lia].
Qed.

Lemma print_two room n :
  0 <= n < 100 -> 2 <= room -> ngx_sprintf_num room n "0"%cc 0 2 = Some (two n).
Proof.
  intros Hn Hr. destruct (Z.lt_ge_cases n 10).
  - rewrite (sprintf_num_full _ _ _ _ _ [n + "0"%cc]); [|rewrite number_digits_small by lia|cbn; lia..].
    + unfold two. rewrite Z.div_small, Z.mod_small by lia. reflexivity.
    + apply digits_loop_last. lia.
  - rewrite (sprintf_num_full _ _ _ _ _ (two n)); [done| |cbn; lia..].
    rewrite number_digits_small, digits_loop_more by lia.
    apply digits_loop_last. Z.to_euclidean_division_equations; lia.
Qed.

Lemma print_four room n :
  1000 <= n <= 9999 -> 4 <= room -> ngx_sprintf_num room n " "%cc 0 4 = Some (four n).
Proof.
  intros Hn Hr. rewrite (sprintf_num_full _ _ _ _ _ (four n)); [done| |cbn; lia..].
  rewrite number_digits_small by lia.
  do 3 rewrite digits_loop_more by (Z.to_euclidean_division_equations; lia).
  rewrite digits_loop_last by (Z.to_euclidean_division_equations; lia).
  unfold four, two. cbn [app].
  f_equal. do 4 (apply (f_equal2 cons); [Z.to_euclidean_division_equations; lia|]). done.
Qed.

(** One directive or character of a format. *)
Lemma vslprintf_loop_char fuel room c fmt args out :
  0 < room -> c <> "%"%cc ->
  vslprintf_loop fuel (room - 1) fmt args = Some out ->
  vslprintf_loop (S fuel) room (c :: fmt) args = Some (c :: out).
Proof.
  intros Hr Hc E. cbn [vslprintf_loop]. destruct (Z.leb_spec room 0); [lia|].
  destruct (Z.eqb_spec c "%"%cc); [done|]. by rewrite E.
Qed.

Lemma loop_directive fuel room fmt args out fmt' args' rest :
  0 < room -> run_directive room fmt args = Some (out, fmt', args') ->
  vslprintf_loop fuel (room - Z.of_nat (length out)) fmt' args' = Some rest ->
  vslprintf_loop (S fuel) room ("%"%cc :: fmt) args = Some (out ++ rest).
Proof.
  intros Hr E E'. cbn [vslprintf_loop]. destruct (Z.leb_spec room 0); [lia|].
  change ("%"%cc =? "%"%cc) with true. cbv iota. rewrite E. cbn [mbind option_bind]. by rewrite E'.
Qed.

Lemma run_string room s fmt args :
  Forall (fun c => c <> 0) s -> Z.of_nat (length s) <= room ->
  run_directive room ("s"%cc :: fmt) (va_ptr (s ++ [0]) :: args) = Some (s, fmt, args).
Proof.
  intros Hs Hr. unfold run_directive, conversion. cbn. 
  assert (copy_string room (s ++ [0]) = Some s) as ->; [|done].
  revert room Hr. induction Hs as [|c s Hc _ IH]; intros room Hr; cbn [app copy_string]; [done|].
  destruct (Z.eqb_spec c 0); [done|]. cbn in Hr. destruct (Z.leb_spec room 0); [lia|].
  cbn [orb]. by rewrite IH by lia.
Qed.

Lemma run_two room n fmt args :
  0 <= n < 100 -> 2 <= room ->
  run_directive room (cstr "02d" ++ fmt) (va_int n :: args) = Some (two n, fmt, args).
Proof.
  intros Hn Hr. unfold run_directive, conversion. cbn.
  unfold write_number. cbn. rewrite (swrap_small 32) by lia.
  destruct (Z.ltb_spec n 0); [lia|]. rewrite (wrap_small 64 n) by lia.
  change (wrap 64 _) with 2. by rewrite print_two.
Qed.

Lemma run_four room n fmt args :
  1000 <= n <= 9999 -> 4 <= room ->
  run_directive room (cstr "4d" ++ fmt) (va_int n :: args) = Some (four n, fmt, args).
Proof.
  intros Hn Hr. unfold run_directive, conversion. cbn.
  unfold write_number. cbn. rewrite (swrap_small 32) by lia.
  destruct (Z.ltb_spec n 0); [lia|]. rewrite (wrap_small 64 n) by lia.
  change (wrap 64 _) with 4. by rewrite print_four.
Qed.

Lemma name_at_week i :
  0 <= i < 7 -> exists wd, name_at week i = Some (va_ptr (wd ++ [0])) /\ length wd = 3%nat /\
    Forall (fun c => c <> 0 /\ c <> ","%cc /\ c <> " "%cc) wd.
Proof.
  intros Hi.
  assert (i = 0 \/ i = 1 \/ i = 2 \/ i = 3 \/ i = 4 \/ i = 5 \/ i = 6) as Hc by lia.
  repeat destruct Hc as [->|Hc]; [..|subst i]; (eexists; split; [reflexivity|]); by_eval.
Qed.

Lemma name_at_month m :
  1 <= m <= 12 -> name_at months (m - 1) = Some (va_ptr (month_name m ++ [0])) /\
    Forall (fun c => c <> 0) (month_name m).
Proof.
  intros Hm. pose proof (month_cases m Hm) as Hc.
  repeat destruct Hc as [->|Hc]; [..|subst m]; (split; [reflexivity|by_eval]).
Qed.

Lemma rfc822_printed room wd y m d h mi s :
  length wd = 3%nat -> Forall (fun c => c <> 0) wd ->
  1970 <= y <= 9999 -> valid_date y m d -> 0 <= h < 24 -> 0 <= mi < 60 -> 0 <= s < 60 ->
  29 <= room ->
  ngx_vslprintf room (cstr "%s, %02d %s %4d %02d:%02d:%02d GMT")
    [va_ptr (wd ++ [0]); va_int d; va_ptr (month_name m ++ [0]); va_int y; va_int h; va_int mi; va_int s]
  = Some (rfc822_text wd y m d h mi s ++ cstr " GMT").
Proof.
  intros Hwl Hwz Hy Hv Hh Hmi Hs Hr.
  pose proof (proj1 Hv) as Hm. pose proof (valid_date_day _ _ _ Hv) as Hd.
  destruct (name_at_month m Hm) as [_ Hmz]. pose proof (month_name_length m Hm) as Hml.
  unfold ngx_vslprintf, rfc822_text. rewrite <- !app_assoc.
  change (length (cstr _)) with 34%nat.
  change (cstr "%s, %02d %s %4d %02d:%02d:%02d GMT") with
    ("%"%cc :: "s"%cc :: ","%cc :: " "%cc :: "%"%cc :: cstr "02d" ++ " "%cc :: "%"%cc :: "s"%cc ::
     " "%cc :: "%"%cc :: cstr "4d" ++ " "%cc :: "%"%cc :: cstr "02d" ++ ":"%cc :: "%"%cc ::
     cstr "02d" ++ ":"%cc :: "%"%cc :: cstr "02d" ++ cstr " GMT").
  cbn [app].
  eapply loop_directive; [lia|apply run_string; [done|lia]|].
  do 2 (eapply vslprintf_loop_char; [lia|done|]).
  eapply loop_directive; [lia|apply run_two; lia|]. change (length (two _)) with 2%nat.
  eapply vslprintf_loop_char; [lia|done|].
  eapply loop_directive; [lia|apply run_string; [done|lia]|].
  eapply vslprintf_loop_char; [lia|done|].
  eapply loop_directive; [lia|apply run_four; lia|]. change (length (four _)) with 4%nat.
  eapply vslprintf_loop_char; [lia|done|].
  do 2 (eapply loop_directive; [lia|apply run_two; lia|]; change (length (two _)) with 2%nat;
    eapply vslprintf_loop_char; [lia|done|]).
  eapply loop_directive; [lia|apply run_two; lia|]. change (length (two _)) with 2%nat.
  do 4 (eapply vslprintf_loop_char; [lia|done|]). done.
Qed.

Lemma year_bound y m d :
  1970 <= y -> valid_date y m d -> date_days y m d < 2932897 -> y <= 9999.
Proof.
  intros Hy Hv H. pose proof (proj1 Hv). pose proof (valid_date_day _ _ _ Hv).
  rewrite gauss_days in H by lia. unfold march_days in H.
  destruct (Z.leb_spec m 2); Z.to_euclidean_division_equations; lia.
Qed.

(** Up to the end of the year 9999 [ngx_http_time] writes exactly the 29
    bytes its buffers are sized for, and [ngx_http_parse_time] reads the time
    back from them. *)
Theorem http_time_roundtrip buf t :
  0 <= t < 253402300800 -> 0 <= buf -> buf + 29 < 2 ^ 64 ->
  exists text, ngx_http_time buf t = Some text /\
    length text = length (cstr "Mon, 28 Sep 1970 06:00:00 GMT") /\
    ngx_http_parse_time text = Some t.
Proof.
  intros Ht Hb Hbuf. destruct (gmtime_date t ltac:(lia)) as (y & m & d & Hy & Hv & Hdays & E).
  unfold ngx_http_time. rewrite E. cbn [tm_year tm_mon tm_mday tm_hour tm_min tm_sec tm_wday].
  destruct (name_at_week ((4 + t / 86400) mod 7)) as (wd & -> & Hwl & Hwd);
    [Z.to_euclidean_division_equations; lia|].
  apply Forall_and in Hwd as [Hwz Hwd]. destruct (name_at_month m (proj1 Hv)) as [-> _].
  assert (y <= 9999) as Hy'.
  { eapply year_bound; [lia|done|]. rewrite Hdays. Z.to_euclidean_division_equations; lia. }
  cbn [mbind option_bind]. unfold ngx_sprintf. rewrite rfc822_printed;
    [|done|done|lia|done|Z.to_euclidean_division_equations; lia..|lia].
  eexists. split; [reflexivity|]. split.
  - unfold rfc822_text. rewrite !length_app, month_name_length by apply Hv. cbn [length cstr].
    rewrite Hwl. reflexivity.
  - unfold ngx_http_parse_time. rewrite parse_rfc822;
      [|done|lia|done|Z.to_euclidean_division_equations; lia..].
    rewrite Hdays. f_equal. Z.to_euclidean_division_equations; lia.
Qed.

Example http_time_roundtrip_witness :
  ngx_http_time 4096 784111777 = Some (cstr "Sun, 06 Nov 1994 08:49:37 GMT") /\
  ngx_http_parse_time (cstr "Sun, 06 Nov 1994 08:49:37 GMT") = Some 784111777.
Proof.
  destruct (http_time_roundtrip 4096 784111777) as (text & E & _ & H); [lia..|].
  vm_compute in E. injection E as <-. split; [vm_compute; reflexivity|exact H].
Defined.

(** What the checks let through: a day 00, any letters after the first of a
    month's name, and a time before 1970, of which one is [NGX_ERROR]. *)
Example parse_time_lenient :
  ngx_http_parse_time (cstr "Sun, 00 Nov 1994 08:49:37") = Some 783593377 /\
  ngx_http_parse_time (cstr "Sun, 31 Oct 1994 08:49:37") = Some 783593377 /\
  ngx_http_parse_time (cstr "Sun, 06 Fxx 1994 08:49:37") = Some 760524577 /\
  ngx_http_parse_time (cstr "Wed, 31 Dec 1969 23:59:59") = Some NGX_ERROR.
Proof. vm_compute. done. Qed.
