(* ===== verification/NgxStore.v ===== *)
(** Code that works on linked structures: a state monad whose state holds the
    objects by address, and what its steps do.

    An address is a [Z], [NULL] is 0, and an object is a record of its fields.
    Reading or writing through an address that holds no object (a null pointer
    in particular) has no result: [None]. *)

From S2P Require Import Prelude.
From stdpp Require Export gmap.

Open Scope Z_scope.

Abbreviation loc := Z (only parsing).
Definition NULL : loc := 0.

(** * The monad *)

Definition M (S A : Type) : Type := S -> option (A * S).

Section monad.
Context {S : Type}.

Definition mret {A} (x : A) : M S A := fun s => Some (x, s).

Definition mthen {A B} (m : M S A) (k : A -> M S B) : M S B :=
  fun s => match m s with Some (x, s') => k x s' | None => None end.

Definition mstuck {A} : M S A := fun _ => None.

Definition mget {A} (f : S -> A) : M S A := fun s => Some (f s, s).

Definition mput (f : S -> S) : M S unit := fun s => Some (tt, f s).

Lemma mthen_run {A B} (m : M S A) (k : A -> M S B) s x s' :
  m s = Some (x, s') -> mthen m k s = k x s'.
Proof. unfold mthen. by intros ->. Qed.

Lemma mthen_assoc {A B C} (m : M S A) (k : A -> M S B) (j : B -> M S C) s :
  mthen (mthen m k) j s = mthen m (fun x => mthen (k x) j) s.
Proof. unfold mthen. by destruct (m s) as [[x s']|]. Qed.

End monad.

Declare Scope store_scope.
Delimit Scope store_scope with store.
Notation "x <-- m ; k" := (mthen m (fun x => k))
  (at level 100, m at next level, k at level 200, right associativity) : store_scope.
Notation "m ;; k" := (mthen m (fun _ => k))
  (at level 100, k at level 200, right associativity) : store_scope.

(** * Objects in the state

    A class gives the part of a state that holds the objects of one type. *)

Class Objects (S O : Type) := {
  objects : S -> gmap loc O;
  set_objects : gmap loc O -> S -> S;
  objects_set : forall h s, objects (set_objects h s) = h;
}.

Section objects.
Context {S O : Type} `{Objects S O}.

(** [*p] *)
Definition load (p : loc) : M S O :=
  fun s => match objects s !! p with Some o => Some (o, s) | None => None end.

(** [*p] changed by [f] *)
Definition update (p : loc) (f : O -> O) : M S unit :=
  fun s => match objects s !! p with
           | Some o => Some (tt, set_objects (<[p := f o]> (objects s)) s)
           | None => None
           end.

Lemma load_run p o s : objects s !! p = Some o -> load p s = Some (o, s).
Proof. unfold load. by intros ->. Qed.

Lemma update_run p f o s :
  objects s !! p = Some o -> update p f s = Some (tt, set_objects (<[p := f o]> (objects s)) s).
Proof. unfold update. by intros ->. Qed.

End objects.
