(* ===== verification/NgxRbtree.v ===== *)
(** The red-black tree of src/core/ngx_rbtree.c and src/core/ngx_rbtree.h, on
    nodes linked by pointers: [ngx_rbtree_insert], [ngx_rbtree_delete],
    [ngx_rbtree_min], the rotations, and the insert functions a tree is given.

    [tree->sentinel] does not change after [ngx_rbtree_init] and is a parameter
    of the definitions; the state is [tree->root] and the nodes by address.  The
    byte [data] of a node is not touched by this code and is left out. *)

From stdpp Require Import sorting.
From S2P Require Import Prelude NgxStore.

Open Scope Z_scope.
Open Scope store_scope.

(** * Nodes *)

Record ngx_rbtree_node_t := mk_node {
  key : Z;
  left : loc;
  right : loc;
  parent : loc;
  color : Z;
}.

#[export] Instance eta_node : EtaRecord ngx_rbtree_node_t := fun n =>
  mk_node (key n) (left n) (right n) (parent n) (color n).
#[export] Instance set_key : FieldSetter key := ltac:(field_setter).
#[export] Instance set_left : FieldSetter left := ltac:(field_setter).
#[export] Instance set_right : FieldSetter right := ltac:(field_setter).
#[export] Instance set_parent : FieldSetter parent := ltac:(field_setter).
#[export] Instance set_color : FieldSetter color := ltac:(field_setter).

Record ngx_rbtree_t := mk_tree {
  root : loc;
  nodes : gmap loc ngx_rbtree_node_t;
}.

#[export] Program Instance tree_nodes : Objects ngx_rbtree_t ngx_rbtree_node_t := {
  objects := nodes;
  set_objects h s := mk_tree (root s) h;
}.
Next Obligation. done. Qed.

Abbreviation MT := (M ngx_rbtree_t).

(** [p->f] and [p->f = v] *)
Definition get {A} (f : ngx_rbtree_node_t -> A) (p : loc) : MT A := n <-- load p; mret (f n).

Definition put {A} (f : ngx_rbtree_node_t -> A) `{!FieldSetter f} (p : loc) (v : A) : MT unit :=
  update p (fun n => n <| f := v |>).

(** [*root = p] *)
Definition set_root (p : loc) : MT unit := mput (fun s => mk_tree p (nodes s)).

Definition ngx_rbt_red (p : loc) : MT unit := put color p 1.
Definition ngx_rbt_black (p : loc) : MT unit := put color p 0.
Definition ngx_rbt_is_red (p : loc) : MT bool := c <-- get color p; mret (negb (c =? 0)).
Definition ngx_rbt_is_black (p : loc) : MT bool := c <-- get color p; mret (c =? 0).
Definition ngx_rbt_copy_color (n1 n2 : loc) : MT unit := c <-- get color n2; put color n1 c.

Section operations.
Context (sentinel : loc).

(** [ngx_rbtree_init]; the sentinel's other fields are whatever they were. *)
Definition ngx_rbtree_init : MT unit := ngx_rbt_black sentinel ;; set_root sentinel.

(** * Rotations *)

Definition ngx_rbtree_left_rotate (node : loc) : MT unit :=
  temp <-- get right node;
  tl <-- get left temp;
  put right node tl ;;
  (if negb (tl =? sentinel) then put parent tl node else mret tt) ;;
  up <-- get parent node;
  put parent temp up ;;
  r <-- mget root;
  (if node =? r then set_root temp
   else
     ul <-- get left up;
     if node =? ul then put left up temp else put right up temp) ;;
  put left temp node ;;
  put parent node temp.

Definition ngx_rbtree_right_rotate (node : loc) : MT unit :=
  temp <-- get left node;
  tr <-- get right temp;
  put left node tr ;;
  (if negb (tr =? sentinel) then put parent tr node else mret tt) ;;
  up <-- get parent node;
  put parent temp up ;;
  r <-- mget root;
  (if node =? r then set_root temp
   else
     ur <-- get right up;
     if node =? ur then put right up temp else put left up temp) ;;
  put right temp node ;;
  put parent node temp.

(** * Insertion *)

(** The loop of the insert functions: [less n t] is the test that sends the
    node [n] to the left of [t], each given by its address and its key. *)
Fixpoint insert_loop (less : loc * Z -> loc * Z -> bool)
  (fuel : nat) (temp node : loc) : MT (loc * bool) :=
  match fuel with
  | O => mstuck
  | S fuel' =>
      n <-- load node;
      t <-- load temp;
      let to_left := less (node, key n) (temp, key t) in
      let p := if to_left then left t else right t in
      if p =? sentinel then mret (temp, to_left) else insert_loop less fuel' p node
  end.

(** The loop, then the node linked as a red leaf. *)
Definition insert_by (less : loc * Z -> loc * Z -> bool)
  (temp node : loc) : MT unit :=
  fuel <-- mget (fun s => size (nodes s));
  r <-- insert_loop less fuel temp node;
  let '(temp, is_left) := r in
  (if is_left : bool then put left temp node else put right temp node) ;;
  put parent node temp ;;
  put left node sentinel ;;
  put right node sentinel ;;
  ngx_rbt_red node.

Definition ngx_rbtree_insert_value : loc -> loc -> MT unit :=
  insert_by (fun n t => n.2 <? t.2).

Definition ngx_rbtree_insert_timer_value : loc -> loc -> MT unit :=
  insert_by (fun n t => i64 (i64 n.2 - i64 t.2) <? 0).

(** The [while] that re-balances the tree. *)
Fixpoint insert_fixup (fuel : nat) (node : loc) : MT unit :=
  r <-- mget root;
  if node =? r then mret tt
  else
    up <-- get parent node;
    red <-- ngx_rbt_is_red up;
    if negb red then mret tt
    else match fuel with
    | O => mstuck
    | S fuel' =>
        grand <-- get parent up;
        gl <-- get left grand;
        if up =? gl then
          temp <-- get right grand;
          tred <-- ngx_rbt_is_red temp;
          if (tred : bool) then
            ngx_rbt_black up ;;
            ngx_rbt_black temp ;;
            ngx_rbt_red grand ;;
            insert_fixup fuel' grand
          else
            ur <-- get right up;
            node <-- (if node =? ur
                      then ngx_rbtree_left_rotate up ;; mret up
                      else mret node);
            up <-- get parent node;
            ngx_rbt_black up ;;
            grand <-- get parent up;
            ngx_rbt_red grand ;;
            ngx_rbtree_right_rotate grand ;;
            insert_fixup fuel' node
        else
          temp <-- get left grand;
          tred <-- ngx_rbt_is_red temp;
          if (tred : bool) then
            ngx_rbt_black up ;;
            ngx_rbt_black temp ;;
            ngx_rbt_red grand ;;
            insert_fixup fuel' grand
          else
            ul <-- get left up;
            node <-- (if node =? ul
                      then ngx_rbtree_right_rotate up ;; mret up
                      else mret node);
            up <-- get parent node;
            ngx_rbt_black up ;;
            grand <-- get parent up;
            ngx_rbt_red grand ;;
            ngx_rbtree_left_rotate grand ;;
            insert_fixup fuel' node
    end.

(** [insert] is [tree->insert]. *)
Definition ngx_rbtree_insert (insert : loc -> loc -> MT unit) (node : loc) : MT unit :=
  r <-- mget root;
  if r =? sentinel then
    put parent node NULL ;;
    put left node sentinel ;;
    put right node sentinel ;;
    ngx_rbt_black node ;;
    set_root node
  else
    insert r node ;;
    fuel <-- mget (fun s => size (nodes s));
    insert_fixup fuel node ;;
    r <-- mget root;
    ngx_rbt_black r.

(** * Deletion *)

Fixpoint min_loop (fuel : nat) (node : loc) : MT loc :=
  l <-- get left node;
  if l =? sentinel then mret node
  else match fuel with O => mstuck | S fuel' => min_loop fuel' l end.

Definition ngx_rbtree_min (node : loc) : MT loc :=
  fuel <-- mget (fun s => size (nodes s));
  min_loop fuel node.

(** The body of the delete fixup for a [temp] in the left of its parent, once
    its sibling [w] is black; [again] is the next turn of the loop. *)
Definition delete_left_black (again : loc -> MT loc) (temp w : loc) : MT loc :=
  wl <-- get left w;
  lblack <-- ngx_rbt_is_black wl;
  wr <-- get right w;
  rblack <-- (if (lblack : bool) then ngx_rbt_is_black wr else mret false);
  if (lblack : bool) && rblack then
    ngx_rbt_red w ;;
    up <-- get parent temp;
    again up
  else
    rblack <-- ngx_rbt_is_black wr;
    w <-- (if (rblack : bool) then
             ngx_rbt_black wl ;;
             ngx_rbt_red w ;;
             ngx_rbtree_right_rotate w ;;
             up <-- get parent temp;
             get right up
           else mret w);
    up <-- get parent temp;
    ngx_rbt_copy_color w up ;;
    ngx_rbt_black up ;;
    wr <-- get right w;
    ngx_rbt_black wr ;;
    ngx_rbtree_left_rotate up ;;
    r <-- mget root;
    again r.

Definition delete_left (again : loc -> MT loc) (temp up : loc) : MT loc :=
  w <-- get right up;
  wred <-- ngx_rbt_is_red w;
  w <-- (if (wred : bool) then
           ngx_rbt_black w ;;
           ngx_rbt_red up ;;
           ngx_rbtree_left_rotate up ;;
           up <-- get parent temp;
           get right up
         else mret w);
  delete_left_black again temp w.

(** The same for a [temp] in the right of its parent. *)
Definition delete_right_black (again : loc -> MT loc) (temp w : loc) : MT loc :=
  wl <-- get left w;
  lblack <-- ngx_rbt_is_black wl;
  wr <-- get right w;
  rblack <-- (if (lblack : bool) then ngx_rbt_is_black wr else mret false);
  if (lblack : bool) && rblack then
    ngx_rbt_red w ;;
    up <-- get parent temp;
    again up
  else
    lblack <-- ngx_rbt_is_black wl;
    w <-- (if (lblack : bool) then
             ngx_rbt_black wr ;;
             ngx_rbt_red w ;;
             ngx_rbtree_left_rotate w ;;
             up <-- get parent temp;
             get left up
           else mret w);
    up <-- get parent temp;
    ngx_rbt_copy_color w up ;;
    ngx_rbt_black up ;;
    wl <-- get left w;
    ngx_rbt_black wl ;;
    ngx_rbtree_right_rotate up ;;
    r <-- mget root;
    again r.

Definition delete_right (again : loc -> MT loc) (temp up : loc) : MT loc :=
  w <-- get left up;
  wred <-- ngx_rbt_is_red w;
  w <-- (if (wred : bool) then
           ngx_rbt_black w ;;
           ngx_rbt_red up ;;
           ngx_rbtree_right_rotate up ;;
           up <-- get parent temp;
           get left up
         else mret w);
  delete_right_black again temp w.

(** The [while] of the delete fixup; the result is the last [temp]. *)
Fixpoint delete_fixup (fuel : nat) (temp : loc) : MT loc :=
  r <-- mget root;
  if temp =? r then mret temp
  else
    black <-- ngx_rbt_is_black temp;
    if negb black then mret temp
    else match fuel with
    | O => mstuck
    | S fuel' =>
        up <-- get parent temp;
        ul <-- get left up;
        if temp =? ul then delete_left (delete_fixup fuel') temp up
        else delete_right (delete_fixup fuel') temp up
    end.

(** The "DEBUG stuff". *)
Definition clear_node (node : loc) : MT unit :=
  put left node NULL ;;
  put right node NULL ;;
  put parent node NULL ;;
  put key node 0.

(** [temp] and [subst] *)
Definition delete_subst (node : loc) : MT (loc * loc) :=
  l <-- get left node;
  if l =? sentinel then
    r <-- get right node;
    mret (r, node)
  else
    r <-- get right node;
    if r =? sentinel then
      mret (l, node)
    else
      subst <-- ngx_rbtree_min r;
      sl <-- get left subst;
      if negb (sl =? sentinel) then mret (sl, subst)
      else sr <-- get right subst; mret (sr, subst).

(** [subst] takes the place of [node]. *)
Definition replace_node (node subst temp : loc) : MT unit :=
  sp <-- get parent subst;
  (if sp =? node then put parent temp subst else put parent temp sp) ;;
  nl <-- get left node;
  put left subst nl ;;
  nr <-- get right node;
  put right subst nr ;;
  np <-- get parent node;
  put parent subst np ;;
  ngx_rbt_copy_color subst node ;;
  r <-- mget root;
  (if node =? r then set_root subst
   else
     npl <-- get left np;
     if node =? npl then put left np subst else put right np subst) ;;
  sl <-- get left subst;
  (if negb (sl =? sentinel) then put parent sl subst else mret tt) ;;
  sr <-- get right subst;
  (if negb (sr =? sentinel) then put parent sr subst else mret tt).

Definition ngx_rbtree_delete (node : loc) : MT unit :=
  ts <-- delete_subst node;
  let '(temp, subst) := ts in
  r <-- mget root;
  if subst =? r then
    set_root temp ;;
    ngx_rbt_black temp ;;
    clear_node node
  else
    red <-- ngx_rbt_is_red subst;
    sp <-- get parent subst;
    spl <-- get left sp;
    (if subst =? spl then put left sp temp else put right sp temp) ;;
    (if subst =? node then put parent temp sp else replace_node node subst temp) ;;
    clear_node node ;;
    if (red : bool) then mret tt
    else
      fuel <-- mget (fun s => size (nodes s));
      temp <-- delete_fixup fuel temp;
      ngx_rbt_black temp.

End operations.

(** Three insertions and a deletion: 2 is the root with 1 and 3 below. *)
Example insert_delete_small :
  let node k := mk_node k 0 0 0 0 in
  let t0 := mk_tree 0 {[ 100 := node 0; 11 := node 1; 12 := node 2; 13 := node 3 ]} in
  let ins := ngx_rbtree_insert 100 (ngx_rbtree_insert_value 100) in
  (fun '(_, t) => (root t, color <$> nodes t !! 12, left <$> nodes t !! 12, right <$> nodes t !! 12)) <$>
    (ngx_rbtree_init 100 ;; ins 11 ;; ins 12 ;; ins 13 ;; ngx_rbtree_delete 100 11) t0
  = Some (12, Some 0, Some 100, Some 13).
Proof. vm_compute. reflexivity. Qed.

(** * Trees and contexts

    The shape the pointers draw: a tree of nodes with their addresses, keys and
    colours, and the path from a subtree up to the root. *)

Inductive tree :=
  | E
  | T (red : bool) (l : tree) (x : loc) (k : Z) (r : tree).

#[export] Instance tree_eq_dec : EqDecision tree.
Proof. solve_decision. Defined.

Inductive frame :=
  | InLeft (red : bool) (x : loc) (k : Z) (r : tree)
  | InRight (red : bool) (l : tree) (x : loc) (k : Z).

#[export] Instance frame_eq_dec : EqDecision frame.
Proof. solve_decision. Defined.

Definition fill (f : frame) (t : tree) : tree :=
  match f with
  | InLeft c x k r => T c t x k r
  | InRight c l x k => T c l x k t
  end.

(** The innermost frame comes first. *)
Fixpoint plug (ctx : list frame) (t : tree) : tree :=
  match ctx with
  | [] => t
  | f :: ctx' => plug ctx' (fill f t)
  end.

Lemma plug_app ctx ctx' t : plug (ctx ++ ctx') t = plug ctx' (plug ctx t).
Proof. revert t. induction ctx as [|f ctx IH]; intros t; [done|]. apply IH. Qed.

Definition b2c (red : bool) : Z := if red then 1 else 0.

(** How often an address occurs. *)
Definition hit (x q : loc) : nat := if decide (x = q) then 1 else 0.

Fixpoint occ (q : loc) (t : tree) : nat :=
  match t with
  | E => 0
  | T _ l x _ r => occ q l + hit x q + occ q r
  end.

Fixpoint occ_ctx (q : loc) (ctx : list frame) : nat :=
  match ctx with
  | [] => 0
  | InLeft _ x _ r :: ctx' => hit x q + occ q r + occ_ctx q ctx'
  | InRight _ l x _ :: ctx' => occ q l + hit x q + occ_ctx q ctx'
  end.

Lemma hit_eq x : hit x x = 1%nat.
Proof. unfold hit. by rewrite decide_True. Qed.

Lemma hit_ne x q : hit x q = 0%nat <-> x <> q.
Proof. unfold hit. by destruct (decide (x = q)). Qed.

Section shapes.
Context (sentinel : loc).

Definition ptr (t : tree) : loc := match t with E => sentinel | T _ _ x _ _ => x end.

(** The nodes in memory are those of the tree, below [par]. *)
Fixpoint tree_in (h : gmap loc ngx_rbtree_node_t) (par : loc) (t : tree) : Prop :=
  match t with
  | E => True
  | T c l x k r =>
      h !! x = Some (mk_node k (ptr l) (ptr r) par (b2c c)) /\ tree_in h x l /\ tree_in h x r
  end.

(** The same for a context whose hole is the pointer [p]; [par] is what its
    [parent] has to be, any value at the root. *)
Fixpoint ctx_in (h : gmap loc ngx_rbtree_node_t) (rt : loc) (ctx : list frame) (p par : loc) : Prop :=
  match ctx with
  | [] => rt = p
  | InLeft c x k r :: ctx' =>
      par = x /\ tree_in h x r /\
      exists par', h !! x = Some (mk_node k p (ptr r) par' (b2c c)) /\ ctx_in h rt ctx' x par'
  | InRight c l x k :: ctx' =>
      par = x /\ tree_in h x l /\
      exists par', h !! x = Some (mk_node k (ptr l) p par' (b2c c)) /\ ctx_in h rt ctx' x par'
  end.

(** Every address occurs once, and none is the sentinel, which is black. *)
Definition distinct (ctx : list frame) (t : tree) : Prop :=
  (forall q, (occ_ctx q ctx + occ q t <= 1)%nat) /\
  (occ_ctx sentinel ctx + occ sentinel t = 0)%nat.

Definition sentinel_in (h : gmap loc ngx_rbtree_node_t) : Prop :=
  exists n, h !! sentinel = Some n /\ color n = 0.

Definition rep (s : ngx_rbtree_t) (ctx : list frame) (t : tree) : Prop :=
  distinct ctx t /\ sentinel_in (nodes s) /\
  exists par, ctx_in (nodes s) (root s) ctx (ptr t) par /\ tree_in (nodes s) par t.

(** Moving the focus. *)
Lemma rep_left s ctx c l x k r :
  rep s ctx (T c l x k r) <-> rep s (InLeft c x k r :: ctx) l.
Proof.
  unfold rep, distinct. cbn. split.
  - intros ((Hd & Hs) & Hse & par & Hc & Hx & Hl & Hr). split_and!; [|lia|done|].
    { intros q. specialize (Hd q). lia. }
    exists x. split_and!; [done|done| |done]. by exists par.
  - intros ((Hd & Hs) & Hse & par & (-> & Hr & par' & Hx & Hc) & Hl). split_and!; [|lia|done|].
    { intros q. specialize (Hd q). lia. }
    by exists par'.
Qed.

Lemma rep_right s ctx c l x k r :
  rep s ctx (T c l x k r) <-> rep s (InRight c l x k :: ctx) r.
Proof.
  unfold rep, distinct. cbn. split.
  - intros ((Hd & Hs) & Hse & par & Hc & Hx & Hl & Hr). split_and!; [|lia|done|].
    { intros q. specialize (Hd q). lia. }
    exists x. split_and!; [done|done| |done]. by exists par.
  - intros ((Hd & Hs) & Hse & par & (-> & Hl & par' & Hx & Hc) & Hr). split_and!; [|lia|done|].
    { intros q. specialize (Hd q). lia. }
    by exists par'.
Qed.

(** Changes elsewhere. *)
Lemma tree_in_insert h q n par t :
  occ q t = 0%nat -> tree_in h par t -> tree_in (<[q := n]> h) par t.
Proof.
  revert par. induction t as [|c l IHl x k r IHr]; intros par Hq; [done|]. cbn in *.
  assert (x <> q) by (apply hit_ne; lia). rewrite lookup_insert_ne by done.
  intros (? & ? & ?). split_and!; [done|apply IHl; [lia|done]|apply IHr; [lia|done]].
Qed.

Lemma ctx_in_insert h q n rt ctx p par :
  occ_ctx q ctx = 0%nat -> ctx_in h rt ctx p par -> ctx_in (<[q := n]> h) rt ctx p par.
Proof.
  revert p par. induction ctx as [|f ctx IH]; intros p par Hq; [done|].
  destruct f; cbn in *; assert (x <> q) by (apply hit_ne; lia); rewrite lookup_insert_ne by done;
    intros (? & ? & par' & ? & ?); (split_and!; [done|apply tree_in_insert; [lia|done]|]);
    exists par'; (split; [done|]); apply IH; (lia || done).
Qed.

Lemma ptr_sentinel t : occ sentinel t = 0%nat -> ptr t = sentinel -> t = E.
Proof. destruct t; [done|]. cbn. intros H ->. rewrite hit_eq in H. lia. Qed.
End shapes.

(** * One step at a time *)

Lemma get_run {A} (f : ngx_rbtree_node_t -> A) p n rt h :
  h !! p = Some n -> get f p (mk_tree rt h) = Some (f n, mk_tree rt h).
Proof. unfold get, load, mthen, mret. cbn. by intros ->. Qed.

Lemma put_run {A} (f : ngx_rbtree_node_t -> A) `{!FieldSetter f} p n v rt h :
  h !! p = Some n ->
  put f p v (mk_tree rt h) = Some (tt, mk_tree rt (<[p := n <| f := v |>]> h)).
Proof. unfold put, update. cbn. by intros ->. Qed.

(** What an address holds after some changes. *)
Ltac find_node :=
  repeat match goal with
  | |- <[?p := _]> _ !! ?p = _ => apply lookup_insert_eq
  | |- <[?q := _]> _ !! ?p = _ => rewrite (lookup_insert_ne _ q p) by congruence
  | H : ?h !! ?p = _ |- ?h !! ?p = _ => exact H
  | H : forall z, _ -> ?h !! z = _ |- ?h !! ?p = _ => rewrite H by lia
  end.

(** Run the first command of the program. *)
Ltac step1 :=
  lazymatch goal with
  | |- context [mthen (get _ _) _ _] => erewrite mthen_run; [|eapply get_run; find_node]
  | |- context [mthen (put _ _ _) _ _] => erewrite mthen_run; [|eapply put_run; find_node]
  | |- context [mthen (mget _) _ _] => erewrite mthen_run; [|reflexivity]
  | |- context [mthen (mret _) _ _] => erewrite mthen_run; [|reflexivity]
  end; cbn beta iota delta [root key left right parent color
    set_field set_key set_left set_right set_parent set_color].
Ltac steps := repeat step1.

Section rotate.
Context (sentinel : loc).

Lemma tree_in_frame h h' par t :
  (forall z, (occ z t <> 0)%nat -> h' !! z = h !! z) -> tree_in sentinel h par t ->
  tree_in sentinel h' par t.
Proof.
  revert par. induction t as [|c l IHl x k r IHr]; intros par Hf; [done|]. cbn in *.
  intros (? & ? & ?). rewrite Hf by (rewrite hit_eq; lia).
  split_and!; [done|apply IHl; [intros; apply Hf; lia|done]|apply IHr; [intros; apply Hf; lia|done]].
Qed.

Lemma ctx_in_frame h h' rt ctx p par :
  (forall z, (occ_ctx z ctx <> 0)%nat -> h' !! z = h !! z) -> ctx_in sentinel h rt ctx p par ->
  ctx_in sentinel h' rt ctx p par.
Proof.
  revert p par. induction ctx as [|f ctx IH]; intros p par Hf; [done|].
  destruct f; cbn in *; intros (? & ? & par' & ? & ?); rewrite Hf by (rewrite hit_eq; lia);
    (split_and!; [done|eapply tree_in_frame; [|done]; intros; apply Hf; lia|]);
    exists par'; (split; [done|]); (apply IH; [intros; apply Hf; lia|done]).
Qed.

Lemma ctx_in_root h rt ctx p par :
  ctx_in sentinel h rt ctx p par -> ctx <> [] -> (1 <= occ_ctx rt ctx)%nat.
Proof.
  revert p par. induction ctx as [|f ctx IH]; intros p par; [done|]. intros Hc _.
  destruct f; cbn in *; destruct Hc as (_ & _ & par' & _ & Hc);
    (destruct ctx; [cbn in Hc; subst; rewrite hit_eq; lia|]); specialize (IH _ _ Hc ltac:(done)); lia.
Qed.

(** [if (t != sentinel) t->parent = q;] *)
Lemma reparent_run rt h t par q :
  tree_in sentinel h par t -> occ sentinel t = 0%nat -> (forall z, (occ z t <= 1)%nat) ->
  exists h', (if negb (ptr sentinel t =? sentinel) then put parent (ptr sentinel t) q else mret tt)
               (mk_tree rt h) = Some (tt, mk_tree rt h') /\
    tree_in sentinel h' q t /\ (forall z, occ z t = 0%nat -> h' !! z = h !! z).
Proof.
  destruct t as [|c l x k r]; cbn; intros Ht Hs Hd.
  - rewrite Z.eqb_refl. by exists h.
  - destruct Ht as (Hx & Hl & Hr). pose proof (Hd x) as Dx. rewrite hit_eq in Dx.
    rewrite (proj2 (Z.eqb_neq x sentinel)) by (apply hit_ne; lia). cbn [negb].
    erewrite put_run by done. eexists. split; [reflexivity|]. split_and!.
    + by rewrite lookup_insert_eq.
    + apply tree_in_insert; [lia|done].
    + apply tree_in_insert; [lia|done].
    + intros z Hz. apply lookup_insert_ne, hit_ne. lia.
Qed.

(** The pointer to [x] in its parent, or the root, becomes [t]. *)
Lemma relink_run rt h ctx x t par :
  ctx_in sentinel h rt ctx x par -> (forall z, (occ_ctx z ctx <= 1)%nat) ->
  occ_ctx x ctx = 0%nat -> x <> sentinel ->
  exists rt' h',
    (if x =? rt then set_root t
     else (ul <-- get left par; if x =? ul then put left par t else put right par t)%store)
      (mk_tree rt h) = Some (tt, mk_tree rt' h') /\
    (if x =? rt then set_root t
     else (ur <-- get right par; if x =? ur then put right par t else put left par t)%store)
      (mk_tree rt h) = Some (tt, mk_tree rt' h') /\
    ctx_in sentinel h' rt' ctx t par /\ (forall z, occ_ctx z ctx = 0%nat -> h' !! z = h !! z).
Proof.
  intros Hc Hd Hx Hxs. destruct ctx as [|f ctx].
  - cbn in Hc. subst rt. rewrite Z.eqb_refl. by exists t, h.
  - pose proof (ctx_in_root _ _ _ _ _ Hc ltac:(done)).
    rewrite (proj2 (Z.eqb_neq x rt)) by (intros ->; lia).
    destruct f as [c y k r|c l y k]; cbn in Hc, Hx, Hd;
      destruct Hc as (-> & Ht & par' & Hy & Hc); pose proof (Hd y) as Dy; rewrite hit_eq in Dy.
    + assert (ptr sentinel r <> x) as Hne.
      { destruct r; cbn in *; [congruence|]. apply hit_ne. lia. }
      exists rt, (<[y := mk_node k t (ptr sentinel r) par' (b2c c)]> h). split_and!.
      * steps. rewrite Z.eqb_refl. exact (put_run _ _ _ _ _ _ Hy).
      * steps. rewrite (proj2 (Z.eqb_neq x _)) by congruence. exact (put_run _ _ _ _ _ _ Hy).
      * cbn. split_and!; [done|apply tree_in_insert; [lia|done]|]. exists par'.
        rewrite lookup_insert_eq. split; [done|]. apply ctx_in_insert; [lia|done].
      * intros z Hz. apply lookup_insert_ne, hit_ne. cbn in Hz. lia.
    + assert (ptr sentinel l <> x) as Hne.
      { destruct l; cbn in *; [congruence|]. apply hit_ne. lia. }
      exists rt, (<[y := mk_node k (ptr sentinel l) t par' (b2c c)]> h). split_and!.
      * steps. rewrite (proj2 (Z.eqb_neq x _)) by congruence. exact (put_run _ _ _ _ _ _ Hy).
      * steps. rewrite Z.eqb_refl. exact (put_run _ _ _ _ _ _ Hy).
      * cbn. split_and!; [done|apply tree_in_insert; [lia|done]|]. exists par'.
        rewrite lookup_insert_eq. split; [done|]. apply ctx_in_insert; [lia|done].
      * intros z Hz. apply lookup_insert_ne, hit_ne. cbn in Hz. lia.
Qed.
End rotate.

Section rotations.
Context (sentinel : loc).

Lemma left_rotate_rep s ctx c a x kx c2 b y ky d :
  rep sentinel s ctx (T c a x kx (T c2 b y ky d)) ->
  exists s', ngx_rbtree_left_rotate sentinel x s = Some (tt, s') /\
    rep sentinel s' ctx (T c2 (T c a x kx b) y ky d) /\
    nodes s' !! sentinel = nodes s !! sentinel.
Proof.
  destruct s as [rt h]. intros ((Hd & Hs) & (ns & Hns & Hcol) & par & Hctx & Ht). cbn in *.
  destruct Ht as (Hx & Ha & Hy & Hb & Hdd).
  assert (x <> sentinel /\ y <> sentinel) as [Hxs Hys] by (split; apply hit_ne; lia).
  pose proof (Hd x) as Dx. pose proof (Hd y) as Dy. rewrite !hit_eq in *.
  assert (y <> x) as Hyx by (apply hit_ne; lia).
  unfold ngx_rbtree_left_rotate. steps.
  destruct (reparent_run sentinel rt (<[x:=mk_node kx (ptr sentinel a) (ptr sentinel b) par (b2c c)]> h)
    b y x) as (h1 & E1 & Hb1 & F1); [apply tree_in_insert; [lia|done]|lia|intros z; specialize (Hd z); lia|].
  erewrite mthen_run by exact E1. steps.
  set (h2 := <[y := _]> h1).
  destruct (relink_run sentinel rt h2 ctx x y par) as (rt' & h3 & E3 & _ & Hc3 & F3).
  { apply ctx_in_insert; [lia|]. eapply ctx_in_frame; [|exact Hctx]. intros z Hz.
    pose proof (Hd z). rewrite F1 by lia. apply lookup_insert_ne, hit_ne. lia. }
  { intros z. pose proof (Hd z). lia. }
  { lia. }
  { done. }
  erewrite mthen_run by exact E3. 
  assert (h3 !! y = Some (mk_node ky (ptr sentinel b) (ptr sentinel d) par (b2c c2))) as Hy3.
  { rewrite F3 by lia. apply lookup_insert_eq. }
  assert (h3 !! x = Some (mk_node kx (ptr sentinel a) (ptr sentinel b) par (b2c c))) as Hx3.
  { rewrite F3 by lia. subst h2. rewrite lookup_insert_ne by done. rewrite F1 by lia.
    apply lookup_insert_eq. }
  steps. rewrite (put_run _ _ _ _ _ _ (eq_trans (lookup_insert_ne _ _ _ _ Hyx) Hx3)).
  eexists. split; [reflexivity|]. cbn [nodes root].
  assert (forall z, x <> z -> y <> z -> occ_ctx z ctx = 0%nat -> occ z b = 0%nat -> h3 !! z = h !! z)
    as F.
  { intros z Hzx Hzy Hzc Hzb. rewrite F3 by done. subst h2. rewrite lookup_insert_ne by done.
    rewrite F1 by done. by apply lookup_insert_ne. }
  split.
  - split; [|split]; cbn [nodes root].
    + split; [intros z; specialize (Hd z)|]; cbn; lia.
    + exists ns. split; [|done]. rewrite !lookup_insert_ne by congruence. rewrite F by (congruence || lia).
      done.
    + exists par. split.
      { do 2 (apply ctx_in_insert; [lia|]). exact Hc3. }
      cbn. rewrite lookup_insert_ne, !lookup_insert_eq by congruence. split_and!; [done|done|..].
      all: do 2 (apply tree_in_insert; [lia|]).
      * eapply tree_in_frame; [|exact Ha]. intros z Hz. pose proof (Hd z).
        apply F; [apply hit_ne; lia..|lia|lia].
      * eapply tree_in_frame; [|exact Hb1]. intros z Hz. pose proof (Hd z). rewrite F3 by lia.
        apply lookup_insert_ne, hit_ne. lia.
      * eapply tree_in_frame; [|exact Hdd]. intros z Hz. pose proof (Hd z).
        apply F; [apply hit_ne; lia..|lia|lia].
  - rewrite !lookup_insert_ne by congruence. apply F; (congruence || lia).
Qed.
Lemma right_rotate_rep s ctx c a x kx c2 b y ky d :
  rep sentinel s ctx (T c (T c2 d y ky b) x kx a) ->
  exists s', ngx_rbtree_right_rotate sentinel x s = Some (tt, s') /\
    rep sentinel s' ctx (T c2 d y ky (T c b x kx a)) /\
    nodes s' !! sentinel = nodes s !! sentinel.
Proof.
  destruct s as [rt h]. intros ((Hd & Hs) & (ns & Hns & Hcol) & par & Hctx & Ht). cbn in *.
  destruct Ht as (Hx & (Hy & Hdd & Hb) & Ha).
  assert (x <> sentinel /\ y <> sentinel) as [Hxs Hys] by (split; apply hit_ne; lia).
  pose proof (Hd x) as Dx. pose proof (Hd y) as Dy. rewrite !hit_eq in *.
  assert (y <> x) as Hyx by (apply hit_ne; lia).
  unfold ngx_rbtree_right_rotate. steps.
  destruct (reparent_run sentinel rt (<[x:=mk_node kx (ptr sentinel b) (ptr sentinel a) par (b2c c)]> h)
    b y x) as (h1 & E1 & Hb1 & F1); [apply tree_in_insert; [lia|done]|lia|intros z; specialize (Hd z); lia|].
  erewrite mthen_run by exact E1. steps.
  set (h2 := <[y := _]> h1).
  destruct (relink_run sentinel rt h2 ctx x y par) as (rt' & h3 & _ & E3 & Hc3 & F3).
  { apply ctx_in_insert; [lia|]. eapply ctx_in_frame; [|exact Hctx]. intros z Hz.
    pose proof (Hd z). rewrite F1 by lia. apply lookup_insert_ne, hit_ne. lia. }
  { intros z. pose proof (Hd z). lia. }
  { lia. }
  { done. }
  erewrite mthen_run by exact E3. 
  assert (h3 !! y = Some (mk_node ky (ptr sentinel d) (ptr sentinel b) par (b2c c2))) as Hy3.
  { rewrite F3 by lia. apply lookup_insert_eq. }
  assert (h3 !! x = Some (mk_node kx (ptr sentinel b) (ptr sentinel a) par (b2c c))) as Hx3.
  { rewrite F3 by lia. subst h2. rewrite lookup_insert_ne by done. rewrite F1 by lia.
    apply lookup_insert_eq. }
  steps. rewrite (put_run _ _ _ _ _ _ (eq_trans (lookup_insert_ne _ _ _ _ Hyx) Hx3)).
  eexists. split; [reflexivity|]. cbn [nodes root].
  assert (forall z, x <> z -> y <> z -> occ_ctx z ctx = 0%nat -> occ z b = 0%nat -> h3 !! z = h !! z)
    as F.
  { intros z Hzx Hzy Hzc Hzb. rewrite F3 by done. subst h2. rewrite lookup_insert_ne by done.
    rewrite F1 by done. by apply lookup_insert_ne. }
  split.
  - split; [|split]; cbn [nodes root].
    + split; [intros z; specialize (Hd z)|]; cbn; lia.
    + exists ns. split; [|done]. rewrite !lookup_insert_ne by congruence. rewrite F by (congruence || lia).
      done.
    + exists par. split.
      { do 2 (apply ctx_in_insert; [lia|]). exact Hc3. }
      cbn. rewrite lookup_insert_ne, !lookup_insert_eq by congruence. split_and!; [done| |done|..].
      all: do 2 (apply tree_in_insert; [lia|]).
      * eapply tree_in_frame; [|exact Hdd]. intros z Hz. pose proof (Hd z).
        apply F; [apply hit_ne; lia..|lia|lia].
      * eapply tree_in_frame; [|exact Hb1]. intros z Hz. pose proof (Hd z). rewrite F3 by lia.
        apply lookup_insert_ne, hit_ne. lia.
      * eapply tree_in_frame; [|exact Ha]. intros z Hz. pose proof (Hd z).
        apply F; [apply hit_ne; lia..|lia|lia].
  - rewrite !lookup_insert_ne by congruence. apply F; (congruence || lia).
Qed.
End rotations.

(** * Reading and colouring at the focus *)

Definition red_of (t : tree) : bool := match t with E => false | T c _ _ _ _ => c end.
Definition frame_loc (f : frame) : loc :=
  match f with InLeft _ x _ _ => x | InRight _ _ x _ => x end.
Definition frame_red (f : frame) : bool :=
  match f with InLeft c _ _ _ => c | InRight c _ _ _ => c end.

Section reading.
Context (sentinel : loc).
Implicit Types (s : ngx_rbtree_t) (ctx : list frame) (t l r : tree).

Lemma get_run_s {A} (f : ngx_rbtree_node_t -> A) p n s :
  nodes s !! p = Some n -> get f p s = Some (f n, s).
Proof. destruct s. apply get_run. Qed.

Lemma rep_node s ctx c l x k r :
  rep sentinel s ctx (T c l x k r) ->
  exists par, nodes s !! x = Some (mk_node k (ptr sentinel l) (ptr sentinel r) par (b2c c)).
Proof. intros (_ & _ & par & _ & Hx & _). by exists par. Qed.

Lemma run_left s ctx c l x k r :
  rep sentinel s ctx (T c l x k r) -> get left x s = Some (ptr sentinel l, s).
Proof. intros [par H]%rep_node. by erewrite get_run_s by exact H. Qed.

Lemma run_right s ctx c l x k r :
  rep sentinel s ctx (T c l x k r) -> get right x s = Some (ptr sentinel r, s).
Proof. intros [par H]%rep_node. by erewrite get_run_s by exact H. Qed.

Lemma run_parent s f ctx c l x k r :
  rep sentinel s (f :: ctx) (T c l x k r) -> get parent x s = Some (frame_loc f, s).
Proof.
  intros (_ & _ & par & Hc & Hx & _). erewrite get_run_s by exact Hx. cbn.
  by destruct f; destruct Hc as [-> _].
Qed.

Lemma run_is_red s ctx t :
  rep sentinel s ctx t -> ngx_rbt_is_red (ptr sentinel t) s = Some (red_of t, s).
Proof.
  unfold ngx_rbt_is_red. destruct t as [|c l x k r].
  - intros (_ & (n & Hn & Hc) & _). erewrite mthen_run by (by eapply get_run_s). cbn. by rewrite Hc.
  - intros [par H]%rep_node. erewrite mthen_run by (by eapply get_run_s). by destruct c.
Qed.

Lemma run_is_black s ctx t :
  rep sentinel s ctx t -> ngx_rbt_is_black (ptr sentinel t) s = Some (negb (red_of t), s).
Proof.
  unfold ngx_rbt_is_black. destruct t as [|c l x k r].
  - intros (_ & (n & Hn & Hc) & _). erewrite mthen_run by (by eapply get_run_s). cbn. by rewrite Hc.
  - intros [par H]%rep_node. erewrite mthen_run by (by eapply get_run_s). by destruct c.
Qed.

(** The focus is the root when nothing is above it. *)
Lemma rep_root s ctx t : rep sentinel s ctx t -> (ptr sentinel t =? root s) = bool_decide (ctx = []).
Proof.
  intros ((Hd & Hs) & _ & par & Hc & Ht). destruct ctx as [|f ctx].
  - cbn in Hc. rewrite Hc. by rewrite Z.eqb_refl.
  - rewrite bool_decide_false by done. apply Z.eqb_neq. intros E.
    pose proof (ctx_in_root _ _ _ _ _ _ Hc ltac:(done)) as H. rewrite <- E in H.
    pose proof (Hd (ptr sentinel t)). destruct t; cbn in *; [lia|]. rewrite hit_eq in *. lia.
Qed.

(** [x->color = c'] *)
Lemma run_color s ctx c c' l x k r :
  rep sentinel s ctx (T c l x k r) ->
  exists s', put color x (b2c c') s = Some (tt, s') /\ rep sentinel s' ctx (T c' l x k r) /\
    nodes s' !! sentinel = nodes s !! sentinel.
Proof.
  destruct s as [rt h]. intros ((Hd & Hs) & (n & Hn & Hnc) & par & Hc & Hx & Hl & Hr). cbn in *.
  pose proof (Hd x) as Dx. rewrite hit_eq in Dx.
  assert (x <> sentinel) by (apply hit_ne; lia).
  erewrite put_run by done. eexists. split; [reflexivity|]. cbn.
  split; [|by apply lookup_insert_ne]. split; [done|]. cbn. split.
  - exists n. by rewrite lookup_insert_ne.
  - exists par. split; [apply ctx_in_insert; [lia|done]|]. cbn. rewrite lookup_insert_eq.
    split_and!; [done|apply tree_in_insert; [lia|done]..].
Qed.

Lemma run_red s ctx c l x k r :
  rep sentinel s ctx (T c l x k r) ->
  exists s', ngx_rbt_red x s = Some (tt, s') /\ rep sentinel s' ctx (T true l x k r) /\
    nodes s' !! sentinel = nodes s !! sentinel.
Proof. apply (run_color s ctx c true). Qed.

Lemma run_black s ctx c l x k r :
  rep sentinel s ctx (T c l x k r) ->
  exists s', ngx_rbt_black x s = Some (tt, s') /\ rep sentinel s' ctx (T false l x k r) /\
    nodes s' !! sentinel = nodes s !! sentinel.
Proof. apply (run_color s ctx c false). Qed.

Lemma rep_plug s ctx t : rep sentinel s ctx t <-> rep sentinel s [] (plug ctx t).
Proof.
  revert t. induction ctx as [|[c x k r|c l x k] ctx IH]; intros t; [done|..]; cbn.
  - by rewrite <- IH, rep_left.
  - by rewrite <- IH, rep_right.
Qed.

Lemma occ_frame f ctx : f ∈ ctx -> (1 <= occ_ctx (frame_loc f) ctx)%nat.
Proof.
  induction ctx as [|g ctx IH]; [by intros ?%elem_of_nil|].
  intros [->|Hin]%elem_of_cons; [|specialize (IH Hin)]; destruct g; cbn; rewrite ?hit_eq; lia.
Qed.

(** A path is shorter than the memory has nodes. *)
Lemma ctx_in_length h rt ctx p par :
  (forall z, (occ_ctx z ctx <= 1)%nat) -> occ_ctx sentinel ctx = 0%nat -> sentinel ∈ dom h ->
  ctx_in sentinel h rt ctx p par -> (length ctx < size h)%nat.
Proof.
  intros Hd Hs Hsd Hc. rewrite <- size_dom.
  assert (forall f, f ∈ ctx -> frame_loc f ∈ dom h) as Hdom.
  { revert p par Hc. clear. induction ctx as [|f ctx IH]; intros p par Hc g Hg; [by apply elem_of_nil in Hg|].
    apply elem_of_cons in Hg as [->|Hg];
      destruct f; cbn in *; destruct Hc as (_ & _ & par' & Hx & Hc);
      first [apply elem_of_dom; by eexists | by eapply IH]. }
  assert (NoDup (sentinel :: (frame_loc <$> ctx))) as Hnd.
  { constructor.
    { intros (g & Hg & Hin)%list_elem_of_fmap. apply occ_frame in Hin. rewrite <- Hg in Hin. lia. }
    clear Hdom Hc Hs Hsd. induction ctx as [|f ctx IH]; cbn; [constructor|]. constructor.
    - intros (g & Hg & Hin)%list_elem_of_fmap. specialize (Hd (frame_loc f)).
      apply occ_frame in Hin. rewrite <- Hg in Hin. destruct f; cbn in *; rewrite hit_eq in Hd; lia.
    - apply IH. intros z. specialize (Hd z). destruct f; cbn in Hd; lia. }
  change (length ctx < size (dom h))%nat with (S (length ctx) <= size (dom h))%nat.
  rewrite <- (length_fmap frame_loc). change (S (length ?l)) with (length (sentinel :: l)).
  rewrite <- (size_list_to_set (C := gset loc)) by done.
  apply subseteq_size. intros z Hz.
  apply elem_of_list_to_set, elem_of_cons in Hz as [->|(f & -> & Hf)%list_elem_of_fmap]; auto.
Qed.

Lemma rep_length s ctx t : rep sentinel s ctx t -> (length ctx < size (nodes s))%nat.
Proof.
  intros ((Hd & Hs) & (n & Hn & _) & par & Hc & _). eapply ctx_in_length; [| | |done].
  - intros z. specialize (Hd z). lia.
  - lia.
  - apply elem_of_dom. by exists n.
Qed.
End reading.

(** * The red-black invariant

    [rb t n]: no red node has a red child and every path down to a leaf has [n]
    black nodes. *)
Fixpoint rb (t : tree) (n : nat) : Prop :=
  match t with
  | E => n = 0%nat
  | T false l _ _ r => exists m, n = S m /\ rb l m /\ rb r m
  | T true l _ _ r => rb l n /\ rb r n /\ red_of l = false /\ red_of r = false
  end.

Definition top_red (ctx : list frame) : bool :=
  match ctx with [] => false | f :: _ => frame_red f end.

(** The context of a hole of black height [n]; the root is black. *)
Fixpoint ctx_rb (ctx : list frame) (n : nat) : Prop :=
  match ctx with
  | [] => True
  | f :: ctx' =>
      let sibling := match f with InLeft _ _ _ r => r | InRight _ l _ _ => l end in
      rb sibling n /\
      if frame_red f then red_of sibling = false /\ ctx' <> [] /\ top_red ctx' = false /\ ctx_rb ctx' n
      else ctx_rb ctx' (S n)
  end.

Lemma plug_rb ctx t n :
  ctx_rb ctx n -> rb t n -> (top_red ctx = true -> red_of t = false) ->
  exists m, rb (plug ctx t) m /\ (ctx <> [] -> red_of (plug ctx t) = false).
Proof.
  revert t n. induction ctx as [|f ctx IH]; intros t n Hc Ht Htop.
  { exists n. by split. }
  cbn [plug]. destruct Hc as [Hsib Hc].
  destruct f as [[] x k r|[] l x k]; cbn in *.
  - destruct Hc as (Hr & Hne & Htb & Hc). edestruct (IH (T true t x k r) n) as (m & ? & ?);
      [done|cbn; split_and!; auto|by rewrite Htb|]. exists m. auto.
  - edestruct (IH (T false t x k r) (S n)) as (m & Hm & Hb); [done|by exists n|done|].
    exists m. split; [done|]. intros _. destruct ctx; [done|by apply Hb].
  - destruct Hc as (Hr & Hne & Htb & Hc). edestruct (IH (T true l x k t) n) as (m & ? & ?);
      [done|cbn; split_and!; auto|by rewrite Htb|]. exists m. auto.
  - edestruct (IH (T false l x k t) (S n)) as (m & Hm & Hb); [done|by exists n|done|].
    exists m. split; [done|]. intros _. destruct ctx; [done|by apply Hb].
Qed.

(** The addresses and keys in order. *)
Fixpoint inorder (t : tree) : list (loc * Z) :=
  match t with
  | E => []
  | T _ l x k r => inorder l ++ (x, k) :: inorder r
  end.

Lemma inorder_plug ctx t t' : inorder t = inorder t' -> inorder (plug ctx t) = inorder (plug ctx t').
Proof.
  revert t t'. induction ctx as [|f ctx IH]; intros t t' Ht; [done|]. cbn. apply IH.
  destruct f; cbn; by rewrite Ht.
Qed.

Definition blacken (t : tree) : tree :=
  match t with E => E | T _ l x k r => T false l x k r end.

Section fixup.
Context (sentinel : loc).
Implicit Types (s : ngx_rbtree_t) (ctx : list frame).

Lemma run_is_red_T s ctx c l x k r :
  rep sentinel s ctx (T c l x k r) -> ngx_rbt_is_red x s = Some (c, s).
Proof. apply run_is_red. Qed.

Lemma run_is_black_T s ctx c l x k r :
  rep sentinel s ctx (T c l x k r) -> ngx_rbt_is_black x s = Some (negb c, s).
Proof. apply run_is_black. Qed.

Lemma rep_children s ctx c l x k r :
  rep sentinel s ctx (T c l x k r) -> l <> E \/ r <> E -> ptr sentinel l <> ptr sentinel r.
Proof.
  intros ((Hd & Hs) & _) Hne Heq. cbn in *. 
  destruct l as [|? ? y ? ?], r as [|? ? z ? ?]; cbn in *; [by destruct Hne|..].
  - subst z. rewrite hit_eq in Hs. lia.
  - subst y. rewrite hit_eq in Hs. lia.
  - subst z. specialize (Hd y). rewrite !hit_eq in Hd. lia.
Qed.

Lemma rep_root_T s f ctx c l x k r :
  rep sentinel s (f :: ctx) (T c l x k r) -> (x =? root s) = false.
Proof. intros H. pose proof (rep_root _ _ _ _ H) as E. by rewrite bool_decide_false in E. Qed.

End fixup.

(** Run the next command from what is known of the tree. *)
Ltac rb_read :=
  erewrite mthen_run;
  [|first [ reflexivity
          | eapply run_left; eassumption
          | eapply run_right; eassumption
          | eapply run_parent; eassumption
          | eapply run_is_red_T; eassumption
          | eapply run_is_black_T; eassumption
          | eapply run_is_red; eassumption
          | eapply run_is_black; eassumption ]];
  cbn [ptr frame_loc negb andb]; cbv beta; rewrite ?Z.eqb_refl.

(** Run a command that the lemma [L] describes; [H] is the tree after it. *)
Ltac rb_do L s' H :=
  let E := fresh "E" in
  destruct L as (s' & E & H & _); erewrite mthen_run by exact E; clear E.

Section insert_fixup.
Context (sentinel : loc).
Implicit Types (s : ngx_rbtree_t) (ctx : list frame).

(** The loop ends at once below a black node or at the root. *)
Lemma insert_fixup_stop fuel s ctx c l x k r :
  rep sentinel s ctx (T c l x k r) -> top_red ctx = false ->
  insert_fixup sentinel fuel x s = Some (tt, s).
Proof.
  intros H Htop. destruct fuel; cbn [insert_fixup]; rb_read;
    (destruct ctx as [|f ctx];
      [rewrite (rep_root _ _ _ _ H : (x =? root s) = _), bool_decide_true by done; reflexivity|]);
    rewrite (rep_root_T _ _ _ _ _ _ _ _ _ H);
    (destruct f as [c' y k' r'|c' l' y k']; cbn in Htop; subst c';
     [pose proof (proj2 (rep_left _ _ _ _ _ _ _ _) H) as Hp|pose proof (proj2 (rep_right _ _ _ _ _ _ _ _) H) as Hp]);
    do 2 rb_read; reflexivity.
Qed.

Lemma plug_not_E ctx t : t <> E -> plug ctx t <> E.
Proof.
  revert t. induction ctx as [|f ctx IH]; intros t Ht; [done|]. cbn. apply IH. by destruct f.
Qed.

(** What the loop leaves: the same nodes in the same order, and a red-black tree
    once the root is black. *)
Definition fixed (s' : ngx_rbtree_t) (t : tree) : Prop :=
  exists t', rep sentinel s' [] t' /\ inorder t' = inorder t /\ t' <> E /\
    exists n, rb (blacken t') n.

Lemma fixed_stop s ctx c l x k r n :
  rep sentinel s ctx (T c l x k r) -> top_red ctx = false ->
  rb (T c l x k r) n -> ctx_rb ctx n -> fixed s (plug ctx (T c l x k r)).
Proof.
  intros H Htop Hrb Hc. exists (plug ctx (T c l x k r)). split; [exact (proj1 (rep_plug _ _ _ _) H)|]. split; [done|].
  destruct (plug_rb ctx (T c l x k r) n Hc Hrb) as (m & Hm & Hb); [by rewrite Htop|].
  destruct ctx as [|f ctx]; cbn [plug] in *.
  - split; [done|]. destruct c; cbn in Hrb; [exists (S n), n; by split_and!; try apply Hrb|by exists n].
  - destruct (plug ctx (fill f (T c l x k r))) as [|c' l' x' k' r'] eqn:E; cbn in *.
    + exfalso. by apply (plug_not_E (f :: ctx) (T c l x k r)).
    + split; [done|]. exists m. rewrite Hb in Hm by done. done.
Qed.
End insert_fixup.

Ltac same_order :=
  cbn [fill inorder app]; rewrite <- ?app_assoc; cbn [app]; rewrite <- ?app_assoc; reflexivity.

Section insert_loop_proof.
Context (sentinel : loc).
Implicit Types (s : ngx_rbtree_t) (ctx : list frame).

Lemma fixed_inorder s t t' : fixed sentinel s t -> inorder t = inorder t' -> fixed sentinel s t'.
Proof. intros (t1 & H & E & Hr) E'. exists t1. by rewrite <- E'. Qed.

Lemma insert_fixup_left_left fuel s ctx a x k b p kp pr g kg u n :
  rep sentinel s (InLeft true p kp pr :: InLeft false g kg u :: ctx) (T true a x k b) ->
  rb (T true a x k b) n -> ctx_rb (InLeft true p kp pr :: InLeft false g kg u :: ctx) n ->
  red_of u = false ->
  exists s', insert_fixup sentinel (S fuel) x s = Some (tt, s') /\
    fixed sentinel s' (plug (InLeft true p kp pr :: InLeft false g kg u :: ctx) (T true a x k b)).
Proof.
  intros H Hrb (Hpr & Hblk & _ & _ & Hu & Hc) Hur. cbn [frame_red] in Hc.
  pose proof (proj2 (rep_left _ _ _ _ _ _ _ _) H) as Hp.
  pose proof (proj2 (rep_left _ _ _ _ _ _ _ _) Hp) as Hg.
  pose proof (proj1 (rep_right _ _ _ _ _ _ _ _) Hg) as Hu'.
  cbn [insert_fixup]. rb_read. rewrite (rep_root_T _ _ _ _ _ _ _ _ _ H).
  do 6 rb_read. rewrite Hur. rb_read.
  rewrite (proj2 (Z.eqb_neq x _)) by (apply (rep_children _ _ _ _ _ _ _ _ Hp); by left).
  do 2 rb_read. rb_do (run_black _ _ _ _ _ _ _ _ Hp) s1 Hp1.
  rb_read. pose proof (proj2 (rep_left _ _ _ _ _ _ _ _) Hp1) as Hg1.
  rb_do (run_red _ _ _ _ _ _ _ _ Hg1) s2 Hg2.
  rb_do (right_rotate_rep _ _ _ _ _ _ _ _ _ _ _ _ Hg2) s3 Hp3.
  pose proof (proj1 (rep_left _ _ _ _ _ _ _ _) Hp3) as Hx3.
  erewrite insert_fixup_stop by (exact Hx3 || done). exists s3. split; [reflexivity|].
  eapply fixed_inorder; [eapply (fixed_stop _ _ _ _ _ _ _ _ n Hx3); [done|done|]|].
  - cbn. by split_and!.
  - cbn [plug]. apply inorder_plug. same_order.
Qed.

Lemma insert_fixup_left_right fuel s ctx a x k b p kp pl g kg u n :
  rep sentinel s (InRight true pl p kp :: InLeft false g kg u :: ctx) (T true a x k b) ->
  rb (T true a x k b) n -> ctx_rb (InRight true pl p kp :: InLeft false g kg u :: ctx) n ->
  red_of u = false ->
  exists s', insert_fixup sentinel (S fuel) x s = Some (tt, s') /\
    fixed sentinel s' (plug (InRight true pl p kp :: InLeft false g kg u :: ctx) (T true a x k b)).
Proof.
  intros H Hrb (Hpl & Hblk & _ & _ & Hu & Hc) Hur. cbn [frame_red] in Hc.
  pose proof (proj2 (rep_right _ _ _ _ _ _ _ _) H) as Hp.
  pose proof (proj2 (rep_left _ _ _ _ _ _ _ _) Hp) as Hg.
  pose proof (proj1 (rep_right _ _ _ _ _ _ _ _) Hg) as Hu'.
  cbn [insert_fixup]. rb_read. rewrite (rep_root_T _ _ _ _ _ _ _ _ _ H).
  do 6 rb_read. rewrite Hur. rb_read. rewrite mthen_assoc.
  rb_do (left_rotate_rep _ _ _ _ _ _ _ _ _ _ _ _ Hp) s1 Hx1.
  pose proof (proj1 (rep_left _ _ _ _ _ _ _ _) Hx1) as Hp1. do 2 rb_read.
  rb_do (run_black _ _ _ _ _ _ _ _ Hx1) s2 Hx2. rb_read.
  rb_do (run_red _ _ _ _ _ _ _ _ (proj2 (rep_left _ _ _ _ _ _ _ _) Hx2)) s3 Hg3.
  rb_do (right_rotate_rep _ _ _ _ _ _ _ _ _ _ _ _ Hg3) s4 Hx4.
  pose proof (proj1 (rep_left _ _ _ _ _ _ _ _) Hx4) as Hp4.
  erewrite insert_fixup_stop by (exact Hp4 || done). exists s4. split; [reflexivity|].
  destruct Hrb as (Ha & Hb & Hab & Hbb).
  eapply fixed_inorder; [eapply (fixed_stop _ _ _ _ _ _ _ _ n Hp4); [done|..]|].
  - cbn. by split_and!.
  - cbn. by split_and!.
  - cbn [plug]. apply inorder_plug. same_order.
Qed.

Lemma insert_fixup_right_right fuel s ctx a x k b p kp pl g kg u n :
  rep sentinel s (InRight true pl p kp :: InRight false u g kg :: ctx) (T true a x k b) ->
  rb (T true a x k b) n -> ctx_rb (InRight true pl p kp :: InRight false u g kg :: ctx) n ->
  red_of u = false ->
  exists s', insert_fixup sentinel (S fuel) x s = Some (tt, s') /\
    fixed sentinel s' (plug (InRight true pl p kp :: InRight false u g kg :: ctx) (T true a x k b)).
Proof.
  intros H Hrb (Hpl & Hblk & _ & _ & Hu & Hc) Hur. cbn [frame_red] in Hc.
  pose proof (proj2 (rep_right _ _ _ _ _ _ _ _) H) as Hp.
  pose proof (proj2 (rep_right _ _ _ _ _ _ _ _) Hp) as Hg.
  pose proof (proj1 (rep_left _ _ _ _ _ _ _ _) Hg) as Hu'.
  cbn [insert_fixup]. rb_read. rewrite (rep_root_T _ _ _ _ _ _ _ _ _ H).
  do 4 rb_read.
  rewrite (proj2 (Z.eqb_neq p _)) by (apply not_eq_sym, (rep_children _ _ _ _ _ _ _ _ Hg); by right).
  do 2 rb_read. rewrite Hur. rb_read.
  rewrite (proj2 (Z.eqb_neq x _)) by (apply not_eq_sym, (rep_children _ _ _ _ _ _ _ _ Hp); by right).
  do 2 rb_read. rb_do (run_black _ _ _ _ _ _ _ _ Hp) s1 Hp1.
  rb_read. pose proof (proj2 (rep_right _ _ _ _ _ _ _ _) Hp1) as Hg1.
  rb_do (run_red _ _ _ _ _ _ _ _ Hg1) s2 Hg2.
  rb_do (left_rotate_rep _ _ _ _ _ _ _ _ _ _ _ _ Hg2) s3 Hp3.
  pose proof (proj1 (rep_right _ _ _ _ _ _ _ _) Hp3) as Hx3.
  erewrite insert_fixup_stop by (exact Hx3 || done). exists s3. split; [reflexivity|].
  eapply fixed_inorder; [eapply (fixed_stop _ _ _ _ _ _ _ _ n Hx3); [done|done|]|].
  - cbn. by split_and!.
  - cbn [plug]. apply inorder_plug. same_order.
Qed.

Lemma insert_fixup_right_left fuel s ctx a x k b p kp pr g kg u n :
  rep sentinel s (InLeft true p kp pr :: InRight false u g kg :: ctx) (T true a x k b) ->
  rb (T true a x k b) n -> ctx_rb (InLeft true p kp pr :: InRight false u g kg :: ctx) n ->
  red_of u = false ->
  exists s', insert_fixup sentinel (S fuel) x s = Some (tt, s') /\
    fixed sentinel s' (plug (InLeft true p kp pr :: InRight false u g kg :: ctx) (T true a x k b)).
Proof.
  intros H Hrb (Hpl & Hblk & _ & _ & Hu & Hc) Hur. cbn [frame_red] in Hc.
  pose proof (proj2 (rep_left _ _ _ _ _ _ _ _) H) as Hp.
  pose proof (proj2 (rep_right _ _ _ _ _ _ _ _) Hp) as Hg.
  pose proof (proj1 (rep_left _ _ _ _ _ _ _ _) Hg) as Hu'.
  cbn [insert_fixup]. rb_read. rewrite (rep_root_T _ _ _ _ _ _ _ _ _ H).
  do 4 rb_read.
  rewrite (proj2 (Z.eqb_neq p _)) by (apply not_eq_sym, (rep_children _ _ _ _ _ _ _ _ Hg); by right).
  do 2 rb_read. rewrite Hur. rb_read. rewrite mthen_assoc.
  rb_do (right_rotate_rep _ _ _ _ _ _ _ _ _ _ _ _ Hp) s1 Hx1.
  pose proof (proj1 (rep_right _ _ _ _ _ _ _ _) Hx1) as Hp1. do 2 rb_read.
  rb_do (run_black _ _ _ _ _ _ _ _ Hx1) s2 Hx2. rb_read.
  rb_do (run_red _ _ _ _ _ _ _ _ (proj2 (rep_right _ _ _ _ _ _ _ _) Hx2)) s3 Hg3.
  rb_do (left_rotate_rep _ _ _ _ _ _ _ _ _ _ _ _ Hg3) s4 Hx4.
  pose proof (proj1 (rep_right _ _ _ _ _ _ _ _) Hx4) as Hp4.
  erewrite insert_fixup_stop by (exact Hp4 || done). exists s4. split; [reflexivity|].
  destruct Hrb as (Ha & Hb & Hab & Hbb).
  eapply fixed_inorder; [eapply (fixed_stop _ _ _ _ _ _ _ _ n Hp4); [done|..]|].
  - cbn. by split_and!.
  - cbn. by split_and!.
  - cbn [plug]. apply inorder_plug. same_order.
Qed.

(** A red uncle: the red moves two levels up. *)
Lemma insert_fixup_uncle fuel s f g ctx a x k b n ul xu ku ur :
  let u := T true ul xu ku ur in
  rep sentinel s (f :: g :: ctx) (T true a x k b) ->
  rb (T true a x k b) n -> ctx_rb (f :: g :: ctx) n -> frame_red f = true ->
  (exists y ky, g = InLeft false y ky u \/ g = InRight false u y ky) ->
  exists s' l y ky r, insert_fixup sentinel (S fuel) x s = insert_fixup sentinel fuel y s' /\
    rep sentinel s' ctx (T true l y ky r) /\ rb (T true l y ky r) (S n) /\ ctx_rb ctx (S n) /\
    inorder (T true l y ky r) = inorder (plug [f; g] (T true a x k b)).
Proof.
  intros u H Hrb (Hsib & Hc) Hf (y & ky & Hg). subst u. rewrite Hf in Hc.
  destruct Hc as (Hblk & _ & _ & Hu & Hc).
  assert (exists p kp pl pr, fill f (T true a x k b) = T true pl p kp pr /\ frame_loc f = p /\
    rep sentinel s (g :: ctx) (T true pl p kp pr) /\ rb pl n /\ rb pr n)
    as (p & kp & pl & pr & Ef & Efl & Hp & Hpl & Hpr).
  { destruct f as [? p kp pr|? pl p kp]; cbn in Hf; subst; eexists _, _, _, _;
      (split; [reflexivity|split; [reflexivity|]]); split_and!; try done.
    - exact (proj2 (rep_left _ _ _ _ _ _ _ _) H).
    - exact (proj2 (rep_right _ _ _ _ _ _ _ _) H). }
  assert (rb (T false ul xu ku ur) (S n) /\ rb (T false pl p kp pr) (S n)) as [Hub Hpb].
  { split; exists n; split_and!; try done; destruct Hg as [-> | ->]; apply Hu. }
  cbn [insert_fixup plug]. rb_read. rewrite (rep_root_T _ _ _ _ _ _ _ _ _ H).
  rb_read. rewrite Efl, Ef. clear H Efl Ef.
  destruct Hg as [-> | ->]; cbn [frame_red] in Hc.
  - pose proof (proj2 (rep_left _ _ _ _ _ _ _ _) Hp) as Hg.
    pose proof (proj1 (rep_right _ _ _ _ _ _ _ _) Hg) as Hu'. do 5 rb_read.
    rb_do (run_black _ _ _ _ _ _ _ _ Hp) s1 Hp1.
    pose proof (proj1 (rep_right _ _ _ _ _ _ _ _) (proj2 (rep_left _ _ _ _ _ _ _ _) Hp1)) as Hu1.
    rb_do (run_black _ _ _ _ _ _ _ _ Hu1) s2 Hu2.
    rb_do (run_red _ _ _ _ _ _ _ _ (proj2 (rep_right _ _ _ _ _ _ _ _) Hu2)) s3 Hg3.
    eexists s3, _, y, ky, _. split_and!; [reflexivity|exact Hg3|cbn; by split_and!|done|].
    same_order.
  - pose proof (proj2 (rep_right _ _ _ _ _ _ _ _) Hp) as Hg.
    pose proof (proj1 (rep_left _ _ _ _ _ _ _ _) Hg) as Hu'. do 3 rb_read.
    rewrite (proj2 (Z.eqb_neq p _)) by (apply not_eq_sym, (rep_children _ _ _ _ _ _ _ _ Hg); by right).
    do 2 rb_read.
    rb_do (run_black _ _ _ _ _ _ _ _ Hp) s1 Hp1.
    pose proof (proj1 (rep_left _ _ _ _ _ _ _ _) (proj2 (rep_right _ _ _ _ _ _ _ _) Hp1)) as Hu1.
    rb_do (run_black _ _ _ _ _ _ _ _ Hu1) s2 Hu2.
    rb_do (run_red _ _ _ _ _ _ _ _ (proj2 (rep_left _ _ _ _ _ _ _ _) Hu2)) s3 Hg3.
    eexists s3, _, y, ky, _. split_and!; [reflexivity|exact Hg3|cbn; by split_and!|done|].
    same_order.
Qed.

(** The loop restores the invariant. *)
Lemma insert_fixup_correct fuel s ctx a x k b n :
  rep sentinel s ctx (T true a x k b) -> rb (T true a x k b) n -> ctx_rb ctx n ->
  (length ctx <= fuel)%nat ->
  exists s', insert_fixup sentinel fuel x s = Some (tt, s') /\
    fixed sentinel s' (plug ctx (T true a x k b)).
Proof.
  revert s ctx a x k b n. induction fuel as [|fuel IH]; intros s ctx a x k b n H Hrb Hc Hf;
    (destruct (top_red ctx) eqn:Htop;
      [|exists s; split; [by eapply insert_fixup_stop|by eapply fixed_stop]]);
    (destruct ctx as [|f [|g ctx]]; [done|cbn in Htop, Hc; rewrite Htop in Hc; tauto|]); [cbn in Hf; lia|].
  assert (frame_red g = false) as Hgb by (cbn in Htop, Hc; rewrite Htop in Hc; apply Hc).
  destruct (red_of (match g with InLeft _ _ _ r => r | InRight _ l _ _ => l end)) eqn:Hu.
  - destruct g as [cg y ky [|[] ul xu ku ur]|cg [|[] ul xu ku ur] y ky]; try done;
      cbn in Hgb; subst cg;
      (edestruct (insert_fixup_uncle fuel s f) as (s' & l & z & kz & r & -> & H' & Hrb' & Hc' & Ho);
        [exact H|exact Hrb|exact Hc|exact Htop|by eauto|]);
      (edestruct IH as (s2 & E2 & H2); [exact H'|exact Hrb'|exact Hc'|cbn in Hf; lia|]);
      exists s2; (split; [exact E2|]); (eapply fixed_inorder; [exact H2|]);
      cbn [plug]; apply inorder_plug; exact Ho.
  - destruct f as [cf p kp pr|cf pl p kp], g as [cg y ky u|cg u y ky]; cbn in Htop, Hgb, Hu; subst cf cg.
    + by eapply insert_fixup_left_left.
    + by eapply insert_fixup_right_left.
    + by eapply insert_fixup_left_right.
    + by eapply insert_fixup_right_right.
Qed.
End insert_loop_proof.

(** * Insertion *)

Fixpoint before (ctx : list frame) : list (loc * Z) :=
  match ctx with
  | [] => []
  | InLeft _ _ _ _ :: ctx' => before ctx'
  | InRight _ l x k :: ctx' => before ctx' ++ inorder l ++ [(x, k)]
  end.

Fixpoint after (ctx : list frame) : list (loc * Z) :=
  match ctx with
  | [] => []
  | InLeft _ x k r :: ctx' => (x, k) :: inorder r ++ after ctx'
  | InRight _ _ _ _ :: ctx' => after ctx'
  end.

Lemma inorder_ctx ctx t : inorder (plug ctx t) = before ctx ++ inorder t ++ after ctx.
Proof.
  revert t. induction ctx as [|[c x k r|c l x k] ctx IH]; intros t; cbn.
  - by rewrite app_nil_r.
  - rewrite IH. cbn. by rewrite <- !app_assoc.
  - rewrite IH. cbn. by rewrite <- !app_assoc.
Qed.

(** The tree of a state: its pointers draw [t], a red-black tree with a black
    root. *)
Definition rbtree (sentinel : loc) (s : ngx_rbtree_t) (t : tree) : Prop :=
  rep sentinel s [] t /\ red_of t = false /\ exists n, rb t n.

(** The path the test [less] takes for an entry. *)
Definition path (less : loc * Z -> loc * Z -> bool) (e : loc * Z) (ctx : list frame) : Prop :=
  Forall (fun f => match f with
                   | InLeft _ x k _ => less e (x, k) = true
                   | InRight _ _ x k => less e (x, k) = false
                   end) ctx.

(** What [ngx_rbtree_insert] asks of [tree->insert]: the node becomes a red leaf
    of the tree, at the end of the path of its key. *)
Class InsertPt (sentinel : loc) (insert : loc -> loc -> MT unit) (less : loc * Z -> loc * Z -> bool) :=
  insert_leaf : forall s t node n,
    rep sentinel s [] t -> t <> E -> nodes s !! node = Some n -> occ node t = 0%nat ->
    node <> sentinel ->
    exists s' ctx, insert (root s) node s = Some (tt, s') /\
      t = plug ctx E /\ path less (node, key n) ctx /\
      rep sentinel s' ctx (T true E node (key n) E).

Section leaf.
Context (sentinel : loc) (less : loc * Z -> loc * Z -> bool).

(** The loop descends to a leaf. *)
Lemma insert_loop_run fuel s ctx c l x k r node n :
  rep sentinel s ctx (T c l x k r) -> nodes s !! node = Some n -> path less (node, key n) ctx ->
  (size (nodes s) <= fuel + length ctx)%nat ->
  exists ctx' c' l' y ky r' b,
    insert_loop sentinel less fuel x node s = Some ((y, b), s) /\
    rep sentinel s ctx' (T c' l' y ky r') /\
    plug ctx (T c l x k r) = plug ctx' (T c' l' y ky r') /\
    less (node, key n) (y, ky) = b /\ (if b then l' else r') = E /\ path less (node, key n) ctx'.
Proof.
  revert s ctx c l x k r. induction fuel as [|fuel IH]; intros s ctx c l x k r H Hn Hp Hf.
  { apply (proj1 (rep_left _ _ _ _ _ _ _ _)), rep_length in H. cbn in H. lia. }
  destruct (rep_node _ _ _ _ _ _ _ _ H) as [par Hx]. cbn [insert_loop].
  erewrite mthen_run by (by apply load_run). erewrite mthen_run by (by apply load_run). cbn [key left right]. cbn zeta.
  destruct (less (node, key n) (x, k)) eqn:El.
  - destruct l as [|c' l' y ky r']; cbn [ptr].
    + rewrite Z.eqb_refl. exists ctx, c, E, x, k, r, true. by split_and!.
    + pose proof (proj1 (rep_left _ _ _ _ _ _ _ _) H) as Hl.
      assert (y <> sentinel) as Hys.
      { destruct Hl as ((_ & Hs) & _). cbn in Hs. apply hit_ne. lia. }
      rewrite (proj2 (Z.eqb_neq y sentinel)) by done.
      destruct (IH _ _ _ _ _ _ _ Hl Hn) as (ctx' & c1 & l1 & z & kz & r1 & b & E1 & H1 & Epl & ? & ? & ?);
        [by constructor|cbn; lia|].
      exists ctx', c1, l1, z, kz, r1, b. by split_and!.
  - destruct r as [|c' l' y ky r']; cbn [ptr].
    + rewrite Z.eqb_refl. exists ctx, c, l, x, k, E, false. by split_and!.
    + pose proof (proj1 (rep_right _ _ _ _ _ _ _ _) H) as Hr.
      assert (y <> sentinel) as Hys.
      { destruct Hr as ((_ & Hs) & _). cbn in Hs. apply hit_ne. lia. }
      rewrite (proj2 (Z.eqb_neq y sentinel)) by done.
      destruct (IH _ _ _ _ _ _ _ Hr Hn) as (ctx' & c1 & l1 & z & kz & r1 & b & E1 & H1 & Epl & ? & ? & ?);
        [by constructor|cbn; lia|].
      exists ctx', c1, l1, z, kz, r1, b. by split_and!.
Qed.

(** The leaf is linked. *)
Lemma link_run s ctx c l x k r node n (b : bool) :
  rep sentinel s ctx (T c l x k r) -> (if b then l else r) = E ->
  nodes s !! node = Some n -> (occ_ctx node ctx + occ node (T c l x k r) = 0)%nat -> node <> sentinel ->
  exists s', ((if b then put left x node else put right x node) ;;
              put parent node x ;; put left node sentinel ;; put right node sentinel ;;
              ngx_rbt_red node)%store s = Some (tt, s') /\
    rep sentinel s' ((if b then InLeft c x k r else InRight c l x k) :: ctx) (T true E node (key n) E).
Proof.
  destruct s as [rt h]. intros ((Hd & Hs) & (ns & Hns & Hnc) & par & Hc & Hx & Hl & Hr) Hb Hn Hocc Hne.
  cbn in *. pose proof (Hd x) as Dx. rewrite hit_eq in Dx.
  assert (x <> sentinel /\ x <> node) as [Hxs Hxn] by (split; apply hit_ne; lia).
  destruct b; subst; steps;
    (unfold ngx_rbt_red; erewrite put_run by find_node; eexists; split; [reflexivity|]);
    (split; [split|split]; cbn;
      [intros z; specialize (Hd z); cbn in Hd; unfold hit in *; repeat case_decide; subst; lia
      |rewrite (proj2 (hit_ne node sentinel)) by done; lia
      |exists ns; split; [|done]; find_node|]);
    exists x; rewrite !insert_insert_eq; (split; [|split; [by rewrite lookup_insert_eq|done]]);
    (split; [done|]); (split; [do 2 (apply tree_in_insert; [lia|]); done|]);
    exists par; (split; [find_node|]); do 2 (apply ctx_in_insert; [lia|]); done.
Qed.
End leaf.

Lemma occ_plug q ctx t : occ q (plug ctx t) = (occ_ctx q ctx + occ q t)%nat.
Proof.
  revert t. induction ctx as [|[c x k r|c l x k] ctx IH]; intros t; cbn; [done|..];
    rewrite IH; cbn; lia.
Qed.

#[export] Instance insert_by_leaf sentinel less :
  InsertPt sentinel (insert_by sentinel less) less.
Proof.
  intros s t node n H Hne Hn Hocc Hns. destruct t as [|c l x k r]; [done|].
  unfold insert_by. erewrite mthen_run by reflexivity.
  assert (root s = x) as ->. { by destruct H as (_ & _ & par & Hc & _). }
  destruct (insert_loop_run sentinel less (size (nodes s)) s [] c l x k r node n H Hn)
    as (ctx & c' & l' & y & ky & r' & b & E1 & H1 & Epl & Hless & Hb & Hp); [constructor|cbn; lia|].
  erewrite mthen_run by exact E1.
  destruct (link_run sentinel s ctx c' l' y ky r' node n b H1 Hb Hn) as (s' & E2 & H2); [|done|].
  { cbn [plug] in Epl. rewrite Epl, occ_plug in Hocc. exact Hocc. }
  eexists s', _. split; [exact E2|]. split; [|split; [|exact H2]].
  - cbn [plug] in *. rewrite Epl. destruct b; subst; done.
  - constructor; [|done]. by destruct b.
Qed.

(** A test that looks at the keys only. *)
Definition by_key (less : Z -> Z -> bool) (a b : loc * Z) : bool := less a.2 b.2.

#[export] Instance insert_value_leaf sentinel :
  InsertPt sentinel (ngx_rbtree_insert_value sentinel) (by_key Z.ltb).
Proof. exact (insert_by_leaf sentinel (by_key Z.ltb)). Qed.

(** [(ngx_rbtree_key_int_t) node->key - (ngx_rbtree_key_int_t) temp->key < 0] *)
Definition timer_less (a b : Z) : bool := i64 (i64 a - i64 b) <? 0.

#[export] Instance insert_timer_leaf sentinel :
  InsertPt sentinel (ngx_rbtree_insert_timer_value sentinel) (by_key timer_less).
Proof. exact (insert_by_leaf sentinel (by_key timer_less)). Qed.

(** The test orders the entries [ks] totally: what is not less is greater or
    equal, and that is transitive. *)
Definition orders (less : loc * Z -> loc * Z -> bool) (ks : list (loc * Z)) : Prop :=
  (forall a b c, a ∈ ks -> b ∈ ks -> c ∈ ks -> less a b = false -> less b c = false -> less a c = false) /\
  (forall a b, a ∈ ks -> b ∈ ks -> less a b = true -> less b a = false).

(** In order: no entry is less than one before it. *)
Definition ordered (less : loc * Z -> loc * Z -> bool) (l : list (loc * Z)) : Prop :=
  StronglySorted (fun a b => less b a = false) l.

Lemma StronglySorted_split {A} (R : A -> A -> Prop) l x r :
  StronglySorted R (l ++ x :: r) <->
  StronglySorted R (l ++ r) /\ Forall (fun a => R a x) l /\ Forall (R x) r.
Proof.
  induction l as [|a l IH]; cbn.
  - split; [intros [? ?]%StronglySorted_inv; by split_and!|intros (? & _ & ?); by constructor].
  - split.
    + intros [Hs Ha]%StronglySorted_inv. apply IH in Hs as (? & ? & ?).
      apply Forall_app in Ha as [? [? ?]%Forall_cons].
      split_and!; [constructor; [done|by apply Forall_app]|by constructor|done].
    + intros ([Hs Ha]%StronglySorted_inv & [? ?]%Forall_cons & ?). apply Forall_app in Ha as [? ?].
      constructor; [by apply IH|]. apply Forall_app. split; [done|]. by constructor.
Qed.

Lemma StronglySorted_drop_mid {A} (R : A -> A -> Prop) l m r :
  StronglySorted R (l ++ m ++ r) -> StronglySorted R (l ++ r).
Proof.
  rewrite !StronglySorted_app. intros (Hlr & ? & _ & ? & ?).
  split_and!; [intros; apply Hlr; [done|]; apply elem_of_app; by right|done|done].
Qed.

(** A path in an ordered tree separates what is not greater from what is. *)
Lemma path_splits less ks e ctx :
  orders less ks -> e ∈ ks -> (forall a, a ∈ before ctx ++ after ctx -> a ∈ ks) ->
  path less e ctx -> ordered less (before ctx ++ after ctx) ->
  Forall (fun a => less e a = false) (before ctx) /\ Forall (fun a => less e a = true) (after ctx).
Proof.
  intros [Htrans Hasym] Hkey Hks Hp. induction Hp as [|f ctx Hf Hp IH]; [by split|].
  destruct f as [c x k r|c l x k]; cbn [before after] in *; intros Ho.
  - apply StronglySorted_split in Ho as (Ho & _ & Hk). cbn in Hk.
    destruct IH as [IH1 IH2]; [intros a Ha; apply Hks; set_solver|by eapply StronglySorted_drop_mid|].
    split; [done|]. apply Forall_app in Hk as [Hk _]. constructor; [done|]. apply Forall_app. split; [|done].
    apply Forall_forall. intros a Ha. destruct (less e a) eqn:E; [done|].
    rewrite Forall_forall in Hk. specialize (Hk a Ha).
    rewrite (Htrans e a (x, k)) in Hf; [done| | | |done|done]; [done|apply Hks; set_solver|].
    apply (Hks (x, k)). set_solver.
  - rewrite <- !app_assoc in Ho. cbn in Ho. rewrite app_assoc in Ho.
    apply StronglySorted_split in Ho as (Ho & Hk & _). rewrite <- app_assoc in Ho.
    destruct IH as [IH1 IH2]; [intros a Ha; apply Hks; set_solver|by eapply StronglySorted_drop_mid|].
    split; [|done]. apply Forall_app in Hk as [_ Hk]. apply Forall_app. split; [done|].
    apply Forall_app. split; [|by repeat constructor].
    apply Forall_forall. intros a Ha. rewrite Forall_forall in Hk. specialize (Hk a Ha). cbn in Hk.
    apply (Htrans e (x, k) a); [done| | |done|done]; [|apply Hks; set_solver].
    apply (Hks (x, k)). set_solver.
Qed.

Lemma plug_rb_inv ctx t m :
  rb (plug ctx t) m -> red_of (plug ctx t) = false ->
  exists n, rb t n /\ ctx_rb ctx n /\ (top_red ctx = true -> red_of t = false).
Proof.
  revert t. induction ctx as [|f ctx IH]; intros t Hrb Hblk; [by exists m|].
  cbn [plug] in *. destruct (IH _ Hrb Hblk) as (n & Hf & Hc & Htop).
  assert (frame_red f = true -> ctx <> [] /\ top_red ctx = false) as Hred.
  { intros Hfr. split.
    - intros ->. cbn in Hblk. destruct f; cbn in *; congruence.
    - destruct (top_red ctx); [|done]. specialize (Htop eq_refl). destruct f; cbn in *; congruence. }
  destruct f as [[] x k r|[] l x k]; cbn in *.
  - destruct Hf as (? & ? & ? & ?). destruct Hred; [done|]. exists n. by split_and!.
  - destruct Hf as (n' & -> & ? & ?). exists n'. by split_and!.
  - destruct Hf as (? & ? & ? & ?). destruct Hred; [done|]. exists n. by split_and!.
  - destruct Hf as (n' & -> & ? & ?). exists n'. by split_and!.
Qed.

(** [l'] is [l] with an entry put after those that are not greater. *)
Definition inserted (less : loc * Z -> loc * Z -> bool) (e : loc * Z) (l l' : list (loc * Z)) : Prop :=
  exists l1 l2, l = l1 ++ l2 /\ l' = l1 ++ e :: l2 /\
    Forall (fun a => less e a = false) l1 /\ Forall (fun a => less e a = true) l2.

Lemma inserted_ordered less ks e l l' :
  orders less ks -> e ∈ ks -> (forall a, a ∈ l -> a ∈ ks) ->
  ordered less l -> inserted less e l l' -> ordered less l'.
Proof.
  intros [_ Hasym] He Hks Ho (l1 & l2 & -> & -> & H1 & H2). apply StronglySorted_split.
  split_and!; [done|done|]. rewrite Forall_forall in *. intros a Ha.
  apply Hasym; [done|apply Hks; set_solver|by apply H2].
Qed.

Section insert_theorem.
Context (sentinel : loc) (insert : loc -> loc -> MT unit) (less : loc * Z -> loc * Z -> bool).
Context `{!InsertPt sentinel insert less}.

Lemma insert_empty s node n :
  rep sentinel s [] E -> nodes s !! node = Some n -> node <> sentinel ->
  exists s', ngx_rbtree_insert sentinel insert node s = Some (tt, s') /\
    rep sentinel s' [] (T false E node (key n) E).
Proof.
  unfold ngx_rbtree_insert. destruct s as [rt h].
  intros ((Hd & Hs) & (ns & Hns & Hnc) & par & Hc & _) Hn Hne. cbn in *. subst rt.
  rewrite Z.eqb_refl. unfold ngx_rbt_black. steps.
  unfold set_root, mput. eexists. split; [reflexivity|]. rewrite !insert_insert_eq. cbn.
  split; [split|split]; cbn.
  - intros q. unfold hit. case_decide; lia.
  - by rewrite (proj2 (hit_ne node sentinel)).
  - exists ns. split; [|done]. by rewrite lookup_insert_ne.
  - exists NULL. rewrite lookup_insert_eq. by split_and!.
Qed.

(** Insertion of a node that is not in the tree: the tree stays a red-black
    tree, and the node comes after the entries its path leaves on its left. *)
Lemma insert_correct s t node n :
  rbtree sentinel s t -> nodes s !! node = Some n -> occ node t = 0%nat -> node <> sentinel ->
  exists s' t' ctx, ngx_rbtree_insert sentinel insert node s = Some (tt, s') /\
    rbtree sentinel s' t' /\ path less (node, key n) ctx /\ inorder t = before ctx ++ after ctx /\
    inorder t' = before ctx ++ (node, key n) :: after ctx.
Proof.
  intros (H & Hblk & m & Hrb) Hn Hocc Hne.
  destruct (decide (t = E)) as [->|Ht].
  { destruct (insert_empty s node n H Hn Hne) as (s' & E1 & H1).
    exists s', (T false E node (key n) E), []. split_and!; [exact E1| |constructor|done|done].
    split_and!; [exact H1|done|by exists 1%nat, 0%nat]. }
  destruct (insert_leaf s t node n H Ht Hn Hocc Hne) as (s1 & ctx & E1 & -> & Hp & H1).
  destruct (plug_rb_inv ctx E m Hrb Hblk) as (n0 & Hn0 & Hc & _). cbn in Hn0. subst n0.
  assert ((root s =? sentinel) = false) as Hroot.
  { destruct H as ((_ & Hs) & _ & par & Hc' & _). cbn in Hc', Hs. rewrite Hc'. apply Z.eqb_neq.
    destruct (plug ctx E); [done|]. cbn in *. apply hit_ne. lia. }
  unfold ngx_rbtree_insert. erewrite mthen_run by reflexivity. rewrite Hroot.
  erewrite mthen_run by exact E1. erewrite mthen_run by reflexivity.
  destruct (insert_fixup_correct sentinel (size (nodes s1)) s1 ctx E node (key n) E 0 H1)
    as (s2 & E2 & t' & H2 & Ho & Hne' & n' & Hrb'); [by split_and!|done| |].
  { apply Nat.lt_le_incl. by eapply rep_length. }
  erewrite mthen_run by exact E2. erewrite mthen_run by reflexivity.
  destruct t' as [|c l x k r]; [done|].
  assert (root s2 = x) as -> by (by destruct H2 as (_ & _ & par & Hc' & _)).
  destruct (run_black _ _ _ _ _ _ _ _ H2) as (s3 & E3 & H3 & _).
  exists s3, (T false l x k r), ctx. split_and!; [exact E3|split_and!; [exact H3|done|by exists n']|done| |].
  - rewrite inorder_ctx. done.
  - cbn in Ho |- *. rewrite Ho, inorder_ctx. done.
Qed.

(** The same when the test orders the entries. *)
Lemma insert_ordered s t node n ks :
  rbtree sentinel s t -> nodes s !! node = Some n -> occ node t = 0%nat -> node <> sentinel ->
  orders less ks -> (node, key n) ∈ ks -> (forall a, a ∈ inorder t -> a ∈ ks) -> ordered less (inorder t) ->
  exists s' t', ngx_rbtree_insert sentinel insert node s = Some (tt, s') /\
    rbtree sentinel s' t' /\ ordered less (inorder t') /\
    inserted less (node, key n) (inorder t) (inorder t').
Proof.
  intros Ht Hn Hocc Hne Hless Hk Hks Ho.
  destruct (insert_correct s t node n Ht Hn Hocc Hne) as (s' & t' & ctx & E1 & Ht' & Hp & E2 & E3).
  rewrite E2 in Ho, Hks.
  destruct (path_splits less ks (node, key n) ctx Hless Hk Hks Hp Ho) as [H1 H2].
  assert (inserted less (node, key n) (inorder t) (inorder t')) as Hi.
  { exists (before ctx), (after ctx). by split_and!. }
  exists s', t'. split_and!; [done|done| |done].
  apply (inserted_ordered less ks (node, key n) (inorder t)); rewrite ?E2; try done.
  by rewrite <- E2.
Qed.

(** C16: whatever insert function a tree is given, as long as it links the node
    as a leaf, [ngx_rbtree_insert] of a node that is not in the tree keeps the
    red-black invariant and the links; and when the function's test orders the
    entries, they stay in order and the node comes after the entries that
    are not greater. *)
Theorem rbtree_insert_correct s t node n ks :
  rbtree sentinel s t -> nodes s !! node = Some n -> occ node t = 0%nat -> node <> sentinel ->
  orders less ks -> (node, key n) ∈ ks -> (forall a, a ∈ inorder t -> a ∈ ks) -> ordered less (inorder t) ->
  exists s' t', ngx_rbtree_insert sentinel insert node s = Some (tt, s') /\
    rbtree sentinel s' t' /\ ordered less (inorder t') /\
    inserted less (node, key n) (inorder t) (inorder t').
Proof. apply insert_ordered. Qed.
End insert_theorem.

(** * A small tree

    2 is the root, with 1 and 3 below; the node of key 4 is not in the tree. *)

Definition sample_shape : tree := T false (T true E 11 1 E) 12 2 (T true E 13 3 E).

Definition sample : ngx_rbtree_t := mk_tree 12
  {[ 100 := mk_node 0 0 0 0 0; 11 := mk_node 1 100 100 12 1; 12 := mk_node 2 11 13 0 0;
     13 := mk_node 3 100 100 12 1; 14 := mk_node 4 0 0 0 0 ]}.

Lemma sample_rbtree : rbtree 100 sample sample_shape.
Proof.
  split_and!; [|done|exists 1%nat, 0%nat; by split_and!].
  split_and!; [split|by eexists|by exists 0].
  - intros q. cbn. unfold hit. repeat case_decide; lia.
  - done.
Qed.

Lemma ltb_orders ks : orders (by_key Z.ltb) ks.
Proof. unfold by_key. split; intros *; rewrite ?Z.ltb_ge, ?Z.ltb_lt; lia. Qed.

Lemma rbtree_insert_correct_witness :
  exists s' t', ngx_rbtree_insert 100 (ngx_rbtree_insert_value 100) 14 sample = Some (tt, s') /\
    rbtree 100 s' t' /\ ordered (by_key Z.ltb) (inorder t') /\
    inserted (by_key Z.ltb) (14, 4) [(11, 1); (12, 2); (13, 3)] (inorder t').
Proof.
  apply (rbtree_insert_correct 100 (ngx_rbtree_insert_value 100) (by_key Z.ltb) sample sample_shape 14
    (mk_node 4 0 0 0 0) [(11, 1); (12, 2); (13, 3); (14, 4)]);
    [exact sample_rbtree|reflexivity|reflexivity|lia|apply ltb_orders|set_solver|set_solver|].
  repeat constructor.
Defined.
