(* ===== verification/NgxRbtreeDelete.v ===== *)
(** Deletion from the red-black tree of src/core/ngx_rbtree.c: the definitions
    are in NgxRbtree; here [ngx_rbtree_delete] is shown to remove the node, to
    keep the others in order and to restore the red-black invariant. *)

From stdpp Require Import sorting.
From S2P Require Import Prelude NgxStore NgxRbtree.

Open Scope Z_scope.
Open Scope store_scope.

Section fixup.
Context (sentinel : loc).
Implicit Types (s : ngx_rbtree_t) (ctx : list frame) (t : tree).

(** The subtree at the focus may be empty; then the sentinel's [parent] leads
    up. *)
Definition drep s ctx t : Prop :=
  rep sentinel s ctx t /\
  (t = E -> match ctx with
            | [] => True
            | f :: _ => exists n, nodes s !! sentinel = Some n /\ parent n = frame_loc f
            end).

Lemma run_up s f ctx t :
  drep s (f :: ctx) t -> get parent (ptr sentinel t) s = Some (frame_loc f, s).
Proof.
  intros [H He]. destruct t as [|c l x k r].
  - destruct (He eq_refl) as (n & Hn & <-). by apply get_run_s.
  - by eapply run_parent.
Qed.

(** Black height [n] up to the colour of the root. *)
Definition near_rb t (n : nat) : Prop :=
  match t with
  | T true l _ _ r => rb l n /\ rb r n
  | _ => rb t n
  end.

Lemma near_rb_black t n : near_rb t n -> red_of t = false -> rb t n.
Proof. by destruct t as [|[] ? ? ? ?]. Qed.

(** What the deletion is to leave. *)
Definition repaired s' (t : tree) : Prop :=
  exists t', rep sentinel s' [] t' /\ inorder t' = inorder t /\ red_of t' = false /\ exists n, rb t' n.

Lemma repaired_inorder s t t' : repaired s t -> inorder t = inorder t' -> repaired s t'.
Proof. intros (t1 & H & E & Hr) E'. exists t1. by rewrite <- E'. Qed.

(** The loop ends at the root or at a red node, which is then made black. *)
Definition fixup_done fuel (temp : loc) : MT unit :=
  temp <-- delete_fixup sentinel fuel temp; ngx_rbt_black temp.

Lemma run_black_sentinel s :
  rep sentinel s [] E -> exists s', ngx_rbt_black sentinel s = Some (tt, s') /\ rep sentinel s' [] E.
Proof.
  destruct s as [rt h]. intros (Hd & (n & Hn & Hc) & par & Hr & _). cbn in *.
  unfold ngx_rbt_black. erewrite put_run by done. eexists. split; [reflexivity|].
  split; [done|]. cbn. split; [|by exists par]. eexists. by rewrite lookup_insert_eq.
Qed.

Lemma fixup_stop_root fuel s t n :
  rep sentinel s [] t -> near_rb t n ->
  exists s', fixup_done fuel (ptr sentinel t) s = Some (tt, s') /\ repaired s' t.
Proof.
  intros H Hn. unfold fixup_done.
  assert (delete_fixup sentinel fuel (ptr sentinel t) s = Some (ptr sentinel t, s)) as E1.
  { destruct fuel; cbn [delete_fixup]; (erewrite mthen_run by reflexivity);
      by rewrite (rep_root _ _ _ _ H), bool_decide_true. }
  erewrite mthen_run by exact E1. destruct t as [|c l x k r]; cbn [ptr].
  - destruct (run_black_sentinel s H) as (s' & E2 & H2). exists s'. split; [done|].
    exists E. split_and!; try done. by exists 0%nat.
  - destruct (run_black _ _ _ _ _ _ _ _ H) as (s' & E2 & H2 & _). exists s'. split; [done|].
    exists (T false l x k r). split_and!; try done.
    destruct c; cbn in Hn; [exists (S n), n; by split_and!; try apply Hn|by exists n].
Qed.

Lemma fixup_stop_red fuel s ctx l x k r n :
  rep sentinel s ctx (T true l x k r) -> rb l n -> rb r n -> ctx_rb ctx (S n) ->
  exists s', fixup_done fuel x s = Some (tt, s') /\ repaired s' (plug ctx (T true l x k r)).
Proof.
  intros H Hl Hr Hc. destruct ctx as [|f ctx].
  { by apply (fixup_stop_root fuel s (T true l x k r) n). }
  unfold fixup_done.
  assert (delete_fixup sentinel fuel x s = Some (x, s)) as E1.
  { destruct fuel; cbn [delete_fixup]; rb_read; rewrite (rep_root_T _ _ _ _ _ _ _ _ _ H); by rb_read. }
  erewrite mthen_run by exact E1.
  destruct (run_black _ _ _ _ _ _ _ _ H) as (s' & E2 & H2 & _). exists s'. split; [done|].
  exists (plug (f :: ctx) (T false l x k r)). split; [exact (proj1 (rep_plug _ _ _ _) H2)|].
  split; [by apply inorder_plug|].
  destruct (plug_rb (f :: ctx) (T false l x k r) (S n)) as (m & ? & ?); [done|by exists n|done|].
  split; [auto|]. by exists m.
Qed.
End fixup.

(** Steps of a program that is itself the first part of another. *)
Ltac rb_read' := rewrite ?mthen_assoc; rb_read.
Ltac rb_do' L s' H :=
  let E := fresh "E" in
  let H' := fresh "Hs" in
  destruct L as (s' & E & H & H'); rewrite ?mthen_assoc; erewrite mthen_run by exact E; clear E.

Section left_side.
Context (sentinel : loc).
Implicit Types (s : ngx_rbtree_t) (ctx : list frame) (t : tree).

(** The next turn of the loop, one level up. *)
Definition next_turn fuel ctx : Prop := forall s t n,
  drep sentinel s ctx t -> near_rb t n -> ctx_rb ctx (S n) ->
  exists s', fixup_done sentinel fuel (ptr sentinel t) s = Some (tt, s') /\
    repaired sentinel s' (plug ctx t).

(** The focus keeps its way up when the sentinel is not touched. *)
Lemma drep_same s s' f g ctx ctx' t :
  drep sentinel s (f :: ctx) t -> rep sentinel s' (g :: ctx') t -> frame_loc f = frame_loc g ->
  nodes s' !! sentinel = nodes s !! sentinel -> drep sentinel s' (g :: ctx') t.
Proof. intros [_ H] H' E Hs. split; [done|]. intros He. rewrite Hs, <- E. by apply H. Qed.

Lemma drep_T s ctx c l x k r : rep sentinel s ctx (T c l x k r) -> drep sentinel s ctx (T c l x k r).
Proof. by split. Qed.

(** A tree that is right everywhere ends the loop. *)
Lemma fixup_end fuel s ctx c l x k r n :
  rep sentinel s ctx (T c l x k r) -> rb (T c l x k r) n -> ctx_rb ctx n ->
  (top_red ctx = true -> c = false) -> (ctx = [] -> c = false) ->
  exists s', (temp <-- (r <-- mget root; delete_fixup sentinel fuel r); ngx_rbt_black temp) s
      = Some (tt, s') /\ repaired sentinel s' (plug ctx (T c l x k r)).
Proof.
  intros H Hrb Hc Htop Hroot. rb_read'.
  destruct (plug_rb ctx (T c l x k r) n Hc Hrb Htop) as (m & Hm & Hb).
  pose proof (proj1 (rep_plug _ _ _ _) H) as Hp.
  assert (red_of (plug ctx (T c l x k r)) = false) as Hblk.
  { destruct ctx; [by apply Hroot|by apply Hb]. }
  assert (root s = ptr sentinel (plug ctx (T c l x k r))) as ->.
  { by destruct Hp as (_ & _ & par & Hr & _). }
  apply (fixup_stop_root sentinel fuel s _ m Hp). by destruct (plug _ _) as [|[] ? ? ? ?].
Qed.

Lemma run_copy_color s ctx c l x k r c' ctx' l' y ky r' :
  rep sentinel s ctx (T c l x k r) -> rep sentinel s ctx' (T c' l' y ky r') ->
  exists s', ngx_rbt_copy_color x y s = Some (tt, s') /\ rep sentinel s' ctx (T c' l x k r) /\
    nodes s' !! sentinel = nodes s !! sentinel.
Proof.
  intros Hx Hy. unfold ngx_rbt_copy_color. destruct (rep_node _ _ _ _ _ _ _ _ Hy) as [par Hn].
  erewrite mthen_run by (by eapply get_run_s). cbn [color]. by eapply run_color.
Qed.

(** The sibling is black with a red child on the far side. *)
Lemma delete_left_far fuel s ctx cp p kp wl xw kw rl xr kr rr t n :
  let ctx0 := InLeft cp p kp (T false wl xw kw (T true rl xr kr rr)) :: ctx in
  drep sentinel s ctx0 t -> rb t n -> rb wl n -> rb rl n -> rb rr n ->
  (if cp then ctx <> [] /\ top_red ctx = false /\ ctx_rb ctx (S n) else ctx_rb ctx (S (S n))) ->
  exists s', (temp <-- (up <-- get parent (ptr sentinel t);
                        ngx_rbt_copy_color xw up ;; ngx_rbt_black up ;;
                        wr <-- get right xw; ngx_rbt_black wr ;;
                        ngx_rbtree_left_rotate sentinel up ;;
                        r <-- mget root; delete_fixup sentinel fuel r);
              ngx_rbt_black temp) s
      = Some (tt, s') /\ repaired sentinel s' (plug ctx0 t).
Proof.
  intros ctx0 Hd Ht Hwl Hrl Hrr Hc. pose proof Hd as [H _].
  pose proof (proj2 (rep_left _ _ _ _ _ _ _ _) H) as Hp.
  pose proof (proj1 (rep_right _ _ _ _ _ _ _ _) Hp) as Hw.
  rewrite mthen_assoc. erewrite mthen_run by (by eapply run_up). cbn [frame_loc].
  rb_do' (run_copy_color _ _ _ _ _ _ _ _ _ _ _ _ _ Hw Hp) s1 Hw1.
  rb_do' (run_black _ _ _ _ _ _ _ _ (proj2 (rep_right _ _ _ _ _ _ _ _) Hw1)) s2 Hp2.
  pose proof (proj1 (rep_right _ _ _ _ _ _ _ _) Hp2) as Hw2. rb_read'.
  rb_do' (run_black _ _ _ _ _ _ _ _ (proj1 (rep_right _ _ _ _ _ _ _ _) Hw2)) s3 Hr3.
  pose proof (proj2 (rep_right _ _ _ _ _ _ _ _) (proj2 (rep_right _ _ _ _ _ _ _ _) Hr3)) as Hp3.
  rb_do' (left_rotate_rep _ _ _ _ _ _ _ _ _ _ _ _ Hp3) s4 Hw4.
  assert (rb (T cp (T false t p kp wl) xw kw (T false rl xr kr rr)) (if cp then S n else S (S n))) as Hrb.
  { destruct cp; cbn; [split_and!; try done; by exists n|]. exists (S n). split_and!; [done|by exists n..]. }
  edestruct (fixup_end fuel s4 ctx) as (s' & E & Hre); [exact Hw4|exact Hrb| | | |].
  - destruct cp; [apply Hc|exact Hc].
  - destruct cp; [|done]. destruct Hc as (_ & -> & _). done.
  - destruct cp; [|done]. destruct Hc as [? _]. done.
  - exists s'. split; [exact E|]. eapply repaired_inorder; [exact Hre|]. subst ctx0. cbn [plug].
    apply inorder_plug. same_order.
Qed.

Lemma delete_left_black_correct fuel s ctx cp p kp wl xw kw wr t n :
  let ctx0 := InLeft cp p kp (T false wl xw kw wr) :: ctx in
  drep sentinel s ctx0 t -> rb t n -> red_of t = false -> ctx_rb ctx0 (S n) ->
  (cp = true \/ next_turn fuel ctx) ->
  exists s', (temp <-- delete_left_black sentinel (delete_fixup sentinel fuel) (ptr sentinel t) xw;
              ngx_rbt_black temp) s = Some (tt, s') /\ repaired sentinel s' (plug ctx0 t).
Proof.
  intros ctx0 Hd Ht Hblk (Hw & Hc) Hnext. cbn [frame_red] in Hc. pose proof Hd as [H _].
  destruct Hw as (n' & E & Hwl & Hwr). injection E as <-.
  pose proof (proj2 (rep_left _ _ _ _ _ _ _ _) H) as Hp.
  pose proof (proj1 (rep_right _ _ _ _ _ _ _ _) Hp) as Hw.
  pose proof (proj1 (rep_left _ _ _ _ _ _ _ _) Hw) as Hl.
  pose proof (proj1 (rep_right _ _ _ _ _ _ _ _) Hw) as Hr.
  unfold delete_left_black. do 3 rb_read'.
  destruct (red_of wl) eqn:Ewl; cbn [negb]; [|rb_read'; destruct (red_of wr) eqn:Ewr; cbn [negb andb]].
  - (* the near child is red *)
    destruct wl as [|[] la xl kl lb]; [done| |done]. pose proof Hwl as (Hla & Hlb & _ & _).
    do 2 rb_read'. destruct (red_of wr) eqn:Ewr; cbn [negb].
    + destruct wr as [|[] rl xr kr rr]; [done| |done]. destruct Hwr as (Hrl & Hrr & _ & _).
      rb_read'. eapply (delete_left_far fuel _ _ _ _ _ _ _ _ _ _ _ _ _ n); [done..|].
      destruct cp; [by destruct Hc as [_ ?]|done].
    + rb_do' (run_black _ _ _ _ _ _ _ _ Hl) s1 Hl1.
      rb_do' (run_red _ _ _ _ _ _ _ _ (proj2 (rep_left _ _ _ _ _ _ _ _) Hl1)) s2 Hw2.
      rb_do' (right_rotate_rep _ _ _ _ _ _ _ _ _ _ _ _ Hw2) s3 Hl3.
      pose proof (proj2 (rep_right _ _ _ _ _ _ _ _) Hl3) as Hp3.
      pose proof (proj1 (rep_left _ _ _ _ _ _ _ _) Hp3) as Ht3.
      assert (drep sentinel s3 (InLeft cp p kp (T false la xl kl (T true lb xw kw wr)) :: ctx) t) as Hd3.
      { eapply drep_same; [exact Hd|exact Ht3|done|congruence]. }
      rewrite ?mthen_assoc; erewrite mthen_run by (by eapply run_up). cbn [frame_loc]. rb_read'.
      destruct (delete_left_far fuel _ _ _ _ _ _ _ _ _ _ _ _ _ n Hd3) as (s' & E & Hre); [done..| |].
      { destruct cp; [by destruct Hc as [_ ?]|done]. }
      exists s'. split; [exact E|]. eapply repaired_inorder; [exact Hre|]. subst ctx0. cbn [plug].
      apply inorder_plug. same_order.
  - destruct wr as [|[] rl xr kr rr]; [done| |done]. destruct Hwr as (Hrl & Hrr & _ & _).
    do 2 rb_read'.
    eapply (delete_left_far fuel _ _ _ _ _ _ _ _ _ _ _ _ _ n); [done..|].
    destruct cp; [by destruct Hc as [_ ?]|done].
  - (* both black *)
    rb_do' (run_red _ _ _ _ _ _ _ _ Hw) s1 Hw1.
    pose proof (proj2 (rep_right _ _ _ _ _ _ _ _) Hw1) as Hp1.
    pose proof (proj1 (rep_left _ _ _ _ _ _ _ _) Hp1) as Ht1.
    pose proof (drep_same _ _ _ _ _ _ _ Hd Ht1 eq_refl Hs) as Hd1.
    rewrite ?mthen_assoc; erewrite mthen_run by (by eapply run_up). cbn [frame_loc].
    assert (rb (T true wl xw kw wr) n) as Hwr1 by by split_and!.
    destruct cp.
    + destruct Hc as (_ & _ & _ & Hc).
      destruct (fixup_stop_red sentinel fuel s1 ctx _ _ _ _ n Hp1) as (s' & E & Hre); [done..|].
      exists s'. split; [exact E|]. eapply repaired_inorder; [exact Hre|]. subst ctx0. cbn [plug].
      by apply inorder_plug.
    + destruct Hnext as [?|Hnext]; [done|].
      destruct (Hnext s1 _ (S n) (drep_T _ _ _ _ _ _ _ Hp1)) as (s' & E & Hre);
        [by exists n|done|].
      exists s'. split; [exact E|]. eapply repaired_inorder; [exact Hre|]. subst ctx0. cbn [plug].
      by apply inorder_plug.
Qed.

Lemma delete_left_correct fuel s ctx cp p kp w t n :
  let ctx0 := InLeft cp p kp w :: ctx in
  drep sentinel s ctx0 t -> rb t n -> red_of t = false -> ctx_rb ctx0 (S n) -> next_turn fuel ctx ->
  exists s', (temp <-- delete_left sentinel (delete_fixup sentinel fuel) (ptr sentinel t) p;
              ngx_rbt_black temp) s = Some (tt, s') /\ repaired sentinel s' (plug ctx0 t).
Proof.
  intros ctx0 Hd Ht Hblk Hcc Hnext. pose proof Hd as [H _]. pose proof Hcc as (Hw & Hc).
  pose proof (proj2 (rep_left _ _ _ _ _ _ _ _) H) as Hp.
  destruct w as [|cw wl xw kw wr]; [done|]. unfold delete_left.
  pose proof (proj1 (rep_right _ _ _ _ _ _ _ _) Hp) as Hw'. do 2 rb_read'. destruct cw; cbn [frame_red] in Hc.
  - destruct cp; [by destruct Hc|]. destruct Hw as (Hwl & Hwr & Hbl & Hbr).
    rb_do' (run_black _ _ _ _ _ _ _ _ Hw') s1 Hw1.
    rb_do' (run_red _ _ _ _ _ _ _ _ (proj2 (rep_right _ _ _ _ _ _ _ _) Hw1)) s2 Hp2.
    rb_do' (left_rotate_rep _ _ _ _ _ _ _ _ _ _ _ _ Hp2) s3 Hw3.
    pose proof (proj1 (rep_left _ _ _ _ _ _ _ _) Hw3) as Hp3.
    pose proof (proj1 (rep_left _ _ _ _ _ _ _ _) Hp3) as Ht3.
    assert (drep sentinel s3 (InLeft true p kp wl :: InLeft false xw kw wr :: ctx) t) as Hd3.
    { eapply drep_same; [exact Hd|exact Ht3|done|congruence]. }
    rewrite ?mthen_assoc; erewrite mthen_run by (by eapply run_up). cbn [frame_loc].
    destruct wl as [|[] la xl kl lb]; [done..|]. rb_read'.
    destruct (delete_left_black_correct fuel _ _ _ _ _ _ _ _ _ _ n Hd3) as (s' & E & Hre);
      [done|done|by cbn; split_and!|by left|].
    exists s'. split; [exact E|]. eapply repaired_inorder; [exact Hre|]. subst ctx0. cbn [plug].
    apply inorder_plug. same_order.
  - rb_read'. eapply delete_left_black_correct; [done..|by right].
Qed.
End left_side.

(** The mirror image. *)
Section right_side.
Context (sentinel : loc).
Implicit Types (s : ngx_rbtree_t) (ctx : list frame) (t : tree).

Lemma delete_right_far fuel s ctx cp p kp ll xl kl lr xw kw wr t n :
  let ctx0 := InRight cp (T false (T true ll xl kl lr) xw kw wr) p kp :: ctx in
  drep sentinel s ctx0 t -> rb t n -> rb wr n -> rb ll n -> rb lr n ->
  (if cp then ctx <> [] /\ top_red ctx = false /\ ctx_rb ctx (S n) else ctx_rb ctx (S (S n))) ->
  exists s', (temp <-- (up <-- get parent (ptr sentinel t);
                        ngx_rbt_copy_color xw up ;; ngx_rbt_black up ;;
                        wl <-- get left xw; ngx_rbt_black wl ;;
                        ngx_rbtree_right_rotate sentinel up ;;
                        r <-- mget root; delete_fixup sentinel fuel r);
              ngx_rbt_black temp) s
      = Some (tt, s') /\ repaired sentinel s' (plug ctx0 t).
Proof.
  intros ctx0 Hd Ht Hwr Hll Hlr Hc. pose proof Hd as [H _].
  pose proof (proj2 (rep_right _ _ _ _ _ _ _ _) H) as Hp.
  pose proof (proj1 (rep_left _ _ _ _ _ _ _ _) Hp) as Hw.
  rewrite mthen_assoc. erewrite mthen_run by (by eapply run_up). cbn [frame_loc].
  rb_do' (run_copy_color _ _ _ _ _ _ _ _ _ _ _ _ _ _ Hw Hp) s1 Hw1.
  rb_do' (run_black _ _ _ _ _ _ _ _ (proj2 (rep_left _ _ _ _ _ _ _ _) Hw1)) s2 Hp2.
  pose proof (proj1 (rep_left _ _ _ _ _ _ _ _) Hp2) as Hw2. rb_read'.
  rb_do' (run_black _ _ _ _ _ _ _ _ (proj1 (rep_left _ _ _ _ _ _ _ _) Hw2)) s3 Hr3.
  pose proof (proj2 (rep_left _ _ _ _ _ _ _ _) (proj2 (rep_left _ _ _ _ _ _ _ _) Hr3)) as Hp3.
  rb_do' (right_rotate_rep _ _ _ _ _ _ _ _ _ _ _ _ Hp3) s4 Hw4.
  assert (rb (T cp (T false ll xl kl lr) xw kw (T false wr p kp t)) (if cp then S n else S (S n))) as Hrb.
  { destruct cp; cbn; [split_and!; try done; by exists n|]. exists (S n). split_and!; [done|by exists n..]. }
  edestruct (fixup_end sentinel fuel s4 ctx) as (s' & E & Hre); [exact Hw4|exact Hrb| | | |].
  - destruct cp; [apply Hc|exact Hc].
  - destruct cp; [|done]. destruct Hc as (_ & -> & _). done.
  - destruct cp; [|done]. destruct Hc as [? _]. done.
  - exists s'. split; [exact E|]. eapply repaired_inorder; [exact Hre|]. subst ctx0. cbn [plug].
    apply inorder_plug. same_order.
Qed.

Lemma delete_right_black_correct fuel s ctx cp p kp wl xw kw wr t n :
  let ctx0 := InRight cp (T false wl xw kw wr) p kp :: ctx in
  drep sentinel s ctx0 t -> rb t n -> red_of t = false -> ctx_rb ctx0 (S n) ->
  (cp = true \/ next_turn sentinel fuel ctx) ->
  exists s', (temp <-- delete_right_black sentinel (delete_fixup sentinel fuel) (ptr sentinel t) xw;
              ngx_rbt_black temp) s = Some (tt, s') /\ repaired sentinel s' (plug ctx0 t).
Proof.
  intros ctx0 Hd Ht Hblk (Hw & Hc) Hnext. cbn [frame_red] in Hc. pose proof Hd as [H _].
  destruct Hw as (n' & E & Hwl & Hwr). injection E as <-.
  pose proof (proj2 (rep_right _ _ _ _ _ _ _ _) H) as Hp.
  pose proof (proj1 (rep_left _ _ _ _ _ _ _ _) Hp) as Hw.
  pose proof (proj1 (rep_left _ _ _ _ _ _ _ _) Hw) as Hl.
  pose proof (proj1 (rep_right _ _ _ _ _ _ _ _) Hw) as Hr.
  unfold delete_right_black. do 3 rb_read'.
  destruct (red_of wl) eqn:Ewl; cbn [negb]; [|rb_read'; destruct (red_of wr) eqn:Ewr; cbn [negb andb]].
  - destruct wl as [|[] ll xl kl lr]; [done| |done]. destruct Hwl as (Hll & Hlr & _ & _).
    do 3 rb_read'.
    eapply (delete_right_far fuel _ _ _ _ _ _ _ _ _ _ _ _ _ n); [done..|].
    destruct cp; [by destruct Hc as [_ ?]|done].
  - (* the near child is red *)
    destruct wr as [|[] ra xr kr rb']; [done| |done]. pose proof Hwr as (Hra & Hrb & _ & _).
    rb_read'. rewrite Ewl. cbn [negb].
    rb_do' (run_black _ _ _ _ _ _ _ _ Hr) s1 Hr1.
    rb_do' (run_red _ _ _ _ _ _ _ _ (proj2 (rep_right _ _ _ _ _ _ _ _) Hr1)) s2 Hw2.
    rb_do' (left_rotate_rep _ _ _ _ _ _ _ _ _ _ _ _ Hw2) s3 Hr3.
    pose proof (proj2 (rep_left _ _ _ _ _ _ _ _) Hr3) as Hp3.
    pose proof (proj1 (rep_right _ _ _ _ _ _ _ _) Hp3) as Ht3.
    assert (drep sentinel s3 (InRight cp (T false (T true wl xw kw ra) xr kr rb') p kp :: ctx) t) as Hd3.
    { eapply drep_same; [exact Hd|exact Ht3|done|congruence]. }
    rewrite ?mthen_assoc; erewrite mthen_run by (by eapply run_up). cbn [frame_loc]. rb_read'.
    destruct (delete_right_far fuel _ _ _ _ _ _ _ _ _ _ _ _ _ n Hd3) as (s' & E & Hre); [done..| |].
    { destruct cp; [by destruct Hc as [_ ?]|done]. }
    exists s'. split; [exact E|]. eapply repaired_inorder; [exact Hre|]. subst ctx0. cbn [plug].
    apply inorder_plug. same_order.
  - (* both black *)
    rb_do' (run_red _ _ _ _ _ _ _ _ Hw) s1 Hw1.
    pose proof (proj2 (rep_left _ _ _ _ _ _ _ _) Hw1) as Hp1.
    pose proof (proj1 (rep_right _ _ _ _ _ _ _ _) Hp1) as Ht1.
    pose proof (drep_same _ _ _ _ _ _ _ _ Hd Ht1 eq_refl Hs) as Hd1.
    rewrite ?mthen_assoc; erewrite mthen_run by (by eapply run_up). cbn [frame_loc].
    assert (rb (T true wl xw kw wr) n) as Hwr1 by by split_and!.
    destruct cp.
    + destruct Hc as (_ & _ & _ & Hc).
      destruct (fixup_stop_red sentinel fuel s1 ctx _ _ _ _ n Hp1) as (s' & E & Hre); [done..|].
      exists s'. split; [exact E|]. eapply repaired_inorder; [exact Hre|]. subst ctx0. cbn [plug].
      apply inorder_plug. same_order.
    + destruct Hnext as [?|Hnext]; [done|].
      destruct (Hnext s1 _ (S n) (drep_T _ _ _ _ _ _ _ _ Hp1)) as (s' & E & Hre);
        [by exists n|done|].
      exists s'. split; [exact E|]. eapply repaired_inorder; [exact Hre|]. subst ctx0. cbn [plug].
      apply inorder_plug. same_order.
Qed.

Lemma delete_right_correct fuel s ctx cp p kp w t n :
  let ctx0 := InRight cp w p kp :: ctx in
  drep sentinel s ctx0 t -> rb t n -> red_of t = false -> ctx_rb ctx0 (S n) ->
  next_turn sentinel fuel ctx ->
  exists s', (temp <-- delete_right sentinel (delete_fixup sentinel fuel) (ptr sentinel t) p;
              ngx_rbt_black temp) s = Some (tt, s') /\ repaired sentinel s' (plug ctx0 t).
Proof.
  intros ctx0 Hd Ht Hblk Hcc Hnext. pose proof Hd as [H _]. pose proof Hcc as (Hw & Hc).
  pose proof (proj2 (rep_right _ _ _ _ _ _ _ _) H) as Hp.
  destruct w as [|cw wl xw kw wr]; [done|]. unfold delete_right.
  pose proof (proj1 (rep_left _ _ _ _ _ _ _ _) Hp) as Hw'. do 2 rb_read'. destruct cw; cbn [frame_red] in Hc.
  - destruct cp; [by destruct Hc|]. destruct Hw as (Hwl & Hwr & Hbl & Hbr).
    rb_do' (run_black _ _ _ _ _ _ _ _ Hw') s1 Hw1.
    rb_do' (run_red _ _ _ _ _ _ _ _ (proj2 (rep_left _ _ _ _ _ _ _ _) Hw1)) s2 Hp2.
    rb_do' (right_rotate_rep _ _ _ _ _ _ _ _ _ _ _ _ Hp2) s3 Hw3.
    pose proof (proj1 (rep_right _ _ _ _ _ _ _ _) Hw3) as Hp3.
    pose proof (proj1 (rep_right _ _ _ _ _ _ _ _) Hp3) as Ht3.
    assert (drep sentinel s3 (InRight true wr p kp :: InRight false wl xw kw :: ctx) t) as Hd3.
    { eapply drep_same; [exact Hd|exact Ht3|done|congruence]. }
    rewrite ?mthen_assoc; erewrite mthen_run by (by eapply run_up). cbn [frame_loc].
    destruct wr as [|[] ra xr kr rb']; [done..|]. rb_read'.
    destruct (delete_right_black_correct fuel _ _ _ _ _ _ _ _ _ _ n Hd3) as (s' & E & Hre);
      [done|done|by cbn; split_and!|by left|].
    exists s'. split; [exact E|]. eapply repaired_inorder; [exact Hre|]. subst ctx0. cbn [plug].
    apply inorder_plug. same_order.
  - rb_read'. eapply delete_right_black_correct; [done..|by right].
Qed.

(** The loop restores the invariant. *)
Lemma delete_fixup_correct fuel ctx :
  (length ctx <= fuel)%nat -> next_turn sentinel fuel ctx.
Proof.
  revert ctx. induction fuel as [|fuel IH]; intros ctx Hf s t n Hd Ht Hc;
    (destruct ctx as [|f ctx]; [destruct Hd as [H _]; by eapply fixup_stop_root|]); [cbn in Hf; lia|].
  pose proof Hd as [H _]. destruct (red_of t) eqn:Er.
  { destruct t as [|[] l x k r]; [done| |done]. destruct Ht. by eapply fixup_stop_red. }
  apply near_rb_black in Ht; [|done]. unfold fixup_done. cbn [delete_fixup].
  rewrite mthen_assoc. rb_read. rewrite (rep_root _ _ _ _ H), bool_decide_false by done.
  rb_read'. rewrite Er. cbn [negb]. rewrite mthen_assoc. erewrite mthen_run by (by eapply run_up).
  assert (next_turn sentinel fuel ctx) as Hn by (apply IH; cbn in Hf; lia).
  destruct f as [cp p kp w|cp w p kp]; cbn [frame_loc].
  - pose proof (proj2 (rep_left _ _ _ _ _ _ _ _) H) as Hp. rb_read'.
    by eapply delete_left_correct.
  - pose proof (proj2 (rep_right _ _ _ _ _ _ _ _) H) as Hp. rb_read'.
    rewrite (proj2 (Z.eqb_neq _ _)); [by eapply delete_right_correct|].
    apply not_eq_sym, (rep_children _ _ _ _ _ _ _ _ Hp). left. intros ->. by destruct Hc as [? _].
Qed.
End right_side.

(** * Unlinking the node *)

Section unlink.
Context (sentinel : loc).
Implicit Types (s : ngx_rbtree_t) (ctx : list frame) (t : tree).

Lemma rep_app s lctx ctx t : rep sentinel s (lctx ++ ctx) t <-> rep sentinel s ctx (plug lctx t).
Proof.
  revert t. induction lctx as [|[c x k r|c l x k] lctx IH]; intros t; [done|..]; cbn.
  - by rewrite <- IH, rep_left.
  - by rewrite <- IH, rep_right.
Qed.

(** A node outside the tree can hold anything. *)
Lemma rep_outside rt h ctx t q n :
  rep sentinel (mk_tree rt h) ctx t -> (occ_ctx q ctx + occ q t = 0)%nat -> q <> sentinel ->
  rep sentinel (mk_tree rt (<[q := n]> h)) ctx t.
Proof.
  intros (Hd & (ns & Hns & Hc) & par & Hctx & Ht) Hq Hqs. split; [done|]. cbn in *. split.
  - exists ns. by rewrite lookup_insert_ne.
  - exists par. split; [apply ctx_in_insert; [lia|done]|apply tree_in_insert; [lia|done]].
Qed.

Lemma drep_outside rt h ctx t q n :
  drep sentinel (mk_tree rt h) ctx t -> (occ_ctx q ctx + occ q t = 0)%nat -> q <> sentinel ->
  drep sentinel (mk_tree rt (<[q := n]> h)) ctx t.
Proof.
  intros [H He] Hq Hqs. split; [by apply rep_outside|]. intros Ht. specialize (He Ht).
  destruct ctx; [done|]. destruct He as (m & Hm & ?). exists m. cbn in *. by rewrite lookup_insert_ne.
Qed.

Lemma clear_run s ctx t q n :
  drep sentinel s ctx t -> (occ_ctx q ctx + occ q t = 0)%nat -> q <> sentinel ->
  nodes s !! q = Some n ->
  exists s', clear_node q s = Some (tt, s') /\ drep sentinel s' ctx t.
Proof.
  destruct s as [rt h]. intros H Hq Hqs Hn. cbn in Hn. unfold clear_node. steps.
  erewrite put_run by find_node. eexists. split; [reflexivity|]. rewrite !insert_insert_eq.
  by apply drep_outside.
Qed.

(** After the node is gone: done if it was red, else the loop. *)
Definition delete_end (red : bool) (temp : loc) : MT unit :=
  if red then mret tt
  else
    fuel <-- mget (fun s => size (nodes s));
    temp <-- delete_fixup sentinel fuel temp;
    ngx_rbt_black temp.

Lemma delete_end_correct s f ctx t (red : bool) n :
  drep sentinel s (f :: ctx) t -> rb t n ->
  (if red then red_of t = false /\ ctx_rb (f :: ctx) n else ctx_rb (f :: ctx) (S n)) ->
  exists s', delete_end red (ptr sentinel t) s = Some (tt, s') /\
    repaired sentinel s' (plug (f :: ctx) t).
Proof.
  intros Hd Ht Hc. unfold delete_end. destruct red.
  - exists s. split; [done|]. destruct Hd as [H _]. destruct Hc as [Hblk Hc].
    exists (plug (f :: ctx) t). split; [exact (proj1 (rep_plug _ _ _ _) H)|]. split; [done|].
    destruct (plug_rb (f :: ctx) t n Hc Ht) as (m & Hm & Hb); [done|]. split; [by apply Hb|by exists m].
  - rb_read. apply (delete_fixup_correct sentinel (size (nodes s)) (f :: ctx)) with n; try done.
    + destruct Hd as [H _]. apply rep_length in H. lia.
    + destruct t as [|[] ? ? ? ?]; [done| |done]. cbn in *. tauto.
Qed.

(** [temp->parent = q], for the sentinel too. *)
Lemma set_parent_run rt h t par q :
  tree_in sentinel h par t -> occ sentinel t = 0%nat -> (forall z, (occ z t <= 1)%nat) ->
  sentinel_in sentinel h ->
  exists h', put parent (ptr sentinel t) q (mk_tree rt h) = Some (tt, mk_tree rt h') /\
    tree_in sentinel h' q t /\ sentinel_in sentinel h' /\
    (t = E -> exists n, h' !! sentinel = Some n /\ parent n = q) /\
    (forall z, occ z t = 0%nat -> z <> sentinel -> h' !! z = h !! z).
Proof.
  intros Ht Hs Hd (ns & Hns & Hc). destruct t as [|c l x k r]; cbn in *.
  - erewrite put_run by done. eexists. split; [reflexivity|]. split_and!; [done|..].
    + eexists. by rewrite lookup_insert_eq.
    + intros _. eexists. by rewrite lookup_insert_eq.
    + intros z _ Hz. by apply lookup_insert_ne.
  - destruct Ht as (Hx & Hl & Hr). pose proof (Hd x) as Dx. rewrite hit_eq in Dx.
    erewrite put_run by done. eexists. split; [reflexivity|]. split_and!; try done.
    + by rewrite lookup_insert_eq.
    + apply tree_in_insert; [lia|done].
    + apply tree_in_insert; [lia|done].
    + exists ns. rewrite lookup_insert_ne by (apply hit_ne; lia). done.
    + intros z Hz _. apply lookup_insert_ne, hit_ne. lia.
Qed.
End unlink.

Section remove.
Context (sentinel : loc).
Implicit Types (s : ngx_rbtree_t) (ctx : list frame) (t : tree).

(** A node with at most one child: [subst == node]. *)
Lemma splice_run s f ctx c l x k r d :
  rep sentinel s (f :: ctx) (T c l x k r) -> (l = E /\ d = r \/ r = E /\ d = l) ->
  exists s1, (spl <-- get left (frame_loc f);
              (if x =? spl then put left (frame_loc f) (ptr sentinel d)
               else put right (frame_loc f) (ptr sentinel d)) ;;
              put parent (ptr sentinel d) (frame_loc f)) s = Some (tt, s1) /\
    drep sentinel s1 (f :: ctx) d /\ exists n, nodes s1 !! x = Some n.
Proof.
  destruct s as [rt h]. intros H Hdl. pose proof (rep_root_T _ _ _ _ _ _ _ _ _ H) as Hrt.
  destruct H as ((Hd & Hs) & Hse & par & Hctx & Hx & Hl & Hr). cbn [nodes root] in *.
  assert (par = frame_loc f) as Ep by (by destruct f; destruct Hctx as [-> _]).
  assert (tree_in sentinel h x d /\ (forall z, (occ z d <= occ z (T c l x k r) - hit x z)%nat)) as [Htd Hod].
  { destruct Hdl as [[-> ->]|[-> ->]]; (split; [done|]); intros z; cbn; lia. }
  pose proof (Hd x) as Dx. cbn [occ] in Dx. rewrite hit_eq in Dx.
  assert (x <> sentinel) as Hxs by (apply hit_ne; cbn [occ] in Hs; lia).
  destruct (relink_run sentinel rt h (f :: ctx) x (ptr sentinel d) par Hctx) as
    (rt' & h1 & E1 & _ & Hc1 & F1); [intros z; specialize (Hd z); lia|lia|done|].
  rewrite Hrt, Ep in E1.
  destruct (set_parent_run sentinel rt' h1 d x (frame_loc f)) as (h2 & E2 & Ht2 & Hse2 & Hn2 & F2).
  { eapply tree_in_frame; [|exact Htd]. intros z Hz. specialize (Hod z). specialize (Hd z). apply F1. lia. }
  { specialize (Hod sentinel). lia. }
  { intros z. specialize (Hod z). specialize (Hd z). lia. }
  { destruct Hse as (ns & Hns & ?). exists ns. rewrite F1 by lia. done. }
  eexists (mk_tree rt' h2). split.
  { rewrite <- mthen_assoc. erewrite mthen_run; [exact E2|exact E1]. }
  split; [split; [split; [split|split]|]|]; cbn [nodes root].
  - intros z. specialize (Hod z). specialize (Hd z). cbn [occ] in *. lia.
  - specialize (Hod sentinel). cbn [occ] in *. lia.
  - done.
  - exists (frame_loc f). split; [|done]. rewrite Ep in Hc1. eapply ctx_in_frame; [|exact Hc1].
    intros z Hz. apply F2; [specialize (Hod z); specialize (Hd z); lia|]. intros ->. lia.
  - exact Hn2.
  - eexists. rewrite F2; [rewrite F1 by lia; exact Hx| |done]. specialize (Hod x). cbn [occ] in Hod. lia.
Qed.
End remove.

Section replace.
Context (sentinel : loc).
Implicit Types (s : ngx_rbtree_t) (ctx : list frame) (t : tree).

(** [subst] takes the place of [node], whose right subtree may still have any
    [parent]. *)
Lemma replace_run rt h ctx c l x k r par q y ny :
  distinct sentinel ctx (T c l x k r) -> sentinel_in sentinel h ->
  ctx_in sentinel h rt ctx x par ->
  h !! x = Some (mk_node k (ptr sentinel l) (ptr sentinel r) par (b2c c)) ->
  tree_in sentinel h x l -> tree_in sentinel h q r ->
  h !! y = Some ny -> (occ_ctx y ctx + occ y (T c l x k r) = 0)%nat -> y <> sentinel ->
  exists s', (nl <-- get left x; put left y nl ;; nr <-- get right x; put right y nr ;;
              np <-- get parent x; put parent y np ;; ngx_rbt_copy_color y x ;;
              r <-- mget root;
              (if x =? r then set_root y
               else
                 npl <-- get left np;
                 if x =? npl then put left np y else put right np y) ;;
              sl <-- get left y;
              (if negb (sl =? sentinel) then put parent sl y else mret tt) ;;
              sr <-- get right y;
              (if negb (sr =? sentinel) then put parent sr y else mret tt)) (mk_tree rt h)
      = Some (tt, s') /\
    rep sentinel s' ctx (T c l y (key ny) r) /\ nodes s' !! sentinel = h !! sentinel /\
    exists n, nodes s' !! x = Some n.
Proof.
  intros [Hd Hs] Hse Hctx Hx Hl Hr Hy Hyo Hys. cbn [occ] in *.
  pose proof (Hd x) as Dx. rewrite hit_eq in Dx.
  assert (x <> sentinel /\ x <> y) as [Hxs Hxy] by (split; apply hit_ne; lia).
  unfold ngx_rbt_copy_color. do 6 step1. rewrite mthen_assoc. do 3 step1. rewrite !insert_insert_eq.
  set (h1 := <[y := _]> h).
  destruct (relink_run sentinel rt h1 ctx x y par) as (rt' & h2 & E2 & _ & Hc2 & F2);
    [apply ctx_in_insert; [lia|done]|intros z; specialize (Hd z); lia|lia|done|].
  erewrite mthen_run by exact E2.
  assert (h2 !! y = Some (mk_node (key ny) (ptr sentinel l) (ptr sentinel r) par (b2c c))) as Hy2.
  { rewrite F2 by lia. apply lookup_insert_eq. }
  assert (forall z, z <> y -> occ_ctx z ctx = 0%nat -> h2 !! z = h !! z) as F2'.
  { intros z Hz Hzc. rewrite F2 by done. by apply lookup_insert_ne. }
  step1.
  destruct (reparent_run sentinel rt' h2 l x y) as (h3 & E3 & Hl3 & F3);
    [eapply tree_in_frame; [|exact Hl]; intros z Hz; specialize (Hd z); apply F2'; [intros ->; lia|lia]
    |lia|intros z; specialize (Hd z); lia|].
  erewrite mthen_run by exact E3.
  assert (h3 !! y = Some (mk_node (key ny) (ptr sentinel l) (ptr sentinel r) par (b2c c))) as Hy3
    by (rewrite F3 by lia; done).
  step1.
  destruct (reparent_run sentinel rt' h3 r q y) as (h4 & E4 & Hr4 & F4);
    [eapply tree_in_frame; [|exact Hr]; intros z Hz; specialize (Hd z); rewrite F3 by lia;
       apply F2'; [intros ->; lia|lia]
    |lia|intros z; specialize (Hd z); lia|].
  exists (mk_tree rt' h4). split; [exact E4|]. cbn [nodes].
  assert (h4 !! sentinel = h !! sentinel) as Hsent.
  { rewrite F4, F3 by lia. apply F2'; [done|lia]. }
  split; [|split; [done|]].
  - split; [split; cbn [occ]|split; cbn [nodes root]].
    + intros z. specialize (Hd z). unfold hit in *. repeat case_decide; subst; lia.
    + rewrite (proj2 (hit_ne y sentinel)) by done. lia.
    + destruct Hse as (ns & Hns & ?). exists ns. by rewrite Hsent.
    + exists par. split.
      * eapply ctx_in_frame; [|exact Hc2]. intros z Hz. specialize (Hd z). by rewrite F4, F3 by lia.
      * cbn. split_and!; [rewrite F4, F3 by lia; done| |done].
        eapply tree_in_frame; [|exact Hl3]. intros z Hz. specialize (Hd z). apply F4. lia.
  - eexists. rewrite F4, F3 by lia. rewrite F2' by (done || lia). exact Hx.
Qed.
End replace.

Section both.
Context (sentinel : loc).
Implicit Types (s : ngx_rbtree_t) (ctx : list frame) (t : tree).

Definition is_left (f : frame) : bool := match f with InLeft _ _ _ _ => true | _ => false end.

Lemma min_loop_run fuel s ctx c l x k r :
  rep sentinel s ctx (T c l x k r) -> (size (nodes s) <= fuel + length ctx)%nat ->
  exists lctx cs y ky rs, min_loop sentinel fuel x s = Some (y, s) /\
    T c l x k r = plug lctx (T cs E y ky rs) /\ Forall (fun f => is_left f = true) lctx.
Proof.
  revert ctx c l x k r. induction fuel as [|fuel IH]; intros ctx c l x k r H Hf;
    pose proof (proj1 (rep_left _ _ _ _ _ _ _ _) H) as Hl; cbn [min_loop]; rb_read;
    (destruct l as [|c' l' y ky r'];
      [cbn [ptr]; rewrite Z.eqb_refl; exists [], c, x, k, r; by split_and!|]);
    cbn [ptr]; (rewrite (proj2 (Z.eqb_neq y sentinel));
      [|destruct Hl as ((_ & Hs) & _); cbn in Hs; apply hit_ne; lia]).
  { apply rep_length in Hl. cbn in Hl. lia. }
  destruct (IH _ _ _ _ _ _ Hl) as (lctx & cs & z & kz & rs & E1 & E2 & Hall); [cbn; lia|].
  exists (lctx ++ [InLeft c x k r]), cs, z, kz, rs. split; [done|]. split.
  - by rewrite plug_app, <- E2.
  - apply Forall_app. by split; [|constructor].
Qed.

Lemma frame_loc_app lctx f ctx : exists g ctx', lctx ++ f :: ctx = g :: ctx'.
Proof. destruct lctx; cbn; eauto. Qed.

Lemma occ_ctx_app q lctx ctx : occ_ctx q (lctx ++ ctx) = (occ_ctx q lctx + occ_ctx q ctx)%nat.
Proof. induction lctx as [|[] lctx IH]; cbn; [done|lia..]. Qed.

(** A node on the way up, seen from itself. *)
Lemma split_ctx rt h lctx c l x k ctx t par q :
  distinct sentinel ctx (T c l x k (plug lctx t)) -> sentinel_in sentinel h ->
  ctx_in sentinel h rt (lctx ++ InRight c l x k :: ctx) (ptr sentinel t) par ->
  tree_in sentinel h q t /\ (lctx <> [] -> q = par) ->
  exists par' q', ctx_in sentinel h rt ctx x par' /\
    h !! x = Some (mk_node k (ptr sentinel l) (ptr sentinel (plug lctx t)) par' (b2c c)) /\
    tree_in sentinel h x l /\ tree_in sentinel h q' (plug lctx t).
Proof.
  intros [Hd Hs] Hse Hc [Ht Hq]. destruct (decide (lctx = [])) as [->|Hne].
  - cbn in Hc. destruct Hc as (-> & Hl & par' & Hx & Hc). exists par', q. by split_and!.
  - specialize (Hq Hne) as ->.
    assert (rep sentinel (mk_tree rt h) (lctx ++ InRight c l x k :: ctx) t) as H.
    { split; [|split; [done|by exists par]]. split; [intros z; specialize (Hd z)|];
        cbn [occ] in *; rewrite occ_plug in *; rewrite occ_ctx_app; cbn [occ_ctx] in *; lia. }
    apply (proj1 (rep_app _ _ _ _ _)), (proj2 (rep_right _ _ _ _ _ _ _ _)) in H.
    destruct H as (_ & _ & par' & Hc' & Hx & Hl & Hr). by exists par', x.
Qed.

Lemma replace_node_run s lctx c l x k ctx cs y ky rs :
  rep sentinel s (lctx ++ InRight c l x k :: ctx) (T cs E y ky rs) ->
  exists s', (sp <-- get parent y; spl <-- get left sp;
              (if y =? spl then put left sp (ptr sentinel rs) else put right sp (ptr sentinel rs)) ;;
              replace_node sentinel x y (ptr sentinel rs)) s = Some (tt, s') /\
    drep sentinel s' (lctx ++ InRight c l y ky :: ctx) rs /\ exists n, nodes s' !! x = Some n.
Proof.
  destruct s as [rt h]. intros H.
  destruct (frame_loc_app lctx (InRight c l x k) ctx) as (g & ctx' & Eg).
  pose proof (rep_root sentinel _ _ _ H) as Hrt. rewrite Eg, bool_decide_false in Hrt by done. cbn [ptr root] in Hrt.
  rewrite Eg in H. erewrite mthen_run by (by eapply run_parent). rewrite <- Eg in H.
  destruct H as ((Hd & Hs) & Hse & par & Hctx & Hy & _ & Hrs). cbn [nodes root ptr] in *.
  assert (par = frame_loc g) as Ep by (rewrite Eg in Hctx; by destruct g; destruct Hctx as [-> _]).
  cbn [occ] in *. pose proof (Hd y) as Dy. rewrite hit_eq in Dy.
  assert (y <> sentinel) as Hys by (apply hit_ne; lia).
  destruct (relink_run sentinel rt h (lctx ++ InRight c l x k :: ctx) y (ptr sentinel rs) par Hctx) as
    (rt' & h1 & E1 & _ & Hc1 & F1); [intros z; specialize (Hd z); lia|lia|done|].
  rewrite Hrt, Ep in E1. rewrite <- mthen_assoc. erewrite mthen_run by exact E1.
  assert (h1 !! y = Some (mk_node ky sentinel (ptr sentinel rs) par (b2c cs))) as Hy1 by (by rewrite F1 by lia).
  unfold replace_node. step1.
  set (q := if decide (lctx = []) then y else par).
  destruct (set_parent_run sentinel rt' h1 rs y q) as (h2 & E2 & Ht2 & Hse2 & Hn2 & F2).
  { eapply tree_in_frame; [|exact Hrs]. intros z Hz. specialize (Hd z). apply F1. lia. }
  { lia. }
  { intros z. specialize (Hd z). lia. }
  { destruct Hse as (ns & Hns & ?). exists ns. rewrite F1 by lia. done. }
  assert ((if par =? x then put parent (ptr sentinel rs) y else put parent (ptr sentinel rs) par)
    (mk_tree rt' h1) = Some (tt, mk_tree rt' h2)) as E2'.
  { rewrite <- E2. subst q. destruct lctx as [|f lctx]; cbn in Eg; injection Eg as <- <-.
    - rewrite Ep. cbn [frame_loc]. by rewrite Z.eqb_refl.
    - rewrite (proj2 (Z.eqb_neq par x)); [done|]. intros ->. specialize (Hd x).
      change (f :: lctx ++ ?l) with ((f :: lctx) ++ l) in Hd. rewrite occ_ctx_app in Hd.
      pose proof (occ_frame f (f :: lctx) ltac:(by left)) as Hf. rewrite <- Ep in Hf.
      cbn in Hd, Hf. rewrite hit_eq in Hd. lia. }
  erewrite mthen_run by exact E2'.
  assert (ctx_in sentinel h2 rt' (lctx ++ InRight c l x k :: ctx) (ptr sentinel rs) par) as Hc2.
  { eapply ctx_in_frame; [|exact Hc1]. intros z Hz. specialize (Hd z). apply F2; [lia|]. intros ->. lia. }
  assert (distinct sentinel ctx (T c l x k (plug lctx rs))) as Hdist.
  { split; [intros z; specialize (Hd z)|]; cbn [occ]; rewrite occ_plug; rewrite occ_ctx_app in *;
      cbn [occ_ctx] in *; lia. }
  destruct (split_ctx rt' h2 lctx c l x k ctx rs par q) as (par' & q' & Hc3 & Hx3 & Hl3 & Hr3);
    [done|done|done| |].
  { subst q. by destruct (decide (lctx = [])). }
  destruct (replace_run sentinel rt' h2 ctx c l x k (plug lctx rs) par' q' y
    (mk_node ky sentinel (ptr sentinel rs) par (b2c cs))) as (s' & E3 & H3 & Hs3 & Hx4); try done.
  { rewrite F2; [done|lia|done]. }
  { cbn [occ]. rewrite occ_plug. rewrite occ_ctx_app in Dy. cbn [occ_ctx] in Dy. lia. }
  exists s'. split; [exact E3|]. split; [|done].
  apply (proj1 (rep_right _ _ _ _ _ _ _ _)), (proj2 (rep_app _ _ _ _ _)) in H3. split; [exact H3|].
  intros ->. destruct (Hn2 eq_refl) as (n & Hn & Hq). subst q.
  destruct lctx as [|f lctx]; cbn in *; exists n; rewrite Hs3; (split; [done|]); [done|].
  injection Eg as <- <-. by rewrite Hq.
Qed.
End both.

(** * The whole deletion *)

Lemma run_seq {S A} (m : M S A) (a : A -> M S unit) (b : M S unit) (rest : M S unit) s s1 :
  (x <-- m; a x ;; b) s = Some (tt, s1) -> (x <-- m; a x ;; b ;; rest) s = rest s1.
Proof. unfold mthen. destruct (m s) as [[v s']|]; [|done]. destruct (a v s') as [[[] s2]|]; [|done]. by intros ->. Qed.

Lemma run_seq2 {S A B} (m : M S A) (n : A -> M S B) (a : A -> B -> M S unit) (b : M S unit)
  (rest : M S unit) s s1 :
  (x <-- m; y <-- n x; a x y ;; b) s = Some (tt, s1) ->
  (x <-- m; y <-- n x; a x y ;; b ;; rest) s = rest s1.
Proof.
  unfold mthen. destruct (m s) as [[v s']|]; [|done]. destruct (n v s') as [[w s2]|]; [|done].
  destruct (a v w s2) as [[[] s3]|]; [|done]. by intros ->.
Qed.

Section delete.
Context (sentinel : loc).
Implicit Types (s : ngx_rbtree_t) (ctx : list frame) (t : tree).

(** The result: the same entries without the node's. *)
Definition removed s ctx l x r : Prop :=
  exists s' t', ngx_rbtree_delete sentinel x s = Some (tt, s') /\ rbtree sentinel s' t' /\
    inorder t' = before ctx ++ inorder l ++ inorder r ++ after ctx.

Lemma one_child_rb c l x k r d n :
  rb (T c l x k r) n -> l = E /\ d = r \/ r = E /\ d = l ->
  if c then rb d n /\ red_of d = false else exists m, n = S m /\ rb d m.
Proof.
  intros H Hd. destruct c; cbn in H.
  - destruct H as (? & ? & ? & ?). by destruct Hd as [[-> ->]|[-> ->]].
  - destruct H as (m & -> & ? & ?). exists m. by destruct Hd as [[-> ->]|[-> ->]].
Qed.

Lemma delete_root s c l x k r d :
  rbtree sentinel s (T c l x k r) -> l = E /\ d = r \/ r = E /\ d = l ->
  exists s' t', (set_root (ptr sentinel d) ;; ngx_rbt_black (ptr sentinel d) ;; clear_node x) s
      = Some (tt, s') /\ rbtree sentinel s' t' /\ inorder t' = inorder d.
Proof.
  intros (H & Hc & n & Hrb) Hd. cbn in Hc. subst c.
  destruct (one_child_rb _ _ _ _ _ _ _ Hrb Hd) as (m & -> & Hdm).
  destruct s as [rt h]. destruct H as ((Hdi & Hs) & Hse & par & Hr & Hx & Hl & Hrr). cbn [nodes root] in *.
  assert (rep sentinel (mk_tree (ptr sentinel d) h) [] d /\ occ x d = 0%nat /\ x <> sentinel) as (Hd1 & Hox & Hxs).
  { cbn [occ occ_ctx] in *. pose proof (Hdi x) as Dx. rewrite hit_eq in Dx.
    split; [|split; [destruct Hd as [[-> ->]|[-> ->]]; lia|apply hit_ne; lia]].
    split; [split|split; [done|exists x; split; [done|]]]; cbn [occ_ctx nodes];
      try (destruct Hd as [[-> ->]|[-> ->]]; done).
    - intros z. specialize (Hdi z). destruct Hd as [[-> ->]|[-> ->]]; lia.
    - destruct Hd as [[-> ->]|[-> ->]]; lia. }
  assert (exists s1, ngx_rbt_black (ptr sentinel d) (mk_tree (ptr sentinel d) h) = Some (tt, s1) /\
    rep sentinel s1 [] (blacken d) /\ exists n, nodes s1 !! x = Some n) as (s1 & E1 & H1 & nx & Hnx).
  { unfold ngx_rbt_black. destruct d as [|c' l' y k' r']; cbn [ptr blacken].
    - destruct (run_black_sentinel sentinel _ Hd1) as (s1 & E1 & H1). exists s1. split; [done|]. split; [done|].
      unfold ngx_rbt_black in E1. destruct Hse as (ns & Hns & _). cbn [ptr] in E1.
      erewrite put_run in E1 by done. injection E1 as <-. cbn. rewrite lookup_insert_ne by done. by eexists.
    - destruct (run_black _ _ _ _ _ _ _ _ Hd1) as (s1 & E1 & H1 & _). exists s1. split; [done|]. split; [done|].
      destruct (rep_node _ _ _ _ _ _ _ _ Hd1) as [py Hy]. cbn in Hy.
      unfold ngx_rbt_black in E1. erewrite put_run in E1 by done. injection E1 as <-. cbn.
      cbn [occ] in Hox. rewrite lookup_insert_ne by (apply hit_ne; lia). by eexists. }
  erewrite mthen_run by reflexivity. erewrite mthen_run by exact E1.
  destruct (clear_run sentinel s1 [] (blacken d) x nx) as (s2 & E2 & H2 & _); [by split| |done|done|].
  { cbn. by destruct d. }
  exists s2, (blacken d). split; [done|]. split; [|by destruct d]. split; [done|].
  split; [by destruct d|]. destruct d as [|[] ? ? ? ?]; cbn in *; [by exists 0%nat| |by exists m].
  exists (S m), m. tauto.
Qed.

Lemma delete_one s ctx c l x k r d :
  rbtree sentinel s (plug ctx (T c l x k r)) -> l = E /\ d = r \/ r = E /\ d = l ->
  delete_subst sentinel x s = Some ((ptr sentinel d, x), s) -> removed s ctx l x r.
Proof.
  intros Ht Hd Esub. unfold removed, ngx_rbtree_delete. erewrite mthen_run by exact Esub.
  cbv beta iota. erewrite mthen_run by reflexivity.
  assert (inorder d = inorder l ++ inorder r) as Ed.
  { destruct Hd as [[-> ->]|[-> ->]]; cbn; by rewrite ?app_nil_r. }
  pose proof Ht as (H & Hblk & m & Hrb). apply (proj2 (rep_plug _ _ _ _)) in H.
  destruct ctx as [|f ctx].
  { rewrite (rep_root _ _ _ _ H : (x =? root s) = _), bool_decide_true by done.
    destruct (delete_root s c l x k r d Ht Hd) as (s' & t' & E1 & H1 & Eo).
    exists s', t'. split_and!; [exact E1|done|]. cbn. by rewrite Eo, Ed, app_nil_r. }
  rewrite (rep_root_T _ _ _ _ _ _ _ _ _ H). do 2 rb_read.
  destruct (splice_run sentinel s f ctx c l x k r d H Hd) as (s1 & E1 & H1 & nx & Hnx).
  erewrite run_seq by exact E1.
  destruct (plug_rb_inv (f :: ctx) _ m Hrb Hblk) as (n & Hn & Hc & Htop).
  assert (occ_ctx x (f :: ctx) + occ x d = 0 /\ x <> sentinel)%nat as [Hox Hxs].
  { destruct H as ((Hdi & Hs) & _). pose proof (Hdi x) as Dx. cbn [occ] in *. rewrite hit_eq in Dx.
    split; [destruct Hd as [[-> ->]|[-> ->]]; lia|apply hit_ne; lia]. }
  destruct (clear_run sentinel s1 (f :: ctx) d x nx H1 Hox Hxs Hnx) as (s2 & E2 & H2).
  erewrite mthen_run by exact E2. pose proof (one_child_rb _ _ _ _ _ _ _ Hn Hd) as Hr1.
  assert (exists n', rb d n' /\ (if c then red_of d = false /\ ctx_rb (f :: ctx) n' else ctx_rb (f :: ctx) (S n')))
    as (n' & Hrd & Hcd).
  { destruct c; [exists n; tauto|]. destruct Hr1 as (n' & -> & ?). by exists n'. }
  destruct (delete_end_correct sentinel s2 f ctx d c n' H2 Hrd Hcd) as (s' & E3 & t' & Ht' & Eo & Hb & Hr').
  exists s', t'. split; [exact E3|]. split; [by split_and!|].
  by rewrite Eo, inorder_ctx, Ed, <- app_assoc.
Qed.
End delete.

Section delete_both.
Context (sentinel : loc).
Implicit Types (s : ngx_rbtree_t) (ctx : list frame) (t : tree).

Lemma before_left lctx : Forall (fun f => is_left f = true) lctx -> before lctx = [].
Proof. induction 1 as [|[] lctx Hf _ IH]; cbn in *; [done|done|done]. Qed.

Lemma before_app lctx ctx : before (lctx ++ ctx) = before ctx ++ before lctx.
Proof.
  induction lctx as [|[] lctx IH]; cbn; [by rewrite app_nil_r|done|].
  rewrite IH. by rewrite <- app_assoc.
Qed.

Lemma after_app lctx ctx : after (lctx ++ ctx) = after lctx ++ after ctx.
Proof. induction lctx as [|[] lctx IH]; cbn; [done| |done]. rewrite IH. by rewrite <- app_assoc. Qed.

(** The colours do not depend on which node is where. *)
Lemma ctx_rb_swap lctx c l x k y ky ctx n :
  ctx_rb (lctx ++ InRight c l x k :: ctx) n <-> ctx_rb (lctx ++ InRight c l y ky :: ctx) n.
Proof.
  revert n. induction lctx as [|f lctx IH]; intros n; [done|]. cbn [app ctx_rb].
  assert (top_red (lctx ++ InRight c l x k :: ctx) = top_red (lctx ++ InRight c l y ky :: ctx)) as Etop
    by (by destruct lctx).
  assert (forall e, lctx ++ e :: ctx <> []) as Hne by (intros e; by destruct lctx).
  destruct (frame_red f); rewrite ?Etop, ?IH; [|done].
  split; intros (? & ? & ? & ? & ?); split_and!; try done; apply Hne.
Qed.

(** [subst] is the smallest node of the right subtree. *)
Lemma delete_subst_two s ctx c l x k r :
  rep sentinel s ctx (T c l x k r) -> l <> E -> r <> E ->
  exists lctx cs y ky rs, delete_subst sentinel x s = Some ((ptr sentinel rs, y), s) /\
    r = plug lctx (T cs E y ky rs) /\ Forall (fun f => is_left f = true) lctx /\
    rep sentinel s (lctx ++ InRight c l x k :: ctx) (T cs E y ky rs) /\ y <> x /\ x <> sentinel.
Proof.
  intros H Hl Hr. pose proof (proj1 (rep_right _ _ _ _ _ _ _ _) H) as Hrr.
  pose proof (rep_length _ _ _ _ Hrr) as Hlen. destruct r as [|cr rl xr kr rr]; [done|].
  destruct (min_loop_run sentinel (size (nodes s)) s _ _ _ _ _ _ Hrr) as (lctx & cs & y & ky & rs & E1 & Er & Hall);
    [cbn; lia|].
  assert (rep sentinel s (lctx ++ InRight c l x k :: ctx) (T cs E y ky rs)) as Hy.
  { apply (proj2 (rep_app _ _ _ _ _)). by rewrite <- Er. }
  exists lctx, cs, y, ky, rs. split_and!; [|done|done|done|..].
  - assert (ptr sentinel l <> sentinel /\ xr <> sentinel) as [Hls Hrs].
    { destruct H as ((_ & Hs) & _). cbn in Hs. split; [|apply hit_ne; lia].
      destruct l as [|? ? z ? ?]; [done|]. cbn in *. apply hit_ne. lia. }
    unfold delete_subst. rb_read. rewrite (proj2 (Z.eqb_neq _ _)) by done. rb_read.
    rewrite (proj2 (Z.eqb_neq xr sentinel)) by done.
    unfold ngx_rbtree_min. rewrite mthen_assoc. rb_read. erewrite mthen_run by exact E1.
    rb_read. cbn [negb]. rb_read. reflexivity.
  - destruct Hy as ((Hd & _) & _). specialize (Hd x). rewrite occ_ctx_app in Hd. cbn in Hd.
    rewrite hit_eq in Hd. apply hit_ne. lia.
  - destruct H as ((_ & Hs) & _). cbn in Hs. apply hit_ne. lia.
Qed.

Lemma delete_two s ctx c l x k r :
  rbtree sentinel s (plug ctx (T c l x k r)) -> l <> E -> r <> E -> removed sentinel s ctx l x r.
Proof.
  intros (H & Hblk & m & Hrb) Hl Hr. unfold removed. apply (proj2 (rep_plug _ _ _ _)) in H.
  destruct (delete_subst_two s ctx c l x k r H Hl Hr)
    as (lctx & cs & y & ky & rs & Esub & Er & Hall & Hy & Hyx & Hxs).
  unfold ngx_rbtree_delete. erewrite mthen_run by exact Esub. cbv beta iota. rb_read.
  destruct (frame_loc_app lctx (InRight c l x k) ctx) as (g & ctx' & Eg).
  pose proof Hy as Hy'. rewrite Eg in Hy'. rewrite (rep_root_T _ _ _ _ _ _ _ _ _ Hy').
  erewrite mthen_run by (by eapply run_is_red_T). rewrite (proj2 (Z.eqb_neq y x)) by done.
  destruct (replace_node_run sentinel s lctx c l x k ctx cs y ky rs Hy) as (s1 & E2 & H1 & nx & Hnx).
  erewrite run_seq2 by exact E2.
  assert (occ_ctx x (lctx ++ InRight c l y ky :: ctx) + occ x rs = 0)%nat as Hox.
  { destruct Hy as ((Hd & _) & _). specialize (Hd x). rewrite occ_ctx_app in *. cbn in *.
    rewrite hit_eq in Hd. rewrite (proj2 (hit_ne y x)) by done. lia. }
  destruct (clear_run sentinel s1 _ rs x nx H1 Hox) as (s2 & E3 & H2);
    [done|done|].
  erewrite mthen_run by exact E3.
  assert (plug ctx (T c l x k r) = plug (lctx ++ InRight c l x k :: ctx) (T cs E y ky rs)) as Epl.
  { by rewrite plug_app, Er. }
  rewrite Epl in Hrb, Hblk. destruct (plug_rb_inv _ _ m Hrb Hblk) as (n & Hn & Hc & Htop).
  apply (ctx_rb_swap _ _ _ _ _ y ky) in Hc.
  pose proof (one_child_rb _ _ _ _ _ rs _ Hn (or_introl (conj eq_refl eq_refl))) as Hr1.
  destruct (frame_loc_app lctx (InRight c l y ky) ctx) as (g' & ctx'' & Eg'). rewrite Eg' in H2, Hc.
  assert (exists n', rb rs n' /\ (if cs then red_of rs = false /\ ctx_rb (g' :: ctx'') n' else ctx_rb (g' :: ctx'') (S n')))
    as (n' & Hrd & Hcd).
  { destruct cs; [exists n; tauto|]. destruct Hr1 as (n' & -> & ?). by exists n'. }
  destruct (delete_end_correct sentinel s2 g' ctx'' rs cs n' H2 Hrd Hcd) as (s' & E4 & t' & Ht' & Eo & Hb & Hr').
  exists s', t'. split; [exact E4|]. split; [by split_and!|].
  rewrite Eo, <- Eg', inorder_ctx, before_app, after_app, Er, inorder_ctx, (before_left lctx Hall). cbn.
  by rewrite <- !app_assoc.
Qed.
End delete_both.

(** * Theorems *)

Lemma inorder_focus t x k l1 l2 :
  inorder t = l1 ++ (x, k) :: l2 ->
  exists ctx c l r, t = plug ctx (T c l x k r) /\ l1 = before ctx ++ inorder l /\
    l2 = inorder r ++ after ctx.
Proof.
  revert l1 l2. induction t as [|c l IHl y ky r IHr]; intros l1 l2 E0; cbn in E0; [by destruct l1|].
  apply app_eq_inv in E0 as [(m & E1 & E2)|(m & E1 & E2)]; destruct m as [|e m]; cbn in E2.
  - injection E2 as -> -> ->. rewrite app_nil_r in E1. exists [], c, l, r. cbn. by rewrite app_nil_r.
  - injection E2 as <- ->. destruct (IHl _ _ E1) as (ctx & c' & l' & r' & -> & -> & ->).
    exists (ctx ++ [InLeft c y ky r]), c', l', r'. rewrite plug_app, before_app, after_app. cbn.
    split_and!; [done|done|by rewrite <- app_assoc, app_nil_r].
  - injection E2 as <- <- <-. rewrite app_nil_r in E1. subst l1. exists [], c, l, r. cbn.
    by rewrite app_nil_r.
  - injection E2 as <- E2. destruct (IHr _ _ E2) as (ctx & c' & l' & r' & -> & -> & ->).
    exists (ctx ++ [InRight c l y ky]), c', l', r'. subst l1. rewrite plug_app, before_app, after_app.
    cbn. split_and!; [done|by rewrite <- !app_assoc|by rewrite app_nil_r].
Qed.

Lemma delete_correct sentinel s t x k l1 l2 :
  rbtree sentinel s t -> inorder t = l1 ++ (x, k) :: l2 ->
  exists s' t', ngx_rbtree_delete sentinel x s = Some (tt, s') /\ rbtree sentinel s' t' /\
    inorder t' = l1 ++ l2.
Proof.
  intros Ht (ctx & c & l & r & -> & -> & ->)%inorder_focus.
  assert (removed sentinel s ctx l x r) as (s' & t' & E1 & H1 & Eo).
  { pose proof Ht as (H & _). apply (proj2 (rep_plug _ _ _ _)) in H.
    destruct (decide (l = E)) as [->|Hl]; [|destruct (decide (r = E)) as [->|Hr]].
    - apply (delete_one sentinel s ctx c E x k r r Ht); [by left|].
      unfold delete_subst. do 2 rb_read. reflexivity.
    - apply (delete_one sentinel s ctx c l x k E l Ht); [by right|].
      unfold delete_subst. rb_read. rewrite (proj2 (Z.eqb_neq _ sentinel)).
      + rb_read. reflexivity.
      + destruct H as ((_ & Hs) & _). destruct l as [|? ? z ? ?]; [done|]. cbn in *. apply hit_ne. lia.
    - by eapply delete_two. }
  exists s', t'. split_and!; [done|done|]. by rewrite Eo, <- !app_assoc.
Qed.

(** C15: [ngx_rbtree_delete] of a node of a red-black tree, whatever the node's
    place and the shape around it, unlinks exactly that node: the result is a
    red-black tree with consistent links whose entries are the others, in the
    same order. *)
Theorem rbtree_delete_correct sentinel s t x k l1 l2 :
  rbtree sentinel s t -> inorder t = l1 ++ (x, k) :: l2 ->
  exists s' t', ngx_rbtree_delete sentinel x s = Some (tt, s') /\ rbtree sentinel s' t' /\
    inorder t' = l1 ++ l2.
Proof. apply delete_correct. Qed.

Fixpoint height (t : tree) : nat :=
  match t with E => 0 | T _ l _ _ r => S (height l `max` height r) end.

Lemma rb_height t n : rb t n -> (height t <= 2 * n + Nat.b2n (red_of t))%nat.
Proof.
  revert n. induction t as [|c l IHl x k r IHr]; intros n; cbn; [lia|]. destruct c; cbn.
  - intros (Hl & Hr & El & Er). apply IHl in Hl. apply IHr in Hr. rewrite El in Hl. rewrite Er in Hr.
    cbn in *. lia.
  - intros (m & -> & Hl & Hr). apply IHl in Hl. apply IHr in Hr.
    destruct (red_of l), (red_of r); cbn in *; lia.
Qed.

Lemma rb_size t n : rb t n -> (2 ^ n <= length (inorder t) + 1)%nat.
Proof.
  revert n. induction t as [|c l IHl x k r IHr]; intros n; cbn [rb inorder].
  - intros ->. done.
  - rewrite length_app. cbn. destruct c.
    + intros (Hl & Hr & _). apply IHl in Hl. lia.
    + intros (m & -> & Hl & Hr). apply IHl in Hl. apply IHr in Hr. cbn. lia.
Qed.

(** A tree of [n] nodes is at most [2 log2 (n + 1)] high. *)
Lemma rbtree_balanced sentinel s t :
  rbtree sentinel s t -> (height t <= 2 * Nat.log2 (length (inorder t) + 1))%nat.
Proof.
  intros (_ & Hblk & n & Hrb). pose proof (rb_height t n Hrb) as H1. rewrite Hblk in H1. cbn in H1.
  apply rb_size, Nat.log2_le_mono in Hrb. rewrite Nat.log2_pow2 in Hrb by lia. lia.
Qed.

(** The loops that descend need no more turns than the height. *)
Lemma insert_loop_height sentinel less fuel s ctx t node n :
  rep sentinel s ctx t -> t <> E -> nodes s !! node = Some n -> (height t <= fuel)%nat ->
  is_Some (insert_loop sentinel less fuel (ptr sentinel t) node s).
Proof.
  revert fuel ctx. induction t as [|c l IHl x k r IHr]; intros fuel ctx H Ht Hn Hf; [done|].
  destruct fuel as [|fuel]; [cbn in Hf; lia|]. cbn [height] in Hf.
  pose proof (proj1 (rep_left _ _ _ _ _ _ _ _) H) as Hl.
  pose proof (proj1 (rep_right _ _ _ _ _ _ _ _) H) as Hr.
  destruct (rep_node _ _ _ _ _ _ _ _ H) as [par Hx]. cbn [insert_loop ptr].
  erewrite mthen_run by (by apply load_run). erewrite mthen_run by (by apply load_run). cbn [left right]. cbn zeta.
  destruct (less (node, key n) _).
  - destruct (decide (ptr sentinel l = sentinel)) as [->|Hne]; [rewrite Z.eqb_refl; by eexists|].
    rewrite (proj2 (Z.eqb_neq _ _) Hne). apply (IHl _ _ Hl); [by intros ->|done|lia].
  - destruct (decide (ptr sentinel r = sentinel)) as [->|Hne]; [rewrite Z.eqb_refl; by eexists|].
    rewrite (proj2 (Z.eqb_neq _ _) Hne). apply (IHr _ _ Hr); [by intros ->|done|lia].
Qed.

Lemma min_loop_height sentinel fuel s ctx t :
  rep sentinel s ctx t -> t <> E -> (height t <= S fuel)%nat ->
  is_Some (min_loop sentinel fuel (ptr sentinel t) s).
Proof.
  revert fuel ctx. induction t as [|c l IHl x k r IHr]; intros fuel ctx H Ht Hf; [done|].
  pose proof (proj1 (rep_left _ _ _ _ _ _ _ _) H) as Hl. cbn [height] in Hf.
  destruct fuel as [|fuel]; cbn [min_loop ptr]; rb_read;
    (destruct (decide (ptr sentinel l = sentinel)) as [->|Hne]; [rewrite Z.eqb_refl; by eexists|]);
    rewrite (proj2 (Z.eqb_neq _ _) Hne); (assert (l <> E) by (by intros ->)).
  - destruct l; [done|]. cbn in Hf. lia.
  - apply (IHl _ _ Hl); [done|lia].
Qed.

(** In a tree of [n] nodes the descents are logarithmic: the loop of an insert
    function, whatever its test, and the loop of [ngx_rbtree_min] end within
    [2 log2 (n + 1)] turns. *)
Theorem rbtree_descents_logarithmic sentinel less s t node n :
  rbtree sentinel s t -> t <> E -> nodes s !! node = Some n ->
  is_Some (insert_loop sentinel less (2 * Nat.log2 (length (inorder t) + 1)) (root s) node s) /\
  is_Some (min_loop sentinel (2 * Nat.log2 (length (inorder t) + 1)) (root s) s).
Proof.
  intros Ht Hne Hn. pose proof (rbtree_balanced _ _ _ Ht). destruct Ht as (H1 & _).
  assert (root s = ptr sentinel t) as -> by (by destruct H1 as (_ & _ & par & Hc & _)).
  split; [by eapply insert_loop_height|]. eapply min_loop_height; [done|done|lia].
Qed.

Lemma rbtree_delete_correct_witness :
  exists s' t', ngx_rbtree_delete 100 12 sample = Some (tt, s') /\ rbtree 100 s' t' /\
    inorder t' = [(11, 1); (13, 3)].
Proof.
  exact (rbtree_delete_correct 100 sample sample_shape 12 2 [(11, 1)] [(13, 3)] sample_rbtree eq_refl).
Defined.

Lemma rbtree_descents_logarithmic_witness :
  is_Some (insert_loop 100 (fun n t => n.2 <? t.2) 4 12 14 sample) /\
  is_Some (min_loop 100 4 12 sample).
Proof.
  exact (rbtree_descents_logarithmic 100 (fun n t => n.2 <? t.2) sample sample_shape 14
    (mk_node 4 0 0 0 0) sample_rbtree ltac:(done) eq_refl).
Defined.
