(* ===== verification/NgxRbtreeClient.v ===== *)
(** The red-black tree of src/core/ngx_rbtree.c as its clients see it: an ordered
    list of entries [(node, key)] in which an entry can be inserted, from which
    one can be deleted, and whose first one [ngx_rbtree_min] finds. *)

From stdpp Require Import sorting.
From S2P Require Import Prelude NgxStore NgxRbtree NgxRbtreeDelete.

Open Scope Z_scope.
Open Scope store_scope.

(** * No operation makes or frees a node *)

Definition keeps_dom {A} (m : MT A) : Prop :=
  forall s x s', m s = Some (x, s') -> dom (nodes s') = dom (nodes s).

Create HintDb dom discriminated.
#[export] Hint Constants Opaque : dom.

Lemma keeps_mret {A} (x : A) : keeps_dom (mret x).
Proof. intros s y s'. unfold mret. by intros [= <- <-]. Qed.

Lemma keeps_mstuck {A} : keeps_dom (@mstuck ngx_rbtree_t A).
Proof. by intros s y s'. Qed.

Lemma keeps_mget {A} (f : ngx_rbtree_t -> A) : keeps_dom (mget f).
Proof. intros s y s'. unfold mget. by intros [= <- <-]. Qed.

Lemma keeps_set_root p : keeps_dom (set_root p).
Proof. intros s y s'. unfold set_root, mput. by intros [= <- <-]. Qed.

Lemma keeps_load p : keeps_dom (load p).
Proof. intros s y s'. unfold load. cbn. destruct (nodes s !! p); [|done]. by intros [= <- <-]. Qed.

Lemma keeps_mthen {A B} (m : MT A) (k : A -> MT B) :
  keeps_dom m -> (forall x, keeps_dom (k x)) -> keeps_dom (mthen m k).
Proof.
  intros Hm Hk s y s'. unfold mthen. destruct (m s) as [[x s1]|] eqn:E1; [|done]. intros E2.
  rewrite (Hk _ _ _ _ E2). by eapply Hm.
Qed.

Lemma keeps_update p f : keeps_dom (update p f).
Proof.
  intros s y s'. unfold update. cbn. destruct (nodes s !! p) as [n|] eqn:Hn; [|done].
  intros [= <- <-]. cbn. apply dom_insert_lookup_L. by eexists.
Qed.

#[export] Hint Resolve keeps_mret keeps_mstuck keeps_mget keeps_set_root keeps_load keeps_update : dom.

(** The operations are built from these by sequencing and case analysis. *)
Ltac keeps :=
  repeat match goal with
  | |- keeps_dom (mthen _ _) => apply keeps_mthen; [|intro]
  | |- keeps_dom (if ?b then _ else _) => destruct b
  | |- keeps_dom (let '(_, _) := ?p in _) => destruct p
  | |- _ => solve [auto with dom nocore]
  end.

Section dom.
Context (sentinel : loc).

Lemma keeps_get {A} (f : ngx_rbtree_node_t -> A) p : keeps_dom (get f p).
Proof. unfold get. keeps. Qed.

Lemma keeps_put {A} (f : ngx_rbtree_node_t -> A) `{!FieldSetter f} p v : keeps_dom (put f p v).
Proof. unfold put. keeps. Qed.
Hint Resolve keeps_get keeps_put : dom.

Lemma keeps_is_red p : keeps_dom (ngx_rbt_is_red p).
Proof. unfold ngx_rbt_is_red. keeps. Qed.

Lemma keeps_is_black p : keeps_dom (ngx_rbt_is_black p).
Proof. unfold ngx_rbt_is_black. keeps. Qed.

Lemma keeps_copy_color p q : keeps_dom (ngx_rbt_copy_color p q).
Proof. unfold ngx_rbt_copy_color. keeps. Qed.

Lemma keeps_red p : keeps_dom (ngx_rbt_red p).
Proof. unfold ngx_rbt_red. keeps. Qed.

Lemma keeps_black p : keeps_dom (ngx_rbt_black p).
Proof. unfold ngx_rbt_black. keeps. Qed.

Lemma keeps_left_rotate p : keeps_dom (ngx_rbtree_left_rotate sentinel p).
Proof. unfold ngx_rbtree_left_rotate. keeps. Qed.

Lemma keeps_right_rotate p : keeps_dom (ngx_rbtree_right_rotate sentinel p).
Proof. unfold ngx_rbtree_right_rotate. keeps. Qed.
Hint Resolve keeps_is_red keeps_is_black keeps_copy_color keeps_red keeps_black
  keeps_left_rotate keeps_right_rotate : dom.

Lemma keeps_insert_loop less fuel p q : keeps_dom (insert_loop sentinel less fuel p q).
Proof. revert p. induction fuel; intros p; cbn; keeps. Qed.
Hint Resolve keeps_insert_loop : dom.

Lemma keeps_insert_by less p q : keeps_dom (insert_by sentinel less p q).
Proof. unfold insert_by. keeps. Qed.

Lemma keeps_insert_fixup fuel p : keeps_dom (insert_fixup sentinel fuel p).
Proof. revert p. induction fuel; intros p; cbn [insert_fixup]; keeps. Qed.
Hint Resolve keeps_insert_fixup : dom.

Lemma keeps_insert insert p :
  (forall a b, keeps_dom (insert a b)) -> keeps_dom (ngx_rbtree_insert sentinel insert p).
Proof. intros. unfold ngx_rbtree_insert. keeps. Qed.

Lemma keeps_min_loop fuel p : keeps_dom (min_loop sentinel fuel p).
Proof. revert p. induction fuel; intros p; cbn; keeps. Qed.
Hint Resolve keeps_min_loop : dom.

Lemma keeps_delete_left again p q :
  (forall z, keeps_dom (again z)) -> keeps_dom (delete_left sentinel again p q).
Proof. intros. unfold delete_left, delete_left_black. keeps. Qed.

Lemma keeps_delete_right again p q :
  (forall z, keeps_dom (again z)) -> keeps_dom (delete_right sentinel again p q).
Proof. intros. unfold delete_right, delete_right_black. keeps. Qed.
Hint Resolve keeps_delete_left keeps_delete_right : dom.

Lemma keeps_delete_fixup fuel p : keeps_dom (delete_fixup sentinel fuel p).
Proof. revert p. induction fuel; intros p; cbn [delete_fixup]; keeps. Qed.
Hint Resolve keeps_delete_fixup : dom.

Lemma keeps_delete p : keeps_dom (ngx_rbtree_delete sentinel p).
Proof. unfold ngx_rbtree_delete, delete_subst, ngx_rbtree_min, replace_node, clear_node. keeps. Qed.
End dom.

(** * The entries of a tree *)

Lemma occ_inorder q t : occ q t <> 0%nat <-> q ∈ (inorder t).*1.
Proof.
  induction t as [|c l IHl x k r IHr]; cbn; [set_solver|].
  rewrite fmap_app, elem_of_app, fmap_cons, elem_of_cons, <- IHl, <- IHr. cbn.
  unfold hit. split.
  - intros H. case_decide; [by right; left|]. destruct (occ q l); [right; right; lia|by left].
  - intros [H|[->|H]]; [|rewrite decide_True by done|]; lia.
Qed.

Section holds.
Context (sentinel : loc) (less : loc * Z -> loc * Z -> bool).

(** The tree in [s] holds the entries [l], in order. *)
Definition holds (s : ngx_rbtree_t) (l : list (loc * Z)) : Prop :=
  exists t, rbtree sentinel s t /\ inorder t = l /\ ordered less l.

Lemma tree_in_entry h par t x k :
  tree_in sentinel h par t -> (x, k) ∈ inorder t -> exists n, h !! x = Some n /\ key n = k.
Proof.
  revert par. induction t as [|c l IHl y ky r IHr]; intros par; cbn; [set_solver|].
  intros (Hy & Hl & Hr) [Hx|[[= -> ->]|Hx]%elem_of_cons]%elem_of_app; [eauto| |eauto].
  by eexists.
Qed.

Lemma holds_entry s l x k :
  holds s l -> (x, k) ∈ l -> exists n, nodes s !! x = Some n /\ key n = k.
Proof. intros (t & ((_ & _ & par & _ & Ht) & _) & <- & _). by apply (tree_in_entry _ par). Qed.

Lemma holds_not_sentinel s l x : holds s l -> x ∈ l.*1 -> x <> sentinel.
Proof.
  intros (t & (((_ & Hs) & _) & _) & <- & _) Hx%occ_inorder ->. cbn in Hs. lia.
Qed.

Lemma inorder_nodup t : (forall q, (occ q t <= 1)%nat) -> NoDup (inorder t).*1.
Proof.
  induction t as [|c l IHl x k r IHr]; intros Hd; cbn; [constructor|]. cbn in Hd.
  rewrite fmap_app. apply NoDup_app. split_and!.
  - apply IHl. intros q. specialize (Hd q). lia.
  - intros q Hq%occ_inorder. specialize (Hd q). rewrite fmap_cons. cbn.
    intros [->|Hr%occ_inorder]%elem_of_cons; [rewrite hit_eq in Hd|]; lia.
  - rewrite fmap_cons. cbn. constructor.
    + intros Hx%occ_inorder. specialize (Hd x). rewrite hit_eq in Hd. lia.
    + apply IHr. intros q. specialize (Hd q). lia.
Qed.

Lemma holds_nodup s l : holds s l -> NoDup l.*1.
Proof. intros (t & (((Hd & _) & _) & _) & <- & _). by apply inorder_nodup. Qed.

(** An entry is determined by its node. *)
Lemma holds_functional s l x k k' : holds s l -> (x, k) ∈ l -> (x, k') ∈ l -> k = k'.
Proof.
  intros Hs (n & Hn & <-)%(holds_entry _ _ _ _ Hs) (n' & Hn' & <-)%(holds_entry _ _ _ _ Hs). congruence.
Qed.

Lemma holds_root s l : holds s l -> (root s =? sentinel) = bool_decide (l = []).
Proof.
  intros (t & (((_ & Hs) & _ & par & Hc & _) & _) & <- & _). cbn in Hc, Hs. rewrite Hc.
  destruct t as [|c tl x k r]; cbn; [by rewrite Z.eqb_refl|].
  rewrite bool_decide_eq_false_2 by (by destruct (inorder tl)).
  apply Z.eqb_neq, hit_ne. cbn in Hs. lia.
Qed.

Lemma holds_init s n :
  nodes s !! sentinel = Some n ->
  exists s', ngx_rbtree_init sentinel s = Some (tt, s') /\ holds s' [] /\
    dom (nodes s') = dom (nodes s).
Proof.
  intros Hn. destruct s as [rt h]. cbn in Hn. unfold ngx_rbtree_init, ngx_rbt_black.
  erewrite mthen_run by (by apply put_run). unfold set_root, mput. eexists. split; [reflexivity|].
  split; [|cbn; apply dom_insert_lookup_L; by eexists].
  exists E. split_and!; [|done|constructor]. split_and!; [|done|by exists 0%nat].
  split_and!; [split; [cbn; lia|done]|eexists; split; [apply lookup_insert_eq|done]|by exists NULL].
Qed.

(** A node that is not in the tree may be changed. *)
Lemma holds_outside s l x n :
  holds s l -> x ∉ l.*1 -> x <> sentinel -> holds (mk_tree (root s) (<[x := n]> (nodes s))) l.
Proof.
  intros (t & ((Hd & (ns & Hns & Hc) & par & Hpar & Ht) & Hrb) & <- & Ho) Hx Hxs.
  exists t. split_and!; [|done|done]. split; [|done]. split_and!; [done| |].
  - exists ns. cbn. by rewrite lookup_insert_ne.
  - exists par. split; [done|]. apply tree_in_insert; [|done].
    destruct (occ x t) eqn:E; [done|]. exfalso. apply Hx, occ_inorder. lia.
Qed.

Lemma holds_insert insert `{!InsertPt sentinel insert less} s l x n ks :
  holds s l -> nodes s !! x = Some n -> x ∉ l.*1 -> x <> sentinel ->
  orders less ks -> (x, key n) ∈ ks -> (forall a, a ∈ l -> a ∈ ks) ->
  (forall a b, keeps_dom (insert a b)) ->
  exists s' l', ngx_rbtree_insert sentinel insert x s = Some (tt, s') /\ holds s' l' /\
    inserted less (x, key n) l l' /\ dom (nodes s') = dom (nodes s).
Proof.
  intros (t & Ht & <- & Ho) Hn Hx Hxs Hor Hk Hks Hdom.
  destruct (insert_ordered sentinel insert less s t x n ks) as (s' & t' & E1 & Ht' & Ho' & Hi); try done.
  { destruct (occ x t) eqn:E; [done|]. exfalso. apply Hx, occ_inorder. lia. }
  exists s', (inorder t'). split_and!; [done|by exists t'|done|].
  by eapply keeps_insert.
Qed.

Lemma holds_delete s l1 x k l2 :
  holds s (l1 ++ (x, k) :: l2) ->
  exists s', ngx_rbtree_delete sentinel x s = Some (tt, s') /\ holds s' (l1 ++ l2) /\
    dom (nodes s') = dom (nodes s).
Proof.
  intros (t & Ht & E & Ho). destruct (delete_correct sentinel s t x k l1 l2 Ht E) as (s' & t' & E1 & Ht' & E2).
  exists s'. split_and!; [done| |by eapply keeps_delete].
  exists t'. split_and!; [done|done|]. by apply StronglySorted_split in Ho as [? _].
Qed.

Lemma holds_min s e l :
  holds s (e :: l) -> ngx_rbtree_min sentinel (root s) s = Some (e.1, s).
Proof.
  intros (t & (H & _) & E1 & _). destruct t as [|c tl x k r]; [done|].
  assert (root s = x) as -> by (by destruct H as (_ & _ & par & Hc & _)).
  unfold ngx_rbtree_min. erewrite mthen_run by reflexivity.
  destruct (min_loop_run sentinel (size (nodes s)) s [] c tl x k r H) as (ctx & cs & y & ky & rs & E2 & E3 & Hl);
    [cbn; lia|].
  rewrite E3, inorder_ctx, before_left in E1 by done. injection E1 as <- _. exact E2.
Qed.
End holds.
