(* ===== verification/NgxEventTimer.v ===== *)
(** The event timers of src/event/ngx_event_timer.c and src/event/ngx_event_timer.h:
    a red-black tree of the timers of events, keyed by their expiry in
    milliseconds, modulo [2 ^ 64].

    The model follows the build without threads and without debugging: the mutex
    macros are empty, and the log lines are left out.  [ngx_current_msec] is part
    of the state; the time of day only enters through it.  A timer is a node
    inside its event, [offset] bytes from its start. *)

From stdpp Require Import sorting.
From S2P Require Import Prelude NgxStore NgxRbtree NgxRbtreeDelete NgxRbtreeClient.

Open Scope Z_scope.
Open Scope store_scope.

Definition NGX_TIMER_INFINITE : Z := u64 (-1).
Definition NGX_TIMER_LAZY_DELAY : Z := 300.

(** The bits of [ngx_event_t] this code uses. *)
Record ngx_event_t := mk_event {
  timer_set : bool;
  timedout : bool;
}.

#[export] Instance eta_event : EtaRecord ngx_event_t := fun e => mk_event (timer_set e) (timedout e).
#[export] Instance set_timer_set : FieldSetter timer_set := ltac:(field_setter).
#[export] Instance set_timedout : FieldSetter timedout := ltac:(field_setter).

(** [ngx_event_timer_rbtree] with the nodes, the events, the clock, and whatever
    else the handlers of the events work on. *)
Record timers {W : Type} := mk_timers {
  ngx_event_timer_rbtree : ngx_rbtree_t;
  events : gmap loc ngx_event_t;
  ngx_current_msec : Z;
  world : W;
}.
Arguments timers : clear implicits.
Arguments mk_timers {_} _ _ _ _.

#[export] Program Instance timers_events {W} : Objects (timers W) ngx_event_t := {
  objects := events;
  set_objects h s := mk_timers (ngx_event_timer_rbtree s) h (ngx_current_msec s) (world s);
}.
Next Obligation. done. Qed.

Definition on_tree {W A} (m : MT A) : M (timers W) A := fun s =>
  match m (ngx_event_timer_rbtree s) with
  | Some (x, t) => Some (x, mk_timers t (events s) (ngx_current_msec s) (world s))
  | None => None
  end.

Section operations.
Context {W : Type} (ngx_event_timer_sentinel : loc) (offset : Z).
Local Abbreviation sentinel := ngx_event_timer_sentinel.

(** [&ev->timer], and back from the node to the event. *)
Definition timer_of (ev : loc) : loc := ev + offset.
Definition event_of (node : loc) : loc := node - offset.

Definition ngx_event_timer_init : M (timers W) unit := on_tree (ngx_rbtree_init sentinel).

Definition ngx_event_find_timer : M (timers W) Z :=
  root <-- mget (fun s => root (ngx_event_timer_rbtree s));
  if root =? sentinel then mret NGX_TIMER_INFINITE
  else
    node <-- on_tree (ngx_rbtree_min sentinel root);
    k <-- on_tree (get key node);
    now <-- mget ngx_current_msec;
    let timer := i64 (i64 k - i64 now) in
    mret (u64 (if timer >? 0 then timer else 0)).

Definition ngx_event_del_timer (ev : loc) : M (timers W) unit :=
  on_tree (ngx_rbtree_delete sentinel (timer_of ev)) ;;
  update ev (fun e => e <| timer_set := false |>).

Definition ngx_event_add_timer (ev : loc) (timer : Z) : M (timers W) unit :=
  now <-- mget ngx_current_msec;
  let key' := u64 (now + timer) in
  e <-- load ev;
  lazy <-- (if timer_set e then
              old <-- on_tree (get key (timer_of ev));
              let diff := i64 (u64 (key' - old)) in
              if ngx_abs diff <? NGX_TIMER_LAZY_DELAY then mret true
              else ngx_event_del_timer ev ;; mret false
            else mret false);
  if (lazy : bool) then mret tt
  else
    on_tree (put key (timer_of ev) key') ;;
    on_tree (ngx_rbtree_insert sentinel (ngx_rbtree_insert_timer_value sentinel) (timer_of ev)) ;;
    update ev (fun e => e <| timer_set := true |>).

(** [handler] is what the [handler] pointers of the events do. *)
Fixpoint ngx_event_expire_timers (handler : loc -> M (timers W) unit) (fuel : nat) : M (timers W) unit :=
  root <-- mget (fun s => root (ngx_event_timer_rbtree s));
  if root =? sentinel then mret tt
  else
    node <-- on_tree (ngx_rbtree_min sentinel root);
    k <-- on_tree (get key node);
    now <-- mget ngx_current_msec;
    if i64 (i64 k - i64 now) <=? 0 then
      match fuel with
      | O => mstuck
      | S fuel' =>
          let ev := event_of node in
          on_tree (ngx_rbtree_delete sentinel (timer_of ev)) ;;
          update ev (fun e => e <| timer_set := false |>) ;;
          update ev (fun e => e <| timedout := true |>) ;;
          handler ev ;;
          ngx_event_expire_timers handler fuel'
      end
    else mret tt.
End operations.

(** Two events armed for 700 and 500 ms near the wrap-around of the clock: the
    second expires first, 500 ms from now; re-arming it for 600 ms is lazy. *)
Example add_find :
  let node := mk_node 0 0 0 0 0 in
  let s0 := mk_timers (mk_tree 0 {[ 100 := node; 18 := node; 28 := node ]})
              {[ 10 := mk_event false false; 20 := mk_event false false ]} (2 ^ 64 - 100) tt in
  (fun '(r, s) => (r, key <$> nodes (ngx_event_timer_rbtree s) !! 18)) <$>
    (ngx_event_timer_init 100 ;; ngx_event_add_timer 100 8 10 700 ;; ngx_event_add_timer 100 8 20 500 ;;
     ngx_event_add_timer 100 8 20 600 ;; ngx_event_find_timer 100) s0
  = Some (500, Some 600).
Proof. vm_compute. reflexivity. Qed.

(** * Time left

    The clock wraps around; what a key means is the time left until it, as a
    signed number, and the keys are compared correctly as long as no timer is
    farther than [2 ^ 62] ms from now. *)

Definition remaining (now k : Z) : Z := i64 (k - now).

Definition near (now k : Z) : Prop :=
  0 <= k < 2 ^ 64 /\ - 2 ^ 62 <= remaining now k < 2 ^ 62.

Lemma i64_sub a b : i64 (i64 a - i64 b) = i64 (a - b).
Proof.
  apply swrap_eq_mod. rewrite <- Zminus_mod_idemp_l, <- Zminus_mod_idemp_r, !swrap_mod by lia.
  by rewrite Zminus_mod_idemp_l, Zminus_mod_idemp_r.
Qed.

Lemma remaining_sub now a b :
  near now a -> near now b -> i64 (a - b) = remaining now a - remaining now b.
Proof.
  intros [_ Ha] [_ Hb].
  rewrite <- (swrap_small 64 (remaining now a - remaining now b)) by lia.
  unfold remaining. rewrite i64_sub. f_equal. lia.
Qed.

Lemma timer_less_remaining now a b :
  near now a -> near now b -> timer_less a b = (remaining now a <? remaining now b).
Proof.
  intros Ha Hb. unfold timer_less. rewrite i64_sub, (remaining_sub now) by done.
  apply eq_true_iff_eq. rewrite !Z.ltb_lt. lia.
Qed.

Lemma timer_less_orders now ks : (forall a, a ∈ ks -> near now a.2) -> orders (by_key timer_less) ks.
Proof.
  intros Hks. unfold by_key. split.
  - intros a b c Ha Hb Hc. rewrite !(timer_less_remaining now) by auto. rewrite !Z.ltb_ge. lia.
  - intros a b Ha Hb. rewrite !(timer_less_remaining now) by auto. rewrite Z.ltb_ge, Z.ltb_lt. lia.
Qed.

Lemma remaining_add now timer : 0 <= timer < 2 ^ 62 -> remaining now (u64 (now + timer)) = timer.
Proof.
  intros Ht. unfold remaining. rewrite <- (swrap_small 64 timer) at 2 by lia.
  apply swrap_eq_mod. unfold wrap. rewrite Zminus_mod_idemp_l. f_equal. lia.
Qed.

Lemma near_add now timer : 0 <= timer < 2 ^ 62 -> near now (u64 (now + timer)).
Proof. intros Ht. split; [apply wrap_range; lia|]. rewrite remaining_add by done. lia. Qed.

(** * The invariant *)

Section proofs.
Context {W : Type} (sentinel : loc) (offset : Z).
Implicit Types (s : timers W).

(** The timers [l], in the order they expire: they are in the tree, and belong
    to the events whose [timer_set] is up. *)
Record armed (s : timers W) (l : list (loc * Z)) : Prop := mk_armed {
  armed_tree : holds sentinel (by_key timer_less) (ngx_event_timer_rbtree s) l;
  armed_near : forall a, a ∈ l -> near (ngx_current_msec s) a.2;
  armed_events : forall ev e, events s !! ev = Some e ->
    is_Some (nodes (ngx_event_timer_rbtree s) !! timer_of offset ev) /\ timer_of offset ev <> sentinel /\
    (timer_set e = true <-> timer_of offset ev ∈ l.*1);
  armed_back : forall x, x ∈ l.*1 -> is_Some (events s !! event_of offset x);
}.

Lemma timer_of_inj ev ev' : timer_of offset ev = timer_of offset ev' -> ev = ev'.
Proof. unfold timer_of. lia. Qed.

Lemma event_timer ev : event_of offset (timer_of offset ev) = ev.
Proof. unfold timer_of, event_of. lia. Qed.

Lemma timer_event x : timer_of offset (event_of offset x) = x.
Proof. unfold timer_of, event_of. lia. Qed.

Lemma on_tree_run {A} (m : MT A) s x t :
  m (ngx_event_timer_rbtree s) = Some (x, t) ->
  on_tree m s = Some (x, mk_timers t (events s) (ngx_current_msec s) (world s)).
Proof. unfold on_tree. by intros ->. Qed.

Lemma on_tree_pure {A} (m : MT A) s x :
  m (ngx_event_timer_rbtree s) = Some (x, ngx_event_timer_rbtree s) -> on_tree m s = Some (x, s).
Proof. intros H. rewrite (on_tree_run _ _ _ _ H). by destruct s. Qed.

Lemma set_event_run s ev (f : ngx_event_t -> ngx_event_t) e :
  events s !! ev = Some e ->
  update ev f s = Some (tt, mk_timers (ngx_event_timer_rbtree s) (<[ev := f e]> (events s)) (ngx_current_msec s) (world s)).
Proof. exact (update_run ev f e s). Qed.

(** The key of an armed timer. *)
Lemma key_run s l x k : armed s l -> (x, k) ∈ l -> on_tree (get key x) s = Some (k, s).
Proof.
  intros Hs Hx. apply on_tree_pure.
  destruct (holds_entry _ _ _ _ _ _ (armed_tree _ _ Hs) Hx) as (n & Hn & <-). by apply get_run_s.
Qed.

Lemma nodup_remove (l1 l2 : list (loc * Z)) x k : NoDup (l1 ++ (x, k) :: l2).*1 -> x ∉ (l1 ++ l2).*1.
Proof.
  rewrite !fmap_app, fmap_cons. cbn. rewrite NoDup_app, NoDup_cons, elem_of_app. set_solver.
Qed.

(** The node of [ev] leaves the tree. *)
Lemma del_timer_run s l1 l2 ev k :
  armed s (l1 ++ (timer_of offset ev, k) :: l2) ->
  exists s' e, ngx_event_del_timer sentinel offset ev s = Some (tt, s') /\ armed s' (l1 ++ l2) /\
    events s !! ev = Some e /\ events s' = <[ev := e <| timer_set := false |>]> (events s) /\
    ngx_current_msec s' = ngx_current_msec s /\ world s' = world s.
Proof.
  intros [Ht Hn He Hb].
  destruct (holds_delete _ _ _ _ _ _ _ Ht) as (t' & E1 & Ht' & Hdom).
  destruct (Hb (timer_of offset ev)) as [e Hev]; [rewrite fmap_app, fmap_cons; set_solver|].
  rewrite event_timer in Hev. pose proof (nodup_remove _ _ _ _ (holds_nodup _ _ _ _ Ht)) as Hnot.
  unfold ngx_event_del_timer. erewrite mthen_run by (apply on_tree_run; exact E1).
  erewrite set_event_run by exact Hev. eexists _, e. split; [reflexivity|]. split; [|done]. split; cbn.
  - done.
  - intros a Ha. apply Hn. set_solver.
  - intros ev' e' Hl. assert (is_Some (events s !! ev')) as [e0 He0].
    { destruct (decide (ev = ev')) as [<-|]; [by eexists|]. rewrite lookup_insert_ne in Hl by done. by eexists. }
    destruct (He _ _ He0) as (Hnd & Hns & Hset). split_and!; [|done|].
    { apply elem_of_dom. rewrite Hdom. by apply elem_of_dom. }
    destruct (decide (ev = ev')) as [<-|Hne].
    + rewrite lookup_insert_eq in Hl. injection Hl as <-. by split.
    + rewrite lookup_insert_ne in Hl by done. replace e' with e0 by congruence. rewrite Hset.
      rewrite !fmap_app, fmap_cons. cbn. pose proof (timer_of_inj ev ev'). set_solver.
  - intros x Hx. destruct (decide (ev = event_of offset x)) as [->|Hne]; [rewrite lookup_insert_eq; by eexists|].
    rewrite lookup_insert_ne by done. apply Hb. rewrite !fmap_app, fmap_cons in *. set_solver.
Qed.
Lemma inserted_elem less e l l' a : inserted less e l l' -> a ∈ l' <-> a = e \/ a ∈ l.
Proof. intros (l1 & l2 & -> & -> & _). set_solver. Qed.

Lemma inserted_nodes less e l l' x : inserted less e l l' -> x ∈ l'.*1 <-> x = e.1 \/ x ∈ l.*1.
Proof. intros (l1 & l2 & -> & -> & _). rewrite !fmap_app, fmap_cons. set_solver. Qed.

(** The rest of [ngx_event_add_timer]: the node of [ev] enters the tree. *)
Lemma arm_run s l ev e k :
  armed s l -> events s !! ev = Some e -> timer_of offset ev ∉ l.*1 -> near (ngx_current_msec s) k ->
  exists s' l',
    (on_tree (put key (timer_of offset ev) k) ;;
     on_tree (ngx_rbtree_insert sentinel (ngx_rbtree_insert_timer_value sentinel) (timer_of offset ev)) ;;
     update ev (fun e => e <| timer_set := true |>)) s = Some (tt, s') /\
    armed s' l' /\ inserted (by_key timer_less) (timer_of offset ev, k) l l' /\
    ngx_current_msec s' = ngx_current_msec s /\ world s' = world s.
Proof.
  intros [Ht Hn He Hb] Hev Hnot Hk. destruct (He _ _ Hev) as ([n Hnode] & Hns & _).
  destruct s as [[rt h] evs now w]. cbn in *.
  erewrite mthen_run by (apply on_tree_run, put_run; exact Hnode). cbn.
  destruct (holds_insert sentinel (by_key timer_less) (ngx_rbtree_insert_timer_value sentinel)
    (mk_tree rt (<[timer_of offset ev := n <| key := k |>]> h)) l (timer_of offset ev) (n <| key := k |>) ((timer_of offset ev, k) :: l))
    as (t' & l' & E1 & Ht' & Hi & Hdom); try done.
  { by apply (holds_outside _ _ (mk_tree rt h)). }
  { apply lookup_insert_eq. }
  { apply (timer_less_orders now). intros a [->|Ha]%elem_of_cons; auto. }
  { set_solver. }
  { intros a Ha. apply elem_of_cons. by right. }
  { intros a b. apply keeps_insert_by. }
  erewrite mthen_run by (apply on_tree_run; exact E1).
  erewrite set_event_run by exact Hev. cbn in Hdom. rewrite dom_insert_lookup_L in Hdom by (by eexists).
  eexists _, l'. split; [reflexivity|]. split; [|done]. split; cbn.
  - done.
  - intros a [->|Ha]%(inserted_elem _ _ _ _ _ Hi); auto.
  - intros ev' e' Hl. rewrite (inserted_nodes _ _ _ _ _ Hi). cbn.
    assert (forall q, is_Some (h !! q) -> is_Some (nodes t' !! q)) as Hdom'.
    { intros q. by rewrite <- !elem_of_dom, Hdom. }
    destruct (decide (ev = ev')) as [<-|Hne].
    + rewrite lookup_insert_eq in Hl. injection Hl as <-. split_and!; [by apply Hdom'; eexists|done|]. naive_solver.
    + rewrite lookup_insert_ne in Hl by done. destruct (He _ _ Hl) as (Hnd & Hns' & Hset).
      split_and!; [auto|done|]. rewrite Hset. pose proof (timer_of_inj ev ev'). naive_solver.
  - intros x Hx. destruct (decide (ev = event_of offset x)) as [->|Hne]; [rewrite lookup_insert_eq; by eexists|].
    rewrite lookup_insert_ne by done. apply Hb.
    apply (inserted_nodes _ _ _ _ _ Hi) in Hx as [->|Hx]; [|done]. cbn in Hne. by rewrite event_timer in Hne.
Qed.

Lemma armed_timer s l ev e :
  armed s l -> events s !! ev = Some e -> timer_set e = true ->
  exists l1 k l2, l = l1 ++ (timer_of offset ev, k) :: l2.
Proof.
  intros Hs He Hset. apply (armed_events _ _ Hs _ _ He) in Hset.
  apply list_elem_of_fmap in Hset as ([x k] & E & Hx). cbn in E. subst x.
  apply list_elem_of_split in Hx as (l1 & l2 & ->). by exists l1, k, l2.
Qed.

Lemma add_timer_run s l ev e timer :
  armed s l -> events s !! ev = Some e -> 0 <= timer < 2 ^ 62 ->
  exists s' l' k, ngx_event_add_timer sentinel offset ev timer s = Some (tt, s') /\ armed s' l' /\
    ngx_current_msec s' = ngx_current_msec s /\ world s' = world s /\ (timer_of offset ev, k) ∈ l' /\
    (if timer_set e then Z.abs (remaining (ngx_current_msec s) k - timer) < NGX_TIMER_LAZY_DELAY
     else remaining (ngx_current_msec s) k = timer) /\
    forall a, a.1 <> timer_of offset ev -> a ∈ l' <-> a ∈ l.
Proof.
  intros Hs He Htm. unfold ngx_event_add_timer. erewrite mthen_run by reflexivity. cbn zeta.
  erewrite mthen_run by (by apply load_run).
  set (now := ngx_current_msec s). set (k := u64 (now + timer)).
  pose proof (near_add now timer Htm : near now k) as Hk.
  pose proof (remaining_add now timer Htm : remaining now k = timer) as Hr.
  destruct (timer_set e) eqn:Hset.
  - destruct (armed_timer _ _ _ _ Hs He Hset) as (l1 & old & l2 & ->).
    assert (near now old) as Hold. { apply (armed_near _ _ Hs (timer_of offset ev, old)). set_solver. }
    rewrite mthen_assoc. rewrite (mthen_run _ _ _ old s) by (eapply key_run; [exact Hs|set_solver]).
    cbn zeta. rewrite i64_u64, (remaining_sub now), Hr by done.
    rewrite ngx_abs_small by (destruct Hold; lia).
    destruct (Z.ltb_spec (Z.abs (timer - remaining now old)) NGX_TIMER_LAZY_DELAY).
    + rewrite (mthen_run _ _ _ true s) by done. exists s, (l1 ++ (timer_of offset ev, old) :: l2), old.
      split_and!; [done|done|done|done|set_solver|fold now; lia|done].
    + rewrite mthen_assoc.
      destruct (del_timer_run _ _ _ _ _ Hs) as (s1 & e1 & E1 & Hs1 & _ & Hev1 & Hnow & Hw).
      erewrite mthen_run by exact E1. rewrite (mthen_run _ _ _ false s1) by done.
      destruct (arm_run s1 (l1 ++ l2) ev (e1 <| timer_set := false |>) k) as (s2 & l' & E2 & Hs2 & Hi & Hnow2 & Hw2).
      { done. } { rewrite Hev1. apply lookup_insert_eq. }
      { eapply nodup_remove, holds_nodup, (armed_tree _ _ Hs). } { by rewrite Hnow. }
      exists s2, l', k. split_and!; [exact E2|done|by rewrite Hnow2|by rewrite Hw2| | |].
      * apply (inserted_elem _ _ _ _ _ Hi). by left.
      * rewrite Hr. change NGX_TIMER_LAZY_DELAY with 300. lia.
      * intros a Ha. rewrite (inserted_elem _ _ _ _ _ Hi). set_solver.
  - rewrite (mthen_run _ _ _ false s) by done.
    destruct (arm_run s l ev e k Hs He) as (s2 & l' & E2 & Hs2 & Hi & Hnow2 & Hw2); [|done|].
    { intros Hin. apply (armed_events _ _ Hs _ _ He) in Hin. congruence. }
    exists s2, l', k. split_and!; [exact E2|done|done|done| |done|].
    + apply (inserted_elem _ _ _ _ _ Hi). by left.
    + intros a Ha. rewrite (inserted_elem _ _ _ _ _ Hi). set_solver.
Qed.

Lemma root_run s l :
  armed s l -> (root (ngx_event_timer_rbtree s) =? sentinel) = bool_decide (l = []).
Proof. intros Hs. by eapply holds_root, armed_tree. Qed.

Lemma min_run s a l :
  armed s (a :: l) ->
  on_tree (ngx_rbtree_min sentinel (root (ngx_event_timer_rbtree s))) s = Some (a.1, s) /\
  on_tree (get key a.1) s = Some (a.2, s).
Proof.
  intros Hs. split.
  - by eapply on_tree_pure, holds_min, armed_tree.
  - eapply key_run; [done|]. destruct a. set_solver.
Qed.

(** The first timer is the next one to expire. *)
Lemma armed_first s a l b :
  armed s (a :: l) -> b ∈ a :: l ->
  remaining (ngx_current_msec s) a.2 <= remaining (ngx_current_msec s) b.2.
Proof.
  intros Hs [->|Hb]%elem_of_cons; [done|]. pose proof (armed_near _ _ Hs) as Hn.
  destruct (armed_tree _ _ Hs) as (t & _ & _ & Ho). apply StronglySorted_inv in Ho as [_ Ho].
  rewrite Forall_forall in Ho. specialize (Ho b Hb). unfold by_key in Ho.
  rewrite (timer_less_remaining (ngx_current_msec s)) in Ho by (apply Hn; set_solver). lia.
Qed.

Lemma find_timer_run s l :
  armed s l ->
  ngx_event_find_timer sentinel s =
    Some (match l with
          | [] => NGX_TIMER_INFINITE
          | a :: _ => Z.max 0 (remaining (ngx_current_msec s) a.2)
          end, s).
Proof.
  intros Hs. unfold ngx_event_find_timer. erewrite mthen_run by reflexivity.
  rewrite (root_run _ _ Hs). destruct l as [|a l]; [done|]. rewrite bool_decide_eq_false_2 by done.
  destruct (min_run _ _ _ Hs) as [E1 E2].
  erewrite mthen_run by exact E1. erewrite mthen_run by exact E2. erewrite mthen_run by reflexivity.
  rewrite i64_sub. fold (remaining (ngx_current_msec s) a.2). unfold mret. do 2 f_equal.
  destruct (armed_near _ _ Hs a) as [_ Hr]; [apply elem_of_cons; by left|].
  destruct (Z.gtb_spec (remaining (ngx_current_msec s) a.2) 0); rewrite wrap_small; lia.
Qed.

(** * Expiry *)

Definition due (now : Z) (a : loc * Z) : Prop := remaining now a.2 <= 0.

#[export] Instance due_dec now a : Decision (due now a) := ltac:(unfold due; apply _).

(** Another bit of an event may be changed. *)
Lemma armed_set_timedout s l ev e b :
  armed s l -> events s !! ev = Some e ->
  armed (mk_timers (ngx_event_timer_rbtree s) (<[ev := e <| timedout := b |>]> (events s))
           (ngx_current_msec s) (world s)) l.
Proof.
  intros [Ht Hn He Hb] Hev. split; cbn; [done|done| |].
  - intros ev' e'. destruct (decide (ev = ev')) as [<-|Hne].
    + rewrite lookup_insert_eq. intros [= <-]. exact (He _ _ Hev).
    + rewrite lookup_insert_ne by done. apply He.
  - intros x Hx. destruct (decide (ev = event_of offset x)) as [->|]; [rewrite lookup_insert_eq; by eexists|].
    rewrite lookup_insert_ne by done. by apply Hb.
Qed.

(** The event of the first timer is taken out and marked. *)
Lemma expire_one s a l :
  armed s (a :: l) ->
  exists s1 e,
    (forall B (m : M (timers W) B),
      (on_tree (ngx_rbtree_delete sentinel (timer_of offset (event_of offset a.1))) ;;
       update (event_of offset a.1) (fun e => e <| timer_set := false |>) ;;
       update (event_of offset a.1) (fun e => e <| timedout := true |>) ;; m) s = m s1) /\
    armed s1 l /\ events s1 !! event_of offset a.1 = Some e /\ timer_set e = false /\ timedout e = true /\
    ngx_current_msec s1 = ngx_current_msec s /\ world s1 = world s.
Proof.
  intros Hs. destruct a as [x k]. cbn [fst].
  assert (armed s ([] ++ (timer_of offset (event_of offset x), k) :: l)) as Hs0 by (by rewrite timer_event).
  destruct (del_timer_run _ _ _ _ _ Hs0) as (s0 & e & E1 & H0 & He & Hev & Hnow & Hw).
  assert (events s0 !! event_of offset x = Some (e <| timer_set := false |>)) as He0.
  { rewrite Hev. apply lookup_insert_eq. }
  eexists _, (e <| timer_set := false |> <| timedout := true |>). split_and!.
  - intros B m. unfold ngx_event_del_timer in E1. rewrite <- mthen_assoc. erewrite mthen_run by exact E1.
    erewrite mthen_run by (apply set_event_run; exact He0). reflexivity.
  - by apply armed_set_timedout.
  - apply lookup_insert_eq.
  - done.
  - done.
  - done.
  - done.
Qed.

(** The next turn of the loop. *)
Lemma expire_turn handler fuel s a l :
  armed s (a :: l) -> due (ngx_current_msec s) a ->
  exists s1 e, ngx_event_expire_timers sentinel offset handler (S fuel) s =
      (handler (event_of offset a.1) ;; ngx_event_expire_timers sentinel offset handler fuel) s1 /\
    armed s1 l /\ events s1 !! event_of offset a.1 = Some e /\ timer_set e = false /\ timedout e = true /\
    ngx_current_msec s1 = ngx_current_msec s /\ world s1 = world s.
Proof.
  intros Hs Hdue. destruct (expire_one s a l Hs) as (s1 & e & E1 & Hrest).
  exists s1, e. split; [|done]. cbn [ngx_event_expire_timers]. erewrite mthen_run by reflexivity.
  rewrite (root_run _ _ Hs), bool_decide_eq_false_2 by done.
  destruct (min_run _ _ _ Hs) as [Em Ek].
  erewrite mthen_run by exact Em. erewrite mthen_run by exact Ek. erewrite mthen_run by reflexivity.
  rewrite i64_sub. fold (remaining (ngx_current_msec s) a.2). rewrite (proj2 (Z.leb_le _ 0)) by exact Hdue.
  apply E1.
Qed.

Lemma expire_stop handler fuel s l :
  armed s l -> match l with [] => True | a :: _ => ~ due (ngx_current_msec s) a end ->
  ngx_event_expire_timers sentinel offset handler fuel s = Some (tt, s).
Proof.
  intros Hs Hl. destruct fuel; cbn [ngx_event_expire_timers]; (erewrite mthen_run by reflexivity);
    rewrite (root_run _ _ Hs); (destruct l as [|a l]; [done|]); rewrite bool_decide_eq_false_2 by done;
    destruct (min_run _ _ _ Hs) as [Em Ek];
    (erewrite mthen_run by exact Em); (erewrite mthen_run by exact Ek); (erewrite mthen_run by reflexivity);
    rewrite i64_sub; fold (remaining (ngx_current_msec s) a.2);
    (rewrite (proj2 (Z.leb_gt _ 0)) by (unfold due in Hl; lia)); done.
Qed.

(** What [ngx_event_expire_timers] asks of the handlers: called for an event that
    is out of the tree, whose key [k] is not later than any timer's, a handler
    returns, leaves the timers consistent and the clock alone, and arms no timer
    that is due at once. *)
Class Handler (handler : loc -> M (timers W) unit) :=
  handler_run : forall s l ev e k,
    armed s l -> events s !! ev = Some e -> timer_set e = false -> timedout e = true ->
    due (ngx_current_msec s) (timer_of offset ev, k) ->
    (forall a, a ∈ l -> remaining (ngx_current_msec s) k <= remaining (ngx_current_msec s) a.2) ->
    exists s' l', handler ev s = Some (tt, s') /\ armed s' l' /\
      ngx_current_msec s' = ngx_current_msec s /\
      forall a, a ∈ l' -> due (ngx_current_msec s) a -> a ∈ l.

Definition due_of now (l : list (loc * Z)) : list (loc * Z) := filter (due now) l.

Lemma due_shrinks s s' l l' now :
  armed s l -> armed s' l' -> (forall a, a ∈ l' -> due now a -> a ∈ l) ->
  (length (due_of now l') <= length (due_of now l))%nat.
Proof.
  intros Hs Hs' Hsub. apply submseteq_length, NoDup_submseteq.
  - apply NoDup_filter, (NoDup_fmap_1 fst). eapply holds_nodup, (armed_tree _ _ Hs').
  - intros a. unfold due_of. rewrite !list_elem_of_filter. intros [? ?]. auto.
Qed.

Lemma expire_run handler `{!Handler handler} fuel s l :
  armed s l -> (length (due_of (ngx_current_msec s) l) <= fuel)%nat ->
  exists s' l', ngx_event_expire_timers sentinel offset handler fuel s = Some (tt, s') /\ armed s' l' /\
    ngx_current_msec s' = ngx_current_msec s /\
    forall a, a ∈ l' -> 0 < remaining (ngx_current_msec s) a.2.
Proof.
  revert s l. induction fuel as [|fuel IH]; intros s l Hs Hf; (destruct l as [|a l];
    [exists s, []; split_and!; [by eapply expire_stop|done|done|set_solver]|]);
    (destruct (decide (due (ngx_current_msec s) a)) as [Hd|Hd];
      [|exists s, (a :: l); split_and!; [by eapply expire_stop|done|done|]; intros b Hb;
        pose proof (armed_first _ _ _ _ Hs Hb); unfold due in Hd; lia]).
  { unfold due_of in Hf. rewrite filter_cons_True in Hf by done. cbn in Hf. lia. }
  destruct (expire_turn handler fuel _ _ _ Hs Hd) as (s1 & e & E1 & Hs1 & He & He1 & He2 & Hnow & _).
  destruct (handler_run s1 l (event_of offset a.1) e a.2 Hs1 He He1 He2) as (s2 & l2 & E2 & Hs2 & Hnow2 & Hsub).
  { rewrite Hnow, timer_event. by destruct a. }
  { intros b Hb. rewrite Hnow. apply (armed_first _ _ _ _ Hs). apply elem_of_cons. by right. }
  rewrite Hnow in Hsub, Hnow2.
  destruct (IH s2 l2 Hs2) as (s' & l' & E3 & Hs' & Hnow' & Hpos).
  { rewrite Hnow2. pose proof (due_shrinks _ _ _ _ _ Hs1 Hs2 Hsub).
    unfold due_of in *. rewrite filter_cons_True in Hf by done. cbn in Hf. lia. }
  exists s', l'. rewrite E1. erewrite mthen_run by exact E2. rewrite Hnow2 in *. by split_and!.
Qed.

(** A handler that re-arms its event, as a periodic timer does. *)
#[export] Instance rearm_handler interval :
  0 < interval < 2 ^ 62 -> Handler (fun ev => ngx_event_add_timer sentinel offset ev interval).
Proof.
  intros Hi s l ev e k Hs He Hset _ _ _.
  destruct (add_timer_run s l ev e interval Hs He) as (s' & l' & k' & E1 & Hs' & Hnow & _ & Hk & Hr & Hrest);
    [lia|]. rewrite Hset in Hr. exists s', l'. split_and!; [done|done|done|].
  intros a Ha Hd. destruct (decide (a.1 = timer_of offset ev)) as [E2|]; [|by apply Hrest].
  destruct a as [x kx]. cbn in E2. subst x. unfold due in Hd. cbn in Hd.
  rewrite (holds_functional _ _ _ _ _ _ _ (armed_tree _ _ Hs') Ha Hk) in Hd. lia.
Qed.

(** * The clock *)

Definition advance (d : Z) (s : timers W) : timers W :=
  mk_timers (ngx_event_timer_rbtree s) (events s) (u64 (ngx_current_msec s + d)) (world s).

Lemma remaining_advance now k d :
  near now k -> - 2 ^ 62 + d <= remaining now k -> 0 <= d < 2 ^ 62 ->
  remaining (u64 (now + d)) k = remaining now k - d.
Proof.
  intros [_ Hk] Hd Hd2. rewrite <- (swrap_small 64 (remaining now k - d)) by lia.
  unfold remaining. rewrite (swrap_eq_mod 64 (swrap 64 (k - now) - d) (k - now - d)).
  - apply swrap_eq_mod. unfold wrap. rewrite Zminus_mod_idemp_r. f_equal. lia.
  - rewrite <- Zminus_mod_idemp_l, swrap_mod by lia. by rewrite Zminus_mod_idemp_l.
Qed.

Lemma armed_advance s l d :
  armed s l -> 0 <= d < 2 ^ 62 ->
  (forall a, a ∈ l -> - 2 ^ 62 + d <= remaining (ngx_current_msec s) a.2) -> armed (advance d s) l.
Proof.
  intros [Ht Hn He Hb] Hd Hr. split; cbn; [done| |done|done].
  intros a Ha. split; [apply Hn; done|]. rewrite remaining_advance; auto.
  destruct (Hn a Ha) as [_ ?]. specialize (Hr a Ha). lia.
Qed.
End proofs.

(** * Theorems *)

Section theorems.
Context {W : Type} (sentinel : loc) (offset : Z).

(** C17: arming a timer, armed already or not, returns with the timers consistent
    and the event's timer in the tree: exactly at the time asked for when the
    event had no timer, within the lazy delay of it when it had one.  No other
    timer changes. *)
Theorem add_timer_correct (s : timers W) l ev e timer :
  armed sentinel offset s l -> events s !! ev = Some e -> 0 <= timer < 2 ^ 62 ->
  exists s' l' k, ngx_event_add_timer sentinel offset ev timer s = Some (tt, s') /\
    armed sentinel offset s' l' /\ ngx_current_msec s' = ngx_current_msec s /\ world s' = world s /\
    (timer_of offset ev, k) ∈ l' /\
    (if timer_set e then Z.abs (remaining (ngx_current_msec s) k - timer) < NGX_TIMER_LAZY_DELAY
     else remaining (ngx_current_msec s) k = timer) /\
    forall a, a.1 <> timer_of offset ev -> a ∈ l' <-> a ∈ l.
Proof. apply add_timer_run. Qed.

(** Disarming a timer takes exactly it out of the tree. *)
Theorem del_timer_correct (s : timers W) l ev e :
  armed sentinel offset s l -> events s !! ev = Some e -> timer_set e = true ->
  exists s' l1 k l2, ngx_event_del_timer sentinel offset ev s = Some (tt, s') /\
    l = l1 ++ (timer_of offset ev, k) :: l2 /\ armed sentinel offset s' (l1 ++ l2).
Proof.
  intros Hs He Hset. destruct (armed_timer _ _ _ _ _ _ Hs He Hset) as (l1 & k & l2 & ->).
  destruct (del_timer_run _ _ _ _ _ _ _ Hs) as (s' & e' & E1 & Hs' & _).
  by exists s', l1, k, l2.
Qed.

(** [ngx_event_find_timer] gives the time until the next timer expires: 0 when
    one is due, the infinite value when there is none, and never more than what
    is left of any timer. *)
Theorem find_timer_correct (s : timers W) l :
  armed sentinel offset s l ->
  exists r, ngx_event_find_timer sentinel s = Some (r, s) /\
    (l = [] -> r = NGX_TIMER_INFINITE) /\
    (forall a, a ∈ l -> r <= Z.max 0 (remaining (ngx_current_msec s) a.2)) /\
    (l <> [] -> exists a, a ∈ l /\ r = Z.max 0 (remaining (ngx_current_msec s) a.2)).
Proof.
  intros Hs. eexists. split; [by eapply find_timer_run|]. destruct l as [|a l]; [split_and!; [done|set_solver|done]|].
  split_and!; [done| |].
  - intros b Hb. pose proof (armed_first _ _ _ _ _ _ Hs Hb). lia.
  - intros _. exists a. split; [|done]. apply elem_of_cons. by left.
Qed.

(** C18: the loop of [ngx_event_expire_timers] ends: with handlers that keep the
    timers consistent and arm nothing that is due at once, as many turns as there
    are timers are enough, and afterwards no timer is due. *)
Theorem expire_timers_terminates handler `{!Handler sentinel offset handler} (s : timers W) l :
  armed sentinel offset s l ->
  exists s' l', ngx_event_expire_timers sentinel offset handler (length l) s = Some (tt, s') /\
    armed sentinel offset s' l' /\ ngx_current_msec s' = ngx_current_msec s /\
    forall a, a ∈ l' -> 0 < remaining (ngx_current_msec s) a.2.
Proof. intros Hs. eapply expire_run; [done|done|]. apply length_filter. Qed.
End theorems.

(** ** Armed timers fire

    The world of the handlers has a log besides, in which each call is noted. *)
Section fires.
Context {W : Type} (sentinel : loc) (offset : Z).

Definition note (ev : loc) : M (timers (W * list loc)) unit :=
  mput (fun s => mk_timers (ngx_event_timer_rbtree s) (events s) (ngx_current_msec s) ((world s).1, (world s).2 ++ [ev])).

Definition noted (handler : loc -> M (timers (W * list loc)) unit) (ev : loc) : M (timers (W * list loc)) unit := note ev ;; handler ev.

(** What is asked of the handlers for the timer of [ev0] to fire: besides what
    [ngx_event_expire_timers] needs, those of the other events neither stop nor move it.
    The log only grows. *)
Class LetsFire (ev0 : loc) (handler : loc -> M (timers (W * list loc)) unit) :=
  lets_fire : forall s l ev e k,
    armed sentinel offset s l -> events s !! ev = Some e -> timer_set e = false -> timedout e = true ->
    due (ngx_current_msec s) (timer_of offset ev, k) ->
    (forall a, a ∈ l -> remaining (ngx_current_msec s) k <= remaining (ngx_current_msec s) a.2) ->
    exists s' l' t, handler ev s = Some (tt, s') /\ armed sentinel offset s' l' /\
      ngx_current_msec s' = ngx_current_msec s /\ (world s').2 = (world s).2 ++ t /\
      (forall a, a ∈ l' -> due (ngx_current_msec s) a -> a ∈ l) /\
      (ev <> ev0 -> forall k0, (timer_of offset ev0, k0) ∈ l -> (timer_of offset ev0, k0) ∈ l').

(** A handler that re-arms its event leaves the other timers alone. *)
#[export] Instance rearm_lets_fire ev0 interval :
  0 < interval < 2 ^ 62 -> LetsFire ev0 (fun ev => ngx_event_add_timer sentinel offset ev interval).
Proof.
  intros Hi s l ev e k Hs He Hset _ _ _.
  destruct (add_timer_run sentinel offset s l ev e interval Hs He) as (s' & l' & k' & E1 & Hs' & Hnow & Hw & Hk & Hr & Hrest);
    [lia|]. rewrite Hset in Hr. exists s', l', []. split_and!; [done|done|done|by rewrite Hw, app_nil_r| |].
  - intros a Ha Hd. destruct (decide (a.1 = timer_of offset ev)) as [E2|]; [|by apply Hrest].
    destruct a as [x kx]. cbn in E2. subst x. unfold due in Hd. cbn in Hd.
    rewrite (holds_functional _ _ _ _ _ _ _ (armed_tree _ _ _ _ Hs') Ha Hk) in Hd. lia.
  - intros Hne k0 Hk0. apply Hrest; [|done]. cbn. unfold timer_of. lia.
Qed.

Context (ev0 : loc) (handler : loc -> M (timers (W * list loc)) unit) `{!LetsFire ev0 handler}.

(** A turn of the loop. *)
Lemma fires_turn fuel s a l :
  armed sentinel offset s (a :: l) -> due (ngx_current_msec s) a ->
  exists s2 l2 t,
    ngx_event_expire_timers sentinel offset (noted handler) (S fuel) s = ngx_event_expire_timers sentinel offset (noted handler) fuel s2 /\
    armed sentinel offset s2 l2 /\ ngx_current_msec s2 = ngx_current_msec s /\
    (world s2).2 = (world s).2 ++ event_of offset a.1 :: t /\
    (length (due_of (ngx_current_msec s) l2) <= length (due_of (ngx_current_msec s) l))%nat /\
    (event_of offset a.1 <> ev0 -> forall k0, (timer_of offset ev0, k0) ∈ l -> (timer_of offset ev0, k0) ∈ l2).
Proof.
  intros Hs Hd. destruct (expire_turn sentinel offset (noted handler) fuel _ _ _ Hs Hd) as (s1 & e & E1 & Hs1 & He & He1 & He2 & Hnow & Hw).
  set (s1' := mk_timers (ngx_event_timer_rbtree s1) (events s1) (ngx_current_msec s1) ((world s1).1, (world s1).2 ++ [event_of offset a.1])).
  destruct (lets_fire s1' l (event_of offset a.1) e a.2) as (s2 & l2 & t & E2 & Hs2 & Hnow2 & Hlog & Hsub & Hkeep); [by destruct Hs1|done|done|done|..].
  { cbn. rewrite Hnow, timer_event. by destruct a. }
  { intros b Hb. cbn. rewrite Hnow. apply (armed_first _ _ _ _ _ _ Hs). apply elem_of_cons. by right. }
  cbn in Hnow2, Hlog, Hsub. exists s2, l2, t. split_and!.
  - rewrite E1. unfold noted at 1. by erewrite mthen_run by (erewrite mthen_run by reflexivity; exact E2).
  - done.
  - congruence.
  - by rewrite Hlog, Hw, <- app_assoc.
  - rewrite <- Hnow. by eapply (due_shrinks sentinel offset s1 s2).
  - done.
Qed.

Lemma fires_ends fuel s l :
  armed sentinel offset s l -> (length (due_of (ngx_current_msec s) l) <= fuel)%nat ->
  exists s' t, ngx_event_expire_timers sentinel offset (noted handler) fuel s = Some (tt, s') /\ (world s').2 = (world s).2 ++ t.
Proof.
  revert s l. induction fuel as [|fuel IH]; intros s l Hs Hf; (destruct l as [|a l];
    [exists s, []; split; [by eapply expire_stop|by rewrite app_nil_r]|]);
    (destruct (decide (due (ngx_current_msec s) a)) as [Hd|Hd]; [|exists s, []; split; [by eapply expire_stop|by rewrite app_nil_r]]);
    unfold due_of in Hf; rewrite filter_cons_True in Hf by done; cbn in Hf; [lia|].
  destruct (fires_turn fuel _ _ _ Hs Hd) as (s2 & l2 & t & -> & Hs2 & Hnow & Hlog & Hlen & _). unfold due_of in Hlen.
  destruct (IH s2 l2 Hs2) as (s' & t' & -> & Hlog'); [rewrite Hnow; unfold due_of; lia|].
  exists s', (event_of offset a.1 :: t ++ t'). split; [done|]. by rewrite Hlog', Hlog, <- app_assoc.
Qed.

Lemma fires_run fuel s l k :
  armed sentinel offset s l -> (timer_of offset ev0, k) ∈ l -> due (ngx_current_msec s) (timer_of offset ev0, k) ->
  (length (due_of (ngx_current_msec s) l) <= fuel)%nat ->
  exists s' t, ngx_event_expire_timers sentinel offset (noted handler) fuel s = Some (tt, s') /\ (world s').2 = (world s).2 ++ t /\ ev0 ∈ t.
Proof.
  revert s l. induction fuel as [|fuel IH]; intros s l Hs Hin Hd0 Hf; (destruct l as [|a l]; [by apply elem_of_nil in Hin|]);
    (assert (due (ngx_current_msec s) a) as Hd by (pose proof (armed_first _ _ _ _ _ _ Hs Hin); unfold due in *; cbn in *; lia));
    unfold due_of in Hf; rewrite filter_cons_True in Hf by done; cbn in Hf; [lia|].
  destruct (fires_turn fuel _ _ _ Hs Hd) as (s2 & l2 & t & -> & Hs2 & Hnow & Hlog & Hlen & Hkeep). unfold due_of in Hlen.
  destruct (decide (event_of offset a.1 = ev0)) as [E|E].
  - destruct (fires_ends fuel s2 l2 Hs2) as (s' & t' & -> & Hlog'); [rewrite Hnow; unfold due_of; lia|].
    exists s', (event_of offset a.1 :: t ++ t'). split_and!; [done|by rewrite Hlog', Hlog, <- app_assoc|]. rewrite E. apply elem_of_cons. by left.
  - apply elem_of_cons in Hin as [E'|Hin]; [destruct E; rewrite <- E'; apply event_timer|].
    destruct (IH s2 l2 Hs2) as (s' & t' & -> & Hlog' & Ht'); [by apply Hkeep|by rewrite Hnow|rewrite Hnow; unfold due_of; lia|].
    exists s', (event_of offset a.1 :: t ++ t'). split_and!; [done|by rewrite Hlog', Hlog, <- app_assoc|]. apply elem_of_cons. right. apply elem_of_app. by right.
Qed.

(** C19: an armed timer fires.  When an event is armed for [timer] ms and the clock
    advances by the lazy delay more than that, however it wraps around, the next
    [ngx_event_expire_timers] ends and has called the handler of the event.  The handlers
    are any that return, keep the timers consistent and the clock alone, arm nothing that
    is due at once, and, those of other events, neither stop nor move the timer of this
    event ([LetsFire]); one that does can keep it from firing. *)
Theorem timer_fires (s : timers (W * list loc)) l e timer d :
  armed sentinel offset s l -> events s !! ev0 = Some e ->
  0 <= timer -> timer + NGX_TIMER_LAZY_DELAY <= d < 2 ^ 61 ->
  (forall a, a ∈ l -> - 2 ^ 61 <= remaining (ngx_current_msec s) a.2) ->
  exists s' t, (ngx_event_add_timer sentinel offset ev0 timer ;; mput (advance d) ;;
      ngx_event_expire_timers sentinel offset (noted handler) (S (length l))) s = Some (tt, s') /\
    (world s').2 = (world s).2 ++ t /\ ev0 ∈ t.
Proof.
  intros Hs He Ht Hd Hl. change NGX_TIMER_LAZY_DELAY with 300 in Hd.
  destruct (add_timer_run _ _ s l ev0 e timer Hs He) as (s1 & l1 & k & E1 & Hs1 & Hnow & Hw & Hk & Hr & Hrest); [lia|].
  assert (Z.abs (remaining (ngx_current_msec s) k - timer) < 300) as Hr'.
  { change NGX_TIMER_LAZY_DELAY with 300 in Hr. destruct (timer_set e); lia. }
  assert (forall a, a ∈ l1 -> a = (timer_of offset ev0, k) \/ a ∈ l) as Hl1.
  { intros [x kx] Ha. destruct (decide (x = timer_of offset ev0)) as [->|]; [left|by right; apply Hrest].
    by rewrite (holds_functional _ _ _ _ _ _ _ (armed_tree _ _ _ _ Hs1) Ha Hk). }
  assert (armed sentinel offset (advance d s1) l1) as Hs2.
  { apply armed_advance; [done|lia|]. rewrite Hnow.
    intros a [->|Ha]%Hl1; [cbn; lia|]. specialize (Hl a Ha). lia. }
  erewrite mthen_run by exact E1. erewrite mthen_run by reflexivity.
  destruct (fires_run (S (length l)) (advance d s1) l1 k Hs2 Hk) as (s' & t & E2 & Hlog & Hin).
  { unfold due. cbn. rewrite Hnow. rewrite remaining_advance; [lia| |lia|lia]. rewrite <- Hnow. by apply (armed_near _ _ _ _ Hs1 (timer_of offset ev0, k)). }
  { etransitivity; [apply length_filter|]. apply (submseteq_length _ ((timer_of offset ev0, k) :: l)), NoDup_submseteq.
    - apply (NoDup_fmap_1 fst). eapply holds_nodup, (armed_tree _ _ _ _ Hs1).
    - intros a [->|Ha]%Hl1; apply elem_of_cons; auto. }
  exists s', t. split_and!; [exact E2| |done]. rewrite Hlog. cbn. by rewrite Hw.
Qed.
End fires.

(** * A sample: two events, the first armed for 700 ms, near the wrap-around *)

Definition sample_timers : timers (list loc) := mk_timers
  (mk_tree 18 {[ 100 := mk_node 0 0 0 0 0; 18 := mk_node 600 100 100 0 0; 28 := mk_node 0 0 0 0 0 ]})
  {[ 10 := mk_event true false; 20 := mk_event false false ]} (2 ^ 64 - 100) [].

Lemma sample_armed : armed 100 8 sample_timers [(18, 600)].
Proof.
  split.
  - exists (T false E 18 600 E). split_and!; [|done|by repeat constructor].
    split_and!; [|done|by exists 1%nat, 0%nat]. split_and!; [split|by eexists|exists 0; cbn; by split_and!].
    + intros q. cbn. unfold hit. case_decide; lia.
    + done.
  - intros a ->%list_elem_of_singleton. by split_and!.
  - intros ev e. cbn. rewrite lookup_insert_Some, lookup_singleton_Some.
    intros [[<- <-]|[_ [<- <-]]]; (split_and!; [by eexists|done|]); cbn; set_solver.
  - cbn. intros x ->%list_elem_of_singleton. by eexists.
Qed.

Lemma add_timer_correct_witness :
  exists s' l' k, ngx_event_add_timer 100 8 20 500 sample_timers = Some (tt, s') /\
    armed 100 8 s' l' /\ ngx_current_msec s' = 2 ^ 64 - 100 /\ world s' = [] /\ (28, k) ∈ l' /\
    remaining (2 ^ 64 - 100) k = 500 /\ forall a, a.1 <> 28 -> a ∈ l' <-> a ∈ [(18, 600)].
Proof.
  apply (add_timer_correct 100 8 sample_timers [(18, 600)] 20 (mk_event false false) 500 sample_armed);
    [reflexivity|lia].
Defined.

Lemma find_timer_correct_witness :
  exists r, ngx_event_find_timer 100 sample_timers = Some (r, sample_timers) /\ r <= 700.
Proof.
  destruct (find_timer_correct 100 8 sample_timers [(18, 600)] sample_armed) as (r & E1 & _ & Hr & _).
  exists r. split; [exact E1|]. apply (Hr (18, 600)), list_elem_of_singleton. reflexivity.
Defined.

Lemma expire_timers_terminates_witness :
  exists s' l', ngx_event_expire_timers 100 8 (fun ev => ngx_event_add_timer 100 8 ev 50) 1
      sample_timers = Some (tt, s') /\ armed 100 8 s' l' /\
    ngx_current_msec s' = 2 ^ 64 - 100 /\ forall a, a ∈ l' -> 0 < remaining (2 ^ 64 - 100) a.2.
Proof.
  refine (@expire_timers_terminates (list loc) 100 8 _ _ sample_timers [(18, 600)] sample_armed).
  apply rearm_handler. lia.
Defined.

Definition noted_timers : timers (unit * list loc) :=
  mk_timers (ngx_event_timer_rbtree sample_timers) (events sample_timers) (ngx_current_msec sample_timers) (tt, []).

Lemma noted_armed : armed 100 8 noted_timers [(18, 600)].
Proof. by destruct sample_armed. Qed.

(** Both events re-arm themselves, the first, which expires before the second, too. *)
Lemma timer_fires_witness :
  exists s' t, (ngx_event_add_timer 100 8 20 750 ;; mput (advance 1050) ;;
      ngx_event_expire_timers 100 8 (noted (fun ev => ngx_event_add_timer 100 8 ev 50)) 2) noted_timers = Some (tt, s') /\
    (world s').2 = [] ++ t /\ 20 ∈ t.
Proof.
  refine (@timer_fires unit 100 8 20 (fun ev => ngx_event_add_timer 100 8 ev 50) _ noted_timers [(18, 600)] (mk_event false false) 750 1050 _ _ _ _ _).
  - apply rearm_lets_fire. lia.
  - exact noted_armed.
  - reflexivity.
  - lia.
  - done.
  - intros a ->%list_elem_of_singleton. done.
Defined.

(** From [ngx_event_timer_init] on, with every event unarmed and its timer in
    memory, the invariant holds. *)
Theorem timer_init_correct {W} sentinel offset (s : timers W) n :
  nodes (ngx_event_timer_rbtree s) !! sentinel = Some n ->
  (forall ev e, events s !! ev = Some e -> timer_set e = false /\ timer_of offset ev <> sentinel /\
    is_Some (nodes (ngx_event_timer_rbtree s) !! timer_of offset ev)) ->
  exists s', ngx_event_timer_init sentinel s = Some (tt, s') /\ armed sentinel offset s' [].
Proof.
  intros Hn He. destruct (holds_init sentinel (by_key timer_less) _ _ Hn) as (t & E1 & Ht & Hdom).
  eexists. split; [by apply on_tree_run|]. split; cbn; [done|set_solver| |set_solver].
  intros ev e Hev. destruct (He ev e Hev) as (Hset & Hne & Hnode).
  split_and!; [|done|rewrite Hset; set_solver].
  apply elem_of_dom. rewrite Hdom. by apply elem_of_dom.
Qed.
