(* ===== verification/NgxRadix.v ===== *)
(** The radix tree of src/core/ngx_radix_tree.c: prefixes of 32-bit keys with a
    value each, and the search for the longest prefix of a key.

    The nodes live at addresses; [ngx_radix_alloc] takes them from the list of
    freed nodes or carves them from pages.  A page is what [ngx_pmemalign]
    returns: the parameter [pmemalign i] is the result of its call number [i],
    [NULL] when it fails, and [ngx_pagesize] is the size of a page. *)

From S2P Require Import Prelude NgxStore.

Open Scope Z_scope.
Open Scope store_scope.

Definition NGX_RADIX_NO_VALUE : Z := u64 (-1).

Record ngx_radix_node_t := mk_node {
  right : loc;
  left : loc;
  parent : loc;
  value : Z;
}.

#[export] Instance eta_radix_node : EtaRecord ngx_radix_node_t := fun n =>
  mk_node (right n) (left n) (parent n) (value n).
#[export] Instance set_radix_right : FieldSetter right := ltac:(field_setter).
#[export] Instance set_radix_left : FieldSetter left := ltac:(field_setter).
#[export] Instance set_radix_parent : FieldSetter parent := ltac:(field_setter).
#[export] Instance set_radix_value : FieldSetter value := ltac:(field_setter).

(** [tree->pool] is only passed to [ngx_pmemalign]; [calls] counts its calls. *)
Record ngx_radix_tree_t := mk_radix {
  root : loc;
  free : loc;
  start : loc;
  size_left : Z;
  calls : nat;
  nodes : gmap loc ngx_radix_node_t;
}.

#[export] Instance eta_radix : EtaRecord ngx_radix_tree_t := fun t =>
  mk_radix (root t) (free t) (start t) (size_left t) (calls t) (nodes t).
#[export] Instance set_radix_root : FieldSetter root := ltac:(field_setter).
#[export] Instance set_radix_free : FieldSetter free := ltac:(field_setter).
#[export] Instance set_radix_start : FieldSetter start := ltac:(field_setter).
#[export] Instance set_radix_size : FieldSetter size_left := ltac:(field_setter).
#[export] Instance set_radix_calls : FieldSetter calls := ltac:(field_setter).
#[export] Instance set_radix_nodes : FieldSetter nodes := ltac:(field_setter).

#[export] Program Instance radix_nodes : Objects ngx_radix_tree_t ngx_radix_node_t := {
  objects := nodes;
  set_objects h t := t <| nodes := h |>;
}.
Next Obligation. done. Qed.

Abbreviation MR := (M ngx_radix_tree_t).

(** [sizeof(ngx_radix_node_t)] *)
Definition sizeof_node : Z := 32.

(** All the fields of a node just allocated are assigned. *)
Definition init_node (p : loc) (n : ngx_radix_node_t) : MR unit :=
  mput (fun t => t <| nodes := <[p := n]> (nodes t) |>).

Definition rget {A} (f : ngx_radix_node_t -> A) (p : loc) : MR A := n <-- load p; mret (f n).

Section operations.
Context (ngx_pagesize : Z) (pmemalign : nat -> loc).

Definition ngx_radix_alloc : MR loc :=
  fr <-- mget free;
  if negb (fr =? NULL) then
    next <-- rget right fr;
    mput (fun t => t <| free := next |>) ;;
    mret fr
  else
    sz <-- mget size_left;
    ok <-- (if sz <? sizeof_node then
              i <-- mget calls;
              mput (fun t => t <| start := pmemalign i |> <| calls := S i |>) ;;
              if pmemalign i =? NULL then mret false
              else mput (fun t => t <| size_left := ngx_pagesize |>) ;; mret true
            else mret true);
    if negb ok then mret NULL
    else
      p <-- mget start;
      mput (fun t => t <| start := p + sizeof_node |>) ;;
      sz <-- mget size_left;
      mput (fun t => t <| size_left := sz - sizeof_node |>) ;;
      mret p.

(** The first loop of the insertion: the values of [bit], [node] and [next] when
    it ends. *)
Fixpoint insert_descend (fuel : nat) (key mask bit : Z) (node next : loc) : MR (Z * loc * loc) :=
  if Z.land bit mask =? 0 then mret (bit, node, next)
  else match fuel with
  | O => mstuck
  | S fuel' =>
      next <-- (if negb (Z.land key bit =? 0) then rget right node else rget left node);
      if next =? NULL then mret (bit, node, next)
      else insert_descend fuel' key mask (Z.shiftr bit 1) next next
  end.

(** The second loop: the node it ends at, [NULL] when there is no memory. *)
Fixpoint insert_grow (fuel : nat) (key mask bit : Z) (node : loc) : MR loc :=
  if Z.land bit mask =? 0 then mret node
  else match fuel with
  | O => mstuck
  | S fuel' =>
      next <-- ngx_radix_alloc;
      if next =? NULL then mret NULL
      else
        init_node next (mk_node NULL NULL node NGX_RADIX_NO_VALUE) ;;
        (if negb (Z.land key bit =? 0)
         then update node (fun n => n <| right := next |>)
         else update node (fun n => n <| left := next |>)) ;;
        insert_grow fuel' key mask (Z.shiftr bit 1) next
  end.

(** A [bit] is shifted out after 32 turns. *)
Definition bit_fuel : nat := 32.

Definition ngx_radix32tree_insert (key mask v : Z) : MR Z :=
  rt <-- mget root;
  r <-- insert_descend bit_fuel key mask 0x80000000 rt rt;
  let '(bit, node, next) := r in
  if negb (next =? NULL) then
    old <-- rget value node;
    if negb (old =? NGX_RADIX_NO_VALUE) then mret NGX_BUSY
    else update node (fun n => n <| value := v |>) ;; mret NGX_OK
  else
    node <-- insert_grow bit_fuel key mask bit node;
    if node =? NULL then mret NGX_ERROR
    else update node (fun n => n <| value := v |>) ;; mret NGX_OK.

(** The first loop of the deletion. *)
Fixpoint delete_descend (fuel : nat) (key mask bit : Z) (node : loc) : MR loc :=
  if (node =? NULL) || (Z.land bit mask =? 0) then mret node
  else match fuel with
  | O => mstuck
  | S fuel' =>
      node <-- (if negb (Z.land key bit =? 0) then rget right node else rget left node);
      delete_descend fuel' key mask (Z.shiftr bit 1) node
  end.

(** A node taken out of the tree and freed; the result is its parent. *)
Definition unlink_node (node : loc) : MR loc :=
  par <-- rget parent node;
  pr <-- rget right par;
  (if pr =? node then update par (fun n => n <| right := NULL |>)
   else update par (fun n => n <| left := NULL |>)) ;;
  fr <-- mget free;
  update node (fun n => n <| right := fr |>) ;;
  mput (fun t => t <| free := node |>) ;;
  rget parent node.

(** The loop that frees the nodes that hold nothing any more. *)
Fixpoint delete_prune (fuel : nat) (node : loc) : MR unit :=
  match fuel with
  | O => mstuck
  | S fuel' =>
      node <-- unlink_node node;
      n <-- load node;
      if negb (right n =? NULL) || negb (left n =? NULL) then mret tt
      else if negb (value n =? NGX_RADIX_NO_VALUE) then mret tt
      else if parent n =? NULL then mret tt
      else delete_prune fuel' node
  end.

Definition ngx_radix32tree_delete (key mask : Z) : MR Z :=
  rt <-- mget root;
  node <-- delete_descend bit_fuel key mask 0x80000000 rt;
  if node =? NULL then mret NGX_ERROR
  else
    n <-- load node;
    if negb (right n =? NULL) || negb (left n =? NULL) then
      if negb (value n =? NGX_RADIX_NO_VALUE) then
        update node (fun n => n <| value := NGX_RADIX_NO_VALUE |>) ;; mret NGX_OK
      else mret NGX_ERROR
    else
      delete_prune bit_fuel node ;; mret NGX_OK.

Fixpoint find_loop (fuel : nat) (key bit v : Z) (node : loc) : MR Z :=
  if node =? NULL then mret v
  else match fuel with
  | O => mstuck
  | S fuel' =>
      n <-- load node;
      let v := if negb (value n =? NGX_RADIX_NO_VALUE) then value n else v in
      find_loop fuel' key (Z.shiftr bit 1) v (if negb (Z.land key bit =? 0) then right n else left n)
  end.

Definition ngx_radix32tree_find (key : Z) : MR Z :=
  rt <-- mget root;
  find_loop (S bit_fuel) key 0x80000000 NGX_RADIX_NO_VALUE rt.

(** The nodes of one level of the preallocation: [key += inc] until it wraps. *)
Fixpoint preallocate_level (fuel : nat) (key mask inc : Z) : MR bool :=
  match fuel with
  | O => mstuck
  | S fuel' =>
      rc <-- ngx_radix32tree_insert key mask NGX_RADIX_NO_VALUE;
      if negb (rc =? NGX_OK) then mret false
      else if u32 (key + inc) =? 0 then mret true
      else preallocate_level fuel' (u32 (key + inc)) mask inc
  end.

(** [fuel] is [2 ^ n] at level [n]. *)
Fixpoint preallocate_loop (preallocate : nat) (fuel : nat) (mask inc : Z) : MR bool :=
  match preallocate with
  | O => mret true
  | S preallocate' =>
      let mask := Z.lor (Z.shiftr mask 1) 0x80000000 in
      ok <-- preallocate_level (2 * fuel) 0 mask inc;
      if negb ok then mret false
      else preallocate_loop preallocate' (2 * fuel) mask (Z.shiftr inc 1)
  end.

(** [sizeof(ngx_radix_tree_t)] *)
Definition sizeof_tree : Z := 40.

(** The default number of levels. *)
Definition preallocate_bits (preallocate : Z) : Z :=
  if preallocate =? -1 then
    let n := ngx_pagesize / sizeof_tree in
    if n =? 128 then 6 else if n =? 256 then 7 else 8
  else preallocate.

(** [tree] is the memory [ngx_palloc] returned for the tree itself; the result
    says whether it is not [NULL]. *)
Definition ngx_radix_tree_create (preallocate : Z) : MR bool :=
  mput (fun t => t <| free := NULL |> <| start := NULL |> <| size_left := 0 |>) ;;
  rt <-- ngx_radix_alloc;
  mput (fun t => t <| root := rt |>) ;;
  if rt =? NULL then mret false
  else
    init_node rt (mk_node NULL NULL NULL NGX_RADIX_NO_VALUE) ;;
    if preallocate =? 0 then mret true
    else preallocate_loop (Z.to_nat (preallocate_bits preallocate)) 1 0 0x80000000.
End operations.

(** 10.0.0.0/8 and 10.1.0.0/16: the longest prefix decides. *)
Example radix_small :
  let s0 := mk_radix 0 0 0 0 0 ∅ in
  let pm i := 4096 * (Z.of_nat i + 1) in
  (fun '(r, _) => r) <$>
    (ngx_radix_tree_create 4096 pm 0 ;;
     ngx_radix32tree_insert 4096 pm 0x0a000000 0xff000000 8 ;;
     ngx_radix32tree_insert 4096 pm 0x0a010000 0xffff0000 16 ;;
     a <-- ngx_radix32tree_find 0x0a010203;
     b <-- ngx_radix32tree_find 0x0a020304;
     ngx_radix32tree_delete 0x0a010000 0xffff0000 ;;
     c <-- ngx_radix32tree_find 0x0a010203;
     d <-- ngx_radix32tree_find 0x0b000000;
     mret (a, b, c, d)) s0
  = Some (16, 8, 8, NGX_RADIX_NO_VALUE).
Proof. vm_compute. reflexivity. Qed.

(** * Trees

    The shape the pointers draw. *)

Inductive rtree :=
  | RNil
  | RNode (x : loc) (v : Z) (l r : rtree).

#[export] Instance rtree_eq_dec : EqDecision rtree.
Proof. solve_decision. Defined.

Definition rptr (t : rtree) : loc := match t with RNil => NULL | RNode x _ _ _ => x end.

Fixpoint addrs (t : rtree) : list loc :=
  match t with RNil => [] | RNode x _ l r => x :: addrs l ++ addrs r end.

Fixpoint rtree_in (h : gmap loc ngx_radix_node_t) (par : loc) (t : rtree) : Prop :=
  match t with
  | RNil => True
  | RNode x v l r =>
      h !! x = Some (mk_node (rptr r) (rptr l) par v) /\ rtree_in h x l /\ rtree_in h x r
  end.

Fixpoint depth (t : rtree) : nat :=
  match t with RNil => 0 | RNode _ _ l r => S (depth l `max` depth r) end.

(** A path is the bits of a prefix, the first one first; [true] goes right. *)
Fixpoint subtree (p : list bool) (t : rtree) : rtree :=
  match p, t with
  | [], _ => t
  | _, RNil => RNil
  | b :: p', RNode _ _ l r => subtree p' (if b then r else l)
  end.

(** The subtree at a path replaced. *)
Fixpoint graft (p : list bool) (u t : rtree) : rtree :=
  match p, t with
  | [], _ => u
  | _, RNil => RNil
  | b :: p', RNode x v l r => if b then RNode x v l (graft p' u r) else RNode x v (graft p' u l) r
  end.

(** What the tree stores: the value of each prefix. *)
Definition stored (t : rtree) (p : list bool) : option Z :=
  match subtree p t with
  | RNil => None
  | RNode _ v _ _ => if v =? NGX_RADIX_NO_VALUE then None else Some v
  end.

(** The value of the longest prefix of a path. *)
Fixpoint longest (f : list bool -> option Z) (p : list bool) : option Z :=
  match p with
  | [] => f []
  | b :: p' => match longest (fun q => f (b :: q)) p' with Some v => Some v | None => f [] end
  end.

Lemma subtree_nil p : subtree p RNil = RNil.
Proof. by destruct p. Qed.

Lemma subtree_app p q t : subtree (p ++ q) t = subtree q (subtree p t).
Proof.
  revert t. induction p as [|b p IH]; intros t; [done|]. destruct t; [by rewrite !subtree_nil|]. apply IH.
Qed.

Lemma subtree_snoc p b t x v l r :
  subtree p t = RNode x v l r -> subtree (p ++ [b]) t = if b then r else l.
Proof. rewrite subtree_app. intros ->. by destruct b. Qed.

Lemma subtree_graft p u t : (p = [] \/ subtree (removelast p) t <> RNil) -> subtree p (graft p u t) = u.
Proof.
  revert t. induction p as [|b p IH]; intros t Ht; [done|]. destruct Ht as [|Ht]; [done|].
  destruct t as [|x v l r]; [by rewrite subtree_nil in Ht|]. cbn [graft].
  destruct p as [|b' p]; [by destruct b|]. cbn [removelast subtree] in Ht.
  destruct b; cbn [subtree]; apply IH; by right.
Qed.

(** The nodes on the way to a change keep their values. *)
Lemma stored_graft p q u t :
  (p = [] \/ subtree (removelast p) t <> RNil) ->
  stored (graft p u t) q =
    if decide (p `prefix_of` q) then stored u (drop (length p) q) else stored t q.
Proof.
  intros Hp. case_decide as Hpq.
  - destruct Hpq as [k ->]. unfold stored. by rewrite drop_app_length, subtree_app, subtree_graft.
  - clear Hp. unfold stored. revert q t Hpq. induction p as [|b p IH]; intros q t Hpq; [destruct Hpq; apply prefix_nil|].
    destruct t as [|x v l r]; [done|]. destruct q as [|b' q]; [by destruct b|]. cbn.
    destruct (decide (b = b')) as [<-|Hne].
    + destruct b; cbn; apply IH; intros H; apply Hpq; by apply prefix_cons.
    + destruct b, b'; done.
Qed.

Lemma longest_ext f g p : (forall q, f q = g q) -> longest f p = longest g p.
Proof.
  revert f g. induction p as [|b p IH]; intros f g E; cbn; [done|].
  by rewrite (IH (fun q => f (b :: q)) (fun q => g (b :: q))), E by done.
Qed.

Lemma longest_none p : longest (fun _ => None) p = None.
Proof. induction p as [|b p IH]; cbn; [done|]. by rewrite IH. Qed.

(** [longest] is a value stored at a prefix, and none is stored at a longer one. *)
Lemma longest_spec f p :
  match longest f p with
  | Some v => exists q, q `prefix_of` p /\ f q = Some v /\
      forall q', q' `prefix_of` p -> (length q < length q')%nat -> f q' = None
  | None => forall q, q `prefix_of` p -> f q = None
  end.
Proof.
  revert f. induction p as [|b p IH]; intros f; cbn.
  { destruct (f []) as [v|] eqn:E.
    - exists []. split_and!; [done|done|]. intros q' ->%prefix_nil_inv. cbn. lia.
    - by intros q ->%prefix_nil_inv. }
  specialize (IH (fun q => f (b :: q))). destruct (longest _ p) as [v|].
  - destruct IH as (q & Hq & E & Hl). exists (b :: q). split_and!; [by apply prefix_cons|done|].
    intros [|b' q'] Hq' Hlen; [cbn in Hlen; lia|].
    destruct Hq' as [k [= -> Ek]]. apply Hl; [by exists k|cbn in Hlen; lia].
  - destruct (f []) as [v|] eqn:E.
    + exists []. split_and!; [apply prefix_nil|done|]. intros [|b' q'] Hq' Hlen; [cbn in Hlen; lia|].
      destruct Hq' as [k [= -> Ek]]. apply IH. by exists k.
    + intros [|b' q'] Hq'; [done|]. destruct Hq' as [k [= -> Ek]]. apply IH. by exists k.
Qed.

(** * Trees in memory *)

Lemma subtree_addrs p t : addrs (subtree p t) ⊆ addrs t.
Proof.
  revert t. induction p as [|b p IH]; intros t; [done|]. destruct t as [|x v l r]; [done|].
  cbn. destruct b; (etrans; [apply IH|]); set_solver.
Qed.

Lemma rtree_in_ext h h' par t :
  (forall z, z ∈ addrs t -> h' !! z = h !! z) -> rtree_in h par t -> rtree_in h' par t.
Proof.
  revert par. induction t as [|x v l IHl r IHr]; intros par He; [done|]. cbn in *.
  intros (Hx & Hl & Hr). rewrite He by set_solver.
  split_and!; [done|apply IHl; [|done]; set_solver|apply IHr; [|done]; set_solver].
Qed.

Lemma rtree_in_subtree h par t p x v l r :
  rtree_in h par t -> subtree p t = RNode x v l r ->
  exists par', h !! x = Some (mk_node (rptr r) (rptr l) par' v) /\ rtree_in h x l /\ rtree_in h x r /\
    (p = [] -> par' = par) /\
    (forall p0 b, p = p0 ++ [b] -> exists v' l' r', subtree p0 t = RNode par' v' l' r').
Proof.
  revert par t. induction p as [|b p IH]; intros par t Ht Es; cbn in Es.
  { subst t. destruct Ht as (Hx & Hl & Hr). exists par. split_and!; try done. intros p0 b0 E. by destruct p0. }
  destruct t as [|y w l0 r0]; [done|]. destruct Ht as (Hy & Hl & Hr).
  destruct (IH y (if b then r0 else l0)) as (par' & Hx & Hxl & Hxr & Hp & Hp0); [by destruct b|done|].
  exists par'. split_and!; [done..|]. intros p0 b0 E.
  destruct p0 as [|b1 p0]; cbn in E; injection E as -> ->.
  - rewrite Hp by done. cbn. eauto.
  - destruct (Hp0 _ _ eq_refl) as (v' & l' & r' & E'). cbn. eauto.
Qed.

Lemma rptr_graft p u t : p <> [] -> rptr (graft p u t) = rptr t.
Proof. destruct p as [|[] p], t; done. Qed.

Lemma graft_nonempty p u t : t <> RNil -> (p <> [] \/ u <> RNil) -> graft p u t <> RNil.
Proof. destruct p as [|[] p], t; naive_solver. Qed.

(** One pointer of a node changed, and what hangs below it. *)
Definition set_child (b : bool) (p : loc) (n : ngx_radix_node_t) : ngx_radix_node_t :=
  if b then n <| right := p |> else n <| left := p |>.

Lemma rtree_in_graft h h' par t p (b : bool) u x v l r :
  rtree_in h par t -> NoDup (addrs t) -> subtree p t = RNode x v l r ->
  (forall z, z ∈ addrs t -> z <> x -> z ∉ addrs (if b then r else l) -> h' !! z = h !! z) ->
  h' !! x = set_child b (rptr u) <$> h !! x -> rtree_in h' x u ->
  rtree_in h' par (graft (p ++ [b]) u t).
Proof.
  revert par t. induction p as [|b' p IH]; intros par t Ht Hnd Es Hext Hx Hu; cbn in Es.
  - subst t. cbn in Ht. destruct Ht as (Hx0 & Hl & Hr). rewrite Hx0 in Hx. cbn in Hx.
    cbn in Hnd, Hext. apply NoDup_cons in Hnd as [Hnx Hnd]. apply NoDup_app in Hnd as (_ & Hlr & _).
    destruct b; cbn; (split_and!; [done| |]); try done;
      (eapply rtree_in_ext; [|done]); intros z Hz; apply Hext; set_solver.
  - destruct t as [|y w l0 r0]; [done|]. destruct Ht as (Hy & Hl & Hr). cbn in Hnd, Hext.
    apply NoDup_cons in Hnd as [Hny Hnd]. apply NoDup_app in Hnd as (Hndl & Hlr & Hndr).
    assert (x ∈ addrs (if b' then r0 else l0)) as Hxin.
    { apply (subtree_addrs p). rewrite Es. cbn. set_solver. }
    assert (addrs (if b then r else l) ⊆ addrs (if b' then r0 else l0)) as Hsub.
    { intros z Hz. apply (subtree_addrs p). rewrite Es. destruct b; cbn; set_solver. }
    assert (h' !! y = h !! y) as Hy'. { apply Hext; [set_solver| |]; destruct b'; set_solver. }
    destruct b'; cbn; rewrite Hy', Hy.
    + rewrite rptr_graft by (by destruct p). split_and!; [done| |].
      * eapply rtree_in_ext; [|done]. intros z Hz. apply Hext; set_solver.
      * apply IH; try done. intros z Hz. apply Hext. set_solver.
    + rewrite rptr_graft by (by destruct p). split_and!; [done| |].
      * apply IH; try done. intros z Hz. apply Hext. set_solver.
      * eapply rtree_in_ext; [|done]. intros z Hz. apply Hext; set_solver.
Qed.

(** The value of a node changed. *)
Lemma rtree_in_value h par t p x v l r w n :
  rtree_in h par t -> NoDup (addrs t) -> subtree p t = RNode x v l r -> h !! x = Some n ->
  rtree_in (<[x := n <| value := w |>]> h) par (graft p (RNode x w l r) t).
Proof.
  revert par t. induction p as [|b p IH]; intros par t Ht Hnd Es Hn; cbn in Es.
  - subst t. cbn in *. destruct Ht as (Hx & Hl & Hr). rewrite lookup_insert_eq.
    replace n with (mk_node (rptr r) (rptr l) par v) by congruence.
    apply NoDup_cons in Hnd as [Hnx _]. split_and!; [done| |];
      (eapply rtree_in_ext; [|done]); intros z Hz; apply lookup_insert_ne; set_solver.
  - destruct t as [|y u l0 r0]; [done|]. destruct Ht as (Hy & Hl & Hr). cbn in Hnd.
    apply NoDup_cons in Hnd as [Hny Hnd]. apply NoDup_app in Hnd as (Hndl & Hlr & Hndr).
    assert (x ∈ addrs (if b then r0 else l0)) as Hxin.
    { apply (subtree_addrs p). rewrite Es. cbn. set_solver. }
    assert (x <> y) by (destruct b; set_solver).
    assert (rptr (graft p (RNode x w l r) (if b then r0 else l0)) = rptr (if b then r0 else l0)) as Ep.
    { destruct p; [cbn in *; by rewrite Es|by apply rptr_graft]. }
    destruct b; cbn; rewrite lookup_insert_ne, Ep by done; (split_and!; [done| |]);
      try (apply IH; done); (eapply rtree_in_ext; [|done]); intros z Hz; apply lookup_insert_ne; set_solver.
Qed.

Lemma addrs_graft p u t :
  (p = [] \/ subtree (removelast p) t <> RNil) ->
  addrs (graft p u t) ++ addrs (subtree p t) ≡ₚ addrs t ++ addrs u.
Proof.
  revert t. induction p as [|b p IH]; intros t Hp; cbn; [apply Permutation_app_comm|].
  destruct Hp as [|Hp]; [done|]. destruct t as [|x v l r]; [by rewrite subtree_nil in Hp|].
  assert (p = [] \/ subtree (removelast p) (if b then r else l) <> RNil) as Hp'.
  { destruct p; [by left|]. right. by cbn in Hp. }
  specialize (IH _ Hp'). destruct b; cbn; apply Permutation_skip.
  - rewrite <- !app_assoc. by apply Permutation_app_head.
  - rewrite <- !app_assoc, (Permutation_app_comm (addrs r)), app_assoc, IH, <- !app_assoc.
    by rewrite (Permutation_app_comm (addrs u)).
Qed.

Lemma depth_graft p u t : (depth (graft p u t) <= depth t `max` (length p + depth u))%nat.
Proof.
  revert t. induction p as [|b p IH]; intros t; cbn; [lia|]. destruct t as [|x v l r]; cbn; [lia|].
  destruct b; cbn; [specialize (IH r)|specialize (IH l)]; lia.
Qed.

Lemma depth_subtree p t : subtree p t <> RNil -> (length p + depth (subtree p t) <= depth t)%nat.
Proof.
  revert t. induction p as [|b p IH]; intros t; [done|]. destruct t as [|x v l r]; [done|].
  cbn. intros H. apply IH in H. destruct b; lia.
Qed.

(** ** Pruning *)

(** The subtree at a path cut off, and with it every node above that is left with neither
    a value nor a child. *)
Fixpoint prune (p : list bool) (t : rtree) : rtree :=
  match p, t with
  | [], _ | _, RNil => RNil
  | b :: p', RNode x v l r =>
      let l' := if b then l else prune p' l in
      let r' := if b then prune p' r else r in
      if bool_decide (v = NGX_RADIX_NO_VALUE /\ l' = RNil /\ r' = RNil) then RNil else RNode x v l' r'
  end.

(** The same for a tree, whose root stays. *)
Definition trim (p : list bool) (t : rtree) : rtree :=
  match p, t with
  | b :: p', RNode x v l r => if b then RNode x v l (prune p' r) else RNode x v (prune p' l) r
  | _, _ => t
  end.

(** What a deletion makes of a tree: a prefix without a node, or with a node that is only
    on the way to others, is an error; a node with others below it loses its value; a leaf
    goes, with the nodes that were only there for it. *)
Definition deleted (p : list bool) (t : rtree) : Z * rtree :=
  match subtree p t with
  | RNil => (NGX_ERROR, t)
  | RNode _ _ RNil RNil => (NGX_OK, trim p t)
  | RNode x v l r => if bool_decide (v = NGX_RADIX_NO_VALUE) then (NGX_ERROR, t) else (NGX_OK, graft p (RNode x NGX_RADIX_NO_VALUE l r) t)
  end.

(** Every leaf below the root has a value. *)
Definition tidy (t : rtree) : Prop := forall q x, q <> [] -> subtree q t <> RNode x NGX_RADIX_NO_VALUE RNil RNil.

(** The node above the cut stays. *)
Lemma prune_keep p (b : bool) t x v l r :
  subtree p t = RNode x v l r -> v <> NGX_RADIX_NO_VALUE \/ (if b then l else r) <> RNil ->
  prune (p ++ [b]) t = graft (p ++ [b]) RNil t /\ prune (p ++ [b]) t <> RNil.
Proof.
  revert t. induction p as [|b' p IH]; intros t E Hk; cbn in E.
  - subst t. destruct b; cbn; (rewrite bool_decide_eq_false_2 by naive_solver); done.
  - destruct t as [|z u tl tr]; [done|]. destruct b'; cbn; destruct (IH _ E Hk) as [<- Hne];
      (rewrite bool_decide_eq_false_2 by naive_solver); done.
Qed.

(** The node above the cut goes too. *)
Lemma prune_up p (b : bool) t x l r :
  subtree p t = RNode x NGX_RADIX_NO_VALUE l r -> (if b then l else r) = RNil ->
  prune (p ++ [b]) t = prune p (graft (p ++ [b]) RNil t).
Proof.
  revert t. induction p as [|b' p IH]; intros t E Hk; cbn in E.
  - subst t. destruct b; subst; cbn; by rewrite bool_decide_eq_true_2.
  - destruct t as [|z u tl tr]; [done|]. by destruct b'; cbn; rewrite (IH _ E Hk).
Qed.

Lemma trim_keep p (b : bool) t x v l r :
  subtree p t = RNode x v l r -> p = [] \/ v <> NGX_RADIX_NO_VALUE \/ (if b then l else r) <> RNil ->
  trim (p ++ [b]) t = graft (p ++ [b]) RNil t.
Proof.
  destruct p as [|b' p]; cbn; intros E Hk; [subst t; by destruct b|]. destruct Hk as [|Hk]; [done|].
  destruct t as [|z u tl tr]; [done|]. by destruct b'; cbn; rewrite (proj1 (prune_keep _ _ _ _ _ _ _ E Hk)).
Qed.

Lemma trim_up p (b : bool) t x l r :
  p <> [] -> subtree p t = RNode x NGX_RADIX_NO_VALUE l r -> (if b then l else r) = RNil ->
  trim (p ++ [b]) t = trim p (graft (p ++ [b]) RNil t).
Proof.
  destruct p as [|b' p]; [done|]. intros _ E Hk. cbn in E. destruct t as [|z u tl tr]; [done|].
  by destruct b'; cbn; rewrite (prune_up _ _ _ _ _ _ E Hk).
Qed.

Lemma prune_tidy p t :
  (forall q x, subtree q t <> RNode x NGX_RADIX_NO_VALUE RNil RNil) -> forall q x, subtree q (prune p t) <> RNode x NGX_RADIX_NO_VALUE RNil RNil.
Proof.
  revert t. induction p as [|b p IH]; intros t Ht q x; [by rewrite subtree_nil|].
  destruct t as [|z u tl tr]; [by rewrite subtree_nil|]. cbn [prune].
  assert (forall q x, subtree q (if b then prune p tr else prune p tl) <> RNode x NGX_RADIX_NO_VALUE RNil RNil) as Hc.
  { destruct b; apply IH; intros q' x'; [apply (Ht (true :: q'))|apply (Ht (false :: q'))]. }
  case_bool_decide as Hb; [by rewrite subtree_nil|]. destruct q as [|b' q]; cbn [subtree]; [naive_solver|].
  destruct b, b'; cbn in Hc |- *; [apply Hc|apply (Ht (false :: q))|apply (Ht (true :: q))|apply Hc].
Qed.

Lemma trim_tidy p t : tidy t -> tidy (trim p t).
Proof.
  intros Ht. destruct p as [|b p]; [by destruct t|]. destruct t as [|z u tl tr]; [done|].
  assert (forall b' q x, subtree q (if b' : bool then tr else tl) <> RNode x NGX_RADIX_NO_VALUE RNil RNil) as Hc by (intros b' q x; by apply (Ht (b' :: q))).
  intros [|b' q] x Hq; [done|]. destruct b, b'; cbn.
  - apply prune_tidy, (Hc true).
  - apply (Hc false).
  - apply (Hc true).
  - apply prune_tidy, (Hc false).
Qed.

Lemma graft_full p t u :
  (forall q x, subtree q t <> RNode x NGX_RADIX_NO_VALUE RNil RNil) -> (forall q x, subtree q u <> RNode x NGX_RADIX_NO_VALUE RNil RNil) ->
  u <> RNil -> subtree p t <> RNil -> forall q x, subtree q (graft p u t) <> RNode x NGX_RADIX_NO_VALUE RNil RNil.
Proof.
  intros Ht Hu Hne. revert t Ht. induction p as [|b p IH]; intros t Ht Hp q x; [apply Hu|]. destruct t as [|z v tl tr]; [by rewrite subtree_nil in Hp|].
  cbn [subtree] in Hp.
  assert (graft p u (if b then tr else tl) <> RNil) as Hc by (apply graft_nonempty; [intros E; by rewrite E, subtree_nil in Hp|by right]).
  assert (forall q x, subtree q (graft p u (if b then tr else tl)) <> RNode x NGX_RADIX_NO_VALUE RNil RNil) as IH'.
  { apply IH; [intros q' x'; apply (Ht (b :: q'))|done]. }
  destruct b, q as [|[] q]; cbn in *; [naive_solver|apply IH'|apply (Ht (false :: q))|naive_solver|apply (Ht (true :: q))|apply IH'].
Qed.

Lemma graft_tidy p t x v l r : subtree p t = RNode x v l r -> (l <> RNil \/ r <> RNil) -> tidy t -> tidy (graft p (RNode x NGX_RADIX_NO_VALUE l r) t).
Proof.
  intros E Hlr Ht.
  assert (forall q y, subtree q (RNode x NGX_RADIX_NO_VALUE l r) <> RNode y NGX_RADIX_NO_VALUE RNil RNil) as Hu.
  { intros [|b q] y; cbn; [naive_solver|]. intros Ey. apply (Ht (p ++ b :: q) y); [by destruct p|]. by rewrite subtree_app, E. }
  destruct p as [|b p]; [intros q y _; apply Hu|]. destruct t as [|z u tl tr]; [done|]. cbn [subtree] in E.
  assert (forall q y, subtree q (graft p (RNode x NGX_RADIX_NO_VALUE l r) (if b then tr else tl)) <> RNode y NGX_RADIX_NO_VALUE RNil RNil) as Hc.
  { apply graft_full; [intros q y; by apply (Ht (b :: q))|done|done|by rewrite E]. }
  intros [|b' q] y Hq; [done|]. destruct b, b'; cbn in *; [apply Hc|by apply (Ht (false :: q))|by apply (Ht (true :: q))|apply Hc].
Qed.

(** * The invariant *)

(** The list of freed nodes. *)
Fixpoint chain (h : gmap loc ngx_radix_node_t) (p : loc) (fl : list loc) : Prop :=
  match fl with
  | [] => p = NULL
  | x :: fl' => p = x /\ exists n, h !! x = Some n /\ chain h (right n) fl'
  end.

Lemma chain_ext h h' p fl :
  (forall z, z ∈ fl -> h' !! z = h !! z) -> chain h p fl -> chain h' p fl.
Proof.
  revert p. induction fl as [|x fl IH]; intros p He; [done|]. cbn. intros (-> & n & Hn & Hc).
  split; [done|]. exists n. rewrite He by set_solver. split; [done|]. apply IH; [|done]. set_solver.
Qed.

(** What is relied on of [ngx_pmemalign]: the pages it returns are aligned, and
    no page is returned twice. *)
Class Pages (ngx_pagesize : Z) (pmemalign : nat -> loc) := {
  page_size : sizeof_node <= ngx_pagesize;
  page_aligned : forall i, 0 <= pmemalign i /\ pmemalign i mod ngx_pagesize = 0;
  page_distinct : forall i j, pmemalign i = pmemalign j -> pmemalign i <> NULL -> i = j;
}.

Section proofs.
Context (ngx_pagesize : Z) (pmemalign : nat -> loc) `{!Pages ngx_pagesize pmemalign}.

Definition in_page (i : nat) (x : loc) : Prop :=
  pmemalign i <> NULL /\ pmemalign i <= x < pmemalign i + ngx_pagesize.

(** A node that has been given out: in one of the pages and not in the part that
    is still to be carved. *)
Definition issued (s : ngx_radix_tree_t) (x : loc) : Prop :=
  (exists i, (i < calls s)%nat /\ in_page i x) /\ ~ (start s <= x < start s + size_left s).

Definition area (s : ngx_radix_tree_t) : Prop :=
  0 <= size_left s /\
  (sizeof_node <= size_left s ->
   exists c, (c < calls s)%nat /\ pmemalign c <> NULL /\ pmemalign c <= start s /\
     start s + size_left s <= pmemalign c + ngx_pagesize).

Record wf (s : ngx_radix_tree_t) (t : rtree) (fl : list loc) : Prop := mk_wf {
  wf_root : root s = rptr t;
  wf_nonempty : t <> RNil;
  wf_tree : rtree_in (nodes s) NULL t;
  wf_free : chain (nodes s) (free s) fl;
  wf_nodup : NoDup (addrs t ++ fl);
  wf_issued : forall x, x ∈ addrs t ++ fl -> issued s x;
  wf_area : area s;
  wf_depth : (depth t <= 33)%nat;
}.

Lemma in_page_unique i j x : in_page i x -> in_page j x -> i = j.
Proof.
  intros [Hi Hxi] [Hj Hxj]. pose proof page_size. change sizeof_node with 32 in *.
  destruct (page_aligned i) as [_ Ai], (page_aligned j) as [_ Aj].
  apply page_distinct; [|done].
  assert (x / ngx_pagesize = pmemalign i / ngx_pagesize) as E1.
  { Z.to_euclidean_division_equations; nia. }
  assert (x / ngx_pagesize = pmemalign j / ngx_pagesize) as E2.
  { Z.to_euclidean_division_equations; nia. }
  Z.to_euclidean_division_equations; nia.
Qed.

Lemma in_page_ge i x : in_page i x -> ngx_pagesize <= x.
Proof.
  intros [Hi Hx]. destruct (page_aligned i) as [? Ha]. unfold NULL in Hi. pose proof page_size.
  change sizeof_node with 32 in *. apply Z.div_exact in Ha; [|lia].
  assert (1 <= pmemalign i / ngx_pagesize) by nia. nia.
Qed.

Lemma issued_pos s x : issued s x -> 0 < x.
Proof.
  intros [(i & _ & Hi%in_page_ge) _]. pose proof page_size. change sizeof_node with 32 in *. lia.
Qed.

#[local] Arguments mthen : simpl never.

Lemma node_update_run s p (f : ngx_radix_node_t -> ngx_radix_node_t) n :
  nodes s !! p = Some n -> update p f s = Some (tt, s <| nodes := <[p := f n]> (nodes s) |>).
Proof. exact (update_run p f n s). Qed.

Lemma node_load_run s p n : nodes s !! p = Some n -> load p s = Some (n, s).
Proof. exact (load_run p n s). Qed.

Lemma rget_run {A} (f : ngx_radix_node_t -> A) s p n :
  nodes s !! p = Some n -> rget f p s = Some (f n, s).
Proof. intros Hn. unfold rget. by erewrite mthen_run by (by apply node_load_run). Qed.

(** * Allocation *)

(** A node allocated: what the tree and the lists are is kept, and the node is in
    none of them. *)
Lemma alloc_run s t fl :
  wf s t fl ->
  exists p s' fl', ngx_radix_alloc ngx_pagesize pmemalign s = Some (p, s') /\ wf s' t fl' /\
    (p <> NULL -> (p ∉ addrs t ++ fl') /\ issued s' p) /\
    (p = NULL -> exists i, pmemalign i = NULL).
Proof.
  intros [Hr Hne Ht Hc Hnd Hi Ha Hd]. pose proof page_size. change sizeof_node with 32 in *.
  unfold ngx_radix_alloc, sizeof_node. destruct s as [rt fr st sz cl h]. cbn in *.
  erewrite mthen_run by reflexivity. cbn.
  destruct fl as [|x fl]; cbn in Hc.
  - subst fr. cbn. erewrite mthen_run by reflexivity. cbn.
    destruct (Z.ltb_spec sz 32) as [Hsz|Hsz].
    + rewrite mthen_assoc. erewrite mthen_run by reflexivity. rewrite mthen_assoc.
      erewrite mthen_run by reflexivity. cbn.
      destruct (Z.eqb_spec (pmemalign cl) NULL) as [En|En].
      { erewrite mthen_run by reflexivity. cbn. rewrite En. eexists NULL, _, []. split; [reflexivity|].
        split; [|by split; [|eauto]]. split; cbn; try done.
        - intros x Hx. destruct (Hi x Hx) as [(i & Hil & Hpi) Hna]. cbn in Hil. split; cbn.
          + exists i. split; [lia|done].
          + apply in_page_ge in Hpi. unfold NULL. lia.
        - destruct Ha as [Ha _]. cbn in Ha. split; [done|]. cbn. change sizeof_node with 32. lia. }
      rewrite mthen_assoc. erewrite mthen_run by reflexivity. erewrite mthen_run by reflexivity.
      cbn. erewrite mthen_run by reflexivity. cbn. erewrite mthen_run by reflexivity.
      erewrite mthen_run by reflexivity. erewrite mthen_run by reflexivity. cbn.
      eexists (pmemalign cl), _, []. split; [reflexivity|]. change sizeof_node with 32. split; [|split; [|done]].
      * split; cbn; try done.
        -- intros x Hx. destruct (Hi x Hx) as [(i & Hil & Hpi) Hna]. cbn in Hil. split; cbn; [exists i; split; [lia|done]|].
           intros Hx2. assert (i = cl); [|lia]. apply (in_page_unique i cl x); [done|]. split; [done|lia].
        -- split; cbn; [lia|]. intros _. exists cl. split_and!; [lia|done|lia|lia].
      * intros _. rewrite app_nil_r in *. split.
        -- intros Hx. destruct (Hi _ Hx) as [(i & Hil & Hpi) _]. cbn in Hil.
           assert (i = cl); [|lia]. apply (in_page_unique i cl (pmemalign cl)); [done|]. split; [done|lia].
        -- split; cbn; [|lia]. exists cl. split; [lia|]. split; [done|lia].
    + erewrite mthen_run by reflexivity. cbn. erewrite mthen_run by reflexivity. cbn.
      erewrite mthen_run by reflexivity. erewrite mthen_run by reflexivity. erewrite mthen_run by reflexivity. cbn.
      destruct Ha as [_ Ha]. destruct Ha as (c & Hcl & Hcn & Hc1 & Hc2); [done|]. change sizeof_node with 32. cbn in *.
      eexists st, _, []. split; [reflexivity|]. split; [|split].
      * split; cbn; try done.
        -- intros x Hx. destruct (Hi x Hx) as [Hpi Hna]. split; cbn in *; [done|lia].
        -- split; cbn; [lia|]. intros _. exists c. split_and!; [done|done|lia|lia].
      * intros _. split.
        -- intros Hx. destruct (Hi _ Hx) as [_ Hna]. cbn in Hna. lia.
        -- split; cbn; [|lia]. exists c. split; [done|]. split; [done|lia].
      * intros ->. destruct (page_aligned c) as [? _]. unfold NULL in *. lia.
  - destruct Hc as (-> & n & Hn & Hc).
    assert (0 < x) as Hx by (eapply issued_pos, Hi; set_solver).
    rewrite (proj2 (Z.eqb_neq x NULL)) by (unfold NULL; lia). cbn [negb].
    unfold rget. rewrite mthen_assoc. erewrite mthen_run by (by apply load_run).
    erewrite mthen_run by reflexivity. erewrite mthen_run by reflexivity. cbn.
    eexists x, _, fl. split; [reflexivity|].
    assert ((x ∉ addrs t ++ fl) /\ NoDup (addrs t ++ fl)) as [Hnot Hnd'].
    { rewrite <- Permutation_middle in Hnd. by apply NoDup_cons in Hnd. }
    split; [split; cbn; try done; intros y Hy; apply (Hi y); set_solver|].
    split; [|unfold NULL; lia]. intros _. split; [done|]. apply (Hi x). set_solver.
Qed.

(** * Changes of the tree *)

Lemma wf_tree_nodup s t fl : wf s t fl -> NoDup (addrs t).
Proof. intros Hw. by apply wf_nodup, NoDup_app in Hw as (? & _). Qed.

Lemma wf_node s t fl p x v l r :
  wf s t fl -> subtree p t = RNode x v l r ->
  exists par, nodes s !! x = Some (mk_node (rptr r) (rptr l) par v) /\
    (p = [] -> par = NULL) /\
    forall p0 b, p = p0 ++ [b] -> exists v' l' r', subtree p0 t = RNode par v' l' r'.
Proof.
  intros Hw E. destruct (rtree_in_subtree _ _ _ _ _ _ _ _ (wf_tree _ _ _ Hw) E) as (par & Hx & _ & _ & H1 & H2).
  by exists par.
Qed.

Lemma wf_addr_pos s t fl p x v l r : wf s t fl -> subtree p t = RNode x v l r -> (x =? NULL) = false.
Proof.
  intros Hw E. apply Z.eqb_neq. unfold NULL. assert (0 < x); [|lia].
  eapply issued_pos, (wf_issued _ _ _ Hw). apply elem_of_app. left. apply (subtree_addrs p).
  rewrite E. cbn. set_solver.
Qed.

Lemma rptr_null s t fl p : wf s t fl -> (rptr (subtree p t) =? NULL) = bool_decide (subtree p t = RNil).
Proof.
  intros Hw. destruct (subtree p t) as [|x v l r] eqn:E; [done|]. cbn.
  rewrite bool_decide_eq_false_2 by done. by eapply wf_addr_pos.
Qed.

(** The value of a node set. *)
Lemma wf_value s t fl p x v l r w :
  wf s t fl -> subtree p t = RNode x v l r ->
  exists s', update x (fun n => n <| value := w |>) s = Some (tt, s') /\
    wf s' (graft p (RNode x w l r) t) fl.
Proof.
  intros Hw E. pose proof (wf_tree_nodup _ _ _ Hw) as Hnd.
  destruct (wf_node _ _ _ _ _ _ _ _ Hw E) as (par & Hx & _).
  rewrite (node_update_run _ _ _ _ Hx). eexists. split; [reflexivity|]. cbn.
  destruct Hw as [Hr Hne Ht Hc Hn Hi Ha Hd].
  assert (addrs (graft p (RNode x w l r) t) ≡ₚ addrs t) as Hp.
  { apply (Permutation_app_inv_r (addrs (RNode x v l r))). rewrite <- E at 1. rewrite addrs_graft; [done|].
    destruct p as [|b p]; [by left|right]. intros E2.
    rewrite (app_removelast_last b) in E by done. rewrite subtree_app, E2, subtree_nil in E. done. }
  assert (x ∈ addrs t) as Hxin. { apply (subtree_addrs p). rewrite E. cbn. set_solver. }
  split; cbn; try done.
  - rewrite Hr. destruct p; [cbn in *; by rewrite E|by rewrite rptr_graft].
  - apply graft_nonempty; [done|by right].
  - by apply (rtree_in_value (nodes s) NULL t p x v l r w).
  - eapply chain_ext; [|done]. intros z Hz. apply lookup_insert_ne. intros ->.
    apply NoDup_app in Hn as (_ & Hn & _). by apply (Hn z).
  - by rewrite Hp.
  - intros z. rewrite Hp. apply Hi.
  - pose proof (depth_graft p (RNode x w l r) t). pose proof (depth_subtree p t) as H2.
    rewrite E in H2. specialize (H2 ltac:(done)). cbn in *. lia.
Qed.

(** A path whose last step leaves a node. *)
Lemma step_valid p b t x v l r :
  subtree p t = RNode x v l r -> p ++ [b] = [] \/ subtree (removelast (p ++ [b])) t <> RNil.
Proof. intros E. right. by rewrite removelast_last, E. Qed.

(** A new node hung below a node. *)
Lemma wf_grow s t fl p (b : bool) x v l r y :
  wf s t fl -> subtree p t = RNode x v l r -> (if b then r else l) = RNil ->
  y ∉ addrs t ++ fl -> issued s y -> (length p < 32)%nat ->
  exists s', (init_node y (mk_node NULL NULL x NGX_RADIX_NO_VALUE) ;;
      if b then update x (fun n => n <| right := y |>) else update x (fun n => n <| left := y |>)) s
      = Some (tt, s') /\
    wf s' (graft (p ++ [b]) (RNode y NGX_RADIX_NO_VALUE RNil RNil) t) fl.
Proof.
  intros Hw E Eb Hy Hiy Hp. destruct (wf_node _ _ _ _ _ _ _ _ Hw E) as (par & Hx & _).
  pose proof (wf_tree_nodup _ _ _ Hw) as Hndt. destruct Hw as [Hr Hne Ht Hc Hn Hi Ha Hd].
  assert (x ∈ addrs t) as Hxin. { apply (subtree_addrs p). rewrite E. cbn. set_solver. }
  assert (x <> y) as Hxy by set_solver.
  set (n := mk_node (rptr r) (rptr l) par v) in *.
  set (h' := <[x := set_child b y n]> (<[y := mk_node NULL NULL x NGX_RADIX_NO_VALUE]> (nodes s))).
  exists (s <| nodes := h' |>). split.
  { unfold init_node. erewrite mthen_run by reflexivity.
    destruct b; (erewrite node_update_run; [reflexivity|]); cbn; by rewrite lookup_insert_ne. }
  assert (addrs (graft (p ++ [b]) (RNode y NGX_RADIX_NO_VALUE RNil RNil) t) ≡ₚ y :: addrs t) as Hperm.
  { pose proof (addrs_graft (p ++ [b]) (RNode y NGX_RADIX_NO_VALUE RNil RNil) t (step_valid _ _ _ _ _ _ _ E)) as H.
    rewrite (subtree_snoc _ _ _ _ _ _ _ E), Eb in H. cbn in H. rewrite app_nil_r in H.
    by rewrite H, Permutation_app_comm. }
  split; cbn; try done.
  - rewrite rptr_graft by (by destruct p). done.
  - apply graft_nonempty; [done|left; by destruct p].
  - apply (rtree_in_graft (nodes s) h' NULL t p b _ x v l r); try done.
    + intros z Hz Hzx _. unfold h'. rewrite !lookup_insert_ne; [done|set_solver|done].
    + unfold h'. by rewrite lookup_insert_eq, Hx.
    + unfold h'. cbn. rewrite lookup_insert_ne, lookup_insert_eq by done. done.
  - apply (chain_ext (nodes s)); [|done]. intros z Hz. unfold h'.
    apply NoDup_app in Hn as (_ & Hn & _). rewrite !lookup_insert_ne; set_solver.
  - rewrite Hperm. cbn. by constructor.
  - intros z. rewrite Hperm. cbn. intros [->|Hz]%elem_of_cons; [done|by apply Hi].
  - pose proof (depth_graft (p ++ [b]) (RNode y NGX_RADIX_NO_VALUE RNil RNil) t).
    rewrite length_app in H. cbn in *. lia.
Qed.

(** A leaf taken out and freed. *)
Lemma wf_prune s t fl p (b : bool) x v l r y w ny :
  wf s t fl -> subtree p t = RNode x v l r -> (if b then r else l) = RNode y w RNil RNil ->
  nodes s !! y = Some ny ->
  wf (s <| nodes := <[y := ny <| right := free s |>]> (alter (set_child b NULL) x (nodes s)) |>
        <| free := y |>) (graft (p ++ [b]) RNil t) (y :: fl).
Proof.
  intros Hw E Eb Hny. destruct (wf_node _ _ _ _ _ _ _ _ Hw E) as (par & Hx & _).
  pose proof (wf_tree_nodup _ _ _ Hw) as Hndt. destruct Hw as [Hr Hne Ht Hc Hn Hi Ha Hd].
  pose proof (addrs_graft (p ++ [b]) RNil t (step_valid _ _ _ _ _ _ _ E)) as Hperm.
  rewrite (subtree_snoc _ _ _ _ _ _ _ E), Eb in Hperm. cbn in Hperm. rewrite app_nil_r in Hperm.
  assert (addrs t ++ fl ≡ₚ addrs (graft (p ++ [b]) RNil t) ++ y :: fl) as Hperm2.
  { rewrite <- Hperm. by rewrite <- app_assoc. }
  assert (x ∈ addrs (graft (p ++ [b]) RNil t)) as Hxin.
  { clear -E. revert t E. induction p as [|b' p IH]; intros t E; cbn in *; subst; [destruct b; cbn; set_solver|].
    destruct t as [|z u tl tr]; [done|]. apply IH in E. destruct b'; cbn; set_solver. }
  pose proof Hndt as Hndt0. rewrite <- Hperm in Hndt. apply NoDup_app in Hndt as (_ & Hndt & _).
  assert (x <> y) as Hxy by set_solver.
  split; cbn; try done.
  - rewrite rptr_graft by (by destruct p). done.
  - apply graft_nonempty; [done|left; by destruct p].
  - apply (rtree_in_graft (nodes s) _ NULL t p b _ x v l r); try done.
    + intros z Hz Hzx Hzy. rewrite Eb in Hzy. cbn in Hzy.
      rewrite lookup_insert_ne, lookup_alter_ne by set_solver. done.
    + rewrite lookup_insert_ne, lookup_alter_eq by done. done.
  - split; [done|]. eexists. rewrite lookup_insert_eq. split; [done|]. cbn.
    apply (chain_ext (nodes s)); [|done]. intros z Hz. rewrite Hperm2 in Hn.
    apply NoDup_app in Hn as (_ & Hn1 & Hn2). apply NoDup_cons in Hn2 as [Hn2 _].
    rewrite lookup_insert_ne, lookup_alter_ne; set_solver.
  - by rewrite <- Hperm2.
  - intros z Hz. rewrite <- Hperm2 in Hz. by apply Hi.
  - pose proof (depth_graft (p ++ [b]) RNil t). rewrite length_app in H. cbn in *.
    pose proof (depth_subtree p t) as H2. rewrite E in H2. specialize (H2 ltac:(done)). cbn in H2. lia.
Qed.

(** * Bits *)

(** [bit] when [n] bits are left. *)
Definition bit_of (n : nat) : Z := Z.shiftr (2 ^ Z.of_nat n) 1.

(** The bits of the key, down to the first one outside the mask. *)
Fixpoint prefix_bits (n : nat) (key mask : Z) : list bool :=
  match n with
  | O => []
  | S n' => if Z.testbit mask (Z.of_nat n') then Z.testbit key (Z.of_nat n') :: prefix_bits n' key mask else []
  end.

Fixpoint key_bits (n : nat) (key : Z) : list bool :=
  match n with
  | O => []
  | S n' => Z.testbit key (Z.of_nat n') :: key_bits n' key
  end.

Lemma bit_of_S n : bit_of (S n) = 2 ^ Z.of_nat n.
Proof.
  unfold bit_of. rewrite Z.shiftr_div_pow2, Nat2Z.inj_succ, Z.pow_succ_r by lia.
  change (2 ^ 1) with 2. rewrite Z.mul_comm. apply Z.div_mul. lia.
Qed.

Lemma bit_shift n : Z.shiftr (bit_of (S n)) 1 = bit_of n.
Proof. by rewrite bit_of_S. Qed.

Lemma land_bit n m : (Z.land m (bit_of (S n)) =? 0) = negb (Z.testbit m (Z.of_nat n)).
Proof.
  rewrite bit_of_S. destruct (Z.testbit m (Z.of_nat n)) eqn:E; cbn.
  - apply Z.eqb_neq. intros H. apply (f_equal (fun z => Z.testbit z (Z.of_nat n))) in H.
    rewrite Z.land_spec, E, Z.pow2_bits_true, Z.bits_0 in H by lia. done.
  - apply Z.eqb_eq, Z.bits_inj'. intros i Hi. rewrite Z.land_spec, Z.bits_0.
    destruct (decide (i = Z.of_nat n)) as [->|]; [by rewrite E|].
    rewrite Z.pow2_bits_false by lia. apply andb_false_r.
Qed.

Lemma bit_land n m : (Z.land (bit_of (S n)) m =? 0) = negb (Z.testbit m (Z.of_nat n)).
Proof. rewrite Z.land_comm. apply land_bit. Qed.

Lemma prefix_bits_length n key mask : (length (prefix_bits n key mask) <= n)%nat.
Proof. induction n as [|n IH]; cbn; [lia|]. destruct (Z.testbit mask _); cbn; lia. Qed.

(** * What the changes store *)

Lemma stored_here t x v l r p :
  subtree p t = RNode x v l r -> stored t p = if v =? NGX_RADIX_NO_VALUE then None else Some v.
Proof. unfold stored. by intros ->. Qed.

Lemma stored_below t u p k : subtree p t = u -> stored t (p ++ k) = stored u k.
Proof. intros <-. unfold stored. by rewrite subtree_app. Qed.

Lemma stored_value p t x v w l r z :
  subtree p t = RNode x v l r ->
  stored (graft p (RNode x w l r) t) z =
    if decide (z = p) then if w =? NGX_RADIX_NO_VALUE then None else Some w else stored t z.
Proof.
  intros E. rewrite stored_graft.
  - case_decide as Hp; [|by rewrite decide_False by (by intros ->)]. destruct Hp as [k ->].
    rewrite drop_app_length, (stored_below _ _ _ _ E). destruct k as [|b k].
    + by rewrite app_nil_r, decide_True.
    + rewrite decide_False; [done|]. rewrite <- (app_nil_r p) at 2. by intros ?%app_inv_head.
  - destruct p as [|b p]; [by left|right]. intros E2.
    rewrite (app_removelast_last b) in E by done. rewrite subtree_app, E2, subtree_nil in E. done.
Qed.

Lemma stored_grow p (b : bool) t x v l r y z :
  subtree p t = RNode x v l r -> (if b then r else l) = RNil ->
  stored (graft (p ++ [b]) (RNode y NGX_RADIX_NO_VALUE RNil RNil) t) z = stored t z.
Proof.
  intros E Eb. rewrite stored_graft by (by eapply step_valid). case_decide as Hp; [|done].
  destruct Hp as [k ->]. rewrite drop_app_length.
  rewrite (stored_below t RNil); [|by rewrite (subtree_snoc _ _ _ _ _ _ _ E)].
  destruct k as [|b' k]; [done|]. unfold stored. cbn. destruct b'; by rewrite !subtree_nil.
Qed.

Lemma stored_prune p (b : bool) t x v l r y w z :
  subtree p t = RNode x v l r -> (if b then r else l) = RNode y w RNil RNil ->
  stored (graft (p ++ [b]) RNil t) z = if decide (z = p ++ [b]) then None else stored t z.
Proof.
  intros E Eb. rewrite stored_graft by (by eapply step_valid).
  case_decide as Hp; [|by rewrite decide_False by (by intros ->)].
  destruct Hp as [k ->]. rewrite drop_app_length.
  rewrite (stored_below t (RNode y w RNil RNil)); [|by rewrite (subtree_snoc _ _ _ _ _ _ _ E)].
  destruct k as [|b' k]; [by rewrite app_nil_r, decide_True|].
  rewrite decide_False by (rewrite <- (app_nil_r (p ++ [b])) at 2; by intros ?%app_inv_head).
  unfold stored. cbn. by destruct b'; rewrite !subtree_nil.
Qed.

(** * The loops *)

Lemma rget_child s t fl p x v l r (b : bool) :
  wf s t fl -> subtree p t = RNode x v l r ->
  (if b then rget right x else rget left x) s = Some (rptr (subtree (p ++ [b]) t), s).
Proof.
  intros Hw E. destruct (wf_node _ _ _ _ _ _ _ _ Hw E) as (par & Hx & _).
  rewrite (subtree_snoc _ _ _ _ _ _ _ E). destruct b; by rewrite (rget_run _ _ _ _ Hx).
Qed.

Lemma insert_descend_run s t fl fuel n key mask p x v l r :
  wf s t fl -> subtree p t = RNode x v l r -> (n <= fuel)%nat ->
  exists m node next,
    insert_descend fuel key mask (bit_of n) x x s = Some ((bit_of m, node, next), s) /\ (m <= n)%nat /\
    ((next = node /\ exists v l r, subtree (p ++ prefix_bits n key mask) t = RNode node v l r) \/
     (next = NULL /\ exists p' b q v l r,
        prefix_bits m key mask = b :: q /\ p ++ prefix_bits n key mask = p' ++ b :: q /\
        subtree p' t = RNode node v l r /\ (if b : bool then r else l) = RNil)).
Proof.
  intros Hw. revert fuel p x v l r. induction n as [|n IH]; intros fuel p x v l r E Hf.
  { exists 0%nat, x, x. split_and!; [by destruct fuel|lia|]. left. cbn. rewrite app_nil_r. by eauto. }
  destruct fuel as [|fuel]; [lia|]. cbn [insert_descend prefix_bits]. rewrite bit_land, land_bit, negb_involutive.
  destruct (Z.testbit mask (Z.of_nat n)) eqn:Em; cbn [negb].
  - set (b := Z.testbit key (Z.of_nat n)). erewrite mthen_run by (by eapply rget_child).
    rewrite (rptr_null _ _ _ _ Hw). destruct (subtree (p ++ [b]) t) as [|y w yl yr] eqn:Ey.
    + exists (S n), x, NULL. split_and!; [done|lia|]. right. split; [done|].
      exists p, b, (prefix_bits n key mask), v, l, r. cbn [prefix_bits]. rewrite Em.
      split_and!; [done|done|done|]. by rewrite (subtree_snoc _ _ _ _ _ _ _ E) in Ey.
    + rewrite bool_decide_eq_false_2 by done. rewrite bit_shift.
      destruct (IH fuel (p ++ [b]) y w yl yr Ey) as (m & node & next & E1 & Hm & Hcase); [lia|].
      exists m, node, next. split_and!; [exact E1|lia|].
      rewrite <- app_assoc in Hcase. exact Hcase.
  - exists (S n), x, x. split_and!; [done|lia|]. left. rewrite app_nil_r. by eauto.
Qed.

(** The nodes that are missing are made; when there is no memory, some of them. *)
Lemma insert_grow_run s t fl fuel m key mask p x v l r :
  wf s t fl -> subtree p t = RNode x v l r -> (m <= fuel)%nat ->
  (length p + length (prefix_bits m key mask) <= 32)%nat ->
  (forall b q, prefix_bits m key mask = b :: q -> (if b : bool then r else l) = RNil) ->
  exists node s' t' fl',
    insert_grow ngx_pagesize pmemalign fuel key mask (bit_of m) x s = Some (node, s') /\ wf s' t' fl' /\
    (forall z, stored t' z = stored t z) /\
    (node <> NULL -> exists v l r, subtree (p ++ prefix_bits m key mask) t' = RNode node v l r) /\
    (node = NULL -> exists i, pmemalign i = NULL).
Proof.
  revert s t fl fuel p x v l r. induction m as [|m IH]; intros s t fl fuel p x v l r Hw E Hf Hlen Hnil.
  { exists x, s, t, fl. split_and!; [by destruct fuel|done|done| |].
    - intros _. cbn. rewrite app_nil_r. eauto.
    - intros ->. pose proof (wf_addr_pos _ _ _ _ _ _ _ _ Hw E). done. }
  destruct fuel as [|fuel]; [lia|]. cbn [insert_grow prefix_bits] in *. rewrite bit_land, land_bit, negb_involutive.
  destruct (Z.testbit mask (Z.of_nat m)) eqn:Em; cbn [negb].
  - set (b := Z.testbit key (Z.of_nat m)) in *. specialize (Hnil b _ eq_refl). cbn in Hlen.
    destruct (alloc_run s t fl Hw) as (y & s1 & fl1 & E1 & Hw1 & Hy & Hmem). erewrite mthen_run by exact E1.
    destruct (Z.eqb_spec y NULL) as [->|Hne].
    { exists NULL, s1, t, fl1. split_and!; auto; done. }
    destruct (Hy Hne) as [Hfresh Hiss].
    destruct (wf_grow s1 t fl1 p b x v l r y Hw1 E Hnil Hfresh Hiss) as (s2 & E2 & Hw2); [lia|].
    rewrite <- mthen_assoc. erewrite mthen_run by exact E2. rewrite bit_shift.
    destruct (IH s2 _ fl1 fuel (p ++ [b]) y NGX_RADIX_NO_VALUE RNil RNil Hw2) as (node & s' & t' & fl' & E3 & Hw' & Hst & Hn & Hmem').
    + apply subtree_graft. by eapply step_valid.
    + lia.
    + rewrite length_app. cbn. lia.
    + by intros [] ? _.
    + exists node, s', t', fl'. split_and!; [exact E3|done| |by rewrite <- app_assoc in Hn|done].
      intros z. rewrite Hst. by eapply stored_grow.
  - exists x, s, t, fl. split_and!; [done|done|done| |].
    + intros _. rewrite app_nil_r. eauto.
    + intros ->. pose proof (wf_addr_pos _ _ _ _ _ _ _ _ Hw E). done.
Qed.

Lemma delete_descend_run s t fl fuel n key mask p :
  wf s t fl -> (n <= fuel)%nat ->
  delete_descend fuel key mask (bit_of n) (rptr (subtree p t)) s =
    Some (rptr (subtree (p ++ prefix_bits n key mask) t), s).
Proof.
  intros Hw. revert fuel p. induction n as [|n IH]; intros fuel p Hf.
  { cbn. rewrite app_nil_r. destruct fuel; cbn; by rewrite orb_true_r. }
  destruct fuel as [|fuel]; [lia|]. cbn [delete_descend prefix_bits].
  rewrite (rptr_null _ _ _ _ Hw). destruct (subtree p t) as [|x v l r] eqn:E.
  { rewrite bool_decide_eq_true_2 by done. by rewrite subtree_app, E, subtree_nil. }
  rewrite bool_decide_eq_false_2 by done. rewrite bit_land, land_bit, negb_involutive. cbn [orb].
  destruct (Z.testbit mask (Z.of_nat n)); cbn [negb].
  - erewrite mthen_run by (by eapply rget_child). rewrite bit_shift, IH, <- app_assoc by lia. done.
  - by rewrite app_nil_r, E.
Qed.

Lemma subtree_nodup p t : NoDup (addrs t) -> NoDup (addrs (subtree p t)).
Proof.
  revert t. induction p as [|b p IH]; intros t Hnd; [done|]. destruct t as [|x v l r]; [done|].
  cbn in *. apply NoDup_cons in Hnd as [_ (? & _ & ?)%NoDup_app]. apply IH. by destruct b.
Qed.

(** The child pointer of a node that leads to one of its children tells which. *)
Lemma child_side s t fl p (b : bool) x v l r y w yl yr :
  wf s t fl -> subtree p t = RNode x v l r -> (if b then r else l) = RNode y w yl yr ->
  x <> y /\ (rptr r =? y) = b.
Proof.
  intros Hw E Eb. pose proof (subtree_nodup p t (wf_tree_nodup _ _ _ Hw)) as Hnd. rewrite E in Hnd. cbn in Hnd.
  apply NoDup_cons in Hnd as [Hx (_ & Hlr & _)%NoDup_app]. split; [destruct b; subst; set_solver|].
  destruct b; [rewrite Eb; apply Z.eqb_refl|]. apply Z.eqb_neq. intros Er. subst l.
  destruct r as [|z ? ? ?]; cbn in Er; [|subst z; apply (Hlr y); cbn; set_solver].
  assert (subtree (p ++ [false]) t = RNode y w yl yr) as Ey by (by rewrite (subtree_snoc _ _ _ _ _ _ _ E)).
  pose proof (wf_addr_pos _ _ _ _ _ _ _ _ Hw Ey) as Hp. by rewrite <- Er in Hp.
Qed.

Lemma unlink_run s t fl p (b : bool) x v l r y w :
  wf s t fl -> subtree p t = RNode x v l r -> (if b then r else l) = RNode y w RNil RNil ->
  exists s', unlink_node y s = Some (x, s') /\ wf s' (graft (p ++ [b]) RNil t) (y :: fl) /\
    addrs (graft (p ++ [b]) RNil t) ++ y :: fl ≡ₚ addrs t ++ fl.
Proof.
  intros Hw E Eb. destruct (wf_node _ _ _ _ _ _ _ _ Hw E) as (parx & Hx & _).
  assert (subtree (p ++ [b]) t = RNode y w RNil RNil) as Ey by (by rewrite (subtree_snoc _ _ _ _ _ _ _ E)).
  destruct (wf_node _ _ _ _ _ _ _ _ Hw Ey) as (pary & Hy & _ & Hpar).
  destruct (Hpar p b eq_refl) as (v' & l' & r' & Ex). rewrite E in Ex. injection Ex as <- <- <- <-. clear Hpar.
  destruct (child_side _ _ _ _ _ _ _ _ _ _ _ _ _ Hw E Eb) as [Hxy Hb].
  pose proof (wf_prune s t fl p b x v l r y w _ Hw E Eb Hy) as Hw1.
  unfold unlink_node. erewrite mthen_run by (by apply rget_run). cbn [parent].
  erewrite mthen_run by (by apply rget_run). cbn [right]. rewrite Hb.
  set (s1 := s <| nodes := alter (set_child b NULL) x (nodes s) |>).
  assert (alter (set_child b NULL) x (nodes s) =
    <[x := set_child b NULL (mk_node (rptr r) (rptr l) parx v)]> (nodes s)) as Ea.
  { apply map_eq. intros i. destruct (decide (i = x)) as [->|];
      [by rewrite lookup_alter_eq, lookup_insert_eq, Hx|by rewrite lookup_alter_ne, lookup_insert_ne]. }
  rewrite (mthen_run _ _ _ tt s1) by (unfold s1; rewrite Ea; destruct b; by apply node_update_run).
  assert (nodes s1 !! y = Some (mk_node NULL NULL x w)) as Hy1 by (cbn; by rewrite lookup_alter_ne).
  erewrite mthen_run by reflexivity. erewrite mthen_run by (apply node_update_run; exact Hy1).
  erewrite mthen_run by reflexivity. eexists. split; [|split; [exact Hw1|]].
  - erewrite rget_run by (cbn; apply lookup_insert_eq). done.
  - pose proof (addrs_graft (p ++ [b]) RNil t (step_valid _ _ _ _ _ _ _ E)) as Hperm. rewrite Ey in Hperm. cbn in Hperm.
    rewrite app_nil_r in Hperm. by rewrite <- Hperm, <- app_assoc.
Qed.

Lemma delete_prune_run s t fl fuel p (b : bool) x v l r y w :
  wf s t fl -> subtree p t = RNode x v l r -> (if b then r else l) = RNode y w RNil RNil ->
  (length p < fuel)%nat ->
  exists s' fl', delete_prune fuel y s = Some (tt, s') /\ wf s' (trim (p ++ [b]) t) fl' /\
    addrs (trim (p ++ [b]) t) ++ fl' ≡ₚ addrs t ++ fl /\
    forall z, stored (trim (p ++ [b]) t) z = if decide (z = p ++ [b]) then None else stored t z.
Proof.
  revert s t fl p b x v l r y w. induction fuel as [|fuel IH]; intros s t fl p b x v l r y w Hw E Eb Hf; [lia|].
  cbn [delete_prune]. destruct (unlink_run _ _ _ _ _ _ _ _ _ _ _ Hw E Eb) as (s1 & E1 & Hw1 & Hperm1).
  erewrite mthen_run by exact E1. set (t1 := graft (p ++ [b]) RNil t) in *.
  assert (forall z, stored t1 z = if decide (z = p ++ [b]) then None else stored t z) as Hst.
  { intros z. by eapply stored_prune. }
  assert (subtree p t1 = RNode x v (if b then l else RNil) (if b then RNil else r)) as Et1.
  { unfold t1. clear -E. revert t E. induction p as [|b' p IH]; intros t E; cbn in E.
    - subst t. by destruct b.
    - destruct t as [|z u tl tr]; [done|]. destruct b'; cbn; by apply IH. }
  destruct (wf_node _ _ _ _ _ _ _ _ Hw1 Et1) as (parx & Hx & Hroot & Hup).
  erewrite mthen_run by (apply node_load_run; exact Hx). cbn [right left value parent].
  assert (forall b' : bool, (rptr (if b' then if b then RNil else r else if b then l else RNil) =? NULL) = bool_decide ((if b' then if b then RNil else r else if b then l else RNil) = RNil)) as Hnil.
  { intros b'. rewrite <- (subtree_snoc _ _ _ _ _ _ _ Et1). by apply rptr_null with s1 (y :: fl). }
  rewrite (Hnil true), (Hnil false).
  assert (negb (bool_decide ((if b then RNil else r) = RNil)) || negb (bool_decide ((if b then l else RNil) = RNil))
    = negb (bool_decide ((if b then l else r) = RNil))) as ->.
  { destruct b; cbn; [done|]. by rewrite orb_false_r. }
  assert (p = [] \/ v <> NGX_RADIX_NO_VALUE \/ (if b then l else r) <> RNil ->
    exists fl', Some (tt, s1) = Some (tt, s1) /\ wf s1 (trim (p ++ [b]) t) fl' /\ addrs (trim (p ++ [b]) t) ++ fl' ≡ₚ addrs t ++ fl /\
    forall z, stored (trim (p ++ [b]) t) z = if decide (z = p ++ [b]) then None else stored t z) as Hstop.
  { intros Hk. rewrite (trim_keep _ _ _ _ _ _ _ E Hk). by exists (y :: fl). }
  case_bool_decide as Hsib; cbn [negb]; [|exists s1; apply Hstop; auto].
  destruct (Z.eqb_spec v NGX_RADIX_NO_VALUE) as [Ev|]; cbn [negb]; [|exists s1; apply Hstop; auto].
  destruct p as [|b1 p1 _] using rev_ind; [rewrite (Hroot eq_refl); exists s1; apply Hstop; auto|].
  destruct (Hup p1 b1 eq_refl) as (v0 & l0 & r0 & E0).
  rewrite (proj2 (Z.eqb_neq parx NULL)) by (apply Z.eqb_neq; by eapply wf_addr_pos). subst v.
  assert (subtree (p1 ++ [b1]) t1 = RNode x NGX_RADIX_NO_VALUE RNil RNil) as Et2 by (rewrite Et1; by destruct b; subst).
  destruct (IH s1 t1 _ p1 b1 parx v0 l0 r0 x NGX_RADIX_NO_VALUE Hw1 E0) as (s' & fl' & E2 & Hw' & Hperm' & Hst').
  { by rewrite <- (subtree_snoc _ _ _ _ _ _ _ E0). }
  { rewrite length_app in Hf. cbn in Hf. lia. }
  exists s', fl'. rewrite (trim_up (p1 ++ [b1]) b t x l r) by (by destruct p1). fold t1. split_and!; [exact E2|done|by rewrite Hperm'|].
  intros z. rewrite Hst'. case_decide as Hz; [|apply Hst].
  subst z. rewrite <- Hst. symmetry. by rewrite (stored_here _ _ _ _ _ _ Et2).
Qed.

(** * The search *)

Lemma find_loop_run h fuel n key v par u s :
  nodes s = h -> rtree_in h par u -> (forall x, x ∈ addrs u -> x <> NULL) ->
  (depth u <= n + 1)%nat -> (depth u <= fuel)%nat ->
  find_loop fuel key (bit_of n) v (rptr u) s =
    Some (default v (longest (stored u) (key_bits n key)), s).
Proof.
  intros Hs. revert n v par u. induction fuel as [|fuel IH]; intros n v par u Hu Hnn Hdn Hd.
  { destruct u; cbn in Hd; [|lia]. cbn. rewrite (longest_ext _ (fun _ => None)), longest_none; [done|].
    intros q. unfold stored. by rewrite subtree_nil. }
  destruct u as [|x w l r].
  { cbn. rewrite (longest_ext _ (fun _ => None)), longest_none; [done|].
    intros q. unfold stored. by rewrite subtree_nil. }
  cbn [rptr find_loop]. rewrite (proj2 (Z.eqb_neq x NULL)) by (apply Hnn; cbn; set_solver).
  destruct Hu as (Hx & Hl & Hr). subst h. erewrite mthen_run by (apply node_load_run; exact Hx). cbn [value right left].
  assert (stored (RNode x w l r) [] = if w =? NGX_RADIX_NO_VALUE then None else Some w) as Hhere by done.
  cbn [depth] in Hd, Hdn. destruct n as [|n].
  - assert (l = RNil /\ r = RNil) as [-> ->] by (destruct l, r; cbn in Hdn; try lia; done).
    cbn [rptr key_bits longest]. rewrite Hhere. change (bit_of 0) with 0. rewrite Z.land_0_r. cbn [Z.eqb negb].
    destruct fuel; cbn; by destruct (w =? NGX_RADIX_NO_VALUE).
  - rewrite land_bit, negb_involutive, bit_shift. cbn [key_bits longest].
    set (b := Z.testbit key (Z.of_nat n)).
    replace (if b then rptr r else rptr l) with (rptr (if b then r else l)) by (by destruct b).
    rewrite (IH n _ x); [|by destruct b| | |].
    + rewrite Hhere. rewrite (longest_ext _ (fun q => stored (RNode x w l r) (b :: q))) by done.
      destruct (longest _ _); cbn; [done|]. by destruct (w =? NGX_RADIX_NO_VALUE).
    + intros y Hy. apply Hnn. cbn. destruct b; set_solver.
    + destruct b; lia.
    + destruct b; lia.
Qed.

(** * The operations *)

Lemma insert_run s t fl key mask v :
  wf s t fl ->
  let p := prefix_bits 32 key mask in
  exists rc s' t' fl', ngx_radix32tree_insert ngx_pagesize pmemalign key mask v s = Some (rc, s') /\
    wf s' t' fl' /\
    match stored t p with
    | Some _ => rc = NGX_BUSY /\ forall z, stored t' z = stored t z
    | None =>
        rc = NGX_OK /\ (forall z, stored t' z = if decide (z = p)
                                 then if v =? NGX_RADIX_NO_VALUE then None else Some v else stored t z) \/
        rc = NGX_ERROR /\ (forall z, stored t' z = stored t z) /\ exists i, pmemalign i = NULL
    end.
Proof.
  intros Hw. cbn zeta. remember (prefix_bits 32 key mask) as p eqn:Ep. pose proof (wf_nonempty _ _ _ Hw) as Hne. unfold ngx_radix32tree_insert. erewrite mthen_run by reflexivity.
  rewrite (wf_root _ _ _ Hw). assert (exists x0 v0 l0 r0, subtree [] t = RNode x0 v0 l0 r0) as (x0 & v0 & l0 & r0 & E0).
  { destruct t; [done|]. cbn. eauto. }
  replace (rptr t) with x0 by (cbn in E0; by rewrite E0).
  destruct (insert_descend_run s t fl bit_fuel 32 key mask [] _ _ _ _ Hw E0)
    as (m & node & next & E1 & Hm & [(-> & w & l & r & En)|(-> & p' & b & q & w & l & r & Eq & Epq & En & Enil)]); [done| |];
    (erewrite mthen_run by exact E1); cbn [app] in *.
  - rewrite <- Ep in En. rewrite (wf_addr_pos _ _ _ _ _ _ _ _ Hw En). cbn [negb].
    destruct (wf_node _ _ _ _ _ _ _ _ Hw En) as (par & Hx & _).
    erewrite mthen_run by (by apply rget_run). cbn [value]. rewrite (stored_here _ _ _ _ _ _ En).
    destruct (Z.eqb_spec w NGX_RADIX_NO_VALUE) as [->|Hv]; cbn [negb].
    + destruct (wf_value s t fl p node _ l r v Hw En) as (s' & E2 & Hw'). erewrite mthen_run by exact E2.
      eexists NGX_OK, s', _, fl. split_and!; [done|exact Hw'|].
      left. split; [done|]. intros z. by eapply stored_value.
    + exists NGX_BUSY, s, t, fl. split_and!; done.
  - rewrite <- Ep in Epq. change (NULL =? NULL) with true. cbn [negb].
    destruct (insert_grow_run s t fl bit_fuel m key mask p' node w l r Hw En) as (y & s1 & t1 & fl1 & E2 & Hw1 & Hst & Hy & Hmem).
    + done.
    + rewrite Eq. pose proof (prefix_bits_length 32 key mask) as H. rewrite <- Ep, Epq, length_app in H. done.
    + intros b' q' Eb. rewrite Eq in Eb. by injection Eb as <- _.
    + erewrite mthen_run by exact E2.
      assert (stored t p = None) as ->.
      { rewrite Epq, (stored_below _ _ _ _ En). unfold stored. cbn. destruct b; by rewrite Enil, subtree_nil. }
      destruct (Z.eqb_spec y NULL) as [->|Hyn].
      { exists NGX_ERROR, s1, t1, fl1. split_and!; try done. right. split_and!; auto. }
      destruct (Hy Hyn) as (w' & l' & r' & Ey). rewrite Eq, <- Epq in Ey.
      destruct (wf_value s1 t1 fl1 p y w' l' r' v Hw1 Ey) as (s2 & E3 & Hw2). erewrite mthen_run by exact E3.
      eexists NGX_OK, s2, _, fl1. split_and!; [done|exact Hw2|]. left. split; [done|].
      intros z. rewrite (stored_value _ _ _ _ _ _ _ _ Ey). case_decide; [done|]. apply Hst.
Qed.

Lemma delete_run s t fl key mask :
  wf s t fl -> (prefix_bits 32 key mask = [] -> exists x v l r, t = RNode x v l r /\ (l <> RNil \/ r <> RNil)) ->
  let p := prefix_bits 32 key mask in
  exists rc s' t' fl', ngx_radix32tree_delete key mask s = Some (rc, s') /\ wf s' t' fl' /\
    (rc, t') = deleted p t /\ addrs t' ++ fl' ≡ₚ addrs t ++ fl /\ (tidy t -> tidy t') /\
    (rc = NGX_OK /\ (forall z, stored t' z = if decide (z = p) then None else stored t z) \/
     rc = NGX_ERROR /\ stored t p = None /\ t' = t).
Proof.
  intros Hw Hroot. cbn zeta. remember (prefix_bits 32 key mask) as p eqn:Ep. unfold deleted.
  unfold ngx_radix32tree_delete. erewrite mthen_run by reflexivity. rewrite (wf_root _ _ _ Hw).
  pose proof (delete_descend_run s t fl bit_fuel 32 key mask [] Hw) as E1. cbn [app subtree] in E1.
  rewrite <- Ep in E1. erewrite mthen_run by (by apply E1). rewrite (rptr_null _ _ _ _ Hw).
  destruct (subtree p t) as [|x v l r] eqn:E; cbn [rptr].
  { rewrite bool_decide_eq_true_2 by done. exists NGX_ERROR, s, t, fl. split_and!; [done..|]. right.
    split_and!; [done| |done]. unfold stored. by rewrite E. }
  rewrite bool_decide_eq_false_2 by done. destruct (wf_node _ _ _ _ _ _ _ _ Hw E) as (par & Hx & _ & Hup).
  erewrite mthen_run by (apply node_load_run; exact Hx). cbn [right left value].
  assert (forall b : bool, (rptr (if b then r else l) =? NULL) = bool_decide ((if b then r else l) = RNil)) as Hnil.
  { intros b. rewrite <- (subtree_snoc _ _ _ _ _ _ _ E). by apply rptr_null with s fl. }
  rewrite (Hnil true), (Hnil false).
  destruct (decide (l = RNil /\ r = RNil)) as [[-> ->]|Hch].
  - rewrite !bool_decide_eq_true_2 by done. cbn [negb orb]. destruct p as [|b p0 _] using rev_ind.
    { destruct (Hroot eq_refl) as (x' & v' & l' & r' & -> & Hlr). cbn in E. injection E as -> -> -> ->. naive_solver. }
    destruct (Hup p0 b eq_refl) as (v0 & l0 & r0 & E0).
    destruct (delete_prune_run s t fl bit_fuel p0 b par v0 l0 r0 x v Hw E0) as (s' & fl' & E2 & Hw' & Hperm & Hst).
    + by rewrite <- (subtree_snoc _ _ _ _ _ _ _ E0).
    + pose proof (prefix_bits_length 32 key mask) as H. rewrite <- Ep, length_app in H. cbn in H. unfold bit_fuel. lia.
    + erewrite mthen_run by exact E2. exists NGX_OK, s', (trim (p0 ++ [b]) t), fl'. split_and!; [done|done|done|done|apply trim_tidy|by left].
  - assert (negb (bool_decide (r = RNil)) || negb (bool_decide (l = RNil)) = true) as ->.
    { apply orb_true_iff. rewrite !negb_true_iff, !bool_decide_eq_false. destruct r; [right; intros ->; by apply Hch|by left]. }
    assert (forall A (a b : A), match l, r with RNil, RNil => a | _, _ => b end = b) as Hm by (intros; destruct l, r; [by destruct Hch|done..]). rewrite Hm.
    destruct (Z.eqb_spec v NGX_RADIX_NO_VALUE) as [Ev|Ev]; cbn [negb].
    + rewrite bool_decide_eq_true_2 by done. exists NGX_ERROR, s, t, fl. split_and!; [done..|]. right. split_and!; [done| |done].
      rewrite (stored_here _ _ _ _ _ _ E), Ev. done.
    + rewrite bool_decide_eq_false_2 by done. destruct (wf_value s t fl p x v l r NGX_RADIX_NO_VALUE Hw E) as (s' & E2 & Hw').
      erewrite mthen_run by exact E2. eexists NGX_OK, s', _, fl. split_and!; [done|exact Hw'|done| | |].
      * destruct p as [|b0 p _] using rev_ind; [cbn in E; subst t; done|]. apply Permutation_app_tail.
        pose proof (addrs_graft (p ++ [b0]) (RNode x NGX_RADIX_NO_VALUE l r) t) as H. rewrite E in H. cbn in H. eapply Permutation_app_inv_r, H. right.
        rewrite removelast_last. intros En. by rewrite subtree_app, En, subtree_nil in E.
      * apply (graft_tidy _ _ _ _ _ _ E). destruct l; [right; intros ->; by apply Hch|by left].
      * left. split; [done|]. intros z. rewrite (stored_value _ _ _ _ _ _ _ _ E). done.
Qed.

Lemma find_run s t fl key :
  wf s t fl ->
  ngx_radix32tree_find key s = Some (default NGX_RADIX_NO_VALUE (longest (stored t) (key_bits 32 key)), s).
Proof.
  intros Hw. unfold ngx_radix32tree_find. erewrite mthen_run by reflexivity. rewrite (wf_root _ _ _ Hw).
  pose proof (wf_depth _ _ _ Hw). apply (find_loop_run (nodes s) (S bit_fuel) 32 key _ NULL);
    [done|by apply (wf_tree _ _ _ Hw)| |lia|unfold bit_fuel; lia].
  intros x Hx ->. assert (0 < NULL); [|unfold NULL in *; lia].
  eapply issued_pos, (wf_issued _ _ _ Hw). set_solver.
Qed.

(** A level of the preallocation. *)
Lemma preallocate_level_run s t fl n mask i fuel :
  wf s t fl -> (forall z, stored t z = None) -> (n <= 32)%nat -> 0 <= i -> Z.of_nat fuel = 2 ^ Z.of_nat n - i -> (0 < fuel)%nat ->
  exists ok s' t' fl', preallocate_level ngx_pagesize pmemalign fuel (i * 2 ^ (32 - Z.of_nat n)) mask (2 ^ (32 - Z.of_nat n)) s
    = Some (ok, s') /\ wf s' t' fl' /\ (forall z, stored t' z = None).
Proof.
  revert s t fl i. induction fuel as [|fuel IH]; intros s t fl i Hw Hst Hn Hi Hf Hpos; [lia|].
  cbn [preallocate_level].
  destruct (insert_run s t fl (i * 2 ^ (32 - Z.of_nat n)) mask NGX_RADIX_NO_VALUE Hw) as (rc & s1 & t1 & fl1 & E1 & Hw1 & Hc).
  rewrite Hst in Hc. assert (forall z, stored t1 z = None) as Hst1.
  { destruct Hc as [(_ & Hc)|(_ & Hc & _)]; intros z; rewrite Hc; [|done]. case_decide; [done|]. apply Hst. }
  erewrite mthen_run by exact E1. destruct (negb (rc =? NGX_OK)); [by exists false, s1, t1, fl1|].
  assert (2 ^ Z.of_nat n * 2 ^ (32 - Z.of_nat n) = 2 ^ 32) as Hpow by (rewrite <- Z.pow_add_r by lia; f_equal; lia).
  assert (0 < 2 ^ (32 - Z.of_nat n)) by (apply Z.pow_pos_nonneg; lia).
  replace (i * 2 ^ (32 - Z.of_nat n) + 2 ^ (32 - Z.of_nat n)) with ((i + 1) * 2 ^ (32 - Z.of_nat n)) by lia.
  destruct (decide (fuel = 0%nat)) as [->|Hf0].
  - replace (i + 1) with (2 ^ Z.of_nat n) by lia. rewrite Hpow. by exists true, s1, t1, fl1.
  - rewrite wrap_small by nia. rewrite (proj2 (Z.eqb_neq _ 0)) by nia.
    apply (IH s1 t1 fl1 (i + 1)); [done|done|done|lia|lia|lia].
Qed.

Lemma preallocate_loop_run s t fl k n mask :
  wf s t fl -> (forall z, stored t z = None) -> (n + k <= 32)%nat ->
  exists ok s' t' fl', preallocate_loop ngx_pagesize pmemalign k (2 ^ n) mask (2 ^ (31 - Z.of_nat n)) s
    = Some (ok, s') /\ wf s' t' fl' /\ (forall z, stored t' z = None).
Proof.
  revert s t fl n mask. induction k as [|k IH]; intros s t fl n mask Hw Hst Hn; [by exists true, s, t, fl|].
  cbn [preallocate_loop].
  destruct (preallocate_level_run s t fl (S n) (Z.lor (Z.shiftr mask 1) 2147483648) 0 (2 * 2 ^ n) Hw Hst)
    as (ok & s1 & t1 & fl1 & E1 & Hw1 & Hst1); [lia|lia| |pose proof (Nat.pow_nonzero 2 n); lia|].
  { rewrite Z.sub_0_r. change (2 * 2 ^ n)%nat with (2 ^ S n)%nat. by rewrite Nat2Z.inj_pow. }
  replace (32 - Z.of_nat (S n)) with (31 - Z.of_nat n) in E1 by lia.
  erewrite mthen_run by exact E1. destruct ok; cbn [negb]; [|by exists false, s1, t1, fl1].
  change (2 * 2 ^ n)%nat with (2 ^ S n)%nat.
  destruct k as [|k]; [by exists true, s1, t1, fl1|].
  replace (Z.shiftr (2 ^ (31 - Z.of_nat n)) 1) with (2 ^ (31 - Z.of_nat (S n))).
  { apply (IH s1 t1 fl1); [done|done|lia]. }
  rewrite Z.shiftr_div_pow2 by lia. change (2 ^ 1) with 2.
  replace (31 - Z.of_nat n) with (Z.succ (31 - Z.of_nat (S n))) by lia. rewrite Z.pow_succ_r by lia.
  rewrite Z.mul_comm, Z.div_mul by lia. done.
Qed.

Lemma alloc_page_run s :
  free s = NULL -> size_left s < sizeof_node -> pmemalign (calls s) <> NULL ->
  ngx_radix_alloc ngx_pagesize pmemalign s =
    Some (pmemalign (calls s), mk_radix (root s) NULL (pmemalign (calls s) + sizeof_node)
            (ngx_pagesize - sizeof_node) (S (calls s)) (nodes s)).
Proof.
  destruct s as [rt fr st sz cl h]. cbn. intros -> Hsz Hp. unfold ngx_radix_alloc, mthen, mget, mput, mret. cbn.
  rewrite (proj2 (Z.ltb_lt _ _) Hsz). cbn. rewrite (proj2 (Z.eqb_neq _ _) Hp). done.
Qed.

(** A new tree stores nothing; with no memory for the root there is no tree. *)
Lemma create_run preallocate s :
  nodes s = ∅ -> calls s = 0%nat -> 0 <= preallocate_bits ngx_pagesize preallocate <= 32 ->
  pmemalign 0 <> NULL ->
  exists ok s' t fl, ngx_radix_tree_create ngx_pagesize pmemalign preallocate s = Some (ok, s') /\
    wf s' t fl /\ forall z, stored t z = None.
Proof.
  intros Hno Hcalls Hpre Hp. unfold ngx_radix_tree_create. destruct s as [rt fr st sz cl h].
  cbn in Hno, Hcalls. subst h cl. erewrite mthen_run by reflexivity.
  erewrite mthen_run by (by apply alloc_page_run). cbn [calls root nodes set_field set_radix_free set_radix_start set_radix_size].
  erewrite mthen_run by reflexivity. rewrite (proj2 (Z.eqb_neq _ _) Hp).
  unfold init_node. erewrite mthen_run by reflexivity. cbn.
  set (s1 := mk_radix (pmemalign 0) NULL (pmemalign 0 + 32) (ngx_pagesize - 32) 1
    (<[ pmemalign 0 := mk_node NULL NULL NULL NGX_RADIX_NO_VALUE ]> ∅)).
  assert (wf s1 (RNode (pmemalign 0) NGX_RADIX_NO_VALUE RNil RNil) []) as Hw.
  { pose proof page_size. change sizeof_node with 32 in *. split; cbn; try done.
    - by rewrite lookup_insert_eq.
    - apply NoDup_singleton.
    - intros x ->%list_elem_of_singleton. split; cbn; [|lia]. exists 0%nat. split; [lia|]. split; [done|lia].
    - split; cbn; [lia|]. intros _. exists 0%nat. split_and!; [lia|done|lia|lia].
    - lia. }
  assert (forall z, stored (RNode (pmemalign 0) NGX_RADIX_NO_VALUE RNil RNil) z = None) as Hst.
  { intros [|[] z]; unfold stored; cbn; [done|by rewrite subtree_nil..]. }
  destruct (preallocate =? 0); [by eexists true, s1, _, []|].
  destruct (preallocate_loop_run s1 _ [] (Z.to_nat (preallocate_bits ngx_pagesize preallocate)) 0 0 Hw Hst)
    as (ok & s' & t' & fl' & E1 & Hw' & Hst'); [lia|].
  by exists ok, s', t', fl'.
Qed.
End proofs.

(** * Theorems *)

Section theorems.
Context (ngx_pagesize : Z) (pmemalign : nat -> loc) `{!Pages ngx_pagesize pmemalign}.

(** C22: [ngx_radix32tree_find] returns the value stored for the longest prefix of
    the key, or [NGX_RADIX_NO_VALUE] when no prefix of it has a value. *)
Theorem radix_find_longest s t fl key :
  wf ngx_pagesize pmemalign s t fl ->
  exists v, ngx_radix32tree_find key s = Some (v, s) /\
    match longest (stored t) (key_bits 32 key) with
    | Some w => v = w /\ exists q, q `prefix_of` key_bits 32 key /\ stored t q = Some v /\
        forall q', q' `prefix_of` key_bits 32 key -> (length q < length q')%nat -> stored t q' = None
    | None => v = NGX_RADIX_NO_VALUE /\ forall q, q `prefix_of` key_bits 32 key -> stored t q = None
    end.
Proof.
  intros Hw. eexists. split; [by eapply find_run|].
  pose proof (longest_spec (stored t) (key_bits 32 key)) as H. destruct (longest _ _) as [w|]; cbn; by split.
Qed.

(** [ngx_radix32tree_insert] stores the value for the prefix that key and mask
    give and for no other; a prefix that has a value gives [NGX_BUSY], and a
    failing allocation, and nothing else, [NGX_ERROR]: in both cases what is
    stored does not change.  The tree stays well formed on every branch. *)
Theorem radix_insert_correct s t fl key mask v :
  wf ngx_pagesize pmemalign s t fl ->
  exists rc s' t' fl', ngx_radix32tree_insert ngx_pagesize pmemalign key mask v s = Some (rc, s') /\
    wf ngx_pagesize pmemalign s' t' fl' /\
    match stored t (prefix_bits 32 key mask) with
    | Some _ => rc = NGX_BUSY /\ forall z, stored t' z = stored t z
    | None =>
        rc = NGX_OK /\ (forall z, stored t' z = if decide (z = prefix_bits 32 key mask)
                                 then if v =? NGX_RADIX_NO_VALUE then None else Some v else stored t z) \/
        rc = NGX_ERROR /\ (forall z, stored t' z = stored t z) /\ exists i, pmemalign i = NULL
    end.
Proof. by apply insert_run. Qed.

(** C23: [ngx_radix32tree_delete] takes the value of its prefix out and keeps the rest.  The
    result and the tree afterwards are those of [deleted]: a leaf is cut off together with
    every node above it, below the root, that is left with neither a value nor a child;
    a node with others below it only loses its value; [NGX_ERROR] is returned, and the
    tree stays, only when nothing was stored.  The nodes cut off, and no others, are added
    to the list of free nodes, and a tree whose leaves below the root all have values stays
    one.  The root must not be deleted while it is a leaf ([radix_delete_root_leaf]). *)
Theorem radix_delete_correct s t fl key mask :
  wf ngx_pagesize pmemalign s t fl ->
  (prefix_bits 32 key mask = [] -> exists x v l r, t = RNode x v l r /\ (l <> RNil \/ r <> RNil)) ->
  exists rc s' t' fl', ngx_radix32tree_delete key mask s = Some (rc, s') /\
    wf ngx_pagesize pmemalign s' t' fl' /\
    (rc, t') = deleted (prefix_bits 32 key mask) t /\ addrs t' ++ fl' ≡ₚ addrs t ++ fl /\ (tidy t -> tidy t') /\
    (rc = NGX_OK /\ (forall z, stored t' z = if decide (z = prefix_bits 32 key mask) then None else stored t z) \/
     rc = NGX_ERROR /\ stored t (prefix_bits 32 key mask) = None /\ t' = t).
Proof. by apply delete_run. Qed.

(** A tree that is created, with whatever number of levels preallocated, is well
    formed and empty. *)
Theorem radix_create_correct preallocate s :
  nodes s = ∅ -> calls s = 0%nat -> 0 <= preallocate_bits ngx_pagesize preallocate <= 32 ->
  pmemalign 0 <> NULL ->
  exists ok s' t fl, ngx_radix_tree_create ngx_pagesize pmemalign preallocate s = Some (ok, s') /\
    wf ngx_pagesize pmemalign s' t fl /\ forall z, stored t z = None.
Proof. by apply create_run. Qed.
End theorems.

(** Deleting the prefix of length 0 from a tree with nothing below its root reads
    through the null pointer [node->parent]. *)
Lemma radix_delete_root_leaf :
  (ngx_radix_tree_create 4096 (fun i => 4096 * (Z.of_nat i + 1)) 0 ;; ngx_radix32tree_delete 0 0)
    (mk_radix 0 0 0 0 0 ∅) = None.
Proof. vm_compute. reflexivity. Qed.

(** With 4K pages the default is 8 levels: the page is divided by the size of the
    tree's record, not by the size of a node, so none of the cases matches. *)
Lemma preallocate_default_4k : preallocate_bits 4096 (-1) = 8 /\ 4096 / sizeof_node = 128.
Proof. done. Qed.

(** * A sample: pages from 4096 on, and 128.0.0.0/1 *)

Definition sample_pages (i : nat) : loc := 4096 * (Z.of_nat i + 1).

#[export] Instance sample_pages_ok : Pages 4096 sample_pages.
Proof.
  unfold sample_pages. split.
  - done.
  - intros i. split; [lia|]. rewrite Z.mul_comm. by apply Z.mod_mul.
  - intros i j E _. lia.
Qed.

Definition sample_radix : ngx_radix_tree_t := mk_radix 4096 NULL 4160 4032 1
  {[ 4096 := mk_node 4128 0 0 NGX_RADIX_NO_VALUE; 4128 := mk_node 0 0 4096 7 ]}.

Definition sample_rtree : rtree := RNode 4096 NGX_RADIX_NO_VALUE RNil (RNode 4128 7 RNil RNil).

Lemma sample_radix_wf : wf 4096 sample_pages sample_radix sample_rtree [].
Proof.
  assert (forall x, x ∈ [4096; 4128] -> issued 4096 sample_pages sample_radix x) as Hi.
  { intros x Hx. assert (x = 4096 \/ x = 4128) as Hx' by set_solver. split; [|cbn; lia].
    exists 0%nat. split; [cbn; lia|]. split; [done|]. unfold sample_pages. cbn. lia. }
  split; try done.
  - change (NoDup [4096; 4128]). apply NoDup_cons. split; [set_solver|apply NoDup_singleton].
  - split; [done|]. intros _. exists 0%nat. unfold sample_pages, NULL. cbn. lia.
  - cbn. lia.
Qed.

Lemma radix_find_longest_witness :
  exists v, ngx_radix32tree_find 0xc0000001 sample_radix = Some (v, sample_radix) /\ v = 7.
Proof.
  destruct (radix_find_longest 4096 sample_pages sample_radix sample_rtree [] 0xc0000001 sample_radix_wf)
    as (v & E1 & H). exists v. split; [exact E1|]. exact (proj1 H).
Defined.

Lemma radix_insert_correct_witness :
  exists rc s' t' fl', ngx_radix32tree_insert 4096 sample_pages 0x80000000 0x80000000 9 sample_radix = Some (rc, s') /\
    wf 4096 sample_pages s' t' fl' /\ rc = NGX_BUSY /\ forall z, stored t' z = stored sample_rtree z.
Proof.
  exact (radix_insert_correct 4096 sample_pages sample_radix sample_rtree [] 0x80000000 0x80000000 9 sample_radix_wf).
Defined.

Lemma radix_delete_correct_witness :
  exists rc s' t' fl', ngx_radix32tree_delete 0x80000000 0x80000000 sample_radix = Some (rc, s') /\
    wf 4096 sample_pages s' t' fl' /\
    (rc, t') = (NGX_OK, RNode 4096 NGX_RADIX_NO_VALUE RNil RNil) /\ addrs t' ++ fl' ≡ₚ [4096; 4128] /\ (tidy sample_rtree -> tidy t') /\
    (rc = NGX_OK /\ (forall z, stored t' z = if decide (z = [true]) then None else stored sample_rtree z) \/
     rc = NGX_ERROR /\ stored sample_rtree [true] = None /\ t' = sample_rtree).
Proof.
  apply (radix_delete_correct 4096 sample_pages sample_radix sample_rtree [] 0x80000000 0x80000000 sample_radix_wf).
  intros H. discriminate H.
Defined.
