(* ===== verification/NgxShmtx.v ===== *)
(** The shared memory mutex of src/core/ngx_shmtx.c, in its build with atomic
    operations and POSIX semaphores: a lock word that several processes change
    with compare-and-set, and a semaphore on which they wait.

    Bit 31 of the word is set while the mutex is held; the bits below count the
    processes that went to sleep.  A process is at a point of [ngx_shmtx_lock],
    [ngx_shmtx_trylock] or [ngx_shmtx_unlock]; a step of the system is one atomic
    access of one process: a read of the word, a compare-and-set, [sem_wait] or
    [sem_post].  [sem_wait] is taken to fail only with [EINTR], on which the code
    calls it again; [ngx_cpu_pause] and [ngx_sched_yield] have no effect. *)

From S2P Require Import Prelude.
From stdpp Require Import list.

Open Scope Z_scope.

(** [mtx->spin], [mtx->semaphore] and [ngx_ncpu] do not change. *)
Record ngx_shmtx_t := mk_shmtx {
  spin : Z;
  semaphore : bool;
  ngx_ncpu : Z;
}.

(** The word [*mtx->lock] and the value of [mtx->sem]. *)
Record shared := mk_shared {
  lock : Z;
  sem : Z;
}.

(** The points of the functions: what is about to be executed, with the locals
    that are still used. *)
Inductive point :=
  | Outside
  | TryRead                                  (* trylock: val = *mtx->lock *)
  | TryCas (val : Z)
  | LockRead                                 (* lock: the first read of the loop *)
  | LockCas (val : Z)
  | SpinRead (n : Z)                         (* the read of the spin loop *)
  | SpinCas (n val : Z)
  | WaitRead                                 (* the read before going to sleep *)
  | WaitCas (val : Z)
  | SemWait
  | Inside                                   (* the mutex is held *)
  | UnlockRead
  | UnlockCas (old : Z)
  | SemPost.

#[export] Instance point_eq_dec : EqDecision point.
Proof. solve_decision. Defined.

Definition LOCKED : Z := 0x80000000.

Definition bit_clear (val : Z) : bool := Z.land val LOCKED =? 0.

(** [ngx_atomic_cmp_set] *)
Definition cmp_set (s : shared) (old new : Z) : bool * shared :=
  if lock s =? old then (true, mk_shared new (sem s)) else (false, s).

Definition waiters (old : Z) : Z := Z.land old 0x7fffffff.

Section code.
Context (mtx : ngx_shmtx_t).

(** After the spin loop. *)
Definition after_spin : point := if semaphore mtx then WaitRead else LockRead.

(** [for (n = 1; n < mtx->spin; n <<= 1)]: the turn with [n], or the end. *)
Definition spin_at (n : Z) : point := if n <? spin mtx then SpinRead n else after_spin.

(** After the first attempt failed. *)
Definition lock_failed : point := if ngx_ncpu mtx >? 1 then spin_at 1 else after_spin.

(** [(val & 0x80000000) == 0 && ngx_atomic_cmp_set(mtx->lock, val, val | 0x80000000)];
    the test is on the local [val], the compare-and-set is the access. *)
Definition try_set (s : shared) (val : Z) (won lost : point) : shared * point :=
  if bit_clear val then
    let '(ok, s') := cmp_set s val (Z.lor val LOCKED) in
    (s', if ok : bool then won else lost)
  else (s, lost).

(** One step of a process, from its point to the next; [None] when it has to wait
    for the semaphore, or is not in a function. *)
Definition exec (s : shared) (p : point) : option (shared * point) :=
  match p with
  | Outside | Inside => None
  | TryRead => Some (s, TryCas (lock s))
  | TryCas val => Some (try_set s val Inside Outside)
  | LockRead => Some (s, LockCas (lock s))
  | LockCas val => Some (try_set s val Inside lock_failed)
  | SpinRead n => Some (s, SpinCas n (lock s))
  | SpinCas n val => Some (try_set s val Inside (spin_at (u64 (Z.shiftl n 1))))
  | WaitRead => Some (s, WaitCas (lock s))
  | WaitCas val =>
      if negb (bit_clear val) then
        let '(ok, s') := cmp_set s val (val + 1) in
        Some (s', if ok : bool then SemWait else LockRead)
      else Some (s, LockRead)
  | SemWait => if 0 <? sem s then Some (mk_shared (lock s) (sem s - 1), LockRead) else None
  | UnlockRead => Some (s, UnlockCas (lock s))
  | UnlockCas old =>
      let wait := waiters old in
      let val := if wait =? 0 then 0 else wait - 1 in
      let '(ok, s') := cmp_set s old val in
      if (ok : bool) then
        Some (s', if (wait =? 0) || negb (semaphore mtx) then Outside else SemPost)
      else Some (s, UnlockRead)
  | SemPost => Some (mk_shared (lock s) (sem s + 1), Outside)
  end.

(** The calls: from outside [ngx_shmtx_trylock] and [ngx_shmtx_lock], from inside
    [ngx_shmtx_unlock]. *)
Inductive call : point -> point -> Prop :=
  | call_trylock : call Outside TryRead
  | call_lock : call Outside LockRead
  | call_unlock : call Inside UnlockRead.

(** The processes and the shared memory. *)
Record system := mk_system {
  mem : shared;
  procs : list point;
}.

(** Any process takes the next step. *)
Inductive step : system -> system -> Prop :=
  | step_exec s ps i p s' p' :
      ps !! i = Some p -> exec s p = Some (s', p') ->
      step (mk_system s ps) (mk_system s' (<[i := p']> ps))
  | step_call s ps i p p' :
      ps !! i = Some p -> call p p' ->
      step (mk_system s ps) (mk_system s (<[i := p']> ps)).

(** [ngx_shmtx_create] on a zero word, and [n] processes. *)
Definition initial (n : nat) : system := mk_system (mk_shared 0 0) (replicate n Outside).

Inductive reachable (n : nat) : system -> Prop :=
  | reach_initial : reachable n (initial n)
  | reach_step y z : reachable n y -> step y z -> reachable n z.
End code.

(** What [ngx_shmtx_create] sets; [sem_ok] is the result of [sem_init]. *)
Definition ngx_shmtx_create (old_spin ncpu : Z) (sem_ok : bool) : ngx_shmtx_t :=
  if old_spin =? u64 (-1) then mk_shmtx old_spin false ncpu else mk_shmtx 2048 sem_ok ncpu.

(** One process: lock, then unlock, on a single CPU. *)
Example lock_unlock_alone :
  let mtx := ngx_shmtx_create 0 1 true in
  let s0 := mk_shared 0 0 in
  exec mtx s0 LockRead = Some (s0, LockCas 0) /\
  exec mtx s0 (LockCas 0) = Some (mk_shared LOCKED 0, Inside) /\
  exec mtx (mk_shared LOCKED 0) (UnlockCas LOCKED) = Some (s0, Outside).
Proof. done. Qed.

(** * Counting *)

Definition count (P : point -> bool) (ps : list point) : Z :=
  Z.of_nat (length (filter (fun p => P p = true) ps)).

Lemma count_insert P ps i p p' :
  ps !! i = Some p -> count P (<[i := p']> ps) = count P ps - Z.b2z (P p) + Z.b2z (P p').
Proof.
  unfold count. intros Hi. rewrite (insert_take_drop _ _ _ (lookup_lt_Some _ _ _ Hi)).
  pose proof (take_drop_middle ps i p Hi) as E.
  remember (take i ps) as a. remember (drop (S i) ps) as b. rewrite <- E. clear.
  rewrite !filter_app, !length_app, !filter_cons.
  destruct (P p), (P p'); repeat case_decide; cbn; (done || lia).
Qed.

Lemma count_pos P ps : 0 < count P ps <-> exists i p, ps !! i = Some p /\ P p = true.
Proof.
  unfold count. split.
  - intros H. destruct (filter _ ps) as [|p l] eqn:E; [cbn in H; lia|].
    assert (p ∈ filter (fun p => P p = true) ps) as Hp by (rewrite E; set_solver).
    apply list_elem_of_filter in Hp as [Hp [i Hi]%list_elem_of_lookup]. by exists i, p.
  - intros (i & p & Hi & Hp). assert (p ∈ filter (fun p => P p = true) ps) as H.
    { apply list_elem_of_filter. split; [done|]. by eapply list_elem_of_lookup_2. }
    destruct (filter _ ps); [by apply not_elem_of_nil in H|cbn; lia].
Qed.

Lemma count_le P ps : 0 <= count P ps <= Z.of_nat (length ps).
Proof. unfold count. pose proof (length_filter (fun p => P p = true) ps). lia. Qed.

Definition owner (p : point) : bool :=
  match p with Inside | UnlockRead | UnlockCas _ => true | _ => false end.
Definition asleep (p : point) : bool := match p with SemWait => true | _ => false end.
Definition posting (p : point) : bool := match p with SemPost => true | _ => false end.

(** In [ngx_shmtx_lock] and awake. *)
Definition awake (p : point) : bool :=
  match p with
  | LockRead | LockCas _ | SpinRead _ | SpinCas _ _ | WaitRead | WaitCas _ => true
  | _ => false
  end.

(** * The invariant *)

Section invariant.
Context (mtx : ngx_shmtx_t).

Record inv (y : system) : Prop := mk_inv {
  inv_owner : count owner (procs y) <= 1;
  inv_lock : lock (mem y) = LOCKED * count owner (procs y) + waiters (lock (mem y));
  inv_sem : 0 <= sem (mem y);
  inv_waiters :
    count asleep (procs y) = waiters (lock (mem y)) + sem (mem y) + count posting (procs y);
  inv_nosem : semaphore mtx = false -> count asleep (procs y) = 0;
  inv_wake : count owner (procs y) = 0 -> 0 < waiters (lock (mem y)) ->
    0 < sem (mem y) + count posting (procs y) + count awake (procs y);
}.

Lemma waiters_mod z : waiters z = z mod 2 ^ 31.
Proof. unfold waiters. change 0x7fffffff with (Z.ones 31). by rewrite Z.land_ones. Qed.

Lemma waiters_range z : 0 <= waiters z < 2 ^ 31.
Proof. rewrite waiters_mod. apply Z.mod_pos_bound. lia. Qed.

Lemma waiters_small z : 0 <= z < 2 ^ 31 -> waiters z = z.
Proof. intros. rewrite waiters_mod. by apply Z.mod_small. Qed.

Lemma waiters_locked z : 0 <= z < 2 ^ 31 -> waiters (LOCKED + z) = z.
Proof.
  intros. rewrite waiters_mod. change LOCKED with (1 * 2 ^ 31).
  rewrite Z.add_comm, Z.mod_add by lia. by apply Z.mod_small.
Qed.

(** The word of an unlocked mutex, and of a locked one. *)
Lemma bit_clear_word z : 0 <= z < 2 ^ 31 -> bit_clear z = true /\ bit_clear (LOCKED + z) = false.
Proof.
  intros Hz. unfold bit_clear. change LOCKED with (2 ^ 31).
  assert (Z.testbit z 31 = false) as Hb.
  { rewrite Z.testbit_false by lia. by rewrite Z.div_small. }
  split.
  - apply Z.eqb_eq, Z.bits_inj'. intros i Hi. rewrite Z.land_spec, Z.bits_0.
    destruct (decide (i = 31)) as [->|]; [by rewrite Hb|]. rewrite Z.pow2_bits_false by lia. apply andb_false_r.
  - apply Z.eqb_neq. intros H. apply (f_equal (fun x => Z.testbit x 31)) in H.
    rewrite Z.land_spec, Z.pow2_bits_true, Z.bits_0, andb_true_r in H by lia.
    rewrite Z.testbit_false in H by lia.
    replace (2 ^ 31 + z) with (z + 1 * 2 ^ 31) in H by lia. rewrite Z.div_add, Z.div_small in H by lia. done.
Qed.

Lemma lor_locked z : 0 <= z < 2 ^ 31 -> Z.lor z LOCKED = LOCKED + z.
Proof.
  intros Hz. rewrite Z.lor_comm. change LOCKED with (Z.shiftl 1 31). rewrite lor_shiftl_add by lia. done.
Qed.

(** The word tells whether there is an owner. *)
Lemma inv_bit y :
  inv y -> bit_clear (lock (mem y)) = (count owner (procs y) =? 0).
Proof.
  intros Hy. pose proof (inv_lock _ Hy) as Hl. pose proof (inv_owner _ Hy).
  pose proof (count_le owner (procs y)) as [Ho _]. pose proof (waiters_range (lock (mem y))) as Hw.
  destruct (bit_clear_word _ Hw) as [H1 H2]. rewrite Hl.
  assert (count owner (procs y) = 0 \/ count owner (procs y) = 1) as [->| ->] by lia.
  - by rewrite Z.mul_0_r, Z.add_0_l, H1.
  - by rewrite Z.mul_1_r, H2.
Qed.

Lemma inv_word y :
  inv y -> lock (mem y) = if count owner (procs y) =? 0 then waiters (lock (mem y)) else LOCKED + waiters (lock (mem y)).
Proof.
  intros Hy. pose proof (inv_lock _ Hy). pose proof (inv_owner _ Hy).
  pose proof (count_le owner (procs y)). unfold LOCKED in *.
  destruct (Z.eqb_spec (count owner (procs y)) 0); lia.
Qed.

(** The effect of a step on the counts. *)
Ltac counts Hi :=
  rewrite ?(count_insert owner _ _ _ _ Hi), ?(count_insert asleep _ _ _ _ Hi),
    ?(count_insert posting _ _ _ _ Hi), ?(count_insert awake _ _ _ _ Hi).

Lemma spin_at_awake n : awake (spin_at mtx n) = true /\ owner (spin_at mtx n) = false /\
  asleep (spin_at mtx n) = false /\ posting (spin_at mtx n) = false.
Proof. unfold spin_at, after_spin. by destruct (n <? spin mtx), (semaphore mtx). Qed.

Lemma lock_failed_awake : awake (lock_failed mtx) = true /\ owner (lock_failed mtx) = false /\
  asleep (lock_failed mtx) = false /\ posting (lock_failed mtx) = false.
Proof.
  unfold lock_failed. destruct (ngx_ncpu mtx >? 1); [apply spin_at_awake|].
  unfold after_spin. by destruct (semaphore mtx).
Qed.

(** Steps that change the points only between points of the same kind. *)
Lemma inv_same s ps i p p' :
  inv (mk_system s ps) -> ps !! i = Some p -> owner p' = owner p -> asleep p' = asleep p ->
  posting p' = posting p -> (awake p = true -> awake p' = true) -> inv (mk_system s (<[i := p']> ps)).
Proof.
  intros [H1 H2 H3 H4 H5 H6] Hi Eo Ea Ep Hw. cbn in *. split; cbn; counts Hi; rewrite ?Eo, ?Ea, ?Ep; unfold LOCKED in *; try lia.
  - intros ?. specialize (H5 ltac:(done)). lia.
  - intros ? ?. specialize (H6 ltac:(lia) ltac:(done)). destruct (awake p), (awake p'); cbn; naive_solver lia.
Qed.

(** A compare-and-set that takes the mutex. *)
Lemma inv_take s ps i p val (lost : point) s' p' :
  inv (mk_system s ps) -> ps !! i = Some p ->
  owner p = false -> asleep p = false -> posting p = false ->
  owner lost = false -> asleep lost = false -> posting lost = false -> (awake p = true -> awake lost = true) ->
  try_set s val Inside lost = (s', p') -> inv (mk_system s' (<[i := p']> ps)).
Proof.
  intros Hy Hi Ho Ha Hp Ho' Ha' Hp' Hw. unfold try_set, cmp_set.
  destruct (bit_clear val) eqn:Hb; [destruct (Z.eqb_spec (lock s) val) as [El|]|].
  2, 3: intros [= <- <-]; apply (inv_same s ps i p); by rewrite ?Ho, ?Ha, ?Hp.
  intros [= <- <-]. subst val. pose proof (inv_bit _ Hy) as Hbit. pose proof (inv_word _ Hy) as Hword. cbn in Hbit, Hword.
  rewrite Hb in Hbit. symmetry in Hbit. rewrite Hbit in Hword. apply Z.eqb_eq in Hbit.
  pose proof (waiters_range (lock s)) as Hr. rewrite Hword, lor_locked by done.
  destruct Hy as [H1 H2 H3 H4 H5 H6]. cbn in *.
  split; cbn; counts Hi; rewrite ?Ho, ?Ha, ?Hp, ?waiters_locked by done; cbn; unfold LOCKED in *; try lia.
  intros Hs. specialize (H5 Hs). lia.
Qed.

(** Going to sleep: the mutex is held then, and its owner will see the waiter. *)
Lemma inv_wait s ps i val s' p' :
  inv (mk_system s ps) -> ps !! i = Some (WaitCas val) -> (Z.of_nat (length ps) < 2 ^ 31) ->
  semaphore mtx = true ->
  exec mtx s (WaitCas val) = Some (s', p') -> inv (mk_system s' (<[i := p']> ps)).
Proof.
  intros Hy Hi Hn Hsem. cbn [exec]. unfold cmp_set.
  destruct (bit_clear val) eqn:Hb; [|destruct (Z.eqb_spec (lock s) val) as [El|]]; cbn [negb].
  1, 3: intros [= <- <-]; by apply (inv_same s ps i (WaitCas val)).
  intros [= <- <-]. subst val. pose proof (inv_bit _ Hy) as Hbit. pose proof (inv_word _ Hy) as Hword. cbn in Hbit, Hword.
  rewrite Hb in Hbit. symmetry in Hbit. rewrite Hbit in Hword. apply Z.eqb_neq in Hbit.
  pose proof (waiters_range (lock s)) as Hr. pose proof (count_le owner ps). pose proof (count_le posting ps).
  assert (count asleep ps + 1 <= Z.of_nat (length ps)) as Hlt.
  { pose proof (count_insert asleep ps i _ SemWait Hi) as Hc. pose proof (count_le asleep (<[i := SemWait]> ps)) as Hle.
    rewrite length_insert in Hle. cbn in Hc. lia. }
  destruct Hy as [K1 K2 K3 K4 K5 K6]. cbn in *.
  assert (waiters (lock s + 1) = waiters (lock s) + 1) as Hw.
  { rewrite Hword at 1. rewrite <- Z.add_assoc, waiters_locked; lia. }
  split; cbn; counts Hi; rewrite ?Hw; cbn; unfold LOCKED in *; try lia.
  rewrite Hsem. done.
Qed.

(** Waking up. *)
Lemma inv_woken s ps i s' p' :
  inv (mk_system s ps) -> ps !! i = Some SemWait ->
  exec mtx s SemWait = Some (s', p') -> inv (mk_system s' (<[i := p']> ps)).
Proof.
  intros [K1 K2 K3 K4 K5 K6] Hi. cbn [exec]. destruct (Z.ltb_spec 0 (sem s)); [|done]. intros [= <- <-]. cbn in *.
  pose proof (count_le posting ps). pose proof (count_le awake ps).
  split; cbn; counts Hi; cbn; unfold LOCKED in *; try lia. intros Hs. specialize (K5 Hs). pose proof (waiters_range (lock s)). lia.
Qed.

(** Releasing the mutex: when there are waiters, one of them will be woken. *)
Lemma inv_release s ps i old s' p' :
  inv (mk_system s ps) -> ps !! i = Some (UnlockCas old) ->
  exec mtx s (UnlockCas old) = Some (s', p') -> inv (mk_system s' (<[i := p']> ps)).
Proof.
  intros Hy Hi. cbn [exec]. unfold cmp_set. destruct (Z.eqb_spec (lock s) old) as [El|].
  2: { intros [= <- <-]. by apply (inv_same s ps i (UnlockCas old)). }
  subst old. intros [= <- <-]. pose proof (waiters_range (lock s)) as Hr.
  assert (0 < count owner ps) as Hown by (apply count_pos; by exists i, (UnlockCas (lock s))).
  pose proof (count_le posting ps). pose proof (count_le awake ps). pose proof (count_le asleep ps).
  destruct Hy as [K1 K2 K3 K4 K5 K6]. cbn in *. assert (count owner ps = 1) as Ho by lia. unfold LOCKED in *.
  destruct (Z.eqb_spec (waiters (lock s)) 0) as [Ez|Ez]; cbn [orb].
  - change (waiters 0) with 0 in *. split; cbn; counts Hi; cbn; change (waiters 0) with 0; try lia.
    intros Hs. specialize (K5 Hs). lia.
  - destruct (semaphore mtx) eqn:Hsem; cbn [negb]; [|specialize (K5 eq_refl); lia].
    assert (waiters (waiters (lock s) - 1) = waiters (lock s) - 1) as Hw by (apply waiters_small; lia).
    split; cbn; counts Hi; rewrite ?Hw; cbn; try lia. by rewrite Hsem.
Qed.

Lemma inv_post s ps i :
  inv (mk_system s ps) -> ps !! i = Some SemPost -> inv (mk_system (mk_shared (lock s) (sem s + 1)) (<[i := Outside]> ps)).
Proof.
  intros [K1 K2 K3 K4 K5 K6] Hi. cbn in *.
  assert (0 < count posting ps) by (apply count_pos; by exists i, SemPost).
  split; cbn; counts Hi; cbn; unfold LOCKED in *; try lia.
  intros Hs. specialize (K5 Hs). lia.
Qed.

(** Only a mutex with a semaphore is waited for. *)
Definition may_wait (p : point) : bool := match p with WaitRead | WaitCas _ => true | _ => false end.

Lemma spin_at_wait n : may_wait (spin_at mtx n) = true -> semaphore mtx = true.
Proof. unfold spin_at, after_spin. by destruct (n <? spin mtx), (semaphore mtx). Qed.

Lemma lock_failed_wait : may_wait (lock_failed mtx) = true -> semaphore mtx = true.
Proof.
  unfold lock_failed. destruct (ngx_ncpu mtx >? 1); [apply spin_at_wait|].
  unfold after_spin. by destruct (semaphore mtx).
Qed.

Lemma try_set_point s val won lost s' p' :
  try_set s val won lost = (s', p') -> p' = won \/ p' = lost.
Proof.
  unfold try_set, cmp_set. destruct (bit_clear val), (lock s =? val); intros [= <- <-]; auto.
Qed.

Lemma exec_wait s p s' p' :
  exec mtx s p = Some (s', p') -> may_wait p' = true -> may_wait p = true \/ semaphore mtx = true.
Proof.
  destruct p; cbn [exec]; try (by intros [= <- <-]); try (by left).
  - intros [= [-> | ->]%try_set_point]; done.
  - intros [= [-> | ->]%try_set_point]; [done|]. intros. right. by apply lock_failed_wait.
  - intros [= [-> | ->]%try_set_point]; [done|]. intros. right. by eapply spin_at_wait.
  - case_match; [|done]. by intros [= <- <-].
  - unfold cmp_set. destruct (_ =? _); [|by intros [= <- <-]]. intros [= <- <-]. by destruct (_ || _).
Qed.

Definition waits_ok (y : system) : Prop :=
  forall i p, procs y !! i = Some p -> may_wait p = true -> semaphore mtx = true.

Lemma step_inv y z :
  inv y -> waits_ok y -> Z.of_nat (length (procs y)) < 2 ^ 31 -> step mtx y z ->
  inv z /\ waits_ok z /\ length (procs z) = length (procs y).
Proof.
  intros Hy Hok Hn Hstep. destruct Hstep as [s ps i p s' p' Hi E|s ps i p p' Hi Hc]; cbn in *;
    rewrite length_insert; (split; [|split; [|done]]).
  - destruct p; cbn [exec] in E; simplify_eq; try (by apply (inv_same _ _ _ _ _ Hy Hi)).
    + by eapply (inv_take _ _ _ _ val Outside _ _ Hy Hi).
    + destruct lock_failed_awake as (? & ? & ? & ?). by eapply (inv_take _ _ _ _ val (lock_failed mtx) _ _ Hy Hi).
    + destruct (spin_at_awake (u64 (Z.shiftl n 1))) as (? & ? & ? & ?).
      by eapply (inv_take _ _ _ _ val (spin_at mtx (u64 (Z.shiftl n 1))) _ _ Hy Hi).
    + eapply (inv_wait _ _ _ val _ _ Hy Hi Hn); [|exact E]. by eapply Hok.
    + by eapply (inv_woken _ _ _ _ _ Hy Hi).
    + by eapply (inv_release _ _ _ old _ _ Hy Hi).
    + by apply inv_post.
  - intros j q. cbn. intros Hj Hq. apply list_lookup_insert_Some in Hj as [(-> & -> & _)|[_ Hj]]; [|by eapply Hok].
    destruct (exec_wait _ _ _ _ E Hq) as [Hp|]; [|done]. by eapply (Hok j p).
  - destruct Hc; by apply (inv_same _ _ _ _ _ Hy Hi).
  - intros j q. cbn. intros Hj Hq. apply list_lookup_insert_Some in Hj as [(-> & -> & _)|[_ Hj]]; [|by eapply Hok].
    by destruct Hc.
Qed.

Lemma reachable_inv n y :
  Z.of_nat n < 2 ^ 31 -> reachable mtx n y -> inv y /\ waits_ok y /\ length (procs y) = n.
Proof.
  intros Hn. induction 1 as [|y z _ (Hy & Hok & Hlen) Hstep].
  - assert (forall P, P Outside = false -> count P (replicate n Outside) = 0) as Hz.
    { intros P HP. pose proof (count_le P (replicate n Outside)) as [H _].
      destruct (decide (count P (replicate n Outside) = 0)); [done|].
      assert (0 < count P (replicate n Outside)) as (i & p & Hi & Hp)%count_pos by lia.
      apply lookup_replicate in Hi as [-> _]. congruence. }
    split; [split; cbn; rewrite ?Hz by done; done|]. split; [|apply length_replicate].
    intros i p Hi%lookup_replicate Hp. by destruct Hi as [-> _].
  - rewrite <- Hlen in Hn. destruct (step_inv y z Hy Hok Hn Hstep) as (? & ? & ?). by rewrite <- Hlen.
Qed.
End invariant.

(** * Theorems *)

(** C24: mutual exclusion.  However the steps of up to [2 ^ 31 - 1] processes
    interleave, at most one of them is past [ngx_shmtx_lock], or a successful
    [ngx_shmtx_trylock], and not past the compare-and-set of [ngx_shmtx_unlock]. *)
Theorem shmtx_mutual_exclusion mtx n y i j p q :
  reachable mtx n y -> Z.of_nat n < 2 ^ 31 ->
  procs y !! i = Some p -> procs y !! j = Some q -> owner p = true -> owner q = true -> i = j.
Proof.
  intros Hr Hn Hi Hj Hp Hq. destruct (reachable_inv mtx n y Hn Hr) as (Hy & _).
  destruct (decide (i = j)) as [|Hne]; [done|]. pose proof (inv_owner _ _ Hy) as Hle.
  pose proof (count_insert owner (procs y) i p Outside Hi) as Hc. rewrite Hp in Hc. cbn in Hc.
  assert (0 < count owner (<[i := Outside]> (procs y))); [|lia].
  apply count_pos. exists j, q. by rewrite list_lookup_insert_ne.
Qed.

(** C25: no wake-up is lost.  Whenever a process sleeps on the semaphore, some
    process holds the mutex or can take a step: the sleepers are never left alone
    with a free mutex and nobody to wake them. *)
Theorem shmtx_no_lost_wakeup mtx n y i :
  reachable mtx n y -> Z.of_nat n < 2 ^ 31 -> procs y !! i = Some SemWait ->
  exists j p, procs y !! j = Some p /\ (p = Inside \/ is_Some (exec mtx (mem y) p)).
Proof.
  intros Hr Hn Hi. destruct (reachable_inv mtx n y Hn Hr) as ([K1 K2 K3 K4 K5 K6] & _).
  assert (0 < count asleep (procs y)) as Ha by (apply count_pos; by exists i, SemWait).
  pose proof (count_le owner (procs y)) as Ho. pose proof (waiters_range (lock (mem y))).
  assert (0 < count owner (procs y) \/ 0 < sem (mem y) \/ 0 < count posting (procs y) \/ 0 < count awake (procs y))
    as [(j & p & Hj & Hp)%count_pos|[Hs|[(j & p & Hj & Hp)%count_pos|(j & p & Hj & Hp)%count_pos]]].
  - destruct (decide (0 < count owner (procs y))); [by left|right].
    pose proof (count_le posting (procs y)). pose proof (count_le awake (procs y)).
    destruct (decide (0 < waiters (lock (mem y)))) as [Hw|]; [|lia]. specialize (K6 ltac:(lia) Hw). lia.
  - exists j, p. split; [done|]. destruct p; try done; [by left|right..]; cbn; [done|].
    unfold cmp_set. by destruct (_ =? _).
  - exists i, SemWait. split; [done|]. right. cbn. rewrite (proj2 (Z.ltb_lt _ _) Hs). done.
  - exists j, p. split; [done|]. by destruct p; try done; right.
  - exists j, p. split; [done|]. right. destruct p; try done; cbn; unfold cmp_set; repeat case_match; done.
Qed.

(** * A sample: the first process holds the mutex, the second sleeps *)

Definition sample_mtx : ngx_shmtx_t := ngx_shmtx_create 0 1 true.

Definition sample_system : system := mk_system (mk_shared (LOCKED + 1) 0) [Inside; SemWait].

Lemma sample_reachable : reachable sample_mtx 2 sample_system.
Proof.
  assert (forall s ps i p s' p' ps', reachable sample_mtx 2 (mk_system s ps) -> ps !! i = Some p ->
    exec sample_mtx s p = Some (s', p') -> ps' = <[i := p']> ps -> reachable sample_mtx 2 (mk_system s' ps')) as run.
  { intros s ps i p s' p' ps' Hr Hi E ->. eapply reach_step; [exact Hr|]. by eapply step_exec. }
  assert (forall s ps i p p' ps', reachable sample_mtx 2 (mk_system s ps) -> ps !! i = Some p ->
    call p p' -> ps' = <[i := p']> ps -> reachable sample_mtx 2 (mk_system s ps')) as enter.
  { intros s ps i p p' ps' Hr Hi Hc ->. eapply reach_step; [exact Hr|]. by eapply step_call. }
  pose proof (reach_initial sample_mtx 2) as R. unfold initial in R.
  eapply (enter _ _ 0%nat Outside LockRead [LockRead; Outside]) in R; [|reflexivity|constructor|reflexivity].
  eapply (enter _ _ 1%nat Outside LockRead [LockRead; LockRead]) in R; [|reflexivity|constructor|reflexivity].
  eapply (run _ _ 0%nat _ _ _ [LockCas 0; LockRead]) in R; [|reflexivity..].
  eapply (run _ _ 0%nat _ _ _ [Inside; LockRead]) in R; [|reflexivity..].
  eapply (run _ _ 1%nat _ _ _ [Inside; LockCas LOCKED]) in R; [|reflexivity..].
  eapply (run _ _ 1%nat _ _ _ [Inside; WaitRead]) in R; [|reflexivity..].
  eapply (run _ _ 1%nat _ _ _ [Inside; WaitCas LOCKED]) in R; [|reflexivity..].
  eapply (run _ _ 1%nat _ _ _ [Inside; SemWait]) in R; [|reflexivity..]. exact R.
Qed.

Lemma shmtx_mutual_exclusion_witness : procs sample_system !! 0%nat = Some Inside /\ 0%nat = 0%nat.
Proof.
  split; [reflexivity|].
  exact (shmtx_mutual_exclusion sample_mtx 2 sample_system 0 0 Inside Inside sample_reachable
    eq_refl eq_refl eq_refl eq_refl eq_refl).
Defined.

Lemma shmtx_no_lost_wakeup_witness :
  exists j p, procs sample_system !! j = Some p /\ (p = Inside \/ is_Some (exec sample_mtx (mem sample_system) p)).
Proof.
  exact (shmtx_no_lost_wakeup sample_mtx 2 sample_system 1 sample_reachable eq_refl eq_refl).
Defined.
