(* ===== verification/NgxParse.v ===== *)
(** The readers of sizes and times of src/core/ngx_parse.c, which the
    configuration directives use: "16k", "1g", "1h 30m", "500ms".

    A line is the list of its bytes; [after] is the byte that follows it in
    memory, which [ngx_parse_time] can look at. *)

From S2P Require Import Prelude NgxNumber.

Open Scope Z_scope.

(** * Sizes *)

(** The unit and its scale, if the last byte is one. *)
Definition size_unit (unit : Z) : option Z :=
  if (unit =? "K"%cc) || (unit =? "k"%cc) then Some 1024
  else if (unit =? "M"%cc) || (unit =? "m"%cc) then Some (1024 * 1024)
  else None.

Definition offset_unit (unit : Z) : option Z :=
  if (unit =? "G"%cc) || (unit =? "g"%cc) then Some (1024 * 1024 * 1024) else size_unit unit.

(** The common shape: the last byte is looked at, the rest is read and scaled.  An
    empty line has no last byte. *)
Definition parse_scaled (unit_of : Z -> option Z) (ato : list Z -> Z) (line : list Z) : option Z :=
  match last line with
  | None => None
  | Some unit =>
      let '(digits, scale) := match unit_of unit with
                              | Some scale => (removelast line, scale)
                              | None => (line, 1)
                              end in
      let size := ato digits in
      Some (if size =? NGX_ERROR then NGX_ERROR else i64 (size * scale))
  end.

Definition ngx_parse_size (line : list Z) : option Z := parse_scaled size_unit ngx_atosz line.

Definition ngx_parse_offset (line : list Z) : option Z := parse_scaled offset_unit ngx_atoof line.

(** * Times *)

Definition NGX_MAX_INT32_VALUE : Z := 0x7fffffff.

(** The [enum] of the steps is kept as its numbers. *)
Definition st_start : Z := 0.
Definition st_year : Z := 1.
Definition st_month : Z := 2.
Definition st_week : Z := 3.
Definition st_day : Z := 4.
Definition st_hour : Z := 5.
Definition st_min : Z := 6.
Definition st_sec : Z := 7.
Definition st_msec : Z := 8.
Definition st_last : Z := 9.

(** The [switch] on a unit: the new [step], [max] and [scale], and whether the
    byte after it, [next], is part of the unit.  [None] is [NGX_ERROR]. *)
Definition time_unit (is_sec : bool) (step c next : Z) : option (Z * Z * Z * bool) :=
  let unit (limit : bool) step' seconds :=
    if limit then None else Some (step', NGX_MAX_INT32_VALUE / seconds, seconds, false) in
  if c =? "y"%cc then unit (step >? st_start) st_year (60 * 60 * 24 * 365)
  else if c =? "M"%cc then unit (step >=? st_month) st_month (60 * 60 * 24 * 30)
  else if c =? "w"%cc then unit (step >=? st_week) st_week (60 * 60 * 24 * 7)
  else if c =? "d"%cc then unit (step >=? st_day) st_day (60 * 60 * 24)
  else if c =? "h"%cc then unit (step >=? st_hour) st_hour (60 * 60)
  else if c =? "m"%cc then
    if next =? "s"%cc then
      if is_sec || (step >=? st_msec) then None else Some (st_msec, NGX_MAX_INT32_VALUE, 1, true)
    else unit (step >=? st_min) st_min 60
  else if c =? "s"%cc then unit (step >=? st_sec) st_sec 1
  else if c =? " "%cc then unit (step >=? st_sec) st_last 1
  else None.

(** [while (p < last && *p == ' ') p++;] *)
Fixpoint skip_blanks (line : list Z) : list Z :=
  match line with
  | c :: line' => if c =? " "%cc then skip_blanks line' else line
  | [] => []
  end.

(** The body of the loop on a byte that is not a digit, with [value] before it:
    the new [total] and [step], and the rest of the line.  With [ms] the second
    byte of the unit may be [after], the one past the line. *)
Definition unit_turn (is_sec : bool) (after value total step c : Z) (line : list Z)
  : option (Z * Z * list Z) :=
  match time_unit is_sec step c (default after (head line)) with
  | None => None
  | Some (step', max, scale, two) =>
      let line := if two : bool then tail line else line in
      let milli := negb (step' =? st_msec) && negb is_sec in
      let scale := if milli then scale * 1000 else scale in
      let max := if milli then max / 1000 else max in
      if u64 value >? max then None
      else
        let total := i64 (total + i64 (value * scale)) in
        if u64 total >? NGX_MAX_INT32_VALUE then None
        else Some (total, step', skip_blanks line)
  end.

Fixpoint time_loop (fuel : nat) (is_sec : bool) (after value total step : Z) (valid : bool) (line : list Z) : Z :=
  match line with
  | [] => if valid then i64 (total + i64 (value * (if is_sec then 1 else 1000))) else NGX_ERROR
  | c :: line' =>
      match fuel with
      | O => NGX_ERROR
      | S fuel' =>
          if is_digit c then
            time_loop fuel' is_sec after (i64 (i64 (value * 10) + (c - "0"%cc))) total step true line'
          else match unit_turn is_sec after value total step c line' with
               | None => NGX_ERROR
               | Some (total, step, line'') => time_loop fuel' is_sec after 0 total step valid line''
               end
      end
  end.

(** Every turn takes a byte. *)
Definition ngx_parse_time (line : list Z) (after : Z) (is_sec : bool) : Z :=
  time_loop (length line) is_sec after 0 0 (if is_sec then st_start else st_month) false line.

Example parse_time_small :
  ngx_parse_size (cstr "16k") = Some 16384 /\ ngx_parse_offset (cstr "1g") = Some (2 ^ 30) /\
  ngx_parse_time (cstr "1h 30m") 0 true = 5400 /\ ngx_parse_time (cstr "1m30s500ms") 0 false = 90500 /\
  ngx_parse_time (cstr "30m 1h") 0 true = NGX_ERROR /\ ngx_parse_time (cstr "5") 0 false = 5000.
Proof. vm_compute. done. Qed.

(** * Sizes are read and scaled *)

(** What a line says: digits, and a unit or none. *)
Definition scaled_text (unit_of : Z -> option Z) (digits : list Z) (unit : option Z) (scale : Z) : Prop :=
  digits <> [] /\ forallb is_digit digits = true /\
  match unit with Some u => unit_of u = Some scale | None => scale = 1 end.

Lemma unit_not_digit c : is_digit c = true -> size_unit c = None /\ offset_unit c = None.
Proof.
  unfold is_digit, offset_unit, size_unit. intros H.
  assert (forall d, d < 48 \/ 57 < d -> (c =? d) = false) as Hne by (intros; lia).
  rewrite !Hne by lia. done.
Qed.

Lemma parse_scaled_correct unit_of ato digits unit scale :
  (forall c, is_digit c = true -> unit_of c = None) -> reads_decimal ato ->
  scaled_text unit_of digits unit scale -> dec_value digits < 2 ^ 63 ->
  parse_scaled unit_of ato (digits ++ option_list unit) = Some (i64 (dec_value digits * scale)).
Proof.
  intros Hu Hato (Hne & Hd & Hs) Hb. unfold parse_scaled.
  pose proof (proj1 (Hato digits) (conj Hne (conj Hd Hb))) as Ev.
  assert (0 <= dec_value digits) by (by apply dec_value_bound).
  assert ((dec_value digits =? NGX_ERROR) = false) as Herr by (apply Z.eqb_neq; unfold NGX_ERROR; lia).
  destruct unit as [u|].
  - change (option_list (Some u)) with [u]. by rewrite last_snoc, Hs, removelast_last, Ev, Herr.
  - change (option_list None) with (@nil Z). rewrite app_nil_r. subst scale. destruct (last digits) as [c|] eqn:El; [|by apply last_None in El].
    rewrite Hu; [by rewrite Ev, Herr|].
    apply last_Some in El as [l ->]. rewrite forallb_app in Hd. apply andb_true_iff in Hd as [_ Hd].
    cbn in Hd. by rewrite andb_true_r in Hd.
Qed.

(** * Times are read unit by unit *)

Inductive unit_name := Uyear | Umonth | Uweek | Uday | Uhour | Umin | Usec | Umsec.

Definition unit_text (u : unit_name) : list Z :=
  match u with
  | Uyear => cstr "y" | Umonth => cstr "M" | Uweek => cstr "w" | Uday => cstr "d"
  | Uhour => cstr "h" | Umin => cstr "m" | Usec => cstr "s" | Umsec => cstr "ms"
  end.

(** The place of a unit: units come in this order, each at most once. *)
Definition unit_step (u : unit_name) : Z :=
  match u with
  | Uyear => 1 | Umonth => 2 | Uweek => 3 | Uday => 4 | Uhour => 5 | Umin => 6 | Usec => 7 | Umsec => 8
  end.

Definition unit_seconds (u : unit_name) : Z :=
  match u with
  | Uyear => 31536000 | Umonth => 2592000 | Uweek => 604800 | Uday => 86400
  | Uhour => 3600 | Umin => 60 | Usec => 1 | Umsec => 1
  end.

(** What a unit is worth, in seconds or in milliseconds, and the largest number of
    it that is taken. *)
Definition unit_scale (is_sec : bool) (u : unit_name) : Z :=
  if is_sec then unit_seconds u else match u with Umsec => 1 | _ => unit_seconds u * 1000 end.

Definition unit_max (is_sec : bool) (u : unit_name) : Z :=
  let max := NGX_MAX_INT32_VALUE / unit_seconds u in
  if is_sec then max else match u with Umsec => max | _ => max / 1000 end.

(** A number with its unit and the blanks after it. *)
Record item := mk_item { i_digits : list Z; i_unit : unit_name; i_blanks : nat }.

Definition item_text (i : item) : list Z :=
  i_digits i ++ unit_text (i_unit i) ++ replicate (i_blanks i) " "%cc.

Definition item_ok (i : item) : Prop :=
  i_digits i <> [] /\ forallb is_digit (i_digits i) = true /\ dec_value (i_digits i) < 2 ^ 63.

(** The sum of the items, or that they cannot be accepted: years and
    milliseconds only where they make sense, the units in order, and no number
    and no sum over the limit. *)
Fixpoint time_sum (is_sec : bool) (step total : Z) (items : list item) : option Z :=
  match items with
  | [] => Some total
  | i :: items' =>
      let u := i_unit i in
      let v := dec_value (i_digits i) in
      if (match u with Uyear => step <=? 0 | Umsec => negb is_sec && (step <? 8) | _ => step <? unit_step u end) &&
         (v <=? unit_max is_sec u) && (total + v * unit_scale is_sec u <=? NGX_MAX_INT32_VALUE)
      then time_sum is_sec (unit_step u) (total + v * unit_scale is_sec u) items'
      else None
  end.

Lemma skip_blanks_length line : (length (skip_blanks line) <= length line)%nat.
Proof. induction line as [|c line IH]; cbn; [lia|]. destruct (c =? _); cbn; lia. Qed.

Lemma unit_turn_length is_sec after value total step c line r :
  unit_turn is_sec after value total step c line = Some r -> (length r.2 <= length line)%nat.
Proof.
  unfold unit_turn. destruct (time_unit _ _ _ _) as [[[[step' max] scale] two]|]; [|done].
  destruct (u64 value >? _); [done|]. destruct (u64 _ >? _); [done|]. intros [= <-]. cbn.
  pose proof (skip_blanks_length (if two then tail line else line)). destruct two, line; cbn in *; lia.
Qed.

Lemma time_loop_fuel f1 f2 is_sec after value total step valid line :
  (length line <= f1)%nat -> (length line <= f2)%nat ->
  time_loop f1 is_sec after value total step valid line = time_loop f2 is_sec after value total step valid line.
Proof.
  revert f2 value total step valid line. induction f1 as [|f1 IH]; intros f2 value total step valid line H1 H2.
  { destruct line; [by destruct f2|cbn in H1; lia]. }
  destruct line as [|c line]; [by destruct f2|]. destruct f2 as [|f2]; [cbn in H2; lia|]. cbn [time_loop].
  cbn in H1, H2. destruct (is_digit c); [apply IH; lia|].
  destruct (unit_turn _ _ _ _ _ _ _) as [[[total' step'] line']|] eqn:E; [|done].
  apply unit_turn_length in E. cbn in E. apply IH; lia.
Qed.

Section times.
Context (is_sec : bool) (after : Z).

Definition time_from (value total step : Z) (valid : bool) (line : list Z) : Z :=
  time_loop (length line) is_sec after value total step valid line.

Lemma time_from_digits digits value total step valid line :
  forallb is_digit digits = true -> digits <> [] ->
  time_from (i64 value) total step valid (digits ++ line) =
    time_from (i64 (num_acc 10 dec_val value digits)) total step true line.
Proof.
  revert value valid. induction digits as [|c digits IH]; intros value valid Hd Hne; [done|].
  cbn in Hd. apply andb_true_iff in Hd as [Hc Hd]. unfold time_from. cbn [app length time_loop]. rewrite Hc.
  rewrite swrap_mul by done. rewrite (swrap_eq_mod 64 (i64 (value * 10) + (c - "0"%cc)) (value * 10 + dec_val c)).
  2: { rewrite <- Zplus_mod_idemp_l, swrap_mod by lia. by rewrite Zplus_mod_idemp_l. }
  destruct digits as [|d digits]; [done|]. by apply IH.
Qed.

Lemma skip_blanks_replicate n c line :
  (c =? " "%cc) = false -> skip_blanks (replicate n " "%cc ++ c :: line) = c :: line.
Proof. intros Hc. induction n as [|n IH]; cbn; [by rewrite Hc|done]. Qed.

Lemma skip_blanks_all n : skip_blanks (replicate n " "%cc) = [].
Proof. by induction n. Qed.

(** What follows an item: the next number, or the end. *)
Definition rest_ok (rest : list Z) : Prop :=
  match rest with [] => (after =? "s"%cc) = false | c :: _ => is_digit c = true end.

Lemma skip_blanks_rest n rest : rest_ok rest -> skip_blanks (replicate n " "%cc ++ rest) = rest.
Proof.
  destruct rest as [|c rest]; cbn; intros Hc; [rewrite app_nil_r; apply skip_blanks_all|].
  apply skip_blanks_replicate. unfold is_digit in Hc. lia.
Qed.

Definition step_allowed (step : Z) (u : unit_name) : bool :=
  match u with Uyear => step <=? 0 | Umsec => negb is_sec && (step <? 8) | _ => step <? unit_step u end.

Lemma next_not_s n rest : rest_ok rest -> (default after (head (replicate n " "%cc ++ rest)) =? "s"%cc) = false.
Proof. destruct n; [|done]. destruct rest as [|c rest]; cbn; [done|]. unfold is_digit. lia. Qed.

(** The [switch] on the text of a unit. *)
Lemma time_unit_text u step n rest :
  rest_ok rest ->
  exists c line (two : bool),
    unit_text u ++ replicate n " "%cc ++ rest = c :: line /\ is_digit c = false /\
    (if two then tail line else line) = replicate n " "%cc ++ rest /\
    time_unit is_sec step c (default after (head line)) =
      if step_allowed step u
      then Some (unit_step u, NGX_MAX_INT32_VALUE / unit_seconds u, unit_seconds u, two) else None.
Proof.
  intros Hr. pose proof (next_not_s n rest Hr) as Hs.
  destruct u; [eexists _, _, false..|eexists _, _, true]; (split; [reflexivity|]; split; [reflexivity|]);
    (split; [reflexivity|]); cbn [step_allowed unit_step unit_seconds].
  - unfold time_unit, st_start, st_month, st_week, st_day, st_hour, st_min, st_sec, st_msec. cbn -[Z.gtb Z.geb Z.leb Z.ltb Z.div]. rewrite Z.gtb_ltb, Z.ltb_antisym. by destruct (step <=? 0).
  - unfold time_unit, st_start, st_month, st_week, st_day, st_hour, st_min, st_sec, st_msec. cbn -[Z.gtb Z.geb Z.leb Z.ltb Z.div]. rewrite Z.geb_leb, Z.leb_antisym. by destruct (step <? 2).
  - unfold time_unit, st_start, st_month, st_week, st_day, st_hour, st_min, st_sec, st_msec. cbn -[Z.gtb Z.geb Z.leb Z.ltb Z.div]. rewrite Z.geb_leb, Z.leb_antisym. by destruct (step <? 3).
  - unfold time_unit, st_start, st_month, st_week, st_day, st_hour, st_min, st_sec, st_msec. cbn -[Z.gtb Z.geb Z.leb Z.ltb Z.div]. rewrite Z.geb_leb, Z.leb_antisym. by destruct (step <? 4).
  - unfold time_unit, st_start, st_month, st_week, st_day, st_hour, st_min, st_sec, st_msec. cbn -[Z.gtb Z.geb Z.leb Z.ltb Z.div]. rewrite Z.geb_leb, Z.leb_antisym. by destruct (step <? 5).
  - unfold time_unit, st_start, st_month, st_week, st_day, st_hour, st_min, st_sec, st_msec. change ("m"%cc =? "y"%cc) with false. cbn -[head default Z.geb Z.ltb Z.div]. rewrite Hs.
    rewrite Z.geb_leb, Z.leb_antisym. by destruct (step <? 6).
  - unfold time_unit, st_start, st_month, st_week, st_day, st_hour, st_min, st_sec, st_msec. cbn -[Z.gtb Z.geb Z.leb Z.ltb Z.div]. rewrite Z.geb_leb, Z.leb_antisym. by destruct (step <? 7).
  - unfold time_unit, st_start, st_month, st_week, st_day, st_hour, st_min, st_sec, st_msec. cbn -[Z.gtb Z.geb Z.leb Z.ltb Z.div]. rewrite Z.geb_leb, Z.leb_antisym. by destruct is_sec, (step <? 8).
Qed.

Lemma scale_max u v :
  0 <= v <= unit_max is_sec u -> 0 <= v * unit_scale is_sec u <= NGX_MAX_INT32_VALUE.
Proof.
  unfold unit_max, unit_scale, NGX_MAX_INT32_VALUE. intros [Hv Hm].
  destruct is_sec, u; cbn [unit_seconds] in *; Z.to_euclidean_division_equations; lia.
Qed.

(** One item. *)
Lemma time_from_item i rest total step valid :
  item_ok i -> rest_ok rest -> 0 <= total <= NGX_MAX_INT32_VALUE ->
  time_from 0 total step valid (item_text i ++ rest) =
    if step_allowed step (i_unit i) && (dec_value (i_digits i) <=? unit_max is_sec (i_unit i)) &&
       (total + dec_value (i_digits i) * unit_scale is_sec (i_unit i) <=? NGX_MAX_INT32_VALUE)
    then time_from 0 (total + dec_value (i_digits i) * unit_scale is_sec (i_unit i))
           (unit_step (i_unit i)) true rest
    else NGX_ERROR.
Proof.
  intros (Hne & Hd & Hb) Hr Ht. unfold item_text. rewrite <- !app_assoc.
  pose proof (time_from_digits (i_digits i) 0 total step valid
    (unit_text (i_unit i) ++ replicate (i_blanks i) " "%cc ++ rest) Hd Hne) as E.
  change (i64 0) with 0 in E. rewrite E. clear E. fold (dec_value (i_digits i)).
  pose proof (dec_value_bound _ Hd) as [Hv _]. set (v := dec_value (i_digits i)) in *. set (u := i_unit i).
  rewrite swrap_small by lia.
  destruct (time_unit_text u step (i_blanks i) rest Hr) as (c & line & two & E1 & Hc & E2 & E3).
  rewrite E1. unfold time_from at 1. cbn [length time_loop]. rewrite Hc. unfold unit_turn. rewrite E3.
  destruct (step_allowed step u); [cbn [andb]; rewrite E2|done].
  assert ((if negb (unit_step u =? st_msec) && negb is_sec then unit_seconds u * 1000 else unit_seconds u)
    = unit_scale is_sec u) as ->.
  { unfold unit_scale. by destruct is_sec, u. }
  assert ((if negb (unit_step u =? st_msec) && negb is_sec then NGX_MAX_INT32_VALUE / unit_seconds u / 1000
           else NGX_MAX_INT32_VALUE / unit_seconds u) = unit_max is_sec u) as ->.
  { unfold unit_max. by destruct is_sec, u. }
  rewrite wrap_small by lia. rewrite Z.gtb_ltb, Z.ltb_antisym.
  destruct (Z.leb_spec v (unit_max is_sec u)) as [Hm|]; cbn [negb andb]; [|done].
  pose proof (scale_max u v (conj Hv Hm)) as Hs. unfold NGX_MAX_INT32_VALUE in *.
  rewrite (swrap_small 64 (v * unit_scale is_sec u)) by lia. rewrite swrap_small, wrap_small by lia.
  rewrite Z.gtb_ltb, Z.ltb_antisym. destruct (Z.leb_spec (total + v * unit_scale is_sec u) 2147483647); cbn [negb]; [|done].
  rewrite skip_blanks_rest by done. apply time_loop_fuel; [|lia].
  assert (length (replicate (i_blanks i) " "%cc ++ rest) <= length line)%nat; [|rewrite length_app in *; lia].
  rewrite <- E2. destruct two, line; cbn; lia.
Qed.

Lemma time_from_items items tail total step valid :
  Forall item_ok items -> forallb is_digit tail = true -> (after =? "s"%cc) = false ->
  0 <= total <= NGX_MAX_INT32_VALUE ->
  time_from 0 total step valid (mjoin (item_text <$> items) ++ tail) =
    match time_sum is_sec step total items with
    | None => NGX_ERROR
    | Some sum =>
        if valid || negb (bool_decide (items = [])) || negb (bool_decide (tail = []))
        then i64 (sum + i64 (i64 (dec_value tail) * (if is_sec then 1 else 1000))) else NGX_ERROR
    end.
Proof.
  intros Hi Htail Hafter. revert total step valid.
  induction Hi as [|i items Hi Hitems IH]; intros total step valid Htot; cbn [fmap list_fmap mjoin list_join].
  - cbn [app time_sum]. destruct tail as [|c tail].
    + unfold time_from. cbn. by rewrite !orb_false_r.
    + rewrite (bool_decide_eq_false_2 (c :: tail = [])) by done.
      rewrite <- (app_nil_r (c :: tail)) at 1. change 0 with (i64 0) at 1. rewrite time_from_digits by done.
      unfold time_from. cbn [length time_loop]. by rewrite !orb_true_r.
  - rewrite <- app_assoc, time_from_item; [|done| |done].
    + cbn [time_sum]. fold (step_allowed step (i_unit i)).
      destruct (step_allowed step (i_unit i)); cbn [andb]; [|done].
      destruct (Z.leb_spec (dec_value (i_digits i)) (unit_max is_sec (i_unit i))) as [Hm|]; cbn [andb]; [|done].
      destruct (Z.leb_spec (total + dec_value (i_digits i) * unit_scale is_sec (i_unit i)) NGX_MAX_INT32_VALUE); [|done].
      assert (0 <= dec_value (i_digits i)) by (apply dec_value_bound; apply Hi).
      rewrite IH by (pose proof (scale_max (i_unit i) (dec_value (i_digits i))); lia).
      rewrite (bool_decide_eq_false_2 (i :: items = [])) by done. by rewrite orb_true_r.
    + destruct items as [|j items]; cbn.
      * destruct tail as [|c tail]; [done|]. cbn in Htail |- *. by apply andb_true_iff in Htail as [? _].
      * apply Forall_cons in Hitems as [(Hne & Hd & _) _]. unfold item_text.
        destruct (i_digits j) as [|c d]; [done|]. cbn in Hd |- *. by apply andb_true_iff in Hd as [? _].
Qed.
End times.

(** * Theorems *)

(** A number with a unit or none is read as the number times the unit, modulo the
    width of the result; the empty line has no unit to look at. *)
Theorem parse_sizes_correct digits unit scale :
  dec_value digits < 2 ^ 63 ->
  (scaled_text size_unit digits unit scale ->
   ngx_parse_size (digits ++ option_list unit) = Some (i64 (dec_value digits * scale))) /\
  (scaled_text offset_unit digits unit scale ->
   ngx_parse_offset (digits ++ option_list unit) = Some (i64 (dec_value digits * scale))) /\
  ngx_parse_size [] = None /\ ngx_parse_offset [] = None.
Proof.
  intros Hb. split_and!; [| |done|done]; intros Hs;
    (apply parse_scaled_correct; [intros c Hc; by apply unit_not_digit|by apply decimal_reader|done|done]).
Qed.

(** [ngx_parse_time] reads numbers with units, and a last number without one
    in seconds: it returns the sum in seconds, or in milliseconds, and
    [NGX_ERROR] exactly when a unit is out of order, repeated or not allowed,
    when a number or the sum of those with a unit exceeds [2 ^ 31 - 1], or when
    the line is empty. *)
Theorem parse_time_items is_sec after items tail :
  Forall item_ok items -> forallb is_digit tail = true -> (after =? "s"%cc) = false ->
  dec_value tail < 2 ^ 52 ->
  ngx_parse_time (mjoin (item_text <$> items) ++ tail) after is_sec =
    match time_sum is_sec (if is_sec then 0 else 2) 0 items with
    | Some sum =>
        if bool_decide (items = [] /\ tail = []) then NGX_ERROR
        else sum + dec_value tail * (if is_sec then 1 else 1000)
    | None => NGX_ERROR
    end.
Proof.
  intros Hi Htail Hafter Hb.
  pose proof (time_from_items is_sec after items tail 0 (if is_sec then 0 else 2) false Hi Htail Hafter) as E.
  specialize (E ltac:(unfold NGX_MAX_INT32_VALUE; lia)). unfold time_from in E.
  unfold ngx_parse_time. change st_start with 0. change st_month with 2. rewrite E. clear E.
  assert (forall step total sum l, 0 <= total <= NGX_MAX_INT32_VALUE -> Forall item_ok l ->
    time_sum is_sec step total l = Some sum -> 0 <= sum <= NGX_MAX_INT32_VALUE) as Hsum.
  { intros step total sum l. revert step total. induction l as [|j l IH]; intros step total Ht Hl; cbn [time_sum].
    - by intros [= <-].
    - apply Forall_cons in Hl as [(_ & Hd & _) Hl]. pose proof (dec_value_bound _ Hd) as [Hv _].
      destruct (_ && _) eqn:Hc; [|done]. apply andb_true_iff in Hc as [[_ Hm]%andb_true_iff Hs].
      apply Z.leb_le in Hm, Hs. apply IH; [|done]. pose proof (scale_max is_sec _ _ (conj Hv Hm)). lia. }
  destruct (time_sum _ _ _ _) as [sum|] eqn:Es; [|done].
  apply Hsum in Es; [|unfold NGX_MAX_INT32_VALUE; lia|done]. unfold NGX_MAX_INT32_VALUE in Es.
  pose proof (dec_value_bound _ Htail) as [Hv _].
  rewrite (swrap_small 64 (dec_value tail)) by lia.
  rewrite (swrap_small 64 (dec_value tail * _)) by (destruct is_sec; lia).
  rewrite swrap_small by (destruct is_sec; lia). cbn [orb].
  by destruct items, tail.
Qed.

Lemma parse_time_items_witness :
  ngx_parse_time (cstr "1h 30m15") 0 true = 5415.
Proof.
  apply (parse_time_items true 0 [mk_item (cstr "1") Uhour 1; mk_item (cstr "30") Umin 0] (cstr "15"));
    [repeat constructor; done|reflexivity|reflexivity|reflexivity].
Defined.

(** The product with the unit is not checked, nor is a last number without a
    unit. *)
Lemma parse_overflow_accepted :
  ngx_parse_size (cstr "18014398509481985k") = Some 1024 /\
  ngx_parse_time (cstr "4294967296") 0 true = 4294967296.
Proof. vm_compute. done. Qed.
