(* ===== verification/NgxPalloc.v ===== *)
(** The memory pools of src/core/ngx_palloc.c: small allocations cut from a list of
    blocks, large ones from the system, and everything released with the pool.

    The pool, its blocks, the records of the large allocations and of the cleanup
    handlers are objects at addresses.  The memory of the system is [os]: the
    chunks that are allocated, with their sizes; [memalign] is what
    [posix_memalign] and [malloc] return, [NULL] when they fail.  Freeing what is
    not an allocated chunk has no result.  The fields [chain] and [log] of the
    pool are not used by this code and are left out, and so are the log lines;
    the calls of cleanup handlers are recorded in [ran]. *)

From stdpp Require Import sorting.
From S2P Require Import Prelude NgxStore.

Open Scope Z_scope.
Open Scope store_scope.

Record ngx_pool_data_t := mk_data {
  last : Z;
  end_ : Z;
  next : loc;
  failed : Z;
}.

Record ngx_pool_large_t := mk_large {
  l_next : loc;
  alloc : loc;
}.

(** A handler is a number, 0 for [NULL]. *)
Record ngx_pool_cleanup_t := mk_cleanup {
  handler : Z;
  data : loc;
  c_next : loc;
}.

(** The fields of [ngx_pool_t] after [d]. *)
Record ngx_pool_t := mk_pool {
  max : Z;
  current : loc;
  large : loc;
  cleanup : loc;
}.

Record memory := mk_memory {
  pool_ : ngx_pool_t;
  blocks : gmap loc ngx_pool_data_t;
  larges : gmap loc ngx_pool_large_t;
  cleanups : gmap loc ngx_pool_cleanup_t;
  os : gmap loc Z;
  ran : list (Z * loc);
}.

#[export] Instance eta_data : EtaRecord ngx_pool_data_t := fun d => mk_data (last d) (end_ d) (next d) (failed d).
#[export] Instance set_last : FieldSetter last := ltac:(field_setter).
#[export] Instance set_next : FieldSetter next := ltac:(field_setter).
#[export] Instance set_failed : FieldSetter failed := ltac:(field_setter).
#[export] Instance eta_large : EtaRecord ngx_pool_large_t := fun l => mk_large (l_next l) (alloc l).
#[export] Instance set_alloc : FieldSetter alloc := ltac:(field_setter).
#[export] Instance eta_pool : EtaRecord ngx_pool_t := fun p => mk_pool (max p) (current p) (large p) (cleanup p).
#[export] Instance set_current : FieldSetter current := ltac:(field_setter).
#[export] Instance set_large : FieldSetter large := ltac:(field_setter).
#[export] Instance set_cleanup : FieldSetter cleanup := ltac:(field_setter).
#[export] Instance eta_memory : EtaRecord memory := fun m =>
  mk_memory (pool_ m) (blocks m) (larges m) (cleanups m) (os m) (ran m).
#[export] Instance set_pool : FieldSetter pool_ := ltac:(field_setter).
#[export] Instance set_blocks : FieldSetter blocks := ltac:(field_setter).
#[export] Instance set_larges : FieldSetter larges := ltac:(field_setter).
#[export] Instance set_cleanups : FieldSetter cleanups := ltac:(field_setter).
#[export] Instance set_os : FieldSetter os := ltac:(field_setter).
#[export] Instance set_ran : FieldSetter ran := ltac:(field_setter).

#[export] Program Instance memory_blocks : Objects memory ngx_pool_data_t :=
  { objects := blocks; set_objects h m := m <| blocks := h |> }.
Next Obligation. done. Qed.
#[export] Program Instance memory_larges : Objects memory ngx_pool_large_t :=
  { objects := larges; set_objects h m := m <| larges := h |> }.
Next Obligation. done. Qed.
#[export] Program Instance memory_cleanups : Objects memory ngx_pool_cleanup_t :=
  { objects := cleanups; set_objects h m := m <| cleanups := h |> }.
Next Obligation. done. Qed.

Abbreviation MP := (M memory).

Definition sizeof_pool : Z := 80.
Definition sizeof_data : Z := 32.
Definition sizeof_large : Z := 16.
Definition sizeof_cleanup : Z := 24.
Definition NGX_ALIGNMENT : Z := 8.
Definition NGX_POOL_ALIGNMENT : Z := 16.

Definition pool_set (f : ngx_pool_t -> ngx_pool_t) : MP unit := mput (fun m => m <| pool_ := f (pool_ m) |>).
Definition pool_get {A} (f : ngx_pool_t -> A) : MP A := mget (fun m => f (pool_ m)).

(** An object made at an address. *)
Definition new_block (p : loc) (d : ngx_pool_data_t) : MP unit := mput (fun m => m <| blocks := <[p := d]> (blocks m) |>).
Definition new_large (p : loc) (l : ngx_pool_large_t) : MP unit := mput (fun m => m <| larges := <[p := l]> (larges m) |>).
Definition new_cleanup (p : loc) (c : ngx_pool_cleanup_t) : MP unit := mput (fun m => m <| cleanups := <[p := c]> (cleanups m) |>).

Definition block_at (p : loc) : MP ngx_pool_data_t := load p.
Definition large_at (p : loc) : MP ngx_pool_large_t := load p.
Definition cleanup_at (p : loc) : MP ngx_pool_cleanup_t := load p.

Definition ngx_free (p : loc) : MP unit := fun m =>
  if p =? NULL then Some (tt, m)
  else match os m !! p with Some _ => Some (tt, m <| os := delete p (os m) |>) | None => None end.

Section operations.
Context (memalign : Z -> Z -> gmap loc Z -> loc) (ngx_pagesize : Z) (pool : loc).

(** [ngx_memalign] and [ngx_alloc] *)
Definition ngx_memalign (alignment size : Z) : MP loc := fun m =>
  let p := memalign alignment size (os m) in
  if p =? NULL then Some (NULL, m) else Some (p, m <| os := <[p := size]> (os m) |>).

Definition ngx_alloc (size : Z) : MP loc := ngx_memalign 1 size.

(** The pool itself: [pool] has to be what the allocation returns. *)
Definition ngx_create_pool (size : Z) : MP bool :=
  p <-- ngx_memalign NGX_POOL_ALIGNMENT size;
  if p =? NULL then mret false
  else if negb (p =? pool) then mstuck
  else
    new_block p (mk_data (p + sizeof_pool) (p + size) NULL 0) ;;
    let size := size - sizeof_pool in
    let max := if size <? ngx_pagesize - 1 then size else ngx_pagesize - 1 in
    pool_set (fun _ => mk_pool max p NULL NULL) ;;
    mret true.

(** [for (c = pool->cleanup; c; c = c->next)] *)
Fixpoint run_cleanups (fuel : nat) (c : loc) : MP unit :=
  if c =? NULL then mret tt
  else match fuel with
  | O => mstuck
  | S fuel' =>
      n <-- cleanup_at c;
      (if negb (handler n =? 0) then mput (fun m => m <| ran := ran m ++ [(handler n, data n)] |>) else mret tt) ;;
      run_cleanups fuel' (c_next n)
  end.

(** [for (l = pool->large; l; l = l->next) if (l->alloc) ngx_free(l->alloc);] *)
Fixpoint free_larges (fuel : nat) (l : loc) : MP unit :=
  if l =? NULL then mret tt
  else match fuel with
  | O => mstuck
  | S fuel' =>
      n <-- large_at l;
      (if negb (alloc n =? NULL) then ngx_free (alloc n) else mret tt) ;;
      free_larges fuel' (l_next n)
  end.

(** [for (p = pool, n = pool->d.next; ; p = n, n = n->d.next)]: [n] is read before
    [p] is freed. *)
Fixpoint free_blocks (fuel : nat) (p n : loc) : MP unit :=
  ngx_free p ;;
  if n =? NULL then mret tt
  else match fuel with
  | O => mstuck
  | S fuel' => d <-- block_at n; free_blocks fuel' n (next d)
  end.

Definition ngx_destroy_pool : MP unit :=
  c <-- pool_get cleanup;
  fuel <-- mget (fun m => size (cleanups m));
  run_cleanups fuel c ;;
  l <-- pool_get large;
  fuel <-- mget (fun m => size (larges m));
  free_larges fuel l ;;
  d <-- block_at pool;
  fuel <-- mget (fun m => size (blocks m));
  free_blocks fuel pool (next d).

(** [for (p = pool; p; p = p->d.next) p->d.last = (u_char * ) p + sizeof(ngx_pool_t);] *)
Fixpoint reset_blocks (fuel : nat) (p : loc) : MP unit :=
  if p =? NULL then mret tt
  else match fuel with
  | O => mstuck
  | S fuel' =>
      update p (fun d : ngx_pool_data_t => d <| last := p + sizeof_pool |>) ;;
      d <-- block_at p;
      reset_blocks fuel' (next d)
  end.

Definition ngx_reset_pool : MP unit :=
  l <-- pool_get large;
  fuel <-- mget (fun m => size (larges m));
  free_larges fuel l ;;
  pool_set (fun p => p <| large := NULL |>) ;;
  fuel <-- mget (fun m => size (blocks m));
  reset_blocks fuel pool.

(** The [do ... while (p)] of [ngx_palloc] and [ngx_pnalloc]: the place found, or
    [NULL]; [aligned] tells the two apart. *)
Fixpoint palloc_scan (fuel : nat) (aligned : bool) (p : loc) (size : Z) : MP loc :=
  d <-- block_at p;
  let m := if aligned then ngx_align_ptr (last d) NGX_ALIGNMENT else last d in
  if u64 (end_ d - m) >=? size then
    update p (fun d : ngx_pool_data_t => d <| last := m + size |>) ;;
    mret m
  else if next d =? NULL then mret NULL
  else match fuel with
  | O => mstuck
  | S fuel' => palloc_scan fuel' aligned (next d) size
  end.

(** [for (p = current; p->d.next; p = p->d.next)]: the last block and the new
    [current]. *)
Fixpoint block_tail (fuel : nat) (p current : loc) : MP (loc * loc) :=
  d <-- block_at p;
  if next d =? NULL then mret (p, current)
  else match fuel with
  | O => mstuck
  | S fuel' =>
      update p (fun d : ngx_pool_data_t => d <| failed := u64 (failed d + 1) |>) ;;
      block_tail fuel' (next d) (if failed d >? 4 then next d else current)
  end.

(** The new block becomes the last one. *)
Definition append_block (new : loc) : MP unit :=
  cur <-- pool_get current;
  fuel <-- mget (fun m => size (blocks m));
  r <-- block_tail fuel cur cur;
  let '(p, cur) := r in
  update p (fun d : ngx_pool_data_t => d <| next := new |>) ;;
  pool_set (fun q => q <| current := if negb (cur =? NULL) then cur else new |>).

Definition ngx_palloc_block (size : Z) : MP loc :=
  d <-- block_at pool;
  let psize := end_ d - pool in
  m <-- ngx_memalign NGX_POOL_ALIGNMENT psize;
  if m =? NULL then mret NULL
  else
    let new := m in
    let m := ngx_align_ptr (m + sizeof_data) NGX_ALIGNMENT in
    new_block new (mk_data (m + size) (new + psize) NULL 0) ;;
    append_block new ;;
    mret m.

Definition palloc_small (aligned : bool) (size : Z) : MP loc :=
  p <-- pool_get current;
  fuel <-- mget (fun m => stdpp.base.size (blocks m));
  m <-- palloc_scan fuel aligned p size;
  if m =? NULL then ngx_palloc_block size else mret m.

(** The record of a large allocation is put in front of the list. *)
Definition add_large (palloc : Z -> MP loc) (p : loc) : MP loc :=
  l <-- palloc sizeof_large;
  if l =? NULL then ngx_free p ;; mret NULL
  else
    old <-- pool_get large;
    new_large l (mk_large old p) ;;
    pool_set (fun q => q <| large := l |>) ;;
    mret p.

(** The first records are looked at for one that was freed; [n] counts them. *)
Fixpoint reuse_large (fuel : nat) (n : Z) (l p : loc) : MP bool :=
  if l =? NULL then mret false
  else match fuel with
  | O => mstuck
  | S fuel' =>
      r <-- large_at l;
      if alloc r =? NULL then
        update l (fun r : ngx_pool_large_t => r <| alloc := p |>) ;; mret true
      else if n >? 3 then mret false
      else reuse_large fuel' (n + 1) (l_next r) p
  end.

Definition ngx_palloc_large (palloc : Z -> MP loc) (size : Z) : MP loc :=
  p <-- ngx_alloc size;
  if p =? NULL then mret NULL
  else
    l <-- pool_get large;
    fuel <-- mget (fun m => stdpp.base.size (larges m));
    used <-- reuse_large fuel 0 l p;
    if (used : bool) then mret p else add_large palloc p.

(** [ngx_palloc] calls [ngx_palloc_large] and that calls [ngx_palloc]; with a pool
    that is large enough for a record the second call is small. *)
Fixpoint palloc_rec (fuel : nat) (size : Z) : MP loc :=
  mx <-- pool_get max;
  if size <=? mx then palloc_small true size
  else match fuel with
  | O => mstuck
  | S fuel' => ngx_palloc_large (palloc_rec fuel') size
  end.

Definition ngx_palloc : Z -> MP loc := palloc_rec 1.

Definition ngx_pnalloc (size : Z) : MP loc :=
  mx <-- pool_get max;
  if size <=? mx then palloc_small false size else ngx_palloc_large ngx_palloc size.

Definition ngx_pmemalign (size alignment : Z) : MP loc :=
  p <-- ngx_memalign alignment size;
  if p =? NULL then mret NULL else add_large ngx_palloc p.

Fixpoint pfree_loop (fuel : nat) (l p : loc) : MP Z :=
  if l =? NULL then mret NGX_DECLINED
  else match fuel with
  | O => mstuck
  | S fuel' =>
      r <-- large_at l;
      if p =? alloc r then
        ngx_free (alloc r) ;;
        update l (fun r : ngx_pool_large_t => r <| alloc := NULL |>) ;;
        mret NGX_OK
      else pfree_loop fuel' (l_next r) p
  end.

Definition ngx_pfree (p : loc) : MP Z :=
  l <-- pool_get large;
  fuel <-- mget (fun m => stdpp.base.size (larges m));
  pfree_loop fuel l p.

Definition ngx_pool_cleanup_add (size : Z) : MP loc :=
  c <-- ngx_palloc sizeof_cleanup;
  if c =? NULL then mret NULL
  else
    d <-- (if negb (size =? 0) then ngx_palloc size else mret NULL);
    if negb (size =? 0) && (d =? NULL) then mret NULL
    else
      old <-- pool_get cleanup;
      new_cleanup c (mk_cleanup 0 d old) ;;
      pool_set (fun q => q <| cleanup := c |>) ;;
      mret c.
End operations.

#[local] Arguments mthen : simpl never.

(** * Alignment *)

Lemma align8 p : ngx_align_ptr p NGX_ALIGNMENT = (p + 7) - (p + 7) mod 8.
Proof. exact (align_pow2 p 3 ltac:(lia)). Qed.

Lemma align8_spec p :
  p <= ngx_align_ptr p NGX_ALIGNMENT < p + 8 /\ ngx_align_ptr p NGX_ALIGNMENT mod 8 = 0.
Proof. rewrite align8. Z.to_euclidean_division_equations. lia. Qed.

Lemma align8_le p e : p <= e -> e mod 8 = 0 -> ngx_align_ptr p NGX_ALIGNMENT <= e.
Proof. intros. rewrite align8. Z.to_euclidean_division_equations. lia. Qed.

(** * Regions *)

Definition disjoint_regions (r q : Z * Z) : Prop := r.1 + r.2 <= q.1 \/ q.1 + q.2 <= r.1.

(** What is relied on of [posix_memalign] and [malloc]: memory that is not in use,
    aligned as asked for. *)
Class Allocator (memalign : Z -> Z -> gmap loc Z -> loc) :=
  memalign_spec : forall alignment size os,
    memalign alignment size os = NULL \/
    0 < memalign alignment size os /\ memalign alignment size os mod alignment = 0 /\
    os !! memalign alignment size os = None /\
    forall c n, os !! c = Some n -> disjoint_regions (memalign alignment size os, size) (c, n).

(** * Linked lists *)

(** The addresses a list goes through. *)
Fixpoint linked {A} (h : gmap loc A) (nxt : A -> loc) (p : loc) (l : list loc) : Prop :=
  match l with
  | [] => p = NULL
  | x :: l' => p = x /\ x <> NULL /\ exists a, h !! x = Some a /\ linked h nxt (nxt a) l'
  end.

Lemma linked_ext {A} (h h' : gmap loc A) nxt p l :
  (forall x a, x ∈ l -> h !! x = Some a -> exists a', h' !! x = Some a' /\ nxt a' = nxt a) ->
  linked h nxt p l -> linked h' nxt p l.
Proof.
  revert p. induction l as [|x l IH]; intros p He; [done|]. cbn. intros (-> & Hx & a & Ha & Hl).
  split_and!; [done|done|]. destruct (He x a) as (a' & Ha' & E); [set_solver|done|].
  exists a'. split; [done|]. rewrite E. apply IH; [|done]. intros y b Hy. apply He. set_solver.
Qed.

Lemma linked_insert {A} (h : gmap loc A) nxt p l x a a' :
  linked h nxt p l -> h !! x = Some a -> nxt a' = nxt a -> linked (<[x := a']> h) nxt p l.
Proof.
  intros Hl Hx E. eapply linked_ext; [|exact Hl]. intros y b Hy Hb.
  destruct (decide (x = y)) as [<-|]; [exists a'; rewrite lookup_insert_eq; split; [done|congruence]|].
  exists b. by rewrite lookup_insert_ne.
Qed.

Lemma linked_fresh {A} (h : gmap loc A) nxt p l x a :
  linked h nxt p l -> x ∉ l -> linked (<[x := a]> h) nxt p l.
Proof.
  intros Hl Hx. eapply linked_ext; [|exact Hl]. intros y b Hy Hb. exists b.
  rewrite lookup_insert_ne; [done|]. by intros ->.
Qed.

Lemma linked_elem {A} (h : gmap loc A) nxt p l x :
  linked h nxt p l -> x ∈ l -> x <> NULL /\ is_Some (h !! x).
Proof.
  revert p. induction l as [|y l IH]; intros p; cbn; [set_solver|]. intros (-> & Hy & a & Ha & Hl).
  intros [->|Hx]%elem_of_cons; [split; [done|by eexists]|by eapply IH].
Qed.

(** A list without repetitions is not longer than what is stored. *)
Lemma linked_size {A} (h : gmap loc A) nxt p l : linked h nxt p l -> NoDup l -> (length l <= size h)%nat.
Proof.
  intros Hl Hnd. rewrite <- size_dom, <- (size_list_to_set (C := gset loc)) by done.
  apply subseteq_size. intros x Hx%elem_of_list_to_set. apply elem_of_dom. by eapply linked_elem.
Qed.

(** A point inside the list. *)
Lemma linked_split {A} (h : gmap loc A) nxt p l1 l2 :
  linked h nxt p (l1 ++ l2) -> exists q, linked h nxt q l2 /\ q = default NULL (head l2).
Proof.
  revert p. induction l1 as [|x l1 IH]; intros p; cbn.
  - intros Hl. exists p. split; [done|]. destruct l2; cbn in *; [done|by destruct Hl].
  - intros (_ & _ & a & _ & Hl). by eapply IH.
Qed.

(** * The invariant *)

Section proofs.
Context (memalign : Z -> Z -> gmap loc Z -> loc) `{!Allocator memalign} (ngx_pagesize : Z) (pool : loc) (psize : Z).

(** What the first bytes of a block are used for. *)
Definition header (b : loc) : Z := if decide (b = pool) then sizeof_pool else sizeof_data.

(** The allocations the records of the large list hold. *)
Definition live (a : loc) : list loc := if a =? NULL then [] else [a].

Fixpoint allocs (h : gmap loc ngx_pool_large_t) (ll : list loc) : list loc :=
  match ll with
  | [] => []
  | l :: ll' => match h !! l with Some r => live (alloc r) | None => [] end ++ allocs h ll'
  end.

(** Where a region that was handed out lies: below [last] of a block, or it is a
    large allocation. *)
Definition in_block (s : memory) (bl : list loc) (r : Z * Z) : Prop :=
  exists b d, b ∈ bl /\ blocks s !! b = Some d /\ b + header b <= r.1 /\ r.1 + r.2 <= last d.

Definition placed (s : memory) (bl ll : list loc) (r : Z * Z) : Prop :=
  0 <= r.2 /\
  (in_block s bl r \/
   (r.1 ∈ allocs (larges s) ll /\ os s !! r.1 = Some r.2)).

Record block_ok (s : memory) (b : loc) (d : ngx_pool_data_t) : Prop := mk_block_ok {
  block_pos : 0 < b;
  block_aligned : b mod 8 = 0;
  block_os : os s !! b = Some psize;
  block_end : end_ d = b + psize;
  block_last : b + header b <= last d <= end_ d;
}.

(** The pool, with its blocks [bl], the records [ll] of its large allocations, its
    cleanup records [cl] and the regions [given] it has handed out. *)
Record inv (os0 : gmap loc Z) (s : memory) (bl ll cl : list loc) (given : list (Z * Z)) : Prop := mk_inv {
  inv_head : head bl = Some pool;
  inv_blocks : linked (blocks s) next pool bl;
  inv_nodup : NoDup bl;
  inv_block : forall b d, b ∈ bl -> blocks s !! b = Some d -> block_ok s b d;
  inv_current : current (pool_ s) ∈ bl;
  inv_larges : linked (larges s) l_next (large (pool_ s)) ll;
  inv_lnodup : NoDup ll;
  inv_allocs : NoDup (allocs (larges s) ll);
  inv_chunks : forall a, a ∈ allocs (larges s) ll -> (a ∉ bl) /\ exists n, os s !! a = Some n /\ 0 <= n;
  inv_cleanups : linked (cleanups s) c_next (cleanup (pool_ s)) cl;
  inv_cnodup : NoDup cl;
  inv_records : (forall x, x ∈ ll -> (x, sizeof_large) ∈ given /\ in_block s bl (x, sizeof_large)) /\
                (forall x, x ∈ cl -> (x, sizeof_cleanup) ∈ given /\ in_block s bl (x, sizeof_cleanup));
  inv_given : forall r, r ∈ given -> placed s bl ll r;
  inv_disjoint : StronglySorted disjoint_regions given;
  inv_os : forall c n c' n', os s !! c = Some n -> os s !! c' = Some n' -> c <> c' -> disjoint_regions (c, n) (c', n');
  inv_max : sizeof_cleanup <= max (pool_ s) <= psize - sizeof_pool;
  inv_psize : psize mod 8 = 0 /\ psize < 2 ^ 63;
  inv_foreign : forall c, os0 !! c = if decide (c ∈ bl ++ allocs (larges s) ll) then None else os s !! c;
}.

Lemma inv_block_at os0 s bl ll cl given b :
  inv os0 s bl ll cl given -> b ∈ bl -> exists d, blocks s !! b = Some d /\ block_ok s b d.
Proof.
  intros Hi Hb. destruct (linked_elem _ _ _ _ _ (inv_blocks _ _ _ _ _ _ Hi) Hb) as [_ [d Hd]].
  exists d. split; [done|]. by eapply inv_block.
Qed.

Lemma header_range b : 32 <= header b <= 80.
Proof. unfold header, sizeof_pool, sizeof_data. case_decide; lia. Qed.

(** Every region is in a chunk of the system. *)
Lemma placed_chunk os0 s bl ll cl given r :
  inv os0 s bl ll cl given -> r ∈ given ->
  exists c n, os s !! c = Some n /\ c <= r.1 /\ r.1 + r.2 <= c + n /\ (c ∈ bl \/ c ∈ allocs (larges s) ll).
Proof.
  intros Hi Hr. destruct (inv_given _ _ _ _ _ _ Hi r Hr) as [Hn [(b & d & Hb & Hd & H1 & H2)|[Ha Ho]]].
  - destruct (inv_block _ _ _ _ _ _ Hi b d Hb Hd) as [_ _ Hos He Hl]. pose proof (header_range b).
    exists b, psize. split_and!; [done|lia|lia|by left].
  - exists r.1, r.2. split_and!; [done|lia|lia|by right].
Qed.

(** A region cut from the free part of a block meets none of the others. *)
Lemma small_disjoint os0 s bl ll cl given b d m n r :
  inv os0 s bl ll cl given -> b ∈ bl -> blocks s !! b = Some d -> last d <= m -> m + n <= end_ d -> 0 <= n ->
  r ∈ given -> disjoint_regions (m, n) r.
Proof.
  intros Hi Hb Hd Hm He Hn Hr. pose proof (header_range b) as Hh.
  destruct (inv_block _ _ _ _ _ _ Hi b d Hb Hd) as [_ _ Hos Hend Hl].
  destruct (placed_chunk _ _ _ _ _ _ _ Hi Hr) as (c & k & Hc & H1 & H2 & Hcase).
  destruct (decide (c = b)) as [->|Hne].
  - destruct (inv_given _ _ _ _ _ _ Hi r Hr) as [Hn' [(b' & d' & Hb' & Hd' & H3 & H4)|[Ha Ho]]].
    + destruct (decide (b' = b)) as [->|Hne].
      * assert (d' = d) as -> by congruence. right. cbn. lia.
      * destruct (inv_block _ _ _ _ _ _ Hi b' d' Hb' Hd') as [_ _ Hos' Hend' Hl'].
        pose proof (header_range b').
        destruct (inv_os _ _ _ _ _ _ Hi b psize b' psize Hos Hos') as [H5|H5]; [done|cbn in *..]; unfold disjoint_regions; cbn; lia.
    + assert (r.1 <> b). { intros <-. by apply (inv_chunks _ _ _ _ _ _ Hi) in Ha as [? _]. }
      destruct (inv_os _ _ _ _ _ _ Hi b psize r.1 r.2 Hos Ho) as [H5|H5]; [done|cbn in *..]; unfold disjoint_regions; cbn; lia.
  - destruct (inv_os _ _ _ _ _ _ Hi b psize c k Hos Hc) as [H5|H5]; [done|cbn in *..]; unfold disjoint_regions; cbn; lia.
Qed.

(** ** Cutting from a block *)

Lemma block_update_run (s : memory) p (f : ngx_pool_data_t -> ngx_pool_data_t) d :
  blocks s !! p = Some d -> update p f s = Some (tt, s <| blocks := <[p := f d]> (blocks s) |>).
Proof. exact (update_run p f d s). Qed.

Lemma block_at_run (s : memory) p d : blocks s !! p = Some d -> block_at p s = Some (d, s).
Proof. exact (load_run p d s). Qed.

Lemma large_update_run (s : memory) p (f : ngx_pool_large_t -> ngx_pool_large_t) d :
  larges s !! p = Some d -> update p f s = Some (tt, s <| larges := <[p := f d]> (larges s) |>).
Proof. exact (update_run p f d s). Qed.

Lemma large_at_run (s : memory) p d : larges s !! p = Some d -> large_at p s = Some (d, s).
Proof. exact (load_run p d s). Qed.

Lemma in_block_mono s s' bl bl' r :
  bl ⊆ bl' ->
  (forall b d, b ∈ bl -> blocks s !! b = Some d -> exists d', blocks s' !! b = Some d' /\ last d <= last d') ->
  in_block s bl r -> in_block s' bl' r.
Proof.
  intros Hsub Hm (b & d & Hb & Hd & H1 & H2). destruct (Hm b d Hb Hd) as (d' & Hd' & Hl).
  exists b, d'. split_and!; [by apply Hsub|done|done|lia].
Qed.

Lemma cut_inv os0 s bl ll cl given b d m n :
  inv os0 s bl ll cl given -> b ∈ bl -> blocks s !! b = Some d -> last d <= m -> m + n <= end_ d -> 0 <= n ->
  inv os0 (s <| blocks := <[b := d <| last := m + n |>]> (blocks s) |>) bl ll cl ((m, n) :: given).
Proof.
  intros Hi Hb Hd Hm He Hn. pose proof (inv_block _ _ _ _ _ _ Hi b d Hb Hd) as Hbd.
  assert (forall r, r ∈ given -> disjoint_regions (m, n) r) as Hdis.
  { intros r Hr. by apply (small_disjoint os0 s bl ll cl given b d). }
  set (s' := s <| blocks := _ |>).
  assert (forall r, in_block s bl r -> in_block s' bl r) as Hmono.
  { intros r. apply in_block_mono; [done|]. intros b' d' _ Hd'. cbn. destruct (decide (b = b')) as [<-|].
    - rewrite lookup_insert_eq. eexists. split; [done|]. cbn. assert (d' = d) as -> by congruence. lia.
    - exists d'. by rewrite lookup_insert_ne. }
  destruct Hi as [K1 K2 K3 K4 K5 K6 K7 K8 K9 K10 K11 [K12 K12'] K13 K14 K15 K16 K17 K18]. split; cbn; try done.
  - by eapply linked_insert.
  - intros b' d' Hb'. destruct (decide (b = b')) as [<-|Hne].
    + rewrite lookup_insert_eq. intros [= <-]. destruct Hbd as [? ? ? ? ?]. split; cbn; try done. lia.
    + rewrite lookup_insert_ne by done. intros Hd'. destruct (K4 b' d' Hb' Hd'). by split.
  - split; intros x Hx; (split; [apply elem_of_cons; right; naive_solver|apply Hmono; naive_solver]).
  - intros r [->|Hr]%elem_of_cons.
    + split; [done|]. left. exists b. eexists. cbn. rewrite lookup_insert_eq.
      split_and!; [done|done| |cbn; lia]. destruct Hbd. lia.
    + destruct (K13 r Hr) as [Hr0 [H1|H1]]; split; [done|left; auto|done|by right].
  - constructor; [done|]. by apply Forall_forall.
Qed.

(** The loop over the blocks finds a place in one of them, or none. *)
Lemma scan_run aligned os0 s bl ll cl given n fuel pre p suf :
  inv os0 s bl ll cl given -> bl = pre ++ p :: suf -> (length suf <= fuel)%nat -> 0 <= n < 2 ^ 63 ->
  palloc_scan fuel aligned p n s = Some (NULL, s) \/
  exists b d m, b ∈ bl /\ blocks s !! b = Some d /\ last d <= m /\ m + n <= end_ d /\ 0 < m /\
    (aligned = true -> m mod 8 = 0) /\
    palloc_scan fuel aligned p n s = Some (m, s <| blocks := <[b := d <| last := m + n |>]> (blocks s) |>).
Proof.
  intros Hi. revert pre p suf. induction fuel as [|fuel IH]; intros pre p suf Hbl Hf Hn;
    (assert (p ∈ bl) as Hp by (rewrite Hbl; set_solver));
    destruct (inv_block_at _ _ _ _ _ _ _ Hi Hp) as (d & Hd & Hok); cbn [palloc_scan];
    (erewrite mthen_run by (by apply block_at_run));
    destruct (linked_split _ _ _ pre (p :: suf) ltac:(rewrite <- Hbl; exact (inv_blocks _ _ _ _ _ _ Hi)))
      as (q & (-> & _ & d' & Hd' & Hsuf) & _); (assert (d' = d) as -> by congruence);
    set (m := if aligned then ngx_align_ptr (last d) NGX_ALIGNMENT else last d);
    destruct Hok as [Hpos Hal Hos Hend Hlast]; pose proof (header_range p) as Hh; destruct (inv_psize _ _ _ _ _ _ Hi) as [Hps Hps2];
    (assert (last d <= m <= end_ d) as Hm by
      (unfold m; destruct aligned; [|lia]; pose proof (align8_spec (last d)); split; [lia|];
       apply align8_le; [lia|]; rewrite Hend, Z.add_mod, Hal, Hps by lia; done));
    rewrite (wrap_small 64 (end_ d - m)) by lia;
    (destruct (Z.geb_spec (end_ d - m) n) as [Hfit|Hfit];
      [right; exists p, d, m; split_and!; [done|done|lia|lia|lia| |by erewrite mthen_run by (by apply block_update_run)];
       unfold m; intros ->; by apply align8_spec|]).
  - destruct suf as [|q suf]; [|cbn in Hf; lia]. cbn in Hsuf. rewrite Hsuf. by left.
  - destruct suf as [|q suf]; cbn in Hsuf; [rewrite Hsuf; by left|]. destruct Hsuf as (-> & Hq & _).
    rewrite (proj2 (Z.eqb_neq _ _) Hq). apply (IH (pre ++ [p]) _ suf); [by rewrite <- app_assoc|cbn in Hf; lia|done].
Qed.

(** ** A new block *)

Lemma give_inv os0 s bl ll cl given r :
  inv os0 s bl ll cl given -> placed s bl ll r -> (forall q, q ∈ given -> disjoint_regions r q) ->
  inv os0 s bl ll cl (r :: given).
Proof.
  intros [K1 K2 K3 K4 K5 K6 K7 K8 K9 K10 K11 [K12 K12'] K13 K14 K15 K16 K17 K18] Hp Hd. split; try done.
  - split; intros x Hx; (split; [apply elem_of_cons; right|]); naive_solver.
  - intros q [->|Hq]%elem_of_cons; auto.
  - constructor; [done|]. by apply Forall_forall.
Qed.

(** A chunk of the system that the pool does not use yet. *)
Lemma os_inv os0 s bl ll cl given p n :
  inv os0 s bl ll cl given -> os s !! p = None -> (forall c k, os s !! c = Some k -> disjoint_regions (p, n) (c, k)) ->
  inv (<[p := n]> os0) (s <| os := <[p := n]> (os s) |>) bl ll cl given.
Proof.
  intros Hi Hp Hdis. assert (p ∉ bl ++ allocs (larges s) ll) as Hnew.
  { intros [Hb|Ha]%elem_of_app.
    - destruct (inv_block_at _ _ _ _ _ _ _ Hi Hb) as (d & _ & Hok). destruct Hok. congruence.
    - destruct (inv_chunks _ _ _ _ _ _ Hi _ Ha) as (_ & k & Hk & _). congruence. }
  destruct Hi as [K1 K2 K3 K4 K5 K6 K7 K8 K9 K10 K11 K12 K13 K14 K15 K16 K17 K18].
  assert (forall c k, os s !! c = Some k -> <[p := n]> (os s) !! c = Some k) as Hos.
  { intros c k Hc. rewrite lookup_insert_ne; [done|congruence]. }
  split; cbn; try done.
  - intros b d Hb Hd. destruct (K4 b d Hb Hd). split; auto.
  - intros a Ha. destruct (K9 a Ha) as (? & k & Hk & ?). split; [done|]. exists k. auto.
  - intros r Hr. destruct (K13 r Hr) as [? [H|[? ?]]]; split; [done|by left|done|right; cbn; auto].
  - intros c k c' k'. rewrite !lookup_insert_Some. intros [[<- <-]|[Hne Hc]] [[<- <-]|[Hne' Hc']] Hcc; try done; auto.
    apply Hdis in Hc. unfold disjoint_regions in *. cbn in *. lia.
  - intros c. destruct (decide (c = p)) as [->|Hne].
    + by rewrite decide_False, !lookup_insert_eq.
    + rewrite !lookup_insert_ne by done. apply K18.
Qed.

(** The heads of the blocks may change in [failed]. *)
Definition refail (h h' : gmap loc ngx_pool_data_t) : Prop :=
  forall b d, h !! b = Some d -> exists k, h' !! b = Some (d <| failed := k |>).

Lemma refail_refl h : refail h h.
Proof. intros b d Hd. exists (failed d). by destruct d. Qed.

Lemma refail_insert h b d k : h !! b = Some d -> refail h (<[b := d <| failed := k |>]> h).
Proof.
  intros Hd b' d' Hd'. destruct (decide (b = b')) as [<-|Hne].
  - rewrite lookup_insert_eq. exists k. congruence.
  - rewrite lookup_insert_ne by done. by apply refail_refl.
Qed.

Lemma refail_trans h1 h2 h3 : refail h1 h2 -> refail h2 h3 -> refail h1 h3.
Proof. intros H1 H2 b d Hd. destruct (H1 b d Hd) as [k Hk]. destruct (H2 b _ Hk) as [k' Hk']. by exists k'. Qed.

Lemma refail_linked h h' p l : refail h h' -> linked h next p l -> linked h' next p l.
Proof. intros Hr. apply linked_ext. intros x a _ Ha. destruct (Hr x a Ha) as [k Hk]. by eexists. Qed.

Lemma blocks_inv os0 s bl ll cl given h' :
  inv os0 s bl ll cl given -> linked h' next pool bl ->
  (forall b d, b ∈ bl -> blocks s !! b = Some d -> exists d', h' !! b = Some d' /\ last d' = last d /\ end_ d' = end_ d) ->
  inv os0 (s <| blocks := h' |>) bl ll cl given.
Proof.
  intros Hi Hl Hr. assert (forall r, in_block s bl r -> in_block (s <| blocks := h' |>) bl r) as Hmono.
  { intros r. apply in_block_mono; [done|]. intros b d Hb Hd. destruct (Hr b d Hb Hd) as (d' & E & El & _).
    exists d'. split; [done|lia]. }
  pose proof (fun b => inv_block_at os0 s bl ll cl given b Hi) as Hat.
  destruct Hi as [K1 K2 K3 K4 K5 K6 K7 K8 K9 K10 K11 K12 K13 K14 K15 K16 K17 K18]. split; cbn; try done.
  - intros b d' Hb Hd'. destruct (Hat b Hb) as (d & Hd & [? ? ? ? ?]).
    destruct (Hr b d Hb Hd) as (d'' & E & El & Ee). assert (d'' = d') as -> by congruence. split; cbn; rewrite ?El, ?Ee; done.
  - destruct K12 as [K12 K12']. split; intros x Hx; (split; [|apply Hmono]); naive_solver.
  - intros r Hr'. destruct (K13 r Hr') as [? [H1|H1]]; split; [done|left; auto|done|by right].
Qed.

Lemma refail_inv os0 s bl ll cl given h' :
  inv os0 s bl ll cl given -> refail (blocks s) h' -> inv os0 (s <| blocks := h' |>) bl ll cl given.
Proof.
  intros Hi Hr. apply blocks_inv; [done|eapply refail_linked; [done|apply Hi]|].
  intros b d _ Hd. destruct (Hr b d Hd) as [k Hk]. eexists. split; [exact Hk|done].
Qed.

Lemma block_tail_run s l p suf fuel cur :
  linked (blocks s) next p (p :: suf) -> NoDup (p :: suf) -> (length suf <= fuel)%nat -> cur ∈ l -> suf ⊆ l ->
  exists q cur' h', block_tail fuel p cur s = Some ((q, cur'), s <| blocks := h' |>) /\
    refail (blocks s) h' /\ cur' ∈ l /\ list.last (p :: suf) = Some q.
Proof.
  revert s p suf cur. induction fuel as [|fuel IH]; intros s p suf cur (_ & Hp & d & Hd & Hl) Hnd Hf Hcur Hsub;
    cbn [block_tail]; (erewrite mthen_run by (by apply block_at_run));
    (destruct suf as [|q suf]; cbn in Hl;
      [rewrite Hl; exists p, cur, (blocks s); split_and!; [by destruct s|apply refail_refl|done|done]|]).
  { cbn in Hf. lia. }
  destruct Hl as (Eq & Hq & dq & Hdq & Hl). rewrite Eq, (proj2 (Z.eqb_neq _ _) Hq).
  erewrite mthen_run by (by apply block_update_run).
  set (s1 := s <| blocks := <[p := d <| failed := u64 (failed d + 1) |>]> (blocks s) |>).
  apply NoDup_cons in Hnd as [Hnp Hnd]. assert (q <> p) by set_solver.
  destruct (IH s1 q suf (if failed d >? 4 then q else cur)) as (q' & cur' & h' & E & Hr & Hc & Hlast).
  - cbn. split_and!; [done|done|]. exists dq. rewrite lookup_insert_ne by done. split; [done|].
    eapply linked_insert; [done|done|done].
  - done.
  - cbn in Hf. lia.
  - destruct (failed d >? 4); set_solver.
  - set_solver.
  - exists q', cur', h'. split_and!; [exact E| |done|done].
    eapply refail_trans; [|exact Hr]. by apply refail_insert.
Qed.

(** The last block gets a successor. *)
Lemma linked_snoc (h : gmap loc ngx_pool_data_t) p l q dq x dx :
  linked h next p l -> NoDup l -> list.last l = Some q -> h !! q = Some dq -> x <> NULL -> x ∉ l ->
  h !! x = Some dx -> next dx = NULL -> linked (<[q := dq <| next := x |>]> h) next p (l ++ [x]).
Proof.
  revert p. induction l as [|y l IH]; intros p Hl Hnd Hlast Hq Hx Hxl Hdx Hn; [done|].
  destruct Hl as (-> & Hy & d & Hd & Hl). apply NoDup_cons in Hnd as [Hny Hnd]. cbn [app linked].
  split_and!; [done|done|]. destruct l as [|z l].
  - cbn in Hlast. injection Hlast as ->. exists (dq <| next := x |>). rewrite lookup_insert_eq. split; [done|].
    cbn. split_and!; [done|done|]. exists dx. rewrite lookup_insert_ne by set_solver. done.
  - change (list.last (y :: z :: l)) with (list.last (z :: l)) in Hlast.
    assert (q ∈ z :: l) as Hq' by (by apply list.last_Some_elem_of).
    exists d. rewrite lookup_insert_ne by set_solver. split; [done|]. apply IH; try done. set_solver.
Qed.

(** What an allocation of a small region leaves alone. *)
Record same_lists (s s' : memory) : Prop := mk_same {
  same_larges : larges s' = larges s;
  same_cleanups : cleanups s' = cleanups s;
  same_large : large (pool_ s') = large (pool_ s);
  same_cleanup : cleanup (pool_ s') = cleanup (pool_ s);
  same_ran : ran s' = ran s;
}.

(** The new block is hung behind the last one. *)
Lemma link_inv os0 s bl ll cl given q dq x dx :
  inv os0 s bl ll cl given -> list.last bl = Some q -> blocks s !! q = Some dq ->
  blocks s !! x = Some dx -> next dx = NULL -> block_ok s x dx -> x ∉ bl -> x ∉ allocs (larges s) ll ->
  inv (delete x os0) (s <| blocks := <[q := dq <| next := x |>]> (blocks s) |>) (bl ++ [x]) ll cl given.
Proof.
  intros Hi Hlast Hq Hdx Hn Hok Hx Ha.
  assert (q ∈ bl) as Hqin by (by apply list.last_Some_elem_of).
  assert (forall b d, blocks s !! b = Some d -> exists d', <[q := dq <| next := x |>]> (blocks s) !! b = Some d' /\
    last d' = last d /\ end_ d' = end_ d) as Hb'.
  { intros b d Hd. destruct (decide (q = b)) as [<-|].
    - eexists. rewrite lookup_insert_eq. split; [done|]. assert (d = dq) as -> by congruence. done.
    - exists d. by rewrite lookup_insert_ne. }
  assert (forall r, in_block s bl r -> in_block (s <| blocks := <[q := dq <| next := x |>]> (blocks s) |>) (bl ++ [x]) r) as Hmono.
  { intros r. apply in_block_mono; [set_solver|]. intros b d _ Hd. destruct (Hb' b d Hd) as (d' & ? & ? & _).
    exists d'. split; [done|lia]. }
  pose proof (fun b => inv_block_at _ _ _ _ _ _ b Hi) as Hat.
  destruct Hi as [K1 K2 K3 K4 K5 K6 K7 K8 K9 K10 K11 [K12 K12'] K13 K14 K15 K16 K17 K18]. split; cbn; try done.
  - by destruct bl.
  - eapply linked_snoc; [done|done|done|done| |done|done|done]. destruct Hok. unfold NULL. lia.
  - apply NoDup_app. split_and!; [done| |apply NoDup_singleton]. intros y Hy ->%list_elem_of_singleton. done.
  - intros b d' Hb Hd'. assert (exists d, blocks s !! b = Some d /\ block_ok s b d) as (d & Hd & [? ? ? ? ?]).
    { apply elem_of_app in Hb as [Hb| ->%list_elem_of_singleton]; [auto|by exists dx]. }
    destruct (Hb' b d Hd) as (d'' & E & El & Ee). assert (d'' = d') as -> by congruence. split; cbn; rewrite ?El, ?Ee; done.
  - set_solver.
  - intros a Ha'. destruct (K9 a Ha') as [? ?]. split; [|done]. intros [|E%list_elem_of_singleton]%elem_of_app; congruence.
  - split; intros y Hy; (split; [|apply Hmono]); naive_solver.
  - intros r Hr. destruct (K13 r Hr) as [? [H1|H1]]; split; [done|left; auto|done|by right].
  - intros c. destruct (decide (c = x)) as [->|Hne].
    + rewrite lookup_delete_eq, decide_True; [done|]. set_solver.
    + rewrite lookup_delete_ne, K18 by done. repeat case_decide; set_solver.
Qed.

Lemma current_inv os0 s bl ll cl given c :
  inv os0 s bl ll cl given -> c ∈ bl -> inv os0 (s <| pool_ := (pool_ s) <| current := c |> |>) bl ll cl given.
Proof.
  intros [K1 K2 K3 K4 K5 K6 K7 K8 K9 K10 K11 K12 K13 K14 K15 K16 K17 K18] Hc. split; cbn in *; try done.
  intros b d Hb Hd. destruct (K4 b d Hb Hd). by split.
Qed.

Lemma append_run os0 s bl ll cl given x dx :
  inv os0 s bl ll cl given -> blocks s !! x = Some dx -> next dx = NULL -> block_ok s x dx ->
  x ∉ bl -> x ∉ allocs (larges s) ll ->
  exists s' k, append_block x s = Some (tt, s') /\ inv (delete x os0) s' (bl ++ [x]) ll cl given /\
    same_lists s s' /\ os s' = os s /\ max (pool_ s') = max (pool_ s) /\ blocks s' !! x = Some (dx <| failed := k |>).
Proof.
  intros Hi Hdx Hn [? ? ? ? ?] Hxbl Hxa. unfold append_block, pool_get, pool_set.
  erewrite mthen_run by reflexivity. erewrite mthen_run by reflexivity.
  pose proof (inv_current _ _ _ _ _ _ Hi) as Hcur. set (cur := current (pool_ s)) in *.
  pose proof (inv_blocks _ _ _ _ _ _ Hi) as Hlk. pose proof (inv_nodup _ _ _ _ _ _ Hi) as Hnd.
  apply list_elem_of_split in Hcur as (pre & suf & Hbl). rewrite Hbl in Hlk, Hnd.
  apply NoDup_app in Hnd as (_ & _ & Hnd). destruct (linked_split _ _ _ _ _ Hlk) as (q0 & Hlk' & ->). cbn [head default] in Hlk'.
  destruct (block_tail_run s bl cur suf (size (blocks s)) cur Hlk' Hnd) as (q & cur' & h' & E1 & Hre & Hcur' & Hlq).
  { pose proof (linked_size _ _ _ _ Hlk' Hnd). cbn in *. lia. }
  { rewrite Hbl. apply elem_of_app. right. apply elem_of_cons. by left. }
  { rewrite Hbl. intros y Hy. apply elem_of_app. right. apply elem_of_cons. by right. }
  erewrite mthen_run by exact E1.
  pose proof (refail_inv _ _ _ _ _ _ h' Hi Hre) as Hi1. set (s1 := s <| blocks := h' |>) in *.
  assert (list.last bl = Some q) as Hlastq. { rewrite Hbl, last_app. by rewrite Hlq. }
  assert (q ∈ bl) as Hqin by (by apply list.last_Some_elem_of).
  destruct (inv_block_at _ _ _ _ _ _ _ Hi1 Hqin) as (dq & Hdq & _). destruct (Hre x dx Hdx) as [k Hdx1].
  erewrite mthen_run by (apply block_update_run; exact Hdq).
  assert (block_ok s1 x (dx <| failed := k |>)) as Hok by (by split).
  pose proof (link_inv _ _ _ _ _ _ q dq x _ Hi1 Hlastq Hdq Hdx1 Hn Hok Hxbl Hxa) as Hi2.
  assert ((cur' =? NULL) = false) as ->.
  { destruct (inv_block_at _ _ _ _ _ _ _ Hi Hcur') as (? & _ & Hok'). destruct Hok'. apply Z.eqb_neq. unfold NULL. lia. }
  eexists _, k. split; [reflexivity|]. cbn [negb]. split; [apply (current_inv _ _ _ _ _ _ cur' Hi2), elem_of_app; by left|].
  split_and!; try done. cbn. rewrite lookup_insert_ne by congruence. done.
Qed.

(** What a successful small allocation of [n] bytes at [m] does. *)
Definition allocated os0 (s s' : memory) (bl ll cl : list loc) given (m n : Z) : Prop :=
  0 < m /\ same_lists s s' /\ os s ⊆ os s' /\ max (pool_ s') = max (pool_ s) /\
  exists bl', (forall b, b ∈ bl' -> b ∈ bl \/ os s !! b = None) /\
    inv os0 s' bl' ll cl ((m, n) :: given) /\ in_block s' bl' (m, n).

Lemma palloc_block_run os0 s bl ll cl given n :
  inv os0 s bl ll cl given -> 0 <= n <= max (pool_ s) ->
  exists m s', ngx_palloc_block memalign pool n s = Some (m, s') /\
    ((m = NULL /\ s' = s) \/ m mod 8 = 0 /\ allocated os0 s s' bl ll cl given m n).
Proof.
  intros Hi Hn. assert (pool ∈ bl) as Hpool.
  { pose proof (inv_head _ _ _ _ _ _ Hi) as H. destruct bl; [done|]. cbn in H. injection H as ->. apply elem_of_cons. by left. }
  destruct (inv_block_at _ _ _ _ _ _ _ Hi Hpool) as (d & Hd & [Hpos Hal Hos Hend Hlast]).
  unfold ngx_palloc_block. erewrite mthen_run by (by apply block_at_run).
  replace (end_ d - pool) with psize by lia. cbn zeta.
  destruct (memalign_spec NGX_POOL_ALIGNMENT psize (os s)) as [E|(Hx & Hxal & Hxnew & Hxdis)].
  { exists NULL, s. split; [|by left]. unfold ngx_memalign. erewrite mthen_run by (rewrite E; reflexivity). done. }
  set (x := memalign NGX_POOL_ALIGNMENT psize (os s)) in *.
  assert ((x =? NULL) = false) as Ex by (apply Z.eqb_neq; unfold NULL; lia).
  erewrite mthen_run by (unfold ngx_memalign; fold x; rewrite Ex; reflexivity). rewrite Ex.
  assert (x ∉ bl) as Hxbl. { intros Hb. destruct (inv_block_at _ _ _ _ _ _ _ Hi Hb) as (? & _ & Hok). destruct Hok. congruence. }
  assert (x ∉ allocs (larges s) ll) as Hxa. { intros Ha. destruct (inv_chunks _ _ _ _ _ _ Hi _ Ha) as (_ & ? & ? & _). congruence. }
  pose proof (os_inv _ _ _ _ _ _ x psize Hi Hxnew Hxdis) as Hi1.
  set (s1 := s <| os := <[x := psize]> (os s) |>) in *.
  set (m := ngx_align_ptr (x + sizeof_data) NGX_ALIGNMENT).
  pose proof (align8_spec (x + sizeof_data)) as [Hm Hmal]. fold m in Hm, Hmal. set (dx := mk_data (m + n) (x + psize) NULL 0).
  pose proof (inv_max _ _ _ _ _ _ Hi) as Hmax. unfold sizeof_pool, sizeof_cleanup, sizeof_data in Hm, Hmax.
  unfold new_block. erewrite mthen_run by reflexivity. set (s2 := s1 <| blocks := <[x := dx]> (blocks s1) |>).
  assert (inv (<[x := psize]> os0) s2 bl ll cl given) as Hi2.
  { apply blocks_inv; [done|apply linked_fresh; [apply Hi1|done]|].
    intros b d' Hb Hd'. exists d'. rewrite lookup_insert_ne by congruence. done. }
  assert (header x = 32) as Hhx by (unfold header; rewrite decide_False by congruence; done).
  destruct (append_run _ s2 bl ll cl given x dx Hi2) as (s' & k & E1 & Hi3 & Hsame & Eos & Emax & Hdx); try done.
  { apply lookup_insert_eq. }
  { split; cbn; rewrite ?Hhx; [done| |by rewrite lookup_insert_eq|done|lia].
    unfold NGX_POOL_ALIGNMENT in Hxal. Z.to_euclidean_division_equations; lia. }
  rewrite delete_insert_id in Hi3.
  2: { rewrite (inv_foreign _ _ _ _ _ _ Hi), decide_False; [done|]. by intros [?|?]%elem_of_app. }
  erewrite mthen_run by exact E1. exists m, s'. split; [done|]. right. split; [done|].
  assert (in_block s' (bl ++ [x]) (m, n)) as Hin.
  { exists x, (dx <| failed := k |>). split_and!; [|done|cbn; lia|cbn; lia].
    apply elem_of_app. right. by apply list_elem_of_singleton. }
  split_and!; [lia|by destruct Hsame; split|rewrite Eos; by apply insert_subseteq|done|].
  exists (bl ++ [x]). split_and!; [intros b [Hb| ->%list_elem_of_singleton]%elem_of_app; auto| |done].
  apply give_inv; [done|split; [cbn; lia|by left]|].
  intros r Hr. destruct (placed_chunk _ _ _ _ _ _ _ Hi Hr) as (c & k' & Hc & H1 & H2 & _).
  specialize (Hxdis c k' Hc). unfold disjoint_regions in *. cbn in *. lia.
Qed.

(** [ngx_palloc] and [ngx_pnalloc] of what fits into a block. *)
Lemma palloc_small_run os0 s bl ll cl given (aligned : bool) n :
  inv os0 s bl ll cl given -> 0 <= n <= max (pool_ s) ->
  exists m s', palloc_small memalign pool aligned n s = Some (m, s') /\
    ((m = NULL /\ s' = s) \/ (aligned = true -> m mod 8 = 0) /\ allocated os0 s s' bl ll cl given m n).
Proof.
  intros Hi Hn. unfold palloc_small, pool_get. erewrite mthen_run by reflexivity. erewrite mthen_run by reflexivity.
  pose proof (inv_current _ _ _ _ _ _ Hi) as Hcur. apply list_elem_of_split in Hcur as (pre & suf & Hbl).
  assert (length suf <= size (blocks s))%nat as Hfuel.
  { pose proof (linked_size _ _ _ _ (inv_blocks _ _ _ _ _ _ Hi) (inv_nodup _ _ _ _ _ _ Hi)) as H.
    rewrite Hbl, length_app in H. cbn in H. lia. }
  pose proof (inv_max _ _ _ _ _ _ Hi) as Hmax. pose proof (inv_psize _ _ _ _ _ _ Hi) as [_ Hps]. unfold sizeof_pool in Hmax.
  destruct (scan_run aligned _ _ _ _ _ _ n (size (blocks s)) pre (current (pool_ s)) suf Hi Hbl Hfuel)
    as [E|(b & d & m & Hb & Hd & H1 & H2 & H3 & Hal & E)]; [lia| |].
  - erewrite mthen_run by exact E. change (NULL =? NULL) with true. cbn iota.
    destruct (palloc_block_run _ _ _ _ _ _ n Hi Hn) as (m & s' & E1 & Hcase). exists m, s'. split; [done|].
    destruct Hcase as [?|[? ?]]; auto.
  - erewrite mthen_run by exact E. rewrite (proj2 (Z.eqb_neq m NULL)) by (unfold NULL; lia).
    eexists m, _. split; [reflexivity|]. right. split; [done|]. split_and!; [done|done|done|done|].
    exists bl. split_and!; [auto|apply cut_inv; (done || lia)|]. destruct (inv_block _ _ _ _ _ _ Hi b d Hb Hd).
    eexists b, _. cbn. rewrite lookup_insert_eq. split_and!; [done|done|lia|cbn; lia].
Qed.

(** ** Large allocations *)

(** A chunk of the system becomes a large allocation of the pool. *)
Lemma adopt_inv os0 s bl ll cl given p n h' lp ll' :
  inv os0 s bl ll cl given -> os0 !! p = Some n -> 0 <= n ->
  linked h' l_next lp ll' -> NoDup ll' -> allocs h' ll' ≡ₚ p :: allocs (larges s) ll ->
  (forall x, x ∈ ll' -> (x, sizeof_large) ∈ given /\ in_block s bl (x, sizeof_large)) ->
  inv (delete p os0) (s <| larges := h' |> <| pool_ := (pool_ s) <| large := lp |> |>) bl ll' cl ((p, n) :: given).
Proof.
  intros Hi Hp Hn Hlk Hnd Hal Hrec. pose proof (fun r => placed_chunk _ _ _ _ _ _ r Hi) as Hpl.
  destruct Hi as [K1 K2 K3 K4 K5 K6 K7 K8 K9 K10 K11 [K12 K12'] K13 K14 K15 K16 K17 K18].
  rewrite K18 in Hp. case_decide as Hown; [done|].
  assert ((p ∉ bl) /\ (p ∉ allocs (larges s) ll)) as [Hpb Hpa] by (rewrite elem_of_app in Hown; tauto).
  split; cbn; try done.
  - intros b d Hb Hd. destruct (K4 b d Hb Hd). by split.
  - rewrite Hal. by constructor.
  - intros a. rewrite Hal. intros [->|Ha]%elem_of_cons; [split; [done|by exists n]|by apply K9].
  - split; intros x Hx; (split; [apply elem_of_cons; right|]); naive_solver.
  - intros r [->|Hr]%elem_of_cons.
    + split; [done|]. right. cbn. rewrite Hal. split; [apply elem_of_cons; by left|done].
    + destruct (K13 r Hr) as [? [?|[? ?]]]; split; [done|by left|done|right].
      cbn. rewrite Hal. split; [apply elem_of_cons; by right|done].
  - constructor; [done|]. apply Forall_forall. intros r Hr.
    destruct (Hpl r Hr) as (c & k & Hc & H1 & H2 & Hcase). assert (c <> p) as Hne by (destruct Hcase; congruence).
    destruct (K15 c k p n Hc Hp Hne) as [H|H]; cbn in H; unfold disjoint_regions; cbn; lia.
  - intros c. destruct (decide (c = p)) as [->|Hne].
    + rewrite lookup_delete_eq, decide_True; [done|]. rewrite Hal. apply elem_of_app. right. apply elem_of_cons. by left.
    + rewrite lookup_delete_ne, K18 by done. apply decide_ext. rewrite Hal, !elem_of_app, elem_of_cons. naive_solver.
Qed.

Lemma allocs_cons h l ll r : h !! l = Some r -> allocs h (l :: ll) = live (alloc r) ++ allocs h ll.
Proof. cbn. by intros ->. Qed.

Lemma allocs_ext h h' ll : (forall x, x ∈ ll -> h' !! x = h !! x) -> allocs h' ll = allocs h ll.
Proof.
  intros He. induction ll as [|x ll IH]; [done|]. cbn. rewrite He by (apply elem_of_cons; by left).
  rewrite IH; [done|]. intros y Hy. apply He, elem_of_cons. by right.
Qed.

(** The [alloc] of one record changed. *)
Lemma allocs_insert h ll x r p :
  NoDup ll -> x ∈ ll -> h !! x = Some r ->
  live (alloc r) ++ allocs (<[x := r <| alloc := p |>]> h) ll ≡ₚ live p ++ allocs h ll.
Proof.
  induction ll as [|y ll IH]; intros Hnd Hx Hr; [by apply not_elem_of_nil in Hx|].
  apply NoDup_cons in Hnd as [Hy Hnd]. destruct (decide (x = y)) as [<-|Hne].
  - rewrite (allocs_cons _ _ _ r Hr), (allocs_cons _ _ _ (r <| alloc := p |>)) by apply lookup_insert_eq.
    rewrite (allocs_ext h (<[x := _]> h)).
    + cbn. rewrite !app_assoc. apply Permutation_app_tail, Permutation_app_comm.
    + intros z Hz. apply lookup_insert_ne. congruence.
  - apply elem_of_cons in Hx as [->|Hx]; [done|]. specialize (IH Hnd Hx Hr).
    cbn. rewrite lookup_insert_ne by done. set (a := match h !! y with Some _ => _ | None => _ end).
    rewrite !app_assoc, !(Permutation_app_comm _ a), <- !app_assoc. by apply Permutation_app_head.
Qed.

Lemma live_null p : p = NULL -> live p = [].
Proof. by intros ->. Qed.

Lemma live_some p : p <> NULL -> live p = [p].
Proof. intros H. unfold live. by rewrite (proj2 (Z.eqb_neq _ _) H). Qed.

Lemma reuse_run os0 s bl ll cl given p n fuel k pre l suf :
  inv os0 s bl ll cl given -> os0 !! p = Some n -> 0 <= n -> p <> NULL ->
  ll = pre ++ suf -> linked (larges s) l_next l suf -> (length suf <= fuel)%nat ->
  exists used s', reuse_large fuel k l p s = Some (used, s') /\
    if used : bool then inv (delete p os0) s' bl ll cl ((p, n) :: given) /\ max (pool_ s') = max (pool_ s) /\ os s' = os s else s' = s.
Proof.
  intros Hi Hp Hn Hpn. revert k pre l suf. induction fuel as [|fuel IH]; intros k pre l suf Hll Hlk Hf;
    (destruct suf as [|x suf]; cbn [reuse_large];
      [cbn in Hlk; rewrite Hlk; change (NULL =? NULL) with true; by exists false, s|]).
  { cbn in Hf. lia. }
  destruct Hlk as (-> & Hx & r & Hr & Hlk). rewrite (proj2 (Z.eqb_neq _ _) Hx).
  erewrite mthen_run by (by apply large_at_run).
  assert (x ∈ ll) as Hxl by (rewrite Hll; apply elem_of_app; right; apply elem_of_cons; by left).
  destruct (Z.eqb_spec (alloc r) NULL) as [Ea|Ea].
  - erewrite mthen_run by (by apply large_update_run). eexists true, _. split; [reflexivity|]. split; [|done].
    pose proof (allocs_insert _ _ _ _ p (inv_lnodup _ _ _ _ _ _ Hi) Hxl Hr) as Hal.
    rewrite live_null, live_some in Hal by done. cbn [app] in Hal.
    pose proof (adopt_inv _ _ _ _ _ _ p n (<[x := r <| alloc := p |>]> (larges s)) (large (pool_ s)) ll Hi Hp Hn) as Hres.
    destruct s as [[mx cu lg cn] h1 h2 h3 h4 h5]. apply Hres; clear Hres.
    + by eapply linked_insert; [apply Hi| |].
    + apply Hi.
    + done.
    + intros y Hy. by apply (proj1 (inv_records _ _ _ _ _ _ Hi)).
  - destruct (k >? 3); [by exists false, s|]. apply (IH _ (pre ++ [x]) _ suf); [by rewrite <- app_assoc|done|cbn in Hf; lia].
Qed.

(** What [ngx_palloc] does of a small size, as its callers use it. *)
Lemma add_large_run os0 s bl ll cl given p n palloc :
  inv os0 s bl ll cl given -> os0 !! p = Some n -> 0 <= n -> p <> NULL ->
  (exists m s', palloc sizeof_large s = Some (m, s') /\
    ((m = NULL /\ s' = s) \/ allocated os0 s s' bl ll cl given m sizeof_large)) ->
  exists r s', add_large palloc p s = Some (r, s') /\
    ((r = NULL /\ s' = s <| os := delete p (os s) |>) \/
     r = p /\ max (pool_ s') = max (pool_ s) /\ os s ⊆ os s' /\ exists bl' l, inv (delete p os0) s' bl' (l :: ll) cl ((p, n) :: (l, sizeof_large) :: given)).
Proof.
  intros Hi Hp Hn Hpn (m & s1 & E1 & Hcase). unfold add_large. erewrite mthen_run by exact E1.
  assert (os s !! p = Some n) as Hos. { pose proof (inv_foreign _ _ _ _ _ _ Hi p) as H. rewrite Hp in H. by case_decide. }
  destruct Hcase as [[-> ->]|(Hm & [Sl Sc Sa Sb Sr] & Hsub & Emax & bl' & _ & Hi1 & Hin)].
  { change (NULL =? NULL) with true. cbn iota. unfold ngx_free.
    erewrite mthen_run by (rewrite (proj2 (Z.eqb_neq _ _) Hpn), Hos; reflexivity). exists NULL. eexists. split; [reflexivity|]. by left. }
  rewrite (proj2 (Z.eqb_neq m NULL)) by (unfold NULL; lia).
  unfold pool_get, pool_set, new_large. do 3 (erewrite mthen_run by reflexivity).
  eexists p, _. split; [reflexivity|]. right. do 3 (split; [done|]). exists bl', m.
  assert (m ∉ ll) as Hmll.
  { intros Hx. apply (proj1 (inv_records _ _ _ _ _ _ Hi)) in Hx as [Hx _].
    pose proof (inv_disjoint _ _ _ _ _ _ Hi1) as H. apply StronglySorted_inv in H as [_ H].
    rewrite Forall_forall in H. destruct (H _ Hx) as [H2|H2]; cbn in H2; unfold sizeof_large in H2; lia. }
  refine (adopt_inv os0 s1 bl' ll cl _ p n (<[m := mk_large (large (pool_ s1)) p]> (larges s1)) m (m :: ll) Hi1 Hp Hn _ _ _ _).
  - split_and!; [done|unfold NULL; lia|]. eexists. rewrite lookup_insert_eq. split; [done|].
    cbn. rewrite Sl, Sa. apply linked_fresh; [apply Hi|done].
  - constructor; [done|apply Hi].
  - rewrite (allocs_cons _ _ _ (mk_large (large (pool_ s1)) p)) by apply lookup_insert_eq.
    cbn [alloc]. rewrite live_some by done. cbn [app]. rewrite (allocs_ext (larges s1)); [done|].
    intros y Hy. apply lookup_insert_ne. congruence.
  - intros y [->|Hy]%elem_of_cons; [split; [apply elem_of_cons; by left|done]|].
    by apply (proj1 (inv_records _ _ _ _ _ _ Hi1)).
Qed.

(** ** The allocation functions *)

(** What a caller of an allocation function sees: nothing changed, or a region
    that was not handed out before; [own] are the records the pool made. *)
Definition outcome os0 (s : memory) (bl ll cl : list loc) given (m n : Z) (s' : memory) : Prop :=
  (m = NULL /\ s' = s) \/
  (0 < m /\ max (pool_ s') = max (pool_ s) /\ os s ⊆ os s' /\ exists bl' ll' own, inv os0 s' bl' ll' cl ((m, n) :: own ++ given)).

Lemma allocated_outcome os0 s s' bl ll cl given m n :
  allocated os0 s s' bl ll cl given m n -> outcome os0 s bl ll cl given m n s'.
Proof. intros (Hm & _ & Hos & Emax & bl' & _ & Hi & _). right. split_and!; [done|done|done|]. by exists bl', ll, []. Qed.

Lemma memalign_run os0 s bl ll cl given alignment n :
  inv os0 s bl ll cl given ->
  let p := memalign alignment n (os s) in
  (p = NULL /\ ngx_memalign memalign alignment n s = Some (NULL, s)) \/
  (0 < p /\ p mod alignment = 0 /\ ngx_memalign memalign alignment n s = Some (p, s <| os := <[p := n]> (os s) |>) /\
   os s !! p = None /\ os0 !! p = None /\
   inv (<[p := n]> os0) (s <| os := <[p := n]> (os s) |>) bl ll cl given).
Proof.
  intros Hi. cbn zeta. unfold ngx_memalign.
  destruct (memalign_spec alignment n (os s)) as [E|(Hp & Hal & Hnew & Hdis)];
    set (p := memalign alignment n (os s)) in *.
  { left. split; [done|]. by rewrite E. }
  right. rewrite (proj2 (Z.eqb_neq p NULL)) by (unfold NULL; lia). split_and!; try done.
  - rewrite (inv_foreign _ _ _ _ _ _ Hi). by case_decide.
  - by apply os_inv.
Qed.

Lemma undo_os s p n : os s !! p = None -> (s <| os := <[p := n]> (os s) |>) <| os := delete p (<[p := n]> (os s)) |> = s.
Proof. destruct s. cbn. intros H. unfold set_field. cbn. by rewrite delete_insert_id. Qed.

Lemma palloc_0_run os0 s bl ll cl given n :
  inv os0 s bl ll cl given -> 0 <= n <= max (pool_ s) ->
  exists m s', palloc_rec memalign pool 0 n s = Some (m, s') /\
    ((m = NULL /\ s' = s) \/ m mod 8 = 0 /\ allocated os0 s s' bl ll cl given m n).
Proof.
  intros Hi Hn. cbn [palloc_rec]. unfold pool_get. erewrite mthen_run by reflexivity.
  rewrite (proj2 (Z.leb_le _ _)) by lia.
  destruct (palloc_small_run _ _ _ _ _ _ true n Hi Hn) as (m & s' & E & [?|[? ?]]); exists m, s'; auto.
Qed.

Lemma palloc_large_run os0 s bl ll cl given n palloc :
  inv os0 s bl ll cl given -> 0 <= n ->
  (forall os1 s1, inv os1 s1 bl ll cl given -> max (pool_ s1) = max (pool_ s) ->
    exists m s', palloc sizeof_large s1 = Some (m, s') /\
      ((m = NULL /\ s' = s1) \/ allocated os1 s1 s' bl ll cl given m sizeof_large)) ->
  exists m s', ngx_palloc_large memalign palloc n s = Some (m, s') /\ outcome os0 s bl ll cl given m n s'.
Proof.
  intros Hi Hn Hpal. unfold ngx_palloc_large, ngx_alloc.
  destruct (memalign_run _ _ _ _ _ _ 1 n Hi) as [[_ E]|(Hp & _ & E & Hnew & Hnew0 & Hi1)].
  { erewrite mthen_run by exact E. change (NULL =? NULL) with true. exists NULL, s. split; [done|by left]. }
  erewrite mthen_run by exact E. set (p := memalign 1 n (os s)) in *. set (s1 := s <| os := _ |>) in *.
  assert (p <> NULL) as Hpn by (unfold NULL; lia). rewrite (proj2 (Z.eqb_neq _ _) Hpn).
  unfold pool_get. do 2 (erewrite mthen_run by reflexivity).
  assert (<[p := n]> os0 !! p = Some n) as Hp0 by apply lookup_insert_eq.
  destruct (reuse_run _ _ _ _ _ _ p n (size (larges s1)) 0 [] (large (pool_ s1)) ll Hi1 Hp0 Hn Hpn eq_refl
    (inv_larges _ _ _ _ _ _ Hi1)) as (used & s2 & E2 & Hcase).
  { apply (linked_size _ l_next (large (pool_ s1))); apply Hi1. }
  erewrite mthen_run by exact E2. destruct used.
  - destruct Hcase as (Hi2 & Emax & Eos). rewrite delete_insert_id in Hi2 by done. exists p, s2. split; [done|].
    right. split_and!; [done|done|rewrite Eos; by apply insert_subseteq|]. by exists bl, ll, [].
  - subst s2. destruct (add_large_run _ _ _ _ _ _ p n palloc Hi1 Hp0 Hn Hpn) as (r & s' & E3 & Hcase'); [by apply Hpal|].
    exists r, s'. split; [exact E3|]. destruct Hcase' as [[-> ->]|(-> & Emax & Hsub & bl' & l & Hi2)].
    + left. split; [done|]. by apply undo_os.
    + right. rewrite delete_insert_id in Hi2 by done. split_and!; [done|done|etrans; [by apply (insert_subseteq _ p n)|done]|]. by exists bl', (l :: ll), [(l, sizeof_large)].
Qed.

Lemma palloc_records os1 s1 bl ll cl given fuel :
  inv os1 s1 bl ll cl given ->
  exists m s', palloc_rec memalign pool fuel sizeof_large s1 = Some (m, s') /\
    ((m = NULL /\ s' = s1) \/ allocated os1 s1 s' bl ll cl given m sizeof_large).
Proof.
  intros Hi. pose proof (inv_max _ _ _ _ _ _ Hi) as Hmax. unfold sizeof_cleanup in Hmax.
  destruct (palloc_0_run _ _ _ _ _ _ sizeof_large Hi) as (m & s' & E & Hcase); [unfold sizeof_large; lia|].
  exists m, s'. split; [|destruct Hcase as [?|[_ ?]]; auto].
  destruct fuel; [exact E|]. cbn [palloc_rec] in *. unfold pool_get in *.
  erewrite mthen_run in E by reflexivity. erewrite mthen_run by reflexivity.
  rewrite (proj2 (Z.leb_le _ _)) in * by (unfold sizeof_large; lia). exact E.
Qed.

Lemma palloc_run os0 s bl ll cl given n :
  inv os0 s bl ll cl given -> 0 <= n ->
  exists m s', ngx_palloc memalign pool n s = Some (m, s') /\ outcome os0 s bl ll cl given m n s' /\
    (n <= max (pool_ s) -> m mod 8 = 0).
Proof.
  intros Hi Hn. unfold ngx_palloc. cbn [palloc_rec]. unfold pool_get. erewrite mthen_run by reflexivity.
  destruct (Z.leb_spec n (max (pool_ s))) as [Hle|Hgt].
  - destruct (palloc_small_run _ _ _ _ _ _ true n Hi) as (m & s' & E & Hcase); [lia|]. exists m, s'. split; [done|].
    destruct Hcase as [[-> ->]|[Hal Hal']]; [split; [by left|done]|]. split; [by apply allocated_outcome|auto].
  - destruct (palloc_large_run _ _ _ _ _ _ n (palloc_rec memalign pool 0) Hi Hn) as (m & s' & E & Hcase).
    { intros os1 s1 Hi1 _. by apply palloc_records. }
    exists m, s'. split_and!; [done|done|lia].
Qed.

Lemma pnalloc_run os0 s bl ll cl given n :
  inv os0 s bl ll cl given -> 0 <= n ->
  exists m s', ngx_pnalloc memalign pool n s = Some (m, s') /\ outcome os0 s bl ll cl given m n s'.
Proof.
  intros Hi Hn. unfold ngx_pnalloc, pool_get. erewrite mthen_run by reflexivity.
  destruct (Z.leb_spec n (max (pool_ s))) as [Hle|Hgt].
  - destruct (palloc_small_run _ _ _ _ _ _ false n Hi) as (m & s' & E & Hcase); [lia|]. exists m, s'. split; [done|].
    destruct Hcase as [?|[_ ?]]; [by left|by apply allocated_outcome].
  - apply palloc_large_run; [done|done|]. intros os1 s1 Hi1 _. by apply palloc_records.
Qed.

Lemma pmemalign_run os0 s bl ll cl given n alignment :
  inv os0 s bl ll cl given -> 0 <= n ->
  exists m s', ngx_pmemalign memalign pool n alignment s = Some (m, s') /\ outcome os0 s bl ll cl given m n s' /\
    (m <> NULL -> m mod alignment = 0).
Proof.
  intros Hi Hn. unfold ngx_pmemalign.
  destruct (memalign_run _ _ _ _ _ _ alignment n Hi) as [[_ E]|(Hp & Hal & E & Hnew & Hnew0 & Hi1)].
  { erewrite mthen_run by exact E. change (NULL =? NULL) with true. exists NULL, s. split_and!; [done|by left|done]. }
  erewrite mthen_run by exact E. set (p := memalign alignment n (os s)) in *. set (s1 := s <| os := _ |>) in *.
  assert (p <> NULL) as Hpn by (unfold NULL; lia). rewrite (proj2 (Z.eqb_neq _ _) Hpn).
  assert (<[p := n]> os0 !! p = Some n) as Hp0 by apply lookup_insert_eq.
  destruct (add_large_run _ _ _ _ _ _ p n (ngx_palloc memalign pool) Hi1 Hp0 Hn Hpn (palloc_records _ _ _ _ _ _ _ Hi1))
    as (r & s' & E3 & Hcase').
  exists r, s'. split; [exact E3|]. destruct Hcase' as [[-> ->]|(-> & Emax & Hsub & bl' & l & Hi2)].
  + split; [|done]. left. split; [done|]. by apply undo_os.
  + split; [|done]. right. rewrite delete_insert_id in Hi2 by done. split_and!; [done|done|etrans; [by apply (insert_subseteq _ p n)|done]|].
    by exists bl', (l :: ll), [(l, sizeof_large)].
Qed.

(** ** Releasing *)

Lemma cleanup_at_run (s : memory) p d : cleanups s !! p = Some d -> cleanup_at p s = Some (d, s).
Proof. exact (load_run p d s). Qed.

Lemma free_run s p n : os s !! p = Some n -> p <> NULL -> ngx_free p s = Some (tt, s <| os := delete p (os s) |>).
Proof. intros Hp Hn. unfold ngx_free. by rewrite (proj2 (Z.eqb_neq _ _) Hn), Hp. Qed.

(** The handlers that are called, in the order of the list. *)
Fixpoint handlers (h : gmap loc ngx_pool_cleanup_t) (cl : list loc) : list (Z * loc) :=
  match cl with
  | [] => []
  | c :: cl' =>
      match h !! c with
      | Some n => (if handler n =? 0 then [] else [(handler n, data n)]) ++ handlers h cl'
      | None => handlers h cl'
      end
  end.

Lemma run_cleanups_run s c cl fuel :
  linked (cleanups s) c_next c cl -> (length cl <= fuel)%nat ->
  run_cleanups fuel c s = Some (tt, s <| ran := ran s ++ handlers (cleanups s) cl |>).
Proof.
  revert s c fuel. induction cl as [|x cl IH]; intros s c fuel Hl Hf.
  { cbn in Hl. subst c. destruct fuel, s; cbn; by rewrite app_nil_r. }
  destruct Hl as (-> & Hx & n & Hn & Hl). destruct fuel as [|fuel]; [cbn in Hf; lia|]. cbn [run_cleanups handlers].
  rewrite (proj2 (Z.eqb_neq _ _) Hx), Hn. erewrite mthen_run by (by apply cleanup_at_run).
  destruct (handler n =? 0); cbn [negb]; erewrite mthen_run by reflexivity.
  - by rewrite IH by (done || cbn in Hf; lia).
  - rewrite IH by (done || cbn in Hf; lia). cbn. destruct s. cbn. unfold set_field. cbn. by rewrite <- app_assoc.
Qed.

(** Chunks freed one after the other. *)
Definition without (l : list loc) (h : gmap loc Z) : gmap loc Z := foldl (fun h x => delete x h) h l.

Lemma without_lookup l h c : without l h !! c = if decide (c ∈ l) then None else h !! c.
Proof.
  revert h. induction l as [|x l IH]; intros h; [done|]. change (without (x :: l) h) with (without l (delete x h)).
  rewrite IH. destruct (decide (c = x)) as [->|Hne].
  - rewrite lookup_delete_eq, (decide_True (P := x ∈ x :: l)) by (apply elem_of_cons; by left). by case_decide.
  - rewrite lookup_delete_ne by done. apply decide_ext. rewrite elem_of_cons. naive_solver.
Qed.

Lemma without_app l k h : without (l ++ k) h = without k (without l h).
Proof. apply foldl_app. Qed.

Lemma free_larges_run s l ll fuel :
  linked (larges s) l_next l ll -> NoDup (allocs (larges s) ll) -> (length ll <= fuel)%nat ->
  (forall a, a ∈ allocs (larges s) ll -> is_Some (os s !! a)) ->
  free_larges fuel l s = Some (tt, s <| os := without (allocs (larges s) ll) (os s) |>).
Proof.
  revert s l fuel. induction ll as [|x ll IH]; intros s l fuel Hl Hnd Hf Hos.
  { cbn in Hl. subst l. by destruct fuel, s. }
  destruct Hl as (-> & Hx & r & Hr & Hl). destruct fuel as [|fuel]; [cbn in Hf; lia|]. cbn [free_larges].
  rewrite (proj2 (Z.eqb_neq _ _) Hx). erewrite mthen_run by (by apply large_at_run).
  rewrite (allocs_cons _ _ _ _ Hr) in *. cbn in Hf. unfold live in *. destruct (Z.eqb_spec (alloc r) NULL) as [Ea|Ea]; cbn [negb app] in *.
  - erewrite mthen_run by reflexivity. apply IH; [done|done|lia|done].
  - apply NoDup_cons in Hnd as [Hna Hnd]. destruct (Hos (alloc r)) as [n Hn]; [apply elem_of_cons; by left|].
    erewrite mthen_run by (by eapply free_run). rewrite IH; [by destruct s|done|done|lia|].
    intros a Ha. cbn. rewrite lookup_delete_ne by (intros E; apply Hna; by rewrite E). apply Hos, elem_of_cons. by right.
Qed.

Lemma free_blocks_run s p q bl fuel :
  p <> NULL -> linked (blocks s) next q bl -> NoDup (p :: bl) -> (length bl <= fuel)%nat ->
  (forall b, b ∈ p :: bl -> is_Some (os s !! b)) ->
  free_blocks fuel p q s = Some (tt, s <| os := without (p :: bl) (os s) |>).
Proof.
  revert s p q fuel. induction bl as [|x bl IH]; intros s p q fuel Hp Hl Hnd Hf Hos;
    destruct (Hos p) as [n Hn]; try (apply elem_of_cons; by left).
  { cbn in Hl. subst q. destruct fuel; cbn [free_blocks]; by erewrite mthen_run by (by eapply free_run). }
  destruct Hl as (-> & Hx & d & Hd & Hl). destruct fuel as [|fuel]; [cbn in Hf; lia|]. cbn [free_blocks].
  erewrite mthen_run by (by eapply free_run). rewrite (proj2 (Z.eqb_neq _ _) Hx).
  erewrite mthen_run by (by apply block_at_run). apply NoDup_cons in Hnd as [Hpn Hnd].
  rewrite IH; [by destruct s|done|done|done|cbn in Hf; lia|].
  intros b Hb. cbn. rewrite lookup_delete_ne by (by intros ->). apply Hos, elem_of_cons. by right.
Qed.

Lemma destroy_run os0 s bl ll cl given :
  inv os0 s bl ll cl given ->
  exists s', ngx_destroy_pool pool s = Some (tt, s') /\ os s' = os0 /\ ran s' = ran s ++ handlers (cleanups s) cl.
Proof.
  intros Hi. unfold ngx_destroy_pool, pool_get. do 2 (erewrite mthen_run by reflexivity).
  erewrite mthen_run.
  2: { apply run_cleanups_run; [apply Hi|]. apply (linked_size _ c_next (cleanup (pool_ s))); apply Hi. }
  set (s1 := s <| ran := _ |>). do 2 (erewrite mthen_run by reflexivity).
  erewrite mthen_run.
  2: { apply (free_larges_run s1 _ ll); [apply Hi|apply Hi|apply (linked_size _ l_next (large (pool_ s))); apply Hi|].
       intros a Ha. apply (inv_chunks _ _ _ _ _ _ Hi) in Ha as (_ & n & Hn & _). by exists n. }
  set (s2 := s1 <| os := _ |>).
  destruct bl as [|p bl]; [by pose proof (inv_head _ _ _ _ _ _ Hi)|].
  assert (p = pool) as -> by (pose proof (inv_head _ _ _ _ _ _ Hi) as H; by injection H).
  pose proof (inv_blocks _ _ _ _ _ _ Hi) as (_ & Hp & d & Hd & Hl).
  erewrite mthen_run by (apply block_at_run; exact Hd). erewrite mthen_run by reflexivity.
  rewrite (free_blocks_run s2 pool (next d) bl).
  - eexists. split; [reflexivity|]. split; [|done].
    change (without (pool :: bl) (without (allocs (larges s) ll) (os s)) = os0). apply map_eq. intros c.
    rewrite <- (without_app _ (pool :: bl)), without_lookup, (inv_foreign _ _ _ _ _ _ Hi).
    apply decide_ext. rewrite !elem_of_app. tauto.
  - done.
  - exact Hl.
  - apply Hi.
  - pose proof (linked_size _ _ _ _ (inv_blocks _ _ _ _ _ _ Hi) (inv_nodup _ _ _ _ _ _ Hi)) as H. cbn in *. lia.
  - intros b Hb. cbn. rewrite without_lookup, decide_False.
    + destruct (inv_block_at _ _ _ _ _ _ _ Hi Hb) as (? & _ & Hok). destruct Hok. by eexists.
    + intros Ha. by apply (inv_chunks _ _ _ _ _ _ Hi) in Ha as [? _].
Qed.

(** ** [ngx_pfree] *)

Lemma sorted_filter given (P : Z * Z -> Prop) `{forall r, Decision (P r)} :
  StronglySorted disjoint_regions given -> StronglySorted disjoint_regions (filter P given).
Proof.
  induction 1 as [|r l Hl IH Hr]; [constructor|]. rewrite filter_cons. case_decide; [|done].
  constructor; [done|]. rewrite Forall_forall in *. intros q [_ Hq]%list_elem_of_filter. auto.
Qed.

(** A record is in no large allocation. *)
Lemma record_not_alloc os0 s bl ll cl given x n a :
  inv os0 s bl ll cl given -> in_block s bl (x, n) -> 0 < n -> a ∈ allocs (larges s) ll -> x <> a.
Proof.
  intros Hi (b & d & Hb & Hd & H1 & H2) Hn Ha ->. pose proof (header_range b) as Hh.
  destruct (inv_block _ _ _ _ _ _ Hi b d Hb Hd) as [_ _ Hos Hend Hl].
  destruct (inv_chunks _ _ _ _ _ _ Hi a Ha) as (Hna & k & Hk & Hk0).
  destruct (inv_os _ _ _ _ _ _ Hi b psize a k Hos Hk) as [H|H]; cbn in *; [congruence|lia|lia].
Qed.

Lemma release_inv os0 s bl ll cl given x r :
  inv os0 s bl ll cl given -> x ∈ ll -> larges s !! x = Some r -> alloc r <> NULL ->
  inv os0 (s <| os := delete (alloc r) (os s) |> <| larges := <[x := r <| alloc := NULL |>]> (larges s) |>)
    bl ll cl (filter (fun q : Z * Z => q.1 <> alloc r) given).
Proof.
  intros Hi Hx Hr Ha. set (p := alloc r) in *. set (h' := <[x := _]> (larges s)).
  pose proof (allocs_insert _ _ _ _ NULL (inv_lnodup _ _ _ _ _ _ Hi) Hx Hr) as Hal.
  fold p in Hal. rewrite live_some in Hal by done. rewrite (live_null NULL) in Hal by done. cbn [app] in Hal. fold h' in Hal.
  assert (p ∈ allocs (larges s) ll) as Hp by (rewrite <- Hal; apply elem_of_cons; by left).
  destruct (inv_chunks _ _ _ _ _ _ Hi p Hp) as [Hpb _].
  assert (forall y n, 0 < n -> (y, n) ∈ given /\ in_block s bl (y, n) ->
    (y, n) ∈ filter (fun q : Z * Z => q.1 <> p) given /\ in_block s bl (y, n)) as Hrec.
  { intros y n Hn [H1 H2]. split; [|done]. apply list_elem_of_filter. split; [|done]. cbn.
    by eapply record_not_alloc. }
  destruct Hi as [K1 K2 K3 K4 K5 K6 K7 K8 K9 K10 K11 [K12 K12'] K13 K14 K15 K16 K17 K18].
  assert (NoDup (p :: allocs h' ll)) as Hnd by (by rewrite Hal). apply NoDup_cons in Hnd as [Hpn Hnd].
  assert (forall a, a ∈ allocs h' ll -> a ∈ allocs (larges s) ll) as Hsub by (intros a H; rewrite <- Hal; apply elem_of_cons; by right).
  split; cbn; try done.
  - intros b d Hb Hd. destruct (K4 b d Hb Hd). split; try done. cbn. by rewrite lookup_delete_ne by congruence.
  - by eapply linked_insert.
  - intros a H. destruct (K9 a (Hsub a H)) as [? ?]. split; [done|]. by rewrite lookup_delete_ne by congruence.
  - split; intros y Hy; apply Hrec; auto; unfold sizeof_large, sizeof_cleanup; lia.
  - intros q [Hq1 Hq2]%list_elem_of_filter. destruct (K13 q Hq2) as [? [H|[H1 H2]]]; split; [done|by left|done|right].
    cbn. rewrite lookup_delete_ne by done. split; [|done]. rewrite <- Hal in H1. apply elem_of_cons in H1 as [H1|H1]; [done|done].
  - by apply sorted_filter.
  - intros c n c' n' [Hc H1]%lookup_delete_Some [Hc' H2]%lookup_delete_Some. by apply K15.
  - intros c. rewrite K18. destruct (decide (c = p)) as [->|Hne].
    + rewrite decide_True by (apply elem_of_app; by right). rewrite lookup_delete_eq. by case_decide.
    + rewrite lookup_delete_ne by done. apply decide_ext. rewrite !elem_of_app, <- Hal, elem_of_cons. naive_solver.
Qed.

Lemma pfree_loop_run s l ll p fuel :
  linked (larges s) l_next l ll -> p <> NULL -> (length ll <= fuel)%nat ->
  ((p ∉ allocs (larges s) ll) /\ pfree_loop fuel l p s = Some (NGX_DECLINED, s)) \/
  exists x r, x ∈ ll /\ larges s !! x = Some r /\ alloc r = p /\
    pfree_loop fuel l p s =
      (ngx_free (alloc r) ;; update x (fun r : ngx_pool_large_t => r <| alloc := NULL |>) ;; mret NGX_OK) s.
Proof.
  intros Hl Hp. revert l fuel Hl. induction ll as [|x ll IH]; intros l fuel Hl Hf.
  { left. cbn in Hl. subst l. split; [apply not_elem_of_nil|by destruct fuel]. }
  destruct Hl as (-> & Hx & r & Hr & Hl). destruct fuel as [|fuel]; [cbn in Hf; lia|]. cbn [pfree_loop].
  rewrite (proj2 (Z.eqb_neq _ _) Hx). erewrite mthen_run by (by apply large_at_run).
  destruct (Z.eqb_spec p (alloc r)) as [Ea|Ea].
  { right. exists x, r. split_and!; [apply elem_of_cons; by left|done|done|done]. }
  destruct (IH (l_next r) fuel Hl) as [[H1 H2]|(y & q & Hy & Hq)]; [cbn in Hf; lia| |].
  - left. split; [|done]. rewrite (allocs_cons _ _ _ _ Hr). intros [H|H]%elem_of_app; [|done].
    unfold live in H. destruct (alloc r =? NULL); [by apply not_elem_of_nil in H|by apply list_elem_of_singleton in H].
  - right. exists y, q. split; [apply elem_of_cons; by right|done].
Qed.

Lemma pfree_run os0 s bl ll cl given p :
  inv os0 s bl ll cl given -> p <> NULL ->
  ((p ∉ allocs (larges s) ll) /\ ngx_pfree p s = Some (NGX_DECLINED, s)) \/
  (p ∈ allocs (larges s) ll /\ exists s', ngx_pfree p s = Some (NGX_OK, s') /\ os s' = delete p (os s) /\
     max (pool_ s') = max (pool_ s) /\
     inv os0 s' bl ll cl (filter (fun q : Z * Z => q.1 <> p) given)).
Proof.
  intros Hi Hp. unfold ngx_pfree, pool_get. do 2 (erewrite mthen_run by reflexivity).
  destruct (pfree_loop_run s (large (pool_ s)) ll p (size (larges s))) as [?|(x & r & Hx & Hr & <- & E)].
  - apply Hi.
  - done.
  - apply (linked_size _ l_next (large (pool_ s))); apply Hi.
  - by left.
  - right. pose proof (allocs_insert _ _ _ _ NULL (inv_lnodup _ _ _ _ _ _ Hi) Hx Hr) as Hal.
    rewrite live_some in Hal by done. rewrite (live_null NULL) in Hal by done. cbn [app] in Hal.
    assert (alloc r ∈ allocs (larges s) ll) as Ha by (rewrite <- Hal; apply elem_of_cons; by left).
    split; [done|]. destruct (inv_chunks _ _ _ _ _ _ Hi _ Ha) as (_ & n & Hn & _).
    rewrite E. erewrite mthen_run by (by eapply free_run). erewrite mthen_run by (apply (large_update_run _ _ _ r); exact Hr).
    eexists. split; [reflexivity|]. split_and!; [done|done|]. exact (release_inv _ _ _ _ _ _ x r Hi Hx Hr Hp).
Qed.

(** ** [ngx_pool_cleanup_add] *)

Lemma allocated_keeps os0 s s' bl ll cl given m n bl1 ll1 cl1 given1 :
  inv os0 s bl ll cl given -> in_block s bl (m, n) -> 0 < n ->
  inv os0 s' bl1 ll1 cl1 given1 -> os s ⊆ os s' -> (m, n) ∈ given1 -> in_block s' bl1 (m, n).
Proof.
  intros Hi (b & d & Hb & Hd & H1 & H2) Hn Hi' Hsub Hg. pose proof (header_range b) as Hh.
  destruct (inv_block _ _ _ _ _ _ Hi b d Hb Hd) as [_ _ Hos Hend Hl]. cbn in *.
  destruct (inv_given _ _ _ _ _ _ Hi' _ Hg) as [_ [?|[Ha Ho]]]; [done|]. cbn in *.
  assert (os s' !! b = Some psize) as Hos' by (by eapply lookup_weaken).
  destruct (inv_os _ _ _ _ _ _ Hi' b psize m n Hos' Ho) as [H|H]; cbn in *; lia.
Qed.

Lemma new_cleanup_inv os0 s bl ll cl given c dt :
  inv os0 s bl ll cl given -> (c, sizeof_cleanup) ∈ given -> in_block s bl (c, sizeof_cleanup) -> c ∉ cl -> 0 < c ->
  inv os0 (s <| cleanups := <[c := mk_cleanup 0 dt (cleanup (pool_ s))]> (cleanups s) |>
             <| pool_ := (pool_ s) <| cleanup := c |> |>) bl ll (c :: cl) given.
Proof.
  intros [K1 K2 K3 K4 K5 K6 K7 K8 K9 K10 K11 [K12 K12'] K13 K14 K15 K16 K17 K18] Hg Hin Hc Hpos. split; cbn; try done.
  - intros b d Hb Hd. destruct (K4 b d Hb Hd). by split.
  - split_and!; [done|unfold NULL; lia|]. eexists. rewrite lookup_insert_eq. split; [done|]. cbn. by apply linked_fresh.
  - by constructor.
  - split; [done|]. intros x [->|Hx]%elem_of_cons; [done|auto].
Qed.

Lemma palloc_cleanup os0 s bl ll cl given :
  inv os0 s bl ll cl given ->
  exists m s', ngx_palloc memalign pool sizeof_cleanup s = Some (m, s') /\
    ((m = NULL /\ s' = s) \/ allocated os0 s s' bl ll cl given m sizeof_cleanup).
Proof.
  intros Hi. pose proof (inv_max _ _ _ _ _ _ Hi) as Hmax. unfold ngx_palloc. cbn [palloc_rec].
  unfold pool_get. erewrite mthen_run by reflexivity. rewrite (proj2 (Z.leb_le _ _)) by lia.
  destruct (palloc_small_run _ _ _ _ _ _ true sizeof_cleanup Hi) as (m & s' & E & [?|[_ ?]]);
    [unfold sizeof_cleanup in *; lia|exists m, s'; auto..].
Qed.

(** The record is put in front of the list, without a handler; or the pool keeps
    what it has, with the record's bytes lost in it when only the second
    allocation fails. *)
Lemma cleanup_add_run os0 s bl ll cl given n :
  inv os0 s bl ll cl given -> 0 <= n ->
  exists c s', ngx_pool_cleanup_add memalign pool n s = Some (c, s') /\ max (pool_ s') = max (pool_ s) /\
    exists bl' ll' own, inv os0 s' bl' ll' (if c =? NULL then cl else c :: cl) (own ++ given) /\
      (c <> NULL -> exists dt, cleanups s' !! c = Some (mk_cleanup 0 dt (default NULL (head cl))) /\
        (n <> 0 -> (dt, n) ∈ own)).
Proof.
  intros Hi Hn. unfold ngx_pool_cleanup_add.
  destruct (palloc_cleanup _ _ _ _ _ _ Hi) as (c & s1 & E1 & Hcase). erewrite mthen_run by exact E1.
  destruct Hcase as [[-> ->]|(Hc & Hsame & Hsub1 & Emax1 & bl1 & _ & Hi1 & Hin)].
  { change (NULL =? NULL) with true. exists NULL, s. split_and!; [done|done|]. by exists bl, ll, []. }
  assert (c <> NULL) as Hcn by (unfold NULL; lia). rewrite (proj2 (Z.eqb_neq _ _) Hcn).
  assert (c ∉ cl) as Hccl.
  { intros Hx. apply (proj2 (inv_records _ _ _ _ _ _ Hi)) in Hx as [Hx _].
    pose proof (inv_disjoint _ _ _ _ _ _ Hi1) as H. apply StronglySorted_inv in H as [_ H].
    rewrite Forall_forall in H. destruct (H _ Hx) as [H2|H2]; cbn in H2; unfold sizeof_cleanup in H2; lia. }
  assert (exists d s2, (if negb (n =? 0) then ngx_palloc memalign pool n else mret NULL) s1 = Some (d, s2) /\
    (negb (n =? 0) && (d =? NULL) = true /\ s2 = s1 \/
     negb (n =? 0) && (d =? NULL) = false /\ max (pool_ s2) = max (pool_ s1) /\ os s1 ⊆ os s2 /\
     exists bl2 ll2 own, inv os0 s2 bl2 ll2 cl (own ++ (c, sizeof_cleanup) :: given) /\ (n <> 0 -> (d, n) ∈ own)))
    as (d & s2 & E2 & Hcase).
  { destruct (Z.eqb_spec n 0) as [->|Hn0]; cbn [negb andb].
    - exists NULL, s1. split; [done|]. right. split_and!; [done|done|done|]. by exists bl1, ll, [].
    - destruct (palloc_run _ _ _ _ _ _ n Hi1 Hn) as (d & s2 & E & [[-> ->]|(Hd & Em & Hs & bl2 & ll2 & own & Hi2)] & _);
        [exists NULL, s1; split; [exact E|by left]|exists d, s2; split; [exact E|right]].
      split_and!; [apply Z.eqb_neq; unfold NULL; lia|done|done|]. exists bl2, ll2, ((d, n) :: own).
      split; [done|]. intros _. apply elem_of_cons. by left. }
  erewrite mthen_run by exact E2. destruct Hcase as [[-> ->]|(-> & Em & Hs & bl2 & ll2 & own & Hi2 & Hown)].
  { exists NULL, s1. split_and!; [done|done|]. change (NULL =? NULL) with true. by exists bl1, ll, [(c, sizeof_cleanup)]. }
  unfold pool_get, new_cleanup, pool_set. do 3 (erewrite mthen_run by reflexivity).
  eexists c, _. split; [reflexivity|]. split; [cbn; congruence|]. rewrite (proj2 (Z.eqb_neq _ _) Hcn).
  exists bl2, ll2, (own ++ [(c, sizeof_cleanup)]). rewrite <- app_assoc. cbn [app].
  assert ((c, sizeof_cleanup) ∈ own ++ (c, sizeof_cleanup) :: given) as Hg
    by (apply elem_of_app; right; apply elem_of_cons; by left).
  split.
  - apply (new_cleanup_inv _ s2); [done|done| |done|done].
    by eapply (allocated_keeps os0 s1 s2 bl1 ll cl); [exact Hi1| |unfold sizeof_cleanup; lia|exact Hi2| |].
  - intros _. exists d. cbn. rewrite lookup_insert_eq. split.
    + pose proof (inv_cleanups _ _ _ _ _ _ Hi2) as Hl. destruct cl as [|x cl']; cbn in *; [by rewrite Hl|by destruct Hl as [-> _]].
    + intros H. apply elem_of_app. left. auto.
Qed.

(** ** [ngx_create_pool] and [ngx_reset_pool] *)

(** Chunks of the system do not meet. *)
Definition os_ok (h : gmap loc Z) : Prop :=
  forall c n c' n', h !! c = Some n -> h !! c' = Some n' -> c <> c' -> disjoint_regions (c, n) (c', n').

Lemma create_pool_run s :
  os_ok (os s) -> memalign NGX_POOL_ALIGNMENT psize (os s) = pool -> pool <> NULL ->
  psize mod 8 = 0 -> sizeof_pool + sizeof_cleanup <= psize < 2 ^ 63 -> sizeof_cleanup < ngx_pagesize ->
  exists s', ngx_create_pool memalign ngx_pagesize pool psize s = Some (true, s') /\ ran s' = ran s /\
    inv (os s) s' [pool] [] [] [].
Proof.
  intros Hos Hp Hn Hal Hps Hpg. unfold sizeof_pool, sizeof_cleanup in *.
  destruct (memalign_spec NGX_POOL_ALIGNMENT psize (os s)) as [E|(Hx & Hxal & Hxnew & Hxdis)]; [congruence|].
  rewrite Hp in *. unfold ngx_create_pool.
  erewrite mthen_run by (unfold ngx_memalign; rewrite Hp, (proj2 (Z.eqb_neq _ _) Hn); reflexivity). rewrite (proj2 (Z.eqb_neq _ _) Hn), Z.eqb_refl. cbn [negb].
  unfold new_block, pool_set. do 2 (erewrite mthen_run by reflexivity). eexists. split; [reflexivity|]. split; [done|].
  assert (forall b, b ∈ [pool] -> b = pool) as Hone by (by intros b ->%list_elem_of_singleton).
  unfold sizeof_pool in *. split; cbn; try done.
  - split_and!; [done|done|]. eexists. rewrite lookup_insert_eq. done.
  - apply NoDup_singleton.
  - intros b d ->%Hone. rewrite lookup_insert_eq. intros [= <-]. split; cbn; try done.
    + unfold NGX_POOL_ALIGNMENT in Hxal. Z.to_euclidean_division_equations; lia.
    + by rewrite lookup_insert_eq.
    + unfold header. rewrite decide_True by done. unfold sizeof_pool. lia.
  - by apply list_elem_of_singleton.
  - constructor.
  - constructor.
  - by intros a ?%not_elem_of_nil.
  - constructor.
  - split; by intros a ?%not_elem_of_nil.
  - by intros a ?%not_elem_of_nil.
  - constructor.
  - intros c n c' n'. rewrite !lookup_insert_Some. intros [[<- <-]|[Hne Hc]] [[<- <-]|[Hne' Hc']] Hcc; try done; [auto| |by eapply Hos].
    apply Hxdis in Hc. unfold disjoint_regions in *. cbn in *. lia.
  - unfold sizeof_cleanup, sizeof_pool. destruct (Z.ltb_spec (psize - 80) (ngx_pagesize - 1)); lia.
  - lia.
  - intros c. destruct (decide (c = pool)) as [->|Hne]; [rewrite decide_True by (by apply list_elem_of_singleton); done|].
    rewrite decide_False, lookup_insert_ne; [done|done|by intros ?%list_elem_of_singleton].
Qed.

Lemma reset_blocks_run s p bl fuel :
  linked (blocks s) next p bl -> NoDup bl -> (length bl <= fuel)%nat ->
  exists h', reset_blocks fuel p s = Some (tt, s <| blocks := h' |>) /\
    forall b d, blocks s !! b = Some d -> h' !! b = Some (if decide (b ∈ bl) then d <| last := b + sizeof_pool |> else d).
Proof.
  revert s p fuel. induction bl as [|x bl IH]; intros s p fuel Hl Hnd Hf.
  { cbn in Hl. subst p. exists (blocks s). split; [by destruct fuel, s|]. intros b d Hd.
    by rewrite decide_False by apply not_elem_of_nil. }
  destruct Hl as (-> & Hx & d & Hd & Hl). destruct fuel as [|fuel]; [cbn in Hf; lia|]. cbn [reset_blocks].
  apply NoDup_cons in Hnd as [Hnx Hnd]. rewrite (proj2 (Z.eqb_neq _ _) Hx).
  erewrite mthen_run by (by apply block_update_run). set (s1 := s <| blocks := _ |>).
  erewrite mthen_run by (apply block_at_run; apply lookup_insert_eq).
  destruct (IH s1 (next d) fuel) as (h' & E & Hh); [by apply linked_fresh|done|cbn in Hf; lia|].
  exists h'. split; [exact E|]. intros b db Hdb. destruct (decide (b = x)) as [->|Hne].
  - rewrite (decide_True (P := x ∈ x :: bl)) by (apply elem_of_cons; by left). specialize (Hh x (d <| last := x + sizeof_pool |>)).
    rewrite decide_False in Hh by done. replace db with d by congruence. apply Hh. apply lookup_insert_eq.
  - rewrite (Hh b db); [|cbn; by rewrite lookup_insert_ne]. f_equal. apply decide_ext. rewrite elem_of_cons. naive_solver.
Qed.

(** A pool that is reset has handed out nothing and holds no large allocation; its
    blocks stay.  The cleanup records would be lost, so there may be none. *)
Lemma reset_run os0 s bl ll given :
  inv os0 s bl ll [] given ->
  exists s', ngx_reset_pool pool s = Some (tt, s') /\ ran s' = ran s /\ inv os0 s' bl [] [] [].
Proof.
  intros Hi. unfold ngx_reset_pool, pool_get, pool_set. do 2 (erewrite mthen_run by reflexivity).
  erewrite mthen_run.
  2: { apply (free_larges_run s _ ll); [apply Hi|apply Hi|apply (linked_size _ l_next (large (pool_ s))); apply Hi|].
       intros a Ha. apply (inv_chunks _ _ _ _ _ _ Hi) in Ha as (_ & n & Hn & _). by exists n. }
  do 2 (erewrite mthen_run by reflexivity). set (os1 := without _ _).
  set (s1 := (s <| os := os1 |>) <| pool_ := _ |>).
  destruct (reset_blocks_run s1 pool bl (size (blocks s1))) as (h' & E & Hh).
  { apply Hi. } { apply Hi. } { apply (linked_size _ next pool); apply Hi. }
  eexists. split; [exact E|]. split; [done|]. assert (forall b, b ∈ bl -> os1 !! b = os s !! b) as Hosb.
  { intros b Hb. unfold os1. rewrite without_lookup, decide_False; [done|]. intros Ha. by apply (inv_chunks _ _ _ _ _ _ Hi) in Ha as [? _]. }
  pose proof (fun b => inv_block_at _ _ _ _ _ _ b Hi) as Hat. pose proof (inv_max _ _ _ _ _ _ Hi) as Hmax.
  destruct Hi as [K1 K2 K3 K4 K5 K6 K7 K8 K9 K10 K11 [K12 K12'] K13 K14 K15 K16 K17 K18]. split; cbn; try done.
  - eapply linked_ext; [|exact K2]. intros x a Hx Ha. eexists. split; [by apply Hh|]. by case_decide.
  - intros b d' Hb. destruct (Hat b Hb) as (d & Hd & Hok). cbn. rewrite (Hh b d Hd), decide_True by done. intros [= <-].
    pose proof (header_range b). destruct Hok. unfold sizeof_pool, sizeof_cleanup in *. split; cbn; rewrite ?Hosb by done; try done. lia.
  - by intros a ?%not_elem_of_nil.
  - split; by intros a ?%not_elem_of_nil.
  - by intros a ?%not_elem_of_nil.
  - constructor.
  - intros c n c' n'. unfold os1. rewrite !without_lookup. do 2 case_decide; try done. apply K15.
  - intros c. rewrite K18, app_nil_r. unfold os1. rewrite without_lookup. repeat case_decide; set_solver.
Qed.

(** ** Sequences of calls *)

Inductive pool_op :=
| Palloc (size : Z)
| Pnalloc (size : Z)
| Pmemalign (size alignment : Z)
| Pfree (p : loc)
| CleanupAdd (size : Z).

Definition op_ok (o : pool_op) : Prop :=
  match o with
  | Palloc n | Pnalloc n | Pmemalign n _ | CleanupAdd n => 0 <= n
  | Pfree p => p <> NULL
  end.

Definition run_op (o : pool_op) : MP unit :=
  match o with
  | Palloc n => _r <-- ngx_palloc memalign pool n; mret tt
  | Pnalloc n => _r <-- ngx_pnalloc memalign pool n; mret tt
  | Pmemalign n a => _r <-- ngx_pmemalign memalign pool n a; mret tt
  | Pfree p => _r <-- ngx_pfree p; mret tt
  | CleanupAdd n => _r <-- ngx_pool_cleanup_add memalign pool n; mret tt
  end.

Fixpoint run_ops (l : list pool_op) : MP unit :=
  match l with
  | [] => mret tt
  | o :: l' => run_op o ;; run_ops l'
  end.

Lemma outcome_inv os0 s bl ll cl given m n s' :
  inv os0 s bl ll cl given -> outcome os0 s bl ll cl given m n s' -> exists bl' ll' cl' given', inv os0 s' bl' ll' cl' given'.
Proof. intros Hi [[_ ->]|(_ & _ & _ & bl' & ll' & own & Hi')]; eauto. Qed.

Lemma run_op_inv os0 s bl ll cl given o :
  inv os0 s bl ll cl given -> op_ok o ->
  exists s' bl' ll' cl' given', run_op o s = Some (tt, s') /\ inv os0 s' bl' ll' cl' given'.
Proof.
  intros Hi. destruct o as [n|n|n a|p|n]; cbn [op_ok run_op]; intros Ho.
  - destruct (palloc_run _ _ _ _ _ _ n Hi Ho) as (m & s' & E & H & _). erewrite mthen_run by exact E.
    destruct (outcome_inv _ _ _ _ _ _ _ _ _ Hi H) as (? & ? & ? & ? & ?). eauto 10.
  - destruct (pnalloc_run _ _ _ _ _ _ n Hi Ho) as (m & s' & E & H). erewrite mthen_run by exact E.
    destruct (outcome_inv _ _ _ _ _ _ _ _ _ Hi H) as (? & ? & ? & ? & ?). eauto 10.
  - destruct (pmemalign_run _ _ _ _ _ _ n a Hi Ho) as (m & s' & E & H & _). erewrite mthen_run by exact E.
    destruct (outcome_inv _ _ _ _ _ _ _ _ _ Hi H) as (? & ? & ? & ? & ?). eauto 10.
  - destruct (pfree_run _ _ _ _ _ _ p Hi Ho) as [[_ E]|(_ & s' & E & _ & _ & H)]; erewrite mthen_run by exact E; eauto 10.
  - destruct (cleanup_add_run _ _ _ _ _ _ n Hi Ho) as (c & s' & E & _ & bl' & ll' & own & H & _).
    erewrite mthen_run by exact E. eauto 10.
Qed.

Lemma run_ops_inv os0 l s bl ll cl given :
  inv os0 s bl ll cl given -> Forall op_ok l ->
  exists s' bl' ll' cl' given', run_ops l s = Some (tt, s') /\ inv os0 s' bl' ll' cl' given'.
Proof.
  intros Hi Hl. revert s bl ll cl given Hi. induction Hl as [|o l Ho Hl IH]; intros s bl ll cl given Hi; [cbn; eauto 10|].
  destruct (run_op_inv _ _ _ _ _ _ o Hi Ho) as (s1 & bl1 & ll1 & cl1 & g1 & E & Hi1). cbn [run_ops].
  erewrite mthen_run by exact E. by eapply IH.
Qed.

(** ** The theorems *)

(** C26: in a pool that satisfies its invariant, [ngx_palloc], [ngx_pnalloc] and
    [ngx_pmemalign] have a result for every size.  They return [NULL] and leave the
    pool as it was, or an address from which [n] bytes meet none of the regions
    handed out before and none of the pool's own records; the result of
    [ngx_palloc] is aligned to 8 bytes when it is cut from a block, that of
    [ngx_pmemalign] as asked for; the invariant is kept. *)
Theorem pool_allocations_disjoint os0 s bl ll cl given n alignment :
  inv os0 s bl ll cl given -> 0 <= n ->
  (exists m s', ngx_palloc memalign pool n s = Some (m, s') /\ outcome os0 s bl ll cl given m n s' /\
     (n <= max (pool_ s) -> m mod 8 = 0)) /\
  (exists m s', ngx_pnalloc memalign pool n s = Some (m, s') /\ outcome os0 s bl ll cl given m n s') /\
  (exists m s', ngx_pmemalign memalign pool n alignment s = Some (m, s') /\ outcome os0 s bl ll cl given m n s' /\
     (m <> NULL -> m mod alignment = 0)).
Proof. intros Hi Hn. split_and!; [by apply palloc_run|by apply pnalloc_run|by apply pmemalign_run]. Qed.

(** [ngx_pfree] of a large allocation gives its chunk back and takes the region
    out of those handed out; anything else is declined and changes nothing. *)
Theorem pfree_correct os0 s bl ll cl given p :
  inv os0 s bl ll cl given -> p <> NULL ->
  ((p ∉ allocs (larges s) ll) /\ ngx_pfree p s = Some (NGX_DECLINED, s)) \/
  (p ∈ allocs (larges s) ll /\ exists s', ngx_pfree p s = Some (NGX_OK, s') /\ os s' = delete p (os s) /\
     max (pool_ s') = max (pool_ s) /\
     inv os0 s' bl ll cl (filter (fun q : Z * Z => q.1 <> p) given)).
Proof. apply pfree_run. Qed.

(** [ngx_destroy_pool] calls the handlers in the order of the list and frees each
    of the pool's chunks once and nothing else. *)
Theorem destroy_pool_correct os0 s bl ll cl given :
  inv os0 s bl ll cl given ->
  exists s', ngx_destroy_pool pool s = Some (tt, s') /\ os s' = os0 /\ ran s' = ran s ++ handlers (cleanups s) cl.
Proof. apply destroy_run. Qed.

(** C27: the life of a pool: it is created, any calls of the allocation functions, of
    [ngx_pfree] and of [ngx_pool_cleanup_add] follow, in any order and with any
    sizes, and it is destroyed.  No call goes wrong (an object that is not there is
    never read, and nothing is freed that is not allocated, in particular nothing
    twice), and in the end the system has exactly the chunks it had before. *)
Theorem pool_life_no_leak s l :
  os_ok (os s) -> memalign NGX_POOL_ALIGNMENT psize (os s) = pool -> pool <> NULL ->
  psize mod 8 = 0 -> sizeof_pool + sizeof_cleanup <= psize < 2 ^ 63 -> sizeof_cleanup < ngx_pagesize ->
  Forall op_ok l ->
  exists s', (ngx_create_pool memalign ngx_pagesize pool psize ;; run_ops l ;; ngx_destroy_pool pool) s = Some (tt, s') /\
    os s' = os s.
Proof.
  intros H1 H2 H3 H4 H5 H6 Hl. destruct (create_pool_run s H1 H2 H3 H4 H5 H6) as (s1 & E1 & _ & Hi1).
  destruct (run_ops_inv _ l _ _ _ _ _ Hi1 Hl) as (s2 & bl & ll & cl & g & E2 & Hi2).
  destruct (destroy_run _ _ _ _ _ _ Hi2) as (s3 & E3 & Hos & _).
  exists s3. split; [|done]. erewrite mthen_run by exact E1. by erewrite mthen_run by exact E2.
Qed.
End proofs.

(** ** An allocator, and pools it serves *)

(** Behind the last chunk. *)
Definition bump (alignment size : Z) (h : gmap loc Z) : loc :=
  if (alignment <=? 0) || (size <? 0) then NULL
  else
    let top := map_fold (fun c n m => Z.max (c + Z.max 0 n) m) 1 h in
    (top / alignment + 1) * alignment.

Lemma bump_top h : let top := map_fold (fun c n m => Z.max (c + Z.max 0 n) m) 1 h in
  1 <= top /\ forall c n, h !! c = Some n -> c + Z.max 0 n <= top.
Proof.
  cbn zeta. revert h. apply (map_fold_weak_ind (fun top h => 1 <= top /\ forall c n, h !! c = Some n -> c + Z.max 0 n <= top)).
  - split; [lia|]. intros c n. by rewrite lookup_empty.
  - intros c n h top Hc [H1 H2]. split; [lia|]. intros c' n'. rewrite lookup_insert_Some.
    intros [[<- <-]|[_ H]]; [lia|]. specialize (H2 c' n' H). lia.
Qed.

#[export] Instance bump_allocator : Allocator bump.
Proof.
  intros alignment size h. unfold bump. destruct (Z.leb_spec alignment 0) as [|Ha]; [by left|].
  destruct (Z.ltb_spec size 0) as [|Hs]; [by left|]. right. cbn [orb].
  destruct (bump_top h) as [H1 H2]. set (top := map_fold _ _ _) in *. set (q := (top / alignment + 1) * alignment).
  assert (top < q). { unfold q. pose proof (Z.mod_pos_bound top alignment Ha). pose proof (Z.div_mod top alignment). nia. }
  split_and!.
  - lia.
  - apply Z.mod_mul. lia.
  - apply eq_None_not_Some. intros [n Hn]. apply H2 in Hn. lia.
  - intros c n Hc. right. apply H2 in Hc. cbn. lia.
Qed.

Definition fresh_memory : memory := mk_memory (mk_pool 0 NULL NULL NULL) ∅ ∅ ∅ {[ 4096 := 100 ]} [].
Definition demo_pool : loc := bump NGX_POOL_ALIGNMENT 256 (os fresh_memory).
Definition demo_ops : list pool_op :=
  [Palloc 10; Pnalloc 3; Palloc 1000; CleanupAdd 8; Pmemalign 64 32; Palloc 150; Palloc 100; Pfree 5472].

Lemma fresh_ok : os_ok (os fresh_memory).
Proof. intros c n c' n'. cbn. rewrite !lookup_singleton_Some. naive_solver. Qed.

(** A freshly created pool of 256 bytes. *)
Lemma demo_created :
  exists s, ngx_create_pool bump 4096 demo_pool 256 fresh_memory = Some (true, s) /\
    inv demo_pool 256 (os fresh_memory) s [demo_pool] [] [] [].
Proof.
  destruct (create_pool_run bump 4096 demo_pool 256 fresh_memory) as (s & E & _ & Hi);
    [apply fresh_ok|reflexivity|done|done|done|done|]. by exists s.
Qed.

Lemma pool_allocations_disjoint_witness :
  exists s, inv demo_pool 256 (os fresh_memory) s [demo_pool] [] [] [] /\
    exists m s', ngx_palloc bump demo_pool 24 s = Some (m, s') /\
      outcome demo_pool 256 (os fresh_memory) s [demo_pool] [] [] [] m 24 s' /\ (24 <= max (pool_ s) -> m mod 8 = 0).
Proof.
  destruct demo_created as (s & _ & Hi). exists s. split; [exact Hi|].
  apply (pool_allocations_disjoint bump demo_pool 256 (os fresh_memory) s [demo_pool] [] [] [] 24 1 Hi). lia.
Defined.

Lemma pool_life_no_leak_witness :
  exists s', (ngx_create_pool bump 4096 demo_pool 256 ;; run_ops bump demo_pool demo_ops ;; ngx_destroy_pool demo_pool) fresh_memory
    = Some (tt, s') /\ os s' = os fresh_memory.
Proof.
  apply (pool_life_no_leak bump 4096 demo_pool 256 fresh_memory demo_ops);
    [apply fresh_ok|reflexivity|done|done|done|done|].
  repeat constructor; done.
Defined.

(** The calls really take place: before the pool is destroyed it has three blocks,
    one of its two large allocations is freed, and a cleanup record waits. *)
Example demo_run :
  match (ngx_create_pool bump 4096 demo_pool 256 ;; run_ops bump demo_pool demo_ops) fresh_memory with
  | Some (_, s) => Some (size (os s), size (blocks s), size (larges s), size (cleanups s))
  | None => None
  end = Some (5%nat, 3%nat, 2%nat, 1%nat).
Proof. vm_compute. reflexivity. Qed.
