(* ===== verification/NgxQueue.v ===== *)
(** The doubly linked queue of src/core/ngx_queue.h and ngx_queue.c.

    A link is at an address; the fields [next] and [prev] of all links are two maps.
    A queue is a ring of links through its head.  The macros are sequences of
    assignments, each of which reads the fields as they are at that moment. *)

From stdpp Require Import sorting.
From S2P Require Import Prelude NgxStr NgxStore.

Open Scope Z_scope.
Open Scope store_scope.

Record links := mk_links {
  nexts : gmap loc loc;
  prevs : gmap loc loc;
}.

Abbreviation MQ := (M links).

Definition ngx_queue_next (q : loc) : MQ loc := fun s =>
  match nexts s !! q with Some x => Some (x, s) | None => None end.

Definition ngx_queue_prev (q : loc) : MQ loc := fun s =>
  match prevs s !! q with Some x => Some (x, s) | None => None end.

(** [(q)->next = x] and [(q)->prev = x] *)
Definition set_next (q x : loc) : MQ unit := fun s =>
  match nexts s !! q with Some _ => Some (tt, mk_links (<[q := x]> (nexts s)) (prevs s)) | None => None end.

Definition set_prev (q x : loc) : MQ unit := fun s =>
  match prevs s !! q with Some _ => Some (tt, mk_links (nexts s) (<[q := x]> (prevs s))) | None => None end.

Definition ngx_queue_head : loc -> MQ loc := ngx_queue_next.
Definition ngx_queue_last : loc -> MQ loc := ngx_queue_prev.

Definition ngx_queue_init (q : loc) : MQ unit := set_prev q q ;; set_next q q.

Definition ngx_queue_empty (h : loc) : MQ bool := p <-- ngx_queue_prev h; mret (h =? p).

Definition ngx_queue_insert_head (h x : loc) : MQ unit :=
  n <-- ngx_queue_next h; set_next x n ;;
  n <-- ngx_queue_next x; set_prev n x ;;
  set_prev x h ;;
  set_next h x.

Definition ngx_queue_insert_after : loc -> loc -> MQ unit := ngx_queue_insert_head.

Definition ngx_queue_insert_tail (h x : loc) : MQ unit :=
  p <-- ngx_queue_prev h; set_prev x p ;;
  p <-- ngx_queue_prev x; set_next p x ;;
  set_next x h ;;
  set_prev h x.

(** The build without [NGX_DEBUG]. *)
Definition ngx_queue_remove (x : loc) : MQ unit :=
  n <-- ngx_queue_next x; p <-- ngx_queue_prev x; set_prev n p ;;
  p <-- ngx_queue_prev x; n <-- ngx_queue_next x; set_next p n.

Definition ngx_queue_split (h q n : loc) : MQ unit :=
  p <-- ngx_queue_prev h; set_prev n p ;;
  p <-- ngx_queue_prev n; set_next p n ;;
  set_next n q ;;
  p <-- ngx_queue_prev q; set_prev h p ;;
  p <-- ngx_queue_prev h; set_next p h ;;
  set_prev q n.

Definition ngx_queue_add (h n : loc) : MQ unit :=
  p <-- ngx_queue_prev h; x <-- ngx_queue_next n; set_next p x ;;
  x <-- ngx_queue_next n; p <-- ngx_queue_prev h; set_prev x p ;;
  p <-- ngx_queue_prev n; set_prev h p ;;
  p <-- ngx_queue_prev h; set_next p h.

(** The loop of [ngx_queue_middle]. *)
Fixpoint middle_loop (fuel : nat) (queue middle next : loc) : MQ loc :=
  match fuel with
  | O => mstuck
  | S fuel' =>
      middle <-- ngx_queue_next middle;
      next <-- ngx_queue_next next;
      last <-- ngx_queue_last queue;
      if next =? last then mret middle
      else
        next <-- ngx_queue_next next;
        last <-- ngx_queue_last queue;
        if next =? last then mret middle else middle_loop fuel' queue middle next
  end.

Definition ngx_queue_middle (queue : loc) : MQ loc :=
  middle <-- ngx_queue_head queue;
  last <-- ngx_queue_last queue;
  if middle =? last then mret middle
  else
    next <-- ngx_queue_head queue;
    fuel <-- mget (fun s => size (nexts s));
    middle_loop fuel queue middle next.

Section sort.
Context (cmp : loc -> loc -> Z).

(** [do ... while (prev != ngx_queue_sentinel(queue))] *)
Fixpoint sort_back (fuel : nat) (queue prev q : loc) : MQ loc :=
  match fuel with
  | O => mstuck
  | S fuel' =>
      if cmp prev q <=? 0 then mret prev
      else
        prev <-- ngx_queue_prev prev;
        if prev =? queue then mret prev else sort_back fuel' queue prev q
  end.

Fixpoint sort_loop (fuel : nat) (queue q : loc) : MQ unit :=
  if q =? queue then mret tt
  else match fuel with
  | O => mstuck
  | S fuel' =>
      prev <-- ngx_queue_prev q;
      next <-- ngx_queue_next q;
      ngx_queue_remove q ;;
      n <-- mget (fun s => size (nexts s));
      prev <-- sort_back n queue prev q;
      ngx_queue_insert_after prev q ;;
      sort_loop fuel' queue next
  end.

Definition ngx_queue_sort (queue : loc) : MQ unit :=
  q <-- ngx_queue_head queue;
  last <-- ngx_queue_last queue;
  if q =? last then mret tt
  else
    q <-- ngx_queue_next q;
    fuel <-- mget (fun s => size (nexts s));
    sort_loop fuel queue q.
End sort.

#[local] Arguments mthen : simpl never.

(** * The ring *)

(** The links from [p] through [l] to [q]. *)
Fixpoint chain (s : links) (p : loc) (l : list loc) (q : loc) : Prop :=
  match l with
  | [] => nexts s !! p = Some q /\ prevs s !! q = Some p
  | x :: l' => nexts s !! p = Some x /\ prevs s !! x = Some p /\ chain s x l' q
  end.

(** The queue with head [h] and the links [l]. *)
Definition ring (s : links) (h : loc) (l : list loc) : Prop := NoDup (h :: l) /\ chain s h l h.

Lemma chain_app s p l x k q : chain s p (l ++ x :: k) q <-> chain s p l x /\ chain s x k q.
Proof.
  revert p. induction l as [|y l IH]; intros p; cbn; [tauto|]. rewrite IH. tauto.
Qed.

Lemma chain_frame s s' p l q :
  chain s p l q -> (forall x, x ∈ p :: l -> nexts s' !! x = nexts s !! x) ->
  (forall x, x ∈ l ++ [q] -> prevs s' !! x = prevs s !! x) -> chain s' p l q.
Proof.
  revert p. induction l as [|y l IH]; intros p; cbn.
  - intros [H1 H2] Hn Hp. rewrite Hn, Hp by set_solver. done.
  - intros (H1 & H2 & H3) Hn Hp. rewrite Hn, Hp by set_solver. split_and!; [done|done|].
    apply IH; [done|intros; apply Hn; set_solver|intros; apply Hp; set_solver].
Qed.

Lemma chain_next s p l q : chain s p l q -> nexts s !! p = Some (default q (head l)).
Proof. destruct l; cbn; tauto. Qed.

Lemma chain_prev s p l q : chain s p l q -> prevs s !! q = Some (default p (last l)).
Proof.
  revert p. induction l as [|x l IH]; intros p; cbn [chain]; [tauto|]. intros (_ & _ & H).
  rewrite (IH _ H), last_cons. by destruct (last l).
Qed.

Lemma chain_elem s p l q x : chain s p l q -> x ∈ p :: l -> is_Some (nexts s !! x).
Proof.
  revert p. induction l as [|y l IH]; intros p; cbn [chain].
  - intros [H _] ->%list_elem_of_singleton. by eexists.
  - intros (H & _ & Hl) [->|Hx]%elem_of_cons; [by eexists|by eapply IH].
Qed.

Lemma ring_size s h l : ring s h l -> (length l < size (nexts s))%nat.
Proof.
  intros [Hnd Hc]. rewrite <- size_dom. change (length l < size (dom (nexts s)))%nat.
  enough (length (h :: l) <= size (dom (nexts s)))%nat by (cbn in *; lia).
  rewrite <- (size_list_to_set (C := gset loc)) by done. apply subseteq_size.
  intros x Hx%elem_of_list_to_set. apply elem_of_dom. by eapply chain_elem.
Qed.

(** A ring seen from another of its links. *)
Lemma ring_rotate s a l b k : ring s a (l ++ b :: k) -> ring s b (k ++ a :: l).
Proof.
  intros [Hnd Hc]. apply chain_app in Hc as [H1 H2]. split; [|by apply chain_app].
  assert (b :: k ++ a :: l ≡ₚ a :: l ++ b :: k) as ->; [|done]. rewrite app_comm_cons, (app_comm_cons l). apply Permutation_app_comm.
Qed.

(** ** Steps *)

Lemma next_run s q x : nexts s !! q = Some x -> ngx_queue_next q s = Some (x, s).
Proof. unfold ngx_queue_next. by intros ->. Qed.

Lemma prev_run s q x : prevs s !! q = Some x -> ngx_queue_prev q s = Some (x, s).
Proof. unfold ngx_queue_prev. by intros ->. Qed.

Lemma set_next_run s q x : is_Some (nexts s !! q) -> set_next q x s = Some (tt, mk_links (<[q := x]> (nexts s)) (prevs s)).
Proof. unfold set_next. by intros [? ->]. Qed.

Lemma set_prev_run s q x : is_Some (prevs s !! q) -> set_prev q x s = Some (tt, mk_links (nexts s) (<[q := x]> (prevs s))).
Proof. unfold set_prev. by intros [? ->]. Qed.

(** An object that is a link. *)
Definition link (s : links) (x : loc) : Prop := is_Some (nexts s !! x) /\ is_Some (prevs s !! x).

(** The links outside [l] are as before, and no link has gone. *)
Definition frame (l : list loc) (s s' : links) : Prop :=
  (forall y, y ∉ l -> nexts s' !! y = nexts s !! y /\ prevs s' !! y = prevs s !! y) /\
  (forall y, link s y -> link s' y).

Lemma frame_trans l s1 s2 s3 : frame l s1 s2 -> frame l s2 s3 -> frame l s1 s3.
Proof.
  intros [H1 K1] [H2 K2]. split; [|auto]. intros y Hy. destruct (H1 y Hy), (H2 y Hy). split; congruence.
Qed.

Lemma link_insert (h : gmap loc loc) x v y : is_Some (h !! y) -> is_Some (<[x := v]> h !! y).
Proof. intros H. destruct (decide (x = y)) as [->|]; [rewrite lookup_insert_eq; by eexists|by rewrite lookup_insert_ne]. Qed.

(** Reads of a map after a few updates. *)
Ltac lk := repeat first
  [ rewrite lookup_insert_eq
  | rewrite lookup_insert_ne by (first [done | congruence | set_solver])
  ].

(** ** Chains with other ends *)

Lemma chain_retarget s s' p l q q' :
  chain s p l q -> NoDup (p :: l) ->
  nexts s' !! default p (last l) = Some q' -> prevs s' !! q' = Some (default p (last l)) ->
  (forall y, y ∈ p :: l -> y <> default p (last l) -> nexts s' !! y = nexts s !! y) ->
  (forall y, y ∈ l -> prevs s' !! y = prevs s !! y) -> chain s' p l q'.
Proof.
  revert p. induction l as [|x l IH]; intros p Hc Hnd Hz1 Hz2 Hn Hp; [done|].
  destruct Hc as (H1 & H2 & Hc). apply NoDup_cons in Hnd as [Hpl Hnd].
  assert (default p (last (x :: l)) = default x (last l)) as E by (rewrite last_cons; by destruct (last l)).
  rewrite E in *. assert (default x (last l) ∈ x :: l) as Hin.
  { destruct (last l) as [z|] eqn:Ez; cbn; [apply elem_of_cons; right; by apply last_Some_elem_of|apply elem_of_cons; by left]. }
  cbn [chain]. split_and!.
  - rewrite Hn; [done|apply elem_of_cons; by left|]. intros ->. done.
  - rewrite Hp; [done|apply elem_of_cons; by left].
  - apply IH; try done; intros y Hy; [intros Hne; apply Hn; [apply elem_of_cons; by right|done]|apply Hp, elem_of_cons; by right].
Qed.

Lemma chain_restart s s' p p' l q :
  chain s p l q -> NoDup (l ++ [q]) ->
  nexts s' !! p' = Some (default q (head l)) -> prevs s' !! default q (head l) = Some p' ->
  (forall y, y ∈ l -> nexts s' !! y = nexts s !! y) ->
  (forall y, y ∈ l ++ [q] -> y <> default q (head l) -> prevs s' !! y = prevs s !! y) -> chain s' p' l q.
Proof.
  destruct l as [|x l]; intros Hc Hnd H1 H2 Hn Hp; [done|]. destruct Hc as (_ & _ & Hc). cbn in *.
  split_and!; [done|done|]. apply NoDup_cons in Hnd as [Hx _]. eapply chain_frame; [exact Hc|done|].
  intros y Hy. apply Hp; [apply elem_of_cons; by right|]. by intros ->.
Qed.

Lemma default_last_elem (p : loc) l : default p (last l) ∈ p :: l.
Proof.
  destruct (last l) as [z|] eqn:Ez; cbn; [apply elem_of_cons; right; by apply last_Some_elem_of|apply elem_of_cons; by left].
Qed.

Lemma default_head_elem (q : loc) l : default q (head l) ∈ l ++ [q].
Proof. destruct l; cbn; set_solver. Qed.

Lemma elem_ne (x y : loc) (l : list loc) : x ∈ l -> y ∉ l -> y <> x.
Proof. by intros H1 H2 ->. Qed.

(** ** The macros *)

Lemma chain_link s p l q x : chain s p l q -> x ∈ l -> link s x.
Proof.
  intros Hc (l1 & l2 & ->)%list_elem_of_split. apply chain_app in Hc as [H1 H2].
  split; [eexists; by eapply chain_next|eexists; by eapply chain_prev].
Qed.

Lemma ring_link s h l x : ring s h l -> x ∈ h :: l -> link s x.
Proof.
  intros [_ Hc] [->|Hx]%elem_of_cons; [|by eapply chain_link]. split; [eexists; by eapply chain_next|eexists; by eapply chain_prev].
Qed.

Lemma queue_init_run s q : link s q -> exists s', ngx_queue_init q s = Some (tt, s') /\ ring s' q [] /\ frame [q] s s'.
Proof.
  intros [H1 H2]. unfold ngx_queue_init. erewrite mthen_run by (by apply set_prev_run).
  rewrite set_next_run by done. eexists. split; [done|]. cbn. split.
  - split; [apply NoDup_singleton|]. cbn. lk. done.
  - split; [intros y Hy; cbn; lk; done|]. intros y [? ?]. split; cbn; by apply link_insert.
Qed.

Lemma queue_empty_run s h l : ring s h l -> ngx_queue_empty h s = Some (bool_decide (l = []), s).
Proof.
  intros [Hnd Hc]. unfold ngx_queue_empty. erewrite mthen_run by (apply prev_run; by eapply chain_prev).
  unfold mret. do 2 f_equal. pose proof (default_last_elem h l) as He. apply NoDup_cons in Hnd as [Hh _].
  destruct l as [|x l]; [by rewrite Z.eqb_refl|]. rewrite bool_decide_false by done. apply Z.eqb_neq.
  destruct (last (x :: l)) as [z|] eqn:Ez; [|by apply last_None in Ez]. cbn in *. intros ->.
  apply Hh. by apply last_Some_elem_of.
Qed.

Lemma insert_head_run s a m x :
  ring s a m -> link s x -> x ∉ a :: m ->
  exists s', ngx_queue_insert_head a x s = Some (tt, s') /\ ring s' a (x :: m) /\ frame (x :: a :: m) s s'.
Proof.
  intros [Hnd Hc] [Hx1 Hx2] Hx. pose proof (default_head_elem a m) as Hb. unfold ngx_queue_insert_head.
  set (b := default a (head m)) in *. assert (x <> a /\ x <> b) as [Hxa Hxb] by set_solver.
  erewrite mthen_run by (apply next_run; by eapply chain_next). fold b.
  erewrite mthen_run by (by apply set_next_run). erewrite mthen_run by (apply next_run; cbn; by lk).
  assert (is_Some (prevs s !! b)) as Hpb.
  { destruct m as [|y m]; cbn in b; [eexists; by eapply chain_prev|]. destruct Hc as (_ & H & _). by eexists. }
  erewrite mthen_run by (by apply set_prev_run). erewrite mthen_run by (apply set_prev_run; cbn; by apply link_insert).
  rewrite set_next_run. 2: { cbn. apply link_insert. eexists; by eapply chain_next. }
  eexists. split; [done|]. cbn. split; [|split; cbn].
  - split. { apply NoDup_cons in Hnd as [Ha Hnd]. repeat (apply NoDup_cons; split); [set_solver..|done]. } cbn [chain]. cbn. lk. split_and!; [done|done|].
    apply (chain_restart s _ a); cbn; fold b; [done| |by lk|by lk| |].
    + rewrite Permutation_app_comm. done.
    + intros y Hy. apply NoDup_cons in Hnd as [Ha _]. rewrite !lookup_insert_ne by congruence || set_solver. done.
    + intros y Hy Hyb. rewrite !lookup_insert_ne by congruence || set_solver. done.
  - intros y Hy. rewrite !lookup_insert_ne by set_solver. done.
  - intros y [? ?]. split; cbn; by repeat apply link_insert.
Qed.

(** After a link of the queue, or after its head. *)
Lemma insert_after_run s h l1 l2 x :
  ring s h (l1 ++ l2) -> link s x -> x ∉ h :: l1 ++ l2 ->
  exists s', ngx_queue_insert_after (default h (last l1)) x s = Some (tt, s') /\ ring s' h (l1 ++ x :: l2) /\
    frame (x :: h :: l1 ++ l2) s s'.
Proof.
  intros Hr Hl Hx. unfold ngx_queue_insert_after. destruct (last l1) as [a|] eqn:Ea; cbn [default id].
  - apply last_Some in Ea as [u ->]. rewrite <- app_assoc in Hr. apply ring_rotate in Hr.
    destruct (insert_head_run s a (l2 ++ h :: u) x Hr Hl) as (s' & E & Hr' & Hf); [set_solver|].
    exists s'. split; [done|]. split.
    + rewrite app_comm_cons in Hr'. apply ring_rotate in Hr'. by rewrite <- app_assoc.
    + destruct Hf as [Hf1 Hf2]. split; [|done]. intros y Hy. apply Hf1. set_solver.
  - apply last_None in Ea as ->. by apply insert_head_run.
Qed.

Lemma insert_tail_run s h l x :
  ring s h l -> link s x -> x ∉ h :: l ->
  exists s', ngx_queue_insert_tail h x s = Some (tt, s') /\ ring s' h (l ++ [x]) /\ frame (x :: h :: l) s s'.
Proof.
  intros Hr Hlx Hx. pose proof Hr as [Hnd Hc]. destruct Hlx as [Hx1 Hx2].
  pose proof (default_last_elem h l) as Hz. unfold ngx_queue_insert_tail.
  erewrite mthen_run by (apply prev_run; by eapply chain_prev). set (z := default h (last l)) in *.
  assert (x <> h /\ x <> z) as [Hxh Hxz] by set_solver.
  erewrite mthen_run by (by apply set_prev_run). erewrite mthen_run by (apply prev_run; cbn; by lk).
  erewrite mthen_run by (apply set_next_run; cbn; by apply (ring_link s h l)).
  erewrite mthen_run by (apply set_next_run; cbn; by apply link_insert).
  rewrite set_prev_run by (cbn; apply link_insert; eexists; by eapply chain_prev).
  eexists. split; [done|]. split; [|split; cbn].
  - split. { rewrite app_comm_cons, Permutation_app_comm. apply NoDup_cons. done. }
    apply chain_app. cbn. lk. split; [|done].
    apply (chain_retarget s _ _ _ h); cbn; fold z; [done|done|by lk|by lk| |].
    + intros y Hy Hyz. rewrite !lookup_insert_ne by congruence || set_solver. done.
    + intros y Hy. apply NoDup_cons in Hnd as [Hh _]. rewrite !lookup_insert_ne by congruence || set_solver. done.
  - intros y Hy. rewrite !lookup_insert_ne by set_solver. done.
  - intros y [? ?]. split; cbn; by repeat apply link_insert.
Qed.

Lemma remove_run s h l1 x l2 :
  ring s h (l1 ++ x :: l2) ->
  exists s', ngx_queue_remove x s = Some (tt, s') /\ ring s' h (l1 ++ l2) /\ frame (h :: l1 ++ l2) s s'.
Proof.
  intros Hr. pose proof Hr as [Hnd Hc]. apply chain_app in Hc as [H1 H2]. unfold ngx_queue_remove.
  pose proof (default_head_elem h l2) as Hn. pose proof (default_last_elem h l1) as Hp.
  pose proof (chain_next _ _ _ _ H2) as En. pose proof (chain_prev _ _ _ _ H1) as Ep.
  set (n := default h (head l2)) in *. set (p := default h (last l1)) in *.
  assert (h ∉ l1 ++ x :: l2) as Hh by (by apply NoDup_cons in Hnd as [? _]).
  assert (NoDup (x :: h :: l1 ++ l2)) as Hnd'.
  { assert (x :: h :: l1 ++ l2 ≡ₚ h :: l1 ++ x :: l2) as ->; [|done].
    rewrite Permutation_swap. apply Permutation_skip. by rewrite Permutation_middle. }
  apply NoDup_cons in Hnd' as [Hx Hnd']. assert (x <> n /\ x <> p) as [Hxn Hxp] by set_solver.
  erewrite mthen_run by (by apply next_run). erewrite mthen_run by (by apply prev_run).
  erewrite mthen_run by (apply set_prev_run; apply (ring_link s h (l1 ++ x :: l2)); [done|set_solver]).
  erewrite mthen_run by (apply prev_run; cbn; lk; exact Ep). erewrite mthen_run by (apply next_run; exact En).
  rewrite set_next_run by (cbn; apply (ring_link s h (l1 ++ x :: l2)); [done|set_solver]).
  eexists. split; [done|]. apply NoDup_cons in Hnd' as [Hh' Hnd'']. split; [split; [by apply NoDup_cons|]|split; cbn].
  - assert (chain (mk_links (<[p := n]> (nexts s)) (<[n := p]> (prevs s))) h l1 n) as Hc1.
    { apply NoDup_app in Hnd'' as (Hn1 & Hn2 & Hn3). apply (chain_retarget s _ _ _ x); cbn; fold p; [done| |by lk|by lk| |].
      + apply NoDup_cons. split; [set_solver|done].
      + intros y Hy Hyz. by rewrite lookup_insert_ne by congruence.
      + intros y Hy. rewrite lookup_insert_ne; [done|]. intros <-. apply elem_of_app in Hn as [Hn| ->%list_elem_of_singleton]; [by apply (Hn2 n)|set_solver]. }
    destruct l2 as [|y l2]; [by rewrite app_nil_r|]. apply chain_app. cbn in n. split; [exact Hc1|].
    destruct H2 as (_ & _ & H2). subst n. apply NoDup_app in Hnd'' as (Hn1 & Hn2 & Hn3). apply NoDup_cons in Hn3 as [Hn3 _].
    assert (p ∉ y :: l2) as Hpy. { apply elem_of_cons in Hp as [->|Hp]; [set_solver|by apply Hn2]. }
    eapply chain_frame; [exact H2|intros w Hw; cbn; rewrite lookup_insert_ne by set_solver; done|].
    intros w Hw. cbn. rewrite lookup_insert_ne; [done|]. set_solver.
  - intros y Hy. rewrite !lookup_insert_ne; [done|set_solver|set_solver].
  - intros y [? ?]. split; cbn; by repeat apply link_insert.
Qed.

Lemma split_run s h l1 q l2 n :
  ring s h (l1 ++ q :: l2) -> link s n -> n ∉ h :: l1 ++ q :: l2 ->
  exists s', ngx_queue_split h q n s = Some (tt, s') /\ ring s' h l1 /\ ring s' n (q :: l2) /\
    frame (n :: h :: l1 ++ q :: l2) s s'.
Proof.
  intros Hr Hln Hn. pose proof Hr as [Hnd Hc]. apply chain_app in Hc as [H1 H2]. destruct Hln as [Hn1 Hn2]. unfold ngx_queue_split.
  pose proof (default_last_elem h l1) as Hy. pose proof (default_last_elem q l2) as Hz.
  pose proof (chain_prev _ _ _ _ H2) as Eh. pose proof (chain_prev _ _ _ _ H1) as Eq.
  set (y := default h (last l1)) in *. set (z := default q (last l2)) in *.
  assert (forall a, a ∈ h :: l1 -> a ∉ q :: l2) as Hdis.
  { rewrite app_comm_cons in Hnd. by apply NoDup_app in Hnd as (_ & ? & _). }
  assert (NoDup (h :: l1) /\ NoDup (q :: l2)) as [Hnd1 Hnd2] by (rewrite app_comm_cons in Hnd; by apply NoDup_app in Hnd as (? & _ & ?)).
  assert ((n ∉ h :: l1) /\ (n ∉ q :: l2)) as [Hnl1 Hnl2] by set_solver.
  assert (n <> y /\ n <> z /\ n <> h /\ n <> q /\ h <> q /\ y <> z) as (? & ? & ? & ? & ? & ?).
  { assert (h ∈ h :: l1 /\ q ∈ q :: l2) as [? ?] by (split; apply elem_of_cons; by left).
    split_and!; [by apply (elem_ne y n (h :: l1))|by apply (elem_ne z n (q :: l2))|by apply (elem_ne h n (h :: l1))|
      by apply (elem_ne q n (q :: l2))|apply (elem_ne q h (q :: l2)); auto|apply (elem_ne z y (q :: l2)); auto]. }
  erewrite mthen_run by (by apply prev_run). erewrite mthen_run by (by apply set_prev_run).
  erewrite mthen_run by (apply prev_run; cbn; by lk).
  erewrite mthen_run by (apply set_next_run; cbn; apply (ring_link _ _ _ _ Hr); set_solver).
  erewrite mthen_run by (apply set_next_run; cbn; by apply link_insert).
  erewrite mthen_run by (apply prev_run; cbn; lk; exact Eq).
  erewrite mthen_run by (apply set_prev_run; cbn; apply link_insert; by eexists).
  erewrite mthen_run by (apply prev_run; cbn; by lk).
  erewrite mthen_run by (apply set_next_run; cbn; do 2 apply link_insert; apply (ring_link _ _ _ _ Hr); set_solver).
  rewrite set_prev_run by (cbn; do 2 apply link_insert; by eexists).
  eexists. split; [done|]. cbn. split_and!; [split; [done|]|split; [by apply NoDup_cons|]|split; cbn].
  - apply (chain_retarget s _ _ _ q); cbn; fold y; [done|done|by lk|by lk| |].
    + intros w Hw Hwy. pose proof (Hdis w Hw). rewrite !lookup_insert_ne by congruence || set_solver. done.
    + intros w Hw. pose proof (Hdis w). apply NoDup_cons in Hnd1 as [? _]. rewrite !lookup_insert_ne by congruence || set_solver. done.
  - cbn [chain]. cbn. lk. split_and!; [done|done|].
    apply (chain_retarget s _ _ _ h); cbn; fold z; [done|done|by lk|by lk| |].
    + intros w Hw Hwz. pose proof (fun H => Hdis w H Hw). rewrite !lookup_insert_ne by congruence || set_solver. done.
    + intros w Hw. pose proof (fun H => Hdis w H). apply NoDup_cons in Hnd2 as [? _]. rewrite !lookup_insert_ne by congruence || set_solver. done.
  - intros w Hw. rewrite !lookup_insert_ne by (intros <-; apply Hw; clear -Hy Hz; set_solver). done.
  - intros w [? ?]. split; cbn; by repeat apply link_insert.
Qed.

Lemma add_run s h l1 n x l2 :
  ring s h l1 -> ring s n (x :: l2) -> (forall a, a ∈ h :: l1 -> a ∉ n :: x :: l2) ->
  exists s', ngx_queue_add h n s = Some (tt, s') /\ ring s' h (l1 ++ x :: l2) /\ frame (h :: l1 ++ x :: l2) s s'.
Proof.
  intros Hr1 Hr2 Hdis. pose proof Hr1 as [Hnd1 H1]. pose proof Hr2 as [Hnd2 (En & Ex & H2)]. unfold ngx_queue_add.
  pose proof (default_last_elem h l1) as Hy. pose proof (default_last_elem x l2) as Hz.
  pose proof (chain_prev _ _ _ _ H1) as Eh. pose proof (chain_prev _ _ _ _ H2) as Enp.
  set (y := default h (last l1)) in *. set (z := default x (last l2)) in *.
  apply NoDup_cons in Hnd2 as [Hn Hnd2].
  assert (y <> n /\ h <> x /\ h <> n /\ x <> n /\ y <> z) as (? & ? & ? & ? & ?).
  { assert (h ∈ h :: l1 /\ x ∈ n :: x :: l2 /\ n ∈ n :: x :: l2 /\ z ∈ n :: x :: l2 /\ x ∈ x :: l2) as (? & ? & ? & ? & ?)
      by (repeat split; rewrite !elem_of_cons; (by left) || (right; by left) || (right; by apply elem_of_cons)).
    split_and!; [apply (elem_ne n y (n :: x :: l2)); auto|apply (elem_ne x h (n :: x :: l2)); auto|
      apply (elem_ne n h (n :: x :: l2)); auto|apply not_eq_sym, (elem_ne x n (x :: l2)); auto|apply (elem_ne z y (n :: x :: l2)); auto]. }
  erewrite mthen_run by (by apply prev_run). erewrite mthen_run by (by apply next_run).
  erewrite mthen_run by (apply set_next_run; apply (ring_link _ _ _ _ Hr1); done).
  erewrite mthen_run by (apply next_run; cbn; by lk). erewrite mthen_run by (by apply prev_run).
  erewrite mthen_run by (apply set_prev_run; by eexists).
  erewrite mthen_run by (apply prev_run; cbn; lk; exact Enp).
  erewrite mthen_run by (apply set_prev_run; cbn; apply link_insert; by eexists).
  erewrite mthen_run by (apply prev_run; cbn; by lk).
  rewrite set_next_run by (cbn; apply link_insert; apply (ring_link _ _ _ _ Hr2); set_solver).
  eexists. split; [done|]. cbn. split; [split|split; cbn].
  - rewrite app_comm_cons. apply NoDup_app. split_and!; [done| |done]. intros a Ha Ha'. apply (Hdis a Ha), elem_of_cons. by right.
  - apply chain_app. split.
    + apply (chain_retarget s _ _ _ h); cbn; fold y; [done|done|by lk|by lk| |].
      * intros w Hw Hwy. pose proof (Hdis w Hw). rewrite !lookup_insert_ne by congruence || set_solver. done.
      * intros w Hw. pose proof (Hdis w). apply NoDup_cons in Hnd1 as [? _]. rewrite !lookup_insert_ne by congruence || set_solver. done.
    + apply (chain_retarget s _ _ _ n); cbn; fold z; [done|done|by lk|by lk| |].
      * intros w Hw Hwz. pose proof (fun H => Hdis w H). rewrite !lookup_insert_ne by congruence || set_solver. done.
      * intros w Hw. pose proof (fun H => Hdis w H). apply NoDup_cons in Hnd2 as [? _]. rewrite !lookup_insert_ne by congruence || set_solver. done.
  - intros w Hw. rewrite !lookup_insert_ne by (intros <-; apply Hw; clear -Hy Hz; set_solver). done.
  - intros w [? ?]. split; cbn; by repeat apply link_insert.
Qed.

(** ** [ngx_queue_middle] *)

Lemma ring_next s h l i x : ring s h l -> l !! i = Some x -> nexts s !! x = Some (default h (l !! S i)).
Proof.
  intros [_ Hc] Hi. rewrite <- (take_drop_middle l i x Hi) in Hc. apply chain_app in Hc as [_ Hc].
  rewrite (chain_next _ _ _ _ Hc), head_lookup, lookup_drop. do 3 f_equal. lia.
Qed.

Lemma ring_last_eq s h l i x : ring s h l -> l !! i = Some x -> prevs s !! h = Some x <-> S i = length l.
Proof.
  intros [Hnd Hc] Hi. rewrite (chain_prev _ _ _ _ Hc), last_lookup. apply NoDup_cons in Hnd as [_ Hnd].
  pose proof (lookup_lt_Some _ _ _ Hi) as Hlt.
  destruct (lookup_lt_is_Some_2 l (pred (length l))) as [y Hy]; [lia|]. rewrite Hy. cbn. split.
  - intros [= ->]. pose proof (NoDup_lookup l _ _ x Hnd Hi Hy). lia.
  - intros E. f_equal. rewrite <- E in Hy. cbn in Hy. congruence.
Qed.

Lemma ring_last_test s h l i x z :
  ring s h l -> l !! i = Some x -> prevs s !! h = Some z -> (x =? z) = bool_decide (S i = length l).
Proof.
  intros Hr Hi Hz. pose proof (ring_last_eq s h l i x Hr Hi) as H. destruct (Z.eqb_spec x z) as [->|Hne]; symmetry.
  - apply bool_decide_eq_true. by apply H.
  - apply bool_decide_eq_false. rewrite <- H. congruence.
Qed.

Lemma middle_loop_run s h l fuel i m n :
  ring s h l -> l !! i = Some m -> l !! (2 * i)%nat = Some n -> (S (2 * i) < length l)%nat -> (length l <= fuel + i)%nat ->
  exists x, middle_loop fuel h m n s = Some (x, s) /\ l !! (length l / 2)%nat = Some x.
Proof.
  intros Hr. pose proof Hr as [_ Hc]. pose proof (chain_prev _ _ _ _ Hc) as Ez. set (z := default h (last l)) in *.
  revert i m n. induction fuel as [|fuel IH]; intros i m n Hm Hn Hlt Hf; [lia|]. cbn [middle_loop].
  destruct (lookup_lt_is_Some_2 l (S i)) as [m1 Hm1]; [lia|]. destruct (lookup_lt_is_Some_2 l (S (2 * i))) as [n1 Hn1]; [lia|].
  erewrite mthen_run by (apply next_run; by eapply ring_next). rewrite Hm1. cbn [default id].
  erewrite mthen_run by (apply next_run; by eapply ring_next). rewrite Hn1. cbn [default id].
  erewrite mthen_run by (by apply prev_run). rewrite (ring_last_test s h l _ n1 z Hr Hn1 Ez).
  case_bool_decide as E1.
  { exists m1. split; [done|]. rewrite <- E1. by replace (S (S (2 * i)) / 2)%nat with (S i) by (apply Nat.div_unique with 0%nat; lia). }
  destruct (lookup_lt_is_Some_2 l (S (S (2 * i)))) as [n2 Hn2]; [lia|].
  erewrite mthen_run by (apply next_run; by eapply ring_next). rewrite Hn2. cbn [default id].
  erewrite mthen_run by (by apply prev_run). rewrite (ring_last_test s h l _ n2 z Hr Hn2 Ez).
  case_bool_decide as E2.
  { exists m1. split; [done|]. rewrite <- E2. by replace (S (S (S (2 * i))) / 2)%nat with (S i) by (apply Nat.div_unique with 1%nat; lia). }
  apply (IH (S i)); [done|by replace (2 * S i)%nat with (S (S (2 * i))) by lia|lia|lia].
Qed.

(** The link in the middle; the head when the queue is empty. *)
Lemma middle_run s h l :
  ring s h l -> ngx_queue_middle h s = Some (default h (l !! (length l / 2)%nat), s).
Proof.
  intros Hr. pose proof Hr as [Hnd Hc]. unfold ngx_queue_middle.
  erewrite mthen_run by (apply next_run; by eapply chain_next). erewrite mthen_run by (apply prev_run; by eapply chain_prev).
  destruct l as [|x l]; [by rewrite Z.eqb_refl|]. cbn [head default id].
  rewrite (ring_last_test s h (x :: l) 0 x _ Hr eq_refl (chain_prev _ _ _ _ Hc)). case_bool_decide as E.
  { cbn in E. destruct l; [done|cbn in E; lia]. }
  erewrite mthen_run by (apply next_run; by eapply chain_next). erewrite mthen_run by reflexivity. cbn [head default id].
  pose proof (ring_size _ _ _ Hr) as Hsz.
  destruct (middle_loop_run s h (x :: l) (size (nexts s)) 0 x x Hr eq_refl eq_refl) as (y & E1 & E2); [cbn in *; lia|cbn in *; lia|].
  rewrite E1, E2. done.
Qed.

(** ** [ngx_queue_sort] *)

Section sorting.
Context (cmp : loc -> loc -> Z).

Lemma ring_prev s h l1 x l2 : ring s h (l1 ++ x :: l2) -> prevs s !! x = Some (default h (last l1)).
Proof. intros [_ Hc]. apply chain_app in Hc as [H _]. by eapply chain_prev. Qed.

Lemma sort_back_run s h q post rpre x fuel :
  ring s h (reverse (x :: rpre) ++ post) -> (length rpre < fuel)%nat ->
  exists l1 l2, reverse (x :: rpre) = l1 ++ l2 /\ sort_back cmp fuel h x q s = Some (default h (last l1), s) /\
    insert_down cmp q (x :: rpre) = l1 ++ q :: l2.
Proof.
  revert x post fuel. induction rpre as [|y rpre IH]; intros x post fuel Hr Hf; (destruct fuel as [|fuel]; [lia|]);
    cbn [sort_back insert_down]; rewrite Z.leb_antisym;
    (destruct (0 <? cmp x q); cbn [negb];
      [|match goal with |- context [reverse ?r ++ [q]] => exists (reverse r), [] end; rewrite app_nil_r;
        split_and!; [done|by rewrite reverse_cons, last_snoc|done]]);
    rewrite reverse_cons, <- app_assoc in Hr; pose proof (ring_prev _ _ _ _ _ Hr) as Ep; (erewrite mthen_run by (by apply prev_run)).
  - cbn. rewrite Z.eqb_refl. by exists [], [x].
  - assert (default h (last (reverse (y :: rpre))) = y) as Ey by (by rewrite reverse_cons, last_snoc). rewrite Ey.
    assert (y <> h). { intros ->. destruct Hr as [Hnd _]. apply NoDup_cons in Hnd as [Hnd _]. rewrite reverse_cons in Hnd. set_solver. }
    rewrite (proj2 (Z.eqb_neq _ _)) by done.
    destruct (IH y ([x] ++ post) fuel) as (l1 & l2 & E1 & E2 & E3); [done|cbn in Hf; lia|].
    exists l1, (l2 ++ [x]). rewrite (reverse_cons (y :: rpre)), E1, <- app_assoc. split; [done|]. split; [done|].
    cbn [insert_down] in E3. rewrite E1 in E3. rewrite E3, <- app_assoc. done.
Qed.

Lemma sort_loop_run s h sorted rest fuel :
  ring s h (sorted ++ rest) -> sorted <> [] -> (length rest <= fuel)%nat ->
  exists s', sort_loop cmp fuel h (default h (head rest)) s = Some (tt, s') /\ ring s' h (insert_all cmp sorted rest) /\
    frame (h :: sorted ++ rest) s s'.
Proof.
  revert s sorted fuel. induction rest as [|q rest IH]; intros s sorted fuel Hr Hne Hf.
  { rewrite app_nil_r in *. exists s. split; [destruct fuel; cbn; by rewrite Z.eqb_refl|]. by split. }
  destruct fuel as [|fuel]; [cbn in Hf; lia|]. cbn [head default id sort_loop insert_all].
  assert (q <> h) as Hqh. { destruct Hr as [Hnd _]. apply NoDup_cons in Hnd as [Hnd _]. set_solver. }
  rewrite (proj2 (Z.eqb_neq _ _) Hqh). erewrite mthen_run by (apply prev_run; by eapply ring_prev).
  assert (nexts s !! q = Some (default h (head rest))) as En.
  { destruct Hr as [_ Hc]. apply chain_app in Hc as [_ Hc]. by eapply chain_next. }
  erewrite mthen_run by (by apply next_run).
  assert (link s q) as Hlq by (apply (ring_link _ _ _ _ Hr), elem_of_cons; right; apply elem_of_app; right; apply elem_of_cons; by left).
  assert (q ∉ h :: sorted ++ rest) as Hq.
  { destruct Hr as [Hnd _]. rewrite <- (Permutation_middle sorted rest q), Permutation_swap in Hnd. by apply NoDup_cons in Hnd as [? _]. }
  destruct (remove_run s h sorted q rest Hr) as (s1 & E1 & Hr1 & Hf1). erewrite mthen_run by exact E1.
  erewrite mthen_run by reflexivity.
  destruct (reverse sorted) as [|x rpre] eqn:Erev; [by apply (f_equal reverse) in Erev; rewrite reverse_involutive in Erev|].
  assert (sorted = reverse (x :: rpre)) as -> by (by rewrite <- Erev, reverse_involutive).
  destruct (sort_back_run s1 h q rest rpre x (size (nexts s1)) Hr1) as (l1 & l2 & El & E2 & E3).
  { pose proof (ring_size _ _ _ Hr1) as H. rewrite length_app, length_reverse in H. cbn in H. lia. }
  rewrite reverse_cons, last_snoc. cbn [default id]. erewrite mthen_run by exact E2.
  rewrite El, <- app_assoc in Hr1. pose proof (proj2 Hf1 q Hlq) as Hlq1.
  rewrite El, <- app_assoc in Hq.
  destruct (insert_after_run s1 h l1 (l2 ++ rest) q Hr1 Hlq1 Hq) as (s2 & E4 & Hr2 & Hf2). erewrite mthen_run by exact E4.
  rewrite E3. change (q :: l2 ++ rest) with ((q :: l2) ++ rest) in Hr2. rewrite app_assoc in Hr2.
  destruct (IH s2 (l1 ++ q :: l2) fuel Hr2) as (s3 & E5 & Hr3 & Hf3); [by destruct l1|cbn in Hf; lia|].
  exists s3. split; [exact E5|]. split; [exact Hr3|]. rewrite reverse_cons in El.
  assert (forall y, y ∉ h :: (reverse rpre ++ [x]) ++ q :: rest -> (y ∉ h :: (l1 ++ l2) ++ rest) /\ y <> q) as Hsub.
  { intros y Hy. rewrite El in Hy. split; [|intros ->]; set_solver. }
  destruct Hf1 as [F1 G1], Hf2 as [F2 G2], Hf3 as [F3 G3]. split; [|auto]. intros y Hy%Hsub.
  rewrite reverse_cons, El in F1. destruct Hy as [Hy1 Hy2].
  destruct (F1 y), (F2 y), (F3 y); [clear -Hy1 Hy2; set_solver..|]. split; congruence.
Qed.

(** The queue is sorted the way [insert_all] sorts a list. *)
Lemma queue_sort_run s h l :
  ring s h l ->
  exists s', ngx_queue_sort cmp h s = Some (tt, s') /\ ring s' h (insert_all cmp [] l) /\ frame (h :: l) s s'.
Proof.
  intros Hr. pose proof Hr as [Hnd Hc]. unfold ngx_queue_sort.
  erewrite mthen_run by (apply next_run; by eapply chain_next). erewrite mthen_run by (apply prev_run; by eapply chain_prev).
  destruct l as [|x l]; [rewrite Z.eqb_refl; exists s; by split_and!|]. cbn [head default id].
  rewrite (ring_last_test s h (x :: l) 0 x _ Hr eq_refl (chain_prev _ _ _ _ Hc)). case_bool_decide as E.
  { destruct l; [|cbn in E; lia]. exists s. by split_and!. }
  erewrite mthen_run by (apply next_run; by eapply (ring_next _ _ _ 0)). erewrite mthen_run by reflexivity.
  change ((x :: l) !! 1%nat) with (l !! 0%nat). rewrite <- head_lookup.
  pose proof (ring_size _ _ _ Hr) as Hsz. by apply (sort_loop_run s h [x] l); [| |cbn in *; lia].
Qed.
End sorting.

(** * The theorems *)

(** C30: the queue refines a list: on a queue that holds the links [l] the macros
    insert at the front and at the end, remove a link, cut the list in two and join
    two lists, [ngx_queue_middle] returns the link in the middle, and no other link
    changes. *)
Theorem queue_refines_list s h l :
  ring s h l ->
  (ngx_queue_empty h s = Some (bool_decide (l = []), s)) /\
  (forall x, link s x -> x ∉ h :: l ->
    exists s', ngx_queue_insert_head h x s = Some (tt, s') /\ ring s' h (x :: l) /\ frame (x :: h :: l) s s') /\
  (forall x, link s x -> x ∉ h :: l ->
    exists s', ngx_queue_insert_tail h x s = Some (tt, s') /\ ring s' h (l ++ [x]) /\ frame (x :: h :: l) s s') /\
  (forall l1 x l2, l = l1 ++ x :: l2 ->
    exists s', ngx_queue_remove x s = Some (tt, s') /\ ring s' h (l1 ++ l2) /\ frame (h :: l1 ++ l2) s s') /\
  (forall l1 q l2 n, l = l1 ++ q :: l2 -> link s n -> n ∉ h :: l ->
    exists s', ngx_queue_split h q n s = Some (tt, s') /\ ring s' h l1 /\ ring s' n (q :: l2) /\ frame (n :: h :: l) s s') /\
  (forall n x l2, ring s n (x :: l2) -> (forall a, a ∈ h :: l -> a ∉ n :: x :: l2) ->
    exists s', ngx_queue_add h n s = Some (tt, s') /\ ring s' h (l ++ x :: l2) /\ frame (h :: l ++ x :: l2) s s') /\
  ngx_queue_middle h s = Some (default h (l !! (length l / 2)%nat), s).
Proof.
  intros Hr. split_and!.
  - by apply queue_empty_run.
  - intros x Hx. by apply insert_head_run.
  - intros x Hx. by apply insert_tail_run.
  - intros l1 x l2 ->. by apply remove_run.
  - intros l1 q l2 n -> Hn. by apply split_run.
  - intros n x l2 Hn Hd. by apply add_run.
  - by apply middle_run.
Qed.

(** [ngx_queue_sort] sorts the queue stably, for a comparison that is
    antisymmetric by sign and transitive. *)
Theorem queue_sort_stable (cmp : loc -> loc -> Z) s h l :
  (forall x y, 0 < cmp x y <-> cmp y x < 0) ->
  (forall x y z, cmp x y <= 0 -> cmp y z <= 0 -> cmp x z <= 0) ->
  ring s h l ->
  exists s' l', ngx_queue_sort cmp h s = Some (tt, s') /\ ring s' h l' /\ frame (h :: l) s s' /\
    StronglySorted (fun x y => cmp x y <= 0) l' /\ l' ≡ₚ l /\
    forall k, filter (fun x => cmp x k = 0) l' = filter (fun x => cmp x k = 0) l.
Proof.
  intros Ha Ht Hr. destruct (queue_sort_run cmp s h l Hr) as (s' & E & Hr' & Hf).
  destruct (insert_all_correct cmp Ha Ht [] l) as (H1 & H2 & H3); [constructor|]. exists s', (insert_all cmp [] l).
  split_and!; try done.
Qed.

(** A queue of three links, made with the macros. *)
Definition sample_links : links :=
  match (ngx_queue_init 8 ;; ngx_queue_insert_tail 8 30 ;; ngx_queue_insert_tail 8 20 ;; ngx_queue_insert_tail 8 40)
          (let z := gset_to_gmap 0 (list_to_set [8; 20; 30; 40; 50]) in mk_links z z) with
  | Some (_, s) => s
  | None => mk_links ∅ ∅
  end.

Lemma sample_ring : ring sample_links 8 [30; 20; 40].
Proof. split; [by apply (bool_decide_unpack _); vm_compute|]. vm_compute. done. Qed.

Lemma queue_refines_list_witness :
  exists s', ngx_queue_remove 20 sample_links = Some (tt, s') /\ ring s' 8 [30; 40] /\ frame [8; 30; 40] sample_links s'.
Proof.
  destruct (queue_refines_list sample_links 8 [30; 20; 40] sample_ring) as (_ & _ & _ & H & _).
  exact (H [30] 20 [40] eq_refl).
Defined.

Lemma queue_sort_stable_witness :
  exists s' l', ngx_queue_sort Z.sub 8 sample_links = Some (tt, s') /\ ring s' 8 l' /\ frame [8; 30; 20; 40] sample_links s' /\
    StronglySorted (fun x y => x - y <= 0) l' /\ l' ≡ₚ [30; 20; 40] /\
    forall k, filter (fun x => x - k = 0) l' = filter (fun x => x - k = 0) [30; 20; 40].
Proof. apply (queue_sort_stable Z.sub sample_links 8 [30; 20; 40]); [lia|lia|exact sample_ring]. Defined.

Example sample_sorted :
  option_map (fun r => map_to_list (nexts r.2)) (ngx_queue_sort Z.sub 8 sample_links) =
  option_map (fun r => map_to_list (nexts r.2))
    ((ngx_queue_init 8 ;; ngx_queue_insert_tail 8 20 ;; ngx_queue_insert_tail 8 30 ;; ngx_queue_insert_tail 8 40) sample_links).
Proof. vm_compute. reflexivity. Qed.
