(* ===== verification/NgxHttpLocation.v ===== *)
(** Locations: how src/http/ngx_http.c turns the locations of a server into a tree
    and how src/http/ngx_http_core_module.c looks a URI up in it.

    A configuration ([ngx_http_core_loc_conf_t]) is at an address; its flags are read
    through [clcf].  A queue of locations is the list of its elements ([NgxQueue]
    shows that the queue operations used here act as operations on lists).  The
    functions of the C library compare strings; only the sign of their result is used.
    Names come from the configuration file and have no NUL inside. *)

From stdpp Require Import sorting.
From S2P Require Import Prelude NgxStr NgxStore NgxQueue.

Open Scope Z_scope.

Abbreviation bytes := (list Z).

(** The part of [ngx_http_core_loc_conf_t] that the look-up uses; [regex] tells that
    the location has a regular expression. *)
Record ngx_http_core_loc_conf_t := mk_clcf {
  name : bytes;
  exact_match : bool;
  noregex : bool;
  named : bool;
  noname : bool;
  auto_redirect : bool;
  regex : bool;
}.

(** An element of a queue of locations; [NULL] when there is no such location. *)
Inductive ngx_http_location_queue_t := mk_lq {
  lq_exact : loc;
  lq_inclusive : loc;
  lq_name : bytes;
  lq_list : list ngx_http_location_queue_t;
}.
Abbreviation lqueue := ngx_http_location_queue_t.

(** [ngx_http_location_tree_node_t]; [Null] is the null pointer. *)
Inductive ngx_http_location_tree_node_t :=
| Null
| Node (left right tree : ngx_http_location_tree_node_t) (exact inclusive : loc) (auto : bool) (len : Z) (nname : bytes).
Abbreviation tree_node := ngx_http_location_tree_node_t.

Definition sgn (c : comparison) : Z := match c with Lt => -1 | Eq => 0 | Gt => 1 end.
Definition strcmp (a b : bytes) : Z := sgn (lex a b).
Definition memcmp (a b : bytes) (n : nat) : Z := sgn (lex (take n a) (take n b)).

Section operations.
Context (clcf : loc -> ngx_http_core_loc_conf_t).

(** * Making the queue *)

Definition ngx_http_add_location (locations : list lqueue) (c : loc) : list lqueue :=
  locations ++
  [if exact_match (clcf c) || regex (clcf c) || named (clcf c) || noname (clcf c)
   then mk_lq c NULL (name (clcf c)) []
   else mk_lq NULL c (name (clcf c)) []].

Definition lq_conf (lq : lqueue) : ngx_http_core_loc_conf_t :=
  clcf (if negb (lq_exact lq =? NULL) then lq_exact lq else lq_inclusive lq).

Definition ngx_http_cmp_locations (one two : lqueue) : Z :=
  let first := lq_conf one in
  let second := lq_conf two in
  if noname first && negb (noname second) then 1
  else if negb (noname first) && noname second then -1
  else if noname first || noname second then 0
  else if named first && negb (named second) then 1
  else if negb (named first) && named second then -1
  else if named first && named second then strcmp (name first) (name second)
  else if regex first && negb (regex second) then 1
  else if negb (regex first) && regex second then -1
  else if regex first || regex second then 0
  else
    let rc := strcmp (name first) (name second) in
    if (rc =? 0) && negb (exact_match first) && exact_match second then 1 else rc.

(** The loop of [ngx_http_init_locations]: the static locations, those with a regular
    expression and the named ones of a sorted queue.  The loop stops at the first
    location without a name and the rest of the queue is cut off.  The allocation of
    the two arrays is taken to succeed. *)
Fixpoint until_noname (l : list lqueue) : list lqueue :=
  match l with
  | [] => []
  | lq :: l' =>
      if negb (regex (lq_conf lq)) && negb (named (lq_conf lq)) && noname (lq_conf lq) then []
      else lq :: until_noname l'
  end.

(** From the first element that satisfies [f] on. *)
Fixpoint from_first (f : lqueue -> bool) (l : list lqueue) : list lqueue :=
  match l with
  | [] => []
  | lq :: l' => if f lq then l else from_first f l'
  end.

Fixpoint before_first (f : lqueue -> bool) (l : list lqueue) : list lqueue :=
  match l with
  | [] => []
  | lq :: l' => if f lq then [] else lq :: before_first f l'
  end.

Record init_result := mk_init {
  locations : list lqueue;
  regex_locations : list loc;
  named_locations : list loc;
}.

Definition is_regex (lq : lqueue) : bool := regex (lq_conf lq).
Definition is_named (lq : lqueue) : bool := negb (regex (lq_conf lq)) && named (lq_conf lq).

Definition ngx_http_init_locations (l : list lqueue) : init_result :=
  let l := until_noname (insert_all ngx_http_cmp_locations [] l) in
  let named_ := from_first is_named l in
  let l := before_first is_named l in
  let regex_ := from_first is_regex l in
  mk_init (before_first is_regex l) (lq_exact <$> regex_) (lq_exact <$> named_).

(** * Exact and inclusive locations of one name *)

(** [q] is the element the loop is at; [None] is the error "duplicate location". *)
Fixpoint join_from (q : lqueue) (l : list lqueue) : option (list lqueue) :=
  match l with
  | [] => Some [q]
  | x :: l' =>
      if strcmp (lq_name q) (lq_name x) =? 0 then
        if (negb (lq_exact q =? NULL) && negb (lq_exact x =? NULL)) ||
           (negb (lq_inclusive q =? NULL) && negb (lq_inclusive x =? NULL))
        then None
        else join_from (mk_lq (lq_exact q) (lq_inclusive x) (lq_name q) (lq_list q)) l'
      else
        match join_from x l' with Some r => Some (q :: r) | None => None end
  end.

Definition ngx_http_join_exact_locations (l : list lqueue) : option (list lqueue) :=
  match l with [] => Some [] | q :: l' => join_from q l' end.

(** * Nesting *)

(** [len > lx->name->len || ngx_strncmp(name, lx->name->data, len) != 0] *)
Definition outside (nm : bytes) (x : lqueue) : bool :=
  (length (lq_name x) <? length nm)%nat || negb (strcmp nm (take (length nm) (lq_name x)) =? 0).

Fixpoint create_list (fuel : nat) (l : list lqueue) : list lqueue :=
  match fuel, l with
  | S fuel', lq :: (_ :: _) as rest =>
      if lq_inclusive lq =? NULL then lq :: create_list fuel' rest
      else
        let inside := before_first (outside (lq_name lq)) rest in
        let after := from_first (outside (lq_name lq)) rest in
        match inside with
        | [] => lq :: create_list fuel' after
        | _ :: _ =>
            mk_lq (lq_exact lq) (lq_inclusive lq) (lq_name lq) (create_list fuel' (lq_list lq ++ inside)) ::
            create_list fuel' after
        end
  | _, _ => l
  end.

Definition ngx_http_create_locations_list (l : list lqueue) : list lqueue := create_list (length l) l.

(** * The tree *)

(** [budget] allocations succeed, the next one fails. *)
Fixpoint create_tree (fuel budget : nat) (l : list lqueue) (prefix : nat) : option (tree_node * nat) :=
  match fuel, budget, l !! (length l / 2)%nat with
  | S fuel', S budget', Some lq =>
      let len := (length (lq_name lq) - prefix)%nat in
      let auto := (negb (lq_exact lq =? NULL) && auto_redirect (clcf (lq_exact lq)))
                  || (negb (lq_inclusive lq =? NULL) && auto_redirect (clcf (lq_inclusive lq))) in
      let before := take (length l / 2) l in
      let after := drop (S (length l / 2)) l in
      match (match before with [] => Some (Null, budget') | _ => create_tree fuel' budget' before prefix end) with
      | None => None
      | Some (lt, b1) =>
          match (match after with [] => Some (Null, b1) | _ => create_tree fuel' b1 after prefix end) with
          | None => None
          | Some (rt, b2) =>
              match (match lq_list lq with [] => Some (Null, b2) | _ => create_tree fuel' b2 (lq_list lq) (prefix + len) end) with
              | None => None
              | Some (st, b3) =>
                  Some (Node lt rt st (lq_exact lq) (lq_inclusive lq) auto
                          (Z.of_nat len mod 256) (drop prefix (lq_name lq)), b3)
              end
          end
      end
  | _, _, _ => None
  end.

(** The number of elements of a queue with those inside. *)
Fixpoint weight (lq : lqueue) : nat :=
  S ((fix go l := match l with [] => O | x :: l' => (weight x + go l')%nat end) (lq_list lq)).
Definition weights (l : list lqueue) : nat := foldr (fun lq n => (weight lq + n)%nat) O l.

Definition ngx_http_create_locations_tree (budget : nat) (l : list lqueue) (prefix : nat) : option (tree_node * nat) :=
  create_tree (weights l) budget l prefix.

(** [ngx_http_init_static_location_trees] for one level; [None] is [NGX_ERROR]. *)
Definition ngx_http_init_static_location_trees (budget : nat) (l : list lqueue) : option tree_node :=
  match l with
  | [] => Some Null
  | _ =>
      match ngx_http_join_exact_locations l with
      | None => None
      | Some l =>
          match ngx_http_create_locations_tree budget (ngx_http_create_locations_list l) 0 with
          | None => None
          | Some (t, _) => Some t
          end
      end
  end.

(** * Looking a URI up *)

(** The loop of [ngx_http_core_find_static_location]: the result and [r->loc_conf]. *)
Fixpoint find_static (node : tree_node) (uri : bytes) (rv : Z) (loc_conf : loc) : Z * loc :=
  match node with
  | Null => (rv, loc_conf)
  | Node lt rt st exact inclusive auto len nm =>
      let ulen := Z.of_nat (length uri) in
      let n := if ulen <=? len then ulen else len in
      let rc := memcmp uri nm (Z.to_nat n) in
      if negb (rc =? 0) then
        if rc <? 0 then find_static lt uri rv loc_conf else find_static rt uri rv loc_conf
      else if ulen >? len then
        if negb (inclusive =? NULL) then find_static st (drop (Z.to_nat n) uri) NGX_AGAIN inclusive
        else find_static rt uri rv loc_conf
      else if ulen =? len then
        if negb (exact =? NULL) then (NGX_OK, exact) else (NGX_AGAIN, inclusive)
      else if (ulen + 1 =? len) && auto then
        find_static lt uri NGX_DONE (if negb (exact =? NULL) then exact else inclusive)
      else find_static lt uri rv loc_conf
  end.

Definition ngx_http_core_find_static_location (node : tree_node) (uri : bytes) (loc_conf : loc) : Z * loc :=
  find_static node uri NGX_DECLINED loc_conf.

(** ** With nested locations and regular expressions *)

Context (static_locations : loc -> tree_node) (regexes : loc -> list loc)
        (ngx_http_regex_exec : loc -> bytes -> Z).

Section regex_loop.
Context (find_location : loc -> option (Z * loc)) (uri : bytes).

(** [for (clcfp = pclcf->regex_locations; *clcfp; clcfp++)] *)
Fixpoint regex_loop (l : list loc) (rc : Z) (loc_conf : loc) : option (Z * loc) :=
  match l with
  | [] => Some (rc, loc_conf)
  | c :: l' =>
      let n := ngx_http_regex_exec c uri in
      if n =? NGX_OK then
        match find_location c with
        | Some (rc, lc) => Some (if rc =? NGX_ERROR then rc else NGX_OK, lc)
        | None => None
        end
      else if n =? NGX_DECLINED then regex_loop l' rc loc_conf
      else Some (NGX_ERROR, loc_conf)
  end.
End regex_loop.

(** [pclcf] is the configuration of the request when the function is called. *)
Fixpoint find_location (fuel : nat) (uri : bytes) (pclcf : loc) : option (Z * loc) :=
  match fuel with
  | O => None
  | S fuel' =>
      let '(rc, lc) := ngx_http_core_find_static_location (static_locations pclcf) uri pclcf in
      match (if rc =? NGX_AGAIN
             then match find_location fuel' uri lc with
                  | Some (rc, lc') => Some (rc, lc', noregex (clcf lc))
                  | None => None
                  end
             else Some (rc, lc, false)) with
      | None => None
      | Some (rc, lc, nore) =>
          if (rc =? NGX_OK) || (rc =? NGX_DONE) then Some (rc, lc)
          else if negb nore then regex_loop (find_location fuel' uri) uri (regexes pclcf) rc lc
          else Some (rc, lc)
      end
  end.
End operations.

(** * The order of names *)

Lemma lex_app p a b : lex (p ++ a) (p ++ b) = lex a b.
Proof. induction p as [|x p IH]; [done|]. cbn. by rewrite Z.compare_refl. Qed.

Lemma blt_app a s : s <> [] -> blt a (a ++ s).
Proof. intros Hs. rewrite <- (app_nil_r a) at 1. rewrite lex_app. by destruct s. Qed.

(** What differs from a name stays on its side when it is extended. *)
Lemma blt_extend a b s : blt a b -> ~ a `prefix_of` b -> blt (a ++ s) b.
Proof.
  revert b. induction a as [|x a IH]; intros [|y b]; cbn; try done.
  - intros _ H. exfalso. apply H. apply prefix_nil.
  - destruct (Z.compare_spec x y) as [->|H1|H1]; try done. intros H2 H3. apply IH; [done|]. intros H4. apply H3. by apply prefix_cons.
Qed.

Lemma prefix_not_blt a b : a `prefix_of` b -> ~ blt b a.
Proof.
  intros [s ->]. rewrite <- lex_gt. rewrite <- (app_nil_r a) at 1. rewrite lex_app. by destruct s.
Qed.

Lemma prefix_le a b c : a `prefix_of` b -> blt c a -> blt c b.
Proof.
  intros [s ->] H. destruct s as [|x s]; [by rewrite app_nil_r|]. eapply blt_trans; [done|]. by apply blt_app.
Qed.

(** A comparison over the common length. *)
Inductive compared (a b : bytes) : Z -> Prop :=
| compared_less : blt a b -> ~ a `prefix_of` b -> ~ b `prefix_of` a -> compared a b (-1)
| compared_equal : a `prefix_of` b \/ b `prefix_of` a -> compared a b 0
| compared_greater : blt b a -> ~ a `prefix_of` b -> ~ b `prefix_of` a -> compared a b 1.

Lemma memcmp_compared a b : compared a b (memcmp a b (length a `min` length b)).
Proof.
  unfold memcmp. revert b. induction a as [|x a IH]; intros [|y b]; cbn; try (constructor; (left; apply prefix_nil) || (right; apply prefix_nil)).
  destruct (Z.compare_spec x y) as [->|H|H]; cbn.
  - destruct (IH b) as [H1 H2 H3|H1|H1 H2 H3]; constructor; cbn; rewrite ?Z.compare_refl; try done.
    + by intros ?%prefix_cons_inv_2. + by intros ?%prefix_cons_inv_2.
    + destruct H1; [left|right]; by apply prefix_cons.
    + by intros ?%prefix_cons_inv_2. + by intros ?%prefix_cons_inv_2.
  - constructor; [cbn; by rewrite (proj2 (Z.compare_lt_iff _ _))|intros ?%prefix_cons_inv_1; lia..].
  - constructor; [cbn; by rewrite (proj2 (Z.compare_lt_iff _ _))|intros ?%prefix_cons_inv_1; lia..].
Qed.

Lemma prefix_app_cancel (p a b : bytes) : p ++ a `prefix_of` p ++ b <-> a `prefix_of` b.
Proof. split; [apply prefix_app_inv|apply prefix_app]. Qed.

Lemma compared_app p a b z : compared a b z -> compared (p ++ a) (p ++ b) z.
Proof.
  intros []; constructor; rewrite ?lex_app, ?prefix_app_cancel; done.
Qed.

(** * Queues with lists inside *)

(** The elements of a queue and of the lists inside, each without its list. *)
Fixpoint flat1 (lq : lqueue) : list lqueue :=
  mk_lq (lq_exact lq) (lq_inclusive lq) (lq_name lq) [] ::
  (fix go l := match l with [] => [] | x :: l' => flat1 x ++ go l' end) (lq_list lq).
Definition flats (l : list lqueue) : list lqueue := concat (flat1 <$> l).

Lemma flat1_unfold lq : flat1 lq = mk_lq (lq_exact lq) (lq_inclusive lq) (lq_name lq) [] :: flats (lq_list lq).
Proof. destruct lq as [e i n l]. induction l as [|x l IH]; [done|]. cbn in *. congruence. Qed.

Lemma weight_unfold lq : weight lq = S (weights (lq_list lq)).
Proof. destruct lq as [e i n l]. induction l as [|x l IH]; [done|]. cbn in *. congruence. Qed.

Lemma flats_cons lq l : flats (lq :: l) = flat1 lq ++ flats l.
Proof. done. Qed.

Lemma flats_app l k : flats (l ++ k) = flats l ++ flats k.
Proof. unfold flats. by rewrite fmap_app, concat_app. Qed.

Lemma flats_elem e l : e ∈ flats l -> exists x, x ∈ l /\ e ∈ flat1 x.
Proof.
  induction l as [|x l IH]; [by intros ?%not_elem_of_nil|]. rewrite flats_cons. intros [H|H]%elem_of_app.
  - exists x. split; [apply elem_of_cons; by left|done].
  - destruct (IH H) as (y & Hy & He). exists y. split; [apply elem_of_cons; by right|done].
Qed.

Lemma weights_app l k : weights (l ++ k) = (weights l + weights k)%nat.
Proof. unfold weights. induction l as [|x l IH]; [done|]. cbn [app foldr]. rewrite IH. lia. Qed.

(** How a level comes out of [ngx_http_create_locations_list]: the names are sorted,
    an inclusive location is a prefix of no later one of its level, and a list holds
    longer names with the location as prefix. *)
Definition apart (x y : lqueue) : Prop :=
  blt (lq_name x) (lq_name y) /\ (lq_inclusive x <> NULL -> ~ lq_name x `prefix_of` lq_name y).

Inductive nested : bytes -> list lqueue -> Prop :=
| nested_nil pre : nested pre []
| nested_cons pre lq l :
    pre `prefix_of` lq_name lq ->
    (lq_list lq <> [] -> lq_inclusive lq <> NULL) ->
    nested (lq_name lq) (lq_list lq) ->
    Forall (fun x => lq_name x <> lq_name lq) (lq_list lq) ->
    Forall (apart lq) l ->
    nested pre l ->
    nested pre (lq :: l).

Lemma nested_app pre l k :
  nested pre (l ++ k) -> nested pre l /\ nested pre k /\ forall x y, x ∈ l -> y ∈ k -> apart x y.
Proof.
  induction l as [|lq l IH]; cbn; intros H.
  - split_and!; [constructor|done|]. by intros x y ?%not_elem_of_nil.
  - inversion H as [|? ? ? H1 H2 H3 H4 H5 H6]; subst. destruct (IH H6) as (K1 & K2 & K3). apply Forall_app in H5 as [H5 H5'].
    split_and!; [by constructor|done|]. intros x y [->|Hx]%elem_of_cons Hy; [by eapply Forall_forall in H5'|auto].
Qed.

(** Below a location its name is a prefix, of longer names apart from itself. *)
Lemma flat1_prefix pre x e :
  nested pre [x] -> e ∈ flat1 x ->
  lq_name x `prefix_of` lq_name e /\
  (e = mk_lq (lq_exact x) (lq_inclusive x) (lq_name x) [] \/ (lq_inclusive x <> NULL /\ lq_name e <> lq_name x)).
Proof.
  remember (weight x) as n eqn:En. assert (weight x <= n)%nat as Hn by lia. clear En.
  revert pre x e Hn. induction n as [|n IH]; intros pre x e Hn H He; [rewrite weight_unfold in Hn; lia|].
  rewrite flat1_unfold in He. apply elem_of_cons in He as [->|He]; [split; [done|by left]|].
  inversion H as [|? ? ? H1 H2 H3 H4 H5 H6]; subst. apply flats_elem in He as (y & Hy & He).
  destruct (list_elem_of_split _ _ Hy) as (l1 & l2 & E).
  assert (nested (lq_name x) [y]) as Hy1.
  { rewrite E in H3. apply nested_app in H3 as (_ & H3 & _). inversion H3; subst. by constructor; [..|constructor|constructor]. }
  assert (lq_name x `prefix_of` lq_name y) as Hp by (by inversion Hy1).
  destruct (IH (lq_name x) y e) as [Hp' _]; [|done|done|].
  { rewrite weight_unfold, E, weights_app in Hn. cbn in Hn. lia. }
  split; [by trans (lq_name y)|]. right. split; [apply H2; rewrite E; by destruct l1|].
  intros Ee. rewrite Forall_forall in H4. apply (H4 y Hy). rewrite Ee in Hp'.
  apply (anti_symm prefix); done.
Qed.

Lemma nested_elem pre l x : nested pre l -> x ∈ l -> nested pre [x].
Proof.
  intros H (l1 & l2 & ->)%list_elem_of_split. apply nested_app in H as (_ & H & _).
  inversion H; subst. by constructor; [..|constructor|constructor].
Qed.

(** * What a look-up answers *)

Section lookup.
Context (clcf : loc -> ngx_http_core_loc_conf_t).

Definition lq_auto (e : lqueue) : bool :=
  (negb (lq_exact e =? NULL) && auto_redirect (clcf (lq_exact e)))
  || (negb (lq_inclusive e =? NULL) && auto_redirect (clcf (lq_inclusive e))).

(** The answer when the URI is the name of the location. *)
Definition hit (e : lqueue) : Z * loc :=
  if negb (lq_exact e =? NULL) then (NGX_OK, lq_exact e) else (NGX_AGAIN, lq_inclusive e).

Definition either (e : lqueue) : loc := if negb (lq_exact e =? NULL) then lq_exact e else lq_inclusive e.

(** The inclusive locations that are shorter prefixes of the URI. *)
Definition covers (uri : bytes) (e : lqueue) : Prop :=
  lq_inclusive e <> NULL /\ lq_name e `prefix_of` uri /\ lq_name e <> uri.
#[global] Instance covers_dec uri e : Decision (covers uri e).
Proof. unfold covers. apply _. Defined.

(** The last of them, [acc] when there is none. *)
Definition best (l : list lqueue) (uri : bytes) (acc : Z * loc) : Z * loc :=
  foldl (fun acc e => if decide (covers uri e) then (NGX_AGAIN, lq_inclusive e) else acc) acc l.

Definition between (a b : bytes) (e : lqueue) : Prop := blt a (lq_name e) /\ blt (lq_name e) b.

Definition answers (l : list lqueue) (uri : bytes) (acc res : Z * loc) : Prop :=
  (exists e, e ∈ l /\ lq_name e = uri /\ res = hit e) \/
  ((forall e, e ∈ l -> lq_name e <> uri) /\
   (res = best l uri acc \/
    exists e c, e ∈ l /\ lq_name e = uri ++ [c] /\ lq_auto e = true /\ res = (NGX_DONE, either e)) /\
   (forall e c, e ∈ l -> lq_name e = uri ++ [c] -> lq_auto e = true ->
      (forall e', e' ∈ l -> ~ between uri (lq_name e) e') -> res = (NGX_DONE, either e))).

Lemma best_app l k uri acc : best (l ++ k) uri acc = best k uri (best l uri acc).
Proof. apply foldl_app. Qed.

Lemma best_pass l uri acc : (forall e, e ∈ l -> ~ covers uri e) -> best l uri acc = acc.
Proof.
  revert acc. induction l as [|e l IH]; intros acc H; [done|]. cbn. rewrite decide_False.
  - apply IH. intros e' He'. apply H, elem_of_cons. by right.
  - apply H, elem_of_cons. by left.
Qed.

(** Locations that have nothing to do with the URI. *)
Definition passes (uri : bytes) (e : lqueue) : Prop := lq_name e <> uri /\ ~ covers uri e.

Lemma answers_skip A B C uri acc res :
  (forall e, e ∈ A \/ e ∈ C -> passes uri e /\ forall c, lq_name e <> uri ++ [c]) ->
  answers B uri acc res -> answers (A ++ B ++ C) uri acc res.
Proof.
  intros Hp [(e & He & ?)|(H1 & H2 & H3)]; [left; exists e; split; [set_solver|done]|right].
  assert (forall e, e ∈ A ++ B ++ C -> e ∈ B \/ (e ∈ A \/ e ∈ C)) as Hsplit by (intros e; rewrite !elem_of_app; tauto).
  split_and!.
  - intros e [He|He]%Hsplit; [auto|by apply Hp].
  - destruct H2 as [->|(e & c & He & ?)]; [left|right; exists e, c; split; [set_solver|done]].
    rewrite !best_app, (best_pass A), (best_pass C); [done|intros e He; apply Hp; auto..].
  - intros e c [He|He]%Hsplit Hn Ha Hb; [|by destruct (proj2 (Hp e He) c)].
    eapply H3; [done..|]. intros e' He'. apply Hb. set_solver.
Qed.

Lemma answers_enter A e0 B C uri acc res :
  (forall e, e ∈ A \/ e ∈ C -> passes uri e /\ forall c, lq_name e <> uri ++ [c]) -> covers uri e0 ->
  answers B uri (NGX_AGAIN, lq_inclusive e0) res -> answers (A ++ (e0 :: B) ++ C) uri acc res.
Proof.
  intros Hp Hc Hb. apply answers_skip; [done|]. destruct Hb as [(e & He & ?)|(H1 & H2 & H3)]; [left; exists e; split; [set_solver|done]|right].
  destruct Hc as (Hc1 & Hc2 & Hc3). split_and!.
  - intros e [->|He]%elem_of_cons; auto.
  - destruct H2 as [->|(e & c & He & ?)]; [left|right; exists e, c; split; [set_solver|done]]. cbn. by rewrite decide_True.
  - intros e c [->|He]%elem_of_cons Hn Ha Hb.
    + rewrite Hn in Hc2. apply prefix_length in Hc2. rewrite length_app in Hc2. cbn in Hc2. lia.
    + eapply H3; [done..|]. intros e' He'. apply Hb. set_solver.
Qed.

Lemma answers_left B e0 C uri acc res :
  uri `prefix_of` lq_name e0 -> lq_name e0 <> uri ->
  (forall e, e ∈ B -> ~ covers uri e /\ blt (lq_name e) (lq_name e0)) ->
  (forall e, e ∈ C -> blt (lq_name e0) (lq_name e)) ->
  answers B uri (if bool_decide (length uri + 1 = length (lq_name e0))%nat && lq_auto e0 then (NGX_DONE, either e0) else acc) res ->
  answers (B ++ e0 :: C) uri acc res.
Proof.
  intros [s Hs] Hne HB HC Hb. assert (s <> []) as Hs0 by (intros ->; rewrite app_nil_r in Hs; done).
  assert (blt uri (lq_name e0)) as Hlt by (rewrite Hs; by apply blt_app).
  assert (forall e, e ∈ C -> lq_name e <> uri /\ ~ covers uri e) as HC'.
  { intros e He. apply HC in He. assert (blt uri (lq_name e)) as H by (by eapply blt_trans). split.
    - intros E. rewrite E in H. by apply blt_irrefl in H.
    - intros (_ & Hp & _). by apply prefix_not_blt in Hp. }
  destruct Hb as [(e & He & ?)|(H1 & H2 & H3)]; [left; exists e; split; [set_solver|done]|right].
  rewrite (best_pass B) in H2 by (intros; by apply HB). split_and!.
  - intros e [He|[->|He]%elem_of_cons]%elem_of_app; [auto|done|by apply HC'].
  - assert (best (B ++ e0 :: C) uri acc = acc) as ->.
    { apply best_pass. intros e [He|[->|He]%elem_of_cons]%elem_of_app; [by apply HB| |by apply HC'].
      intros (_ & Hp & _). by apply prefix_not_blt in Hp. }
    destruct H2 as [H2|(e & c & He & ?)]; [|right; exists e, c; split; [set_solver|done]].
    case_bool_decide as El; cbn [andb] in H2; [|by left]. destruct (lq_auto e0) eqn:Ea; [right|by left].
    rewrite Hs, length_app in El. destruct s as [|c [|]]; cbn in El; try lia. exists e0, c. split_and!; [set_solver|done..].
  - intros e c He Hn Ha Hbt. apply elem_of_app in He as [He|[->|He]%elem_of_cons].
    + eapply H3; [done..|]. intros e' He'. apply Hbt. set_solver.
    + rewrite bool_decide_true in H2 by (rewrite Hn, length_app; done). rewrite Ha in H2. cbn [andb] in H2.
      destruct H2 as [H2|(e & c' & He & Hn' & _)]; [done|]. exfalso. apply (Hbt e); [set_solver|]. split; [|by apply HB].
      rewrite Hn'. by apply blt_app.
    + exfalso. apply (Hbt e0); [set_solver|]. split; [done|]. by apply HC.
Qed.

(** ** The two sides of a location in its level *)

Section level.
Context (pre : bytes) (before : list lqueue) (lq : lqueue) (after : list lqueue).
Context (Hnest : nested pre (before ++ lq :: after)).

Lemma level_before e : e ∈ flats before -> exists b, apart b lq /\ lq_name b `prefix_of` lq_name e /\
  (lq_name e = lq_name b /\ lq_inclusive e = lq_inclusive b \/ lq_inclusive b <> NULL).
Proof.
  intros (b & Hb & He)%flats_elem. apply nested_app in Hnest as (H1 & H2 & H3). exists b.
  destruct (flat1_prefix pre b e) as [Hp [->|[Hi _]]]; [exact (nested_elem _ _ _ H1 Hb)|done|..];
    (split; [apply H3; [done|apply elem_of_cons; by left]|]); split; auto.
Qed.

Lemma before_blt e : e ∈ flats before -> blt (lq_name e) (lq_name lq).
Proof.
  intros (b & [H1 H2] & [s Hs] & [[Hn _]|Hi])%level_before; [by rewrite Hn|].
  rewrite Hs. apply blt_extend; auto.
Qed.

Lemma before_not_covers uri e :
  e ∈ flats before -> blt (lq_name lq) uri \/ lq_name lq `prefix_of` uri \/ uri `prefix_of` lq_name lq -> ~ covers uri e.
Proof.
  intros He Hu (Hi & Hp & _). destruct (level_before e He) as (b & [H1 H2] & Hpe & Hcase).
  assert (lq_inclusive b <> NULL) as Hib by (destruct Hcase as [[_ <-]|]; done). specialize (H2 Hib).
  assert (lq_name b `prefix_of` uri) as Hbu by (by trans (lq_name e)). destruct Hu as [Hu|[Hu|Hu]].
  - destruct Hbu as [s ->]. pose proof (blt_extend _ _ s H1 H2). eapply blt_irrefl, blt_trans; done.
  - destruct (prefix_weak_total _ _ _ Hbu Hu) as [?|H]; [done|]. by apply prefix_not_blt in H.
  - apply H2. by trans uri.
Qed.

Lemma after_blt e : e ∈ flats after -> exists a, blt (lq_name lq) (lq_name a) /\ lq_name a `prefix_of` lq_name e /\
  (lq_inclusive lq <> NULL -> ~ lq_name lq `prefix_of` lq_name a).
Proof.
  intros (a & Ha & He)%flats_elem. apply nested_app in Hnest as (_ & H & _). inversion H as [|? ? ? K1 K2 K3 K4 K5 K6]; subst.
  rewrite Forall_forall in K5. destruct (K5 a Ha) as [? ?]. exists a.
  destruct (flat1_prefix pre a e) as [Hp _]; [exact (nested_elem _ _ _ K6 Ha)|done|]. done.
Qed.

Lemma inside_prefix e : e ∈ flats (lq_list lq) -> lq_name lq `prefix_of` lq_name e /\ blt (lq_name lq) (lq_name e).
Proof.
  intros He. apply nested_app in Hnest as (_ & H & _). inversion H as [|? ? ? K1 K2 K3 K4 K5 K6]; subst.
  apply flats_elem in He as (x & Hx & He). destruct (flat1_prefix _ _ e (nested_elem _ _ x K3 Hx) He) as [Hp _].
  assert (lq_name lq `prefix_of` lq_name x) as [s Hs] by (pose proof (nested_elem _ _ _ K3 Hx) as Hx'; by inversion Hx').
  rewrite Forall_forall in K4. specialize (K4 x Hx). assert (s <> []) by (intros ->; rewrite app_nil_r in Hs; done).
  assert (blt (lq_name lq) (lq_name x)) by (rewrite Hs; by apply blt_app).
  split; [trans (lq_name x); [rewrite Hs; by apply prefix_app_r|done]|by eapply prefix_le].
Qed.

Definition own : lqueue := mk_lq (lq_exact lq) (lq_inclusive lq) (lq_name lq) [].

Lemma flats_level : flats (before ++ lq :: after) = flats before ++ own :: flats (lq_list lq) ++ flats after.
Proof. by rewrite flats_app, flats_cons, flat1_unfold. Qed.
End level.

(** ** The tree *)

Lemma split_middle {A} (l : list A) (x : A) :
  l !! (length l / 2)%nat = Some x -> l = take (length l / 2) l ++ x :: drop (S (length l / 2)) l.
Proof. intros H. by rewrite take_drop_middle. Qed.

Lemma create_tree_total fuel : forall l budget prefix,
  l <> [] -> (weights l <= fuel)%nat -> (weights l <= budget)%nat ->
  exists t, create_tree clcf fuel budget l prefix = Some (t, (budget - weights l)%nat).
Proof.
  induction fuel as [|fuel IH]; intros l budget prefix Hl Hf Hb.
  { destruct l as [|x l]; [done|]. cbn in Hf. destruct x. cbn in Hf. lia. }
  assert (length l / 2 < length l)%nat as Hm. { destruct l; [done|]. cbn [length]. apply Nat.div_lt; lia. }
  destruct (lookup_lt_is_Some_2 l _ Hm) as [lq Hlq]. pose proof (split_middle l lq Hlq) as Hsp.
  set (before := take _ l) in *. set (after := drop _ l) in *.
  assert (weights l = weights before + (S (weights (lq_list lq)) + weights after))%nat as Hw.
  { rewrite Hsp, weights_app. cbn. by rewrite weight_unfold. }
  destruct budget as [|budget]; [lia|]. cbn [create_tree]. rewrite Hlq. fold before after.
  assert (exists t, match before with [] => Some (Null, budget) | _ => create_tree clcf fuel budget before prefix end
    = Some (t, (budget - weights before)%nat)) as [t1 ->].
  { destruct before as [|b bs] eqn:E; [eexists; cbn; rewrite Nat.sub_0_r; done|]. apply IH; [done|lia|lia]. }
  set (b1 := (budget - weights before)%nat).
  assert (exists t, match after with [] => Some (Null, b1) | _ => create_tree clcf fuel b1 after prefix end
    = Some (t, (b1 - weights after)%nat)) as [t2 ->].
  { destruct after as [|b bs] eqn:E; [eexists; cbn; rewrite Nat.sub_0_r; done|]. apply IH; [done|lia|lia]. }
  set (b2 := (b1 - weights after)%nat). set (len := (length (lq_name lq) - prefix)%nat).
  assert (exists t, match lq_list lq with [] => Some (Null, b2) | _ => create_tree clcf fuel b2 (lq_list lq) (prefix + len) end
    = Some (t, (b2 - weights (lq_list lq))%nat)) as [t3 ->].
  { destruct (lq_list lq) as [|b bs] eqn:E; [eexists; cbn; rewrite Nat.sub_0_r; done|]. apply IH; [done|lia|lia]. }
  eexists. do 2 f_equal. lia.
Qed.

Lemma answers_null uri acc : answers [] uri acc acc.
Proof. right. split_and!; [by intros e ?%not_elem_of_nil|by left|by intros e c ?%not_elem_of_nil]. Qed.

Lemma prefix_snoc (a b : bytes) c : a `prefix_of` b ++ [c] -> a `prefix_of` b \/ a = b ++ [c].
Proof.
  intros [s Hs]. destruct s as [|d s _] using rev_ind; [right; by rewrite app_nil_r in Hs|left].
  rewrite app_assoc in Hs. apply app_inj_tail in Hs as [-> _]. by exists s.
Qed.

(** Going to the left of a location that comes after the URI. *)
Lemma go_left pre before lq after uri acc res :
  nested pre (before ++ lq :: after) ->
  blt uri (lq_name lq) -> ~ uri `prefix_of` lq_name lq -> ~ lq_name lq `prefix_of` uri ->
  answers (flats before) uri acc res -> answers (flats (before ++ lq :: after)) uri acc res.
Proof.
  intros Hn Hlt Hp1 Hp2 Hb. rewrite flats_level. apply (answers_skip [] (flats before)); [|done].
  intros e [He|He]; [by apply not_elem_of_nil in He|].
  assert (lq_name lq `prefix_of` lq_name e \/ blt (lq_name lq) (lq_name e)) as Hge.
  { apply elem_of_cons in He as [->|[He|He]%elem_of_app]; [by left|left; by eapply inside_prefix|].
    right. destruct (after_blt _ _ _ _ Hn e He) as (a & H1 & H2 & _). by eapply prefix_le. }
  assert (blt uri (lq_name e)) as Hue by (destruct Hge; [by eapply prefix_le|by eapply blt_trans]).
  split; [split|].
  - intros E. rewrite E in Hue. by apply blt_irrefl in Hue.
  - intros (_ & H & _). by apply prefix_not_blt in H.
  - intros c E. pose proof (blt_extend _ _ [c] Hlt Hp1) as H. rewrite <- E in H.
    destruct Hge as [H'|H']; [by apply prefix_not_blt in H'|]. eapply blt_irrefl, blt_trans; done.
Qed.

(** Going to the right of one that comes before it and does not cover it. *)
Lemma go_right pre before lq after uri acc res :
  nested pre (before ++ lq :: after) ->
  (blt (lq_name lq) uri /\ (~ uri `prefix_of` lq_name lq) /\ ~ lq_name lq `prefix_of` uri) \/
  (lq_name lq `prefix_of` uri /\ lq_name lq <> uri /\ lq_inclusive lq = NULL) ->
  answers (flats after) uri acc res -> answers (flats (before ++ lq :: after)) uri acc res.
Proof.
  intros Hn Hcase Hb. rewrite flats_level.
  replace (flats before ++ own lq :: flats (lq_list lq) ++ flats after)
    with ((flats before ++ own lq :: flats (lq_list lq)) ++ flats after ++ [])
    by (by rewrite app_nil_r, <- app_assoc).
  apply (answers_skip _ (flats after)); [|done]. intros e [He|He]; [|by apply not_elem_of_nil in He].
  apply elem_of_app in He as [He|He].
  - pose proof (before_blt _ _ _ _ Hn e He) as Hlt.
    assert (blt (lq_name e) uri) as Heu by (destruct Hcase as [(? & _)|(? & _)]; [by eapply blt_trans|by eapply prefix_le]).
    split; [split|].
    + intros E. rewrite E in Heu. by apply blt_irrefl in Heu.
    + eapply before_not_covers; [done|done|]. tauto.
    + intros c E. assert (blt uri (lq_name e)) by (rewrite E; by apply blt_app). eapply blt_irrefl, blt_trans; done.
  - assert (lq_name lq `prefix_of` lq_name e) as Hpe.
    { apply elem_of_cons in He as [->|He]; [done|by eapply inside_prefix]. }
    destruct Hcase as [(H1 & H2 & H3)|(H1 & H2 & H3)].
    + split; [split|].
      * intros E. by rewrite E in Hpe.
      * intros (_ & H & _). apply H3. by trans (lq_name e).
      * intros c E. rewrite E in Hpe. apply prefix_snoc in Hpe as [?|E2]; [done|]. apply H2. rewrite E2. by apply prefix_app_r.
    + apply elem_of_cons in He as [->|He].
      * split; [split; [done|by intros [? _]]|]. intros c E. cbn in E. apply prefix_length in H1. rewrite E, length_app in H1. cbn in H1. lia.
      * apply nested_app in Hn as (_ & Hn & _). inversion Hn as [|? ? ? K1 K2 K3 K4 K5 K6]; subst.
        destruct (lq_list lq); [by apply not_elem_of_nil in He|]. by destruct K2.
Qed.

(** Going into the list of an inclusive location that covers the URI. *)
Lemma go_inside pre before lq after uri acc res :
  nested pre (before ++ lq :: after) -> lq_name lq `prefix_of` uri -> lq_name lq <> uri -> lq_inclusive lq <> NULL ->
  answers (flats (lq_list lq)) uri (NGX_AGAIN, lq_inclusive lq) res -> answers (flats (before ++ lq :: after)) uri acc res.
Proof.
  intros Hn Hp Hne Hi Hb. rewrite flats_level.
  apply (answers_enter (flats before) (own lq) (flats (lq_list lq)) (flats after)); [|done|done].
  intros e [He|He].
  - pose proof (before_blt _ _ _ _ Hn e He) as Hlt. assert (blt (lq_name e) uri) as Heu by (by eapply prefix_le).
    split; [split|].
    + intros E. rewrite E in Heu. by apply blt_irrefl in Heu.
    + eapply before_not_covers; [done|done|]. tauto.
    + intros c E. assert (blt uri (lq_name e)) by (rewrite E; by apply blt_app). eapply blt_irrefl, blt_trans; done.
  - destruct (after_blt _ _ _ _ Hn e He) as (a & H1 & H2 & H3). destruct Hp as [s ->].
    assert (forall t, blt (lq_name lq ++ t) (lq_name e)) as Hlt by (intros t; eapply prefix_le; [done|]; apply blt_extend; auto).
    split; [split|].
    + intros E. pose proof (Hlt s) as H. rewrite E in H. by apply blt_irrefl in H.
    + intros (_ & H & _). apply prefix_not_blt in H. by apply H.
    + intros c E. pose proof (Hlt (s ++ [c])) as H. rewrite E, app_assoc in H. by apply blt_irrefl in H.
Qed.

(** Going to the left of one that the URI is a proper prefix of. *)
Lemma go_redirect pre before lq after uri acc res :
  nested pre (before ++ lq :: after) -> uri `prefix_of` lq_name lq -> lq_name lq <> uri ->
  answers (flats before) uri
    (if bool_decide (length uri + 1 = length (lq_name lq))%nat && lq_auto lq then (NGX_DONE, either lq) else acc) res ->
  answers (flats (before ++ lq :: after)) uri acc res.
Proof.
  intros Hn Hp Hne Hb. rewrite flats_level. apply (answers_left (flats before) (own lq)); [done|done| | |exact Hb].
  - intros e He. split; [eapply before_not_covers; [exact Hn|done|tauto]|exact (before_blt _ _ _ _ Hn e He)].
  - intros e [He|He]%elem_of_app; [exact (proj2 (inside_prefix _ _ _ _ Hn e He))|].
    destruct (after_blt _ _ _ _ Hn e He) as (a & H1 & H2 & _). by eapply prefix_le.
Qed.

Lemma either_pair (rc : Z) (c : loc) (acc : Z * loc) (b : bool) t uri :
  find_static t uri (if b then (rc, c) else acc).1 (if b then (rc, c) else acc).2 =
  if b then find_static t uri rc c else find_static t uri acc.1 acc.2.
Proof. by destruct b. Qed.

(** The tree answers what the queue it was made of says. *)
Lemma create_tree_answers fuel : forall l budget pre t b uri acc,
  create_tree clcf fuel budget l (length pre) = Some (t, b) ->
  nested pre l -> (forall e, e ∈ flats l -> (length (lq_name e) < 256)%nat) -> pre `prefix_of` uri ->
  answers (flats l) uri acc (find_static t (drop (length pre) uri) acc.1 acc.2).
Proof.
  induction fuel as [|fuel IH]; intros l budget pre t b uri acc Ht Hn Hlen Hpu; [done|].
  cbn [create_tree] in Ht. destruct budget as [|budget]; [done|].
  destruct (l !! (length l / 2)%nat) as [lq|] eqn:Hlq; [|done]. apply split_middle in Hlq.
  set (before := take _ l) in *. set (after := drop _ l) in *. clearbody before after. subst l.
  destruct (match before with [] => _ | _ => _ end) as [[t1 b1]|] eqn:E1; [|done].
  destruct (match after with [] => _ | _ => _ end) as [[t2 b2]|] eqn:E2; [|done].
  destruct (match lq_list lq with [] => _ | _ => _ end) as [[t3 b3]|] eqn:E3; [|done].
  injection Ht as <- <-. pose proof Hn as (Hn1 & Hn2 & _)%nested_app.
  inversion Hn2 as [|? ? ? [rel Hrel] K2 K3 K4 K5 K6]; subst.
  assert (forall acc', answers (flats before) uri acc' (find_static t1 (drop (length pre) uri) acc'.1 acc'.2)) as L1.
  { intros acc'. destruct before as [|x before]; [injection E1 as <- _; cbn; destruct acc'; apply answers_null|].
    eapply IH; [exact E1|done| |done]. intros e He. apply Hlen. rewrite flats_level, elem_of_app, elem_of_cons, elem_of_app. tauto. }
  assert (answers (flats after) uri acc (find_static t2 (drop (length pre) uri) acc.1 acc.2)) as L2.
  { destruct after as [|x after]; [injection E2 as <- _; cbn; destruct acc; apply answers_null|].
    eapply IH; [exact E2|done| |done]. intros e He. apply Hlen. rewrite flats_level, elem_of_app, elem_of_cons, elem_of_app. tauto. }
  assert (forall acc', lq_name lq `prefix_of` uri ->
    answers (flats (lq_list lq)) uri acc' (find_static t3 (drop (length (lq_name lq)) uri) acc'.1 acc'.2)) as L3.
  { intros acc' Hp. destruct (lq_list lq) as [|x sub] eqn:Es; [injection E3 as <- _; cbn; destruct acc'; apply answers_null|].
    eapply IH; [|done| |done].
    - rewrite <- E3. f_equal. rewrite Hrel, length_app. lia.
    - intros e He. apply Hlen. rewrite flats_level, Es, elem_of_app, elem_of_cons, elem_of_app. tauto. }
  assert (Z.of_nat (length (lq_name lq) - length pre) mod 256 = Z.of_nat (length rel)) as ->.
  { rewrite Hrel, length_app. assert (length (lq_name lq) < 256)%nat as H by (apply (Hlen (own lq)); rewrite flats_level; apply elem_of_app; right; apply elem_of_cons; by left).
    rewrite Hrel, length_app in H. replace (length pre + length rel - length pre)%nat with (length rel) by lia. apply Z.mod_small. lia. }
  replace (drop (length pre) (lq_name lq)) with rel by (by rewrite Hrel, drop_app_length).
  destruct Hpu as [u Hu]. replace (drop (length pre) uri) with u in * by (by rewrite Hu, drop_app_length). cbn [find_static].
  replace (Z.to_nat (if Z.of_nat (length u) <=? Z.of_nat (length rel) then Z.of_nat (length u) else Z.of_nat (length rel)))
    with (length u `min` length rel)%nat by (destruct (Z.leb_spec (Z.of_nat (length u)) (Z.of_nat (length rel))); lia).
  pose proof (compared_app pre _ _ _ (memcmp_compared u rel)) as Hcmp. rewrite <- Hu, <- Hrel in Hcmp.
  inversion Hcmp as [C1 C2 C3 Ez|C1 Ez|C1 C2 C3 Ez]; cbn [Z.eqb Z.ltb Z.compare negb].
  - by eapply go_left.
  - assert (length uri = length pre + length u /\ length (lq_name lq) = length pre + length rel)%nat as [Eu El] by (by rewrite Hu, Hrel, !length_app).
    rewrite Z.gtb_ltb. destruct (Z.ltb_spec (Z.of_nat (length rel)) (Z.of_nat (length u))) as [Hlt|Hge].
    + assert (lq_name lq `prefix_of` uri) as Hp by (destruct C1 as [H|]; [apply prefix_length in H; lia|done]).
      assert (lq_name lq <> uri) as Hne by (intros E; rewrite E in El; lia).
      destruct (Z.eqb_spec (lq_inclusive lq) NULL) as [Ei|Ei]; cbn [negb].
      * eapply go_right; [done| |done]. right. done.
      * eapply go_inside; [done|done|done|done|]. replace (drop (length u `min` length rel) u) with (drop (length (lq_name lq)) uri).
        -- exact (L3 (NGX_AGAIN, lq_inclusive lq) Hp).
        -- rewrite Hu, El, drop_app_ge by lia. f_equal. lia.
    + destruct (Z.eqb_spec (Z.of_nat (length u)) (Z.of_nat (length rel))) as [Heq|Hne'].
      * left. exists (own lq). split; [rewrite flats_level; apply elem_of_app; right; apply elem_of_cons; by left|]. split; [|done]. cbn.
        destruct C1 as [H|H]; [symmetry|]; eapply prefix_length_eq; [done|lia|done|lia].
      * assert (uri `prefix_of` lq_name lq) as Hp by (destruct C1 as [|H]; [done|apply prefix_length in H; lia]).
        eapply go_redirect; [done|done|intros E; rewrite E in El; lia|].
        specialize (L1 (if bool_decide (length uri + 1 = length (lq_name lq))%nat && lq_auto lq then (NGX_DONE, either lq) else acc)).
        rewrite either_pair in L1.
        replace (bool_decide (length uri + 1 = length (lq_name lq))%nat) with (Z.of_nat (length u) + 1 =? Z.of_nat (length rel)) in *; [exact L1|].
        case_bool_decide; [apply Z.eqb_eq|apply Z.eqb_neq]; lia.
  - eapply go_right; [done| |done]. left. done.
Qed.

(** ** [ngx_http_create_locations_list] *)

Lemma before_from f l : before_first f l ++ from_first f l = l.
Proof. induction l as [|x l IH]; [done|]. cbn. destruct (f x); [done|]. cbn. by rewrite IH. Qed.

Lemma before_first_false f l x : x ∈ before_first f l -> f x = false.
Proof.
  induction l as [|y l IH]; cbn; [by intros ?%not_elem_of_nil|]. destruct (f y) eqn:E; [by intros ?%not_elem_of_nil|].
  intros [->|Hx]%elem_of_cons; auto.
Qed.

Lemma from_first_head f l x k : from_first f l = x :: k -> f x = true.
Proof. induction l as [|y l IH]; cbn; [done|]. destruct (f y) eqn:E; [by intros [= -> _]|done]. Qed.

Definition name_lt (x y : lqueue) : Prop := blt (lq_name x) (lq_name y).

Lemma outside_spec nm x : outside nm x = negb (bool_decide (nm `prefix_of` lq_name x)).
Proof.
  unfold outside, strcmp. destruct (Nat.ltb_spec (length (lq_name x)) (length nm)) as [Hlt|Hge]; cbn [orb].
  { rewrite bool_decide_false; [done|]. intros H%prefix_length. lia. }
  case_bool_decide as Hp.
  - destruct Hp as [s ->]. rewrite take_app_length, lex_refl. done.
  - destruct (lex nm (take (length nm) (lq_name x))) eqn:E; try done. apply lex_eq in E. exfalso. apply Hp.
    exists (drop (length nm) (lq_name x)). rewrite E at 1. by rewrite take_drop.
Qed.

Lemma own_flat x : lq_list x = [] -> flat1 x = [x].
Proof. destruct x as [e i n l]. cbn. by intros ->. Qed.

Lemma create_list_nested fuel : forall pre l,
  (length l <= fuel)%nat -> Forall (fun x => lq_list x = []) l -> StronglySorted name_lt l ->
  Forall (fun x => pre `prefix_of` lq_name x) l ->
  nested pre (create_list fuel l) /\ flats (create_list fuel l) = l /\
  (forall x, x ∈ create_list fuel l -> exists y, y ∈ l /\ lq_name y = lq_name x).
Proof.
  assert (forall pre x, lq_list x = [] -> pre `prefix_of` lq_name x -> nested pre [x] /\ flats [x] = [x] /\
    (forall y, y ∈ [x] -> exists z, z ∈ [x] /\ lq_name z = lq_name y)) as Hone.
  { intros pre x Hx Hp. split_and!; [constructor; rewrite ?Hx; by try constructor|by rewrite flats_cons, own_flat|eauto]. }
  induction fuel as [|fuel IH]; intros pre l Hf Hl Hs Hp.
  { destruct l; [|cbn in Hf; lia]. split_and!; [constructor|done|by intros x ?%not_elem_of_nil]. }
  destruct l as [|lq [|z rest]].
  { split_and!; [constructor|done|by intros x ?%not_elem_of_nil]. }
  { cbn [create_list]. inversion Hl; inversion Hp; subst. by apply Hone. }
  cbn [create_list]. set (l := z :: rest) in *. cbn [length] in Hf.
  apply StronglySorted_inv in Hs as [Hs Hlt]. apply Forall_cons in Hl as [Hlq Hl]. apply Forall_cons in Hp as [Hpq Hp].
  destruct (Z.eqb_spec (lq_inclusive lq) NULL) as [Ei|Ei].
  - destruct (IH pre l) as (H1 & H2 & H3); [lia|done..|]. rewrite flats_cons, own_flat, H2 by done. split_and!; [|done|].
    + constructor; [done|by rewrite Hlq|rewrite Hlq; constructor|rewrite Hlq; constructor| |done].
      apply Forall_forall. intros x (y & Hy & E)%H3. rewrite Forall_forall in Hlt. split; [rewrite <- E; by apply Hlt|done].
    + intros x [->|Hx]%elem_of_cons; [exists lq; split; [apply elem_of_cons; by left|done]|].
      destruct (H3 x Hx) as (y & Hy & E). exists y. split; [apply elem_of_cons; by right|done].
  - pose proof (before_from (outside (lq_name lq)) l) as Hsplit. set (inside := before_first _ l) in *. set (after := from_first _ l) in *.
    assert (length inside + length after = length l)%nat as Hll by (by rewrite <- Hsplit, length_app).
    assert (forall x, x ∈ inside -> lq_name lq `prefix_of` lq_name x) as Hin.
    { intros x Hx%before_first_false. rewrite outside_spec in Hx. apply negb_false_iff in Hx. by apply bool_decide_eq_true in Hx. }
    assert (forall x, x ∈ after -> ~ lq_name lq `prefix_of` lq_name x) as Hout.
    { intros x Hx. destruct after as [|y k] eqn:Ea; [by apply not_elem_of_nil in Hx|].
      pose proof (from_first_head _ _ _ _ Ea) as Hy. rewrite outside_spec in Hy. apply negb_true_iff, bool_decide_eq_false in Hy.
      apply elem_of_cons in Hx as [->|Hx]; [done|]. intros [s Hsx].
      assert (blt (lq_name lq) (lq_name y)) as H1. { rewrite Forall_forall in Hlt. apply Hlt. rewrite <- Hsplit. set_solver. }
      rewrite <- Hsplit in Hs. apply StronglySorted_app in Hs as (_ & _ & Hs). apply StronglySorted_inv in Hs as [_ Hs].
      rewrite Forall_forall in Hs. specialize (Hs x Hx). unfold name_lt in Hs. rewrite Hsx in Hs.
      pose proof (blt_extend _ _ s H1 Hy). eapply blt_irrefl, blt_trans; done. }
    rewrite <- Hsplit in Hs, Hl, Hp, Hlt. apply StronglySorted_app in Hs as (_ & Hs1 & Hs2).
    apply Forall_app in Hl as [Hl1 Hl2]. apply Forall_app in Hp as [Hp1 Hp2]. apply Forall_app in Hlt as [Hlt1 Hlt2].
    destruct (IH pre after) as (A1 & A2 & A3); [lia|done..|].
    assert (Forall (fun x => apart lq x) (create_list fuel after)) as Hap.
    { apply Forall_forall. intros x (y & Hy & E)%A3. rewrite Forall_forall in Hlt2.
      split; [rewrite <- E; by apply Hlt2|]. intros _. rewrite <- E. by apply Hout. }
    destruct inside as [|y inside'] eqn:Ein.
    + cbn [app] in Hsplit. rewrite flats_cons, own_flat, A2 by done. split_and!; [|change (lq :: after = lq :: l); by rewrite Hsplit|].
      * constructor; [done|by rewrite Hlq|rewrite Hlq; constructor|rewrite Hlq; constructor|done|done].
      * intros x [->|Hx]%elem_of_cons; [exists lq; split; [apply elem_of_cons; by left|done]|].
        destruct (A3 x Hx) as (y & Hy & E). exists y. split; [apply elem_of_cons; right; by rewrite <- Hsplit|done].
    + rewrite <- Ein in *. rewrite Hlq. cbn [app].
      destruct (IH (lq_name lq) inside) as (B1 & B2 & B3); [rewrite Ein in *; cbn in *; lia|done|done|by apply Forall_forall|].
      rewrite flats_cons, flat1_unfold. cbn [lq_list lq_exact lq_inclusive lq_name]. rewrite B2, A2. split_and!.
      * constructor; cbn; try done. apply Forall_forall. intros x (w & Hw & E)%B3. rewrite Forall_forall in Hlt1.
        specialize (Hlt1 w Hw). unfold name_lt in Hlt1. rewrite <- E. intros E'. rewrite E' in Hlt1. by apply blt_irrefl in Hlt1.
      * change (own lq :: inside ++ after = lq :: l). rewrite Hsplit. f_equal. unfold own. rewrite <- Hlq. by destruct lq.
      * intros x [->|Hx]%elem_of_cons; [exists lq; split; [apply elem_of_cons; by left|done]|].
        destruct (A3 x Hx) as (w & Hw & E). exists w. split; [apply elem_of_cons; right; rewrite <- Hsplit; set_solver|done].
Qed.

(** ** [ngx_http_join_exact_locations] *)

(** The order of the sorted queue: an exact location is before an inclusive one of
    the same name. *)
Definition name_le (x y : lqueue) : Prop :=
  blt (lq_name x) (lq_name y) \/ (lq_name x = lq_name y /\ (lq_exact x <> NULL \/ lq_exact y = NULL)).

Definition one_kind (x : lqueue) : Prop :=
  (lq_exact x <> NULL /\ lq_inclusive x = NULL) \/ (lq_exact x = NULL /\ lq_inclusive x <> NULL).

(** The locations of a queue, by the field that holds them. *)
Definition holds (field : lqueue -> loc) (l : list lqueue) (n : bytes) (c : loc) : Prop :=
  exists e, e ∈ l /\ lq_name e = n /\ field e = c.

Lemma holds_cons field q l n c : holds field (q :: l) n c <-> (lq_name q = n /\ field q = c) \/ holds field l n c.
Proof.
  unfold holds. split.
  - intros (e & [->|He]%elem_of_cons & H); [by left|right; by exists e].
  - intros [H|(e & He & H)]; [exists q|exists e]; (split; [apply elem_of_cons; tauto|done]).
Qed.

Lemma strcmp_zero a b : (strcmp a b =? 0) = bool_decide (a = b).
Proof.
  unfold strcmp. case_bool_decide as E; [subst; by rewrite lex_refl|].
  destruct (lex a b) eqn:El; try done. by apply lex_eq in El.
Qed.

Definition distinct_kinds (x y : lqueue) : Prop :=
  lq_name x = lq_name y ->
  (negb (lq_exact x =? NULL) && negb (lq_exact y =? NULL)) ||
  (negb (lq_inclusive x =? NULL) && negb (lq_inclusive y =? NULL)) = false.

Lemma join_from_spec : forall l q,
  StronglySorted name_le (q :: l) -> Forall one_kind l -> Forall (fun x => lq_list x = []) (q :: l) ->
  (lq_exact q <> NULL \/ lq_inclusive q <> NULL) ->
  (StronglySorted distinct_kinds (q :: l) -> is_Some (join_from q l)) /\
  forall r, join_from q l = Some r ->
    StronglySorted name_lt r /\ Forall (fun x => lq_list x = []) r /\
    (forall e, e ∈ r -> exists e', e' ∈ q :: l /\ lq_name e' = lq_name e) /\ (length r <= S (length l))%nat /\
    Forall (fun x => lq_exact x <> NULL \/ lq_inclusive x <> NULL) r /\
    forall n c, c <> NULL -> (holds lq_exact r n c <-> holds lq_exact (q :: l) n c) /\
                             (holds lq_inclusive r n c <-> holds lq_inclusive (q :: l) n c).
Proof.
  induction l as [|x l IH]; intros q Hs Hk Hl Hq.
  { cbn. split; [by eexists|]. intros r [= <-]. split_and!; [by repeat constructor|done|eauto|done|constructor; [done|constructor]|done]. }
  cbn [join_from]. rewrite strcmp_zero. apply StronglySorted_inv in Hs as [Hs Hle]. apply Forall_cons in Hk as [Hx Hk].
  apply Forall_cons in Hl as [Hlq Hl]. pose proof Hs as [Hs' Hle']%StronglySorted_inv. apply Forall_cons in Hle as [Hqx Hle].
  case_bool_decide as En.
  - destruct (_ || _) eqn:Edup.
    { split; [|done]. intros [_ H]%StronglySorted_inv. apply Forall_cons in H as [H _]. rewrite H in Edup by done. done. }
    assert (lq_exact q <> NULL /\ lq_inclusive q = NULL /\ lq_exact x = NULL) as (H1 & H2 & H3).
    { destruct Hqx as [H|[_ H]]; [rewrite En in H; by apply blt_irrefl in H|].
      destruct (Z.eqb_spec (lq_exact q) NULL), (Z.eqb_spec (lq_exact x) NULL), (Z.eqb_spec (lq_inclusive q) NULL), (Z.eqb_spec (lq_inclusive x) NULL);
        cbn in Edup; try done; unfold one_kind in Hx; tauto. }
    set (q' := mk_lq (lq_exact q) (lq_inclusive x) (lq_name q) (lq_list q)).
    apply Forall_cons in Hl as [Hlx Hl].
    destruct (IH q') as [T1 T2]; [| done | by constructor | by left |].
    { constructor; [done|]. apply Forall_forall. intros y Hy. rewrite Forall_forall in Hle. destruct (Hle y Hy) as [?|[? ?]]; [by left|right; auto]. }
    split.
    + intros [[Hd Hd2]%StronglySorted_inv Hd1]%StronglySorted_inv. apply T1. constructor; [done|]. apply Forall_forall. intros y Hy E. cbn in E.
      rewrite Forall_forall in Hd1, Hd2. specialize (Hd2 y Hy). unfold distinct_kinds in Hd2. rewrite <- En in Hd2. specialize (Hd2 E).
      assert (y ∈ x :: l) as Hy' by (apply elem_of_cons; by right). specialize (Hd1 y Hy' E). cbn.
      apply orb_false_iff in Hd1 as [-> _]. by apply orb_false_iff in Hd2 as [_ ->].
    + intros r Hr. destruct (T2 r Hr) as (R1 & R2 & R3 & R4 & R6 & R5). split_and!; [done|done| |cbn; lia|done|].
      * intros e (e' & [->|He]%elem_of_cons & E)%R3; [exists q; split; [apply elem_of_cons; by left|done]|].
        exists e'. split; [rewrite !elem_of_cons; auto|done].
      * intros n c Hc. destruct (R5 n c Hc) as [Q1 Q2]. rewrite Q1, Q2, !holds_cons. cbn.
        assert (NULL <> c) by congruence. rewrite H2, H3, En. tauto.
  - assert (blt (lq_name q) (lq_name x)) as Hlt by (destruct Hqx as [?|[? _]]; done).
    destruct (IH x) as [T1 T2]; [done|done|done|unfold one_kind in Hx; tauto|]. split.
    + intros [Hd _]%StronglySorted_inv. destruct (T1 Hd) as [r ->]. by eexists.
    + intros r. destruct (join_from x l) as [r'|] eqn:Er; [|done]. intros [= <-]. destruct (T2 r' eq_refl) as (R1 & R2 & R3 & R4 & R6 & R5).
      split_and!; [|by constructor| |cbn; lia|by constructor|].
      * constructor; [done|]. apply Forall_forall. intros e (e' & [->|He]%elem_of_cons & E)%R3; unfold name_lt; rewrite <- E; [done|].
        rewrite Forall_forall in Hle'. destruct (Hle' e' He) as [?|[<- _]]; [by eapply blt_trans|done].
      * intros e [->|He]%elem_of_cons; [exists q; split; [apply elem_of_cons; by left|done]|].
        destruct (R3 e He) as (e' & He' & E). exists e'. split; [apply elem_of_cons; by right|done].
      * intros n c Hc. destruct (R5 n c Hc) as [Q1 Q2]. rewrite (holds_cons _ q r'), (holds_cons _ q r'), (holds_cons _ q (x :: l)), (holds_cons _ q (x :: l)). by rewrite Q1, Q2.
Qed.

(** ** The sorted queue *)

Lemma strcmp_antisym a b : strcmp b a = - strcmp a b.
Proof. unfold strcmp. rewrite lex_antisym. by destruct (lex a b). Qed.

Lemma strcmp_neg a b : strcmp a b < 0 <-> blt a b.
Proof. unfold strcmp. destruct (lex a b); cbn; split; (done || lia). Qed.

Lemma strcmp_nonpos a b : strcmp a b <= 0 <-> blt a b \/ a = b.
Proof. unfold strcmp. rewrite <- lex_eq. destruct (lex a b); cbn; split; (by auto || lia || intros [?|?]; done). Qed.

(** Static locations first, then regular expressions, named locations and those
    without a name. *)
Definition rank (x : lqueue) : Z :=
  let c := lq_conf clcf x in
  if noname c then 3 else if named c then 2 else if regex c then 1 else 0.

(** The comparison made antisymmetric: it decides as [ngx_http_cmp_locations] does
    whether an element has to move up. *)
Definition cmp_total (x y : lqueue) : Z :=
  let c := lq_conf clcf x in
  let d := lq_conf clcf y in
  if rank x =? rank y then
    if rank x =? 2 then strcmp (name c) (name d)
    else if rank x =? 0 then
      if strcmp (name c) (name d) =? 0 then Z.b2z (exact_match d) - Z.b2z (exact_match c)
      else strcmp (name c) (name d)
    else 0
  else rank x - rank y.

Lemma cmp_total_gt x y : (0 <? ngx_http_cmp_locations clcf x y) = (0 <? cmp_total x y).
Proof.
  unfold ngx_http_cmp_locations, cmp_total, rank. set (c := lq_conf clcf x). set (d := lq_conf clcf y).
  destruct (noname c), (noname d), (named c), (named d), (regex c), (regex d); cbn; try done;
    destruct (exact_match c), (exact_match d); cbn; rewrite ?andb_false_r, ?andb_true_r; try done;
    destruct (strcmp (name c) (name d) =? 0) eqn:E; cbn; (done || (apply Z.eqb_eq in E; by rewrite E) || done).
Qed.

Lemma cmp_total_anti x y : 0 < cmp_total x y <-> cmp_total y x < 0.
Proof.
  unfold cmp_total. rewrite (Z.eqb_sym (rank y)). destruct (Z.eqb_spec (rank x) (rank y)) as [E|E]; [rewrite <- E|lia].
  rewrite (strcmp_antisym (name (lq_conf clcf x))). set (z := strcmp _ _).
  destruct (rank x =? 2); [lia|]. destruct (rank x =? 0); [|lia].
  destruct (Z.eqb_spec z 0) as [->|Hz]; [change (- 0 =? 0) with true; cbv iota; lia|]. rewrite (proj2 (Z.eqb_neq (- z) 0)) by lia. lia.
Qed.

Lemma cmp_total_le x y :
  cmp_total x y <= 0 <->
  rank x < rank y \/ rank x = rank y /\
    (rank x = 2 -> blt (name (lq_conf clcf x)) (name (lq_conf clcf y)) \/ name (lq_conf clcf x) = name (lq_conf clcf y)) /\
    (rank x = 0 -> blt (name (lq_conf clcf x)) (name (lq_conf clcf y)) \/
       name (lq_conf clcf x) = name (lq_conf clcf y) /\ (exact_match (lq_conf clcf x) = true \/ exact_match (lq_conf clcf y) = false)).
Proof.
  unfold cmp_total. destruct (Z.eqb_spec (rank x) (rank y)) as [E|E]; [|split; [lia|intros [?|[? _]]; lia]].
  set (a := name _). set (b := name _). set (p := exact_match _). set (q := exact_match _). clearbody a b p q.
  destruct (Z.eqb_spec (rank x) 2) as [E2|E2]; [rewrite strcmp_nonpos; split; [intros H; right; split_and!; [done|done|lia]|intros [?|(_ & H & _)]; [lia|auto]]|].
  destruct (Z.eqb_spec (rank x) 0) as [E0|E0].
  2: { split; [intros _; right; split_and!; [done|done|done]|lia]. }
  rewrite strcmp_zero. case_bool_decide as Eab.
  - split.
    + intros H. right. split_and!; [done|done|]. intros _. right. split; [done|]. destruct p, q; cbn in H; auto; lia.
    + intros [?|(_ & _ & H)]; [lia|]. destruct (H E0) as [H'|[_ H']]; [rewrite Eab in H'; by apply blt_irrefl in H'|].
      destruct p, q; cbn; lia || by destruct H'.
  - rewrite strcmp_nonpos. split.
    + intros [H|?]; [|done]. right. split_and!; auto.
    + intros [?|(_ & _ & H)]; [lia|]. destruct (H E0) as [?|[? _]]; auto.
Qed.

Lemma cmp_total_trans x y z : cmp_total x y <= 0 -> cmp_total y z <= 0 -> cmp_total x z <= 0.
Proof.
  rewrite !cmp_total_le. intros [H1|(H1 & H2 & H3)] [H4|(H4 & H5 & H6)]; [left; lia..|]. right.
  split_and!; [lia| |].
  - intros E. destruct (H2 E) as [K|K], (H5 ltac:(lia)) as [K'|K'];
      [left; by eapply blt_trans|left; by rewrite <- K'|left; by rewrite K|right; congruence].
  - intros E. destruct (H3 E) as [K|[K L]], (H6 ltac:(lia)) as [K'|[K' L']];
      [left; by eapply blt_trans|left; by rewrite <- K'|left; by rewrite K|].
    right. split; [congruence|]. destruct L as [->|L]; [auto|]. destruct L' as [L'|L']; [congruence|auto].
Qed.

Lemma sorted_locations l :
  let l' := insert_all (ngx_http_cmp_locations clcf) [] l in
  StronglySorted (fun x y => cmp_total x y <= 0) l' /\ l' ≡ₚ l.
Proof.
  cbn zeta. rewrite (insert_all_ext _ cmp_total) by apply cmp_total_gt.
  destruct (insert_all_correct cmp_total cmp_total_anti cmp_total_trans [] l) as (H1 & H2 & _); [constructor|]. done.
Qed.

(** ** [ngx_http_init_locations] *)

(** A location is of one sort only. *)
Definition one_sort (c : ngx_http_core_loc_conf_t) : Prop :=
  (noname c = true -> named c = false /\ regex c = false) /\ (named c = true -> regex c = false).

Lemma sorted_stable k l :
  let l' := insert_all (ngx_http_cmp_locations clcf) [] l in
  filter (fun x => cmp_total x k = 0) l' = filter (fun x => cmp_total x k = 0) l.
Proof.
  cbn zeta. rewrite (insert_all_ext _ cmp_total) by apply cmp_total_gt.
  destruct (insert_all_correct cmp_total cmp_total_anti cmp_total_trans [] l) as (_ & _ & H); [constructor|]. apply (H k).
Qed.

Lemma from_first_rank f k l :
  StronglySorted (fun x y => cmp_total x y <= 0) l -> (forall x, x ∈ l -> f x = bool_decide (k <= rank x)) ->
  from_first f l = filter (fun x => k <= rank x) l.
Proof.
  induction 1 as [|x l Hs IH Hx]; intros Hf; [done|]. cbn [from_first]. rewrite Hf by (apply elem_of_cons; by left).
  case_bool_decide as Ek.
  - rewrite filter_cons, decide_True by done. f_equal.
    assert (forall y, y ∈ l -> k <= rank y) as Hk.
    { intros y Hy. rewrite Forall_forall in Hx. specialize (Hx y Hy). rewrite cmp_total_le in Hx. lia. }
    clear -Hk. induction l as [|y l IH]; [done|]. rewrite filter_cons, decide_True by (apply Hk, elem_of_cons; by left).
    f_equal. apply IH. intros z Hz. apply Hk, elem_of_cons. by right.
  - rewrite filter_cons, decide_False by done. apply IH. intros y Hy. apply Hf, elem_of_cons. by right.
Qed.

Lemma before_first_rank f k l :
  StronglySorted (fun x y => cmp_total x y <= 0) l -> (forall x, x ∈ l -> f x = bool_decide (k <= rank x)) ->
  before_first f l = filter (fun x => rank x < k) l.
Proof.
  induction 1 as [|x l Hs IH Hx]; intros Hf; [done|]. cbn [before_first]. rewrite filter_cons, Hf by (apply elem_of_cons; by left).
  case_bool_decide as Ek.
  - rewrite decide_False by lia. symmetry.
    rewrite Forall_forall in Hx. assert (forall y, y ∈ l -> ~ rank y < k) as Hn.
    { intros y Hy. specialize (Hx y Hy). rewrite cmp_total_le in Hx. lia. }
    clear -Hn. induction l as [|y l IH]; [done|]. rewrite filter_cons, decide_False by (apply Hn, elem_of_cons; by left).
    apply IH. intros z Hz. apply Hn, elem_of_cons. by right.
  - rewrite decide_True by lia. f_equal. apply IH. intros y Hy. apply Hf, elem_of_cons. by right.
Qed.

Lemma until_noname_before l :
  until_noname clcf l = before_first (fun lq => negb (regex (lq_conf clcf lq)) && negb (named (lq_conf clcf lq)) && noname (lq_conf clcf lq)) l.
Proof. induction l as [|x l IH]; [done|]. cbn. by rewrite IH. Qed.

Lemma sorted_filter_locations (P : lqueue -> Prop) `{forall x, Decision (P x)} (R : lqueue -> lqueue -> Prop) l :
  StronglySorted R l -> StronglySorted R (filter P l).
Proof.
  induction 1 as [|x l Hs IH Hx]; [constructor|]. rewrite filter_cons. case_decide; [|done]. constructor; [done|].
  rewrite Forall_forall in *. intros y [_ Hy]%list_elem_of_filter. auto.
Qed.

Lemma filter_lt_lt j k (l : list lqueue) : j <= k -> filter (fun x => rank x < j) (filter (fun x => rank x < k) l) = filter (fun x => rank x < j) l.
Proof.
  intros Hjk. induction l as [|x l IH]; [done|]. rewrite !(filter_cons _ x l). repeat case_decide; try lia; rewrite ?filter_cons; rewrite ?decide_True by done; rewrite ?decide_False by done; rewrite ?IH; done.
Qed.


Definition is_static (c : ngx_http_core_loc_conf_t) : bool := negb (noname c) && negb (named c) && negb (regex c).

(** The element that [ngx_http_add_location] makes. *)
Definition entry (c : loc) : lqueue :=
  if exact_match (clcf c) || regex (clcf c) || named (clcf c) || noname (clcf c)
  then mk_lq c NULL (name (clcf c)) [] else mk_lq NULL c (name (clcf c)) [].

Lemma add_locations cs l : foldl (ngx_http_add_location clcf) l cs = l ++ (entry <$> cs).
Proof.
  revert l. induction cs as [|c cs IH]; intros l; [by rewrite app_nil_r|]. cbn [foldl fmap list_fmap].
  rewrite IH. unfold ngx_http_add_location. by rewrite <- app_assoc.
Qed.

Lemma entry_conf c : c <> NULL -> lq_conf clcf (entry c) = clcf c.
Proof.
  intros Hc. unfold entry, lq_conf. destruct (_ || _); cbn; [|done]. by rewrite (proj2 (Z.eqb_neq _ _) Hc).
Qed.

Lemma entry_name c : lq_name (entry c) = name (clcf c).
Proof. unfold entry. by destruct (_ || _). Qed.

Lemma entry_list c : lq_list (entry c) = [].
Proof. unfold entry. by destruct (_ || _). Qed.

Lemma entry_static c :
  is_static (clcf c) = true -> entry c = if exact_match (clcf c) then mk_lq c NULL (name (clcf c)) [] else mk_lq NULL c (name (clcf c)) [].
Proof.
  unfold is_static, entry. destruct (noname (clcf c)), (named (clcf c)), (regex (clcf c)); try done. intros _.
  by rewrite !orb_false_r.
Qed.

Lemma entry_rank c : c <> NULL -> one_sort (clcf c) -> (rank (entry c) < 1 <-> is_static (clcf c) = true).
Proof.
  intros Hc _. unfold rank, is_static. rewrite entry_conf by done. destruct (noname (clcf c)), (named (clcf c)), (regex (clcf c)); cbn; split; (done || lia).
Qed.

Section configured.
Context (cs : list loc).
Context (Hnull : forall c, c ∈ cs -> c <> NULL) (Hsort : forall c, c ∈ cs -> one_sort (clcf c)).

Abbreviation queue := (foldl (ngx_http_add_location clcf) [] cs).
Abbreviation sorted := (insert_all (ngx_http_cmp_locations clcf) [] queue).

Lemma sorted_elem x : x ∈ sorted <-> exists c, c ∈ cs /\ x = entry c.
Proof.
  rewrite (proj2 (sorted_locations queue)), add_locations. cbn [app]. rewrite list_elem_of_fmap. naive_solver.
Qed.

(** The parts of the sorted queue. *)
Lemma init_locations_parts :
  locations (ngx_http_init_locations clcf queue) = filter (fun x => rank x < 1) sorted /\
  regex_locations (ngx_http_init_locations clcf queue) = lq_exact <$> filter (fun x => 1 <= rank x) (filter (fun x => rank x < 2) sorted).
Proof.
  unfold ngx_http_init_locations. cbn [locations regex_locations]. rewrite until_noname_before.
  destruct (sorted_locations queue) as [Hs _].
  assert (forall x, x ∈ sorted -> one_sort (lq_conf clcf x)) as Hone.
  { intros x (c & Hc & ->)%sorted_elem. rewrite entry_conf by auto. auto. }
  rewrite (before_first_rank _ 3 _ Hs).
  2: { intros x Hx%Hone. destruct Hx as [H1 H2]. unfold rank.
       destruct (noname (lq_conf clcf x)), (named (lq_conf clcf x)), (regex (lq_conf clcf x)); cbn; (done || naive_solver). }
  rewrite (before_first_rank (is_named clcf) 2).
  - rewrite filter_lt_lt by lia.
    assert (forall x, x ∈ filter (fun x => rank x < 2) sorted -> is_regex clcf x = bool_decide (1 <= rank x)) as Hreg.
    { intros x [Hr Hx]%list_elem_of_filter. unfold is_regex. revert Hr. unfold rank.
      destruct (noname (lq_conf clcf x)), (named (lq_conf clcf x)), (regex (lq_conf clcf x)); cbn; (done || lia). }
    rewrite (before_first_rank (is_regex clcf) 1), (from_first_rank (is_regex clcf) 1) by (done || by apply sorted_filter_locations).
    by rewrite filter_lt_lt by lia.
  - by apply sorted_filter_locations.
  - intros x [Hr Hx]%list_elem_of_filter. apply Hone in Hx as [H1 H2]. unfold is_named. revert Hr. unfold rank.
    destruct (noname (lq_conf clcf x)), (named (lq_conf clcf x)), (regex (lq_conf clcf x)); cbn; (done || lia || naive_solver).
Qed.

Abbreviation statics := (locations (ngx_http_init_locations clcf queue)).

Definition static (c : loc) : Prop := c ∈ cs /\ is_static (clcf c) = true.

(** The regular expressions stay in the order of the configuration. *)
Lemma regexes_in_order : regex_locations (ngx_http_init_locations clcf queue) = filter (fun c => regex (clcf c) = true) cs.
Proof.
  rewrite (proj2 init_locations_parts).
  assert (forall l : list lqueue, filter (fun x => 1 <= rank x) (filter (fun x => rank x < 2) l) = filter (fun x => rank x = 1) l) as ->.
  { induction l as [|x l IH]; [done|]. rewrite !filter_cons. repeat case_decide; rewrite ?filter_cons; repeat case_decide; try lia; congruence. }
  assert (filter (fun x => rank x = 1) sorted = filter (fun x => rank x = 1) queue) as ->.
  { destruct (filter (fun x => rank x = 1) queue) as [|k l] eqn:E.
    - apply Permutation_nil_r. transitivity (filter (fun x => rank x = 1) queue); [|by rewrite E]. apply filter_Permutation, sorted_locations.
    - rewrite <- E. assert (rank k = 1) as Hk. { assert (k ∈ filter (fun x => rank x = 1) queue) as H by (rewrite E; apply elem_of_cons; by left). by apply list_elem_of_filter in H as [? _]. }
      assert (forall x, rank x = 1 <-> cmp_total x k = 0) as Hiff by (intros x; unfold cmp_total; rewrite Hk; destruct (Z.eqb_spec (rank x) 1) as [-> |]; [done|lia]).
      rewrite !(list_filter_iff (fun x => rank x = 1) (fun x => cmp_total x k = 0) _ Hiff). apply sorted_stable. }
  rewrite add_locations. cbn [app]. revert Hnull Hsort. induction cs as [|c l IH]; intros Hn Ho; [done|].
  cbn [fmap list_fmap]. rewrite !filter_cons.
  assert (lq_exact <$> filter (fun x => rank x = 1) (entry <$> l) = filter (fun c => regex (clcf c) = true) l) as IH'.
  { apply IH; intros d Hd; [apply Hn|apply Ho]; apply elem_of_cons; by right. }
  destruct (Ho c) as [H1 H2]; [apply elem_of_cons; by left|].
  assert (rank (entry c) = 1 <-> regex (clcf c) = true) as Hr.
  { unfold rank. rewrite entry_conf by (apply Hn, elem_of_cons; by left).
    destruct (noname (clcf c)), (named (clcf c)), (regex (clcf c)); cbn; split; (done || lia || naive_solver). }
  destruct (decide (regex (clcf c) = true)) as [E|E]; [rewrite decide_True by tauto|rewrite decide_False by tauto]; [|done].
  cbn [fmap list_fmap]. rewrite IH'. f_equal. unfold entry. rewrite E, orb_true_r. done.
Qed.

Lemma statics_elem x : x ∈ statics <-> exists c, static c /\ x = entry c.
Proof.
  rewrite (proj1 init_locations_parts), list_elem_of_filter, sorted_elem. unfold static. split.
  - intros (Hr & c & Hc & ->). exists c. split; [split; [done|]|done]. apply entry_rank in Hr; auto.
  - intros (c & [Hc Hst] & ->). split; [apply entry_rank; auto|]. by exists c.
Qed.

Lemma statics_sorted : StronglySorted name_le statics.
Proof.
  rewrite (proj1 init_locations_parts). destruct (sorted_locations queue) as [Hs _].
  apply (sorted_filter_locations (fun x => rank x < 1)) in Hs.
  assert (forall x, x ∈ filter (fun x => rank x < 1) sorted -> exists c, static c /\ x = entry c) as He.
  { intros x Hx. apply statics_elem. by rewrite (proj1 init_locations_parts). }
  revert Hs He. generalize (filter (fun x => rank x < 1) sorted). intros l Hs He.
  induction Hs as [|x l Hs IH Hx]; [constructor|]. constructor; [apply IH; intros; apply He, elem_of_cons; by right|].
  rewrite Forall_forall in *. intros y Hy. specialize (Hx y Hy). rewrite cmp_total_le in Hx.
  destruct (He x) as (c & [Hc1 Hc2] & ->); [apply elem_of_cons; by left|].
  destruct (He y) as (d & [Hd1 Hd2] & ->); [apply elem_of_cons; by right|].
  assert (rank (entry c) < 1 /\ rank (entry d) < 1) as [Rc Rd] by (split; apply entry_rank; auto).
  assert (0 <= rank (entry c) /\ 0 <= rank (entry d)) as [Rc' Rd'].
  { unfold rank. split; repeat case_match; lia. }
  rewrite !entry_conf in Hx by auto. unfold name_le. rewrite !entry_name.
  destruct Hx as [?|(_ & _ & Hx)]; [lia|]. destruct (Hx ltac:(lia)) as [?|[? Hk]]; [by left|right]. split; [done|].
  rewrite !entry_static by done. destruct Hk as [-> | ->]; cbn; [left; auto|by right].
Qed.

Lemma static_field c : static c ->
  if exact_match (clcf c) then holds lq_exact statics (name (clcf c)) c else holds lq_inclusive statics (name (clcf c)) c.
Proof.
  intros Hc. assert (entry c ∈ statics) as He by (apply statics_elem; by exists c). destruct Hc as [_ Hst].
  pose proof (entry_static c Hst) as E. destruct (exact_match (clcf c)); exists (entry c); (split; [done|]); by rewrite E.
Qed.

Lemma field_static n c : c <> NULL ->
  (holds lq_exact statics n c -> static c /\ exact_match (clcf c) = true /\ name (clcf c) = n) /\
  (holds lq_inclusive statics n c -> static c /\ exact_match (clcf c) = false /\ name (clcf c) = n).
Proof.
  intros Hc. split; intros (e & (d & Hd & ->)%statics_elem & Hn & Hf); pose proof (entry_static d (proj2 Hd)) as E;
    rewrite entry_name in Hn; destruct (exact_match (clcf d)) eqn:Ex; rewrite E in Hf; cbn in Hf; subst; done.
Qed.

End configured.

(** * The theorems *)

Section theorems.
Context (cs : list loc).

Definition unnamed (uri : bytes) : Prop := forall c, static cs c -> name (clcf c) <> uri.

(** The inclusive locations with a name that is a shorter prefix of the URI. *)
Definition prefix_location (uri : bytes) (c : loc) : Prop :=
  static cs c /\ exact_match (clcf c) = false /\ name (clcf c) `prefix_of` uri /\ name (clcf c) <> uri.

(** What the documentation promises of prefix and exact locations. *)
Inductive located (uri : bytes) (lc : loc) : Z * loc -> Prop :=
| located_exact c :
    static cs c -> exact_match (clcf c) = true -> name (clcf c) = uri -> located uri lc (NGX_OK, c)
| located_same c :
    static cs c -> exact_match (clcf c) = false -> name (clcf c) = uri ->
    (forall d, static cs d -> exact_match (clcf d) = true -> name (clcf d) <> uri) -> located uri lc (NGX_AGAIN, c)
| located_redirect c d ch :
    unnamed uri -> static cs c -> name (clcf c) = uri ++ [ch] ->
    static cs d -> name (clcf d) = uri ++ [ch] -> auto_redirect (clcf d) = true -> located uri lc (NGX_DONE, c)
| located_prefix c :
    unnamed uri -> prefix_location uri c ->
    (forall d, prefix_location uri d -> (length (name (clcf d)) <= length (name (clcf c)))%nat) -> located uri lc (NGX_AGAIN, c)
| located_none :
    unnamed uri -> (forall c, ~ prefix_location uri c) -> located uri lc (NGX_DECLINED, lc).

Lemma best_spec l uri acc :
  StronglySorted name_lt l ->
  (best l uri acc = acc /\ forall e, e ∈ l -> ~ covers uri e) \/
  exists e, e ∈ l /\ covers uri e /\ best l uri acc = (NGX_AGAIN, lq_inclusive e) /\
    forall e', e' ∈ l -> covers uri e' -> (length (lq_name e') <= length (lq_name e))%nat.
Proof.
  intros Hs. revert acc. induction Hs as [|x l Hs IH Hx]; intros acc; [left; split; [done|by intros e ?%not_elem_of_nil]|].
  cbn [best foldl]. fold (best l uri (if decide (covers uri x) then (NGX_AGAIN, lq_inclusive x) else acc)).
  destruct (IH (if decide (covers uri x) then (NGX_AGAIN, lq_inclusive x) else acc)) as [[-> Hn]|(e & He & Hc & -> & Hm)].
  - case_decide as Hd.
    + right. exists x. split_and!; [apply elem_of_cons; by left|done|done|]. intros e [->|He]%elem_of_cons Hc; [done|by apply Hn in Hc].
    + left. split; [done|]. intros e [->|He]%elem_of_cons; auto.
  - right. exists e. split_and!; [apply elem_of_cons; by right|done|done|]. intros e' [->|He']%elem_of_cons Hc'; [|auto].
    destruct Hc as (_ & Hp & _), Hc' as (_ & Hp' & _). rewrite Forall_forall in Hx. specialize (Hx e He).
    destruct (prefix_weak_total _ _ _ Hp Hp') as [H|H]; [by apply prefix_not_blt in H|by apply prefix_length].
Qed.

Context (Hnull : forall c, c ∈ cs -> c <> NULL) (Hsort : forall c, c ∈ cs -> one_sort (clcf c)).
Context (Hlen : forall c, c ∈ cs -> (length (name (clcf c)) < 256)%nat).

Abbreviation queue := (foldl (ngx_http_add_location clcf) [] cs).
Abbreviation statics := (locations (ngx_http_init_locations clcf queue)).

Lemma statics_ok q l : statics = q :: l ->
  StronglySorted name_le (q :: l) /\ Forall one_kind l /\ Forall (fun x => lq_list x = []) (q :: l) /\
  (lq_exact q <> NULL \/ lq_inclusive q <> NULL).
Proof.
  intros E. assert (forall x, x ∈ q :: l -> one_kind x /\ lq_list x = []) as Hk.
  { intros x Hx. rewrite <- E in Hx. apply statics_elem in Hx as (c & Hc & ->); [|done..].
    split; [|by apply entry_list]. rewrite (entry_static c (proj2 Hc)). destruct Hc as [Hc _]. specialize (Hnull c Hc).
    destruct (exact_match (clcf c)); [left|right]; done. }
  split_and!.
  - rewrite <- E. by apply statics_sorted.
  - apply Forall_forall. intros x Hx. apply Hk, elem_of_cons. by right.
  - apply Forall_forall. intros x Hx. by apply Hk.
  - destruct (Hk q) as [[[? _]|[_ ?]] _]; [apply elem_of_cons; by left|auto..].
Qed.

(** What the joined queue holds, in terms of the configuration. *)
Record joined (r : list lqueue) : Prop := mk_joined {
  joined_sorted : StronglySorted name_lt r;
  joined_lists : Forall (fun x => lq_list x = []) r;
  joined_some : Forall (fun x => lq_exact x <> NULL \/ lq_inclusive x <> NULL) r;
  joined_exact : forall n c, c <> NULL -> holds lq_exact r n c <-> static cs c /\ exact_match (clcf c) = true /\ name (clcf c) = n;
  joined_inclusive : forall n c, c <> NULL -> holds lq_inclusive r n c <-> static cs c /\ exact_match (clcf c) = false /\ name (clcf c) = n;
}.

Lemma join_joined r : ngx_http_join_exact_locations statics = Some r -> joined r.
Proof.
  assert (forall r, (forall n c, c <> NULL -> (holds lq_exact r n c <-> holds lq_exact statics n c) /\
    (holds lq_inclusive r n c <-> holds lq_inclusive statics n c)) ->
    (forall n c, c <> NULL -> holds lq_exact r n c <-> static cs c /\ exact_match (clcf c) = true /\ name (clcf c) = n) /\
    (forall n c, c <> NULL -> holds lq_inclusive r n c <-> static cs c /\ exact_match (clcf c) = false /\ name (clcf c) = n)) as Hfields.
  { intros r' H. split; intros n c Hc; destruct (H n c Hc) as [H1 H2]; rewrite ?H1, ?H2;
      (split; [by apply (field_static cs Hnull Hsort n c Hc)|intros (Hs & He & <-)]);
      pose proof (static_field cs Hnull Hsort c Hs) as Hf; by rewrite He in Hf. }
  destruct statics as [|q l] eqn:E; cbn [ngx_http_join_exact_locations].
  - intros [= <-]. destruct (Hfields []) as [F1 F2]; [done|]. split; try done; constructor.
  - intros Hr. destruct (statics_ok q l E) as (S1 & S2 & S3 & S4).
    destruct (join_from_spec l q S1 S2 S3 S4) as [_ H]. destruct (H r Hr) as (R1 & R2 & _ & _ & R6 & R5).
    destruct (Hfields r R5) as [F1 F2]. by split.
Qed.

Lemma joined_unique r e e' : joined r -> e ∈ r -> e' ∈ r -> lq_name e = lq_name e' -> e = e'.
Proof.
  intros Hj He He' En. pose proof (joined_sorted r Hj) as Hs. clear Hj. induction Hs as [|x l Hs IH Hx]; [by apply not_elem_of_nil in He|].
  rewrite Forall_forall in Hx. unfold name_lt in Hx.
  apply elem_of_cons in He as [->|He]; apply elem_of_cons in He' as [->|He']; [done| | |auto]; exfalso.
  - pose proof (Hx e' He') as H. rewrite En in H. by apply blt_irrefl in H.
  - pose proof (Hx e He) as H. rewrite En in H. by apply blt_irrefl in H.
Qed.

(** Every location of the joined queue comes from the configuration. *)
Lemma joined_either r e : joined r -> e ∈ r ->
  either e <> NULL /\ static cs (either e) /\ name (clcf (either e)) = lq_name e /\
  exact_match (clcf (either e)) = negb (lq_exact e =? NULL).
Proof.
  intros Hj He. pose proof (joined_some r Hj) as Hs. rewrite Forall_forall in Hs. specialize (Hs e He). unfold either.
  destruct (Z.eqb_spec (lq_exact e) NULL) as [E|E]; cbn [negb].
  - assert (lq_inclusive e <> NULL) as Hi by tauto.
    destruct (proj1 (joined_inclusive r Hj (lq_name e) (lq_inclusive e) Hi)) as (? & ? & ?); [by exists e|]. done.
  - destruct (proj1 (joined_exact r Hj (lq_name e) (lq_exact e) E)) as (? & ? & ?); [by exists e|]. done.
Qed.

Lemma joined_static r c : joined r -> static cs c ->
  exists e, e ∈ r /\ lq_name e = name (clcf c) /\ (if exact_match (clcf c) then lq_exact e else lq_inclusive e) = c.
Proof.
  intros Hj Hc. pose proof (Hnull c (proj1 Hc)) as Hcn. destruct (exact_match (clcf c)) eqn:E.
  - by apply (joined_exact r Hj (name (clcf c)) c Hcn).
  - by apply (joined_inclusive r Hj (name (clcf c)) c Hcn).
Qed.

Lemma joined_covers r uri c : joined r -> prefix_location uri c <-> exists e, e ∈ r /\ covers uri e /\ lq_inclusive e = c.
Proof.
  intros Hj. split.
  - intros (Hs & Hx & Hp & Hne). destruct (joined_static r c Hj Hs) as (e & He & Hn & Hc). rewrite Hx in Hc. exists e.
    split_and!; [done| |done]. unfold covers. rewrite Hn, Hc. split_and!; [apply Hnull, Hs|done..].
  - intros (e & He & (Hi & Hp & Hne) & <-).
    destruct (proj1 (joined_inclusive r Hj (lq_name e) (lq_inclusive e) Hi)) as (? & ? & E); [by exists e|].
    unfold prefix_location. rewrite E. done.
Qed.

Lemma answers_located r uri lc res : joined r -> answers r uri (NGX_DECLINED, lc) res -> located uri lc res.
Proof.
  intros Hj [(e & He & Hn & ->)|(H1 & H2 & _)].
  - destruct (joined_either r e Hj He) as (_ & Hs & En & Hx). unfold hit, either in *.
    destruct (Z.eqb_spec (lq_exact e) NULL) as [E|E]; cbn [negb] in *; [apply located_same; try congruence|apply located_exact; congruence].
    intros d Hd Hdx Hdn. destruct (joined_static r d Hj Hd) as (e' & He' & En' & Ef). rewrite Hdx in Ef.
    assert (e' = e) as -> by (apply (joined_unique r); congruence). apply (Hnull d (proj1 Hd)). congruence.
  - assert (unnamed uri) as Hun. { intros c Hc Hn. destruct (joined_static r c Hj Hc) as (e & He & En & _). apply (H1 e He). congruence. }
    destruct H2 as [->|(e & ch & He & Hn & Ha & ->)].
    + destruct (best_spec r uri (NGX_DECLINED, lc) (joined_sorted r Hj)) as [[-> Hno]|(e & He & Hc & -> & Hm)].
      * apply located_none; [done|]. intros c Hc. apply (joined_covers r uri c Hj) in Hc as (e & He & Hcov & _). by apply (Hno e).
      * apply located_prefix; [done|apply (joined_covers r uri _ Hj); by exists e|].
        intros d Hd. pose proof Hd as Hd'. apply (joined_covers r uri d Hj) in Hd as (e' & He' & Hc' & <-).
        assert (forall x, x ∈ r -> covers uri x -> name (clcf (lq_inclusive x)) = lq_name x) as Hnm.
        { intros x Hxr (Hi & _ & _). by destruct (proj1 (joined_inclusive r Hj (lq_name x) (lq_inclusive x) Hi)) as (_ & _ & E'); [by exists x|]. }
        rewrite !Hnm by done. auto.
    + destruct (joined_either r e Hj He) as (_ & Hs & En & Hx).
      assert (exists d, static cs d /\ name (clcf d) = lq_name e /\ auto_redirect (clcf d) = true) as (d & Hd1 & Hd2 & Hd3).
      { unfold lq_auto in Ha. apply orb_true_iff in Ha as [Ha|Ha]; apply andb_true_iff in Ha as [Hz Ha]; apply negb_true_iff, Z.eqb_neq in Hz.
        - exists (lq_exact e). destruct (proj1 (joined_exact r Hj (lq_name e) (lq_exact e) Hz)) as (? & ? & ?); [by exists e|]. done.
        - exists (lq_inclusive e). destruct (proj1 (joined_inclusive r Hj (lq_name e) (lq_inclusive e) Hz)) as (? & ? & ?); [by exists e|]. done. }
      by apply (located_redirect uri lc (either e) d ch); rewrite ?En, ?Hd2.
Qed.

Lemma weights_flats n : forall l, (weights l <= n)%nat -> weights l = length (flats l).
Proof.
  induction n as [|n IH]; intros l; induction l as [|x l IHl]; intros Hl; try done; unfold weights in Hl; cbn [foldr] in Hl;
    fold (weights l) in Hl; rewrite weight_unfold in Hl; [lia|].
  rewrite flats_cons, length_app, flat1_unfold. unfold weights. cbn [foldr length]. fold (weights l). rewrite weight_unfold.
  rewrite (IH (lq_list x)) by lia. rewrite IHl by lia. done.
Qed.

Lemma trees_joined budget t :
  ngx_http_init_static_location_trees clcf budget statics = Some t ->
  exists r, joined r /\ forall uri acc, answers r uri acc (find_static t uri acc.1 acc.2).
Proof.
  unfold ngx_http_init_static_location_trees. intros Ht. destruct (ngx_http_join_exact_locations statics) as [r|] eqn:Ej.
  2: { destruct statics; done. }
  pose proof (join_joined r Ej) as Hj. exists r. split; [done|]. intros uri acc.
  destruct statics as [|q l]; [injection Ht as <-; injection Ej as <-; cbn; destruct acc; apply answers_null|].
  destruct (ngx_http_create_locations_tree clcf budget (ngx_http_create_locations_list r) 0) as [[t' b]|] eqn:Et; [|done].
  injection Ht as <-. destruct (create_list_nested (length r) [] r) as (N1 & N2 & _).
  { done. } { apply Hj. } { apply Hj. } { apply Forall_forall. intros; apply prefix_nil. }
  rewrite <- N2. rewrite <- (drop_0 uri) at 2. eapply (create_tree_answers _ _ budget []); [exact Et|exact N1| |apply prefix_nil].
  intros e He. unfold ngx_http_create_locations_list in He. rewrite N2 in He.
  destruct (joined_either r e Hj He) as (_ & Hs & <- & _). apply Hlen, Hs.
Qed.

(** Two locations of the same sort with the same name. *)
Definition duplicate : Prop :=
  exists c d, static cs c /\ static cs d /\ c <> d /\ name (clcf c) = name (clcf d) /\ exact_match (clcf c) = exact_match (clcf d).

Lemma duplicate_refused : duplicate -> ngx_http_join_exact_locations statics = None.
Proof.
  intros (c & d & Hc & Hd & Hne & Hn & Hx). destruct (ngx_http_join_exact_locations statics) as [r|] eqn:E; [|done].
  pose proof (join_joined r E) as Hj. destruct (joined_static r c Hj Hc) as (e & He & En & Ec).
  destruct (joined_static r d Hj Hd) as (e' & He' & En' & Ed). exfalso. apply Hne.
  assert (e = e') as <- by (apply (joined_unique r); congruence). rewrite <- Ec, <- Ed. by rewrite Hx.
Qed.

Lemma pairwise_sorted {A} (R : A -> A -> Prop) (l : list A) :
  NoDup l -> (forall x y, x ∈ l -> y ∈ l -> x <> y -> R x y) -> StronglySorted R l.
Proof.
  induction 1 as [|x l Hx Hl IH]; intros HR; [constructor|]. constructor.
  - apply IH. intros y z Hy Hz. apply HR; apply elem_of_cons; by right.
  - apply Forall_forall. intros y Hy. apply HR; [apply elem_of_cons; by left|apply elem_of_cons; by right|]. by intros ->.
Qed.

Lemma statics_nodup : NoDup cs -> NoDup statics.
Proof.
  intros Hnd. rewrite (proj1 (init_locations_parts cs Hnull Hsort)). apply NoDup_filter.
  rewrite (proj2 (sorted_locations queue)), add_locations. cbn [app]. apply NoDup_fmap_2_strong; [|done].
  intros c d Hc Hd E. unfold entry in E. specialize (Hnull c Hc) as Hcn. specialize (Hnull d Hd) as Hdn.
  destruct (_ || _), (exact_match (clcf d) || _ || _ || _); congruence.
Qed.

Lemma joined_accepts : NoDup cs -> ~ duplicate -> is_Some (ngx_http_join_exact_locations statics).
Proof.
  intros Hnd Hdup. pose proof (statics_nodup Hnd) as Hsd. pose proof (statics_elem cs Hnull Hsort) as Hel.
  destruct statics as [|q l] eqn:E; [by eexists|]. destruct (statics_ok q l E) as (S1 & S2 & S3 & S4).
  apply (join_from_spec l q S1 S2 S3 S4). apply pairwise_sorted; [done|]. intros x y Hx Hy Hxy Hn.
  apply Hel in Hx as (c & Hc & ->). apply Hel in Hy as (d & Hd & ->). rewrite !entry_name in Hn.
  rewrite (entry_static c (proj2 Hc)), (entry_static d (proj2 Hd)).
  destruct (exact_match (clcf c)) eqn:Ec, (exact_match (clcf d)) eqn:Ed; cbn; rewrite ?andb_false_r; try done;
    exfalso; apply Hdup; exists c, d; split_and!; try done; congruence.
Qed.

Lemma joined_length r : ngx_http_join_exact_locations statics = Some r -> (length r <= length cs)%nat.
Proof.
  intros Hr. assert (length statics <= length cs)%nat as Hl.
  { rewrite (proj1 (init_locations_parts cs Hnull Hsort)). etrans; [apply length_filter|].
    rewrite (proj2 (sorted_locations queue)), add_locations. cbn [app]. by rewrite length_fmap. }
  destruct statics as [|q l] eqn:E; [injection Hr as <-; cbn; lia|]. destruct (statics_ok q l E) as (S1 & S2 & S3 & S4).
  destruct (join_from_spec l q S1 S2 S3 S4) as [_ H]. destruct (H r Hr) as (_ & _ & _ & ? & _). cbn in Hl. lia.
Qed.

Lemma trees_accepted budget :
  NoDup cs -> (length cs <= budget)%nat -> ~ duplicate ->
  is_Some (ngx_http_init_static_location_trees clcf budget statics).
Proof.
  intros Hnd Hb Hdup. destruct (joined_accepts Hnd Hdup) as [r Hr]. pose proof (joined_length r Hr) as Hrl.
  pose proof (join_joined r Hr) as Hj. unfold ngx_http_init_static_location_trees. rewrite Hr.
  destruct statics as [|q l] eqn:E; [by eexists|].
  destruct (create_list_nested (length r) [] r) as (N1 & N2 & _).
  { done. } { apply Hj. } { apply Hj. } { apply Forall_forall. intros; apply prefix_nil. }
  unfold ngx_http_create_locations_tree, ngx_http_create_locations_list.
  pose proof (weights_flats _ _ (le_n (weights (create_list (length r) r)))) as Hw. rewrite N2 in Hw.
  destruct (create_tree_total (weights (create_list (length r) r)) (create_list (length r) r) budget 0) as [t ->]; [|lia|lia|by eexists].
  intros Hnil. rewrite Hnil in N2. subst r. cbn in Hr. destruct l as [|x l]; [done|].
  destruct (statics_ok q (x :: l) E) as (S1 & S2 & S3 & S4).
  assert (q ∈ statics) as Hq by (rewrite E; apply elem_of_cons; by left).
  apply statics_elem in Hq as (c & Hc & _); [|done..]. destruct (joined_static [] c Hj Hc) as (e & He & _). by apply not_elem_of_nil in He.
Qed.
End theorems.
End lookup.

(** C28: looking a URI up in the tree that is made of the configured locations gives
    what the documentation of [location] promises: an exact location of that name
    ([NGX_OK]); else the inclusive one of that name; else the inclusive location with
    the longest name that is a prefix of the URI ([NGX_AGAIN]), or none
    ([NGX_DECLINED]).  A redirect ([NGX_DONE]) is answered only for a location that is
    marked for it and whose name is the URI with one more character, and it is
    answered when no other name lies between the two.  Names are shorter than 256. *)
Theorem static_location_correct (clcf : loc -> ngx_http_core_loc_conf_t) cs budget t uri lc :
  (forall c, c ∈ cs -> c <> NULL) -> (forall c, c ∈ cs -> one_sort (clcf c)) ->
  (forall c, c ∈ cs -> (length (name (clcf c)) < 256)%nat) ->
  ngx_http_init_static_location_trees clcf budget
    (locations (ngx_http_init_locations clcf (foldl (ngx_http_add_location clcf) [] cs))) = Some t ->
  located clcf cs uri lc (ngx_http_core_find_static_location t uri lc) /\
  (forall c ch, static clcf cs c -> name (clcf c) = uri ++ [ch] -> auto_redirect (clcf c) = true -> unnamed clcf cs uri ->
     (forall d, static clcf cs d -> ~ (blt uri (name (clcf d)) /\ blt (name (clcf d)) (uri ++ [ch]))) ->
     (ngx_http_core_find_static_location t uri lc).1 = NGX_DONE).
Proof.
  intros Hnull Hsort Hlen Ht. destruct (trees_joined clcf cs Hnull Hsort Hlen budget t Ht) as (r & Hj & Hans).
  specialize (Hans uri (NGX_DECLINED, lc)). split; [by eapply answers_located|].
  intros c ch Hc Hn Ha Hun Hbt. destruct (joined_static clcf cs Hnull r c Hj Hc) as (e & He & En & Ec).
  destruct Hans as [(e' & He' & Hn' & _)|(_ & _ & H3)].
  - destruct (joined_either clcf cs r e' Hj He') as (_ & Hs & Hne & _). exfalso. apply (Hun _ Hs). congruence.
  - unfold ngx_http_core_find_static_location. cbn [fst snd] in H3. rewrite (H3 e ch); [done|done|congruence| |].
    + unfold lq_auto. destruct (exact_match (clcf c)); rewrite Ec, Ha, (proj2 (Z.eqb_neq _ _) (Hnull c (proj1 Hc))); cbn; by rewrite ?orb_true_r.
    + intros e' He' [B1 B2]. destruct (joined_either clcf cs r e' Hj He') as (_ & Hs & Hne & _).
      apply (Hbt _ Hs). rewrite Hne. split; [done|]. by rewrite <- Hn, <- En.
Qed.

(** With enough memory the location trees are made exactly when no two locations
    of the same sort have the same name. *)
Theorem locations_accepted (clcf : loc -> ngx_http_core_loc_conf_t) cs budget :
  (forall c, c ∈ cs -> c <> NULL) -> (forall c, c ∈ cs -> one_sort (clcf c)) -> NoDup cs -> (length cs <= budget)%nat ->
  is_Some (ngx_http_init_static_location_trees clcf budget
    (locations (ngx_http_init_locations clcf (foldl (ngx_http_add_location clcf) [] cs)))) <-> ~ duplicate clcf cs.
Proof.
  intros Hnull Hsort Hnd Hb. split; [|by apply trees_accepted].
  intros Hs Hdup. pose proof (duplicate_refused clcf cs Hnull Hsort Hdup) as E.
  unfold ngx_http_init_static_location_trees in Hs. rewrite E in Hs.
  destruct (locations _); [done|by destruct Hs].
Qed.

(** * Nested locations and regular expressions *)

Section find_location.
Context (clcf : loc -> ngx_http_core_loc_conf_t) (static_locations : loc -> tree_node) (regexes : loc -> list loc)
        (ngx_http_regex_exec : loc -> bytes -> Z).

Fixpoint tree_confs (t : tree_node) : list loc :=
  match t with
  | Null => []
  | Node lt rt st exact inclusive _ _ _ => exact :: inclusive :: tree_confs lt ++ tree_confs rt ++ tree_confs st
  end.

Lemma find_static_conf t : forall uri rv lc,
  find_static t uri rv lc = (rv, lc) \/ (find_static t uri rv lc).2 ∈ tree_confs t.
Proof.
  induction t as [|lt IHl rt IHr st IHs ex inc auto len nm]; intros uri rv lc; [by left|]. cbn [find_static tree_confs].
  assert (forall t' uri' rv' lc', (forall u r l, find_static t' u r l = (r, l) \/ (find_static t' u r l).2 ∈ tree_confs t') ->
    (forall c, c ∈ tree_confs t' -> c ∈ ex :: inc :: tree_confs lt ++ tree_confs rt ++ tree_confs st) ->
    (rv', lc') = (rv, lc) \/ lc' ∈ ex :: inc :: tree_confs lt ++ tree_confs rt ++ tree_confs st ->
    find_static t' uri' rv' lc' = (rv, lc) \/ (find_static t' uri' rv' lc').2 ∈ ex :: inc :: tree_confs lt ++ tree_confs rt ++ tree_confs st) as Hgo.
  { intros t' uri' rv' lc' IH Hsub Hstart. destruct (IH uri' rv' lc') as [->|H]; [destruct Hstart as [->|]; [by left|by right]|right; auto]. }
  assert (forall c, (c ∈ tree_confs lt -> c ∈ ex :: inc :: tree_confs lt ++ tree_confs rt ++ tree_confs st) /\
    (c ∈ tree_confs rt -> c ∈ ex :: inc :: tree_confs lt ++ tree_confs rt ++ tree_confs st) /\
    (c ∈ tree_confs st -> c ∈ ex :: inc :: tree_confs lt ++ tree_confs rt ++ tree_confs st)) as Hsub.
  { intros c. rewrite !elem_of_cons, !elem_of_app. tauto. }
  assert (ex ∈ ex :: inc :: tree_confs lt ++ tree_confs rt ++ tree_confs st /\ inc ∈ ex :: inc :: tree_confs lt ++ tree_confs rt ++ tree_confs st)
    as [Hex Hinc] by (rewrite !elem_of_cons; tauto).
  repeat case_match; try (apply Hgo; [done|apply Hsub|by left]); try (apply Hgo; [done|apply Hsub|by right]); by right.
Qed.

(** The result of the static look-up is [NGX_AGAIN] only with a location of the tree. *)
Lemma find_static_again t uri c :
  (ngx_http_core_find_static_location t uri c).1 = NGX_AGAIN -> (ngx_http_core_find_static_location t uri c).2 ∈ tree_confs t.
Proof.
  unfold ngx_http_core_find_static_location. destruct (find_static_conf t uri NGX_DECLINED c) as [->|]; [done|auto].
Qed.

Lemma regex_loop_total f uri l rc lc :
  (forall c, c ∈ l -> is_Some (f c)) -> is_Some (regex_loop ngx_http_regex_exec f uri l rc lc).
Proof.
  induction l as [|c l IH]; intros Hf; cbn [regex_loop]; [by eexists|].
  destruct (_ =? NGX_OK).
  - destruct (Hf c) as [[rc' lc'] ->]; [apply elem_of_cons; by left|by eexists].
  - destruct (_ =? NGX_DECLINED); [|by eexists]. apply IH. intros d Hd. apply Hf, elem_of_cons. by right.
Qed.

(** The recursion into nested locations ends when locations are nested to a finite
    depth, as blocks of a file are. *)
Theorem find_location_terminates (depth : loc -> nat) fuel uri pclcf :
  (forall c d, d ∈ tree_confs (static_locations c) \/ d ∈ regexes c -> (depth d < depth c)%nat) ->
  (depth pclcf < fuel)%nat ->
  is_Some (find_location clcf static_locations regexes ngx_http_regex_exec fuel uri pclcf).
Proof.
  intros Hd. revert pclcf. induction fuel as [|fuel IH]; intros pclcf Hf; [lia|]. cbn [find_location].
  pose proof (find_static_again (static_locations pclcf) uri pclcf) as Hag.
  destruct (ngx_http_core_find_static_location (static_locations pclcf) uri pclcf) as [rc lc]. cbn [fst snd] in Hag.
  assert (is_Some (if rc =? NGX_AGAIN
             then match find_location clcf static_locations regexes ngx_http_regex_exec fuel uri lc with
                  | Some (rc, lc') => Some (rc, lc', noregex (clcf lc))
                  | None => None
                  end
             else Some (rc, lc, false))) as [[[rc' lc'] nr] ->].
  { destruct (Z.eqb_spec rc NGX_AGAIN) as [->|]; [|by eexists].
    destruct (IH lc) as [[rc' lc'] ->]; [|by eexists]. specialize (Hd pclcf lc). specialize (Hag eq_refl). assert (depth lc < depth pclcf)%nat by auto. lia. }
  destruct (_ || _); [by eexists|]. destruct nr; cbn [negb]; [by eexists|]. apply regex_loop_total.
  intros c Hc. apply IH. assert (depth c < depth pclcf)%nat by (apply Hd; auto). lia.
Qed.

(** [NGX_AGAIN] is never the result: after an inclusive match the nested locations are
    looked up, and where there are none the result is [NGX_DECLINED]. *)
Theorem find_location_never_again fuel uri pclcf rc lc :
  find_location clcf static_locations regexes ngx_http_regex_exec fuel uri pclcf = Some (rc, lc) -> rc <> NGX_AGAIN.
Proof.
  revert pclcf rc lc. induction fuel as [|fuel IH]; intros pclcf rc lc; [done|]. cbn [find_location].
  assert (forall l rc0 lc0, rc0 <> NGX_AGAIN ->
    regex_loop ngx_http_regex_exec (find_location clcf static_locations regexes ngx_http_regex_exec fuel uri) uri l rc0 lc0 = Some (rc, lc) -> rc <> NGX_AGAIN) as Hloop.
  { induction l as [|c l IHl]; intros rc0 lc0 Hrc; cbn [regex_loop]; [by intros [= <- <-]|]. destruct (_ =? NGX_OK).
    - destruct (find_location _ _ _ _ _ _ _) as [[rc1 lc1]|]; [|done]. intros [= <- <-]. by destruct (rc1 =? NGX_ERROR) eqn:E; [apply Z.eqb_eq in E as ->|].
    - destruct (_ =? NGX_DECLINED); [by apply IHl|by intros [= <- <-]]. }
  destruct (ngx_http_core_find_static_location (static_locations pclcf) uri pclcf) as [rc1 lc1].
  destruct (Z.eqb_spec rc1 NGX_AGAIN) as [-> |Hne].
  - destruct (find_location _ _ _ _ fuel uri lc1) as [[rc2 lc2]|] eqn:E; [|done]. apply IH in E.
    destruct (_ || _); [by intros [= <- <-]|]. destruct (negb _); [by apply Hloop|by intros [= <- <-]].
  - destruct (_ || _); [by intros [= <- <-]|]. by apply Hloop.
Qed.

(** The rule of the documentation of [location], for the locations [cs] of a server in the
    order of the configuration: an exact match or a redirect is final; a prefix location
    that is marked with [^~] wins over the regular expressions; else the first regular
    expression that matches is taken; else the prefix location, or the server itself. *)
Section rule.
Context (cs : list loc) (uri : bytes) (server : loc).

(** The best static location [c], after which the regular expressions are tried. *)
Inductive undecided : loc -> Prop :=
| undecided_prefix c : located clcf cs uri server (NGX_AGAIN, c) -> noregex (clcf c) = false -> undecided c
| undecided_none c : located clcf cs uri server (NGX_DECLINED, c) -> undecided c.

(** Up to a place in the configuration no regular expression matches. *)
Definition no_match (l : list loc) : Prop := forall c, c ∈ l -> regex (clcf c) = true -> ngx_http_regex_exec c uri = NGX_DECLINED.

Inductive selected : Z * loc -> Prop :=
| selected_exact c : located clcf cs uri server (NGX_OK, c) -> selected (NGX_OK, c)
| selected_redirect c : located clcf cs uri server (NGX_DONE, c) -> selected (NGX_DONE, c)
| selected_noregex c : located clcf cs uri server (NGX_AGAIN, c) -> noregex (clcf c) = true -> selected (NGX_DECLINED, c)
| selected_regex c cs1 d cs2 :
    undecided c -> cs = cs1 ++ d :: cs2 -> no_match cs1 -> regex (clcf d) = true -> ngx_http_regex_exec d uri = NGX_OK -> selected (NGX_OK, d)
| selected_error c cs1 d cs2 :
    undecided c -> cs = cs1 ++ d :: cs2 -> no_match cs1 -> regex (clcf d) = true ->
    ngx_http_regex_exec d uri <> NGX_OK -> ngx_http_regex_exec d uri <> NGX_DECLINED -> selected (NGX_ERROR, c)
| selected_prefix c : undecided c -> no_match cs -> selected (NGX_DECLINED, c).

Lemma located_cases rc lc : located clcf cs uri server (rc, lc) -> rc = NGX_OK \/ rc = NGX_DONE \/ rc = NGX_AGAIN /\ lc ∈ cs \/ rc = NGX_DECLINED.
Proof.
  inversion 1 as [c [Hc _] _ _|c [Hc _] _ _ _| |c _ [[Hc _] _] _|]; subst; auto.
Qed.

Lemma regex_loop_selected fuel c :
  (forall d, d ∈ cs -> find_location clcf static_locations regexes ngx_http_regex_exec fuel uri d = Some (NGX_DECLINED, d)) -> undecided c ->
  exists r, regex_loop ngx_http_regex_exec (find_location clcf static_locations regexes ngx_http_regex_exec fuel uri) uri
      (filter (fun d => regex (clcf d) = true) cs) NGX_DECLINED c = Some r /\ selected r.
Proof.
  intros Hleaf Hc. enough (forall cs1 cs2, cs = cs1 ++ cs2 -> no_match cs1 ->
    exists r, regex_loop ngx_http_regex_exec (find_location clcf static_locations regexes ngx_http_regex_exec fuel uri) uri
      (filter (fun d => regex (clcf d) = true) cs2) NGX_DECLINED c = Some r /\ selected r) as H by (by apply (H []); [|intros ? ?%elem_of_nil]).
  intros cs1 cs2. revert cs1. induction cs2 as [|d cs2 IH]; intros cs1 Hcs Hno.
  { eexists. split; [done|]. rewrite app_nil_r in Hcs. apply selected_prefix; [done|]. by rewrite Hcs. }
  assert (cs = (cs1 ++ [d]) ++ cs2) as Hcs' by (by rewrite <- app_assoc).
  rewrite filter_cons. case_decide as Hd.
  2: { apply (IH (cs1 ++ [d])); [done|]. intros e [He| ->%list_elem_of_singleton]%elem_of_app; [by apply Hno|done]. }
  cbn [regex_loop]. destruct (Z.eqb_spec (ngx_http_regex_exec d uri) NGX_OK) as [E|E].
  - rewrite Hleaf by (rewrite Hcs; set_solver). eexists. split; [done|]. by eapply selected_regex.
  - destruct (Z.eqb_spec (ngx_http_regex_exec d uri) NGX_DECLINED) as [E'|E'].
    + apply (IH (cs1 ++ [d])); [done|]. intros e [He| ->%list_elem_of_singleton]%elem_of_app ?; [by apply Hno|done].
    + eexists. split; [done|]. by eapply selected_error.
Qed.
End rule.

(** C29: from the configuration to the location of a request, for a server whose locations
    are not nested, with names shorter than 256: the trees and the list of regular
    expressions that [ngx_http_init_locations] and [ngx_http_init_static_location_trees]
    make of the configured locations give exactly the location that the documentation
    promises ([selected]), with the regular expressions in the order of the configuration
    whatever the sorting does.  An inclusive match comes out as [NGX_DECLINED]. *)
Theorem find_location_rule cs budget fuel uri server :
  (forall c, c ∈ cs -> c <> NULL) -> (forall c, c ∈ cs -> one_sort (clcf c)) ->
  (forall c, c ∈ cs -> (length (name (clcf c)) < 256)%nat) ->
  let init := ngx_http_init_locations clcf (foldl (ngx_http_add_location clcf) [] cs) in
  ngx_http_init_static_location_trees clcf budget (locations init) = Some (static_locations server) ->
  regexes server = regex_locations init ->
  (forall c, c ∈ cs -> static_locations c = Null /\ regexes c = []) ->
  exists r, find_location clcf static_locations regexes ngx_http_regex_exec (S (S fuel)) uri server = Some r /\ selected cs uri server r.
Proof.
  cbn zeta. intros Hnull Hsort Hlen Ht Hre Hflat. rewrite regexes_in_order in Hre by done.
  assert (forall c, c ∈ cs -> find_location clcf static_locations regexes ngx_http_regex_exec (S fuel) uri c = Some (NGX_DECLINED, c)) as Hleaf.
  { intros c Hc. destruct (Hflat c Hc) as [E1 E2]. cbn [find_location]. rewrite E1, E2. done. }
  destruct (trees_joined clcf cs Hnull Hsort Hlen budget _ Ht) as (r & Hj & Hans).
  assert (located clcf cs uri server (ngx_http_core_find_static_location (static_locations server) uri server)) as Hloc by (eapply answers_located; [done..|apply Hans]).
  set (fuel' := S fuel) in *. clearbody fuel'. cbn [find_location]. rewrite Hre.
  destruct (ngx_http_core_find_static_location (static_locations server) uri server) as [rc lc].
  destruct (located_cases _ _ _ _ _ Hloc) as [-> |[-> |[[-> Hin]| ->]]]; cbn [Z.eqb orb NGX_OK NGX_DONE NGX_AGAIN NGX_DECLINED].
  - eexists. split; [done|]. by apply selected_exact.
  - eexists. split; [done|]. by apply selected_redirect.
  - rewrite Hleaf by done. cbn. destruct (noregex (clcf lc)) eqn:En; cbn [negb]; [eexists; split; [done|]; by apply selected_noregex|].
    apply regex_loop_selected; [done|by apply undecided_prefix].
  - cbn. apply regex_loop_selected; [done|by apply undecided_none].
Qed.
End find_location.

(** * An example server *)

Definition demo_conf (p : loc) : ngx_http_core_loc_conf_t :=
  match p with
  | 1 => mk_clcf (cstr "/0") false false false false false false
  | 2 => mk_clcf (cstr "/a-b") false false false false false false
  | 3 => mk_clcf (cstr "/a/") false false false false true false
  | 4 => mk_clcf (cstr "/a/b") true false false false false false
  | 5 => mk_clcf (cstr "/a/b") false true false false false false
  | 6 => mk_clcf (cstr "/") false false false false false false
  | 7 => mk_clcf (cstr "[.]php$") false false false false false true
  | _ => mk_clcf [] false false false true false false
  end.

Definition demo_tree (cs : list loc) : option tree_node :=
  ngx_http_init_static_location_trees demo_conf 20
    (locations (ngx_http_init_locations demo_conf (foldl (ngx_http_add_location demo_conf) [] cs))).
Definition demo_find (cs : list loc) (uri : bytes) : option (Z * loc) :=
  (fun t => ngx_http_core_find_static_location t uri 9) <$> demo_tree cs.

Example demo_answers :
  demo_find [7; 2; 3; 6; 5; 4] (cstr "/a/b") = Some (NGX_OK, 4) /\
  demo_find [7; 2; 3; 6; 5; 4] (cstr "/a/b/c") = Some (NGX_AGAIN, 5) /\
  demo_find [7; 2; 3; 6; 5; 4] (cstr "/a/c") = Some (NGX_AGAIN, 3) /\
  demo_find [7; 2; 3; 6; 5; 4] (cstr "/a") = Some (NGX_DONE, 3) /\
  demo_find [7; 2; 3; 5; 4] (cstr "/x") = Some (NGX_DECLINED, 9) /\
  demo_find [2; 3; 2] (cstr "/x") = None.
Proof. by vm_compute. Qed.

(** The redirect of "/a" to "/a/" depends on the other locations: with "/a-b", whose
    name is between the two, it is lost when "/a-b" becomes the root of the tree. *)
Lemma redirect_missed :
  demo_find [2; 3] (cstr "/a") = Some (NGX_DONE, 3) /\ demo_find [1; 2; 3] (cstr "/a") = Some (NGX_DECLINED, 9).
Proof. by vm_compute. Qed.

(** The length of a name is kept in one byte: a location with a name of 257 bytes is
    taken for one of length 1. *)
Lemma long_name_truncated :
  let conf := fun _ => mk_clcf (replicate 257 47) false false false false false false in
  (fun t => ngx_http_core_find_static_location t (cstr "/x") 9) <$>
    ngx_http_init_static_location_trees conf 1 (locations (ngx_http_init_locations conf (foldl (ngx_http_add_location conf) [] [1])))
  = Some (NGX_AGAIN, 1).
Proof. by vm_compute. Qed.

Lemma demo_confs_ok c : c ∈ [7; 2; 3; 6; 5; 4] ->
  c <> NULL /\ one_sort (demo_conf c) /\ (length (name (demo_conf c)) < 256)%nat.
Proof.
  rewrite !elem_of_cons. intros H. repeat (destruct H as [->|H]; [split_and!; [done|split; done|vm_compute; lia]|]). by apply not_elem_of_nil in H.
Qed.

Lemma static_location_correct_witness :
  exists t, demo_tree [7; 2; 3; 6; 5; 4] = Some t /\
    located demo_conf [7; 2; 3; 6; 5; 4] (cstr "/a/b/c") 9 (ngx_http_core_find_static_location t (cstr "/a/b/c") 9).
Proof.
  eexists. split; [vm_compute; reflexivity|].
  apply (static_location_correct demo_conf [7; 2; 3; 6; 5; 4] 20); [intros c Hc; by apply demo_confs_ok..|vm_compute; reflexivity].
Defined.

Lemma locations_accepted_witness :
  is_Some (demo_tree [7; 2; 3; 6; 5; 4]) <-> ~ duplicate demo_conf [7; 2; 3; 6; 5; 4].
Proof.
  apply (locations_accepted demo_conf [7; 2; 3; 6; 5; 4] 20);
    [intros c Hc; by apply demo_confs_ok..|apply (bool_decide_unpack _); by vm_compute|cbn; lia].
Defined.

(** The locations 7 (a regular expression), 2, 3, 6, 5 and 4 of the server 9. *)
Definition demo_lists : init_result := ngx_http_init_locations demo_conf (foldl (ngx_http_add_location demo_conf) [] [7; 2; 3; 6; 5; 4]).

Lemma find_location_rule_witness :
  let trees := fun c : loc => if c =? 9 then default Null (demo_tree [7; 2; 3; 6; 5; 4]) else Null in
  let regexes := fun c : loc => if c =? 9 then regex_locations demo_lists else [] in
  let exec := fun (c : loc) (uri : bytes) => if bool_decide (uri = cstr "/a/x.php") then NGX_OK else NGX_DECLINED in
  exists r, find_location demo_conf trees regexes exec 2 (cstr "/a/x.php") 9 = Some r /\ selected demo_conf exec [7; 2; 3; 6; 5; 4] (cstr "/a/x.php") 9 r.
Proof.
  cbv zeta.
  apply (find_location_rule demo_conf (fun c : loc => if c =? 9 then default Null (demo_tree [7; 2; 3; 6; 5; 4]) else Null)
    (fun c : loc => if c =? 9 then regex_locations demo_lists else [])
    (fun (c : loc) (uri : bytes) => if bool_decide (uri = cstr "/a/x.php") then NGX_OK else NGX_DECLINED) [7; 2; 3; 6; 5; 4] 20 0 (cstr "/a/x.php") 9).
  - intros c Hc. by apply demo_confs_ok.
  - intros c Hc. by apply demo_confs_ok.
  - intros c Hc. by apply demo_confs_ok.
  - vm_compute. reflexivity.
  - reflexivity.
  - intros c Hc. rewrite !elem_of_cons in Hc. repeat (destruct Hc as [->|Hc]; [split; reflexivity|]). by apply not_elem_of_nil in Hc.
Defined.

(** The regular expression 7 wins over the prefix location 3, but not over 4. *)
Example find_location_demo :
  let trees := fun c : loc => if c =? 9 then default Null (demo_tree [7; 2; 3; 6; 5; 4]) else Null in
  let regexes := fun c : loc => if c =? 9 then regex_locations demo_lists else [] in
  let find := find_location demo_conf trees regexes (fun _ _ => NGX_OK) 2 in
  find (cstr "/a/x.php") 9 = Some (NGX_OK, 7) /\ find (cstr "/a/b") 9 = Some (NGX_OK, 4) /\
  find_location demo_conf trees regexes (fun _ _ => NGX_DECLINED) 2 (cstr "/a/x.php") 9 = Some (NGX_DECLINED, 3).
Proof. vm_compute. done. Qed.
