(* ===== verification/NgxMail.v ===== *)
(** The command parsers of the mail proxy: src/mail/ngx_mail_parse.c.

    The parsers of POP3, IMAP and SMTP commands are state machines over the bytes of
    the session's buffer, like the ones of HTTP, and run in the same loop
    ([NgxHttpRequest.line_loop]).  A pointer is an offset from [s->buffer->start] and
    [None] is the null pointer.  [push] tells whether [ngx_array_push] succeeds on an
    array of that many elements, [ssl] whether the build has [NGX_MAIL_SSL].  The
    assignments to [s->state] that go with a return are made where the loop ends. *)

From S2P Require Import Prelude NgxStr NgxHttpRequest.

Open Scope Z_scope.

(** The states of all three parsers. *)
Inductive mail_state :=
| sw_start | sw_spaces_before_command | sw_command | sw_spaces_before_argument | sw_argument | sw_backslash | sw_literal
| sw_no_sync_literal_argument | sw_start_literal_argument | sw_literal_argument | sw_end_literal_argument | sw_almost_done.

Record ngx_mail_session_t := mk_session {
  s_quoted : bool;
  s_backslash : bool;
  s_no_sync_literal : bool;
  s_tag : option (Z * Z);
  s_command : Z;
  s_args : list (Z * Z);
  s_state : mail_state;
  s_cmd_start : option Z;
  s_arg_start : option Z;
  s_arg_end : option Z;
  s_literal_len : Z;
}.

#[export] Instance eta_session : EtaRecord ngx_mail_session_t := fun s =>
  mk_session (s_quoted s) (s_backslash s) (s_no_sync_literal s) (s_tag s) (s_command s) (s_args s) (s_state s)
    (s_cmd_start s) (s_arg_start s) (s_arg_end s) (s_literal_len s).
#[export] Instance set_quoted : FieldSetter s_quoted := ltac:(field_setter).
#[export] Instance set_backslash : FieldSetter s_backslash := ltac:(field_setter).
#[export] Instance set_no_sync : FieldSetter s_no_sync_literal := ltac:(field_setter).
#[export] Instance set_tag : FieldSetter s_tag := ltac:(field_setter).
#[export] Instance set_command : FieldSetter s_command := ltac:(field_setter).
#[export] Instance set_args : FieldSetter s_args := ltac:(field_setter).
#[export] Instance set_s_state : FieldSetter s_state := ltac:(field_setter).
#[export] Instance set_cmd_start : FieldSetter s_cmd_start := ltac:(field_setter).
#[export] Instance set_arg_start : FieldSetter s_arg_start := ltac:(field_setter).
#[export] Instance set_arg_end : FieldSetter s_arg_end := ltac:(field_setter).
#[export] Instance set_literal_len : FieldSetter s_literal_len := ltac:(field_setter).

(** The variables of the loop: [state], the session, and [s->buffer->pos] where the
    loop has assigned it. *)
Record mvars := mk_mvars {
  mv_state : mail_state;
  mv_s : ngx_mail_session_t;
  mv_pos : option Z;
}.
#[export] Instance eta_mvars : EtaRecord mvars := fun v => mk_mvars (mv_state v) (mv_s v) (mv_pos v).
#[export] Instance set_mv_state : FieldSetter mv_state := ltac:(field_setter).
#[export] Instance set_mv_s : FieldSetter mv_s := ltac:(field_setter).
#[export] Instance set_mv_pos : FieldSetter mv_pos := ltac:(field_setter).

Definition DQUOTE : Z := 34.
Definition NGX_MAIL_PARSE_INVALID_COMMAND : Z := 20.
Definition NGX_POP3_USER : Z := 1.
Definition NGX_POP3_PASS : Z := 2.
Definition NGX_POP3_CAPA : Z := 3.
Definition NGX_POP3_QUIT : Z := 4.
Definition NGX_POP3_NOOP : Z := 5.
Definition NGX_POP3_STLS : Z := 6.
Definition NGX_POP3_APOP : Z := 7.
Definition NGX_POP3_AUTH : Z := 8.
Definition NGX_IMAP_LOGIN : Z := 1.
Definition NGX_IMAP_LOGOUT : Z := 2.
Definition NGX_IMAP_CAPABILITY : Z := 3.
Definition NGX_IMAP_NOOP : Z := 4.
Definition NGX_IMAP_STARTTLS : Z := 5.
Definition NGX_IMAP_NEXT : Z := 6.
Definition NGX_IMAP_AUTHENTICATE : Z := 7.
Definition NGX_SMTP_HELO : Z := 1.
Definition NGX_SMTP_EHLO : Z := 2.
Definition NGX_SMTP_AUTH : Z := 3.
Definition NGX_SMTP_QUIT : Z := 4.
Definition NGX_SMTP_NOOP : Z := 5.
Definition NGX_SMTP_MAIL : Z := 6.
Definition NGX_SMTP_RSET : Z := 7.
Definition NGX_SMTP_RCPT : Z := 8.
Definition NGX_SMTP_VRFY : Z := 10.
Definition NGX_SMTP_EXPN : Z := 11.
Definition NGX_SMTP_HELP : Z := 12.
Definition NGX_SMTP_STARTTLS : Z := 13.

Section steps.
Context (push : nat -> bool) (ssl : bool).

Abbreviation step := (option (step_result mvars)).

(** [goto invalid] *)
Definition invalid (v : mvars) : step := Some (Return NGX_MAIL_PARSE_INVALID_COMMAND v).
Definition to_state (st : mail_state) (v : mvars) : step := Some (Continue (v <| mv_state := st |>)).
Definition on_session (f : ngx_mail_session_t -> ngx_mail_session_t) (v : mvars) : mvars := v <| mv_s := f (mv_s v) |>.

(** [arg = ngx_array_push(&s->args); arg->len = end - s->arg_start; ...] and what
    follows when it succeeds. *)
Definition push_arg (until : Z) (v : mvars) (k : mvars -> step) : step :=
  if push (length (s_args (mv_s v))) then
    match s_arg_start (mv_s v) with
    | Some a => k (on_session (fun s => s <| s_args := s_args s ++ [(a, until - a)] |> <| s_arg_start := None |>) v)
    | None => None
    end
  else Some (Return NGX_ERROR v).

(** The [switch (ch)] after a word. *)
Definition after_word (ch : Z) (v : mvars) : step :=
  if ch =? CR then to_state sw_almost_done v
  else if ch =? LF then Some (Goto_done v)
  else to_state sw_spaces_before_argument v.

Definition is_letter (ch : Z) : bool := (("A"%cc <=? ch) && (ch <=? "Z"%cc)) || (("a"%cc <=? ch) && (ch <=? "z"%cc)).

(** [(c[0] == 'L' || c[0] == 'l') && ...] *)
Fixpoint either_case (word : list Z) (upper : list Z) : bool :=
  match word, upper with
  | [], [] => true
  | c :: word', u :: upper' => ((c =? u) || (c =? ngx_tolower u)) && either_case word' upper'
  | _, _ => false
  end.

Definition case_almost_done (ch : Z) (v : mvars) : step :=
  if ch =? LF then Some (Goto_done v) else invalid v.

(** The state before an argument; [most] is the number of arguments after which no
    more are taken. *)
Definition case_spaces_before_argument (most : nat) (p ch : Z) (v : mvars) : step :=
  if ch =? " "%cc then Some (Continue v)
  else if ch =? CR then to_state sw_almost_done (on_session (fun s => s <| s_arg_end := Some p |>) v)
  else if ch =? LF then Some (Goto_done (on_session (fun s => s <| s_arg_end := Some p |>) v))
  else if (length (s_args (mv_s v)) <=? most)%nat
  then to_state sw_argument (on_session (fun s => s <| s_arg_start := Some p |>) v)
  else invalid v.

(** ** POP3 *)

Definition pop3_word (w : list Z) : option Z :=
  let c := ngx_toupper <$> w in
  if bool_decide (c = cstr "USER") then Some NGX_POP3_USER
  else if bool_decide (c = cstr "PASS") then Some NGX_POP3_PASS
  else if bool_decide (c = cstr "APOP") then Some NGX_POP3_APOP
  else if bool_decide (c = cstr "QUIT") then Some NGX_POP3_QUIT
  else if bool_decide (c = cstr "CAPA") then Some NGX_POP3_CAPA
  else if bool_decide (c = cstr "AUTH") then Some NGX_POP3_AUTH
  else if bool_decide (c = cstr "NOOP") then Some NGX_POP3_NOOP
  else if ssl && bool_decide (c = cstr "STLS") then Some NGX_POP3_STLS
  else None.

Definition pop3_start (mem : list Z) (p ch : Z) (v : mvars) : step :=
  if (ch =? " "%cc) || (ch =? CR) || (ch =? LF) then
    if p - 0 =? 4 then
      match slice mem 0 p with
      | None => None
      | Some w =>
          match pop3_word w with
          | Some cmd => after_word ch (on_session (fun s => s <| s_command := cmd |>) v)
          | None => invalid v
          end
      end
    else invalid v
  else if is_letter ch then Some (Continue v) else invalid v.

Definition pop3_argument (p ch : Z) (v : mvars) : step :=
  if ((ch =? " "%cc) && negb ((s_command (mv_s v) =? NGX_POP3_USER) || (s_command (mv_s v) =? NGX_POP3_PASS)))
     || (ch =? CR) || (ch =? LF)
  then push_arg p v (after_word ch)
  else Some (Continue v).

Definition pop3_step (mem : list Z) (p ch : Z) (v : mvars) : step :=
  match mv_state v with
  | sw_start => pop3_start mem p ch v
  | sw_spaces_before_argument => case_spaces_before_argument 2 p ch v
  | sw_argument => pop3_argument p ch v
  | sw_almost_done => case_almost_done ch v
  | _ => None
  end.

(** ** SMTP *)

Definition smtp_word4 (w : list Z) : option Z :=
  let c := ngx_toupper <$> w in
  if bool_decide (c = cstr "HELO") then Some NGX_SMTP_HELO
  else if bool_decide (c = cstr "EHLO") then Some NGX_SMTP_EHLO
  else if bool_decide (c = cstr "QUIT") then Some NGX_SMTP_QUIT
  else if bool_decide (c = cstr "AUTH") then Some NGX_SMTP_AUTH
  else if bool_decide (c = cstr "NOOP") then Some NGX_SMTP_NOOP
  else if bool_decide (c = cstr "MAIL") then Some NGX_SMTP_MAIL
  else if bool_decide (c = cstr "RSET") then Some NGX_SMTP_RSET
  else if bool_decide (c = cstr "RCPT") then Some NGX_SMTP_RCPT
  else if bool_decide (c = cstr "VRFY") then Some NGX_SMTP_VRFY
  else if bool_decide (c = cstr "EXPN") then Some NGX_SMTP_EXPN
  else if bool_decide (c = cstr "HELP") then Some NGX_SMTP_HELP
  else None.

Definition smtp_word (w : list Z) : option Z :=
  if (length w =? 4)%nat then smtp_word4 w
  else if ssl && (length w =? 8)%nat then if either_case w (cstr "STARTTLS") then Some NGX_SMTP_STARTTLS else None
  else None.

Definition smtp_start (mem : list Z) (p ch : Z) (v : mvars) : step :=
  if (ch =? " "%cc) || (ch =? CR) || (ch =? LF) then
    match slice mem 0 p with
    | None => None
    | Some w =>
        match smtp_word w with
        | Some cmd => after_word ch (on_session (fun s => s <| s_command := cmd |>) v)
        | None => invalid v
        end
    end
  else if is_letter ch then Some (Continue v) else invalid v.

Definition smtp_argument (p ch : Z) (v : mvars) : step :=
  if (ch =? " "%cc) || (ch =? CR) || (ch =? LF) then push_arg p v (after_word ch) else Some (Continue v).

Definition smtp_step (mem : list Z) (p ch : Z) (v : mvars) : step :=
  match mv_state v with
  | sw_start => smtp_start mem p ch v
  | sw_spaces_before_argument => case_spaces_before_argument 10 p ch v
  | sw_argument => smtp_argument p ch v
  | sw_almost_done => case_almost_done ch v
  | _ => None
  end.

(** ** IMAP *)

(** [goto invalid]: the flags are reset here, [s->state] where the loop ends. *)
Definition imap_invalid (v : mvars) : step :=
  invalid (on_session (fun s => s <| s_quoted := false |> <| s_no_sync_literal := false |> <| s_literal_len := 0 |>) v).

Definition imap_start (p ch : Z) (v : mvars) : step :=
  if ch =? " "%cc then to_state sw_spaces_before_command (on_session (fun s => s <| s_tag := Some (0, p - 0 + 1) |>) v)
  else if (ch =? CR) || (ch =? LF) then invalid v
  else Some (Continue v).

Definition imap_spaces_before_command (p ch : Z) (v : mvars) : step :=
  if ch =? " "%cc then Some (Continue v)
  else if (ch =? CR) || (ch =? LF) then invalid v
  else to_state sw_command (on_session (fun s => s <| s_cmd_start := Some p |>) v).

Definition imap_word (w : list Z) : option Z :=
  if (length w =? 4)%nat then if either_case w (cstr "NOOP") then Some NGX_IMAP_NOOP else None
  else if (length w =? 5)%nat then if either_case w (cstr "LOGIN") then Some NGX_IMAP_LOGIN else None
  else if (length w =? 6)%nat then if either_case w (cstr "LOGOUT") then Some NGX_IMAP_LOGOUT else None
  else if ssl && (length w =? 8)%nat then if either_case w (cstr "STARTTLS") then Some NGX_IMAP_STARTTLS else None
  else if (length w =? 10)%nat then if either_case w (cstr "CAPABILITY") then Some NGX_IMAP_CAPABILITY else None
  else if (length w =? 12)%nat then if either_case w (cstr "AUTHENTICATE") then Some NGX_IMAP_AUTHENTICATE else None
  else None.

Definition imap_command (mem : list Z) (p ch : Z) (v : mvars) : step :=
  if (ch =? " "%cc) || (ch =? CR) || (ch =? LF) then
    match s_cmd_start (mv_s v) with
    | None => None
    | Some c =>
        match slice mem c p with
        | None => None
        | Some w =>
            match imap_word w with
            | Some cmd => after_word ch (on_session (fun s => s <| s_command := cmd |>) v)
            | None => imap_invalid v
            end
        end
    end
  else if is_letter ch then Some (Continue v) else imap_invalid v.

Definition imap_spaces_before_argument (p ch : Z) (v : mvars) : step :=
  if ch =? " "%cc then Some (Continue v)
  else if ch =? CR then to_state sw_almost_done (on_session (fun s => s <| s_arg_end := Some p |>) v)
  else if ch =? LF then Some (Goto_done (on_session (fun s => s <| s_arg_end := Some p |>) v))
  else if (length (s_args (mv_s v)) <=? 2)%nat then
    if ch =? DQUOTE then to_state sw_argument (on_session (fun s => s <| s_quoted := true |> <| s_arg_start := Some (p + 1) |>) v)
    else if ch =? "{"%cc then to_state sw_literal v
    else to_state sw_argument (on_session (fun s => s <| s_arg_start := Some p |>) v)
  else imap_invalid v.

Definition imap_argument (p ch : Z) (v : mvars) : step :=
  if (ch =? " "%cc) && s_quoted (mv_s v) then Some (Continue v)
  else if (ch =? DQUOTE) && s_quoted (mv_s v) then
    push_arg p (on_session (fun s => s <| s_quoted := false |>) v) (to_state sw_spaces_before_argument)
  else if (ch =? " "%cc) || (ch =? CR) || (ch =? LF) then push_arg p v (after_word ch)
  else if (ch =? "\"%cc) && s_quoted (mv_s v) then to_state sw_backslash (on_session (fun s => s <| s_backslash := true |>) v)
  else Some (Continue v).

Definition imap_backslash (ch : Z) (v : mvars) : step :=
  if (ch =? CR) || (ch =? LF) then imap_invalid v else to_state sw_argument v.

Definition imap_literal (ch : Z) (v : mvars) : step :=
  if ("0"%cc <=? ch) && (ch <=? "9"%cc) then
    Some (Continue (on_session (fun s => s <| s_literal_len := u64 (s_literal_len s * 10 + (ch - "0"%cc)) |>) v))
  else if ch =? "}"%cc then to_state sw_start_literal_argument v
  else if ch =? "+"%cc then to_state sw_no_sync_literal_argument v
  else imap_invalid v.

Definition imap_no_sync_literal_argument (ch : Z) (v : mvars) : step :=
  if ch =? "}"%cc then to_state sw_start_literal_argument (on_session (fun s => s <| s_no_sync_literal := true |>) v)
  else imap_invalid v.

Definition imap_start_literal_argument (p ch : Z) (v : mvars) : step :=
  if ch =? CR then Some (Continue v)
  else if ch =? LF then
    let v := (on_session (fun s => s <| s_arg_start := Some (p + 1) |>) v) <| mv_pos := Some (p + 1) |> in
    if negb (s_no_sync_literal (mv_s v)) then Some (Return NGX_IMAP_NEXT v)
    else to_state sw_literal_argument (on_session (fun s => s <| s_no_sync_literal := false |>) v)
  else imap_invalid v.

Definition imap_literal_argument (p : Z) (v : mvars) : step :=
  if 1 <? s_literal_len (mv_s v) then
    Some (Continue (on_session (fun s => s <| s_literal_len := s_literal_len s - 1 |>) v))
  else
    push_arg (p + 1) (on_session (fun s => s <| s_literal_len := if s_literal_len s =? 0 then 0 else s_literal_len s - 1 |>) v)
      (to_state sw_end_literal_argument).

Definition imap_end_literal_argument (ch : Z) (v : mvars) : step :=
  if ch =? "{"%cc then if (length (s_args (mv_s v)) <=? 2)%nat then to_state sw_literal v else imap_invalid v
  else if ch =? CR then to_state sw_almost_done v
  else if ch =? LF then Some (Goto_done v)
  else to_state sw_spaces_before_argument v.

Definition imap_step (mem : list Z) (p ch : Z) (v : mvars) : step :=
  match mv_state v with
  | sw_start => imap_start p ch v
  | sw_spaces_before_command => imap_spaces_before_command p ch v
  | sw_command => imap_command mem p ch v
  | sw_spaces_before_argument => imap_spaces_before_argument p ch v
  | sw_argument => imap_argument p ch v
  | sw_backslash => imap_backslash ch v
  | sw_literal => imap_literal ch v
  | sw_no_sync_literal_argument => imap_no_sync_literal_argument ch v
  | sw_start_literal_argument => imap_start_literal_argument p ch v
  | sw_literal_argument => imap_literal_argument p v
  | sw_end_literal_argument => imap_end_literal_argument ch v
  | sw_almost_done => if ch =? LF then Some (Goto_done v) else imap_invalid v
  end.

(** * The parsers *)

(** What is at [done:]; [auth] is the command after which the next line is an
    argument, [reset] what IMAP clears with the argument. *)
Definition mail_done (auth : Z) (reset : ngx_mail_session_t -> ngx_mail_session_t) (v : mvars) : option (Z * ngx_mail_session_t) :=
  let finish s := Some (NGX_OK, s <| s_state := if s_command s =? auth then sw_argument else sw_start |>) in
  match s_arg_start (mv_s v) with
  | None => finish (mv_s v)
  | Some a =>
      if push (length (s_args (mv_s v))) then
        match s_arg_end (mv_s v) with
        | None => None
        | Some e => finish (reset ((mv_s v) <| s_args := s_args (mv_s v) ++ [(a, e - a)] |> <| s_arg_start := None |>))
        end
      else Some (NGX_ERROR, mv_s v)
  end.

Definition imap_reset (s : ngx_mail_session_t) : ngx_mail_session_t :=
  s <| s_cmd_start := None |> <| s_quoted := false |> <| s_no_sync_literal := false |> <| s_literal_len := 0 |>.

(** The end of a parser: the result, the session and [s->buffer->pos], [None] when it
    is not assigned. *)
Definition mail_return (auth : Z) (reset clear : ngx_mail_session_t -> ngx_mail_session_t) (r : Z * step_result mvars)
  : option (Z * ngx_mail_session_t * option Z) :=
  let '(p, res) := r in
  match res with
  | Continue v => Some (NGX_AGAIN, (mv_s v) <| s_state := mv_state v |>, Some p)
  | Goto_done v | Goto_header_done v =>
      match mail_done auth reset v with Some (rc, s) => Some (rc, s, Some (p + 1)) | None => None end
  | Return rc v =>
      let s := mv_s v in
      Some (rc, if rc =? NGX_MAIL_PARSE_INVALID_COMMAND then clear (s <| s_state := sw_start |>)
                else if rc =? NGX_IMAP_NEXT then s <| s_state := sw_literal_argument |> else s, mv_pos v)
  end.

Section parser.
Context (parser : LineParser mvars) (auth : Z) (reset clear : ngx_mail_session_t -> ngx_mail_session_t).

Definition mail_parse (mem : list Z) (pos : Z) (s : ngx_mail_session_t) : option (Z * ngx_mail_session_t * option Z) :=
  match slice mem pos (Z.of_nat (length mem)) with
  | None => None
  | Some bytes =>
      match line_loop mem pos bytes (mk_mvars (s_state s) s None) with
      | None => None
      | Some r => mail_return auth reset clear r
      end
  end.
End parser.
End steps.

(** ** The steps read nothing after the byte they are at *)

Ltac unfold_steps :=
  unfold pop3_step, smtp_step, imap_step, pop3_start, smtp_start, imap_start, imap_command, pop3_argument, smtp_argument,
    case_spaces_before_argument, case_almost_done.

#[export] Program Instance pop3_parser push ssl : LineParser mvars := {| line_step := pop3_step push ssl |}.
Next Obligation.
  intros. unfold_steps. destruct (mv_state s); try done. by rewrite slice_app by lia.
Qed.

#[export] Program Instance smtp_parser push ssl : LineParser mvars := {| line_step := smtp_step push ssl |}.
Next Obligation.
  intros. unfold_steps. destruct (mv_state s); try done. by rewrite slice_app by lia.
Qed.

#[export] Program Instance imap_parser push ssl : LineParser mvars := {| line_step := imap_step push ssl |}.
Next Obligation.
  intros. unfold_steps. destruct (mv_state s); try done. destruct (s_cmd_start (mv_s s)); [|done]. by rewrite slice_app by lia.
Qed.

Definition ngx_mail_pop3_parse_command push ssl := mail_parse push (pop3_parser push ssl) NGX_POP3_AUTH id (fun s => s <| s_arg_start := None |>).
Definition ngx_mail_smtp_parse_command push ssl := mail_parse push (smtp_parser push ssl) NGX_SMTP_AUTH id (fun s => s <| s_arg_start := None |>).
Definition ngx_mail_imap_parse_command push ssl := mail_parse push (imap_parser push ssl) NGX_IMAP_AUTHENTICATE imap_reset id.

(** * The parsers as instances of one interface *)

(** [ngx_mail_protocol_t.parse_command]: what the three parsers have in common.  A
    turn neither reads nor writes [s->state] and does not read [s->buffer->pos]. *)
Definition resumed (st : mail_state) (c : option Z) (v : mvars) : mvars :=
  v <| mv_s := (mv_s v) <| s_state := st |> |> <| mv_pos := match mv_pos v with Some q => Some q | None => c end |>.

Definition step_code (p rc : Z) (v : mvars) : Prop :=
  rc = NGX_MAIL_PARSE_INVALID_COMMAND \/ rc = NGX_ERROR \/ (rc = NGX_IMAP_NEXT /\ mv_pos v = Some (p + 1)).

Definition ignores_state (f : ngx_mail_session_t -> ngx_mail_session_t) : Prop :=
  forall st s, f (s <| s_state := st |>) = (f s) <| s_state := st |>.

Class MailProtocol (push : nat -> bool) := {
  mp_parser :: LineParser mvars;
  mp_auth : Z;
  mp_reset : ngx_mail_session_t -> ngx_mail_session_t;
  mp_clear : ngx_mail_session_t -> ngx_mail_session_t;
  mp_resumed st c mem p ch v :
    line_step mem p ch (resumed st c v) = step_map (resumed st c) <$> line_step mem p ch v;
  mp_code mem p ch v rc v' : line_step mem p ch v = Some (Return rc v') -> step_code p rc v';
  mp_reset_state : ignores_state mp_reset;
  mp_clear_state : ignores_state mp_clear;
}.

Ltac cases_of v :=
  destruct v as [vst [q b nsl tag cmd args sst cs as_ ae ll] pos]; cbn.

Ltac all_steps :=
  unfold pop3_step, smtp_step, imap_step, pop3_start, smtp_start, imap_start, imap_command, pop3_argument, smtp_argument,
    case_spaces_before_argument, case_almost_done, imap_spaces_before_command, imap_spaces_before_argument, imap_argument,
    imap_backslash, imap_literal, imap_no_sync_literal_argument, imap_start_literal_argument, imap_literal_argument,
    imap_end_literal_argument, push_arg, after_word, imap_invalid, invalid, to_state, on_session.

Section protocols.
Context (push : nat -> bool) (ssl : bool).

Lemma pop3_resumed st c mem p ch v :
  pop3_step push ssl mem p ch (resumed st c v) = step_map (resumed st c) <$> pop3_step push ssl mem p ch v.
Proof. cases_of v. all_steps. destruct vst; cbn; repeat case_match; done. Qed.

Lemma smtp_resumed st c mem p ch v :
  smtp_step push ssl mem p ch (resumed st c v) = step_map (resumed st c) <$> smtp_step push ssl mem p ch v.
Proof. cases_of v. all_steps. destruct vst; cbn; repeat case_match; done. Qed.

Lemma imap_resumed st c mem p ch v :
  imap_step push ssl mem p ch (resumed st c v) = step_map (resumed st c) <$> imap_step push ssl mem p ch v.
Proof. cases_of v. all_steps. destruct vst; cbn; repeat case_match; done. Qed.

Lemma pop3_code mem p ch v rc v' : pop3_step push ssl mem p ch v = Some (Return rc v') -> step_code p rc v'.
Proof. unfold step_code. all_steps. destruct (mv_state v); intros E; repeat case_match; simplify_eq; auto. Qed.

Lemma smtp_code mem p ch v rc v' : smtp_step push ssl mem p ch v = Some (Return rc v') -> step_code p rc v'.
Proof. unfold step_code. all_steps. destruct (mv_state v); intros E; repeat case_match; simplify_eq; auto. Qed.

Lemma imap_code mem p ch v rc v' : imap_step push ssl mem p ch v = Some (Return rc v') -> step_code p rc v'.
Proof. unfold step_code. all_steps. destruct (mv_state v); intros E; repeat case_match; simplify_eq; auto. Qed.
End protocols.

#[export] Program Instance pop3_protocol push ssl : MailProtocol push := {|
  mp_parser := pop3_parser push ssl; mp_auth := NGX_POP3_AUTH; mp_reset := id; mp_clear := (fun s => s <| s_arg_start := None |>) |}.
Next Obligation. intros. apply pop3_resumed. Qed.
Next Obligation. intros push ssl mem p ch v rc v'. apply pop3_code. Qed.
Next Obligation. by intros ??? []. Qed.
Next Obligation. by intros ??? []. Qed.

#[export] Program Instance smtp_protocol push ssl : MailProtocol push := {|
  mp_parser := smtp_parser push ssl; mp_auth := NGX_SMTP_AUTH; mp_reset := id; mp_clear := (fun s => s <| s_arg_start := None |>) |}.
Next Obligation. intros. apply smtp_resumed. Qed.
Next Obligation. intros push ssl mem p ch v rc v'. apply smtp_code. Qed.
Next Obligation. by intros ??? []. Qed.
Next Obligation. by intros ??? []. Qed.

#[export] Program Instance imap_protocol push ssl : MailProtocol push := {|
  mp_parser := imap_parser push ssl; mp_auth := NGX_IMAP_AUTHENTICATE; mp_reset := imap_reset; mp_clear := id |}.
Next Obligation. intros. apply imap_resumed. Qed.
Next Obligation. intros push ssl mem p ch v rc v'. apply imap_code. Qed.
Next Obligation. by intros ??? []. Qed.
Next Obligation. by intros ??? []. Qed.

(** * Resuming *)

Definition mail_outcome (x : option (Z * ngx_mail_session_t * option Z)) : option (Z * ngx_mail_session_t * option Z) :=
  '(rc, s, pos) ← x;
  if rc =? NGX_MAIL_PARSE_INVALID_COMMAND then Some (rc, s, None)
  else if rc =? NGX_ERROR then Some (rc, s <| s_state := sw_start |>, None)
  else Some (rc, s, pos).

Section resume.
Context (push : nat -> bool) `{MailProtocol push}.

Definition protocol_parse : list Z -> Z -> ngx_mail_session_t -> option (Z * ngx_mail_session_t * option Z) :=
  mail_parse push mp_parser mp_auth mp_reset mp_clear.

Lemma mail_loop_code mem p l v q rc v' :
  line_loop mem p l v = Some (q, Return rc v') -> step_code q rc v'.
Proof.
  revert p v. induction l as [|ch l IH]; intros p v; cbn [line_loop]; [done|].
  destruct (line_step mem p ch v) as [[]|] eqn:E; try done; [apply IH|].
  intros [= -> -> ->]. by eapply mp_code.
Qed.

Lemma mail_done_resumed st c v pos :
  mail_outcome (match mail_done push mp_auth mp_reset (resumed st c v) with Some (rc, s) => Some (rc, s, pos) | None => None end) =
  mail_outcome (match mail_done push mp_auth mp_reset v with Some (rc, s) => Some (rc, s, pos) | None => None end).
Proof.
  unfold mail_done, resumed. cbn.
  destruct (s_arg_start (mv_s v)) as [a|]; cbn; [|by destruct (mv_s v)].
  destruct (push _); cbn; [|by destruct (mv_s v)].
  destruct (s_arg_end (mv_s v)) as [e|]; cbn; [|done].
  set (s' := (mv_s v) <| s_args := _ |> <| s_arg_start := None |>).
  change (mp_reset _) with (mp_reset (s' <| s_state := st |>)) at 1 2.
  rewrite mp_reset_state. by destruct (mp_reset s').
Qed.
End resume.

Section resume_theorem.
Context (push : nat -> bool) `{MailProtocol push}.

(** A result that is reached from [resumed] loop variables is the result reached from
    the loop variables themselves. *)
Lemma mail_return_resumed st c q res :
  match res with Return rc v => step_code q rc v | _ => True end ->
  mail_outcome (mail_return push mp_auth mp_reset mp_clear (q, step_map (resumed st c) res)) =
  mail_outcome (mail_return push mp_auth mp_reset mp_clear (q, res)).
Proof.
  destruct res as [v|v|v|rc v]; cbn [step_map mail_return]; intros Hc.
  - done.
  - apply mail_done_resumed.
  - apply mail_done_resumed.
  - destruct Hc as [-> |[-> |[-> Hp]]]; cbn.
    + by destruct (mv_s v).
    + by destruct (mv_s v).
    + rewrite Hp. by destruct (mv_s v).
Qed.

Lemma mail_return_final q res x :
  match res with Continue _ => False | Return rc v => step_code q rc v | _ => True end ->
  mail_return push mp_auth mp_reset mp_clear (q, res) = Some x -> x.1.1 <> NGX_AGAIN.
Proof.
  destruct res as [v|v|v|rc v]; [done| | |].
  1,2: unfold mail_return, mail_done; intros _ E; repeat case_match; by simplify_eq.
  intros Hc. cbn. intros [= <-]. by destruct Hc as [-> |[-> |[-> _]]].
Qed.

Lemma protocol_parse_resumes mem1 mem2 pos s rc s1 pos1 :
  protocol_parse push mem1 pos s = Some (rc, s1, pos1) ->
  mail_outcome (protocol_parse push (mem1 ++ mem2) pos s) =
  if decide (rc = NGX_AGAIN)
  then mail_outcome (protocol_parse push (mem1 ++ mem2) (default 0 pos1) s1)
  else mail_outcome (Some (rc, s1, pos1)).
Proof.
  unfold protocol_parse, mail_parse.
  destruct (slice mem1 pos _) as [l|] eqn:Hl; [|done].
  destruct (slice_grow _ mem2 _ _ Hl) as [Hw Hr]. rewrite Hw.
  pose proof (slice_bounds _ _ _ _ Hl) as (Hb & _ & Hlen).
  rewrite line_loop_chunks by lia.
  destruct (line_loop mem1 pos l _) as [[q res]|] eqn:E; [|done].
  destruct res as [v|v|v|rc' v].
  - cbn. intros [= <- <- <-]. apply line_loop_pos in E. replace q with (Z.of_nat (length mem1)) by lia.
    rewrite decide_True by done. cbn [default id]. rewrite Hr. cbn.
    set (w := mk_mvars (mv_state v) ((mv_s v) <| s_state := mv_state v |>) None).
    change (line_loop (mem1 ++ mem2) _ _ _) with (line_loop (mem1 ++ mem2) (Z.of_nat (length mem1)) mem2 w) at 2.
    replace v with (resumed (s_state (mv_s v)) (mv_pos v) w) at 1 by (by destruct v as [? [] ?]).
    rewrite (line_loop_map (resumed _ _)) by (intros; apply mp_resumed).
    destruct (line_loop _ _ _ w) as [[q2 res2]|] eqn:E2; [|done]. cbn [fmap option_fmap option_map].
    apply mail_return_resumed. destruct res2; try done. by eapply mail_loop_code.
  - intros E'. rewrite decide_False; [by rewrite E'|]. by eapply mail_return_final in E'.
  - intros E'. rewrite decide_False; [by rewrite E'|]. by eapply mail_return_final in E'.
  - intros E'. rewrite decide_False; [by rewrite E'|]. apply mail_loop_code in E. by eapply mail_return_final in E'.
Qed.
End resume_theorem.

(** * The invariant of a session *)

(** An argument lies in the bytes before [hi]. *)
Definition arg_in (hi : Z) (arg : Z * Z) : Prop := 0 <= arg.1 /\ 0 <= arg.2 /\ arg.1 + arg.2 <= hi.

Definition tag_in (hi : Z) (s : ngx_mail_session_t) : Prop :=
  match s_tag s with Some t => t.1 = 0 /\ arg_in hi t | None => True end.

(** [lim] has the number of arguments after which no more are taken and whether
    commands have tags. *)
Definition args_ok (lim : nat * bool) (hi : Z) (s : ngx_mail_session_t) : Prop :=
  Forall (arg_in hi) (s_args s) /\ (length (s_args s) <= S lim.1)%nat /\ (lim.2 = true -> tag_in hi s).

Definition offset_in (hi : Z) (x : option Z) : Prop := exists a, x = Some a /\ 0 <= a <= hi.

(** What each state has recorded when the parser is at the byte [hi]. *)
Definition state_ok (lim : nat * bool) (hi : Z) (st : mail_state) (s : ngx_mail_session_t) : Prop :=
  match st with
  | sw_argument | sw_backslash | sw_literal_argument =>
      offset_in hi (s_arg_start s) /\ (length (s_args s) <= lim.1)%nat
  | sw_literal | sw_no_sync_literal_argument | sw_start_literal_argument =>
      s_arg_start s = None /\ (length (s_args s) <= lim.1)%nat
  | sw_command => s_arg_start s = None /\ offset_in hi (s_cmd_start s)
  | _ => s_arg_start s = None
  end.

Definition session_inv (states : mail_state -> bool) (lim : nat * bool) (hi : Z) (s : ngx_mail_session_t) : Prop :=
  0 <= hi /\ states (s_state s) = true /\ args_ok lim hi s /\ state_ok lim hi (s_state s) s.

Definition loop_inv (states : mail_state -> bool) (lim : nat * bool) (hi : Z) (v : mvars) : Prop :=
  0 <= hi /\ states (mv_state v) = true /\ args_ok lim hi (mv_s v) /\ state_ok lim hi (mv_state v) (mv_s v).

(** Where the loop stops at the byte [q]. *)
Definition loop_post (push : nat -> bool) (states : mail_state -> bool) (lim : nat * bool) (q : Z) (res : step_result mvars) : Prop :=
  match res with
  | Continue v => loop_inv states lim q v
  | Goto_done v => 0 <= q /\ args_ok lim (q + 1) (mv_s v) /\ s_arg_start (mv_s v) = None
  | Goto_header_done v => False
  | Return rc v =>
      (rc = NGX_MAIL_PARSE_INVALID_COMMAND /\ args_ok lim (q + 1) (mv_s v)) \/
      (rc = NGX_ERROR /\ push (length (s_args (mv_s v))) = false) \/
      (rc = NGX_IMAP_NEXT /\ states sw_literal_argument = true /\ mv_pos v = Some (q + 1) /\
       loop_inv states lim (q + 1) (v <| mv_state := sw_literal_argument |>))
  end.

Definition turn_ok (push : nat -> bool) (states : mail_state -> bool) (lim : nat * bool) (q : Z) (r : option (step_result mvars)) : Prop :=
  exists res, r = Some res /\
    match res with Continue v => loop_inv states lim (q + 1) v | _ => loop_post push states lim q res end.

Lemma args_ok_grow lim q s : args_ok lim q s -> args_ok lim (q + 1) s.
Proof.
  intros (Ha & Hl & Ht). split_and!; [|done|].
  - eapply Forall_impl; [exact Ha|]. unfold arg_in. intros [] ?; cbn in *; lia.
  - intros Hb. specialize (Ht Hb). unfold tag_in, arg_in in *. destruct (s_tag s) as [[]|]; [|done]. cbn in *. lia.
Qed.

Lemma offset_in_grow q x : offset_in q x -> offset_in (q + 1) x.
Proof. intros (a & -> & ?). exists a. split; [done|lia]. Qed.

Lemma state_ok_grow lim q st s : state_ok lim q st s -> state_ok lim (q + 1) st s.
Proof. destruct st; cbn; try done; intros []; split; auto using offset_in_grow. Qed.

Section turns.
Context (push : nat -> bool) (states : mail_state -> bool) (lim : nat * bool).

Lemma turn_continue q v : loop_inv states lim q v -> turn_ok push states lim q (Some (Continue v)).
Proof.
  intros (? & ? & ? & ?). eexists. split; [done|]. split_and!; auto using args_ok_grow, state_ok_grow; lia.
Qed.

Lemma turn_to_state q st v :
  0 <= q -> states st = true -> args_ok lim (q + 1) (mv_s v) -> state_ok lim (q + 1) st (mv_s v) ->
  turn_ok push states lim q (to_state st v).
Proof. intros. eexists. split; [done|]. split_and!; [lia|done..]. Qed.

Lemma turn_done q v :
  0 <= q -> args_ok lim (q + 1) (mv_s v) -> s_arg_start (mv_s v) = None -> turn_ok push states lim q (Some (Goto_done v)).
Proof. intros. by eexists. Qed.

Lemma turn_invalid q v : args_ok lim (q + 1) (mv_s v) -> turn_ok push states lim q (invalid v).
Proof. intros. eexists. split; [done|]. by left. Qed.

Lemma turn_imap_invalid q v : args_ok lim (q + 1) (mv_s v) -> turn_ok push states lim q (imap_invalid v).
Proof. intros. by apply turn_invalid. Qed.

Lemma turn_after_word q ch v :
  0 <= q -> states sw_almost_done = true -> states sw_spaces_before_argument = true ->
  args_ok lim (q + 1) (mv_s v) -> s_arg_start (mv_s v) = None -> turn_ok push states lim q (after_word ch v).
Proof.
  intros. unfold after_word. repeat case_match; [by apply turn_to_state|by apply turn_done|by apply turn_to_state].
Qed.

Lemma turn_push until q v (k : mvars -> option (step_result mvars)) :
  0 <= q -> args_ok lim (q + 1) (mv_s v) -> offset_in until (s_arg_start (mv_s v)) -> until <= q + 1 ->
  (length (s_args (mv_s v)) <= lim.1)%nat ->
  (forall v', args_ok lim (q + 1) (mv_s v') -> s_arg_start (mv_s v') = None ->
     turn_ok push states lim q (k v')) ->
  turn_ok push states lim q (push_arg push until v k).
Proof.
  intros Hq Hargs (a & Ha & Ha') Hu Hlen Hk. unfold push_arg. destruct (push _) eqn:Hp; [|eexists; split; [done|]; right; by left].
  rewrite Ha. apply Hk; [|done]. destruct Hargs as (HF & _ & Ht). split_and!; cbn.
  - apply Forall_app. split; [done|]. apply Forall_singleton. unfold arg_in. cbn. lia.
  - rewrite length_app. cbn. lia.
  - done.
Qed.

Lemma turn_almost_done q ch v :
  0 <= q -> args_ok lim (q + 1) (mv_s v) -> s_arg_start (mv_s v) = None -> turn_ok push states lim q (case_almost_done ch v).
Proof. intros. unfold case_almost_done. case_match; [by apply turn_done|by apply turn_invalid]. Qed.

Lemma turn_before_argument q ch v :
  loop_inv states lim q v -> mv_state v = sw_spaces_before_argument ->
  states sw_almost_done = true -> states sw_argument = true ->
  turn_ok push states lim q (case_spaces_before_argument lim.1 q ch v).
Proof.
  intros Hi Hst ??. pose proof Hi as (? & ? & Ha%args_ok_grow & Hs). rewrite Hst in Hs.
  unfold case_spaces_before_argument. repeat case_match.
  - by apply turn_continue.
  - by apply turn_to_state.
  - by apply turn_done.
  - apply turn_to_state; [done..|]. cbn. split; [|by apply Nat.leb_le]. exists q. split; [done|lia].
  - by apply turn_invalid.
Qed.

End turns.

Definition short_states (st : mail_state) : bool :=
  match st with sw_start | sw_spaces_before_argument | sw_argument | sw_almost_done => true | _ => false end.

Section turns_of_protocols.
Context (push : nat -> bool) (ssl : bool).

(** The bytes before the one that is read can be looked back at. *)
Lemma slice_back_defined mem a q ch : rd mem q = Some ch -> 0 <= a <= q -> exists w, slice mem a q = Some w.
Proof.
  unfold rd. case_match; [done|]. intros Hr%lookup_lt_Some Ha. eexists. apply slice_is_Some; lia.
Qed.

Lemma pop3_turn mem q ch v :
  loop_inv short_states (2%nat, false) q v -> rd mem q = Some ch -> turn_ok push short_states (2%nat, false) q (pop3_step push ssl mem q ch v).
Proof.
  intros Hi Hr. pose proof Hi as (Hq & Hst & Ha%args_ok_grow & Hs). unfold pop3_step.
  destruct (mv_state v) eqn:Ev; try done.
  - unfold pop3_start. destruct (slice_back_defined mem 0 q ch Hr) as [w ->]; [lia|].
    repeat case_match; eauto using turn_continue, turn_invalid. by apply turn_after_word.
  - by apply turn_before_argument.
  - unfold pop3_argument. case_match; [|by apply turn_continue]. destruct Hs as [Hs Hl].
    apply turn_push; [done..|lia|done|]. intros. by apply turn_after_word.
  - by apply turn_almost_done.
Qed.

Lemma smtp_turn mem q ch v :
  loop_inv short_states (10%nat, false) q v -> rd mem q = Some ch -> turn_ok push short_states (10%nat, false) q (smtp_step push ssl mem q ch v).
Proof.
  intros Hi Hr. pose proof Hi as (Hq & Hst & Ha%args_ok_grow & Hs). unfold smtp_step.
  destruct (mv_state v) eqn:Ev; try done.
  - unfold smtp_start. destruct (slice_back_defined mem 0 q ch Hr) as [w ->]; [lia|].
    repeat case_match; eauto using turn_continue, turn_invalid. by apply turn_after_word.
  - by apply turn_before_argument.
  - unfold smtp_argument. case_match; [|by apply turn_continue]. destruct Hs as [Hs Hl].
    apply turn_push; [done..|lia|done|]. intros. by apply turn_after_word.
  - by apply turn_almost_done.
Qed.

Lemma imap_before_argument_turn q ch v :
  loop_inv (fun _ => true) (2%nat, true) q v -> mv_state v = sw_spaces_before_argument ->
  turn_ok push (fun _ => true) (2%nat, true) q (imap_spaces_before_argument q ch v).
Proof.
  intros Hi Hst. pose proof Hi as (? & ? & Ha%args_ok_grow & Hs). rewrite Hst in Hs.
  unfold imap_spaces_before_argument.
  destruct (_ =? " "%cc); [by apply turn_continue|].
  destruct (_ =? CR); [by apply turn_to_state|].
  destruct (_ =? LF); [by apply turn_done|].
  destruct (length (s_args (mv_s v)) <=? 2)%nat eqn:Hl; [|by apply turn_imap_invalid]. apply Nat.leb_le in Hl.
  repeat case_match; apply turn_to_state; try done; cbn.
  - split; [|done]. exists (q + 1). split; [done|lia].
  - split; [|done]. exists q. split; [done|lia].
Qed.

Lemma imap_argument_turn q ch v :
  loop_inv (fun _ => true) (2%nat, true) q v -> mv_state v = sw_argument ->
  turn_ok push (fun _ => true) (2%nat, true) q (imap_argument push q ch v).
Proof.
  intros Hi Hst. pose proof Hi as (? & ? & Ha%args_ok_grow & Hs). rewrite Hst in Hs. destruct Hs as [Ho Hl].
  unfold imap_argument.
  destruct ((ch =? " "%cc) && _); [by apply turn_continue|].
  destruct ((ch =? DQUOTE) && _).
  { apply turn_push; [done..|lia|done|]. intros. by apply turn_to_state. }
  destruct ((ch =? " "%cc) || _ || _).
  { apply turn_push; [done..|lia|done|]. intros. by apply turn_after_word. }
  destruct ((ch =? "\"%cc) && _); [|by apply turn_continue].
  apply turn_to_state; [done..|]. cbn. auto using offset_in_grow.
Qed.

Lemma imap_start_literal_turn q ch v :
  loop_inv (fun _ => true) (2%nat, true) q v -> mv_state v = sw_start_literal_argument ->
  turn_ok push (fun _ => true) (2%nat, true) q (imap_start_literal_argument q ch v).
Proof.
  intros Hi Hst. pose proof Hi as (? & ? & Ha%args_ok_grow & Hs). rewrite Hst in Hs. destruct Hs as [_ Hl].
  assert (offset_in (q + 1) (Some (q + 1))) as Ho by (exists (q + 1); split; [done|lia]).
  unfold imap_start_literal_argument. repeat case_match; [by apply turn_continue| | |by apply turn_imap_invalid].
  - eexists. split; [done|]. right; right. do 3 (split; [done|]). split_and!; [lia|done..].
  - by apply turn_to_state.
Qed.

Lemma imap_turn mem q ch v :
  loop_inv (fun _ => true) (2%nat, true) q v -> rd mem q = Some ch -> turn_ok push (fun _ => true) (2%nat, true) q (imap_step push ssl mem q ch v).
Proof.
  intros Hi Hr. pose proof Hi as (Hq & Hst & Ha%args_ok_grow & Hs). unfold imap_step.
  destruct (mv_state v) eqn:Ev;
    [| | |by apply imap_before_argument_turn|by apply imap_argument_turn| | | |by apply imap_start_literal_turn| | |].
  - unfold imap_start. repeat case_match; eauto using turn_continue, turn_invalid.
    apply turn_to_state; try done. destruct Ha as (? & ? & ?). split_and!; [done..|]. intros _. unfold tag_in, arg_in. cbn. lia.
  - unfold imap_spaces_before_command. repeat case_match; eauto using turn_continue, turn_invalid.
    apply turn_to_state; [done..|]. split; [done|]. exists q. split; [done|lia].
  - unfold imap_command. destruct Hs as (Hn & c & -> & Hc). destruct (slice_back_defined mem c q ch Hr) as [w ->]; [lia|].
    repeat case_match; eauto using turn_continue, turn_imap_invalid. by apply turn_after_word.
  - unfold imap_backslash. case_match; [by apply turn_imap_invalid|]. apply turn_to_state; [done..|]. by apply state_ok_grow in Hs.
  - unfold imap_literal. repeat case_match; [by apply turn_continue|by apply turn_to_state..|by apply turn_imap_invalid].
  - unfold imap_no_sync_literal_argument. case_match; [by apply turn_to_state|by apply turn_imap_invalid].
  - unfold imap_literal_argument. destruct Hs as [Ho Hl]. case_match; [by apply turn_continue|].
    apply turn_push; [done|done|by apply offset_in_grow|lia|done|]. intros. by apply turn_to_state.
  - unfold imap_end_literal_argument. repeat case_match;
      [|by apply turn_imap_invalid|by apply turn_to_state|by apply turn_done|by apply turn_to_state].
    apply turn_to_state; [done..|]. split; [done|]. by apply Nat.leb_le.
  - case_match; [by apply turn_done|by apply turn_imap_invalid].
Qed.
End turns_of_protocols.

(** * The three protocols *)

Inductive mail_protocol := NGX_MAIL_POP3_PROTOCOL | NGX_MAIL_IMAP_PROTOCOL | NGX_MAIL_SMTP_PROTOCOL.

(** [cscf->protocol->parse_command] *)
Definition parse_command (pr : mail_protocol) (push : nat -> bool) (ssl : bool)
  : list Z -> Z -> ngx_mail_session_t -> option (Z * ngx_mail_session_t * option Z) :=
  match pr with
  | NGX_MAIL_POP3_PROTOCOL => ngx_mail_pop3_parse_command push ssl
  | NGX_MAIL_IMAP_PROTOCOL => ngx_mail_imap_parse_command push ssl
  | NGX_MAIL_SMTP_PROTOCOL => ngx_mail_smtp_parse_command push ssl
  end.

Definition states_of (pr : mail_protocol) : mail_state -> bool :=
  match pr with NGX_MAIL_IMAP_PROTOCOL => fun _ => true | _ => short_states end.
Definition limits (pr : mail_protocol) : nat * bool :=
  match pr with
  | NGX_MAIL_POP3_PROTOCOL => (2%nat, false)
  | NGX_MAIL_IMAP_PROTOCOL => (2%nat, true)
  | NGX_MAIL_SMTP_PROTOCOL => (10%nat, false)
  end.
Definition auth_command (pr : mail_protocol) : Z :=
  match pr with NGX_MAIL_POP3_PROTOCOL => NGX_POP3_AUTH | NGX_MAIL_IMAP_PROTOCOL => NGX_IMAP_AUTHENTICATE | NGX_MAIL_SMTP_PROTOCOL => NGX_SMTP_AUTH end.
Definition protocol_inv (pr : mail_protocol) : Z -> ngx_mail_session_t -> Prop := session_inv (states_of pr) (limits pr).

(** A session as [ngx_mail_init_connection] makes it, all zero. *)
Definition new_session : ngx_mail_session_t := mk_session false false false None 0 [] sw_start None None None 0.

(** What a parser promises for each result when it has parsed the bytes from [pos] to [last]. *)
Definition parse_post (pr : mail_protocol) (push : nat -> bool) (pos last : Z) (rc : Z) (s : ngx_mail_session_t) (pos' : option Z) : Prop :=
  (rc = NGX_AGAIN /\ pos' = Some last /\ protocol_inv pr last s) \/
  (rc = NGX_OK /\ (exists q, pos' = Some q /\ pos < q <= last /\ args_ok (limits pr) q s) /\ s_arg_start s = None /\
     s_state s = (if s_command s =? auth_command pr then sw_argument else sw_start)) \/
  (rc = NGX_IMAP_NEXT /\ pr = NGX_MAIL_IMAP_PROTOCOL /\ s_state s = sw_literal_argument /\
     exists q, pos' = Some q /\ pos < q <= last /\ protocol_inv pr q s) \/
  (rc = NGX_MAIL_PARSE_INVALID_COMMAND /\ s_state s = sw_start /\ args_ok (limits pr) last s /\
     (pr <> NGX_MAIL_IMAP_PROTOCOL -> s_arg_start s = None)) \/
  (rc = NGX_ERROR /\ push (length (s_args s)) = false).

Lemma args_ok_le lim q q' s : args_ok lim q s -> q <= q' -> args_ok lim q' s.
Proof.
  intros (Ha & Hl & Ht) Hq. split_and!; [|done|].
  - eapply Forall_impl; [exact Ha|]. unfold arg_in. intros [] ?; cbn in *; lia.
  - intros Hb. specialize (Ht Hb). unfold tag_in, arg_in in *. destruct (s_tag s) as [[]|]; [|done]. cbn in *. lia.
Qed.

Section safe.
Context (pr : mail_protocol) (push : nat -> bool) `{MailProtocol push}.
Hypothesis turn_safe : forall mem q ch v,
  loop_inv (states_of pr) (limits pr) q v -> rd mem q = Some ch ->
  turn_ok push (states_of pr) (limits pr) q (line_step mem q ch v).
Hypothesis auth_is : mp_auth = auth_command pr.
Hypothesis clear_args : forall lim q s, args_ok lim q s -> args_ok lim q (mp_clear s).
Hypothesis clear_arg : forall s, pr <> NGX_MAIL_IMAP_PROTOCOL -> s_arg_start (mp_clear s) = None.
Hypothesis next_imap : states_of pr sw_literal_argument = true -> pr = NGX_MAIL_IMAP_PROTOCOL.

Lemma protocol_parse_safe mem pos s :
  0 <= pos <= Z.of_nat (length mem) -> protocol_inv pr pos s ->
  exists rc s' pos', protocol_parse push mem pos s = Some (rc, s', pos') /\
    parse_post pr push pos (Z.of_nat (length mem)) rc s' pos'.
Proof.
  intros Hpos Hinv.
  destruct (line_loop_buffer (loop_inv (states_of pr) (limits pr)) (loop_post push (states_of pr) (limits pr))
    mem pos (mk_mvars (s_state s) s None)) as (l & p & res & Hl & E & Hpost & Hp); [done| |done..|].
  { intros q ch v Hi Hr. destruct (turn_safe mem q ch v Hi Hr) as (res & E & Hres). exists res. split; [done|]. by destruct res. }
  unfold protocol_parse, mail_parse. rewrite Hl, E. unfold parse_post.
  destruct res as [v|v|v|rc v]; cbn [mail_return]; cbn [loop_post] in Hpost.
  - subst p. eexists _, _, _. split; [done|]. left. split_and!; [done..|]. destruct Hpost as (? & ? & ? & ?). by split_and!.
  - destruct Hpost as (? & Ha & Hn). unfold mail_done. rewrite Hn. eexists _, _, _. split; [done|]. right; left.
    rewrite auth_is. split; [done|]. split; [|by split]. exists (p + 1). split; [done|]. split; [lia|exact Ha].
  - done.
  - destruct Hpost as [[-> Ha]|[[-> Hf]|(-> & Hst & Hmp & Hi)]]; cbn; eexists _, _, _; (split; [done|]).
    + right; right; right; left. rewrite mp_clear_state. split; [done|]. split; [done|]. split.
      * eapply args_ok_le in Ha; [|instantiate (1 := Z.of_nat (length mem)); lia].
        by apply (clear_args _ _ _ Ha).
      * intros Hne. apply (clear_arg _ Hne).
    + by do 4 right.
    + right; right; left. split; [done|]. split; [by apply next_imap|]. split; [done|]. exists (p + 1). rewrite Hmp.
      split; [done|]. split; [lia|]. destruct Hi as (? & ? & ? & ?). by split_and!.
Qed.
End safe.

Lemma parse_command_safe pr push ssl mem pos s :
  0 <= pos <= Z.of_nat (length mem) -> protocol_inv pr pos s ->
  exists rc s' pos', parse_command pr push ssl mem pos s = Some (rc, s', pos') /\
    parse_post pr push pos (Z.of_nat (length mem)) rc s' pos'.
Proof.
  destruct pr; intros Hpos Hinv.
  - eapply (protocol_parse_safe NGX_MAIL_POP3_PROTOCOL push (H := pop3_protocol push ssl)); try done. apply pop3_turn.
  - eapply (protocol_parse_safe NGX_MAIL_IMAP_PROTOCOL push (H := imap_protocol push ssl)); try done. apply imap_turn.
  - eapply (protocol_parse_safe NGX_MAIL_SMTP_PROTOCOL push (H := smtp_protocol push ssl)); try done. apply smtp_turn.
Qed.

(** * Reading commands *)

(** [ngx_mail_read_command] when [recv] returns the bytes [chunk], [size] being the
    size of [s->buffer]: the result, the session, [s->buffer->pos] and [s->quit]. *)
Definition ngx_mail_read_command (pr : mail_protocol) (push : nat -> bool) (ssl : bool) (size : Z) (chunk mem : list Z) (pos : Z)
    (s : ngx_mail_session_t) : option (Z * ngx_mail_session_t * Z * bool) :=
  let mem := mem ++ chunk in
  '(rc, s, pos') ← parse_command pr push ssl mem pos s;
  let pos := default pos pos' in
  if rc =? NGX_AGAIN then
    if Z.of_nat (length mem) <? size then Some (rc, s, pos, false) else Some (NGX_MAIL_PARSE_INVALID_COMMAND, s, pos, true)
  else Some (rc, s, pos, false).

(** What [ngx_mail_pop3_auth_state] and [ngx_mail_smtp_auth_state] do with the session
    once the command has been handled with the result [rc]; the buffer is emptied. *)
Definition next_command (rc : Z) (s : ngx_mail_session_t) : ngx_mail_session_t :=
  let s := if rc =? NGX_MAIL_PARSE_INVALID_COMMAND then s <| s_state := sw_start |> else s in
  let s := s <| s_args := [] |> in
  match s_state s with sw_start => s | _ => s <| s_arg_start := Some 0 |> end.

(** A connection between two reads: the bytes in the buffer, [pos] and the session.  A
    handler may answer [NGX_OK] or [NGX_MAIL_PARSE_INVALID_COMMAND] to a command, and may
    clear [s->state] ([clear]). *)
Inductive session_step (pr : mail_protocol) (push : nat -> bool) (ssl : bool) (size : Z)
  : list Z * Z * ngx_mail_session_t -> list Z * Z * ngx_mail_session_t -> Prop :=
| step_again chunk mem pos s s' pos' :
    0 < Z.of_nat (length chunk) <= size - Z.of_nat (length mem) ->
    ngx_mail_read_command pr push ssl size chunk mem pos s = Some (NGX_AGAIN, s', pos', false) ->
    session_step pr push ssl size (mem, pos, s) (mem ++ chunk, pos', s')
| step_command chunk mem pos s rc s' pos' rc' (clear : bool) :
    0 < Z.of_nat (length chunk) <= size - Z.of_nat (length mem) ->
    ngx_mail_read_command pr push ssl size chunk mem pos s = Some (rc, s', pos', false) ->
    rc = NGX_OK /\ rc' = NGX_OK \/ (rc = NGX_OK \/ rc = NGX_MAIL_PARSE_INVALID_COMMAND) /\ rc' = NGX_MAIL_PARSE_INVALID_COMMAND ->
    session_step pr push ssl size (mem, pos, s)
      ([], 0, next_command rc' (if clear then s' <| s_state := sw_start |> else s')).

Definition conn_ok (pr : mail_protocol) (size : Z) (c : list Z * Z * ngx_mail_session_t) : Prop :=
  let '(mem, pos, s) := c in pos = Z.of_nat (length mem) /\ pos <= size /\ protocol_inv pr pos s.

Lemma read_command_safe pr push ssl size chunk mem pos s :
  0 < Z.of_nat (length chunk) <= size - Z.of_nat (length mem) -> conn_ok pr size (mem, pos, s) ->
  exists rc s' pos' quit, ngx_mail_read_command pr push ssl size chunk mem pos s = Some (rc, s', pos', quit) /\
    (quit = true -> rc = NGX_MAIL_PARSE_INVALID_COMMAND) /\
    (quit = false -> exists q, parse_post pr push pos (Z.of_nat (length (mem ++ chunk))) rc s' q /\ (rc = NGX_AGAIN -> q = Some pos')).
Proof.
  intros Hc (Hpos & Hs & Hi). unfold ngx_mail_read_command.
  destruct (parse_command_safe pr push ssl (mem ++ chunk) pos s) as (rc & s' & pos' & -> & Hpost); [rewrite length_app; lia|done|].
  cbn [mbind option_bind]. case_match eqn:Ea.
  - case_match; eexists _, _, _, _; (split; [done|]); [|done]. split; [done|]. intros _. exists pos'. split; [done|]. intros ->.
    destruct Hpost as [(_ & -> & _)|[[]|[[]|[[]|[]]]]]; done.
  - eexists _, _, _, _. split; [done|]. split; [done|]. intros _. exists pos'. split; [done|]. intros ->. done.
Qed.

(** A command that has ended, well or not, leaves a session for the next one. *)
Lemma next_command_ok pr size rc s (clear : bool) :
  pr <> NGX_MAIL_IMAP_PROTOCOL -> 0 <= size -> s_arg_start s = None ->
  (s_state s = sw_argument \/ s_state s = sw_start) ->
  conn_ok pr size ([], 0, next_command rc (if clear then s <| s_state := sw_start |> else s)).
Proof.
  intros Hpr Hsz Hn Hst. split; [done|]. split; [done|].
  assert ((limits pr).2 = false) as Hl by (by destruct pr).
  assert (states_of pr sw_argument = true /\ states_of pr sw_start = true) as [Hs1 Hs2] by (by destruct pr).
  assert (forall s', s_args s' = [] -> args_ok (limits pr) 0 s') as Ha.
  { intros s' E. unfold args_ok. rewrite Hl, E. split_and!; [constructor|cbn; lia|done]. }
  assert (forall s', s_args s' = [] -> s_state s' = sw_start -> s_arg_start s' = None -> protocol_inv pr 0 s') as Hfresh.
  { intros s' ? E ?. unfold protocol_inv, session_inv. rewrite E. split_and!; [done..|by apply Ha|done]. }
  assert (forall s', s_args s' = [] -> s_state s' = sw_argument -> s_arg_start s' = Some 0 -> protocol_inv pr 0 s') as Harg.
  { intros s' E1 E2 E3. unfold protocol_inv, session_inv. rewrite E2. split; [done|]. split; [done|]. split; [by apply Ha|].
    split; [exists 0; split; [done|lia]|]. rewrite E1. cbn. lia. }
  unfold next_command. destruct clear, (rc =? _), Hst as [Hst|Hst]; cbn; rewrite ?Hst; auto.
Qed.

Lemma session_step_ok pr push ssl size c c' :
  pr <> NGX_MAIL_IMAP_PROTOCOL -> session_step pr push ssl size c c' -> conn_ok pr size c -> conn_ok pr size c'.
Proof.
  intros Hpr [chunk mem pos s s' pos' Hc Hr|chunk mem pos s rc s' pos' rc' clear Hc Hr Hrc] Hok.
  - destruct (read_command_safe pr push ssl size chunk mem pos s Hc Hok) as (rc & s2 & p2 & quit & Hr2 & _ & Hpost).
    rewrite Hr in Hr2. simplify_eq. destruct (Hpost eq_refl) as (q & Hp & Hq). rewrite (Hq eq_refl) in Hp.
    destruct Hp as [(_ & [= ->] & Hi)|[[]|[[]|[[]|[]]]]]; try done. split; [done|]. split; [rewrite length_app; lia|done].
  - destruct (read_command_safe pr push ssl size chunk mem pos s Hc Hok) as (rc2 & s2 & p2 & quit & Hr2 & _ & Hpost).
    rewrite Hr in Hr2. simplify_eq. destruct (Hpost eq_refl) as (q & Hp & _).
    destruct Hp as [(-> & _)|[(-> & _ & Hn & Hst)|[(-> & _)|[(-> & Hst & _ & Hn)|(-> & _)]]]]; try naive_solver.
    + apply next_command_ok; [done|lia|done|]. rewrite Hst. case_match; auto.
    + apply next_command_ok; [done|lia|by apply Hn|by right].
Qed.

Lemma session_reach_ok pr push ssl size c c' :
  pr <> NGX_MAIL_IMAP_PROTOCOL -> rtc (session_step pr push ssl size) c c' -> conn_ok pr size c -> conn_ok pr size c'.
Proof. intros Hpr. induction 1; eauto using session_step_ok. Qed.

Lemma new_session_ok pr size : 0 <= size -> conn_ok pr size ([], 0, new_session).
Proof. intros. split; [done|]. split; [done|]. 
  destruct pr; (split; [done|]; split; [done|]; split; [|done]; split_and!; [constructor|cbn; lia|done]).
Qed.

(** C32: a POP3 or SMTP session never breaks: however its bytes are cut into reads and
    whatever the commands answer, the parser is always defined, so it never reads outside
    the bytes received and never takes the length of an argument from a null pointer,
    and when it reports a command the arguments, at most 3 (POP3) or 11 (SMTP), lie
    inside the bytes read. *)
Theorem mail_session_safe pr push ssl size mem pos s chunk :
  pr <> NGX_MAIL_IMAP_PROTOCOL ->
  rtc (session_step pr push ssl size) ([], 0, new_session) (mem, pos, s) ->
  0 < Z.of_nat (length chunk) <= size - Z.of_nat (length mem) ->
  exists rc s' pos' quit, ngx_mail_read_command pr push ssl size chunk mem pos s = Some (rc, s', pos', quit) /\
    (rc = NGX_OK -> Forall (arg_in (Z.of_nat (length (mem ++ chunk)))) (s_args s') /\
       (length (s_args s') <= S (limits pr).1)%nat).
Proof.
  intros Hpr Hreach Hc.
  assert (conn_ok pr size (mem, pos, s)) as Hok.
  { eapply session_reach_ok; [done..|]. apply new_session_ok. lia. }
  destruct (read_command_safe pr push ssl size chunk mem pos s Hc Hok) as (rc & s' & pos' & quit & -> & Hq & Hpost).
  eexists _, _, _, _. split; [done|]. intros ->. destruct quit; [by specialize (Hq eq_refl)|].
  destruct (Hpost eq_refl) as (q & [[]|[(_ & (e & -> & He & Ha) & _)|[[]|[[]|[]]]]] & _); try done.
  split; [|apply Ha]. eapply (args_ok_le _ e); [done|lia].
Qed.

Example mail_session_safe_witness :
  rtc (session_step NGX_MAIL_POP3_PROTOCOL (fun _ => true) true 64) ([], 0, new_session) (cstr "USE", 3, new_session) /\
  exists rc s' pos' quit,
    ngx_mail_read_command NGX_MAIL_POP3_PROTOCOL (fun _ => true) true 64 (cstr "R joe" ++ [CR; LF]) (cstr "USE") 3 new_session
      = Some (rc, s', pos', quit) /\ rc = NGX_OK /\ Forall (arg_in 10) (s_args s').
Proof.
  assert (rtc (session_step NGX_MAIL_POP3_PROTOCOL (fun _ => true) true 64) ([], 0, new_session) (cstr "USE", 3, new_session)) as Hr.
  { apply rtc_once. apply (step_again _ _ _ _ (cstr "USE") [] 0); [cbn; lia|reflexivity]. }
  split; [exact Hr|].
  destruct (mail_session_safe NGX_MAIL_POP3_PROTOCOL (fun _ => true) true 64 (cstr "USE") 3 new_session (cstr "R joe" ++ [CR; LF]))
    as (rc & s' & pos' & quit & E & H); [done|exact Hr|cbn; lia|].
  exists rc, s', pos', quit. split; [exact E|]. vm_compute in E. injection E as <- <- <- <-.
  split; [done|]. exact (proj1 (H eq_refl)).
Defined.

(** C31: the command parsers keep the session well formed: started at [pos] on a session
    whose recorded offsets lie before [pos], each of the three is defined, so it reads
    only the bytes of the buffer, and what it leaves is again well formed: on
    [NGX_AGAIN] and [NGX_IMAP_NEXT] a session that can be continued, on [NGX_OK] a
    command with its tag and its bounded number of arguments inside the bytes that are
    taken from the buffer, and [NGX_ERROR] only when [ngx_array_push] fails. *)
Theorem mail_command_wellformed pr push ssl mem pos s :
  0 <= pos <= Z.of_nat (length mem) -> protocol_inv pr pos s ->
  exists rc s' pos', parse_command pr push ssl mem pos s = Some (rc, s', pos') /\
    parse_post pr push pos (Z.of_nat (length mem)) rc s' pos'.
Proof. apply parse_command_safe. Qed.

Example mail_command_wellformed_witness :
  exists rc s' pos',
    parse_command NGX_MAIL_IMAP_PROTOCOL (fun _ => true) true (cstr "a1 LOGIN joe {3+}" ++ [CR; LF] ++ cstr "abc" ++ [CR; LF]) 0 new_session
      = Some (rc, s', pos') /\ rc = NGX_OK /\ s_args s' = [(9, 3); (19, 3)] /\
    parse_post NGX_MAIL_IMAP_PROTOCOL (fun _ => true) 0 24 rc s' pos'.
Proof.
  destruct (mail_command_wellformed NGX_MAIL_IMAP_PROTOCOL (fun _ => true) true
    (cstr "a1 LOGIN joe {3+}" ++ [CR; LF] ++ cstr "abc" ++ [CR; LF]) 0 new_session) as (rc & s' & pos' & E & H);
    [cbn; lia|apply (new_session_ok _ 64); lia|].
  exists rc, s', pos'. split; [exact E|]. split; [vm_compute in E; by injection E as <- _ _|].
  split; [|exact H]. vm_compute in E. by injection E as _ <- _.
Defined.

(** Command parsing is resumable: [NGX_AGAIN] saves in the session all that the next
    call needs, so that parsing a command of any protocol in pieces, as the packets
    bring it, ends like parsing it at once; any other result does not depend on what
    follows in the buffer.  After [NGX_MAIL_PARSE_INVALID_COMMAND] and [NGX_ERROR] the
    position is not used, nor the state after [NGX_ERROR]. *)
Theorem mail_command_resumes pr push ssl mem1 mem2 pos s rc s1 pos1 :
  parse_command pr push ssl mem1 pos s = Some (rc, s1, pos1) ->
  mail_outcome (parse_command pr push ssl (mem1 ++ mem2) pos s) =
  if decide (rc = NGX_AGAIN)
  then mail_outcome (parse_command pr push ssl (mem1 ++ mem2) (default 0 pos1) s1)
  else mail_outcome (Some (rc, s1, pos1)).
Proof.
  destruct pr.
  - apply (protocol_parse_resumes push (H := pop3_protocol push ssl)).
  - apply (protocol_parse_resumes push (H := imap_protocol push ssl)).
  - apply (protocol_parse_resumes push (H := smtp_protocol push ssl)).
Qed.

Example mail_command_resumes_witness :
  exists rc s1 pos1,
    parse_command NGX_MAIL_SMTP_PROTOCOL (fun _ => true) true (cstr "MAIL FRO") 0 new_session = Some (rc, s1, pos1) /\
    rc = NGX_AGAIN /\
    mail_outcome (parse_command NGX_MAIL_SMTP_PROTOCOL (fun _ => true) true (cstr "MAIL FRO" ++ cstr "M:<a> X" ++ [LF]) 0 new_session) =
    mail_outcome (parse_command NGX_MAIL_SMTP_PROTOCOL (fun _ => true) true (cstr "MAIL FRO" ++ cstr "M:<a> X" ++ [LF]) (default 0 pos1) s1).
Proof.
  destruct (parse_command NGX_MAIL_SMTP_PROTOCOL (fun _ => true) true (cstr "MAIL FRO") 0 new_session) as [[[rc s1] pos1]|] eqn:E; [|done].
  exists rc, s1, pos1. split; [done|].
  pose proof (mail_command_resumes NGX_MAIL_SMTP_PROTOCOL (fun _ => true) true (cstr "MAIL FRO") (cstr "M:<a> X" ++ [LF]) 0
    new_session rc s1 pos1 E) as H.
  assert (rc = NGX_AGAIN) as -> by (vm_compute in E; by injection E). split; [done|]. exact H.
Defined.

(** * What the IMAP parser forgets *)

(** What [ngx_mail_imap_auth_state] does with the session after a result [rc] other than
    [NGX_IMAP_NEXT]: the session and [s->buffer->pos], which is also [last]. *)
Definition imap_next_command (rc : Z) (s : ngx_mail_session_t) : ngx_mail_session_t * Z :=
  let s := if rc =? NGX_MAIL_PARSE_INVALID_COMMAND then s <| s_state := sw_start |> else s in
  let s := s <| s_args := [] |> in
  let tag_len := match s_tag s with Some t => t.2 | None => 0 end in
  match s_state s with
  | sw_start => (s <| s_tag := match s_tag s with Some t => Some (t.1, 0) | None => None end |>, 0)
  | _ => (s <| s_arg_start := Some tag_len |>, tag_len)
  end.

(** The label [invalid:] of the IMAP parser does not clear [s->arg_start], as those of
    POP3 and SMTP do: after an argument that ends inside a backslash sequence, the next
    command takes the stale offset for an argument.  A command without arguments then
    takes the length of it from the null [s->arg_end]; a command with trailing spaces
    gets an argument of negative length. *)
Theorem imap_stale_argument :
  let parse := parse_command NGX_MAIL_IMAP_PROTOCOL (fun _ => true) true in
  exists s1 p1,
    parse (cstr "a LOGIN " ++ [DQUOTE] ++ cstr "x\" ++ [LF]) 0 new_session = Some (NGX_MAIL_PARSE_INVALID_COMMAND, s1, p1) /\
    parse (cstr "b NOOP" ++ [LF]) 0 (imap_next_command NGX_MAIL_PARSE_INVALID_COMMAND s1).1 = None /\
    exists s2 p2,
      parse (cstr "b NOOP " ++ [LF]) 0 (imap_next_command NGX_MAIL_PARSE_INVALID_COMMAND s1).1 = Some (NGX_OK, s2, p2) /\
      s_args s2 = [(9, -2)].
Proof.
  cbv zeta. do 2 eexists. split; [vm_compute; reflexivity|]. split; [vm_compute; reflexivity|].
  do 2 eexists. split; [vm_compute; reflexivity|reflexivity].
Qed.

(** A literal of length 0 takes the byte after it as its only byte. *)
Theorem imap_empty_literal :
  exists s p,
    parse_command NGX_MAIL_IMAP_PROTOCOL (fun _ => true) true
      (cstr "a LOGIN joe {0+}" ++ [CR; LF; CR; LF]) 0 new_session = Some (NGX_OK, s, p) /\
    s_args s = [(8, 3); (18, 1)].
Proof. do 2 eexists. split; [vm_compute; reflexivity|reflexivity]. Qed.

(** * A well-formed SMTP command *)

Definition separator (ch : Z) : bool := (ch =? " "%cc) || (ch =? CR) || (ch =? LF).

(** The line of a command: its word, its arguments, one space before each, and CRLF. *)
Definition smtp_line (w : list Z) (args : list (list Z)) : list Z :=
  w ++ concat ((fun a => " "%cc :: a) <$> args) ++ [CR; LF].

(** The offsets and lengths of the arguments that follow the offset [p]. *)
Fixpoint arg_spans (p : Z) (args : list (list Z)) : list (Z * Z) :=
  match args with
  | [] => []
  | a :: args' => (p + 1, Z.of_nat (length a)) :: arg_spans (p + 1 + Z.of_nat (length a)) args'
  end.

Definition is_word (a : list Z) : Prop := a <> [] /\ Forall (fun ch => separator ch = false) a.

Section smtp_line.
Context (ssl : bool).
Abbreviation push := (fun _ : nat => true).
Abbreviation loop := (line_loop (H := smtp_parser push ssl)).

Lemma smtp_letters mem p l v :
  mv_state v = sw_start -> Forall (fun ch => is_letter ch = true) l -> loop mem p l v = Some (p + Z.of_nat (length l), Continue v).
Proof.
  intros Hst Hl. revert p. induction Hl as [|ch l Hch Hl IH]; intros p; cbn [line_loop length]; [by rewrite Z.add_0_r|].
  cbn [line_step smtp_parser]. unfold smtp_step. rewrite Hst. unfold smtp_start. rewrite Hch.
  replace ((ch =? " "%cc) || _ || _) with false.
  - rewrite IH. do 2 f_equal. lia.
  - unfold is_letter in Hch. change CR with 13. change LF with 10. lia.
Qed.

Lemma smtp_argument_loop mem p l v :
  mv_state v = sw_argument -> Forall (fun ch => separator ch = false) l ->
  loop mem p l v = Some (p + Z.of_nat (length l), Continue v).
Proof.
  intros Hst Hl. revert p. induction Hl as [|ch l Hch Hl IH]; intros p; cbn [line_loop length]; [by rewrite Z.add_0_r|].
  cbn [line_step smtp_parser]. unfold smtp_step. rewrite Hst. unfold smtp_argument. unfold separator in Hch. rewrite Hch, IH.
  do 2 f_equal. lia.
Qed.

(** An argument is read up to the byte that ends it. *)
Lemma smtp_begin_argument mem p w rest v :
  mv_state v = sw_spaces_before_argument -> (length (s_args (mv_s v)) <= 10)%nat -> is_word w ->
  loop mem p (w ++ rest) v =
  loop mem (p + Z.of_nat (length w)) rest ((on_session (fun s => s <| s_arg_start := Some p |>) v) <| mv_state := sw_argument |>).
Proof.
  intros Hst Hn [Hw1 Hw2]. destruct w as [|c w]; [done|]. inversion Hw2 as [|?? Hc Hw]; subst. unfold separator in Hc.
  cbn [app line_loop line_step smtp_parser]. unfold smtp_step at 1. rewrite Hst. unfold case_spaces_before_argument.
  apply Nat.leb_le in Hn. rewrite Hn.
  destruct (c =? " "%cc); [done|]. destruct (c =? CR); [done|]. destruct (c =? LF); [done|]. cbn [to_state].
  rewrite line_loop_app, smtp_argument_loop by done. f_equal. cbn [length]. lia.
Qed.

(** The byte after an argument. *)
Lemma smtp_end_argument mem p ch v a :
  mv_state v = sw_argument -> s_arg_start (mv_s v) = Some a -> separator ch = true ->
  line_step (LineParser := smtp_parser push ssl) mem p ch v =
  after_word ch (on_session (fun s => s <| s_args := s_args s ++ [(a, p - a)] |> <| s_arg_start := None |>) v).
Proof.
  intros Hst Ha Hc. cbn [line_step smtp_parser]. unfold smtp_step, smtp_argument, push_arg. unfold separator in Hc.
  by rewrite Hst, Hc, Ha.
Qed.

Lemma smtp_end_word mem p ch v w cmd :
  mv_state v = sw_start -> separator ch = true -> slice mem 0 p = Some w -> smtp_word ssl w = Some cmd ->
  line_step (LineParser := smtp_parser push ssl) mem p ch v = after_word ch (on_session (fun s => s <| s_command := cmd |>) v).
Proof.
  intros Hst Hc Hs Hw. cbn [line_step smtp_parser]. unfold smtp_step, smtp_start. unfold separator in Hc.
  by rewrite Hst, Hc, Hs, Hw.
Qed.

Lemma after_space v : after_word " "%cc v = Some (Continue (v <| mv_state := sw_spaces_before_argument |>)).
Proof. done. Qed.

(** The rest of the line once an argument, from [a] to [p], has been read. *)
Lemma smtp_args_loop mem p args v a :
  mv_state v = sw_argument -> s_arg_start (mv_s v) = Some a -> Forall is_word args ->
  (length (s_args (mv_s v)) + length args <= 10)%nat ->
  exists q v', loop mem p (concat ((fun a => " "%cc :: a) <$> args) ++ [CR; LF]) v = Some (q, Goto_done v') /\
    q = p + Z.of_nat (length (concat ((fun a => " "%cc :: a) <$> args))) + 1 /\
    s_args (mv_s v') = s_args (mv_s v) ++ (a, p - a) :: arg_spans p args /\
    s_arg_start (mv_s v') = None /\ s_command (mv_s v') = s_command (mv_s v).
Proof.
  intros Hst Ha Hargs. revert p v a Hst Ha. induction Hargs as [|w args Hw Hargs IH]; intros p v a Hst Ha Hn.
  { cbn [fmap list_fmap concat app line_loop]. rewrite (smtp_end_argument _ _ _ _ a) by done. cbn -[Z.add].
    eexists _, _. split; [done|]. split_and!; [lia|done..]. }
  cbn [fmap list_fmap concat app line_loop]. rewrite (smtp_end_argument _ _ _ _ a) by done.
  rewrite after_space, <- app_assoc, smtp_begin_argument; [|done| |done].
  - edestruct (IH (p + 1 + Z.of_nat (length w))) as (q & v' & -> & Hq & Hs & ? & ?); [done|reflexivity| |].
    + cbn [mv_s on_session s_args length] in *. cbn. rewrite length_app. cbn in *. lia.
    + eexists _, _. split; [done|]. split_and!; [|rewrite Hs|done..].
      * rewrite Hq. cbn [length]. rewrite length_app. lia.
      * cbn [arg_spans]. cbn. rewrite <- app_assoc. cbn. do 4 f_equal. lia.
  - cbn. rewrite length_app. cbn in *. lia.
Qed.

Lemma arg_spans_slices pre args post :
  Forall2 (fun span a => slice (pre ++ concat ((fun a => " "%cc :: a) <$> args) ++ post) span.1 (span.1 + span.2) = Some a)
    (arg_spans (Z.of_nat (length pre)) args) args.
Proof.
  revert pre. induction args as [|a args IH]; intros pre; [constructor|].
  cbn [arg_spans fmap list_fmap concat]. constructor.
  - cbn [fst snd]. rewrite slice_is_Some by (cbn [app]; rewrite ?length_app; cbn [length]; rewrite ?length_app; lia).
    replace (Z.to_nat (Z.of_nat (length pre) + 1)) with (S (length pre)) by lia.
    rewrite drop_app_ge by lia. replace (S (length pre) - length pre)%nat with 1%nat by lia. cbn.
    replace (Z.to_nat _) with (length a) by lia. rewrite drop_0, <- app_assoc. by rewrite take_app_length.
  - replace (Z.of_nat (length pre) + 1 + Z.of_nat (length a)) with (Z.of_nat (length (pre ++ " "%cc :: a)))
      by (rewrite length_app; cbn; lia).
    specialize (IH (pre ++ " "%cc :: a)). rewrite <- app_assoc in IH. cbn [app] in *. by rewrite <- app_assoc.
Qed.

End smtp_line.

(** SMTP commands mean what they say: a line made of the word of a command, up to 11
    arguments without spaces, each after one space, and CRLF, is taken whole, gives the
    command of that word and exactly those arguments, in order. *)
Theorem smtp_command_correct ssl w cmd args :
  smtp_word ssl w = Some cmd -> Forall (fun ch => is_letter ch = true) w -> Forall is_word args -> (length args <= 11)%nat ->
  exists s, ngx_mail_smtp_parse_command (fun _ => true) ssl (smtp_line w args) 0 new_session
      = Some (NGX_OK, s, Some (Z.of_nat (length (smtp_line w args)))) /\
    s_command s = cmd /\
    Forall2 (fun span a => slice (smtp_line w args) span.1 (span.1 + span.2) = Some a) (s_args s) args.
Proof.
  intros Hw Hl Hargs Hn. unfold ngx_mail_smtp_parse_command, mail_parse.
  set (mem := smtp_line w args).
  rewrite slice_is_Some by lia. change (drop _ mem) with mem.
  rewrite take_ge by lia. unfold mem at 2. unfold smtp_line. rewrite line_loop_app, smtp_letters by done.
  assert (slice mem 0 (0 + Z.of_nat (length w)) = Some w) as Hsl.
  { unfold mem, smtp_line. rewrite slice_app, slice_is_Some by lia. cbn [drop Z.to_nat]. f_equal. apply take_ge. lia. }
  pose proof (arg_spans_slices w args [CR; LF]) as Hspans. fold (smtp_line w args) in Hspans. fold mem in Hspans.
  destruct args as [|a args].
  - cbn [fmap list_fmap concat app line_loop]. rewrite (smtp_end_word ssl _ _ _ _ w cmd) by done.
    cbn -[Z.add Z.of_nat mem]. eexists. split; [do 2 f_equal|by split; [|constructor]].
    f_equal. unfold mem, smtp_line. cbn. rewrite length_app. cbn. lia.
  - inversion Hargs as [|?? Ha Hargs']; subst.
    cbn [fmap list_fmap concat app line_loop]. rewrite (smtp_end_word ssl _ _ _ _ w cmd) by done.
    rewrite after_space, <- app_assoc, smtp_begin_argument by (done || cbn; lia).
    edestruct (smtp_args_loop ssl mem (0 + Z.of_nat (length w) + 1 + Z.of_nat (length a)) args)
      as (q & v' & -> & Hq & Hs & Has & Hcmd); [done|reflexivity|done|cbn in *; lia|].
    unfold mail_return, mail_done. rewrite Has. eexists. split; [do 2 f_equal|split; [exact Hcmd|]].
    + f_equal. unfold mem, smtp_line. cbn [fmap list_fmap concat app]. rewrite Hq, !length_app. cbn [length].
      rewrite !length_app. cbn. lia.
    + cbn. rewrite Hs. cbn. replace (_ - _) with (Z.of_nat (length a)) by lia. exact Hspans.
Qed.

Example smtp_command_correct_witness :
  exists s, ngx_mail_smtp_parse_command (fun _ => true) true (smtp_line (cstr "mail") [cstr "FROM:<a@b>"; cstr "SIZE=10"]) 0 new_session
      = Some (NGX_OK, s, Some 25) /\ s_command s = NGX_SMTP_MAIL /\
    Forall2 (fun span a => slice (smtp_line (cstr "mail") [cstr "FROM:<a@b>"; cstr "SIZE=10"]) span.1 (span.1 + span.2) = Some a)
      (s_args s) [cstr "FROM:<a@b>"; cstr "SIZE=10"].
Proof.
  apply (smtp_command_correct true (cstr "mail") NGX_SMTP_MAIL [cstr "FROM:<a@b>"; cstr "SIZE=10"]).
  - reflexivity.
  - repeat constructor.
  - repeat constructor; discriminate.
  - cbn. lia.
Defined.
