(* ===== verification/NgxCrc32.v ===== *)
(** The checksums of [ngx_crc32.c] and [ngx_crc32.h]: the loops with the table of 16
    and of 256 entries, and the checksum bit by bit that both compute. *)

From S2P Require Import Prelude.

Open Scope Z_scope.

(** * The tables *)

Definition ngx_crc32_table16 : list Z :=
  [
   0x00000000; 0x1db71064; 0x3b6e20c8; 0x26d930ac; 0x76dc4190; 0x6b6b51f4;
   0x4db26158; 0x5005713c; 0xedb88320; 0xf00f9344; 0xd6d6a3e8; 0xcb61b38c;
   0x9b64c2b0; 0x86d3d2d4; 0xa00ae278; 0xbdbdf21c].

Definition ngx_crc32_table256 : list Z :=
  [
   0x00000000; 0x77073096; 0xee0e612c; 0x990951ba; 0x076dc419; 0x706af48f;
   0xe963a535; 0x9e6495a3; 0x0edb8832; 0x79dcb8a4; 0xe0d5e91e; 0x97d2d988;
   0x09b64c2b; 0x7eb17cbd; 0xe7b82d07; 0x90bf1d91; 0x1db71064; 0x6ab020f2;
   0xf3b97148; 0x84be41de; 0x1adad47d; 0x6ddde4eb; 0xf4d4b551; 0x83d385c7;
   0x136c9856; 0x646ba8c0; 0xfd62f97a; 0x8a65c9ec; 0x14015c4f; 0x63066cd9;
   0xfa0f3d63; 0x8d080df5; 0x3b6e20c8; 0x4c69105e; 0xd56041e4; 0xa2677172;
   0x3c03e4d1; 0x4b04d447; 0xd20d85fd; 0xa50ab56b; 0x35b5a8fa; 0x42b2986c;
   0xdbbbc9d6; 0xacbcf940; 0x32d86ce3; 0x45df5c75; 0xdcd60dcf; 0xabd13d59;
   0x26d930ac; 0x51de003a; 0xc8d75180; 0xbfd06116; 0x21b4f4b5; 0x56b3c423;
   0xcfba9599; 0xb8bda50f; 0x2802b89e; 0x5f058808; 0xc60cd9b2; 0xb10be924;
   0x2f6f7c87; 0x58684c11; 0xc1611dab; 0xb6662d3d; 0x76dc4190; 0x01db7106;
   0x98d220bc; 0xefd5102a; 0x71b18589; 0x06b6b51f; 0x9fbfe4a5; 0xe8b8d433;
   0x7807c9a2; 0x0f00f934; 0x9609a88e; 0xe10e9818; 0x7f6a0dbb; 0x086d3d2d;
   0x91646c97; 0xe6635c01; 0x6b6b51f4; 0x1c6c6162; 0x856530d8; 0xf262004e;
   0x6c0695ed; 0x1b01a57b; 0x8208f4c1; 0xf50fc457; 0x65b0d9c6; 0x12b7e950;
   0x8bbeb8ea; 0xfcb9887c; 0x62dd1ddf; 0x15da2d49; 0x8cd37cf3; 0xfbd44c65;
   0x4db26158; 0x3ab551ce; 0xa3bc0074; 0xd4bb30e2; 0x4adfa541; 0x3dd895d7;
   0xa4d1c46d; 0xd3d6f4fb; 0x4369e96a; 0x346ed9fc; 0xad678846; 0xda60b8d0;
   0x44042d73; 0x33031de5; 0xaa0a4c5f; 0xdd0d7cc9; 0x5005713c; 0x270241aa;
   0xbe0b1010; 0xc90c2086; 0x5768b525; 0x206f85b3; 0xb966d409; 0xce61e49f;
   0x5edef90e; 0x29d9c998; 0xb0d09822; 0xc7d7a8b4; 0x59b33d17; 0x2eb40d81;
   0xb7bd5c3b; 0xc0ba6cad; 0xedb88320; 0x9abfb3b6; 0x03b6e20c; 0x74b1d29a;
   0xead54739; 0x9dd277af; 0x04db2615; 0x73dc1683; 0xe3630b12; 0x94643b84;
   0x0d6d6a3e; 0x7a6a5aa8; 0xe40ecf0b; 0x9309ff9d; 0x0a00ae27; 0x7d079eb1;
   0xf00f9344; 0x8708a3d2; 0x1e01f268; 0x6906c2fe; 0xf762575d; 0x806567cb;
   0x196c3671; 0x6e6b06e7; 0xfed41b76; 0x89d32be0; 0x10da7a5a; 0x67dd4acc;
   0xf9b9df6f; 0x8ebeeff9; 0x17b7be43; 0x60b08ed5; 0xd6d6a3e8; 0xa1d1937e;
   0x38d8c2c4; 0x4fdff252; 0xd1bb67f1; 0xa6bc5767; 0x3fb506dd; 0x48b2364b;
   0xd80d2bda; 0xaf0a1b4c; 0x36034af6; 0x41047a60; 0xdf60efc3; 0xa867df55;
   0x316e8eef; 0x4669be79; 0xcb61b38c; 0xbc66831a; 0x256fd2a0; 0x5268e236;
   0xcc0c7795; 0xbb0b4703; 0x220216b9; 0x5505262f; 0xc5ba3bbe; 0xb2bd0b28;
   0x2bb45a92; 0x5cb36a04; 0xc2d7ffa7; 0xb5d0cf31; 0x2cd99e8b; 0x5bdeae1d;
   0x9b64c2b0; 0xec63f226; 0x756aa39c; 0x026d930a; 0x9c0906a9; 0xeb0e363f;
   0x72076785; 0x05005713; 0x95bf4a82; 0xe2b87a14; 0x7bb12bae; 0x0cb61b38;
   0x92d28e9b; 0xe5d5be0d; 0x7cdcefb7; 0x0bdbdf21; 0x86d3d2d4; 0xf1d4e242;
   0x68ddb3f8; 0x1fda836e; 0x81be16cd; 0xf6b9265b; 0x6fb077e1; 0x18b74777;
   0x88085ae6; 0xff0f6a70; 0x66063bca; 0x11010b5c; 0x8f659eff; 0xf862ae69;
   0x616bffd3; 0x166ccf45; 0xa00ae278; 0xd70dd2ee; 0x4e048354; 0x3903b3c2;
   0xa7672661; 0xd06016f7; 0x4969474d; 0x3e6e77db; 0xaed16a4a; 0xd9d65adc;
   0x40df0b66; 0x37d83bf0; 0xa9bcae53; 0xdebb9ec5; 0x47b2cf7f; 0x30b5ffe9;
   0xbdbdf21c; 0xcabac28a; 0x53b39330; 0x24b4a3a6; 0xbad03605; 0xcdd70693;
   0x54de5729; 0x23d967bf; 0xb3667a2e; 0xc4614ab8; 0x5d681b02; 0x2a6f2b94;
   0xb40bbe37; 0xc30c8ea1; 0x5a05df1b; 0x2d02ef8d].

(** * The loops *)

(** The lookup of a table, stuck outside of it. *)
Definition crc_entry (table : list Z) (i : Z) : option Z := table !! Z.to_nat i.

(** [ngx_crc32_table_short] points to the table of 16 entries or to its aligned copy. *)
Definition crc_short_byte (table_short : list Z) (crc c : Z) : option Z :=
  t ← crc_entry table_short (Z.land (Z.lxor crc (Z.land c 0xf)) 0xf);
  let crc := Z.lxor t (Z.shiftr crc 4) in
  t ← crc_entry table_short (Z.land (Z.lxor crc (Z.shiftr c 4)) 0xf);
  Some (Z.lxor t (Z.shiftr crc 4)).

Fixpoint crc_short_loop (table_short : list Z) (crc : Z) (p : list Z) : option Z :=
  match p with
  | [] => Some crc
  | c :: p' => crc ← crc_short_byte table_short crc c; crc_short_loop table_short crc p'
  end.

Definition ngx_crc32_short (p : list Z) : option Z :=
  crc ← crc_short_loop ngx_crc32_table16 0xffffffff p;
  Some (Z.lxor crc 0xffffffff).

Definition crc_long_byte (crc c : Z) : option Z :=
  t ← crc_entry ngx_crc32_table256 (Z.land (Z.lxor crc c) 0xff);
  Some (Z.lxor t (Z.shiftr crc 8)).

(** The loop of [ngx_crc32_update], which is also that of [ngx_crc32_long]. *)
Fixpoint ngx_crc32_update (crc : Z) (p : list Z) : option Z :=
  match p with
  | [] => Some crc
  | c :: p' => crc ← crc_long_byte crc c; ngx_crc32_update crc p'
  end.

Definition ngx_crc32_init : Z := 0xffffffff.
Definition ngx_crc32_final (crc : Z) : Z := Z.lxor crc 0xffffffff.

Definition ngx_crc32_long (p : list Z) : option Z :=
  crc ← ngx_crc32_update 0xffffffff p;
  Some (Z.lxor crc 0xffffffff).

(** * The checksum bit by bit *)

(** A step of the division by the polynomial, the lowest bit first. *)
Definition crc_bit (c : Z) : Z := Z.lxor (Z.shiftr c 1) (if Z.testbit c 0 then 0xedb88320 else 0).

Definition crc_bits (n : nat) (c : Z) : Z := Nat.iter n crc_bit c.

Definition crc_byte (c b : Z) : Z := crc_bits 8 (Z.lxor c b).

Definition crc32 (p : list Z) : Z := Z.lxor (foldl crc_byte 0xffffffff p) 0xffffffff.

(** ** A step is linear, and shifts where the lowest bits are clear *)

Lemma crc_bit_lxor a b : crc_bit (Z.lxor a b) = Z.lxor (crc_bit a) (crc_bit b).
Proof.
  unfold crc_bit. rewrite Z.shiftr_lxor, Z.lxor_spec.
  apply Z.bits_inj'. intros i Hi. rewrite !Z.lxor_spec.
  destruct (Z.testbit a 0), (Z.testbit b 0); cbn [xorb]; rewrite ?Z.bits_0;
    destruct (Z.testbit (Z.shiftr a 1) i), (Z.testbit (Z.shiftr b 1) i), (Z.testbit 0xedb88320 i); reflexivity.
Qed.

Lemma crc_bits_lxor n a b : crc_bits n (Z.lxor a b) = Z.lxor (crc_bits n a) (crc_bits n b).
Proof. unfold crc_bits. induction n as [|n IH]; [done|]. rewrite !Nat.iter_succ. by rewrite IH, crc_bit_lxor. Qed.

Lemma crc_bits_S n c : crc_bits (S n) c = crc_bits n (crc_bit c).
Proof. apply Nat.iter_succ_r. Qed.

Lemma crc_bits_add n m c : crc_bits (n + m) c = crc_bits n (crc_bits m c).
Proof. apply Nat.iter_add. Qed.

Lemma crc_bits_shiftl n h : crc_bits n (Z.shiftl h (Z.of_nat n)) = h.
Proof.
  induction n as [|n IH]; [apply Z.shiftl_0_r|]. rewrite crc_bits_S. rewrite <- IH at 2. f_equal.
  unfold crc_bit. rewrite Z.shiftl_spec_low by lia. rewrite Z.lxor_0_r, Z.shiftr_shiftl_l by lia. f_equal. lia.
Qed.

Lemma split_low n x : 0 <= n -> x = Z.lxor (Z.land x (Z.ones n)) (Z.shiftl (Z.shiftr x n) n).
Proof.
  intros Hn. apply Z.bits_inj'. intros i Hi. rewrite Z.lxor_spec, Z.land_spec, Z.testbit_ones_nonneg by lia.
  destruct (Z.ltb_spec i n).
  - rewrite Z.shiftl_spec_low by lia. by rewrite andb_true_r, xorb_false_r.
  - rewrite Z.shiftl_spec_high, Z.shiftr_spec by lia. replace (i - n + n) with i by lia. by rewrite andb_false_r.
Qed.

(** [n] steps: what the lowest bits contribute, and the others shifted. *)
Lemma crc_bits_split n x :
  crc_bits n x = Z.lxor (crc_bits n (Z.land x (Z.ones (Z.of_nat n)))) (Z.shiftr x (Z.of_nat n)).
Proof. rewrite (split_low (Z.of_nat n) x) at 1 by lia. by rewrite crc_bits_lxor, crc_bits_shiftl. Qed.

(** ** The tables hold the contributions *)

Lemma table_entry n table i :
  table = crc_bits n <$> seqZ 0 (2 ^ Z.of_nat n) -> crc_entry table (Z.land i (Z.ones (Z.of_nat n))) = Some (crc_bits n (Z.land i (Z.ones (Z.of_nat n)))).
Proof.
  intros ->. unfold crc_entry. rewrite Z.land_ones by lia.
  pose proof (Z.mod_pos_bound i (2 ^ Z.of_nat n) ltac:(lia)).
  rewrite list_lookup_fmap, lookup_seqZ_lt by lia. cbn. do 2 f_equal. lia.
Qed.

Lemma table16_entries : ngx_crc32_table16 = crc_bits 4 <$> seqZ 0 (2 ^ Z.of_nat 4).
Proof. vm_compute. reflexivity. Qed.

Lemma table256_entries : ngx_crc32_table256 = crc_bits 8 <$> seqZ 0 (2 ^ Z.of_nat 8).
Proof. vm_compute. reflexivity. Qed.

Lemma shiftr_lxor_low x y n : 0 <= n -> 0 <= y < 2 ^ n -> Z.shiftr (Z.lxor x y) n = Z.shiftr x n.
Proof. intros Hn Hy. rewrite Z.shiftr_lxor, (Z.shiftr_div_pow2 y), Z.div_small, Z.lxor_0_r by lia. done. Qed.

Lemma crc_long_byte_correct c b : is_byte b -> crc_long_byte c b = Some (crc_byte c b).
Proof.
  intros Hb. unfold crc_long_byte. change 0xff with (Z.ones (Z.of_nat 8)).
  rewrite (table_entry 8 _ _ table256_entries). cbn [mbind option_bind].
  unfold crc_byte. rewrite (crc_bits_split 8 (Z.lxor c b)). by rewrite (shiftr_lxor_low c b) by (done || lia).
Qed.

(** Half a byte. *)
Lemma crc_nibble c x :
  0 <= x < 16 ->
  (t ← crc_entry ngx_crc32_table16 (Z.land (Z.lxor c x) 0xf); Some (Z.lxor t (Z.shiftr c 4))) = Some (crc_bits 4 (Z.lxor c x)).
Proof.
  intros Hx. change 0xf with (Z.ones (Z.of_nat 4)). rewrite (table_entry 4 _ _ table16_entries). cbn [mbind option_bind].
  rewrite (crc_bits_split 4 (Z.lxor c x)). by rewrite (shiftr_lxor_low c x) by (done || lia).
Qed.

Lemma crc_short_byte_correct c b : is_byte b -> crc_short_byte ngx_crc32_table16 c b = Some (crc_byte c b).
Proof.
  intros Hb. unfold crc_short_byte, is_byte in *.
  assert (0 <= Z.land b 0xf < 16) as Hlow by (change 0xf with (Z.ones 4); rewrite Z.land_ones by lia; apply Z.mod_pos_bound; lia).
  assert (0 <= Z.shiftr b 4 < 16) as Hhigh by (rewrite Z.shiftr_div_pow2 by lia; split; [apply Z.div_pos; lia|apply Z.div_lt_upper_bound; lia]).
  pose proof (crc_nibble c (Z.land b 0xf) Hlow) as E1. destruct (crc_entry _ _) as [t1|]; [|done]. cbn [mbind option_bind] in *.
  injection E1 as ->. etransitivity; [exact (crc_nibble (crc_bits 4 (Z.lxor c (Z.land b 0xf))) (Z.shiftr b 4) Hhigh)|].
  f_equal. unfold crc_byte. change 8%nat with (4 + 4)%nat. rewrite crc_bits_add. f_equal.
  rewrite (split_low 4 b) at 3 by lia. rewrite <- Z.lxor_assoc.
  rewrite (crc_bits_lxor 4 (Z.lxor c _)). f_equal. symmetry. exact (crc_bits_shiftl 4 (Z.shiftr b 4)).
Qed.

Lemma crc_short_loop_correct c p : is_bytes p -> crc_short_loop ngx_crc32_table16 c p = Some (foldl crc_byte c p).
Proof.
  intros Hp. revert c. induction Hp as [|b p Hb _ IH]; intros c; [done|]. cbn [crc_short_loop].
  rewrite crc_short_byte_correct by done. apply IH.
Qed.

Lemma crc_update_correct c p : is_bytes p -> ngx_crc32_update c p = Some (foldl crc_byte c p).
Proof.
  intros Hp. revert c. induction Hp as [|b p Hb _ IH]; intros c; [done|]. cbn [ngx_crc32_update].
  rewrite crc_long_byte_correct by done. apply IH.
Qed.

(** The checksum in pieces: [ngx_crc32_init], a call of [ngx_crc32_update] for each piece, [ngx_crc32_final]. *)
Fixpoint crc_pieces (crc : Z) (ps : list (list Z)) : option Z :=
  match ps with
  | [] => Some (ngx_crc32_final crc)
  | p :: ps' => crc ← ngx_crc32_update crc p; crc_pieces crc ps'
  end.

(** The two loops with tables compute the checksum that the division bit by bit
    defines, on every text, never look outside their tables, and the checksum of a text
    that comes in pieces is that of the whole. *)
Theorem crc32_correct ps :
  Forall is_bytes ps ->
  ngx_crc32_short (concat ps) = Some (crc32 (concat ps)) /\
  ngx_crc32_long (concat ps) = Some (crc32 (concat ps)) /\
  crc_pieces ngx_crc32_init ps = Some (crc32 (concat ps)).
Proof.
  intros Hps. pose proof (proj2 (Forall_concat _ _) Hps) as Hp. unfold ngx_crc32_short, ngx_crc32_long.
  rewrite crc_short_loop_correct, crc_update_correct by done. split; [done|]. split; [done|].
  unfold crc32, ngx_crc32_init. change (crc_pieces 0xffffffff ps = Some (ngx_crc32_final (foldl crc_byte 0xffffffff (concat ps)))).
  generalize 0xffffffff. clear Hp. induction Hps as [|p ps Hp _ IH]; intros c; [done|].
  cbn [crc_pieces concat]. rewrite crc_update_correct by done. cbn [mbind option_bind]. rewrite IH. by rewrite foldl_app.
Qed.

Example crc32_correct_witness : ngx_crc32_short (cstr "123456789") = Some 0xcbf43926.
Proof.
  destruct (crc32_correct [cstr "1234"; cstr "56789"]) as [H _]; [|exact H].
  repeat constructor; vm_compute; try reflexivity; discriminate.
Defined.

(** ** A changed byte is noticed *)

Lemma crc_bit_range c : 0 <= c < 2 ^ 32 -> 0 <= crc_bit c < 2 ^ 32.
Proof.
  intros Hc. unfold crc_bit. assert (0 <= Z.shiftr c 1 < 2 ^ 32).
  { rewrite Z.shiftr_div_pow2 by lia. split; [apply Z.div_pos; lia|apply Z.div_lt_upper_bound; lia]. }
  split; [apply Z.lxor_nonneg; destruct (Z.testbit c 0); lia|]. destruct (Z.eq_dec (Z.lxor (Z.shiftr c 1) (if Z.testbit c 0 then 0xedb88320 else 0)) 0) as [-> |Hne]; [lia|].
  apply Z.log2_lt_pow2; [|eapply Z.le_lt_trans; [apply Z.log2_lxor|]].
  - assert (0 <= Z.lxor (Z.shiftr c 1) (if Z.testbit c 0 then 0xedb88320 else 0)) by (apply Z.lxor_nonneg; destruct (Z.testbit c 0); lia). lia.
  - lia.
  - destruct (Z.testbit c 0); lia.
  - apply Z.max_lub_lt; [|by destruct (Z.testbit c 0)]. destruct (Z.eq_dec (Z.shiftr c 1) 0) as [-> |]; [done|]. apply Z.log2_lt_pow2; lia.
Qed.

(** Only 0 becomes 0: the highest bit of the polynomial is set. *)
Lemma crc_bit_zero c : 0 <= c < 2 ^ 32 -> crc_bit c = 0 -> c = 0.
Proof.
  intros Hc H0. unfold crc_bit in H0. destruct (Z.testbit c 0) eqn:Eb.
  - assert (Z.shiftr c 1 = 0xedb88320) as E by (by apply Z.lxor_eq).
    rewrite Z.shiftr_div_pow2 in E by lia. assert (c / 2 ^ 1 < 2 ^ 31) by (apply Z.div_lt_upper_bound; lia). lia.
  - rewrite Z.lxor_0_r, Z.shiftr_div_pow2 in H0 by lia. rewrite Z.bit0_odd in Eb.
    pose proof (Z.div_mod c 2 ltac:(lia)). rewrite Zmod_odd, Eb in H. change (2 ^ 1) with 2 in H0. lia.
Qed.

Lemma lxor_range a b : 0 <= a < 2 ^ 32 -> 0 <= b < 2 ^ 32 -> 0 <= Z.lxor a b < 2 ^ 32.
Proof.
  intros Ha Hb. assert (0 <= Z.lxor a b) by (apply Z.lxor_nonneg; lia). split; [done|].
  destruct (Z.eq_dec (Z.lxor a b) 0) as [-> |]; [lia|]. apply Z.log2_lt_pow2; [lia|].
  eapply Z.le_lt_trans; [apply Z.log2_lxor; lia|]. apply Z.max_lub_lt.
  - destruct (Z.eq_dec a 0) as [-> |]; [done|]. apply Z.log2_lt_pow2; lia.
  - destruct (Z.eq_dec b 0) as [-> |]; [done|]. apply Z.log2_lt_pow2; lia.
Qed.

Lemma crc_bits_zero n c : 0 <= c < 2 ^ 32 -> crc_bits n c = 0 -> c = 0.
Proof.
  revert c. induction n as [|n IH]; intros c Hc; [done|]. rewrite crc_bits_S. intros H%IH; [|by apply crc_bit_range].
  by apply crc_bit_zero.
Qed.

Lemma crc_bits_range n c : 0 <= c < 2 ^ 32 -> 0 <= crc_bits n c < 2 ^ 32.
Proof. revert c. induction n as [|n IH]; intros c Hc; [done|]. rewrite crc_bits_S. by apply IH, crc_bit_range. Qed.

Lemma crc_byte_range c b : 0 <= c < 2 ^ 32 -> is_byte b -> 0 <= crc_byte c b < 2 ^ 32.
Proof. unfold is_byte, crc_byte. intros. apply crc_bits_range, lxor_range; lia. Qed.

(** The step for a byte loses nothing: of the state, nor of the byte. *)
Lemma crc_byte_inj c c' b b' :
  0 <= c < 2 ^ 32 -> 0 <= c' < 2 ^ 32 -> is_byte b -> is_byte b' -> crc_byte c b = crc_byte c' b' -> Z.lxor c b = Z.lxor c' b'.
Proof.
  unfold is_byte, crc_byte. intros Hc Hc' Hb Hb' E. apply Z.lxor_eq. apply (crc_bits_zero 8).
  - apply lxor_range; apply lxor_range; lia.
  - rewrite crc_bits_lxor, E. apply Z.lxor_nilpotent.
Qed.

Lemma lxor_cancel_r a b c : Z.lxor a c = Z.lxor b c -> a = b.
Proof. intros E. rewrite <- (Z.lxor_0_r a), <- (Z.lxor_0_r b), <- (Z.lxor_nilpotent c), <- !Z.lxor_assoc. by rewrite E. Qed.

Lemma foldl_crc_range p c : is_bytes p -> 0 <= c < 2 ^ 32 -> 0 <= foldl crc_byte c p < 2 ^ 32.
Proof. intros Hp. revert c. induction Hp as [|b p Hb _ IH]; intros c Hc; [done|]. cbn [foldl]. by apply IH, crc_byte_range. Qed.

Lemma foldl_crc_inj p c c' :
  is_bytes p -> 0 <= c < 2 ^ 32 -> 0 <= c' < 2 ^ 32 -> foldl crc_byte c p = foldl crc_byte c' p -> c = c'.
Proof.
  intros Hp. revert c c'. induction Hp as [|b p Hb _ IH]; intros c c' Hc Hc' E; [done|]. cbn [foldl] in E.
  apply IH in E; [|by apply crc_byte_range..]. apply crc_byte_inj in E; [|done..]. by apply lxor_cancel_r in E.
Qed.

(** Two texts that differ in one byte have different checksums. *)
Theorem crc32_detects a x y b :
  is_bytes (a ++ x :: b) -> is_byte y -> x <> y -> ngx_crc32_short (a ++ x :: b) <> ngx_crc32_short (a ++ y :: b).
Proof.
  intros [Ha [Hx Hb]%Forall_cons]%Forall_app Hy Hne E. unfold ngx_crc32_short in E.
  rewrite !crc_short_loop_correct in E by (by repeat first [apply Forall_app; split|apply Forall_cons; split]).
  injection E as E%lxor_cancel_r. rewrite !foldl_app in E. cbn [foldl] in E.
  pose proof (foldl_crc_range a 0xffffffff Ha ltac:(lia)) as Hr.
  apply foldl_crc_inj in E; [|done|by apply crc_byte_range..]. apply crc_byte_inj in E; [|done..].
  rewrite !(Z.lxor_comm _ x), !(Z.lxor_comm _ y) in E. by apply lxor_cancel_r in E.
Qed.
