(* ===== verification/NgxInet.v ===== *)
(** Textual addresses: src/core/ngx_inet.c.

    A text is the list of its bytes.  An [in_addr_t] is the number whose memory bytes,
    least significant first as on the platforms of the build, are the four bytes of the
    address in network order; [htonl] and [ntohl] reverse the bytes.  The address that
    [ngx_inet6_addr] writes is a buffer of 16 bytes; a write outside of it is [None]. *)

From S2P Require Import Prelude NgxNumber NgxSprintf NgxStr.

Open Scope Z_scope.

Definition INADDR_NONE : Z := 0xffffffff.

Definition htonl (x : Z) : Z :=
  Z.lor (Z.shiftl (Z.land x 0xff) 24)
    (Z.lor (Z.shiftl (Z.land (Z.shiftr x 8) 0xff) 16)
       (Z.lor (Z.shiftl (Z.land (Z.shiftr x 16) 0xff) 8) (Z.land (Z.shiftr x 24) 0xff))).

Definition ntohl (x : Z) : Z := htonl x.

(** * IPv4 *)

(** The loop of [ngx_inet_addr]; [None] is [return INADDR_NONE]. *)
Fixpoint inet_loop (text : list Z) (addr octet n : Z) : option (Z * Z * Z) :=
  match text with
  | [] => Some (addr, octet, n)
  | c :: text' =>
      if ("0"%cc <=? c) && (c <=? "9"%cc) then inet_loop text' addr (u64 (octet * 10 + (c - "0"%cc))) n
      else if (c =? "."%cc) && (octet <? 256) then inet_loop text' (u32 (u32 (Z.shiftl addr 8) + octet)) 0 (n + 1)
      else None
  end.

Definition ngx_inet_addr (text : list Z) : Z :=
  match inet_loop text 0 0 0 with
  | None => INADDR_NONE
  | Some (addr, octet, n) =>
      if negb (n =? 3) then INADDR_NONE
      else if octet <? 256 then htonl (u32 (u32 (Z.shiftl addr 8) + octet))
      else INADDR_NONE
  end.

(** * IPv6 *)

(** [*addr++ = byte]: the buffer and the offset of [addr] in it. *)
Definition put_byte (byte : Z) (dst : list Z * Z) : option (list Z * Z) :=
  let '(buf, addr) := dst in
  if (0 <=? addr) && (addr <? Z.of_nat (length buf)) then Some (<[Z.to_nat addr := u8 byte]> buf, addr + 1) else None.

Definition put_word (hi lo : Z) (dst : list Z * Z) : option (list Z * Z) :=
  dst ← put_byte hi dst; put_byte lo dst.

(** The variables of [ngx_inet6_addr]: [zero] is an offset in the buffer, [digit] the
    [len4 - 1] bytes of text that start at [digit]. *)
Record inet6_vars := mk_inet6 {
  i6_dst : list Z * Z;
  i6_zero : option Z;
  i6_digit : option (list Z);
  i6_nibbles : Z;
  i6_word : Z;
  i6_n : Z;
}.

Inductive inet6_result :=
| I6_error
| I6_end (v : inet6_vars).

(** [if (c == ':')]: [inl] to go on, [inr] to return. *)
Definition inet6_colon (rest : list Z) (v : inet6_vars) : option (inet6_vars + inet6_result) :=
  if negb (i6_nibbles v =? 0) then
    dst ← put_word (Z.shiftr (i6_word v) 8) (Z.land (i6_word v) 0xff) (i6_dst v);
    if negb (i6_n v - 1 =? 0)
    then Some (inl (mk_inet6 dst (i6_zero v) (Some rest) 0 0 (i6_n v - 1)))
    else Some (inr I6_error)
  else match i6_zero v with
       | None => Some (inl (mk_inet6 (i6_dst v) (Some (i6_dst v).2) (Some rest) (i6_nibbles v) (i6_word v) (i6_n v)))
       | Some _ => Some (inr I6_error)
       end.

(** [if (c == '.' && nibbles)] *)
Definition inet6_dotted (v : inet6_vars) : option inet6_result :=
  if i6_n v <? 2 then Some I6_error
  else match i6_digit v with
       | None => Some I6_error
       | Some digit =>
           let word := ngx_inet_addr digit in
           if word =? INADDR_NONE then Some I6_error
           else
             let word := ntohl word in
             dst ← put_word (Z.land (Z.shiftr word 24) 0xff) (Z.land (Z.shiftr word 16) 0xff) (i6_dst v);
             Some (I6_end (mk_inet6 dst (i6_zero v) (i6_digit v) (i6_nibbles v) word (i6_n v - 1)))
       end.

Fixpoint inet6_loop (p : list Z) (v : inet6_vars) : option inet6_result :=
  match p with
  | [] => Some (I6_end v)
  | c :: p' =>
      if c =? ":"%cc then
        match inet6_colon p' v with
        | Some (inl v) => inet6_loop p' v
        | Some (inr res) => Some res
        | None => None
        end
      else if (c =? "."%cc) && negb (i6_nibbles v =? 0) then inet6_dotted v
      else
        let nibbles := i6_nibbles v + 1 in
        if 4 <? nibbles then Some I6_error
        else
          let next word := mk_inet6 (i6_dst v) (i6_zero v) (i6_digit v) nibbles word (i6_n v) in
          if ("0"%cc <=? c) && (c <=? "9"%cc) then inet6_loop p' (next (u64 (i6_word v * 16 + (c - "0"%cc))))
          else
            let c := Z.lor c 0x20 in
            if ("a"%cc <=? c) && (c <=? "f"%cc) then inet6_loop p' (next (u64 (i6_word v * 16 + (c - "a"%cc) + 10)))
            else Some I6_error
  end.

(** [while (s >= zero) { *d-- = *s--; }], [k] turns at most. *)
Fixpoint shift_loop (k : nat) (buf : list Z) (s d zero : Z) : option (list Z) :=
  if s <? zero then Some buf
  else match k with
  | O => None
  | S k' =>
      x ← rd buf s;
      '(buf, _) ← put_byte x (buf, d);
      shift_loop k' buf (s - 1) (d - 1) zero
  end.

(** [ngx_memzero(zero, n)] *)
Fixpoint memzero (n : nat) (buf : list Z) (at_ : Z) : option (list Z) :=
  match n with
  | O => Some buf
  | S n' => '(buf, at_) ← put_byte 0 (buf, at_); memzero n' buf at_
  end.

Definition inet6_finish (v : inet6_vars) : option (Z * list Z) :=
  if (i6_nibbles v =? 0) && match i6_zero v with None => true | Some _ => false end then Some (NGX_ERROR, (i6_dst v).1)
  else
    '(buf, addr) ← put_word (Z.shiftr (i6_word v) 8) (Z.land (i6_word v) 0xff) (i6_dst v);
    let n := i6_n v - 1 in
    match i6_zero v with
    | Some zero =>
        if negb (n =? 0) then
          let n := n * 2 in
          buf ← shift_loop 16 buf (addr - 1) (addr - 1 + n) zero;
          buf ← memzero (Z.to_nat n) buf zero;
          Some (NGX_OK, buf)
        else Some (NGX_ERROR, buf)
    | None => if negb (n =? 0) then Some (NGX_ERROR, buf) else Some (NGX_OK, buf)
    end.

(** The result and the buffer; [I6_error] leaves a buffer that is not used. *)
Definition ngx_inet6_addr (p : list Z) (addr : list Z) : option (Z * list Z) :=
  match p with
  | [] => Some (NGX_ERROR, addr)
  | c :: p' =>
      let p := if c =? ":"%cc then p' else p in
      res ← inet6_loop p (mk_inet6 (addr, 0) None None 0 0 8);
      match res with
      | I6_error => Some (NGX_ERROR, addr)
      | I6_end v => inet6_finish v
      end
  end.

(** * Writing addresses *)

Definition NGX_INET6_ADDRSTRLEN : Z := 45.
(** [(ngx_uint_t) -1] *)
Definition NO_ZERO : Z := 2 ^ 64 - 1.

(** The longest run of zero words; [k] is the number of words left. *)
Fixpoint zero_run (k : nat) (p : list Z) (i zero last max n : Z) : option (Z * Z) :=
  match k with
  | O => Some (if max <? n then (last, n) else (zero, max))
  | S k' =>
      a ← rd p i; b ← rd p (i + 1);
      if negb (a =? 0) || negb (b =? 0) then
        let '(zero, max) := if max <? n then (last, n) else (zero, max) in
        zero_run k' p (i + 2) zero last max 0
      else zero_run k' p (i + 2) zero (if n =? 0 then i else last) max (n + 1)
  end.

(** The loop over the words, [k] turns at most; [buf] is the address of [dst]. *)
Fixpoint words_loop (k : nat) (buf : Z) (p : list Z) (i n zero max : Z) : option (list Z) :=
  if n <=? i then Some []
  else match k with
  | O => None
  | S k' =>
      if i =? zero then cons ":"%cc <$> words_loop k' buf p (i + (max - 1) * 2 + 2) n zero max
      else
        a ← rd p i; b ← rd p (i + 1);
        out ← ngx_sprintf buf (cstr "%uxi") [va_int (a * 256 + b)];
        let sep : list Z := if i <? 14 then [":"%cc] else [] in
        rest ← words_loop k' buf p (i + 2) n zero max;
        Some (out ++ sep ++ rest)
  end.

(** The condition for the last four bytes to be written as an IPv4 address. *)
Definition v4_form (p : list Z) (max : Z) : option bool :=
  p10 ← rd p 10; p11 ← rd p 11; p14 ← rd p 14; p15 ← rd p 15;
  Some (((max =? 5) && (p10 =? 0xff) && (p11 =? 0xff)) || (max =? 6) || ((max =? 7) && negb (p14 =? 0) && negb (p15 =? 1))).

Definition dotted (buf : Z) (p : list Z) (i : Z) : option (list Z) :=
  a ← rd p i; b ← rd p (i + 1); c ← rd p (i + 2); d ← rd p (i + 3);
  ngx_sprintf buf (cstr "%ud.%ud.%ud.%ud") [va_int a; va_int b; va_int c; va_int d].

(** The text of the address [p] when [len] bytes are available for it at [buf]. *)
Definition ngx_inet6_ntop (buf : Z) (p : list Z) (len : Z) : option (list Z) :=
  if len <? NGX_INET6_ADDRSTRLEN then Some []
  else
    '(zero, max) ← zero_run 8 p 0 NO_ZERO NO_ZERO 1 0;
    v4 ← (if zero =? 0 then v4_form p max else Some false);
    let n := if (v4 : bool) then 12 else 16 in
    words ← words_loop 9 buf p 0 n zero max;
    tail ← (if n =? 12 then dotted buf p 12 else Some []);
    let head : list Z := if zero =? 0 then [":"%cc] else [] in
    Some (head ++ words ++ tail).

(** [ngx_inet_ntop] for [AF_INET]. *)
Definition ngx_inet_ntop (p : list Z) (len : Z) : option (list Z) :=
  a ← rd p 0; b ← rd p 1; c ← rd p 2; d ← rd p 3;
  ngx_snprintf len (cstr "%ud.%ud.%ud.%ud") [va_int a; va_int b; va_int c; va_int d].

(** * Prefixes *)

Definition AF_INET : Z := 2.
Definition AF_INET6 : Z := 10.

Inductive ngx_cidr_t :=
| cidr_in (addr mask : Z)
| cidr_in6 (addr mask : list Z).

(** The loop over the bytes of an IPv6 prefix: the bytes of the address and of the mask,
    and whether a bit was cleared. *)
Fixpoint cidr6_loop (addr : list Z) (shift : Z) : list Z * list Z * bool :=
  match addr with
  | [] => ([], [], false)
  | a :: addr' =>
      let s := if 8 <? shift then 8 else shift in
      let mask := u8 (0 - Z.shiftl 1 (8 - s)) in
      let '(addrs, masks, cleared) := cidr6_loop addr' (shift - s) in
      (Z.land a mask :: addrs, mask :: masks, negb (a =? Z.land a mask) || cleared)
  end.

(** The result and the prefix; [None] stands for the undefined shift by a negative
    count when an IPv4 prefix is longer than 32. *)
Definition ngx_ptocidr (text : list Z) : option (Z * option ngx_cidr_t) :=
  let mask := ngx_strlchr text "/"%cc in
  let host := match mask with Some m => take m text | None => text end in
  let addr := ngx_inet_addr host in
  let with_mask (k : Z -> option (Z * option ngx_cidr_t)) :=
    match mask with
    | None => None
    | Some m =>
        let shift := ngx_atoi (drop (S m) text) in
        if shift =? NGX_ERROR then Some (NGX_ERROR, None) else k shift
    end in
  if negb (addr =? INADDR_NONE) then
    match mask with
    | None => Some (NGX_OK, Some (cidr_in addr 0xffffffff))
    | Some _ =>
        with_mask (fun shift =>
          if 32 <? shift then None
          else
            let m := if negb (shift =? 0) then htonl (u32 (0 - Z.shiftl 1 (32 - shift))) else 0 in
            if addr =? Z.land addr m then Some (NGX_OK, Some (cidr_in addr m))
            else Some (NGX_DONE, Some (cidr_in (Z.land addr m) m)))
    end
  else
    '(rc, addr6) ← ngx_inet6_addr host (replicate 16 0);
    if rc =? NGX_OK then
      match mask with
      | None => Some (NGX_OK, Some (cidr_in6 addr6 (replicate 16 0xff)))
      | Some _ =>
          with_mask (fun shift =>
            let '(a, m, cleared) := cidr6_loop addr6 shift in
            Some (if cleared then NGX_DONE else NGX_OK, Some (cidr_in6 a m)))
      end
    else Some (NGX_ERROR, None).

(** * What [ngx_inet_addr] accepts *)

(** The pieces of a text between its dots. *)
Fixpoint split_dots (text : list Z) : list (list Z) :=
  match text with
  | [] => [[]]
  | c :: text' =>
      if c =? "."%cc then [] :: split_dots text'
      else match split_dots text' with p :: ps => (c :: p) :: ps | [] => [[c]] end
  end.

(** The value of a piece that extends the number [v], as 64 bits hold it. *)
Definition piece_value (v : Z) (p : list Z) : option Z :=
  if forallb is_digit p then Some (u64 (num_acc 10 dec_val v p)) else None.

Definition octet (p : list Z) : option Z :=
  v ← piece_value 0 p; if v <? 256 then Some v else None.

(** Four octets, most significant first, as the number [ngx_inet_addr] returns. *)
Definition network_order (a b c d : Z) : Z := a + 256 * b + 65536 * c + 16777216 * d.

Definition inet_spec (text : list Z) : Z :=
  match mapM octet (split_dots text) with
  | Some [a; b; c; d] => network_order a b c d
  | _ => INADDR_NONE
  end.

(** The loop, over the values of the pieces. *)
Fixpoint fold_pieces (addr n : Z) (v : option Z) (ps : list (list Z)) : option (Z * Z * Z) :=
  match v with
  | None => None
  | Some o =>
      match ps with
      | [] => Some (addr, o, n)
      | p :: ps' => if o <? 256 then fold_pieces (u32 (u32 (Z.shiftl addr 8) + o)) (n + 1) (piece_value 0 p) ps' else None
      end
  end.

Lemma split_dots_cons text : exists p ps, split_dots text = p :: ps.
Proof. induction text as [|c text (p & ps & IH)]; cbn; [by eexists _, _|].
  destruct (c =? _); [by eexists _, _|]. rewrite IH. by eexists _, _.
Qed.

Lemma inet_loop_pieces text addr v n :
  inet_loop text addr (u64 v) n =
  match split_dots text with p :: ps => fold_pieces addr n (piece_value v p) ps | [] => None end.
Proof.
  revert addr v n. induction text as [|c text IH]; intros addr v n; [done|]. cbn [inet_loop split_dots].
  fold (is_digit c). destruct (is_digit c) eqn:Ed.
  - replace (c =? "."%cc) with false by (unfold is_digit in Ed; lia).
    rewrite wrap_lin, IH. destruct (split_dots_cons text) as (p & ps & ->). f_equal.
    unfold piece_value. cbn [forallb]. by rewrite Ed.
  - destruct (c =? "."%cc) eqn:Edot.
    + unfold piece_value at 1. cbn [forallb fold_pieces]. rewrite andb_true_l. unfold num_acc at 1.
      destruct (split_dots_cons text) as (p & ps & E). rewrite E. cbn [fold_pieces fold_left].
      destruct (u64 v <? 256); cbn [andb]; [|done]. change 0 with (u64 0) at 1. by rewrite IH, E.
    + rewrite andb_false_l. destruct (split_dots_cons text) as (p & ps & ->).
      unfold piece_value. cbn [forallb]. rewrite Ed. by destruct ps.
Qed.

Lemma htonl_bytes x :
  htonl x = network_order ((x / 2 ^ 24) mod 256) ((x / 2 ^ 16) mod 256) ((x / 2 ^ 8) mod 256) (x mod 256).
Proof.
  unfold htonl, network_order. rewrite !Z.shiftr_div_pow2 by lia.
  change 0xff with (2 ^ 8 - 1). rewrite !land_ones_mod by lia. change (2 ^ 8) with 256.
  assert (forall y, 0 <= y mod 256 < 256) as Hb by (intros; by apply Z.mod_pos_bound).
  rewrite (lor_shiftl_add (x / 2 ^ 16 mod 256)) by (pose proof (Hb (x / 2 ^ 24)); lia).
  rewrite (lor_shiftl_add (x / 256 mod 256)) by (pose proof (Hb (x / 2 ^ 24)); pose proof (Hb (x / 2 ^ 16)); lia).
  rewrite lor_shiftl_add by (pose proof (Hb (x / 2 ^ 24)); pose proof (Hb (x / 2 ^ 16)); pose proof (Hb (x / 256)); lia).
  lia.
Qed.

Lemma htonl_octets a b c d :
  0 <= a < 256 -> 0 <= b < 256 -> 0 <= c < 256 -> 0 <= d < 256 ->
  htonl (((a * 256 + b) * 256 + c) * 256 + d) = network_order a b c d.
Proof. intros. rewrite htonl_bytes. f_equal; Z.to_euclidean_division_equations; lia. Qed.

Lemma fold_pieces_length addr n v ps addr' o n' :
  fold_pieces addr n v ps = Some (addr', o, n') -> n' = n + Z.of_nat (length ps).
Proof.
  revert addr n v. induction ps as [|p ps IH]; intros addr n [v|]; cbn; try done.
  - intros [= -> -> ->]. lia.
  - case_match; [|done]. intros E%IH. lia.
Qed.

Lemma octet_range p o : octet p = Some o -> 0 <= o < 256.
Proof.
  unfold octet, piece_value. destruct (forallb is_digit p); cbn; [|done].
  destruct (Z.ltb_spec (u64 (num_acc 10 dec_val 0 p)) 256); [|done]. intros [= <-].
  pose proof (wrap_range 64 (num_acc 10 dec_val 0 p)). lia.
Qed.

Lemma fold_pieces_octet addr n p p' ps :
  fold_pieces addr n (piece_value 0 p) (p' :: ps) =
  (o ← octet p; fold_pieces (u32 (u32 (Z.shiftl addr 8) + o)) (n + 1) (piece_value 0 p') ps).
Proof. unfold octet. cbn [fold_pieces]. destruct (piece_value 0 p) as [v|]; cbn; [|done]. by destruct (v <? 256). Qed.

(** The value of the last piece, checked at the end. *)
Definition inet_end (r : option (Z * Z * Z)) : option Z :=
  '(addr, o, n) ← r;
  if negb (n =? 3) then None else if o <? 256 then Some (htonl (u32 (u32 (Z.shiftl addr 8) + o))) else None.

Lemma add_octet addr o : 0 <= addr < 2 ^ 24 -> 0 <= o < 256 -> u32 (u32 (Z.shiftl addr 8) + o) = addr * 256 + o.
Proof. intros. rewrite Z.shiftl_mul_pow2 by lia. rewrite (wrap_small 32 (_ * _)) by lia. by rewrite wrap_small by lia. Qed.

Lemma inet_end_octet addr p :
  inet_end (fold_pieces addr 3 (piece_value 0 p) []) = (o ← octet p; Some (htonl (u32 (u32 (Z.shiftl addr 8) + o)))).
Proof. unfold octet. destruct (piece_value 0 p) as [v|]; cbn; [|done]. by destruct (v <? 256). Qed.

Lemma fold_four p1 p2 p3 p4 :
  inet_end (fold_pieces 0 0 (piece_value 0 p1) [p2; p3; p4]) =
  match mapM octet [p1; p2; p3; p4] with Some [a; b; c; d] => Some (network_order a b c d) | _ => None end.
Proof.
  rewrite fold_pieces_octet. cbn [mapM].
  destruct (octet p1) as [a|] eqn:E1; cbn [mbind option_bind]; [|done]. rewrite fold_pieces_octet.
  destruct (octet p2) as [b|] eqn:E2; cbn [mbind option_bind]; [|done]. rewrite fold_pieces_octet.
  destruct (octet p3) as [c|] eqn:E3; cbn [mbind option_bind]; [|done].
  change (0 + 1 + 1 + 1) with 3. rewrite inet_end_octet.
  destruct (octet p4) as [d|] eqn:E4; cbn [mbind option_bind mret option_ret]; [|done].
  apply octet_range in E1, E2, E3, E4. rewrite (add_octet 0 a), (add_octet _ b), (add_octet _ c), (add_octet _ d) by lia.
  f_equal. by rewrite <- htonl_octets by lia.
Qed.

Lemma mapM_octet_length l os : mapM octet l = Some os -> length os = length l.
Proof. intros E. symmetry. apply mapM_Some in E. by eapply Forall2_length. Qed.

Lemma inet_addr_spec text : ngx_inet_addr text = inet_spec text.
Proof.
  assert (ngx_inet_addr text = default INADDR_NONE (inet_end (inet_loop text 0 (u64 0) 0))) as ->.
  { unfold ngx_inet_addr, inet_end. change (u64 0) with 0. destruct (inet_loop text 0 0 0) as [[[addr o] n]|]; cbn; [|done].
    destruct (negb _); [done|]. by destruct (o <? 256). }
  rewrite inet_loop_pieces. unfold inet_spec.
  destruct (split_dots_cons text) as (p & ps & ->).
  destruct (decide (length ps = 3%nat)) as [Hl|Hl].
  - destruct ps as [|p2 [|p3 [|p4 [|]]]]; try done. rewrite fold_four. destruct (mapM octet _) as [[|a [|b [|c [|d [|]]]]]|]; done.
  - destruct (fold_pieces 0 0 _ ps) as [[[addr o] n]|] eqn:E.
    + apply fold_pieces_length in E. unfold inet_end. cbn [mbind option_bind]. replace (n =? 3) with false by lia.
      cbn [negb].
      destruct (mapM octet (p :: ps)) as [os|] eqn:Eo; [|done]. apply mapM_octet_length in Eo. cbn in Eo.
      destruct os as [|a [|b [|c [|d [|]]]]]; try done. cbn in Eo. lia.
    + cbn [inet_end mbind option_bind default].
      destruct (mapM octet (p :: ps)) as [os|] eqn:Eo; [|done]. apply mapM_octet_length in Eo. cbn in Eo.
      destruct os as [|a [|b [|c [|d [|]]]]]; try done. cbn in Eo. lia.
Qed.

(** [ngx_inet_addr] returns the address that four numbers between three dots spell,
    each of decimal digits only and, as 64 bits hold it, less than 256, and
    [INADDR_NONE] for every other text. *)
Theorem inet_addr_correct text : ngx_inet_addr text = inet_spec text.
Proof. apply inet_addr_spec. Qed.

(** A number may be empty, and one of 65 bits or more is taken modulo 2^64. *)
Theorem inet_addr_lenient :
  ngx_inet_addr (cstr "...") = 0 /\ ngx_inet_addr (cstr "18446744073709551743.0.0.1") = network_order 127 0 0 1.
Proof. done. Qed.

(** * Writing and reading IPv4 addresses *)

Definition dec (a : Z) : list Z := default [] (number_digits a 0).
Definition hex (w : Z) : list Z := default [] (number_digits w 1).

Definition dec_ok (a : Z) : bool :=
  match number_digits a 0 with
  | Some d => (0 <? Z.of_nat (length d)) && (Z.of_nat (length d) <=? 3) && forallb is_digit d && (dec_value d =? a)
  | None => false
  end.

Lemma below_forall (n : nat) (P : Z -> bool) :
  forallb P (Z.of_nat <$> seq 0 n) = true -> forall a, 0 <= a < Z.of_nat n -> P a = true.
Proof.
  rewrite forallb_forall. intros H a Ha. apply H. apply list_elem_of_In, list_elem_of_fmap.
  exists (Z.to_nat a). split; [lia|]. apply elem_of_seq. lia.
Qed.

Lemma dec_props a :
  0 <= a < 256 ->
  number_digits a 0 = Some (dec a) /\ 1 <= Z.of_nat (length (dec a)) <= 3 /\ forallb is_digit (dec a) = true /\ dec_value (dec a) = a.
Proof.
  intros Ha. assert (dec_ok a = true) as H.
  { apply (below_forall 256 dec_ok); [|lia]. vm_compute. reflexivity. }
  unfold dec_ok, dec in *. destruct (number_digits a 0) as [d|]; [|done]. cbn [default from_option id].
  rewrite !andb_true_iff in H. destruct H as [[[??]?]?]. split_and!; try done; lia.
Qed.

Lemma print_ud room rest args a :
  0 <= a < 256 -> 3 <= room ->
  run_directive room ("u"%cc :: "d"%cc :: rest) (va_int a :: args) = Some (dec a, rest, args).
Proof.
  intros Ha Hr. destruct (dec_props a Ha) as (Hd & Hl & _ & _). unfold run_directive. cbn -[ngx_sprintf_num Z.of_nat dec].
  unfold conversion. cbn -[ngx_sprintf_num dec]. unfold write_number. cbn -[ngx_sprintf_num dec].
  rewrite (wrap_small 32) by lia. rewrite (wrap_small 64) by lia. rewrite (sprintf_num_full _ _ _ _ _ (dec a)) by (done || lia).
  cbn. replace (Z.to_nat _) with 0%nat by lia. done.
Qed.

Definition dotted_text (a b c d : Z) : list Z := dec a ++ "."%cc :: dec b ++ "."%cc :: dec c ++ "."%cc :: dec d.

Lemma print_ud_step fuel room rest args a :
  0 <= a < 256 -> 3 <= room ->
  vslprintf_loop (S fuel) room ("%"%cc :: "u"%cc :: "d"%cc :: rest) (va_int a :: args) =
  (tail ← vslprintf_loop fuel (room - Z.of_nat (length (dec a))) rest args; Some (dec a ++ tail)).
Proof.
  intros Ha Hr. cbn [vslprintf_loop]. destruct (Z.leb_spec room 0); [lia|]. cbn [Z.eqb Pos.eqb]. by rewrite print_ud.
Qed.

Lemma vslprintf_char fuel room c rest args :
  0 < room -> c <> "%"%cc ->
  vslprintf_loop (S fuel) room (c :: rest) args = (tail ← vslprintf_loop fuel (room - 1) rest args; Some (c :: tail)).
Proof.
  intros Hr E. cbn [vslprintf_loop]. destruct (Z.leb_spec room 0); [lia|]. by destruct (Z.eqb_spec c "%"%cc).
Qed.

Lemma print_dotted room a b c d :
  0 <= a < 256 -> 0 <= b < 256 -> 0 <= c < 256 -> 0 <= d < 256 -> 15 <= room ->
  ngx_vslprintf room (cstr "%ud.%ud.%ud.%ud") [va_int a; va_int b; va_int c; va_int d] = Some (dotted_text a b c d).
Proof.
  intros Ha Hb Hc Hd Hr. unfold ngx_vslprintf.
  change (cstr "%ud.%ud.%ud.%ud") with ["%"%cc; "u"%cc; "d"%cc; "."%cc; "%"%cc; "u"%cc; "d"%cc; "."%cc; "%"%cc; "u"%cc; "d"%cc;
    "."%cc; "%"%cc; "u"%cc; "d"%cc]. cbn [length].
  pose proof (dec_props a Ha) as (_ & ? & _). pose proof (dec_props b Hb) as (_ & ? & _).
  pose proof (dec_props c Hc) as (_ & ? & _). pose proof (dec_props d Hd) as (_ & ? & _).
  do 3 (rewrite print_ud_step by lia; rewrite vslprintf_char by (done || lia)). rewrite print_ud_step by lia.
  cbn [vslprintf_loop mbind option_bind]. unfold dotted_text. by rewrite app_nil_r.
Qed.

(** The pieces of a dotted text. *)
Lemma split_dots_digits d text :
  forallb is_digit d = true -> split_dots (d ++ "."%cc :: text) = d :: split_dots text.
Proof.
  induction d as [|c d IH]; cbn [app split_dots forallb]; [done|]. rewrite andb_true_iff. intros [Hc Hd].
  replace (c =? "."%cc) with false by (unfold is_digit in Hc; lia). by rewrite IH.
Qed.

Lemma split_dots_last d : forallb is_digit d = true -> split_dots d = [d].
Proof.
  induction d as [|c d IH]; cbn [split_dots forallb]; [done|]. rewrite andb_true_iff. intros [Hc Hd].
  replace (c =? "."%cc) with false by (unfold is_digit in Hc; lia). by rewrite IH.
Qed.

Lemma octet_dec a : 0 <= a < 256 -> octet (dec a) = Some a.
Proof.
  intros Ha. destruct (dec_props a Ha) as (_ & _ & Hd & Hv). unfold octet, piece_value. rewrite Hd. cbn [mbind option_bind].
  unfold dec_value in Hv. rewrite Hv, wrap_small by lia. by destruct (Z.ltb_spec a 256); [|lia].
Qed.

Lemma inet_addr_dotted a b c d :
  0 <= a < 256 -> 0 <= b < 256 -> 0 <= c < 256 -> 0 <= d < 256 -> ngx_inet_addr (dotted_text a b c d) = network_order a b c d.
Proof.
  intros Ha Hb Hc Hd. rewrite inet_addr_spec. unfold inet_spec, dotted_text.
  rewrite !split_dots_digits, split_dots_last by (eapply dec_props; eassumption).
  cbn [mapM]. by rewrite !octet_dec by done.
Qed.

(** IPv4 addresses survive being written and read: with room for 15 bytes
    [ngx_inet_ntop] writes a text of at most 15 bytes that [ngx_inet_addr] reads as the
    same four bytes. *)
Theorem inet_roundtrip a b c d len :
  is_bytes [a; b; c; d] -> 15 <= len ->
  exists text, ngx_inet_ntop [a; b; c; d] len = Some text /\ Z.of_nat (length text) <= 15 /\
    ngx_inet_addr text = network_order a b c d.
Proof.
  intros Hb Hl. repeat (apply Forall_cons in Hb as [? Hb]). unfold is_byte in *.
  exists (dotted_text a b c d). split; [by apply print_dotted|]. split; [|by apply inet_addr_dotted].
  unfold dotted_text. rewrite !length_app. cbn [length]. rewrite !length_app. cbn [length]. rewrite !length_app. cbn [length].
  pose proof (dec_props a). pose proof (dec_props b). pose proof (dec_props c). pose proof (dec_props d). naive_solver lia.
Qed.

Example inet_roundtrip_witness :
  exists text, ngx_inet_ntop [192; 168; 0; 255] 15 = Some text /\ Z.of_nat (length text) <= 15 /\
    ngx_inet_addr text = network_order 192 168 0 255.
Proof.
  apply (inet_roundtrip 192 168 0 255 15); [|lia].
  repeat (apply Forall_cons_2; [unfold is_byte; lia|]). apply Forall_nil_2.
Defined.

(** * The buffer of an IPv6 address *)

Lemma put_byte_at pre x post b a :
  a = Z.of_nat (length pre) -> put_byte b (pre ++ x :: post, a) = Some (pre ++ u8 b :: post, a + 1).
Proof.
  intros ->. unfold put_byte. rewrite length_app. cbn [length].
  destruct (Z.leb_spec 0 (Z.of_nat (length pre))); [|lia].
  destruct (Z.ltb_spec (Z.of_nat (length pre)) (Z.of_nat (length pre + S (length post)))); [|lia]. cbn [andb].
  by rewrite Nat2Z.id, insert_app_r_alt, Nat.sub_diag by lia.
Qed.

(** A word is written where two bytes are left. *)
Lemma put_word_at pre x y post hi lo a :
  a = Z.of_nat (length pre) ->
  put_word hi lo (pre ++ x :: y :: post, a) = Some ((pre ++ [u8 hi; u8 lo]) ++ post, a + 2).
Proof.
  intros ->. unfold put_word. rewrite put_byte_at by done. cbn [mbind option_bind].
  change (pre ++ u8 hi :: y :: post) with (pre ++ [u8 hi] ++ y :: post). rewrite app_assoc, put_byte_at by (rewrite length_app; cbn; lia).
  rewrite <- !app_assoc. cbn [app]. do 2 f_equal. lia.
Qed.

Lemma rd_at pre x post : rd (pre ++ x :: post) (Z.of_nat (length pre)) = Some x.
Proof. rewrite <- (Z.add_0_r (Z.of_nat _)). change 0 with (Z.of_nat 0). by rewrite rd_app_r. Qed.

(** [mid] is moved up by the length of [rest]. *)
Lemma shift_loop_moves k pre mid rest post :
  (length mid <= k)%nat ->
  exists junk, length junk = length rest /\
    shift_loop k (pre ++ mid ++ rest ++ post) (Z.of_nat (length pre + length mid) - 1)
      (Z.of_nat (length pre + length mid) - 1 + Z.of_nat (length rest)) (Z.of_nat (length pre))
    = Some (pre ++ junk ++ (wrap 8 <$> mid) ++ post).
Proof.
  revert k rest post. induction mid as [|x mid IH] using rev_ind; intros k rest post Hk.
  { exists rest. split; [done|]. cbn [length app fmap list_fmap]. destruct k; cbn [shift_loop]; by destruct (Z.ltb_spec (Z.of_nat (length pre + 0) - 1) (Z.of_nat (length pre))); [|lia]. }
  rewrite length_app in *. cbn [length] in *. destruct k as [|k]; [lia|]. cbn [shift_loop].
  destruct (Z.ltb_spec (Z.of_nat (length pre + (length mid + 1)) - 1) (Z.of_nat (length pre))); [lia|].
  destruct (exists_last (l := x :: rest)) as (r & y & Hr); [done|].
  assert (length r = length rest) as Hlr by (apply (f_equal length) in Hr; rewrite length_app in Hr; cbn in Hr; lia).
  replace (pre ++ (mid ++ [x]) ++ rest ++ post) with ((pre ++ mid) ++ x :: rest ++ post) by (by rewrite <- !app_assoc).
  replace (Z.of_nat (length pre + (length mid + 1)) - 1) with (Z.of_nat (length (pre ++ mid))) by (rewrite length_app; lia).
  rewrite rd_at. cbn [mbind option_bind].
  change (x :: rest ++ post) with ((x :: rest) ++ post). rewrite Hr.
  replace ((pre ++ mid) ++ (r ++ [y]) ++ post) with ((pre ++ mid ++ r) ++ y :: post) by (by rewrite <- !app_assoc).
  rewrite put_byte_at by (rewrite !length_app; lia). cbn [mbind option_bind].
  destruct (IH k r (u8 x :: post)) as (junk & Hj & E); [lia|]. exists junk. split; [lia|].
  rewrite <- !app_assoc. rewrite fmap_app, <- app_assoc. cbn [fmap list_fmap app].
  rewrite length_app. replace (Z.of_nat (length pre + length mid) + Z.of_nat (length rest) - 1) with
    (Z.of_nat (length pre + length mid) - 1 + Z.of_nat (length r)) by lia. exact E.
Qed.

Lemma memzero_fills pre junk post :
  memzero (length junk) (pre ++ junk ++ post) (Z.of_nat (length pre)) = Some (pre ++ replicate (length junk) 0 ++ post).
Proof.
  revert pre. induction junk as [|x junk IH]; intros pre; [done|]. cbn [length memzero app replicate].
  rewrite put_byte_at by done. cbn [mbind option_bind]. change (u8 0) with 0.
  replace (pre ++ 0 :: junk ++ post) with ((pre ++ [0]) ++ junk ++ post) by (by rewrite <- app_assoc).
  replace (Z.of_nat (length pre) + 1) with (Z.of_nat (length (pre ++ [0]))) by (rewrite length_app; cbn; lia).
  rewrite IH. by rewrite <- app_assoc.
Qed.

(** Together they insert [n] zeros at [zero]. *)
Lemma insert_zeros pre mid rest n :
  Z.of_nat (length rest) = n -> (length mid <= 16)%nat ->
  (buf ← shift_loop 16 (pre ++ mid ++ rest) (Z.of_nat (length pre + length mid) - 1) (Z.of_nat (length pre + length mid) - 1 + n) (Z.of_nat (length pre));
   memzero (Z.to_nat n) buf (Z.of_nat (length pre))) = Some (pre ++ replicate (Z.to_nat n) 0 ++ (wrap 8 <$> mid)).
Proof.
  intros <- Hm. destruct (shift_loop_moves 16 pre mid rest [] Hm) as (junk & Hj & E). rewrite !app_nil_r in E.
  rewrite E. cbn [mbind option_bind]. rewrite Nat2Z.id, <- Hj. by rewrite memzero_fills.
Qed.

(** What has been written and what is left of the buffer; [zero] is an offset in the
    bytes written, of which there are two for each word before [n]. *)
Definition inet6_inv (v : inet6_vars) : Prop :=
  exists out rest, i6_dst v = (out ++ rest, Z.of_nat (length out)) /\ (length out + length rest = 16)%nat /\
    Z.of_nat (length out) = 2 * (8 - i6_n v) /\ 1 <= i6_n v <= 8 /\
    match i6_zero v with Some z => exists pre mid, out = pre ++ mid /\ z = Z.of_nat (length pre) | None => True end.

(** The next word is written. *)
Lemma inet6_put v hi lo :
  inet6_inv v ->
  exists out rest, put_word hi lo (i6_dst v) = Some (out ++ rest, Z.of_nat (length out)) /\ (length out + length rest = 16)%nat /\
    Z.of_nat (length out) = 2 * (8 - (i6_n v - 1)) /\
    match i6_zero v with Some z => exists pre mid, out = pre ++ mid /\ z = Z.of_nat (length pre) | None => True end.
Proof.
  intros (out & rest & E & Hl & Hn & Hn' & Hz). rewrite E.
  destruct rest as [|x [|y rest]]; cbn [length] in *; [lia..|].
  exists (out ++ [u8 hi; u8 lo]), rest. rewrite put_word_at by done. rewrite length_app. cbn [length]. split_and!; [do 2 f_equal; lia|lia..|].
  destruct (i6_zero v); [|done]. destruct Hz as (pre & mid & -> & ->). exists pre, (mid ++ [u8 hi; u8 lo]). by rewrite <- app_assoc.
Qed.

Lemma inet6_loop_inv p v :
  inet6_inv v -> exists res, inet6_loop p v = Some res /\ match res with I6_end v' => inet6_inv v' | I6_error => True end.
Proof.
  revert v. induction p as [|c p IH]; intros v Hv; cbn [inet6_loop]; [by eexists|].
  destruct (c =? ":"%cc).
  { unfold inet6_colon. destruct (negb (i6_nibbles v =? 0)).
    - destruct (inet6_put v (Z.shiftr (i6_word v) 8) (Z.land (i6_word v) 0xff) Hv) as (out & rest & -> & Hl & Hn & Hz).
      cbn [mbind option_bind]. destruct (Z.eqb_spec (i6_n v - 1) 0); cbn [negb]; [by eexists|]. apply IH.
      exists out, rest. cbn. destruct Hv as (? & ? & ? & ? & ? & ? & ?). split_and!; [done..|lia|lia|done].
    - destruct (i6_zero v) eqn:Ez; [by eexists|]. apply IH. destruct Hv as (out & rest & E & Hl & Hn & Hn' & Hz).
      exists out, rest. cbn. split_and!; [done..|lia|lia|]. rewrite E. exists out, []. by rewrite app_nil_r. }
  destruct (_ && _).
  { unfold inet6_dotted. destruct (Z.ltb_spec (i6_n v) 2); [by eexists|]. destruct (i6_digit v); [|by eexists].
    case_match; [by eexists|].
    edestruct (inet6_put v) as (out & rest & -> & Hl & Hn & Hz); [done|]. cbn [mbind option_bind]. eexists. split; [done|].
    exists out, rest. cbn. destruct Hv as (? & ? & ? & ? & ? & ? & ?). split_and!; [done..|lia|lia|done]. }
  assert (forall nibbles word, inet6_inv (mk_inet6 (i6_dst v) (i6_zero v) (i6_digit v) nibbles word (i6_n v))) as Hnext by done.
  repeat case_match; try (by eexists); apply IH, Hnext.
Qed.

Lemma inet6_finish_ok v :
  inet6_inv v -> exists rc buf, inet6_finish v = Some (rc, buf) /\ length buf = 16%nat /\ (rc = NGX_OK \/ rc = NGX_ERROR).
Proof.
  intros Hv. unfold inet6_finish. case_match.
  { destruct Hv as (out & rest & E & Hl & _). eexists _, _. split; [done|]. split; [|by right]. rewrite E. cbn. rewrite length_app. lia. }
  destruct (inet6_put v (Z.shiftr (i6_word v) 8) (Z.land (i6_word v) 0xff) Hv) as (out & rest & -> & Hl & Hn & Hz).
  cbn [mbind option_bind]. destruct (i6_zero v) as [z|].
  - destruct Hz as (pre & mid & -> & ->). rewrite length_app in *.
    destruct (Z.eqb_spec (i6_n v - 1) 0); cbn [negb].
    { eexists _, _. split; [done|]. split; [rewrite !length_app; lia|by right]. }
    rewrite <- app_assoc.
    pose proof (insert_zeros pre mid rest ((i6_n v - 1) * 2) ltac:(lia) ltac:(lia)) as E.
    destruct (shift_loop _ _ _ _ _) as [buf|]; cbn [mbind option_bind] in E |- *; [|done]. rewrite E.
    eexists _, _. split; [done|]. split; [|by left]. rewrite !length_app, length_replicate, length_fmap. lia.
  - case_match; eexists _, _; (split; [done|]); (split; [rewrite length_app; lia|]); auto.
Qed.

Lemma inet6_start_inv addr : length addr = 16%nat -> inet6_inv (mk_inet6 (addr, 0) None None 0 0 8).
Proof. intros. exists [], addr. cbn. split_and!; try done; lia. Qed.

(** C34: [ngx_inet6_addr] stays inside the 16 bytes it is given: on every text it is
    defined, so neither the words it writes, the bytes it moves up from [zero] nor those
    it clears lie outside the buffer, and it answers [NGX_OK] or [NGX_ERROR]. *)
Theorem inet6_addr_in_bounds text addr :
  length addr = 16%nat ->
  exists rc buf, ngx_inet6_addr text addr = Some (rc, buf) /\ length buf = 16%nat /\ (rc = NGX_OK \/ rc = NGX_ERROR).
Proof.
  intros Ha. unfold ngx_inet6_addr. destruct text as [|c text]; [by eexists _, _; eauto|].
  edestruct (inet6_loop_inv (if c =? ":"%cc then text else c :: text)) as (res & -> & Hres); [by apply inet6_start_inv|].
  cbn [mbind option_bind]. destruct res; [by eexists _, _; eauto|]. by apply inet6_finish_ok.
Qed.

Example inet6_addr_in_bounds_witness :
  exists rc buf, ngx_inet6_addr (cstr "1:2::3:10.0.0.1") (replicate 16 7) = Some (rc, buf) /\ length buf = 16%nat /\
    (rc = NGX_OK \/ rc = NGX_ERROR).
Proof. apply (inet6_addr_in_bounds (cstr "1:2::3:10.0.0.1") (replicate 16 7)). reflexivity. Defined.

(** * Writing and reading IPv6 addresses *)

Lemma digits_loop_room room room' digit base n temp r :
  (room <= room')%nat -> digits_loop room digit base n temp = Some r -> digits_loop room' digit base n temp = Some r.
Proof.
  revert room' n temp. induction room as [|room IH]; intros room' n temp Hr; [done|]. destruct room' as [|room']; [lia|].
  cbn [digits_loop]. case_match; [done|]. apply IH. lia.
Qed.

Lemma hex_props w :
  0 <= w < 65536 ->
  number_digits w 1 = Some (hex w) /\ 1 <= Z.of_nat (length (hex w)) <= 4 /\ forallb is_xdigit (hex w) = true /\ hex_value (hex w) = w.
Proof.
  intros Hw.
  destruct (digits_loop_total 16 lower_digit ltac:(lia) 4 w []) as [r Hr]; [lia..|].
  pose proof Hr as E. apply (digits_loop_room 4 NGX_INT64_LEN) in E; [|unfold NGX_INT64_LEN; lia].
  assert (number_digits w 1 = Some r) as Hd by (rewrite number_digits_cases by lia; exact E).
  assert (hex w = r) as -> by (unfold hex; by rewrite Hd).
  apply (digits_loop_spec 16 hex_val) in Hr as (ds & -> & Hv & Hl & Hf); [|lia|apply lower_digit_val|lia].
  rewrite app_nil_r in *. split_and!; [done|lia|lia| |done].
  apply (forallb_Forall_digits _ lower_digit 16); [|done]. intros d Hd'. apply hex_digits_xdigit in Hd'.
  by apply andb_true_iff in Hd' as [? _].
Qed.

Lemma print_uxi buf w :
  0 <= w < 65536 -> 0 <= buf <= 2 ^ 63 -> ngx_sprintf buf (cstr "%uxi") [va_int w] = Some (hex w).
Proof.
  intros Hw Hbuf. destruct (hex_props w Hw) as (Hd & Hl & _ & _).
  unfold ngx_sprintf, ngx_vslprintf. set (room := 2 ^ 64 - 1 - buf).
  change (cstr "%uxi") with ["%"%cc; "u"%cc; "x"%cc; "i"%cc]. cbn [length vslprintf_loop].
  destruct (Z.leb_spec room 0); [lia|]. cbn [Z.eqb Pos.eqb].
  assert (run_directive room ["u"%cc; "x"%cc; "i"%cc] [va_int w] = Some (hex w, [], [])) as ->.
  { unfold run_directive. cbn -[ngx_sprintf_num Z.of_nat hex room]. unfold conversion. cbn -[ngx_sprintf_num hex room].
    unfold write_number. cbn -[ngx_sprintf_num hex room]. rewrite (wrap_small 64 w) by lia. rewrite (wrap_small 64) by lia.
    rewrite (sprintf_num_full _ _ _ _ _ (hex w)) by (done || lia). cbn. by replace (Z.to_nat _) with 0%nat by lia. }
  cbn [mbind option_bind]. by rewrite app_nil_r.
Qed.

(** ** Words *)

(** An address as its eight words, each the pair of its bytes. *)
Definition flat (ws : list (Z * Z)) : list Z := concat ((fun w => [w.1; w.2]) <$> ws).
Definition word_of (w : Z * Z) : Z := w.1 * 256 + w.2.
Definition word_ok (w : Z * Z) : Prop := 0 <= w.1 < 256 /\ 0 <= w.2 < 256.
(** Words with a colon after each. *)
Definition wtext (ws : list (Z * Z)) : list Z := concat ((fun w => hex (word_of w) ++ [":"%cc]) <$> ws).

Lemma flat_app a b : flat (a ++ b) = flat a ++ flat b.
Proof. unfold flat. by rewrite fmap_app, concat_app. Qed.

Lemma flat_length ws : length (flat ws) = (2 * length ws)%nat.
Proof. induction ws as [|w ws IH]; [done|]. unfold flat in *. cbn [fmap list_fmap concat app length] in *. lia. Qed.

Lemma word_of_range w : word_ok w -> 0 <= word_of w < 65536.
Proof. unfold word_ok, word_of. lia. Qed.

Lemma flat_rd pre w post :
  rd (flat (pre ++ w :: post)) (2 * Z.of_nat (length pre)) = Some w.1 /\
  rd (flat (pre ++ w :: post)) (2 * Z.of_nat (length pre) + 1) = Some w.2.
Proof.
  rewrite flat_app. change (flat (w :: post)) with (w.1 :: w.2 :: flat post).
  pose proof (flat_length pre) as Hl. split.
  - replace (2 * Z.of_nat (length pre)) with (Z.of_nat (length (flat pre))) by lia. apply rd_at.
  - replace (flat pre ++ w.1 :: w.2 :: flat post) with ((flat pre ++ [w.1]) ++ w.2 :: flat post) by (by rewrite <- app_assoc).
    replace (2 * Z.of_nat (length pre) + 1) with (Z.of_nat (length (flat pre ++ [w.1]))) by (rewrite length_app; cbn; lia).
    apply rd_at.
Qed.

(** ** Printing the words *)

Section print.
Context (buf : Z) (Hbuf : 0 <= buf <= 2 ^ 63).

Lemma words_loop_word k pre w post n zero max :
  word_ok w -> 2 * Z.of_nat (length pre) < n -> zero <> 2 * Z.of_nat (length pre) ->
  words_loop (S k) buf (flat (pre ++ w :: post)) (2 * Z.of_nat (length pre)) n zero max =
  (rest ← words_loop k buf (flat (pre ++ w :: post)) (2 * Z.of_nat (length pre) + 2) n zero max;
   Some (hex (word_of w) ++ (if 2 * Z.of_nat (length pre) <? 14 then [":"%cc] else []) ++ rest)).
Proof.
  intros Hw Hn Hz. cbn [words_loop]. destruct (Z.leb_spec n (2 * Z.of_nat (length pre))); [lia|].
  destruct (Z.eqb_spec (2 * Z.of_nat (length pre)) zero); [lia|].
  destruct (flat_rd pre w post) as [-> ->]. cbn [mbind option_bind].
  rewrite (print_uxi buf (w.1 * 256 + w.2)) by (done || by apply word_of_range). done.
Qed.

Lemma words_loop_run ws k pre post n zero max :
  Forall word_ok ws -> 2 * Z.of_nat (length pre + length ws) <= n -> n <= 14 \/ (length pre + length ws <= 7)%nat ->
  zero < 2 * Z.of_nat (length pre) \/ 2 * Z.of_nat (length pre + length ws) <= zero ->
  words_loop (length ws + k) buf (flat (pre ++ ws ++ post)) (2 * Z.of_nat (length pre)) n zero max =
  (rest ← words_loop k buf (flat (pre ++ ws ++ post)) (2 * Z.of_nat (length pre + length ws)) n zero max; Some (wtext ws ++ rest)).
Proof.
  intros Hws. revert pre. induction Hws as [|w ws Hw Hws IH]; intros pre Hn H7 Hz.
  { cbn [length app Nat.add]. rewrite Nat.add_0_r. by destruct (words_loop _ _ _ _ _ _ _). }
  cbn [length] in *. cbn [Nat.add app]. rewrite words_loop_word by (done || lia).
  destruct (Z.ltb_spec (2 * Z.of_nat (length pre)) 14); [|lia].
  specialize (IH (pre ++ [w])). rewrite length_app in IH. cbn [length] in IH. rewrite <- app_assoc in IH. cbn [app] in IH.
  replace (2 * Z.of_nat (length pre) + 2) with (2 * Z.of_nat (length pre + 1)) by lia.
  rewrite IH by lia. replace (length pre + 1 + length ws)%nat with (length pre + S (length ws))%nat by lia.
  destruct (words_loop k buf (flat (pre ++ w :: ws ++ post)) (2 * Z.of_nat (length pre + S (length ws))) n zero max); [|done].
  unfold wtext. cbn. by rewrite <- !app_assoc.
Qed.

Lemma words_loop_end k p i n zero max : n <= i -> words_loop k buf p i n zero max = Some [].
Proof. intros. destruct k; cbn [words_loop]; destruct (Z.leb_spec n i); (done || lia). Qed.

(** The text of the words at the end of an address; no colon follows the last. *)
Definition last_text (ws : list (Z * Z)) : list Z :=
  match last ws with Some w => wtext (removelast ws) ++ hex (word_of w) | None => [] end.

Lemma words_loop_last ws k pre zero max :
  Forall word_ok ws -> (length pre + length ws = 8)%nat -> (length ws <= k)%nat ->
  zero < 2 * Z.of_nat (length pre) \/ 16 <= zero ->
  words_loop k buf (flat (pre ++ ws)) (2 * Z.of_nat (length pre)) 16 zero max = Some (last_text ws).
Proof.
  intros Hws Hl Hk Hz. destruct ws as [|w ws _] using rev_ind; [rewrite words_loop_end by (cbn in Hl; lia); done|].
  unfold last_text. rewrite last_snoc, removelast_last. rewrite length_app in *. cbn [length] in *.
  apply Forall_app in Hws as [Hws [Hw _]%Forall_cons].
  replace k with (length ws + S (k - length ws - 1))%nat by lia.
  rewrite (words_loop_run ws) by (done || lia).
  replace (length pre + length ws)%nat with (length (pre ++ ws)) by (by rewrite length_app).
  rewrite app_assoc, words_loop_word by (done || (rewrite ?length_app; lia)). rewrite length_app.
  destruct (Z.ltb_spec (2 * Z.of_nat (length pre + length ws)) 14); [lia|].
  rewrite words_loop_end by lia. cbn [mbind option_bind app]. by rewrite app_nil_r.
Qed.
End print.

(** ** Reading the words *)

(** The variables between two words. *)
Definition between (out rest : list Z) (zero : option Z) (digit : option (list Z)) (n : Z) : inet6_vars :=
  mk_inet6 (out ++ rest, Z.of_nat (length out)) zero digit 0 0 n.

Lemma xdigit_tests c :
  is_xdigit c = true ->
  (c =? ":"%cc) = false /\ (c =? "."%cc) = false /\ 0 <= hex_val c < 16 /\
  (if ("0"%cc <=? c) && (c <=? "9"%cc) then c - "0"%cc = hex_val c
   else ("a"%cc <=? Z.lor c 0x20) && (Z.lor c 0x20 <=? "f"%cc) = true /\ Z.lor c 0x20 - "a"%cc + 10 = hex_val c).
Proof.
  intros Hx.
  assert (is_byte c) as Hc by (unfold is_byte; unfold is_xdigit, is_digit in Hx; lia).
  assert (negb (is_xdigit c) ||
    (negb (c =? ":"%cc) && negb (c =? "."%cc) && (0 <=? hex_val c) && (hex_val c <? 16) &&
     (if ("0"%cc <=? c) && (c <=? "9"%cc) then c - "0"%cc =? hex_val c
      else ("a"%cc <=? Z.lor c 0x20) && (Z.lor c 0x20 <=? "f"%cc) && (Z.lor c 0x20 - "a"%cc + 10 =? hex_val c))) = true) as H.
  { revert c Hc Hx. intros c Hc _. revert c Hc. apply byte_forall. vm_compute. done. }
  rewrite Hx in H. cbn [negb orb] in H. rewrite !andb_true_iff in H. destruct H as [[[[? ?] ?] ?] H].
  split; [lia|]. split; [lia|]. split; [lia|]. destruct (_ && _); [lia|]. rewrite !andb_true_iff in *. lia.
Qed.

Lemma inet6_nibbles h rest v :
  forallb is_xdigit h = true -> 0 <= i6_nibbles v -> i6_nibbles v + Z.of_nat (length h) <= 4 ->
  0 <= i6_word v < 16 ^ i6_nibbles v ->
  inet6_loop (h ++ rest) v =
  inet6_loop rest (mk_inet6 (i6_dst v) (i6_zero v) (i6_digit v) (i6_nibbles v + Z.of_nat (length h)) (num_acc 16 hex_val (i6_word v) h) (i6_n v)).
Proof.
  revert v. induction h as [|c h IH]; intros v Hx Hn Hl Hw.
  { cbn [app length]. rewrite Z.add_0_r. unfold num_acc. cbn. by destruct v. }
  cbn [forallb] in Hx. apply andb_true_iff in Hx as [Hc Hx]. cbn [length] in Hl.
  destruct (xdigit_tests c Hc) as (E1 & E2 & Hv & Ht). cbn [app inet6_loop]. rewrite E1, E2. cbn [andb].
  destruct (Z.ltb_spec 4 (i6_nibbles v + 1)); [lia|].
  assert (0 <= i6_word v * 16 + hex_val c < 16 ^ (i6_nibbles v + 1)) as Hw'.
  { rewrite Z.pow_add_r by lia. change (16 ^ 1) with 16. lia. }
  assert (16 ^ (i6_nibbles v + 1) <= 16 ^ 4) as Hp by (apply Z.pow_le_mono_r; lia).
  set (next := fun word => mk_inet6 (i6_dst v) (i6_zero v) (i6_digit v) (i6_nibbles v + 1) word (i6_n v)).
  assert (inet6_loop (h ++ rest) (next (i6_word v * 16 + hex_val c)) =
    inet6_loop rest (mk_inet6 (i6_dst v) (i6_zero v) (i6_digit v) (i6_nibbles v + Z.of_nat (length (c :: h)))
      (num_acc 16 hex_val (i6_word v) (c :: h)) (i6_n v))) as E.
  { rewrite (IH (next _)) by (cbn; lia || done). cbn [i6_dst i6_zero i6_digit i6_nibbles i6_word i6_n next]. f_equal. f_equal. cbn [length]. lia. }
  destruct (_ && _).
  - rewrite <- E. f_equal. unfold next. f_equal. rewrite Ht. apply wrap_small. lia.
  - destruct Ht as [-> Ht]. rewrite <- E. f_equal. unfold next. f_equal. rewrite <- Z.add_assoc, Ht. apply wrap_small. lia.
Qed.

Lemma hex_word_nibbles w rest out left zero digit n :
  word_ok w ->
  inet6_loop (hex (word_of w) ++ rest) (between out left zero digit n) =
  inet6_loop rest (mk_inet6 (out ++ left, Z.of_nat (length out)) zero digit (Z.of_nat (length (hex (word_of w)))) (word_of w) n).
Proof.
  intros Hw. destruct (hex_props _ (word_of_range _ Hw)) as (_ & Hl & Hx & Hv).
  rewrite inet6_nibbles by (done || (cbn [between i6_nibbles i6_word]; lia)). cbn [between i6_dst i6_zero i6_digit i6_nibbles i6_word i6_n].
  unfold hex_value in Hv. by rewrite Hv.
Qed.

Lemma put_word_of w out x y left :
  word_ok w ->
  put_word (Z.shiftr (word_of w) 8) (Z.land (word_of w) 0xff) (out ++ x :: y :: left, Z.of_nat (length out)) =
  Some ((out ++ flat [w]) ++ left, Z.of_nat (length (out ++ flat [w]))).
Proof.
  intros Hw. rewrite put_word_at by done. unfold word_ok, word_of in *.
  rewrite Z.shiftr_div_pow2 by lia. change 0xff with (2 ^ 8 - 1). rewrite land_ones_mod by lia.
  rewrite !wrap_small by (Z.to_euclidean_division_equations; lia).
  rewrite length_app, flat_length. cbn [length]. unfold flat. cbn [fmap list_fmap concat app].
  replace ((w.1 * 256 + w.2) / 2 ^ 8) with w.1 by (Z.to_euclidean_division_equations; lia).
  replace ((w.1 * 256 + w.2) mod 2 ^ 8) with w.2 by (Z.to_euclidean_division_equations; lia).
  do 2 f_equal. lia.
Qed.

(** A word and its colon. *)
Lemma inet6_word_colon w rest out left zero digit n :
  word_ok w -> (2 <= length left)%nat -> 2 <= n ->
  inet6_loop (hex (word_of w) ++ ":"%cc :: rest) (between out left zero digit n) =
  inet6_loop rest (between (out ++ flat [w]) (drop 2 left) zero (Some rest) (n - 1)).
Proof.
  intros Hw Hl Hn. rewrite hex_word_nibbles by done. destruct (hex_props _ (word_of_range _ Hw)) as (_ & Hh & _ & _).
  destruct left as [|x [|y left]]; cbn [length] in Hl; [lia..|]. cbn [inet6_loop Z.eqb Pos.eqb]. unfold inet6_colon.
  cbn [i6_dst i6_zero i6_digit i6_nibbles i6_word i6_n].
  destruct (Z.eqb_spec (Z.of_nat (length (hex (word_of w)))) 0); [lia|]. cbn [negb].
  rewrite put_word_of by done. cbn [mbind option_bind]. destruct (Z.eqb_spec (n - 1) 0); [lia|]. done.
Qed.

Lemma inet6_words ws rest out left zero digit n :
  Forall word_ok ws -> (2 * length ws <= length left)%nat -> Z.of_nat (length ws) < n ->
  exists digit', (ws = [] -> digit' = digit) /\ (ws <> [] -> digit' = Some rest) /\
    inet6_loop (wtext ws ++ rest) (between out left zero digit n) =
    inet6_loop rest (between (out ++ flat ws) (drop (2 * length ws) left) zero digit' (n - Z.of_nat (length ws))).
Proof.
  intros Hws. revert out left digit n. induction Hws as [|w ws Hw Hws IH]; intros out left digit n Hl Hn.
  { exists digit. split; [done|]. split; [done|]. cbn. by rewrite app_nil_r, Z.sub_0_r. }
  cbn [length] in *. unfold wtext. cbn [fmap list_fmap concat]. fold (wtext ws). rewrite <- !app_assoc. cbn [app].
  rewrite inet6_word_colon by (done || lia).
  destruct (IH (out ++ flat [w]) (drop 2 left) (Some (wtext ws ++ rest)) (n - 1)) as (digit' & H1 & H2 & ->);
    [rewrite length_drop; lia|lia|].
  exists digit'. split; [done|]. split.
  { intros _. destruct ws; [by rewrite H1|by apply H2]. }
  f_equal. unfold between. rewrite drop_drop.
  replace ((out ++ flat [w]) ++ flat ws) with (out ++ flat (w :: ws)) by (rewrite <- app_assoc; by rewrite <- flat_app).
  replace (2 + 2 * length ws)%nat with (2 * S (length ws))%nat by lia. f_equal. lia.
Qed.

(** The loop and what follows it. *)
Definition inet6_run (addr p : list Z) (v : inet6_vars) : option (Z * list Z) :=
  res ← inet6_loop p v;
  match res with I6_error => Some (NGX_ERROR, addr) | I6_end v => inet6_finish v end.

Lemma flat_bytes ws : Forall word_ok ws -> wrap 8 <$> flat ws = flat ws.
Proof.
  induction 1 as [|w ws [H1 H2] _ IH]; [done|]. change (flat (w :: ws)) with (w.1 :: w.2 :: flat ws). cbn.
  rewrite IH. by rewrite !wrap_small by lia.
Qed.

(** The last word that is written for [word]. *)
Definition word_bytes (word : Z) (w : Z * Z) : Prop := u8 (Z.shiftr word 8) = w.1 /\ u8 (Z.land word 0xff) = w.2.

Lemma word_of_bytes w : word_ok w -> word_bytes (word_of w) w.
Proof.
  unfold word_ok, word_bytes, word_of. intros Hw. rewrite Z.shiftr_div_pow2 by lia. change 0xff with (2 ^ 8 - 1).
  rewrite land_ones_mod by lia. unfold wrap. split; Z.to_euclidean_division_equations; lia.
Qed.

Lemma word32_bytes x a c d : 0 <= c < 256 -> 0 <= d < 256 -> x = (a * 256 + c) * 256 + d -> word_bytes x (c, d).
Proof.
  intros. subst. unfold word_bytes. rewrite Z.shiftr_div_pow2 by lia. change 0xff with (2 ^ 8 - 1).
  rewrite land_ones_mod by lia. unfold wrap. cbn [fst snd]. split; Z.to_euclidean_division_equations; lia.
Qed.

(** The end of the text when [zero] has been seen. *)
Lemma finish_zero v pre mid rest n w :
  i6_zero v = Some (Z.of_nat (length pre)) -> i6_n v = n -> word_bytes (i6_word v) w -> word_ok w -> Forall word_ok mid ->
  i6_dst v = ((pre ++ flat mid) ++ rest, Z.of_nat (length (pre ++ flat mid))) ->
  Z.of_nat (length rest) = 2 * n -> 2 <= n -> (length mid <= 7)%nat ->
  inet6_finish v = Some (NGX_OK, pre ++ replicate (Z.to_nat ((n - 1) * 2)) 0 ++ flat (mid ++ [w])).
Proof.
  intros Hz Hn Hw Hok Hmid Hd Hr Hn2 Hl. unfold inet6_finish. rewrite Hz, Hn, Hd, andb_false_r.
  destruct rest as [|x [|y rest]]; cbn [length] in Hr; [lia..|]. rewrite put_word_at by done. cbn [mbind option_bind].
  destruct (Z.eqb_spec (n - 1) 0); [lia|]. cbn [negb]. destruct Hw as [-> ->].
  change [w.1; w.2] with (flat [w]). rewrite <- (app_assoc pre), <- flat_app, <- (app_assoc pre).
  assert (length (flat (mid ++ [w])) = 2 * length mid + 2)%nat as Hlen by (rewrite flat_length, length_app; cbn; lia).
  pose proof (insert_zeros pre (flat (mid ++ [w])) rest ((n - 1) * 2) ltac:(lia) ltac:(lia)) as E.
  replace (Z.of_nat (length (pre ++ flat mid)) + 2 - 1) with (Z.of_nat (length pre + length (flat (mid ++ [w]))) - 1)
    by (rewrite length_app, (flat_length mid); lia).
  destruct (shift_loop _ _ _ _ _) as [b|]; cbn [mbind option_bind] in E |- *; [|done]. rewrite E. cbn [mbind option_bind].
  rewrite flat_bytes; [done|]. apply Forall_app. split; [done|]. by apply Forall_singleton.
Qed.

Lemma flat_zeros k : flat (replicate k (0, 0)) = replicate (2 * k) 0.
Proof.
  induction k as [|k IH]; [done|]. replace (2 * S k)%nat with (S (S (2 * k))) by lia. cbn [replicate].
  change (flat ((0, 0) :: replicate k (0, 0))) with (0 :: 0 :: flat (replicate k (0, 0))). by rewrite IH.
Qed.

Lemma run_after_zero addr ws out left digit n :
  Forall word_ok ws -> Z.of_nat (length left) = 2 * n -> Z.of_nat (length ws) + 2 <= n -> n <= 8 ->
  inet6_run addr (last_text ws) (between out left (Some (Z.of_nat (length out))) digit n) =
  Some (NGX_OK, out ++ flat (replicate (Z.to_nat n - length ws) (0, 0) ++ ws)).
Proof.
  intros Hws Hl Hn Hn8. unfold inet6_run. destruct ws as [|w ws _] using rev_ind.
  - cbn [last_text last inet6_loop mbind option_bind].
    rewrite (finish_zero _ out [] left n (0, 0)); [|done|done|by apply (word_of_bytes (0, 0))|done|done| |done|cbn in Hn; lia|cbn; lia].
    + rewrite (app_nil_r (replicate _ _)), flat_zeros. cbn [app]. change (flat [(0, 0)]) with (replicate 2 0). rewrite <- replicate_add.
      do 4 f_equal. cbn [length]. lia.
    + cbn [between i6_dst flat fmap list_fmap concat]. by rewrite app_nil_r.
  - unfold last_text. rewrite last_snoc, removelast_last. rewrite length_app in *. cbn [length] in *.
    apply Forall_app in Hws as [Hws [Hw _]%Forall_cons].
    destruct (inet6_words ws (hex (word_of w)) out left (Some (Z.of_nat (length out))) digit n) as (digit' & _ & _ & ->); [done|lia|lia|].
    rewrite <- (app_nil_r (hex _)), hex_word_nibbles by done. cbn [inet6_loop mbind option_bind].
    rewrite (finish_zero _ out ws (drop (2 * length ws) left) (n - Z.of_nat (length ws)) w); try done; [|by apply word_of_bytes|rewrite length_drop; lia|lia|lia].
    do 3 f_equal. rewrite (flat_app (replicate _ _)), flat_zeros. do 2 f_equal. lia.
Qed.

Lemma run_no_zero addr ws :
  Forall word_ok ws -> length ws = 8%nat -> length addr = 16%nat ->
  inet6_run addr (last_text ws) (between [] addr None None 8) = Some (NGX_OK, flat ws).
Proof.
  intros Hws Hl Ha. unfold inet6_run. destruct ws as [|w ws _] using rev_ind; [done|].
  unfold last_text. rewrite last_snoc, removelast_last. rewrite length_app in *. cbn [length] in *.
  apply Forall_app in Hws as [Hws [Hw _]%Forall_cons].
  destruct (inet6_words ws (hex (word_of w)) [] addr None None 8) as (digit' & _ & _ & ->); [done|lia|lia|].
  rewrite <- (app_nil_r (hex _)), hex_word_nibbles by done. cbn [inet6_loop mbind option_bind].
  unfold inet6_finish. cbn [i6_dst i6_zero i6_digit i6_nibbles i6_word i6_n].
  destruct (hex_props _ (word_of_range _ Hw)) as (_ & Hh & _ & _).
  destruct (Z.eqb_spec (Z.of_nat (length (hex (word_of w)))) 0); [lia|]. cbn [andb].
  destruct (drop (2 * length ws) addr) as [|x [|y left]] eqn:E; apply (f_equal length) in E; rewrite length_drop in E; cbn in E; [lia..|].
  rewrite put_word_of by done. cbn [mbind option_bind]. replace (8 - Z.of_nat (length ws) - 1 =? 0) with true by lia. cbn [negb].
  destruct left; [|cbn in E; lia]. rewrite app_nil_r. cbn [app]. by rewrite flat_app.
Qed.

(** The dotted end of an address. *)
Lemma run_v4 addr pre mid left a b c d n :
  0 <= a < 256 -> 0 <= b < 256 -> 0 <= c < 256 -> 0 <= d < 256 -> network_order a b c d <> INADDR_NONE ->
  Forall word_ok mid -> Z.of_nat (length left) = 2 * n -> 3 <= n -> (length mid <= 6)%nat ->
  inet6_run addr (dotted_text a b c d)
    (between (pre ++ flat mid) left (Some (Z.of_nat (length pre))) (Some (dotted_text a b c d)) n) =
  Some (NGX_OK, pre ++ replicate (Z.to_nat ((n - 2) * 2)) 0 ++ flat (mid ++ [(a, b); (c, d)])).
Proof.
  intros Ha Hb Hc Hd Hne Hmid Hl Hn Hm. unfold inet6_run.
  pose proof (dec_props a Ha) as (_ & Hda & Hdig & _).
  assert (forallb is_xdigit (dec a) = true) as Hx.
  { apply forallb_forall. intros x Hin. rewrite forallb_forall in Hdig. unfold is_xdigit. by rewrite Hdig. }
  unfold dotted_text at 1. rewrite inet6_nibbles; [|done|done|cbn [between i6_nibbles]; lia|cbn; lia].
  cbn [between i6_dst i6_zero i6_digit i6_nibbles i6_word i6_n]. cbn [app inet6_loop]. 
  change ("."%cc =? ":"%cc) with false. change ("."%cc =? "."%cc) with true. cbn [andb i6_nibbles].
  destruct (Z.eqb_spec (0 + Z.of_nat (length (dec a))) 0); [lia|]. cbn [negb].
  unfold inet6_dotted. cbn [i6_dst i6_zero i6_digit i6_nibbles i6_word i6_n].
  destruct (Z.ltb_spec n 2); [lia|]. rewrite inet_addr_dotted by done. destruct (Z.eqb_spec (network_order a b c d) INADDR_NONE); [done|].
  assert (ntohl (network_order a b c d) = ((a * 256 + b) * 256 + c) * 256 + d) as ->.
  { unfold ntohl. rewrite htonl_bytes. unfold network_order. Z.to_euclidean_division_equations. lia. }
  set (word := ((a * 256 + b) * 256 + c) * 256 + d).
  assert (u8 (Z.land (Z.shiftr word 24) 0xff) = a /\ u8 (Z.land (Z.shiftr word 16) 0xff) = b) as [Hhi Hlo].
  { rewrite !Z.shiftr_div_pow2 by lia. change 0xff with (2 ^ 8 - 1). rewrite !land_ones_mod by lia. unfold wrap, word.
    split; Z.to_euclidean_division_equations; lia. }
  destruct left as [|x [|y left]]; cbn [length] in Hl; [lia..|]. rewrite put_word_at by done. cbn [mbind option_bind].
  rewrite (finish_zero _ pre (mid ++ [(a, b)]) left (n - 1) (c, d)).
  - do 2 f_equal. rewrite <- app_assoc. cbn [app]. do 4 f_equal. lia.
  - done.
  - done.
  - by apply (word32_bytes _ (a * 256 + b)).
  - done.
  - apply Forall_app. split; [done|]. by apply Forall_singleton.
  - cbn [i6_dst]. rewrite Hhi, Hlo, flat_app. change (flat [(a, b)]) with [a; b]. rewrite !app_assoc.
    rewrite (length_app (pre ++ flat mid)). cbn [length]. f_equal. lia.
  - cbn [length] in Hl. lia.
  - lia.
  - rewrite length_app. cbn. lia.
Qed.

(** ** The longest run of zero words *)

Definition nonzero (w : Z * Z) : bool := negb (w.1 =? 0) || negb (w.2 =? 0).

(** [zero_run], as it depends on which words are zero. *)
Fixpoint zrun (nz : list bool) (i zero last max n : Z) : Z * Z :=
  match nz with
  | [] => if max <? n then (last, n) else (zero, max)
  | true :: nz' =>
      let '(zero, max) := if max <? n then (last, n) else (zero, max) in zrun nz' (i + 2) zero last max 0
  | false :: nz' => zrun nz' (i + 2) zero (if n =? 0 then i else last) max (n + 1)
  end.

Lemma zero_run_zrun post pre zero last max n :
  zero_run (length post) (flat (pre ++ post)) (2 * Z.of_nat (length pre)) zero last max n =
  Some (zrun (nonzero <$> post) (2 * Z.of_nat (length pre)) zero last max n).
Proof.
  revert pre zero last max n. induction post as [|w post IH]; intros pre zero last max n; [done|].
  cbn [length zero_run fmap list_fmap zrun]. destruct (flat_rd pre w post) as [-> ->]. cbn [mbind option_bind]. fold (nonzero w).
  specialize (IH (pre ++ [w])). rewrite <- app_assoc, length_app in IH. cbn [app length] in IH.
  replace (2 * Z.of_nat (length pre) + 2) with (2 * Z.of_nat (length pre + 1)) by lia.
  destruct (nonzero w); [destruct (max <? n)|]; apply IH.
Qed.

Fixpoint all_bools (k : nat) : list (list bool) :=
  match k with O => [[]] | S k' => (cons true <$> all_bools k') ++ (cons false <$> all_bools k') end.

Lemma all_bools_elem bs : bs ∈ all_bools (length bs).
Proof.
  induction bs as [|b bs IH]; cbn; [by apply list_elem_of_singleton|]. apply elem_of_app.
  destruct b; [left|right]; apply list_elem_of_fmap; by exists bs.
Qed.

(** The run is none or one of at least two words. *)
Definition run_ok (bs : list bool) : bool :=
  let '(zero, max) := zrun bs 0 NO_ZERO NO_ZERO 1 0 in
  if zero =? NO_ZERO then max =? 1
  else (0 <=? zero) && (zero =? 2 * (zero / 2)) && (2 <=? max) && (zero / 2 + max <=? 8)
   && forallb negb (take (Z.to_nat max) (drop (Z.to_nat (zero / 2)) bs)).

Lemma zero_run_cases ws :
  length ws = 8%nat ->
  zero_run 8 (flat ws) 0 NO_ZERO NO_ZERO 1 0 = Some (NO_ZERO, 1) \/
  exists A B m, zero_run 8 (flat ws) 0 NO_ZERO NO_ZERO 1 0 = Some (2 * Z.of_nat (length A), Z.of_nat m) /\ (2 <= m)%nat /\
    ws = A ++ replicate m (0, 0) ++ B.
Proof.
  intros Hl. pose proof (zero_run_zrun ws [] NO_ZERO NO_ZERO 1 0) as E. rewrite Hl in E. cbn [app length] in E.
  change (2 * Z.of_nat 0) with 0 in E. rewrite E.
  assert (run_ok (nonzero <$> ws) = true) as H.
  { assert (forallb run_ok (all_bools 8) = true) as Hall by (vm_compute; reflexivity).
    rewrite forallb_forall in Hall. apply Hall. apply list_elem_of_In.
    replace 8%nat with (length (nonzero <$> ws)) by (by rewrite length_fmap). apply all_bools_elem. }
  unfold run_ok in H. destruct (zrun _ _ _ _ _ _) as [zero max]. destruct (Z.eqb_spec zero NO_ZERO).
  { left. do 2 f_equal; lia. }
  rewrite !andb_true_iff in H.
  right. destruct H as [[[[H1 H2] H3] H4] Hz]. exists (take (Z.to_nat (zero / 2)) ws), (drop (Z.to_nat max) (drop (Z.to_nat (zero / 2)) ws)), (Z.to_nat max).
  rewrite length_take, Hl. split; [do 2 f_equal; lia|]. split; [lia|].
  rewrite <- (take_drop (Z.to_nat (zero / 2)) ws) at 1. f_equal.
  rewrite <- (take_drop (Z.to_nat max) (drop (Z.to_nat (zero / 2)) ws)) at 1. f_equal.
  symmetry. apply replicate_as_elem_of. split; [rewrite length_take, length_drop; lia|].
  intros w Hw. rewrite <- fmap_drop, <- fmap_take in Hz. rewrite forallb_forall in Hz.
  specialize (Hz (nonzero w)). rewrite <- list_elem_of_In in Hz. specialize (Hz (list_elem_of_fmap_2 _ _ _ Hw)).
  unfold nonzero in Hz. destruct w as [a b]. cbn [fst snd] in Hz. f_equal; lia.
Qed.

(** ** The round trip *)

Lemma hex_head w : word_ok w -> exists c t, hex (word_of w) = c :: t /\ (c =? ":"%cc) = false.
Proof.
  intros Hw. destruct (hex_props _ (word_of_range _ Hw)) as (_ & Hl & Hx & _).
  destruct (hex (word_of w)) as [|c t]; [cbn in Hl; lia|]. cbn [forallb] in Hx. apply andb_true_iff in Hx as [Hc _].
  exists c, t. split; [done|]. by apply xdigit_tests in Hc as [? _].
Qed.

(** A text that starts with a word is read from its first character. *)
Lemma inet6_addr_word w text addr :
  word_ok w -> ngx_inet6_addr (hex (word_of w) ++ text) addr = inet6_run addr (hex (word_of w) ++ text) (between [] addr None None 8).
Proof. intros Hw. destruct (hex_head w Hw) as (c & t & -> & Hc). cbn [app ngx_inet6_addr]. by rewrite Hc. Qed.

Lemma inet6_addr_colons text addr :
  ngx_inet6_addr (":"%cc :: ":"%cc :: text) addr = inet6_run addr text (between [] addr (Some 0) (Some text) 8).
Proof. done. Qed.

Lemma wtext_cons w ws : wtext (w :: ws) = hex (word_of w) ++ ":"%cc :: wtext ws.
Proof. unfold wtext. cbn. by rewrite <- app_assoc. Qed.

Lemma inet6_addr_no_zero ws addr :
  Forall word_ok ws -> length ws = 8%nat -> length addr = 16%nat -> ngx_inet6_addr (last_text ws) addr = Some (NGX_OK, flat ws).
Proof.
  intros Hws Hl Ha. rewrite <- (run_no_zero addr ws) by done.
  assert (exists w ws', word_ok w /\ ws = w :: ws' /\ ws' <> []) as (w & ws' & Hw & -> & Hne).
  { destruct ws as [|w [|w2 ws]]; try done. inversion Hws. by eexists _, _. }
  destruct (exists_last Hne) as (ws2 & x & ->). unfold last_text. rewrite app_comm_cons, last_snoc, removelast_last.
  rewrite wtext_cons, <- app_assoc. by apply inet6_addr_word.
Qed.

(** The text of an address with a run of zero words. *)
Lemma inet6_addr_zero A B m addr :
  Forall word_ok A -> Forall word_ok B -> (2 <= m)%nat -> (length A + m + length B = 8)%nat -> length addr = 16%nat ->
  ngx_inet6_addr ((match A with [] => [":"%cc] | _ => [] end) ++ wtext A ++ ":"%cc :: last_text B) addr =
  Some (NGX_OK, flat (A ++ replicate m (0, 0) ++ B)).
Proof.
  intros HA HB Hm Hl Ha. destruct A as [|w A].
  - cbn [app]. unfold wtext. cbn [fmap list_fmap concat app]. rewrite inet6_addr_colons.
    change (Some 0) with (Some (Z.of_nat (length (@nil Z)))).
    rewrite (run_after_zero addr B [] addr _ 8) by (done || cbn in *; lia). cbn [app].
    replace (Z.to_nat 8 - length B)%nat with m by (cbn in *; lia). done.
  - inversion HA as [|?? Hw HA']; subst. rewrite wtext_cons, <- app_assoc. cbn [app]. rewrite inet6_addr_word by done.
    change (hex (word_of w) ++ ":"%cc :: wtext A ++ ":"%cc :: last_text B) with (hex (word_of w) ++ (":"%cc :: wtext A) ++ ":"%cc :: last_text B).
    rewrite app_assoc, <- wtext_cons. unfold inet6_run.
    destruct (inet6_words (w :: A) (":"%cc :: last_text B) [] addr None None 8) as (digit' & _ & _ & ->); [done|lia|lia|].
    trans (inet6_run addr (last_text B) (between (flat (w :: A)) (drop (2 * length (w :: A)) addr) (Some (Z.of_nat (length (flat (w :: A)))))
      (Some (last_text B)) (8 - Z.of_nat (length (w :: A))))); [done|].
    rewrite run_after_zero; [|done|rewrite length_drop; lia|lia|lia].
    replace (Z.to_nat (8 - Z.of_nat (length (w :: A))) - length B)%nat with m by lia. by rewrite <- flat_app.
Qed.

(** The text of an address that ends in an IPv4 address. *)
Lemma inet6_addr_v4 F a b c d addr :
  Forall word_ok F -> (length F <= 1)%nat -> length addr = 16%nat ->
  word_ok (a, b) -> word_ok (c, d) -> network_order a b c d <> INADDR_NONE ->
  ngx_inet6_addr (":"%cc :: ":"%cc :: wtext F ++ dotted_text a b c d) addr =
  Some (NGX_OK, replicate (2 * (6 - length F)) 0 ++ flat (F ++ [(a, b); (c, d)])).
Proof.
  intros HF Hl Ha [??] [??] Hne. rewrite inet6_addr_colons. unfold inet6_run. cbn [fst snd] in *.
  destruct (inet6_words F (dotted_text a b c d) [] addr (Some 0) (Some (wtext F ++ dotted_text a b c d)) 8) as (digit' & He & Hd & ->);
    [done|lia|lia|].
  assert (digit' = Some (dotted_text a b c d)) as ->.
  { destruct F; [by rewrite He|by apply Hd]. }
  trans (inet6_run addr (dotted_text a b c d) (between ([] ++ flat F) (drop (2 * length F) addr) (Some (Z.of_nat (length (@nil Z))))
    (Some (dotted_text a b c d)) (8 - Z.of_nat (length F)))); [done|].
  rewrite run_v4 by (done || rewrite ?length_drop; lia). cbn [app]. do 4 f_equal. lia.
Qed.

Section ntop.
Context (buf : Z) (Hbuf : 0 <= buf <= 2 ^ 63).

(** The words around a run of zeros. *)
Lemma words_loop_zero A B m :
  Forall word_ok A -> Forall word_ok B -> (2 <= m)%nat -> (length A + m + length B = 8)%nat ->
  words_loop 9 buf (flat (A ++ replicate m (0, 0) ++ B)) 0 16 (2 * Z.of_nat (length A)) (Z.of_nat m) =
  Some (wtext A ++ ":"%cc :: last_text B).
Proof.
  intros HA HB Hm Hl. replace 9%nat with (length A + S (8 - length A))%nat by lia.
  pose proof (words_loop_run buf Hbuf A (S (8 - length A)) [] (replicate m (0, 0) ++ B) 16 (2 * Z.of_nat (length A)) (Z.of_nat m)) as E.
  cbn [app length Nat.add] in E. change (2 * Z.of_nat 0) with 0 in E. rewrite E by (done || lia).
  cbn [words_loop]. destruct (Z.leb_spec 16 (2 * Z.of_nat (length A))); [lia|]. rewrite Z.eqb_refl.
  replace (2 * Z.of_nat (length A) + (Z.of_nat m - 1) * 2 + 2) with (2 * Z.of_nat (length (A ++ replicate m (0, 0))))
    by (rewrite length_app, length_replicate; lia).
  rewrite app_assoc, words_loop_last; [done|done|done|rewrite length_app, length_replicate; lia|lia|].
  left. rewrite length_app, length_replicate. lia.
Qed.

(** The words before an IPv4 address: nothing or ffff. *)
Lemma words_loop_v4 F B m :
  Forall word_ok F -> (2 <= m)%nat -> (length F <= 1)%nat -> (m + length F = 6)%nat \/ (m = 7%nat /\ F = []) ->
  words_loop 9 buf (flat (replicate m (0, 0) ++ F ++ B)) 0 12 0 (Z.of_nat m) = Some (":"%cc :: wtext F).
Proof.
  intros HF Hm Hl Hc. replace 9%nat with (S (length F + (8 - length F))) by lia. cbn [words_loop Z.leb Z.compare Z.eqb].
  pose proof (words_loop_run buf Hbuf F (8 - length F) (replicate m (0, 0)) B 12 0 (Z.of_nat m)) as E.
  rewrite length_replicate in E.
  replace (0 + (Z.of_nat m - 1) * 2 + 2) with (2 * Z.of_nat m) by lia.
  destruct Hc as [Hc|[-> ->]].
  - rewrite E by (done || lia).
    rewrite words_loop_end by lia. cbn. by rewrite app_nil_r.
  - by rewrite words_loop_end by lia.
Qed.

Lemma dotted_print pre a b c d :
  length pre = 6%nat -> word_ok (a, b) -> word_ok (c, d) ->
  dotted buf (flat (pre ++ [(a, b); (c, d)])) 12 = Some (dotted_text a b c d).
Proof.
  intros Hl [Ha Hb] [Hc Hd]. cbn [fst snd] in *. unfold dotted.
  destruct (flat_rd pre (a, b) [(c, d)]) as [E1 E2]. destruct (flat_rd (pre ++ [(a, b)]) (c, d) []) as [E3 E4].
  rewrite <- app_assoc, length_app, Hl in E3, E4. rewrite Hl in E1, E2. cbn [app length] in *.
  change (2 * Z.of_nat 6) with 12 in *. change (2 * Z.of_nat (6 + 1)) with 14 in *. change (12 + 2) with 14. change (14 + 1) with (12 + 3) in E4.
  rewrite E1, E2, E3, E4. cbn [mbind option_bind fst snd]. apply print_dotted; lia.
Qed.
End ntop.

Lemma words_of p : is_bytes p -> length p = 16%nat -> exists ws, p = flat ws /\ length ws = 8%nat /\ Forall word_ok ws.
Proof.
  intros Hb Hl. do 16 (destruct p as [|? p]; [done|]). destruct p; [|done]. repeat (apply Forall_cons in Hb as [? Hb]).
  eexists [(_, _); (_, _); (_, _); (_, _); (_, _); (_, _); (_, _); (_, _)]. split; [reflexivity|]. split; [done|].
  by repeat (apply Forall_cons_2; [split; assumption|]).
Qed.

Lemma word_ok_zeros m : Forall word_ok (replicate m (0, 0)).
Proof. apply Forall_replicate. split; cbn; lia. Qed.

Lemma wtext_length ws : Forall word_ok ws -> (length (wtext ws) <= 5 * length ws)%nat.
Proof.
  induction 1 as [|w ws Hw _ IH]; [done|]. rewrite wtext_cons, length_app. cbn [length].
  destruct (hex_props _ (word_of_range _ Hw)) as (_ & ? & _). lia.
Qed.

Lemma last_text_length ws : Forall word_ok ws -> (length (last_text ws) <= 5 * length ws)%nat.
Proof.
  intros Hws. unfold last_text. destruct ws as [|w ws _] using rev_ind; [done|]. rewrite last_snoc, removelast_last, !length_app. cbn [length].
  apply Forall_app in Hws as [Hws [Hw _]%Forall_cons]. apply wtext_length in Hws.
  destruct (hex_props _ (word_of_range _ Hw)) as (_ & ? & _). lia.
Qed.

Lemma dotted_text_length a b c d :
  word_ok (a, b) -> word_ok (c, d) -> (length (dotted_text a b c d) <= 15)%nat.
Proof.
  intros [Ha Hb] [Hc Hd]. cbn [fst snd] in *. unfold dotted_text. rewrite !length_app. cbn [length]. rewrite !length_app. cbn [length].
  rewrite !length_app. cbn [length]. apply dec_props in Ha as (_ & ? & _), Hb as (_ & ? & _), Hc as (_ & ? & _), Hd as (_ & ? & _). lia.
Qed.

Section roundtrip.
Context (buf len : Z) (addr : list Z).
Hypothesis Hbuf : 0 <= buf <= 2 ^ 63.
Hypothesis Hlen : 45 <= len.
Hypothesis Haddr : length addr = 16%nat.

Definition reads_back (p : list Z) : Prop :=
  exists text, ngx_inet6_ntop buf p len = Some text /\ (length text <= 45)%nat /\ ngx_inet6_addr text addr = Some (NGX_OK, p).

Lemma ntop_no_zero ws :
  Forall word_ok ws -> length ws = 8%nat -> zero_run 8 (flat ws) 0 NO_ZERO NO_ZERO 1 0 = Some (NO_ZERO, 1) -> reads_back (flat ws).
Proof.
  intros Hws Hl Hz. exists (last_text ws). split.
  - unfold ngx_inet6_ntop. destruct (Z.ltb_spec len NGX_INET6_ADDRSTRLEN); [unfold NGX_INET6_ADDRSTRLEN in *; lia|].
    rewrite Hz. cbn [mbind option_bind]. change (NO_ZERO =? 0) with false. cbn [mbind option_bind Z.eqb Pos.eqb app].
    pose proof (words_loop_last buf Hbuf ws 9 [] NO_ZERO 1) as E. cbn [app length] in E. change (2 * Z.of_nat 0) with 0 in E.
    rewrite E by (done || lia || (right; vm_compute; discriminate)). cbn. by rewrite app_nil_r.
  - split; [apply last_text_length in Hws; lia|]. by apply inet6_addr_no_zero.
Qed.

Lemma ntop_zero A B m :
  Forall word_ok A -> Forall word_ok B -> (2 <= m)%nat -> (length A + m + length B = 8)%nat ->
  let p := flat (A ++ replicate m (0, 0) ++ B) in
  zero_run 8 p 0 NO_ZERO NO_ZERO 1 0 = Some (2 * Z.of_nat (length A), Z.of_nat m) ->
  A <> [] \/ v4_form p (Z.of_nat m) = Some false -> reads_back p.
Proof.
  intros HA HB Hm Hl p Hz Hv. exists ((match A with [] => [":"%cc] | _ => [] end) ++ wtext A ++ ":"%cc :: last_text B). split.
  - unfold ngx_inet6_ntop. destruct (Z.ltb_spec len NGX_INET6_ADDRSTRLEN); [unfold NGX_INET6_ADDRSTRLEN in *; lia|].
    rewrite Hz. cbn [mbind option_bind].
    assert ((if 2 * Z.of_nat (length A) =? 0 then v4_form p (Z.of_nat m) else Some false) = Some false) as ->.
    { case_match; [|done]. destruct Hv; [|done]. by destruct A. }
    cbn [mbind option_bind]. unfold p. rewrite words_loop_zero by done. cbn [mbind option_bind Z.eqb Pos.eqb]. rewrite app_nil_r.
    by destruct A.
  - split; [|by apply inet6_addr_zero]. apply wtext_length in HA. apply last_text_length in HB. rewrite !length_app. cbn [length].
    destruct A; cbn [length] in *; lia.
Qed.

Lemma ntop_v4 F a b c d m :
  Forall word_ok F -> (length F <= 1)%nat -> word_ok (a, b) -> word_ok (c, d) -> network_order a b c d <> INADDR_NONE ->
  (2 <= m)%nat -> (m + length F = 6)%nat \/ (m = 7%nat /\ F = [] /\ (a, b) = (0, 0)) ->
  let p := flat (replicate (6 - length F) (0, 0) ++ F ++ [(a, b); (c, d)]) in
  zero_run 8 p 0 NO_ZERO NO_ZERO 1 0 = Some (0, Z.of_nat m) -> v4_form p (Z.of_nat m) = Some true -> reads_back p.
Proof.
  intros HF Hl Hab Hcd Hne Hm Hc p Hz Hv. exists (":"%cc :: ":"%cc :: wtext F ++ dotted_text a b c d). split.
  - unfold ngx_inet6_ntop. destruct (Z.ltb_spec len NGX_INET6_ADDRSTRLEN); [unfold NGX_INET6_ADDRSTRLEN in *; lia|].
    rewrite Hz. cbn [mbind option_bind Z.eqb]. rewrite Hv. cbn [mbind option_bind].
    assert (words_loop 9 buf p 0 12 0 (Z.of_nat m) = Some (":"%cc :: wtext F)) as ->.
    { unfold p. destruct Hc as [Hc|(-> & -> & [= -> ->])].
      - replace (6 - length F)%nat with m by lia. apply words_loop_v4; [done..|by left].
      - apply (words_loop_v4 buf Hbuf [] [(c, d)] 7); [done|lia|done|by right]. }
    cbn [mbind option_bind Z.eqb Pos.eqb]. unfold p. rewrite app_assoc, dotted_print; [done|done| |done..].
    rewrite length_app, length_replicate. lia.
  - pose proof (wtext_length F HF). pose proof (dotted_text_length a b c d Hab Hcd). split.
    { cbn [length]. rewrite length_app. lia. }
    rewrite inet6_addr_v4 by done. unfold p. by rewrite (flat_app (replicate _ _)), flat_zeros.
Qed.
End roundtrip.

Lemma v4_form_cases p m :
  length p = 16%nat -> v4_form p m = Some false \/ (v4_form p m = Some true /\ (m = 5 \/ m = 6 \/ m = 7)).
Proof.
  intros Hp. unfold v4_form.
  destruct (rd_in p 10) as [x1 ->]; [lia|]. destruct (rd_in p 11) as [x2 ->]; [lia|].
  destruct (rd_in p 14) as [x3 ->]; [lia|]. destruct (rd_in p 15) as [x4 ->]; [lia|]. cbn [mbind option_bind].
  destruct (_ || _) eqn:E; [right; split; [done|lia]|by left].
Qed.

Lemma network_order_none a b c d :
  word_ok (a, b) -> word_ok (c, d) -> network_order a b c d = INADDR_NONE -> [a; b; c; d] = [255; 255; 255; 255].
Proof.
  unfold word_ok, network_order, INADDR_NONE. cbn [fst snd]. intros. assert (d = 255) by lia. assert (c = 255) by lia.
  assert (b = 255) by lia. assert (a = 255) by lia. by subst.
Qed.

(** C33: IPv6 addresses survive being written and read: with room for 45 bytes
    [ngx_inet6_ntop] writes every 16 bytes as a text of at most 45 bytes, with the
    longest run of zero words shortened and IPv4 addresses dotted, and [ngx_inet6_addr]
    reads it back as the same 16 bytes.  The two exceptions are the addresses whose text
    ends in 255.255.255.255, which [ngx_inet_addr] cannot tell from an error. *)
Theorem inet6_roundtrip buf p len addr :
  is_bytes p -> length p = 16%nat -> 0 <= buf <= 2 ^ 63 -> 45 <= len -> length addr = 16%nat ->
  p <> replicate 12 0 ++ replicate 4 255 -> p <> replicate 10 0 ++ replicate 6 255 ->
  exists text, ngx_inet6_ntop buf p len = Some text /\ (length text <= 45)%nat /\ ngx_inet6_addr text addr = Some (NGX_OK, p).
Proof.
  intros Hb Hp Hbuf Hlen Ha Hx1 Hx2. destruct (words_of p Hb Hp) as (ws & -> & Hl & Hws).
  destruct (zero_run_cases ws Hl) as [Hz|(A & B & m & Hz & Hm & ->)]; [by apply ntop_no_zero|].
  rewrite !length_app, length_replicate in Hl. apply Forall_app in Hws as [HA [_ HB]%Forall_app].
  destruct A as [|w A]; [|apply ntop_zero; [done..|lia|done|by left]].
  cbn [app length] in *. change (2 * Z.of_nat 0) with 0 in Hz.
  destruct (v4_form_cases (flat (replicate m (0, 0) ++ B)) (Z.of_nat m)) as [Hf|[Ht Hm']]; [done| |].
  { apply (ntop_zero buf len addr Hbuf Hlen Ha [] B m); [done..|by right]. }
  assert (m = 5%nat \/ m = 6%nat \/ m = 7%nat) as [-> |[-> | ->]] by lia.
  - destruct B as [|[e f] [|[a b] [|[c d] [|]]]]; try done. do 3 (apply Forall_cons in HB as [? HB]).
    assert (e = 255 /\ f = 255) as [-> ->] by (cbn in Ht; injection Ht as Ht; lia).
    apply (ntop_v4 buf len addr Hbuf Hlen Ha [(255, 255)] a b c d 5); try done; [by repeat constructor| |by left].
    intros E%network_order_none; [|done..]. apply Hx2. by injection E as -> -> -> ->.
  - destruct B as [|[a b] [|[c d] [|]]]; try done. do 2 (apply Forall_cons in HB as [? HB]).
    apply (ntop_v4 buf len addr Hbuf Hlen Ha [] a b c d 6); [constructor|cbn; lia|done|done| |lia|by left|done|done].
    intros E%network_order_none; [|done..]. apply Hx1. by injection E as -> -> -> ->.
  - destruct B as [|[c d] [|]]; try done. apply Forall_cons in HB as [? HB].
    apply (ntop_v4 buf len addr Hbuf Hlen Ha [] 0 0 c d 7); [constructor|cbn; lia|done|done| |lia|by right|done|done].
    by intros E%network_order_none.
Qed.

Example inet6_roundtrip_witness :
  exists text, ngx_inet6_ntop 0 ([32; 1; 13; 184] ++ replicate 11 0 ++ [1]) 45 = Some text /\ (length text <= 45)%nat /\
    ngx_inet6_addr text (replicate 16 0) = Some (NGX_OK, [32; 1; 13; 184] ++ replicate 11 0 ++ [1]).
Proof.
  apply (inet6_roundtrip 0 ([32; 1; 13; 184] ++ replicate 11 0 ++ [1]) 45 (replicate 16 0)); try done; try lia.
  cbn. repeat (apply Forall_cons_2; [unfold is_byte; lia|]). apply Forall_nil_2.
Defined.

(** What the reader accepts besides: one colon at either end of a text with [::], and
    no [::] for the last word alone; and the address it cannot read. *)
Theorem inet6_addr_lenient :
  ngx_inet6_addr (cstr ":1::2") (replicate 16 0) = ngx_inet6_addr (cstr "1::2") (replicate 16 0) /\
  ngx_inet6_addr (cstr "1::2:") (replicate 16 0) = ngx_inet6_addr (cstr "1::2:0") (replicate 16 0) /\
  fst <$> ngx_inet6_addr (cstr "1:2:3:4:5:6:7::") (replicate 16 0) = Some NGX_ERROR /\
  ngx_inet6_ntop 0 (replicate 10 0 ++ replicate 6 255) 45 = Some (cstr "::ffff:255.255.255.255") /\
  fst <$> ngx_inet6_addr (cstr "::ffff:255.255.255.255") (replicate 16 0) = Some NGX_ERROR.
Proof. by vm_compute. Qed.

(** * Prefixes *)

Lemma testbit_255 j : Z.testbit 0xff j = (0 <=? j) && (j <? 8).
Proof.
  destruct (Z.leb_spec 0 j); [|by rewrite Z.testbit_neg_r]. change 0xff with (Z.ones 8).
  destruct (Z.ltb_spec j 8); [by rewrite Z.ones_spec_low by lia|by rewrite Z.ones_spec_high by lia].
Qed.

Lemma htonl_testbit x i :
  0 <= i ->
  Z.testbit (htonl x) i =
  if i <? 8 then Z.testbit x (i + 24) else if i <? 16 then Z.testbit x (i + 8)
  else if i <? 24 then Z.testbit x (i - 8) else if i <? 32 then Z.testbit x (i - 24) else false.
Proof.
  intros Hi. unfold htonl. rewrite !Z.lor_spec, !Z.shiftl_spec, !Z.land_spec, !testbit_255 by done.
  assert (forall j k, 0 <= k -> 0 <= j -> Z.testbit (Z.shiftr x k) j = Z.testbit x (j + k)) as Hs by (intros; by apply Z.shiftr_spec).
  assert (forall b j k, 0 <= k -> Z.testbit (Z.shiftr x k) j && ((0 <=? j) && b) = Z.testbit x (j + k) && ((0 <=? j) && b)) as Hs'.
  { intros b j k Hk. destruct (Z.leb_spec 0 j); [by rewrite Hs|by rewrite !andb_false_r]. }
  rewrite !Hs' by lia.
  replace (i - 16 + 8) with (i - 8) by lia. replace (i - 8 + 16) with (i + 8) by lia.
  destruct (Z.ltb_spec i 8), (Z.ltb_spec i 16), (Z.ltb_spec i 24), (Z.ltb_spec i 32); try lia;
    repeat match goal with |- context [0 <=? ?j] => destruct (Z.leb_spec 0 j); try lia
                         | |- context [?j <? 8] => destruct (Z.ltb_spec j 8); try lia end;
    rewrite ?andb_true_r, ?andb_false_r, ?orb_false_r, ?orb_false_l; done.
Qed.

Lemma htonl_land x y : htonl (Z.land x y) = Z.land (htonl x) (htonl y).
Proof.
  apply Z.bits_inj'. intros i Hi. rewrite Z.land_spec, !htonl_testbit, !Z.land_spec by done. by repeat case_match.
Qed.

Lemma htonl_range x : 0 <= htonl x < 2 ^ 32.
Proof.
  rewrite htonl_bytes. unfold network_order.
  pose proof (Z.mod_pos_bound (x / 2 ^ 24) 256). pose proof (Z.mod_pos_bound (x / 2 ^ 16) 256).
  pose proof (Z.mod_pos_bound (x / 2 ^ 8) 256). pose proof (Z.mod_pos_bound x 256). lia.
Qed.

Lemma htonl_htonl x : 0 <= x < 2 ^ 32 -> htonl (htonl x) = x.
Proof. intros Hx. rewrite htonl_bytes. rewrite htonl_bytes at 1 2 3 4. unfold network_order. Z.to_euclidean_division_equations. lia. Qed.

Lemma inet_addr_range text : 0 <= ngx_inet_addr text < 2 ^ 32.
Proof. unfold ngx_inet_addr. repeat case_match; try (unfold INADDR_NONE; lia). apply htonl_range. Qed.

(** The mask keeps the high [s] bits. *)
Lemma land_high_bits x s : 0 <= s <= 32 -> 0 <= x < 2 ^ 32 -> Z.land x (u32 (0 - 2 ^ (32 - s))) = x - x mod 2 ^ (32 - s).
Proof.
  intros Hs Hx. set (k := 32 - s).
  assert (Z.land x (u32 (0 - 2 ^ k)) = Z.shiftl (Z.shiftr x k) k) as ->.
  { apply Z.bits_inj'. intros i Hi. rewrite Z.land_spec. unfold wrap. rewrite Z.sub_0_l.
    destruct (Z.ltb_spec i 32).
    - rewrite Z.mod_pow2_bits_low by done. replace (- 2 ^ k) with (Z.lnot (Z.ones k)) by (rewrite Z.ones_equiv; unfold Z.lnot; lia).
      rewrite Z.lnot_spec by done. destruct (Z.ltb_spec i k).
      + rewrite Z.ones_spec_low, Z.shiftl_spec_low by lia. by rewrite andb_false_r.
      + rewrite Z.ones_spec_high, Z.shiftl_spec_high, Z.shiftr_spec by lia. rewrite andb_true_r. f_equal. lia.
    - rewrite Z.mod_pow2_bits_high by lia. rewrite andb_false_r. symmetry.
      rewrite Z.shiftl_spec_high, Z.shiftr_spec by lia. replace (i - k + k) with i by lia.
      rewrite <- (Z.mod_small x (2 ^ 32)) by done. apply Z.mod_pow2_bits_high. lia. }
  rewrite Z.shiftl_mul_pow2, Z.shiftr_div_pow2 by lia. pose proof (Z.div_mod x (2 ^ k) ltac:(lia)). lia.
Qed.

Lemma strlchr_first host c rest : Forall (fun x => x <> c) host -> ngx_strlchr (host ++ c :: rest) c = Some (length host).
Proof.
  induction 1 as [|x host Hx _ IH]; cbn; [by rewrite Z.eqb_refl|]. destruct (Z.eqb_spec x c); [done|]. by rewrite IH.
Qed.

Lemma drop_after_slash host c (rest : list Z) : drop (S (length host)) (host ++ c :: rest) = rest.
Proof. rewrite drop_app_ge by lia. replace (S (length host) - length host)%nat with 1%nat by lia. done. Qed.

(** An IPv4 prefix written as an address, a slash and a length up to 32 becomes the
    network and the mask of that length: the mask has that many leading ones, the
    address is cut to them, [NGX_DONE] instead of [NGX_OK] tells that bits were cut, and
    an address matches the prefix exactly when its leading bits are those of the
    address in the text. *)
Theorem ptocidr_correct host digits s :
  let A := ntohl (ngx_inet_addr host) in
  Forall (fun x => x <> "/"%cc) host -> ngx_inet_addr host <> INADDR_NONE -> ngx_atoi digits = s -> 0 <= s <= 32 ->
  exists mask addr,
    ngx_ptocidr (host ++ "/"%cc :: digits) = Some (if A mod 2 ^ (32 - s) =? 0 then NGX_OK else NGX_DONE, Some (cidr_in addr mask)) /\
    ntohl mask = 2 ^ 32 - 2 ^ (32 - s) /\ ntohl addr = A - A mod 2 ^ (32 - s) /\
    forall x, 0 <= x < 2 ^ 32 -> (Z.land (htonl x) mask = addr <-> x / 2 ^ (32 - s) = A / 2 ^ (32 - s)).
Proof.
  intros A Hh Hn Hd Hs. unfold ngx_ptocidr. rewrite strlchr_first by done. cbv zeta. rewrite take_app_length, drop_after_slash, Hd.
  destruct (Z.eqb_spec (ngx_inet_addr host) INADDR_NONE); [done|]. cbn [negb].
  destruct (Z.eqb_spec s NGX_ERROR); [unfold NGX_ERROR in *; lia|]. destruct (Z.ltb_spec 32 s); [lia|].
  set (m := if negb (s =? 0) then htonl (u32 (0 - Z.shiftl 1 (32 - s))) else 0).
  assert (m = htonl (u32 (0 - 2 ^ (32 - s)))) as Hm.
  { unfold m. destruct (Z.eqb_spec s 0) as [-> |]; [done|]. cbn [negb]. by rewrite Z.shiftl_mul_pow2, Z.mul_1_l by lia. }
  pose proof (inet_addr_range host) as Hr. pose proof (htonl_range (ngx_inet_addr host)) as HA. fold (ntohl (ngx_inet_addr host)) in HA. fold A in HA.
  assert (forall x, 0 <= x < 2 ^ 32 -> Z.land (htonl x) m = htonl (x - x mod 2 ^ (32 - s))) as Hland.
  { intros x Hx. by rewrite Hm, <- htonl_land, land_high_bits. }
  assert (ngx_inet_addr host = htonl A) as Haddr by (unfold A, ntohl; by rewrite htonl_htonl).
  assert (0 < 2 ^ (32 - s)) as Hp by lia.
  assert (forall x, 0 <= x < 2 ^ 32 -> 0 <= x - x mod 2 ^ (32 - s) < 2 ^ 32) as Hcut.
  { intros x Hx. pose proof (Z.mod_pos_bound x _ Hp). pose proof (Z.mod_le x (2 ^ (32 - s)) ltac:(lia) Hp). lia. }
  exists m, (htonl (A - A mod 2 ^ (32 - s))). rewrite Haddr, Hland by done. split_and!.
  - destruct (Z.eqb_spec (A mod 2 ^ (32 - s)) 0) as [E|E]; [by rewrite E, Z.sub_0_r, Z.eqb_refl|].
    destruct (Z.eqb_spec (htonl A) (htonl (A - A mod 2 ^ (32 - s)))) as [E2|]; [|done].
    apply (f_equal htonl) in E2. rewrite !htonl_htonl in E2 by auto. lia.
  - unfold ntohl. rewrite Hm, htonl_htonl by (apply wrap_range; lia). unfold wrap. rewrite Z.sub_0_l.
    destruct (decide (s = 0)) as [-> |]; [done|]. rewrite Z.mod_opp_l_nz; rewrite ?Z.mod_small; try lia;
      split; try lia; apply Z.pow_lt_mono_r; lia.
  - unfold ntohl. by apply htonl_htonl, Hcut.
  - intros x Hx. rewrite Hland by done. pose proof (Z.div_mod x (2 ^ (32 - s)) ltac:(lia)). pose proof (Z.div_mod A (2 ^ (32 - s)) ltac:(lia)).
    split; [|intros E; f_equal; nia]. intros E. apply (f_equal htonl) in E. rewrite !htonl_htonl in E by auto. nia.
Qed.

Example ptocidr_correct_witness :
  exists mask addr,
    ngx_ptocidr (cstr "192.168.1.7" ++ "/"%cc :: cstr "16") = Some (NGX_DONE, Some (cidr_in addr mask)) /\
    ntohl addr = 192 * 2 ^ 24 + 168 * 2 ^ 16 /\ Z.land (htonl (192 * 2 ^ 24 + 168 * 2 ^ 16 + 5)) mask = addr.
Proof.
  destruct (ptocidr_correct (cstr "192.168.1.7") (cstr "16") 16) as (mask & addr & E & Hm & Ha & Hx).
  - cbn. repeat (apply Forall_cons_2; [done|]). apply Forall_nil_2.
  - vm_compute. discriminate.
  - reflexivity.
  - lia.
  - exists mask, addr. split; [exact E|]. split; [exact Ha|]. apply Hx; [lia|reflexivity].
Defined.

(** Each byte of the mask of an IPv6 prefix, and the address under the mask. *)
Lemma cidr6_loop_spec addr shift :
  0 <= shift ->
  let '(a, m, cleared) := cidr6_loop addr shift in
  length a = length addr /\ length m = length addr /\ cleared = negb (bool_decide (a = addr)) /\
  forall i x, addr !! i = Some x ->
    let ones := Z.min 8 (Z.max 0 (shift - 8 * Z.of_nat i)) in
    m !! i = Some (u8 (256 - 2 ^ (8 - ones))) /\ a !! i = Some (Z.land x (u8 (256 - 2 ^ (8 - ones)))).
Proof.
  revert shift. induction addr as [|y addr IH]; intros shift Hs.
  { cbn. split_and!; [done|done|by rewrite bool_decide_eq_true_2|done]. }
  cbn [cidr6_loop].
  set (s := if 8 <? shift then 8 else shift). assert (0 <= s <= 8 /\ s <= shift) as Hs' by (unfold s; case_match; lia).
  specialize (IH (shift - s)). destruct (cidr6_loop addr (shift - s)) as [[a m] cleared].
  destruct IH as (Ha & Hm & Hc & Hi); [lia|]. cbn [length].
  assert (u8 (0 - Z.shiftl 1 (8 - s)) = u8 (256 - 2 ^ (8 - s))) as Hu.
  { rewrite Z.shiftl_mul_pow2, Z.mul_1_l by lia. unfold wrap. change (2 ^ 8) with 256.
    replace (256 - 2 ^ (8 - s)) with (0 - 2 ^ (8 - s) + 1 * 256) by lia. by rewrite Z.mod_add. }
  rewrite Hu. split_and!; [lia|lia| |].
  - rewrite Hc. destruct (Z.eqb_spec y (Z.land y (u8 (256 - 2 ^ (8 - s))))) as [E|E].
    + rewrite <- E. cbn. f_equal. apply bool_decide_ext. naive_solver.
    + rewrite (bool_decide_eq_false_2 (_ :: _ = _)); [done|]. intros [= E' _]. by rewrite E' in E.
  - intros [|i] x E; cbv zeta.
    + cbn in E. injection E as ->. replace (Z.min 8 (Z.max 0 (shift - 8 * Z.of_nat 0))) with s by (unfold s; case_match; lia). done.
    + replace (Z.min 8 (Z.max 0 (shift - 8 * Z.of_nat (S i)))) with (Z.min 8 (Z.max 0 (shift - s - 8 * Z.of_nat i))); [by apply Hi|].
      unfold s. case_match; lia.
Qed.

(** The same for IPv6: byte by byte the mask has the leading ones of the prefix length,
    the address is cut to it and [NGX_DONE] tells that bits were cut; any length is
    accepted and those over 128 mean 128. *)
Theorem ptocidr6_correct host digits a6 s :
  Forall (fun x => x <> "/"%cc) host -> ngx_inet_addr host = INADDR_NONE ->
  ngx_inet6_addr host (replicate 16 0) = Some (NGX_OK, a6) -> ngx_atoi digits = s -> 0 <= s ->
  exists addr mask,
    ngx_ptocidr (host ++ "/"%cc :: digits) = Some (if bool_decide (addr = a6) then NGX_OK else NGX_DONE, Some (cidr_in6 addr mask)) /\
    length addr = length a6 /\ length mask = length a6 /\
    forall i x, a6 !! i = Some x ->
      let ones := Z.min 8 (Z.max 0 (s - 8 * Z.of_nat i)) in
      mask !! i = Some (u8 (256 - 2 ^ (8 - ones))) /\ addr !! i = Some (Z.land x (u8 (256 - 2 ^ (8 - ones)))).
Proof.
  intros Hh Hn H6 Hd Hs. unfold ngx_ptocidr. rewrite strlchr_first by done. cbv zeta. rewrite take_app_length, drop_after_slash, Hd, Hn, Z.eqb_refl.
  cbn [negb]. rewrite H6. cbn [mbind option_bind]. rewrite Z.eqb_refl. destruct (Z.eqb_spec s NGX_ERROR); [unfold NGX_ERROR in *; lia|].
  pose proof (cidr6_loop_spec a6 s Hs) as H. destruct (cidr6_loop a6 s) as [[a m] cleared]. destruct H as (Ha & Hm & -> & Hi).
  exists a, m. split; [|done]. by destruct (bool_decide (a = a6)).
Qed.

(** A length over 32 shifts by a negative count. *)
Theorem ptocidr_long_prefix : ngx_ptocidr (cstr "10.0.0.0/33") = None.
Proof. done. Qed.
