(* ===== verification/NgxHttpRange.v ===== *)
(** Byte ranges of a response: src/http/modules/ngx_http_range_filter_module.c.

    The header filter reads the Range header and announces the parts, the body filter
    cuts the response to them.  A header value is the list of its bytes; the zero that
    ends it in memory is what [peek] gives at the end of the list.  The memory and the
    file that buffers point into are functions from addresses and offsets to bytes.
    [push] and [alloc] tell which allocations succeed.  A chain is the list of its
    buffers. *)

From S2P Require Import Prelude NgxNumber NgxSprintf NgxStr NgxTime.

Open Scope Z_scope.

Definition NGX_HTTP_RANGE_NOT_SATISFIABLE : Z := 416.
Definition NGX_HTTP_OK : Z := 200.
Definition NGX_HTTP_VERSION_10 : Z := 1000.

(** * The Range header *)

(** [*p] *)
Definition peek (p : list Z) : Z := match p with c :: _ => c | [] => 0 end.

(** [while ( *p == ' ') { p++; }] *)
Fixpoint skip_spaces (p : list Z) : list Z :=
  match p with c :: p' => if c =? " "%cc then skip_spaces p' else p | [] => [] end.

(** [while ( *p >= '0' && *p <= '9') { start = start * 10 + *p++ - '0'; }] *)
Fixpoint off_digits (v : Z) (p : list Z) : Z * list Z :=
  match p with
  | c :: p' => if ("0"%cc <=? c) && (c <=? "9"%cc) then off_digits (i64 (v * 10 + c - "0"%cc)) p' else (v, p)
  | [] => (v, [])
  end.

Definition not_digit (c : Z) : bool := (c <? "0"%cc) || ("9"%cc <? c).

(** The end of a range; [None] is [return NGX_HTTP_RANGE_NOT_SATISFIABLE]. *)
Definition range_end (content_length start : Z) (suffix : bool) (p : list Z) : option (Z * Z * list Z) :=
  if not_digit (peek p) then None
  else
    let '(end_, p) := off_digits 0 p in
    let p := skip_spaces p in
    if negb (peek p =? ","%cc) && negb (peek p =? 0) then None
    else
      let '(start, end_) := if suffix then (i64 (content_length - end_), i64 (content_length - 1)) else (start, end_) in
      let end_ := if content_length <=? end_ then content_length else i64 (end_ + 1) in
      Some (start, end_, p).

(** A turn of the loop up to the label [found]. *)
Definition range_spec (content_length : Z) (p : list Z) : option (Z * Z * list Z) :=
  let p := skip_spaces p in
  if negb (peek p =? "-"%cc) then
    if not_digit (peek p) then None
    else
      let '(start, p) := off_digits 0 p in
      let p := skip_spaces p in
      if negb (peek p =? "-"%cc) then None
      else
        let p := skip_spaces (tail p) in
        if (peek p =? ","%cc) || (peek p =? 0) then Some (start, content_length, p)
        else range_end content_length start false p
  else range_end content_length 0 true (tail p).

(** What follows the loop. *)
Definition range_verdict (content_length size : Z) (acc : list (Z * Z)) : Z :=
  match acc with
  | [] => NGX_HTTP_RANGE_NOT_SATISFIABLE
  | _ => if content_length <? size then NGX_DECLINED else NGX_OK
  end.

(** The loop; [acc] is [ctx->ranges], [ranges] the number of ranges still allowed. *)
Fixpoint range_loop (fuel : nat) (push : nat -> bool) (content_length ranges size : Z) (acc : list (Z * Z)) (p : list Z)
  : option (Z * list (Z * Z)) :=
  match fuel with
  | O => None
  | S fuel' =>
      match range_spec content_length p with
      | None => Some (NGX_HTTP_RANGE_NOT_SATISFIABLE, acc)
      | Some (start, end_, p) =>
          let next ranges size acc :=
            if negb (peek p =? ","%cc) then Some (range_verdict content_length size acc, acc)
            else range_loop fuel' push content_length ranges size acc (tail p) in
          if start <? end_ then
            if push (length acc) then
              if ranges =? 0 then Some (NGX_DECLINED, acc ++ [(start, end_)])
              else next (ranges - 1) (i64 (size + (end_ - start))) (acc ++ [(start, end_)])
            else Some (NGX_ERROR, acc)
          else next ranges size acc
      end
  end.

(** [value] is the whole value of the header, from "bytes=" on. *)
Definition ngx_http_range_parse (push : nat -> bool) (value : list Z) (content_length ranges : Z) : option (Z * list (Z * Z)) :=
  range_loop (S (length value)) push content_length ranges 0 [] (drop 6 value).

(** * The header filter *)

Record ngx_http_range_t := mk_range { range_start : Z; range_stop : Z; content_range : list Z }.

Record ngx_http_range_filter_ctx_t := mk_range_ctx {
  rf_offset : Z;
  rf_boundary_header : list Z;
  rf_ranges : list ngx_http_range_t;
}.

(** What the filter reads of the request and its response. *)
Record range_request := mk_range_request {
  rr_http_version : Z;
  rr_status : Z;
  rr_main : bool;
  rr_content_length : Z;
  rr_allow_ranges : bool;
  rr_range : option (list Z);
  rr_if_range : option (list Z);
  rr_last_modified : Z;
  rr_content_type : list Z;
  rr_charset : list Z;
}.

(** What is passed to the next header filter. *)
Inductive range_answer :=
| Unchanged
| Accept_ranges
| Not_satisfiable (content_range : list Z)
| Partial (ctx : ngx_http_range_filter_ctx_t) (content_range : option (list Z)) (content_type : option (list Z)) (content_length : Z)
| Range_error.

Definition CRLF : list Z := [CR; LF].

(** [buf] is the address of the allocated texts; [alloc] tells whether the header field
    and its texts are allocated. *)
Definition ngx_http_range_singlepart_header (alloc : bool) (buf : Z) (content_length : Z) (start end_ : Z) : option range_answer :=
  if negb alloc then Some Range_error else
  text ← ngx_sprintf buf (cstr "bytes %O-%O/%O") [va_int start; va_int (i64 (end_ - 1)); va_int content_length];
  Some (Partial (mk_range_ctx 0 [] [mk_range start end_ []]) (Some text) None (i64 (end_ - start))).

(** The texts of the ranges and the length of the parts, from [len] on. *)
Fixpoint part_headers (buf boundary_len content_length len : Z) (rs : list (Z * Z)) : option (list ngx_http_range_t * Z) :=
  match rs with
  | [] => Some ([], len)
  | (start, end_) :: rs' =>
      text ← ngx_sprintf buf (cstr "%O-%O/%O" ++ CRLF ++ CRLF) [va_int start; va_int (i64 (end_ - 1)); va_int content_length];
      let len := u64 (len + boundary_len + Z.of_nat (length text) + u64 (i64 (end_ - start))) in
      '(parts, len) ← part_headers buf boundary_len content_length len rs';
      Some (mk_range start end_ text :: parts, len)
  end.

Definition NGX_ATOMIC_T_LEN : Z := 20.

Definition boundary_header (buf : Z) (r : range_request) (boundary : Z) : option (list Z) :=
  if negb (length (rr_charset r) =? 0)%nat then
    ngx_sprintf buf (CRLF ++ cstr "--%0muA" ++ CRLF ++ cstr "Content-Type: %V; charset=%V" ++ CRLF ++ cstr "Content-Range: bytes ")
      [va_int boundary; va_str (rr_content_type r); va_str (rr_charset r)]
  else if negb (length (rr_content_type r) =? 0)%nat then
    ngx_sprintf buf (CRLF ++ cstr "--%0muA" ++ CRLF ++ cstr "Content-Type: %V" ++ CRLF ++ cstr "Content-Range: bytes ")
      [va_int boundary; va_str (rr_content_type r)]
  else ngx_sprintf buf (CRLF ++ cstr "--%0muA" ++ CRLF ++ cstr "Content-Range: bytes ") [va_int boundary].

(** [boundary] is [ngx_next_temp_number(0)]. *)
Definition ngx_http_range_multipart_header (alloc : bool) (buf : Z) (r : range_request) (boundary : Z) (rs : list (Z * Z)) : option range_answer :=
  if negb alloc then Some Range_error else
  header ← boundary_header buf r boundary;
  content_type ← ngx_sprintf buf (cstr "multipart/byteranges; boundary=%0muA") [va_int boundary];
  let len := 4 + NGX_ATOMIC_T_LEN + 4 in
  '(parts, len) ← part_headers buf (Z.of_nat (length header)) (rr_content_length r) len rs;
  Some (Partial (mk_range_ctx 0 header parts) None (Some content_type) (i64 len)).

Definition ngx_http_range_not_satisfiable (alloc : bool) (buf : Z) (content_length : Z) : option range_answer :=
  if negb alloc then Some Range_error else
  text ← ngx_sprintf buf (cstr "bytes */%O") [va_int content_length];
  Some (Not_satisfiable text).

(** [alloc_ctx], [alloc_field] and [alloc_text] tell whether the context, a header field
    and the texts of the answer are allocated. *)
Definition ngx_http_range_header_filter (alloc_ctx alloc_field alloc_text : bool) (push : nat -> bool) (buf boundary max_ranges : Z) (r : range_request)
  : option range_answer :=
  if (rr_http_version r <? NGX_HTTP_VERSION_10) || negb (rr_status r =? NGX_HTTP_OK) || negb (rr_main r)
     || (rr_content_length r =? -1) || negb (rr_allow_ranges r)
  then Some Unchanged
  else if max_ranges =? 0 then Some Unchanged
  else
    let next_filter := Some (if alloc_field then Accept_ranges else Range_error) in
    match rr_range r with
    | None => next_filter
    | Some value =>
        if (length value <? 7)%nat then next_filter
        else
          m ← ngx_strncasecmp value (cstr "bytes=") 6;
          if negb (m =? 0) then next_filter
          else
            same ← match rr_if_range r with
                   | Some v =>
                       if negb (rr_last_modified r =? -1) then
                         t ← ngx_http_parse_time v; Some (t =? rr_last_modified r)
                       else Some true
                   | None => Some true
                   end;
            if negb same then next_filter
            else if negb alloc_ctx then Some Range_error
            else
              '(rc, rs) ← ngx_http_range_parse push value (rr_content_length r) max_ranges;
              if rc =? NGX_OK then
                match rs with
                | [(start, end_)] => ngx_http_range_singlepart_header (alloc_field && alloc_text) buf (rr_content_length r) start end_
                | _ => ngx_http_range_multipart_header alloc_text buf r boundary rs
                end
              else if rc =? NGX_HTTP_RANGE_NOT_SATISFIABLE then ngx_http_range_not_satisfiable (alloc_field && alloc_text) buf (rr_content_length r)
              else if rc =? NGX_ERROR then Some Range_error
              else next_filter
    end.

(** * The body filter *)

(** The fields of [ngx_buf_t] that the filter uses; [memory] is
    [temporary || memory || mmap]. *)
Record ngx_buf_t := mk_chain_buf {
  pos : Z;
  last : Z;
  file_pos : Z;
  file_last : Z;
  memory : bool;
  in_file : bool;
  flush : bool;
  sync : bool;
  last_buf : bool;
}.

Definition ngx_buf_in_memory (b : ngx_buf_t) : bool := memory b.
Definition ngx_buf_special (b : ngx_buf_t) : bool := (flush b || last_buf b || sync b) && negb (ngx_buf_in_memory b) && negb (in_file b).
Definition ngx_buf_size (b : ngx_buf_t) : Z := if ngx_buf_in_memory b then last b - pos b else file_last b - file_pos b.

(** The buffer once it is skipped, cut at its start and cut at its end. *)
Definition skip_buf (b : ngx_buf_t) : ngx_buf_t :=
  mk_chain_buf (last b) (last b) (if in_file b then file_last b else file_pos b) (file_last b) (memory b) (in_file b) (flush b) true (last_buf b).

Definition cut_start (n : Z) (b : ngx_buf_t) : ngx_buf_t :=
  mk_chain_buf (if ngx_buf_in_memory b then pos b + n else pos b) (last b) (if in_file b then file_pos b + n else file_pos b) (file_last b)
    (memory b) (in_file b) (flush b) (sync b) (last_buf b).

Definition cut_end (n : Z) (b : ngx_buf_t) : ngx_buf_t :=
  mk_chain_buf (pos b) (if ngx_buf_in_memory b then last b - n else last b) (file_pos b) (if in_file b then file_last b - n else file_last b)
    (memory b) (in_file b) (flush b) (sync b) true.

(** The loop over the chain.  [out] is what is linked so far and [after] what follows it
    in the chain, the buffers skipped since: the last linked buffer still points to
    them when the loop ends. *)
Fixpoint singlepart_loop (start end_ : Z) (offset : Z) (out after : list ngx_buf_t) (chain : list ngx_buf_t) : Z * list ngx_buf_t :=
  match chain with
  | [] => (offset, match out with [] => [] | _ => out ++ after end)
  | buf :: chain' =>
      let first := offset in
      let last := offset + ngx_buf_size buf in
      if ngx_buf_special buf then singlepart_loop start end_ last (out ++ [buf]) [] chain'
      else if (end_ <=? first) || (last <=? start) then singlepart_loop start end_ last out (after ++ [skip_buf buf]) chain'
      else
        let buf := if first <? start then cut_start (start - first) buf else buf in
        if end_ <=? last then (last, out ++ [cut_end (last - end_) buf])
        else singlepart_loop start end_ last (out ++ [buf]) [] chain'
  end.

(** The new [ctx->offset] and the chain passed on. *)
Definition ngx_http_range_singlepart_body (range : ngx_http_range_t) (offset : Z) (chain : list ngx_buf_t) : Z * list ngx_buf_t :=
  singlepart_loop (range_start range) (range_stop range) offset [] [] chain.

Definition ngx_http_range_test_overlapped (ctx : ngx_http_range_filter_ctx_t) (buf : ngx_buf_t) : option Z :=
  if negb (rf_offset ctx =? 0) then None
  else if negb (last_buf buf)
          && existsb (fun range => (range_start range <? rf_offset ctx)
                                    || (rf_offset ctx + ngx_buf_size buf <? range_stop range)) (rf_ranges ctx)
  then None
  else Some (ngx_buf_size buf).

(** A part of the output: a text the filter has made, or a buffer. *)
Inductive out_part := Out_text (text : list Z) | Out_buf (b : ngx_buf_t).

Definition part_data (buf : ngx_buf_t) (range : ngx_http_range_t) : ngx_buf_t :=
  mk_chain_buf (if ngx_buf_in_memory buf then pos buf + range_start range else 0)
    (if ngx_buf_in_memory buf then pos buf + range_stop range else 0)
    (if in_file buf then file_pos buf + range_start range else 0)
    (if in_file buf then file_pos buf + range_stop range else 0)
    (memory buf) (in_file buf) false false false.

Definition ngx_http_range_multipart_body (ctx : ngx_http_range_filter_ctx_t) (buf : ngx_buf_t) : list out_part :=
  concat ((fun range => [Out_text (rf_boundary_header ctx); Out_text (content_range range); Out_buf (part_data buf range)]) <$> rf_ranges ctx)
  ++ [Out_text (take (Z.to_nat (4 + NGX_ATOMIC_T_LEN)) (rf_boundary_header ctx) ++ cstr "--" ++ CRLF)].

(** The body filter on a chain that is not empty: the context and what is passed on, or
    an error; [alloc] tells whether the allocations for the parts succeed. *)
Definition ngx_http_range_body_filter (alloc : bool) (ctx : ngx_http_range_filter_ctx_t) (chain : list ngx_buf_t)
  : option (ngx_http_range_filter_ctx_t * list out_part) :=
  match rf_ranges ctx, chain with
  | [range], _ =>
      let '(offset, out) := ngx_http_range_singlepart_body range (rf_offset ctx) chain in
      Some (mk_range_ctx offset (rf_boundary_header ctx) (rf_ranges ctx), Out_buf <$> out)
  | _, [] => Some (ctx, [])
  | _, buf :: _ =>
      if ngx_buf_special buf then Some (ctx, Out_buf <$> chain)
      else
        match ngx_http_range_test_overlapped ctx buf with
        | None => None
        | Some offset =>
            if alloc
            then Some (mk_range_ctx offset (rf_boundary_header ctx) (rf_ranges ctx), ngx_http_range_multipart_body ctx buf)
            else None
        end
  end.

(** * What a Range header asks for *)

(** A range of the header, its numbers as they are written. *)
Inductive byte_spec :=
| From (a : list Z)
| From_to (a b : list Z)
| Suffix (n : list Z).

Definition spaces (n : nat) : list Z := replicate n " "%cc.

(** The texts of a range, with the spaces that are allowed in it. *)
Inductive spec_text : byte_spec -> list Z -> Prop :=
| text_from a i j k : spec_text (From a) (spaces i ++ a ++ spaces j ++ "-"%cc :: spaces k)
| text_from_to a b i j k l : spec_text (From_to a b) (spaces i ++ a ++ spaces j ++ "-"%cc :: spaces k ++ b ++ spaces l)
| text_suffix n i j : spec_text (Suffix n) (spaces i ++ "-"%cc :: n ++ spaces j).

(** Ranges between commas. *)
Inductive specs_text : list byte_spec -> list Z -> Prop :=
| texts_one s t : spec_text s t -> specs_text [s] t
| texts_more s t ss ts : spec_text s t -> specs_text ss ts -> specs_text (s :: ss) (t ++ ","%cc :: ts).

(** A number is not empty and has only digits; [spec_ok] wants it to fit [off_t]. *)
Definition number_shape (a : list Z) : Prop := a <> [] /\ forallb is_digit a = true.

Definition spec_shape (s : byte_spec) : Prop :=
  match s with From a => number_shape a | From_to a b => number_shape a /\ number_shape b | Suffix n => number_shape n end.

Definition number_ok (a : list Z) : Prop := dec_value a < 2 ^ 63 - 1.

Definition spec_ok (s : byte_spec) : Prop :=
  spec_shape s /\ match s with From a => number_ok a | From_to a b => number_ok a /\ number_ok b | Suffix n => number_ok n end.

(** Text that no range starts: none is followed by a comma or by the end. *)
Definition no_range (t : list Z) : Prop :=
  forall s u rest, t = u ++ rest -> peek rest = ","%cc \/ rest = [] -> spec_shape s -> ~ spec_text s u.

(** Ranges between commas, then text that is not a range. *)
Inductive broken_text : list byte_spec -> list Z -> Prop :=
| broken_here t : no_range t -> broken_text [] t
| broken_later s t ss ts : spec_text s t -> broken_text ss ts -> broken_text (s :: ss) (t ++ ","%cc :: ts).

(** A header whose ranges are [ss], to its end or up to text that is not a range. *)
Definition header_text (whole : bool) (ss : list byte_spec) (t : list Z) : Prop :=
  if whole then specs_text ss t else broken_text ss t /\ 0 ∉ t.

(** The bytes a range asks for, of [len] bytes. *)
Definition resolve (len : Z) (s : byte_spec) : Z * Z :=
  match s with
  | From a => (dec_value a, len)
  | From_to a b => (dec_value a, Z.min len (dec_value b + 1))
  | Suffix n => (len - dec_value n, len)
  end.

Definition range_size (r : Z * Z) : Z := Z.max 0 (r.2 - r.1).
Definition total (rs : list (Z * Z)) : Z := foldr (fun r n => range_size r + n) 0 rs.
Definition nonempty (r : Z * Z) : bool := r.1 <? r.2.

Lemma skip_spaces_app n p : peek p <> " "%cc -> skip_spaces (spaces n ++ p) = p.
Proof.
  intros Hp. induction n as [|n IH]; cbn; [|done]. destruct p as [|c p]; [done|]. cbn in *.
  by destruct (Z.eqb_spec c " "%cc).
Qed.

(** The value the parser takes for digits, in [off_t]. *)
Definition off_value (v : Z) (a : list Z) : Z := fold_left (fun v c => i64 (v * 10 + c - "0"%cc)) a v.

Lemma off_digits_app v a p :
  forallb is_digit a = true -> is_digit (peek p) = false -> off_digits v (a ++ p) = (off_value v a, p).
Proof.
  intros Ha Hp. revert v. induction a as [|c a IH]; intros v; cbn [app].
  - destruct p as [|c p]; [done|]. cbn in *. fold (is_digit c). by rewrite Hp.
  - cbn [forallb] in Ha. apply andb_true_iff in Ha as [Hc Ha]. cbn [off_digits]. fold (is_digit c). rewrite Hc. by apply IH.
Qed.

Lemma off_value_num v a :
  forallb is_digit a = true -> 0 <= v -> num_acc 10 dec_val v a < 2 ^ 63 -> off_value v a = num_acc 10 dec_val v a.
Proof.
  revert v. induction a as [|c a IH]; intros v Ha Hv Hb; [done|].
  cbn [forallb] in Ha. apply andb_true_iff in Ha as [Hc Ha].
  apply is_digit_val in Hc. unfold dec_val in Hc.
  change (num_acc 10 dec_val v (c :: a)) with (num_acc 10 dec_val (v * 10 + dec_val c) a) in Hb |- *.
  assert (v * 10 + dec_val c <= num_acc 10 dec_val (v * 10 + dec_val c) a) as Hmono.
  { rewrite num_acc_shift. pose proof (dec_value_bound a Ha) as [Hd _]. unfold dec_value in Hd.
    pose proof (Z.pow_pos_nonneg 10 (Z.of_nat (length a)) ltac:(lia) ltac:(lia)) as Hp10.
    assert (0 <= v * 10 + dec_val c) as Hx by (unfold dec_val; lia). nia. }
  unfold dec_val at 1 in Hmono. cbn [off_value fold_left]. fold (off_value (i64 (v * 10 + c - "0"%cc)) a).
  rewrite swrap_small by (unfold dec_val in *; lia).
  replace (v * 10 + c - "0"%cc) with (v * 10 + dec_val c) by (unfold dec_val; lia). apply IH; [done|unfold dec_val; lia|done].
Qed.

(** The bounds the parser computes for a range, its numbers read in [off_t]. *)
Definition read_end (len e : Z) : Z := if len <=? e then len else i64 (e + 1).

Definition read_spec (len : Z) (s : byte_spec) : Z * Z :=
  match s with
  | From a => (off_value 0 a, len)
  | From_to a b => (off_value 0 a, read_end len (off_value 0 b))
  | Suffix n => (i64 (len - off_value 0 n), read_end len (i64 (len - 1)))
  end.

Lemma peek_number a p : number_shape a ->
  not_digit (peek (a ++ p)) = false /\ peek (a ++ p) <> " "%cc /\ peek (a ++ p) <> "-"%cc /\ peek (a ++ p) <> ","%cc /\ peek (a ++ p) <> 0.
Proof.
  intros (Hne & Hd). destruct a as [|c a]; [done|]. cbn in *. apply andb_true_iff in Hd as [Hc _].
  unfold is_digit, not_digit in *. lia.
Qed.

Lemma digit_spaces n p : is_digit (peek p) = false -> is_digit (peek (spaces n ++ p)) = false.
Proof. by destruct n. Qed.

(** What may follow a range. *)
Lemma peek_stop rest : peek rest = ","%cc \/ rest = [] ->
  is_digit (peek rest) = false /\ peek rest <> " "%cc /\ (peek rest = ","%cc \/ peek rest = 0).
Proof. intros [E|E]; rewrite E; auto. Qed.

Lemma range_end_run len start suffix a l rest :
  number_shape a -> peek rest = ","%cc \/ rest = [] ->
  range_end len start suffix (a ++ spaces l ++ rest) =
  Some (if suffix : bool then (i64 (len - off_value 0 a), read_end len (i64 (len - 1))) else (start, read_end len (off_value 0 a)), rest).
Proof.
  intros Ha (Hr1 & Hr2 & Hr3)%peek_stop. unfold range_end. destruct (peek_number a (spaces l ++ rest) Ha) as (-> & _).
  rewrite off_digits_app by (apply Ha || by apply digit_spaces). rewrite skip_spaces_app by done.
  replace (negb (peek rest =? ","%cc) && negb (peek rest =? 0)) with false by lia. by destruct suffix.
Qed.

(** One range of the header. *)
Lemma range_spec_run len s t rest :
  spec_shape s -> spec_text s t -> peek rest = ","%cc \/ rest = [] -> range_spec len (t ++ rest) = Some (read_spec len s, rest).
Proof.
  intros Hs Ht Hrest. pose proof (peek_stop rest Hrest) as (Hr1 & Hr2 & Hr3).
  destruct Ht as [a i j k|a b i j k l|n i j]; unfold range_spec; rewrite <- !app_assoc; cbn [app]; rewrite <- ?app_assoc.
  - destruct (peek_number a (spaces j ++ "-"%cc :: spaces k ++ rest) Hs) as (H5 & H1 & H2 & _).
    rewrite skip_spaces_app by done. destruct (Z.eqb_spec (peek (a ++ spaces j ++ "-"%cc :: spaces k ++ rest)) "-"%cc); [done|].
    cbn [negb]. rewrite H5, off_digits_app by (apply Hs || by apply digit_spaces). rewrite skip_spaces_app by done. cbn [peek tail Z.eqb Pos.eqb negb].
    rewrite skip_spaces_app by done. by replace ((peek rest =? ","%cc) || (peek rest =? 0)) with true by lia.
  - destruct Hs as [Ha Hb]. destruct (peek_number a (spaces j ++ "-"%cc :: spaces k ++ b ++ spaces l ++ rest) Ha) as (H5 & H1 & H2 & _).
    rewrite skip_spaces_app by done. destruct (Z.eqb_spec (peek (a ++ spaces j ++ "-"%cc :: spaces k ++ b ++ spaces l ++ rest)) "-"%cc); [done|].
    cbn [negb]. rewrite H5, off_digits_app by (apply Ha || by apply digit_spaces). rewrite skip_spaces_app by done. cbn [peek tail Z.eqb Pos.eqb negb].
    destruct (peek_number b (spaces l ++ rest) Hb) as (_ & H6 & _ & H7 & H8). rewrite skip_spaces_app by done.
    replace ((peek (b ++ spaces l ++ rest) =? ","%cc) || (peek (b ++ spaces l ++ rest) =? 0)) with false by lia. by rewrite range_end_run.
  - rewrite skip_spaces_app by done. cbn [peek tail Z.eqb Pos.eqb negb]. by rewrite range_end_run.
Qed.

Lemma read_resolve len s : 0 <= len < 2 ^ 63 -> spec_ok s -> read_spec len s = resolve len s.
Proof.
  assert (forall a, number_shape a -> number_ok a -> off_value 0 a = dec_value a /\ 0 <= dec_value a) as Hn.
  { intros a (_ & Hd) Hv. split; [|by apply dec_value_bound]. unfold number_ok, dec_value in Hv. apply off_value_num; [done|lia|lia]. }
  intros Hlen (Hs & Hok). destruct s as [a|a b|n]; cbn [read_spec resolve spec_shape] in *; unfold read_end.
  - destruct (Hn a) as [-> _]; done.
  - destruct Hs as [Ha Hb], Hok as [Ha' Hb']. destruct (Hn a Ha Ha') as [-> _], (Hn b Hb Hb') as [-> H]. unfold number_ok in Hb'.
    f_equal. case_match; [lia|]. rewrite swrap_small by lia. lia.
  - destruct (Hn n) as [-> H]; [done..|]. unfold number_ok in Hok. rewrite !(swrap_small 64 (len - _)) by lia.
    f_equal. case_match; [lia|]. rewrite swrap_small by lia. lia.
Qed.

Lemma range_spec_correct len s t rest :
  0 <= len < 2 ^ 63 -> spec_ok s -> spec_text s t -> peek rest = ","%cc \/ rest = [] ->
  range_spec len (t ++ rest) = Some (resolve len s, rest).
Proof. intros Hlen Hs Ht Hrest. rewrite (range_spec_run len s) by (apply Hs || done). by rewrite read_resolve. Qed.

(** ** Text the parser accepts is a range *)

Lemma skip_spaces_split p : exists n, p = spaces n ++ skip_spaces p.
Proof.
  induction p as [|c p (n & IH)]; [by exists O|]. cbn. destruct (Z.eqb_spec c " "%cc) as [-> |]; [|by exists O].
  exists (S n). cbn. by f_equal.
Qed.

Lemma off_digits_split v p : exists a, forallb is_digit a = true /\ p = a ++ (off_digits v p).2.
Proof.
  revert v. induction p as [|c p IH]; intros v; [by exists []|]. cbn [off_digits]. fold (is_digit c).
  destruct (is_digit c) eqn:Hc; [|by exists []]. destruct (IH (i64 (v * 10 + c - "0"%cc))) as (a & Ha & E).
  exists (c :: a). cbn [forallb app]. rewrite Hc. split; [done|]. by f_equal.
Qed.

Lemma off_digits_number v p r rest :
  off_digits v p = (r, rest) -> not_digit (peek p) = false -> exists a, number_shape a /\ p = a ++ rest.
Proof.
  intros E Hp. destruct (off_digits_split v p) as (a & Ha & Ep). rewrite E in Ep. cbn in Ep. exists a. split; [|done]. split; [|done].
  intros ->. cbn in Ep. subst rest. destruct p as [|c p]; [done|]. cbn [off_digits] in E.
  unfold not_digit in Hp. cbn in Hp. destruct (("0"%cc <=? c) && (c <=? "9"%cc)) eqn:Hc; [|lia].
  destruct (off_digits_split (i64 (v * 10 + c - "0"%cc)) p) as (a & _ & Ep). rewrite E in Ep. cbn in Ep.
  apply (f_equal length) in Ep. rewrite length_app in Ep. cbn in Ep. lia.
Qed.

Lemma peek_head c p : peek p = c -> c <> 0 -> p = c :: tail p.
Proof. destruct p; cbn; congruence. Qed.

Lemma peek_end p : 0 ∉ p -> peek p = 0 -> p = [].
Proof. destruct p as [|c p]; [done|]. cbn. intros Hp ->. destruct Hp. by constructor. Qed.

Lemma range_end_split len start suffix p start' stop rest :
  range_end len start suffix p = Some (start', stop, rest) -> 0 ∉ p ->
  exists a l, number_shape a /\ p = a ++ spaces l ++ rest /\ (peek rest = ","%cc \/ rest = []).
Proof.
  unfold range_end. destruct (not_digit (peek p)) eqn:Hp; [done|]. destruct (off_digits 0 p) as [e q] eqn:E.
  destruct (off_digits_number _ _ _ _ E Hp) as (a & Ha & ->). intros H H0.
  destruct (skip_spaces_split q) as (l & Eq). destruct (_ && _) eqn:Hc; [done|].
  destruct suffix; injection H as _ _ <-; exists a, l; rewrite <- Eq; (split; [done|split; [done|]]).
  all: destruct (Z.eqb_spec (peek (skip_spaces q)) ","%cc) as [Hq|_]; [by left|right]; apply peek_end; [|lia].
  all: intros Hin; apply H0; rewrite Eq; rewrite !elem_of_app; auto.
Qed.

Lemma range_spec_split len p start stop rest :
  range_spec len p = Some (start, stop, rest) -> 0 ∉ p ->
  exists s u, spec_shape s /\ spec_text s u /\ p = u ++ rest /\ (peek rest = ","%cc \/ rest = []).
Proof.
  unfold range_spec. destruct (skip_spaces_split p) as (i & Ep). set (q := skip_spaces p) in *. clearbody q. subst p.
  intros H H0. assert (0 ∉ q) as H0q by (intros Hin; apply H0; rewrite elem_of_app; auto). clear H0.
  destruct (Z.eqb_spec (peek q) "-"%cc) as [Hq|Hq]; cbn [negb] in H.
  - apply peek_head in Hq; [|done]. rewrite Hq in H0q |- *. apply range_end_split in H as (n & j & Hn & Eq & Hrest).
    + exists (Suffix n), (spaces i ++ "-"%cc :: n ++ spaces j). split; [done|]. split; [constructor|]. split; [|done].
      rewrite Eq, <- !app_assoc. cbn [app]. by rewrite <- app_assoc.
    + intros Hin. apply H0q. by constructor.
  - destruct (not_digit (peek q)) eqn:Hd; [done|]. destruct (off_digits 0 q) as [v q1] eqn:E.
    destruct (off_digits_number _ _ _ _ E Hd) as (a & Ha & ->). destruct (skip_spaces_split q1) as (j & Eq1).
    destruct (Z.eqb_spec (peek (skip_spaces q1)) "-"%cc) as [Hm|Hm]; cbn [negb] in H; [|done].
    apply peek_head in Hm; [|done]. set (q2 := tail (skip_spaces q1)) in *. clearbody q2. rewrite Hm in Eq1. subst q1.
    destruct (skip_spaces_split q2) as (k & Eq2). set (q3 := skip_spaces q2) in *. clearbody q3. subst q2.
    assert (0 ∉ q3) as H03 by (intros Hin; apply H0q; rewrite !elem_of_app, elem_of_cons, elem_of_app; auto).
    destruct (_ || _) eqn:Hc.
    + injection H as _ _ <-. exists (From a), (spaces i ++ a ++ spaces j ++ "-"%cc :: spaces k). split; [done|]. split; [constructor|].
      rewrite <- !app_assoc. cbn [app]. split; [done|].
      destruct (Z.eqb_spec (peek q3) ","%cc) as [Hq3|_]; [by left|right; apply peek_end; [done|lia]].
    + apply range_end_split in H as (b & l & Hb & -> & Hrest); [|done].
      exists (From_to a b), (spaces i ++ a ++ spaces j ++ "-"%cc :: spaces k ++ b ++ spaces l). split; [done|]. split; [constructor|].
      rewrite <- !app_assoc. cbn [app]. by rewrite <- !app_assoc.
Qed.

Lemma no_range_rejected len t : no_range t -> 0 ∉ t -> range_spec len t = None.
Proof.
  intros Hn H0. destruct (range_spec len t) as [[[start stop] rest]|] eqn:E; [|done].
  apply range_spec_split in E as (s & u & Hs & Hu & Et & Hrest); [|done]. by destruct (Hn s u rest Et Hrest Hs).
Qed.

(** Every header is one of the two kinds. *)
Lemma header_text_cases t : 0 ∉ t -> exists whole ss, header_text whole ss t /\ Forall spec_shape ss.
Proof.
  induction t as [t IH] using (induction_ltof1 _ (@length Z)). unfold ltof in IH. intros H0.
  destruct (range_spec 0 t) as [[[start stop] rest]|] eqn:E.
  - apply range_spec_split in E as (s & u & Hs & Hu & -> & [Hrest| ->]); [| |done].
    + apply peek_head in Hrest; [|done]. rewrite Hrest in *. set (ts := tail rest) in *. clearbody ts.
      assert (0 ∉ ts) as H0s by (intros Hin; apply H0; rewrite elem_of_app, elem_of_cons; auto).
      destruct (IH ts) as ([] & ss & Ht & Hss); [rewrite length_app; cbn [length]; lia|done| |].
      * exists true, (s :: ss). split; [|by constructor]. by apply texts_more.
      * exists false, (s :: ss). split; [|by constructor]. split; [|done]. apply broken_later; [done|]. apply Ht.
    + exists true, [s]. rewrite app_nil_r. split; [by apply texts_one|by apply Forall_singleton].
  - exists false, []. split; [|done]. split; [|done]. apply broken_here. intros s u rest -> Hrest Hs Hu.
    by rewrite (range_spec_run 0 s u rest) in E.
Qed.

Lemma total_app a b : total (a ++ b) = total a + total b.
Proof. induction a as [|r a IH]; cbn; [done|]. fold (total (a ++ b)). fold (total a). lia. Qed.

Lemma total_nonneg rs : 0 <= total rs.
Proof. induction rs as [|r rs IH]; cbn; [done|]. fold (total rs). unfold range_size. lia. Qed.

(** What has to be answered when the ranges of the header resolve to [rs] and [whole]
    tells that nothing else follows them: those that are not empty when together they
    are no longer than the content; 416 when there is none or something else follows;
    [NGX_DECLINED], the whole content, when they are more than [max] or too long. *)
Definition range_answer_of (len max : Z) (whole : bool) (rs : list (Z * Z)) : Z * list (Z * Z) :=
  let found := filter (fun r => nonempty r = true) rs in
  if bool_decide (Z.of_nat (length found) <= max) then
    match whole, found with
    | true, _ :: _ => if bool_decide (total found <= len) then (NGX_OK, found) else (NGX_DECLINED, found)
    | _, _ => (NGX_HTTP_RANGE_NOT_SATISFIABLE, found)
    end
  else (NGX_DECLINED, take (S (Z.to_nat max)) found).

Lemma filter_all (acc : list (Z * Z)) : Forall (fun r => nonempty r = true) acc -> filter (fun r => nonempty r = true) acc = acc.
Proof. induction 1 as [|r acc Hr _ IH]; [done|]. by rewrite filter_cons_True, IH. Qed.

(** An empty range is left out. *)
Lemma range_answer_empty len max whole acc r rs :
  nonempty r = false -> range_answer_of len max whole (acc ++ r :: rs) = range_answer_of len max whole (acc ++ rs).
Proof.
  intros Hr. unfold range_answer_of. rewrite !filter_app, filter_cons_False by (by rewrite Hr). done.
Qed.

(** The range that is one too many. *)
Lemma range_answer_full len whole acc r rs :
  Forall (fun r => nonempty r = true) acc -> nonempty r = true ->
  range_answer_of len (Z.of_nat (length acc) + 0) whole (acc ++ r :: rs) = (NGX_DECLINED, acc ++ [r]).
Proof.
  intros Hacc Hr. unfold range_answer_of. rewrite filter_app, filter_all, filter_cons_True by done.
  rewrite length_app. cbn [length]. rewrite bool_decide_false by lia.
  replace (S (Z.to_nat (Z.of_nat (length acc) + 0))) with (length acc + 1)%nat by lia.
  by rewrite take_app_add.
Qed.

Lemma range_answer_end len max acc :
  Forall (fun r => nonempty r = true) acc -> 0 <= max ->
  range_answer_of len (Z.of_nat (length acc) + max) true acc = (range_verdict len (total acc) acc, acc).
Proof.
  intros Hacc Hm. unfold range_answer_of. rewrite filter_all, bool_decide_true by (done || lia).
  destruct acc as [|r acc]; [done|]. unfold range_verdict.
  destruct (Z.ltb_spec len (total (r :: acc))); [by rewrite bool_decide_false by lia|by rewrite bool_decide_true].
Qed.

Lemma range_answer_broken len max acc :
  Forall (fun r => nonempty r = true) acc -> 0 <= max ->
  range_answer_of len (Z.of_nat (length acc) + max) false acc = (NGX_HTTP_RANGE_NOT_SATISFIABLE, acc).
Proof. intros Hacc Hm. unfold range_answer_of. by rewrite filter_all, bool_decide_true by (done || lia). Qed.

(** A turn of the loop. *)
Lemma range_turn fuel len max acc s t rest :
  0 <= len < 2 ^ 63 -> spec_ok s -> spec_text s t -> peek rest = ","%cc \/ rest = [] -> 0 <= max ->
  total acc + total [resolve len s] < 2 ^ 63 -> Forall (fun r => nonempty r = true) acc ->
  range_loop (S fuel) (fun _ => true) len max (total acc) acc (t ++ rest) =
  if nonempty (resolve len s) && (max =? 0) then Some (NGX_DECLINED, acc ++ [resolve len s])
  else
    let '(max', acc') := if nonempty (resolve len s) then (max - 1, acc ++ [resolve len s]) else (max, acc) in
    if negb (peek rest =? ","%cc) then Some (range_verdict len (total acc') acc', acc')
    else range_loop fuel (fun _ => true) len max' (total acc') acc' (tail rest).
Proof.
  intros Hlen Hs Ht Hrest Hmax Htot Hacc. cbn [range_loop]. rewrite (range_spec_correct len s t rest) by done.
  destruct (resolve len s) as [start end_] eqn:E. unfold nonempty. cbn [fst snd].
  destruct (Z.ltb_spec start end_); cbn [andb]; [|done]. destruct (max =? 0); [done|].
  rewrite total_app. cbn [total foldr] in Htot |- *. unfold range_size in *. cbn [fst snd] in *.
  pose proof (total_nonneg acc). rewrite (swrap_small 64) by lia.
  replace (total acc + (Z.max 0 (end_ - start) + 0)) with (total acc + (end_ - start)) by lia. done.
Qed.

Lemma range_answer_max len max max' whole rs : max = max' -> range_answer_of len max whole rs = range_answer_of len max' whole rs.
Proof. by intros ->. Qed.

(** A turn before a comma, given what the loop does with the ranges after it. *)
Lemma range_turn_comma fuel len max acc s t ts ss whole :
  0 <= len < 2 ^ 63 -> spec_ok s -> spec_text s t -> 0 <= max ->
  total acc + total (resolve len <$> (s :: ss)) < 2 ^ 63 -> Forall (fun r => nonempty r = true) acc ->
  (forall max' acc', 0 <= max' -> total acc' + total (resolve len <$> ss) < 2 ^ 63 -> Forall (fun r => nonempty r = true) acc' ->
    range_loop fuel (fun _ => true) len max' (total acc') acc' ts =
    Some (range_answer_of len (Z.of_nat (length acc') + max') whole (acc' ++ (resolve len <$> ss)))) ->
  range_loop (S fuel) (fun _ => true) len max (total acc) acc (t ++ ","%cc :: ts) =
  Some (range_answer_of len (Z.of_nat (length acc) + max) whole (acc ++ (resolve len <$> (s :: ss)))).
Proof.
  intros Hlen Hs Ht Hmax Htot Hacc IH. cbn [fmap list_fmap] in Htot |- *.
  assert (total [resolve len s] + total (resolve len <$> ss) = total (resolve len s :: (resolve len <$> ss))) as Ht2 by (by rewrite <- total_app).
  pose proof (total_nonneg (resolve len <$> ss)). pose proof (total_nonneg [resolve len s]).
  rewrite (range_turn _ _ _ _ s) by (done || lia || by left). cbn [peek tail Z.eqb Pos.eqb negb].
  destruct (nonempty (resolve len s)) eqn:Hne; cbn [andb].
  - destruct (Z.eqb_spec max 0) as [-> |]; [by rewrite range_answer_full|].
    rewrite IH; [|lia|rewrite total_app; lia|by apply Forall_app_2; [|apply Forall_singleton]].
    rewrite <- app_assoc, length_app. cbn [app length]. f_equal. apply range_answer_max. lia.
  - rewrite IH by (done || lia). by rewrite range_answer_empty.
Qed.

Lemma range_loop_whole len ss t :
  specs_text ss t -> forall fuel max acc,
  0 <= len < 2 ^ 63 -> Forall spec_ok ss -> (length t < fuel)%nat -> 0 <= max ->
  total acc + total (resolve len <$> ss) < 2 ^ 63 -> Forall (fun r => nonempty r = true) acc ->
  range_loop fuel (fun _ => true) len max (total acc) acc t =
  Some (range_answer_of len (Z.of_nat (length acc) + max) true (acc ++ (resolve len <$> ss))).
Proof.
  induction 1 as [s t Ht|s t ss ts Ht Hts IH]; intros fuel max acc Hlen Hok Hf Hmax Htot Hacc;
    (destruct fuel as [|fuel]; [lia|]); apply Forall_cons in Hok as [Hs Hok].
  - cbn [fmap list_fmap] in *. rewrite <- (app_nil_r t), (range_turn _ _ _ _ s) by (done || by right). cbn [peek Z.eqb negb].
    destruct (nonempty (resolve len s)) eqn:Hne; cbn [andb].
    + destruct (Z.eqb_spec max 0) as [-> |]; [by rewrite range_answer_full|].
      rewrite <- (range_answer_end len (max - 1) (acc ++ [resolve len s])) by
        (lia || by apply Forall_app_2; [|apply Forall_singleton]).
      rewrite length_app. cbn [length]. f_equal. apply range_answer_max. lia.
    + rewrite range_answer_empty, app_nil_r by done. by rewrite range_answer_end.
  - rewrite length_app in Hf. cbn [length] in Hf. apply range_turn_comma; [done..|].
    intros max' acc' Hm' Ht' Ha'. apply IH; (done || lia).
Qed.

Lemma range_loop_broken len ss t :
  broken_text ss t -> forall fuel max acc, 0 ∉ t ->
  0 <= len < 2 ^ 63 -> Forall spec_ok ss -> (length t < fuel)%nat -> 0 <= max ->
  total acc + total (resolve len <$> ss) < 2 ^ 63 -> Forall (fun r => nonempty r = true) acc ->
  range_loop fuel (fun _ => true) len max (total acc) acc t =
  Some (range_answer_of len (Z.of_nat (length acc) + max) false (acc ++ (resolve len <$> ss))).
Proof.
  induction 1 as [t Ht|s t ss ts Ht Hts IH]; intros fuel max acc H0 Hlen Hok Hf Hmax Htot Hacc; (destruct fuel as [|fuel]; [lia|]).
  - cbn [fmap list_fmap range_loop]. rewrite no_range_rejected by done. by rewrite app_nil_r, range_answer_broken.
  - apply Forall_cons in Hok as [Hs Hok]. rewrite length_app in Hf. cbn [length] in Hf. apply range_turn_comma; [done..|].
    rewrite not_elem_of_app, not_elem_of_cons in H0. intros max' acc' Hm' Ht' Ha'. apply IH; (tauto || lia).
Qed.

Lemma range_size_le_total r rs : r ∈ rs -> range_size r <= total rs.
Proof.
  induction 1 as [r rs|r r' rs _ IH]; cbn; [pose proof (total_nonneg rs); fold (total rs); lia|].
  fold (total rs). unfold range_size in *. lia.
Qed.

Lemma resolve_bounds len s : spec_ok s -> (resolve len s).2 <= len /\ (range_size (resolve len s) <= len -> 0 <= (resolve len s).1).
Proof.
  assert (forall a, number_shape a -> 0 <= dec_value a) as Hn by (intros a (_ & Hd); by apply dec_value_bound).
  destruct s as [a|a b|n]; intros [Hs _]; cbn in *.
  - specialize (Hn a Hs). lia.
  - destruct Hs as [Ha _]. specialize (Hn a Ha). lia.
  - specialize (Hn n Hs). unfold range_size. cbn. lia.
Qed.

(** The Range header is read as it is meant: for ranges [a-], [a-b] and [-n] with
    their spaces and commas, whose numbers and total size fit [off_t], the ranges that
    are not empty are returned in order; [NGX_DECLINED] when they are more than allowed
    or together longer than the content, 416 when there is none or when the text goes on
    with something that is no range; and ranges that are accepted lie inside the
    content. *)
Theorem range_parse_correct len max whole ss t :
  0 <= len < 2 ^ 63 -> 0 <= max -> Forall spec_ok ss -> header_text whole ss t -> total (resolve len <$> ss) < 2 ^ 63 ->
  let answer := range_answer_of len max whole (resolve len <$> ss) in
  ngx_http_range_parse (fun _ => true) (cstr "bytes=" ++ t) len max = Some answer /\
  (answer.1 = NGX_OK -> Forall (fun r => 0 <= r.1 < r.2 /\ r.2 <= len) answer.2 /\ total answer.2 <= len /\ Z.of_nat (length answer.2) <= max).
Proof.
  intros Hlen Hmax Hok Ht Htot answer. split.
  - unfold ngx_http_range_parse. change (drop 6 (cstr "bytes=" ++ t)) with t. change 0 with (total []) at 1.
    assert (length t < S (length (cstr "bytes=" ++ t)))%nat by (rewrite length_app; lia).
    destruct whole; [rewrite (range_loop_whole len ss t) by done|rewrite (range_loop_broken len ss t) by (apply Ht || done)]; done.
  - unfold answer, range_answer_of. set (found := filter _ _). case_bool_decide as Hn; [|done].
    destruct whole, found as [|r0 found'] eqn:Ef; [done| |done..]. rewrite <- Ef in *. case_bool_decide as Hle; [|done]. intros _. cbn [snd].
    split; [|done]. apply Forall_forall. intros r Hr. pose proof (range_size_le_total _ _ Hr) as Hsz.
    apply list_elem_of_filter in Hr as [Hne (s & -> & Hs)%list_elem_of_fmap]. rewrite Forall_forall in Hok.
    destruct (resolve_bounds len s (Hok s Hs)) as [H1 H2]. unfold nonempty in Hne. lia.
Qed.

Example range_parse_correct_witness :
  ngx_http_range_parse (fun _ => true) (cstr "bytes=" ++ cstr "0-9" ++ ","%cc :: cstr " -5") 100 10 = Some (NGX_OK, [(0, 10); (95, 100)]) /\
  Forall (fun r => 0 <= r.1 < r.2 /\ r.2 <= 100) [(0, 10); (95, 100)].
Proof.
  destruct (range_parse_correct 100 10 true [From_to (cstr "0") (cstr "9"); Suffix (cstr "5")] (cstr "0-9" ++ ","%cc :: cstr " -5")) as [H1 H2].
  - lia.
  - lia.
  - repeat constructor; try discriminate; vm_compute; reflexivity.
  - apply texts_more; [|apply texts_one].
    + exact (text_from_to (cstr "0") (cstr "9") 0 0 0 0).
    + exact (text_suffix (cstr "5") 1 0).
  - vm_compute. reflexivity.
  - split; [exact H1|]. exact (proj1 (H2 eq_refl)).
Defined.

(** The total size is added up in [off_t] without a check, so suffixes longer than the
    content are accepted when they are two and their sum wraps around: the ranges start
    before the content. *)
Theorem range_size_wraps :
  ngx_http_range_parse (fun _ => true) (cstr "bytes=-9223372036854775807,-9223372036854775807") 100 10
  = Some (NGX_OK, [(-9223372036854775707, 100); (-9223372036854775707, 100)]).
Proof. vm_compute. reflexivity. Qed.

(** * The body *)

Section body.
Context (mem file : Z -> Z).

(** The bytes of a buffer. *)
Definition buf_data (b : ngx_buf_t) : list Z :=
  if memory b then mem <$> seqZ (pos b) (last b - pos b)
  else if in_file b then file <$> seqZ (file_pos b) (file_last b - file_pos b) else [].

Definition chain_data (chain : list ngx_buf_t) : list Z := concat (buf_data <$> chain).

Definition part_bytes (p : out_part) : list Z := match p with Out_text t => t | Out_buf b => buf_data b end.

(** A buffer has as many bytes as its size says. *)
Definition buf_ok (b : ngx_buf_t) : Prop := 0 <= ngx_buf_size b /\ (memory b = false -> in_file b = false -> ngx_buf_size b = 0).

(** The bytes of [d], which starts at [o], between [start] and [stop]. *)
Definition cut (start stop o : Z) (d : list Z) : list Z := drop (Z.to_nat (start - o)) (take (Z.to_nat (stop - o)) d).

Lemma seqZ_split m n k : 0 <= k <= n -> seqZ m n = seqZ m k ++ seqZ (m + k) (n - k).
Proof. intros. rewrite <- seqZ_app by lia. f_equal. lia. Qed.

Lemma drop_seqZ m n k : 0 <= k <= n -> drop (Z.to_nat k) (seqZ m n) = seqZ (m + k) (n - k).
Proof. intros. rewrite (seqZ_split m n k) by done. rewrite drop_app_length'; [done|]. by rewrite length_seqZ. Qed.

Lemma take_seqZ m n k : 0 <= k <= n -> take (Z.to_nat k) (seqZ m n) = seqZ m k.
Proof. intros. rewrite (seqZ_split m n k) by done. rewrite take_app_length'; [done|]. by rewrite length_seqZ. Qed.

Lemma buf_data_length b : buf_ok b -> Z.of_nat (length (buf_data b)) = ngx_buf_size b.
Proof.
  intros [H1 H2]. unfold buf_data, ngx_buf_size, ngx_buf_in_memory in *.
  destruct (memory b); [rewrite length_fmap, length_seqZ; lia|].
  destruct (in_file b); [rewrite length_fmap, length_seqZ; lia|]. cbn. by rewrite H2.
Qed.

Lemma cut_start_data n b : 0 <= n <= ngx_buf_size b -> buf_data (cut_start n b) = drop (Z.to_nat n) (buf_data b).
Proof.
  unfold buf_data, ngx_buf_size, cut_start, ngx_buf_in_memory. cbn. intros Hn.
  destruct (memory b); [|destruct (in_file b); [|by rewrite drop_nil]].
  - rewrite <- fmap_drop, drop_seqZ by lia. do 2 f_equal. lia.
  - rewrite <- fmap_drop, drop_seqZ by lia. do 2 f_equal. lia.
Qed.

Lemma cut_end_data n b : 0 <= n <= ngx_buf_size b -> buf_data (cut_end n b) = take (Z.to_nat (ngx_buf_size b - n)) (buf_data b).
Proof.
  unfold buf_data, ngx_buf_size, cut_end, ngx_buf_in_memory. cbn. intros Hn.
  destruct (memory b); [|destruct (in_file b); [|by rewrite take_nil]].
  - rewrite <- fmap_take, take_seqZ by lia. do 2 f_equal. lia.
  - rewrite <- fmap_take, take_seqZ by lia. do 2 f_equal. lia.
Qed.

Lemma cut_start_size n b : buf_ok b -> 0 <= n <= ngx_buf_size b -> ngx_buf_size (cut_start n b) = ngx_buf_size b - n.
Proof.
  intros [_ H2]. unfold ngx_buf_size, cut_start, ngx_buf_in_memory in *. cbn.
  destruct (memory b); [lia|]. destruct (in_file b); [lia|]. rewrite H2 by done. lia.
Qed.

Lemma skip_buf_data b : buf_data (skip_buf b) = [].
Proof.
  unfold buf_data, skip_buf. cbn. destruct (memory b); [|destruct (in_file b); [|done]]; by rewrite Z.sub_diag.
Qed.

Lemma cut_app start stop o d1 d2 :
  start <= stop -> cut start stop o (d1 ++ d2) = cut start stop o d1 ++ cut start stop (o + Z.of_nat (length d1)) d2.
Proof.
  intros Hs. unfold cut. rewrite take_app, drop_app, length_take.
  replace (Z.to_nat (stop - o) - length d1)%nat with (Z.to_nat (stop - (o + Z.of_nat (length d1)))) by lia.
  destruct (decide (stop - o <= Z.of_nat (length d1))).
  - replace (Z.to_nat (stop - (o + Z.of_nat (length d1)))) with 0%nat by lia. by rewrite !take_0, !drop_nil.
  - f_equal. f_equal. lia.
Qed.

Lemma cut_outside start stop o d : start <= stop -> stop <= o \/ o + Z.of_nat (length d) <= start -> cut start stop o d = [].
Proof.
  intros Hs [H|H]; unfold cut.
  - replace (Z.to_nat (stop - o)) with 0%nat by lia. by rewrite take_0, drop_nil.
  - apply drop_ge. rewrite length_take. lia.
Qed.

Lemma chain_data_app a b : chain_data (a ++ b) = chain_data a ++ chain_data b.
Proof. unfold chain_data. by rewrite fmap_app, concat_app. Qed.

Lemma chain_data_cons b chain : chain_data (b :: chain) = buf_data b ++ chain_data chain.
Proof. done. Qed.

Lemma special_data b : ngx_buf_special b = true -> buf_data b = [].
Proof. unfold ngx_buf_special, buf_data, ngx_buf_in_memory. destruct (memory b), (in_file b); by rewrite ?andb_false_r. Qed.

(** A buffer that meets the range, cut to it. *)
Lemma cut_buf start stop o b :
  buf_ok b -> start <= stop -> o < stop -> start < o + ngx_buf_size b ->
  let b1 := if o <? start then cut_start (start - o) b else b in
  (stop <= o + ngx_buf_size b -> buf_data (cut_end (o + ngx_buf_size b - stop) b1) = cut start stop o (buf_data b)) /\
  (o + ngx_buf_size b < stop -> buf_data b1 = cut start stop o (buf_data b)).
Proof.
  intros Hb Hs H1 H2 b1. pose proof (buf_data_length b Hb) as Hl. unfold b1.
  destruct (Z.ltb_spec o start).
  - assert (ngx_buf_size (cut_start (start - o) b) = ngx_buf_size b - (start - o)) as Hsz by (apply cut_start_size; [done|lia]).
    split; intros Hstop.
    + rewrite cut_end_data by lia. rewrite Hsz, cut_start_data by lia. unfold cut. rewrite skipn_firstn_comm. f_equal. lia.
    + rewrite cut_start_data by lia. unfold cut. by rewrite (take_ge (buf_data b)) by lia.
  - unfold cut. replace (Z.to_nat (start - o)) with 0%nat by lia. rewrite drop_0. split; intros Hstop.
    + rewrite cut_end_data by lia. f_equal. lia.
    + by rewrite take_ge by lia.
Qed.

Lemma singlepart_loop_data start stop offset out after chain offset' res :
  start <= stop -> Forall buf_ok chain -> chain_data after = [] ->
  singlepart_loop start stop offset out after chain = (offset', res) ->
  chain_data res = chain_data out ++ cut start stop offset (chain_data chain) /\
  (offset' = offset + Z.of_nat (length (chain_data chain)) \/ (stop <= offset' /\ stop <= offset + Z.of_nat (length (chain_data chain)))).
Proof.
  intros Hs Hok. revert offset out after. induction Hok as [|b chain Hb Hok IH]; intros offset out after Ha; cbn [singlepart_loop].
  { intros [= <- <-]. split; [|left; cbn; lia]. unfold cut. cbn. rewrite take_nil, drop_nil, app_nil_r.
    destruct out as [|x out]; [done|]. by rewrite chain_data_app, Ha, app_nil_r. }
  pose proof (buf_data_length b Hb) as Hlen. rewrite !chain_data_cons, cut_app, length_app, Hlen by done.
  assert (forall out' after', chain_data after' = [] -> chain_data out' = chain_data out ++ cut start stop offset (buf_data b) ->
    singlepart_loop start stop (offset + ngx_buf_size b) out' after' chain = (offset', res) ->
    chain_data res = chain_data out ++ cut start stop offset (buf_data b) ++ cut start stop (offset + ngx_buf_size b) (chain_data chain) /\
    (offset' = offset + Z.of_nat (length (buf_data b) + length (chain_data chain)) \/
     (stop <= offset' /\ stop <= offset + Z.of_nat (length (buf_data b) + length (chain_data chain))))) as Hnext.
  { intros out' after' Ha' Ho' E. apply IH in E as [E1 E2]; [|done]. rewrite E1, Ho', <- app_assoc. split; [done|]. lia. }
  destruct (ngx_buf_special b) eqn:Hsp.
  { apply Hnext; [done|]. rewrite chain_data_app. cbn. rewrite special_data by done. unfold cut. by rewrite take_nil, drop_nil. }
  destruct (Z.leb_spec stop offset); cbn [orb].
  { apply Hnext; [by rewrite chain_data_app, chain_data_cons, skip_buf_data, Ha|]. rewrite cut_outside, app_nil_r by (done || by left). done. }
  destruct (Z.leb_spec (offset + ngx_buf_size b) start).
  { apply Hnext; [by rewrite chain_data_app, chain_data_cons, skip_buf_data, Ha|].
    rewrite cut_outside, app_nil_r by (done || right; lia). done. }
  destruct (cut_buf start stop offset b Hb Hs) as [Hc1 Hc2]; [lia|lia|].
  destruct (Z.leb_spec stop (offset + ngx_buf_size b)).
  - intros [= <- <-]. rewrite chain_data_app, chain_data_cons, Hc1 by done. cbn [chain_data fmap list_fmap concat]. rewrite app_nil_r.
    split; [|right; lia]. rewrite (cut_outside start stop (offset + ngx_buf_size b)) by (done || by left). by rewrite app_nil_r.
  - apply Hnext; [done|]. rewrite chain_data_app, chain_data_cons, Hc2 by done. cbn. by rewrite app_nil_r.
Qed.

(** The bytes passed on when the body comes in several chains. *)
Fixpoint feed (alloc : bool) (ctx : ngx_http_range_filter_ctx_t) (chains : list (list ngx_buf_t)) : option (list Z) :=
  match chains with
  | [] => Some []
  | chain :: chains' =>
      '(ctx, out) ← ngx_http_range_body_filter alloc ctx chain;
      rest ← feed alloc ctx chains';
      Some (concat (part_bytes <$> out) ++ rest)
  end.

Lemma part_bytes_bufs out : concat (part_bytes <$> (Out_buf <$> out)) = chain_data out.
Proof. unfold chain_data. by rewrite <- list_fmap_compose. Qed.

Lemma feed_single alloc range header chains offset o :
  range_start range <= range_stop range -> Forall (Forall buf_ok) chains ->
  offset = o \/ (range_stop range <= offset /\ range_stop range <= o) ->
  feed alloc (mk_range_ctx offset header [range]) chains =
  Some (cut (range_start range) (range_stop range) o (concat (chain_data <$> chains))).
Proof.
  intros Hr Hok. revert offset o. induction Hok as [|chain chains Hc Hok IH]; intros offset o Ho; cbn [feed fmap list_fmap concat].
  { unfold cut. by rewrite take_nil, drop_nil. }
  unfold ngx_http_range_body_filter. cbn [rf_ranges rf_offset rf_boundary_header].
  destruct (ngx_http_range_singlepart_body range offset chain) as [offset' out] eqn:E. cbn [mbind option_bind].
  apply singlepart_loop_data in E as [E1 E2]; [|done..]. cbn [app] in E1.
  rewrite (IH offset' (o + Z.of_nat (length (chain_data chain)))) by lia. cbn [mbind option_bind].
  rewrite part_bytes_bufs, E1, cut_app by done. do 2 f_equal.
  destruct Ho as [-> |Ho]; [done|]. by rewrite !cut_outside by (done || left; lia).
Qed.

(** * Announcement and body agree *)

(** The bytes from [start] up to [stop]. *)
Definition slice_of (start stop : Z) (body : list Z) : list Z := drop (Z.to_nat start) (take (Z.to_nat stop) body).

Lemma slice_of_length start stop body :
  0 <= start <= stop -> stop <= Z.of_nat (length body) -> Z.of_nat (length (slice_of start stop body)) = stop - start.
Proof. intros. unfold slice_of. rewrite length_drop, length_take. lia. Qed.

(** With one range the client gets exactly the bytes it asked for: however the body
    is cut into chains of buffers in memory or in files, the filter passes on the bytes
    of the range, in order, and nothing else. *)
Theorem singlepart_body_correct alloc range header chains :
  let body := concat (chain_data <$> chains) in
  0 <= range_start range <= range_stop range -> Forall (Forall buf_ok) chains ->
  feed alloc (mk_range_ctx 0 header [range]) chains = Some (slice_of (range_start range) (range_stop range) body).
Proof.
  intros body Hr Hok. rewrite (feed_single alloc range header chains 0 0) by (done || lia || by left).
  unfold cut, slice_of. by rewrite !Z.sub_0_r.
Qed.

(** What is announced for a range: SSSS-EEEE/TTTT. *)
Definition range_text (start stop len : Z) : list Z := decimal start ++ "-"%cc :: decimal (stop - 1) ++ "/"%cc :: decimal len.

(** Evaluates a format: its next plain characters, its next directive by [lem]. *)
Ltac print_plain :=
  match goal with |- context [ngx_vslprintf ?room (?t ++ ?fmt) ?args] =>
    let n := eval vm_compute in (Z.of_nat (length t)) in
    rewrite (vslprintf_text t n room fmt args eq_refl eq_refl) by lia
  end.
Ltac print_directive lem := erewrite vslprintf_directive by (first [apply lem; lia | lia]).

Lemma print_range room fmt start stop len :
  0 <= start < stop -> stop <= len -> len < 2 ^ 63 -> 200 <= room ->
  exists room', 100 <= room' /\
  ngx_vslprintf room (cstr "%O-%O/%O" ++ fmt) [va_int start; va_int (i64 (stop - 1)); va_int len] =
  (rest ← ngx_vslprintf room' fmt []; Some (range_text start stop len ++ rest)).
Proof.
  intros Hs Hl Hlen Hr. rewrite (swrap_small 64) by lia.
  destruct (decimal_digits start) as (_ & H1 & _); [lia|]. destruct (decimal_digits (stop - 1)) as (_ & H2 & _); [lia|].
  destruct (decimal_digits len) as (_ & H3 & _); [lia|].
  change (cstr "%O-%O/%O" ++ fmt) with ("%"%cc :: "O"%cc :: ["-"%cc] ++ "%"%cc :: "O"%cc :: ["/"%cc] ++ "%"%cc :: "O"%cc :: fmt).
  print_directive print_O. print_plain. print_directive print_O. print_plain. print_directive print_O.
  eexists. split; [|match goal with |- context [ngx_vslprintf ?r fmt []] => destruct (ngx_vslprintf r fmt []) as [t|] eqn:E end].
  - shelve.
  - cbn [mbind option_bind]. rewrite E. cbn [mbind option_bind app]. unfold range_text.
    do 3 (rewrite <- ?app_assoc; cbn [app]). done.
  - cbn [mbind option_bind]. by rewrite E.
  Unshelve. cbn [length]. lia.
Qed.


Lemma take_drop_seqZ m n start stop :
  0 <= start <= stop -> stop <= n -> seqZ (m + start) (stop - start) = drop (Z.to_nat start) (take (Z.to_nat stop) (seqZ m n)).
Proof. intros. by rewrite take_seqZ, drop_seqZ by lia. Qed.

(** The data of a part. *)
Lemma part_data_bytes buf range :
  memory buf || in_file buf = true -> 0 <= range_start range <= range_stop range -> range_stop range <= ngx_buf_size buf ->
  buf_data (part_data buf range) = slice_of (range_start range) (range_stop range) (buf_data buf).
Proof.
  unfold buf_data, part_data, slice_of, ngx_buf_size, ngx_buf_in_memory. cbn. intros Hb Hr Hs.
  destruct (memory buf).
  - rewrite <- fmap_take, <- fmap_drop, <- take_drop_seqZ by lia. do 2 f_equal. lia.
  - destruct (in_file buf); [|done]. rewrite <- fmap_take, <- fmap_drop, <- take_drop_seqZ by lia. do 2 f_equal. lia.
Qed.

(** What stands before the data of a part. *)
Definition part_text (start stop len : Z) : list Z := range_text start stop len ++ CRLF ++ CRLF.

(** The multipart body: the parts and the last boundary. *)
Definition multipart_bytes (header : list Z) (boundary len : Z) (body : list Z) (rs : list (Z * Z)) : list Z :=
  concat ((fun r => header ++ part_text r.1 r.2 len ++ slice_of r.1 r.2 body) <$> rs)
  ++ CRLF ++ cstr "--" ++ padded boundary ++ cstr "--" ++ CRLF.

Definition in_content (len : Z) (r : Z * Z) : Prop := 0 <= r.1 < r.2 /\ r.2 <= len.

Lemma part_headers_correct addr bl len rs total0 :
  0 <= addr <= 2 ^ 62 -> len < 2 ^ 63 -> Forall (in_content len) rs ->
  part_headers addr bl len (u64 total0) rs =
  Some ((fun r => mk_range r.1 r.2 (part_text r.1 r.2 len)) <$> rs,
        u64 (foldl (fun n r => n + (bl + Z.of_nat (length (part_text r.1 r.2 len)) + (r.2 - r.1))) total0 rs)).
Proof.
  intros Ha Hlen Hrs. revert total0. induction Hrs as [|[start stop] rs [Hr1 Hr2] _ IH]; intros total0; [done|]. cbn [fst snd] in *.
  cbn [part_headers]. unfold ngx_sprintf.
  destruct (print_range (2 ^ 64 - 1 - addr) (CRLF ++ CRLF) start stop len) as (room' & Hroom & ->); [done..|lia|].
  rewrite <- (app_nil_r (CRLF ++ CRLF)). print_plain. cbn [mbind option_bind ngx_vslprintf vslprintf_loop length].
  rewrite app_nil_r. fold (part_text start stop len). rewrite (swrap_small 64), (wrap_small 64 (stop - start)) by lia.
  assert (u64 (u64 total0 + bl + Z.of_nat (length (part_text start stop len)) + (stop - start)) =
    u64 (total0 + (bl + Z.of_nat (length (part_text start stop len)) + (stop - start)))) as ->.
  { pose proof (wrap_lin 64 total0 1 (bl + Z.of_nat (length (part_text start stop len)) + (stop - start))) as E.
    rewrite !Z.mul_1_r in E. rewrite <- E. f_equal. lia. }
  by rewrite IH.
Qed.

Lemma boundary_header_correct addr r boundary :
  0 <= addr <= 2 ^ 62 -> 0 <= boundary < 2 ^ 64 ->
  Z.of_nat (length (rr_content_type r)) <= 2 ^ 32 -> Z.of_nat (length (rr_charset r)) <= 2 ^ 32 ->
  exists tail, boundary_header addr r boundary = Some ((CRLF ++ cstr "--") ++ padded boundary ++ tail).
Proof.
  intros Ha Hb Hct Hcs. pose proof (padded_length boundary Hb) as Hp. unfold boundary_header, ngx_sprintf.
  assert (forall fmt args, exists room', 2 ^ 62 <= room' /\
    ngx_vslprintf (2 ^ 64 - 1 - addr) ((CRLF ++ cstr "--") ++ "%"%cc :: "0"%cc :: "m"%cc :: "u"%cc :: "A"%cc :: fmt) (va_int boundary :: args) =
    (rest ← ngx_vslprintf room' fmt args; Some ((CRLF ++ cstr "--") ++ padded boundary ++ rest))) as Hstart.
  { intros fmt args. print_plain. print_directive print_0muA. rewrite Hp.
    eexists. split; [shelve|]. match goal with |- context [ngx_vslprintf ?x fmt args] => destruct (ngx_vslprintf x fmt args) as [t|] eqn:E end;
      cbn [mbind option_bind]; by rewrite E.
    Unshelve. cbn. lia. }
  assert (forall room, 1000 <= room -> ngx_vslprintf room ((CRLF ++ cstr "Content-Range: bytes ") ++ []) [] = Some (CRLF ++ cstr "Content-Range: bytes ")) as Hend.
  { intros room Hroom. print_plain. cbn [mbind option_bind ngx_vslprintf vslprintf_loop length]. by rewrite app_nil_r. }
  case_match; [|case_match].
  - destruct (Hstart ((CRLF ++ cstr "Content-Type: ") ++ "%"%cc :: "V"%cc :: cstr "; charset=" ++ "%"%cc :: "V"%cc ::
      (CRLF ++ cstr "Content-Range: bytes ") ++ []) [va_str (rr_content_type r); va_str (rr_charset r)]) as (room' & Hroom & E).
    match type of E with ngx_vslprintf _ ?f _ = _ => match goal with |- context [ngx_vslprintf _ ?g _] => change g with f end end.
    rewrite E. print_plain. print_directive print_V. print_plain. print_directive print_V. rewrite Hend by lia. by eexists.
  - destruct (Hstart ((CRLF ++ cstr "Content-Type: ") ++ "%"%cc :: "V"%cc :: (CRLF ++ cstr "Content-Range: bytes ") ++ [])
      [va_str (rr_content_type r)]) as (room' & Hroom & E).
    match type of E with ngx_vslprintf _ ?f _ = _ => match goal with |- context [ngx_vslprintf _ ?g _] => change g with f end end.
    rewrite E. print_plain. print_directive print_V. rewrite Hend by lia. by eexists.
  - destruct (Hstart ((CRLF ++ cstr "Content-Range: bytes ") ++ []) []) as (room' & Hroom & E).
    match type of E with ngx_vslprintf _ ?f _ = _ => match goal with |- context [ngx_vslprintf _ ?g _] => change g with f end end.
    rewrite E, Hend by lia. by eexists.
Qed.

Lemma parts_length header len body rs n :
  len = Z.of_nat (length body) -> Forall (in_content len) rs ->
  foldl (fun n r => n + (Z.of_nat (length header) + Z.of_nat (length (part_text r.1 r.2 len)) + (r.2 - r.1))) n rs =
  n + Z.of_nat (length (concat ((fun r => header ++ part_text r.1 r.2 len ++ slice_of r.1 r.2 body) <$> rs))).
Proof.
  intros Hlen Hrs. revert n. induction Hrs as [|r rs [Hr1 Hr2] _ IH]; intros n; cbn [foldl fmap list_fmap concat length]; [lia|].
  rewrite IH, !length_app. pose proof (slice_of_length r.1 r.2 body). lia.
Qed.

Lemma multipart_body_bytes header boundary len buf rs tail :
  0 <= boundary < 2 ^ 64 -> header = (CRLF ++ cstr "--") ++ padded boundary ++ tail ->
  buf_ok buf -> memory buf || in_file buf = true -> ngx_buf_size buf = len -> Forall (in_content len) rs ->
  concat (part_bytes <$> ngx_http_range_multipart_body
    (mk_range_ctx 0 header ((fun r => mk_range r.1 r.2 (part_text r.1 r.2 len)) <$> rs)) buf) =
  multipart_bytes header boundary len (buf_data buf) rs.
Proof.
  intros Hb Hh Hbuf Hmf Hsz Hrs. unfold ngx_http_range_multipart_body, multipart_bytes. cbn [rf_ranges rf_boundary_header].
  rewrite fmap_app, concat_app. f_equal.
  - induction Hrs as [|r rs [Hr1 Hr2] _ IH]; [done|]. cbn [fmap list_fmap concat app part_bytes content_range].
    rewrite part_data_bytes by (cbn; lia || done). cbn [range_start range_stop]. rewrite <- !app_assoc. do 3 f_equal. exact IH.
  - cbn [fmap list_fmap concat part_bytes]. rewrite app_nil_r. subst header. change (Z.to_nat (4 + NGX_ATOMIC_T_LEN)) with (4 + 20)%nat.
    change (CRLF ++ cstr "--") with ([CR; LF] ++ cstr "--"). rewrite take_app_add' by done. rewrite <- !app_assoc. do 2 f_equal.
    rewrite take_app_length' by (symmetry; by apply padded_length). done.
Qed.

Lemma test_overlapped_ok header (len : Z) rs (text : Z * Z -> list Z) buf :
  ngx_buf_size buf = len -> Forall (in_content len) rs ->
  ngx_http_range_test_overlapped (mk_range_ctx 0 header ((fun r => mk_range r.1 r.2 (text r)) <$> rs)) buf = Some (ngx_buf_size buf).
Proof.
  intros Hsz Hrs. unfold ngx_http_range_test_overlapped. cbn [rf_offset rf_ranges Z.eqb negb].
  replace (existsb _ _) with false; [by rewrite andb_false_r|]. symmetry. apply not_true_is_false. intros (x & Hx & Hb)%existsb_exists.
  apply list_elem_of_In, list_elem_of_fmap in Hx as (r & -> & Hr). rewrite Forall_forall in Hrs. destruct (Hrs r Hr). cbn in Hb. lia.
Qed.

Lemma multipart_type addr boundary : 0 <= addr <= 2 ^ 62 -> 0 <= boundary < 2 ^ 64 ->
  ngx_sprintf addr (cstr "multipart/byteranges; boundary=%0muA") [va_int boundary] = Some (cstr "multipart/byteranges; boundary=" ++ padded boundary).
Proof.
  intros Haddr Hb. unfold ngx_sprintf. change (cstr "multipart/byteranges; boundary=%0muA") with
      (cstr "multipart/byteranges; boundary=" ++ "%"%cc :: "0"%cc :: "m"%cc :: "u"%cc :: "A"%cc :: []).
  print_plain. print_directive print_0muA. cbn [mbind option_bind ngx_vslprintf vslprintf_loop length]. by rewrite app_nil_r.
Qed.

Lemma feed_multipart ctx buf :
  (2 <= length (rf_ranges ctx))%nat -> memory buf || in_file buf = true ->
  ngx_http_range_test_overlapped ctx buf = Some (ngx_buf_size buf) ->
  feed true ctx [[buf]] = Some (concat (part_bytes <$> ngx_http_range_multipart_body ctx buf)).
Proof.
  intros Hrs Hmf Hov. cbn [feed]. unfold ngx_http_range_body_filter. rewrite Hov.
  assert (ngx_buf_special buf = false) as -> by (unfold ngx_buf_special, ngx_buf_in_memory; destruct (memory buf), (in_file buf); by rewrite ?andb_false_r).
  destruct (rf_ranges ctx) as [|r1 [|r2 rs]]; [cbn in Hrs; lia..|]. cbn [mbind option_bind]. by rewrite app_nil_r.
Qed.

Lemma multipart_length header boundary len body rs :
  0 <= boundary < 2 ^ 64 ->
  Z.of_nat (length (multipart_bytes header boundary len body rs)) =
  28 + Z.of_nat (length (concat ((fun r => header ++ part_text r.1 r.2 len ++ slice_of r.1 r.2 body) <$> rs))).
Proof.
  intros Hb. unfold multipart_bytes. rewrite !length_app, (padded_length boundary Hb).
  change (length CRLF) with 2%nat. change (length (cstr "--")) with 2%nat. lia.
Qed.

Lemma multipart_header_correct addr r boundary header rs body :
  0 <= addr <= 2 ^ 62 -> 0 <= boundary < 2 ^ 64 -> boundary_header addr r boundary = Some header ->
  rr_content_length r < 2 ^ 63 -> Forall (in_content (rr_content_length r)) rs -> rr_content_length r = Z.of_nat (length body) ->
  ngx_http_range_multipart_header true addr r boundary rs =
  Some (Partial (mk_range_ctx 0 header ((fun r0 => mk_range r0.1 r0.2 (part_text r0.1 r0.2 (rr_content_length r))) <$> rs)) None
    (Some (cstr "multipart/byteranges; boundary=" ++ padded boundary))
    (i64 (28 + Z.of_nat (length (concat ((fun r0 => header ++ part_text r0.1 r0.2 (rr_content_length r) ++ slice_of r0.1 r0.2 body) <$> rs)))))).
Proof.
  intros Haddr Hb Eh Hlen Hrs Hbody. unfold ngx_http_range_multipart_header. cbn [negb]. rewrite Eh, multipart_type by done. cbn [mbind option_bind].
  replace (4 + NGX_ATOMIC_T_LEN + 4) with (u64 28) by reflexivity. rewrite part_headers_correct by done. cbn [mbind option_bind].
  rewrite (parts_length header (rr_content_length r) body) by done. by rewrite i64_u64.
Qed.

(** The response to a request for two ranges or more, from its header to its body. *)
Lemma multipart_agrees addr r boundary rs buf :
  0 <= addr <= 2 ^ 62 -> 0 <= boundary < 2 ^ 64 ->
  Z.of_nat (length (rr_content_type r)) <= 2 ^ 32 -> Z.of_nat (length (rr_charset r)) <= 2 ^ 32 ->
  rr_content_length r < 2 ^ 63 -> Forall (in_content (rr_content_length r)) rs -> (2 <= length rs)%nat ->
  buf_ok buf -> memory buf || in_file buf = true -> ngx_buf_size buf = rr_content_length r ->
  exists ctx header,
    boundary_header addr r boundary = Some header /\
    ngx_http_range_multipart_header true addr r boundary rs =
      Some (Partial ctx None (Some (cstr "multipart/byteranges; boundary=" ++ padded boundary))
              (i64 (Z.of_nat (length (multipart_bytes header boundary (rr_content_length r) (buf_data buf) rs))))) /\
    feed true ctx [[buf]] = Some (multipart_bytes header boundary (rr_content_length r) (buf_data buf) rs).
Proof.
  intros Haddr Hb Hct Hcs Hlen Hrs Hne Hbuf Hmf Hsz.
  destruct (boundary_header_correct addr r boundary) as (tail & Eh); [done..|].
  remember ((CRLF ++ cstr "--") ++ padded boundary ++ tail) as header eqn:Eheader.
  set (ctx := mk_range_ctx 0 header ((fun r0 => mk_range r0.1 r0.2 (part_text r0.1 r0.2 (rr_content_length r))) <$> rs)).
  exists ctx, header. split; [done|]. split.
  - rewrite multipart_length by done. apply multipart_header_correct; [done..|].
    rewrite buf_data_length by done. lia.
  - rewrite (feed_multipart ctx); [f_equal; by apply (multipart_body_bytes header boundary _ buf rs tail) | by cbn [ctx rf_ranges]; rewrite length_fmap | done |].
    by apply (test_overlapped_ok header (rr_content_length r) rs (fun r0 => part_text r0.1 r0.2 (rr_content_length r))).
Qed.

(** * The response *)

(** No If-Range, or the date in it is that of the content, or the content has none. *)
Definition if_range_holds (r : range_request) : Prop :=
  match rr_if_range r with
  | None => True
  | Some v => rr_last_modified r = -1 \/ ngx_http_parse_time v = Some (rr_last_modified r)
  end.

(** A request for ranges of the content: its header has the ranges [ss], to its end when
    [whole] is true. *)
Definition asks_ranges (r : range_request) (whole : bool) (ss : list byte_spec) : Prop :=
  NGX_HTTP_VERSION_10 <= rr_http_version r /\ rr_status r = NGX_HTTP_OK /\ rr_main r = true /\ rr_allow_ranges r = true /\
  if_range_holds r /\ (exists t, t <> [] /\ rr_range r = Some (cstr "bytes=" ++ t) /\ header_text whole ss t) /\ Forall spec_ok ss.

(** What the client has to get for the ranges [rs] of [body]: the header fields, and
    the body that is sent after them. *)
Definition good_response (addr boundary : Z) (r : range_request) (body : list Z) (verdict : Z * list (Z * Z))
    (answer : range_answer) (sent : ngx_http_range_filter_ctx_t -> option (list Z)) : Prop :=
  match verdict with
  | (0, [(start, stop)]) =>
      exists ctx, answer = Partial ctx (Some (cstr "bytes " ++ range_text start stop (rr_content_length r))) None (stop - start) /\
        sent ctx = Some (slice_of start stop body)
  | (0, rs) =>
      exists ctx header, boundary_header addr r boundary = Some header /\
        let text := multipart_bytes header boundary (rr_content_length r) body rs in
        answer = Partial ctx None (Some (cstr "multipart/byteranges; boundary=" ++ padded boundary)) (i64 (Z.of_nat (length text))) /\
        sent ctx = Some text
  | (416, _) => answer = Not_satisfiable (cstr "bytes */" ++ decimal (rr_content_length r))
  | _ => answer = Accept_ranges
  end.

(** The filter, down to the parser. *)
Lemma header_filter_parse addr boundary max r whole ss :
  asks_ranges r whole ss -> 0 < max -> 0 <= rr_content_length r ->
  exists t, header_text whole ss t /\ ngx_http_range_header_filter true true true (fun _ => true) addr boundary max r =
  ('(rc, rs) ← ngx_http_range_parse (fun _ => true) (cstr "bytes=" ++ t) (rr_content_length r) max;
   if rc =? NGX_OK then
     match rs with
     | [(start, end_)] => ngx_http_range_singlepart_header true addr (rr_content_length r) start end_
     | _ => ngx_http_range_multipart_header true addr r boundary rs
     end
   else if rc =? NGX_HTTP_RANGE_NOT_SATISFIABLE then ngx_http_range_not_satisfiable true addr (rr_content_length r)
   else if rc =? NGX_ERROR then Some Range_error
   else Some Accept_ranges).
Proof.
  intros (Hv & Hst & Hm & Har & Hif & (t & Hne & Hr & Ht) & Hok) Hmax Hlen. exists t. split; [done|].
  unfold ngx_http_range_header_filter. rewrite Hst, Hm, Har, Hr.
  destruct (Z.ltb_spec (rr_http_version r) NGX_HTTP_VERSION_10); [lia|]. destruct (Z.eqb_spec (rr_content_length r) (-1)); [lia|].
  destruct (Z.eqb_spec max 0); [lia|]. cbn [orb negb]. rewrite Z.eqb_refl. cbn [orb negb].
  destruct (Nat.ltb_spec (length (cstr "bytes=" ++ t)) 7) as [H7|H7]; [destruct t; [done|]; rewrite length_app in H7; cbn in H7; lia|].
  change (ngx_strncasecmp (cstr "bytes=" ++ t) (cstr "bytes=") 6) with (Some 0). cbn [mbind option_bind Z.eqb negb].
  unfold if_range_holds in Hif. destruct (rr_if_range r) as [v|]; [|done].
  destruct (Z.eqb_spec (rr_last_modified r) (-1)); [done|]. destruct Hif as [|E]; [done|]. rewrite E. cbn [negb mbind option_bind].
  by rewrite Z.eqb_refl.
Qed.

Lemma singlepart_header_correct addr len start stop :
  0 <= addr <= 2 ^ 62 -> 0 <= start < stop -> stop <= len -> len < 2 ^ 63 ->
  ngx_http_range_singlepart_header true addr len start stop =
  Some (Partial (mk_range_ctx 0 [] [mk_range start stop []]) (Some (cstr "bytes " ++ range_text start stop len)) None (stop - start)).
Proof.
  intros Ha Hs Hl Hlen. unfold ngx_http_range_singlepart_header, ngx_sprintf. cbn [negb].
  change (cstr "bytes %O-%O/%O") with (cstr "bytes " ++ cstr "%O-%O/%O" ++ []). print_plain.
  destruct (print_range (2 ^ 64 - 1 - addr - 6) [] start stop len) as (room' & Hroom & E); [lia..|].
  rewrite E. cbn [mbind option_bind ngx_vslprintf vslprintf_loop length]. rewrite app_nil_r, (swrap_small 64) by lia. done.
Qed.

Lemma not_satisfiable_correct addr len :
  0 <= addr <= 2 ^ 62 -> 0 <= len < 2 ^ 63 -> ngx_http_range_not_satisfiable true addr len = Some (Not_satisfiable (cstr "bytes */" ++ decimal len)).
Proof.
  intros Ha Hlen. unfold ngx_http_range_not_satisfiable, ngx_sprintf. cbn [negb].
  change (cstr "bytes */%O") with (cstr "bytes */" ++ "%"%cc :: "O"%cc :: []). print_plain. print_directive print_O.
  cbn [mbind option_bind ngx_vslprintf vslprintf_loop length]. by rewrite app_nil_r.
Qed.

Lemma range_answer_cases len max whole rs :
  let answer := range_answer_of len max whole rs in
  (answer.1 = NGX_OK /\ answer.2 <> []) \/ answer.1 = NGX_HTTP_RANGE_NOT_SATISFIABLE \/ answer.1 = NGX_DECLINED.
Proof.
  cbn zeta. unfold range_answer_of. case_bool_decide; [|by right; right].
  destruct whole, (filter (fun r => nonempty r = true) rs); [by right; left| |by right; left..]. case_bool_decide; [by left|by right; right].
Qed.

End body.


Example singlepart_body_correct_witness :
  let chains := [[mk_chain_buf 100 104 0 0 true false false false false; mk_chain_buf 0 0 20 26 false true false false false];
                 [mk_chain_buf 200 205 0 0 true false false false true]] in
  feed (fun a => a) (fun a => a + 1000) true (mk_range_ctx 0 [] [mk_range 2 12 []]) chains =
  Some [102; 103; 1020; 1021; 1022; 1023; 1024; 1025; 200; 201].
Proof.
  intros chains. apply (singlepart_body_correct (fun a => a) (fun a => a + 1000) true (mk_range 2 12 []) [] chains).
  - cbn. lia.
  - repeat constructor; try (vm_compute; discriminate); discriminate.
Defined.

(** Two ranges that together are as long as the content are sent, and one more byte
    gives the whole content; text after a range gives 416. *)
Example range_answer_limits :
  let answer t := ngx_http_range_parse (fun _ => true) (cstr "bytes=" ++ t) 10 5 in
  answer (cstr "0-4,5-") = Some (NGX_OK, [(0, 5); (5, 10)]) /\
  answer (cstr "0-5,5-") = Some (NGX_DECLINED, [(0, 6); (5, 10)]) /\
  answer (cstr "0-1x") = Some (NGX_HTTP_RANGE_NOT_SATISFIABLE, []).
Proof. vm_compute. repeat split. Qed.
