(* ===== verification/NgxSlab.v ===== *)
(** The slab allocator of src/core/ngx_slab.c: blocks in shared memory.

    A pool is an array of pages of 4096 bytes, each with a descriptor.  Free pages are in
    runs, linked in a list; pages cut into chunks of 2^shift bytes are linked in the list
    of their slot while they have a free chunk.  The chunks in use are the bits of a map:
    in the first bytes of the page for chunks below 64 bytes, in the field [slab] of the
    descriptor for the others.

    A pointer to a descriptor is a value of [desc]: the list heads [pool->free] and
    [slots[i]], or an entry of [pool->pages].  The field [prev] holds a pointer and, in
    the two low bits that pointers leave free, the type of the page.  The fields of all
    descriptors are three maps; reading or writing through any other pointer is stuck. *)

From S2P Require Import Prelude NgxStore.

Open Scope Z_scope.
Open Scope store_scope.

Definition NGX_SLAB_PAGE : Z := 0.
Definition NGX_SLAB_BIG : Z := 1.
Definition NGX_SLAB_EXACT : Z := 2.
Definition NGX_SLAB_SMALL : Z := 3.

Definition NGX_SLAB_PAGE_FREE : Z := 0.
Definition NGX_SLAB_PAGE_BUSY : Z := 0xffffffffffffffff.
Definition NGX_SLAB_PAGE_START : Z := 0x8000000000000000.

Definition NGX_SLAB_SHIFT_MASK : Z := 0xf.
Definition NGX_SLAB_MAP_MASK : Z := 0xffffffff00000000.
Definition NGX_SLAB_MAP_SHIFT : Z := 32.
Definition NGX_SLAB_BUSY : Z := 0xffffffffffffffff.

Definition ngx_pagesize : Z := 4096.
Definition ngx_pagesize_shift : Z := 12.

Definition ngx_slab_max_size : Z := ngx_pagesize / 2.
Definition ngx_slab_exact_size : Z := ngx_pagesize / 64.

(** [for (n = ngx_slab_exact_size; n >>= 1; ngx_slab_exact_shift++)] *)
Fixpoint exact_shift_loop (fuel : nat) (n shift : Z) : Z :=
  match fuel with
  | O => shift
  | S fuel' => let n := Z.shiftr n 1 in if n =? 0 then shift else exact_shift_loop fuel' n (shift + 1)
  end.
Definition ngx_slab_exact_shift : Z := exact_shift_loop 64 ngx_slab_exact_size 0.

(** * The state *)

Inductive desc := Null | Free | Slot (i : Z) | Page (i : Z).

#[export] Instance desc_eq_dec : EqDecision desc.
Proof. solve_decision. Defined.

#[export] Instance desc_countable : Countable desc.
Proof.
  refine (inj_countable' (fun d => match d with Null => inl (inl tt) | Free => inl (inr tt) | Slot i => inr (inl i) | Page i => inr (inr i) end)
    (fun x => match x with inl (inl _) => Null | inl (inr _) => Free | inr (inl i) => Slot i | inr (inr i) => Page i end) _).
  by intros [].
Defined.

(** The three fields of the descriptors, and the maps at the start of pages. *)
Record slab_pool := mk_pool {
  slabs : gmap desc Z;
  nexts : gmap desc desc;
  prevs : gmap desc (desc * Z);
  bitmaps : gmap Z (list Z);
}.

Abbreviation MS := (M slab_pool).

Definition get_slab (d : desc) : MS Z := fun s =>
  match slabs s !! d with Some v => Some (v, s) | None => None end.
Definition get_next (d : desc) : MS desc := fun s =>
  match nexts s !! d with Some v => Some (v, s) | None => None end.
Definition get_prev (d : desc) : MS (desc * Z) := fun s =>
  match prevs s !! d with Some v => Some (v, s) | None => None end.

Definition put_slab (d : desc) (v : Z) : MS unit := fun s =>
  match slabs s !! d with Some _ => Some (tt, mk_pool (<[d := v]> (slabs s)) (nexts s) (prevs s) (bitmaps s)) | None => None end.
Definition put_next (d v : desc) : MS unit := fun s =>
  match nexts s !! d with Some _ => Some (tt, mk_pool (slabs s) (<[d := v]> (nexts s)) (prevs s) (bitmaps s)) | None => None end.
Definition put_prev (d : desc) (v : desc * Z) : MS unit := fun s =>
  match prevs s !! d with Some _ => Some (tt, mk_pool (slabs s) (nexts s) (<[d := v]> (prevs s)) (bitmaps s)) | None => None end.

(** The number of descriptors, as a bound for the loops. *)
Definition descriptors : MS nat := mget (fun s => size (slabs s)).

(** The map at the start of a page. *)
Definition load_bitmap (i : Z) : MS (list Z) := fun s =>
  match bitmaps s !! i with Some ws => Some (ws, s) | None => None end.
Definition store_bitmap (i : Z) (ws : list Z) : MS unit := mput (fun s =>
  mk_pool (slabs s) (nexts s) (prevs s) (<[i := ws]> (bitmaps s))).

(** [prev = page->prev & ~NGX_SLAB_PAGE_MASK; prev->next = page->next;
    page->next->prev = page->prev] *)
Definition unlink (page : desc) : MS unit :=
  prev <-- get_prev page;
  next <-- get_next page;
  put_next prev.1 next ;;
  next <-- get_next page;
  prev <-- get_prev page;
  put_prev next prev.

(** * Pages *)

Section pool.
Context (start : Z) (pool_end : Z) (min_shift : Z).

Definition set_page (d : desc) (slab : Z) (next : desc) (prev : desc * Z) : MS unit :=
  put_slab d slab ;; put_next d next ;; put_prev d prev.

(** [for (p = page + 1; pages; pages--)] *)
Fixpoint busy_loop (fuel : nat) (i pages : Z) : MS unit :=
  if pages =? 0 then mret tt
  else match fuel with
  | O => mstuck
  | S fuel' =>
      set_page (Page i) NGX_SLAB_PAGE_BUSY Null (Null, NGX_SLAB_PAGE) ;;
      busy_loop fuel' (i + 1) (u64 (pages - 1))
  end.

(** The page is taken from the free list. *)
Definition take_pages (i pages : Z) : MS unit :=
  n <-- get_slab (Page i);
  (if pages <? n then
     put_slab (Page (i + pages)) (n - pages) ;;
     next <-- get_next (Page i); put_next (Page (i + pages)) next ;;
     prev <-- get_prev (Page i); put_prev (Page (i + pages)) prev ;;
     prev <-- get_prev (Page i);
     put_next prev.1 (Page (i + pages)) ;;
     next <-- get_next (Page i);
     put_prev next (Page (i + pages), NGX_SLAB_PAGE)
   else unlink (Page i)) ;;
  set_page (Page i) (Z.lor pages NGX_SLAB_PAGE_START) Null (Null, NGX_SLAB_PAGE) ;;
  fuel <-- descriptors;
  busy_loop fuel (i + 1) (u64 (pages - 1)).

Fixpoint alloc_pages_loop (fuel : nat) (page : desc) (pages : Z) : MS (option Z) :=
  match page with
  | Free => mret None
  | Page i =>
      match fuel with
      | O => mstuck
      | S fuel' =>
          n <-- get_slab page;
          if pages <=? n then take_pages i pages ;; mret (Some i)
          else next <-- get_next page; alloc_pages_loop fuel' next pages
      end
  | _ => mstuck
  end.

(** The index of the first page, [NULL] is [None]. *)
Definition ngx_slab_alloc_pages (pages : Z) : MS (option Z) :=
  next <-- get_next Free;
  fuel <-- descriptors;
  alloc_pages_loop fuel next pages.

(** [ngx_memzero(&page[1], pages * sizeof(ngx_slab_page_t))] *)
Fixpoint zero_loop (pages : nat) (i : Z) : MS unit :=
  match pages with
  | O => mret tt
  | S pages' => set_page (Page i) 0 Null (Null, 0) ;; zero_loop pages' (i + 1)
  end.

Definition ngx_slab_free_pages (i pages : Z) : MS unit :=
  put_slab (Page i) pages ;;
  zero_loop (Z.to_nat (u64 (pages - 1))) (i + 1) ;;
  next <-- get_next (Page i);
  (match next with Null => mret tt | _ => unlink (Page i) end) ;;
  put_prev (Page i) (Free, NGX_SLAB_PAGE) ;;
  next <-- get_next Free;
  put_next (Page i) next ;;
  next <-- get_next (Page i);
  put_prev next (Page i, NGX_SLAB_PAGE) ;;
  put_next Free (Page i).

(** * Allocation *)

(** [for (m = 1, i = 0; m; m <<= 1, i++)]: the first clear bit of [w], from [i] on. *)
Fixpoint clear_bit (fuel : nat) (w i : Z) : option Z :=
  match fuel with
  | O => None
  | S fuel' => if Z.testbit w i then clear_bit fuel' w (i + 1) else Some i
  end.

(** [(1 << (ngx_pagesize_shift - shift)) / (sizeof(uintptr_t) * 8)] *)
Definition map_words (shift : Z) : Z := Z.shiftl 1 (ngx_pagesize_shift - shift) / 64.

(** [(1 << (ngx_pagesize_shift - shift)) / 8 / (1 << shift)], at least 1: the chunks the map takes. *)
Definition map_chunks (shift : Z) : Z :=
  let n := Z.shiftl 1 (ngx_pagesize_shift - shift) / 8 / Z.shiftl 1 shift in if n =? 0 then 1 else n.

Definition full_page (page : desc) (type : Z) : MS unit :=
  unlink page ;; put_next page Null ;; put_prev page (Null, type).

(** The words of the map from [n] on; the offset of the chunk. *)
Fixpoint small_words (ws : list Z) (n shift : Z) : option (list Z * bool * Z) :=
  match ws with
  | [] => None
  | w :: ws' =>
      if w =? NGX_SLAB_BUSY then
        '(ws', full, p) ← small_words ws' (n + 1) shift; Some (w :: ws', full, p)
      else
        i ← clear_bit 64 w 0;
        let w := Z.lor w (Z.shiftl 1 i) in
        let p := Z.shiftl (n * 64) shift + Z.shiftl i shift in
        Some (w :: ws', forallb (fun w => w =? NGX_SLAB_BUSY) (w :: ws'), p)
  end.

(** A chunk of a page: its offset in the page, [None] when there is no free one. *)
Definition small_chunk (i shift : Z) : MS (option Z) :=
  ws <-- load_bitmap i;
  match small_words (take (Z.to_nat (map_words shift)) ws) 0 shift with
  | None => mret None
  | Some (ws', full, p) =>
      store_bitmap i (ws' ++ drop (Z.to_nat (map_words shift)) ws) ;;
      (if full : bool then full_page (Page i) NGX_SLAB_SMALL else mret tt) ;;
      mret (Some p)
  end.

Definition exact_chunk (i shift : Z) : MS (option Z) :=
  slab <-- get_slab (Page i);
  if slab =? NGX_SLAB_BUSY then mret None
  else
    match clear_bit 64 slab 0 with
    | None => mret None
    | Some b =>
        let w := Z.lor slab (Z.shiftl 1 b) in
        put_slab (Page i) w ;;
        (if w =? NGX_SLAB_BUSY then full_page (Page i) NGX_SLAB_EXACT else mret tt) ;;
        mret (Some (Z.shiftl b shift))
    end.

(** [for (m = (uintptr_t) 1 << NGX_SLAB_MAP_SHIFT, i = 0; m & mask; m <<= 1, i++)] *)
Fixpoint big_bit (fuel : nat) (w mask i : Z) : option Z :=
  match fuel with
  | O => None
  | S fuel' =>
      if Z.testbit mask (NGX_SLAB_MAP_SHIFT + i) then
        if Z.testbit w (NGX_SLAB_MAP_SHIFT + i) then big_bit fuel' w mask (i + 1) else Some i
      else None
  end.

Definition big_chunk (mask i shift : Z) : MS (option Z) :=
  slab <-- get_slab (Page i);
  if Z.land slab NGX_SLAB_MAP_MASK =? mask then mret None
  else
    match big_bit 33 slab mask 0 with
    | None => mret None
    | Some b =>
        let w := Z.lor slab (Z.shiftl 1 (NGX_SLAB_MAP_SHIFT + b)) in
        put_slab (Page i) w ;;
        (if Z.land w NGX_SLAB_MAP_MASK =? mask then full_page (Page i) NGX_SLAB_BIG else mret tt) ;;
        mret (Some (Z.shiftl b shift))
    end.

(** [do ... while (page)]; the address of the chunk. *)
Fixpoint chunk_loop (fuel : nat) (chunk : Z -> MS (option Z)) (page : desc) : MS (option Z) :=
  match page with
  | Null => mret None
  | Page i =>
      match fuel with
      | O => mstuck
      | S fuel' =>
          p <-- chunk i;
          match p with
          | Some p => mret (Some (Z.shiftl i ngx_pagesize_shift + p + start))
          | None => next <-- get_next page; chunk_loop fuel' chunk next
          end
      end
  | _ => mstuck
  end.

(** [1 << n] chunks of a page, as bits from [NGX_SLAB_MAP_SHIFT] on. *)
Definition big_mask (slab : Z) : Z :=
  let n := Z.shiftl 1 (ngx_pagesize_shift - Z.land slab NGX_SLAB_SHIFT_MASK) in
  Z.shiftl (Z.shiftl 1 n - 1) NGX_SLAB_MAP_SHIFT.

(** A chunk of the pages in the list of the slot. *)
Definition slot_chunk (shift slot : Z) : MS (option Z) :=
  page <-- get_next (Slot slot);
  next <-- get_next page;
  if bool_decide (next = page) then mret None
  else
    fuel <-- descriptors;
    if shift <? ngx_slab_exact_shift then chunk_loop fuel (fun i => small_chunk i shift) page
    else if shift =? ngx_slab_exact_shift then chunk_loop fuel (fun i => exact_chunk i shift) page
    else slab <-- get_slab page; chunk_loop fuel (fun i => big_chunk (big_mask slab) i shift) page.

(** The first chunk of a new page. *)
Definition link_slot (i slot type : Z) : MS unit :=
  put_next (Page i) (Slot slot) ;; put_prev (Page i) (Slot slot, type) ;; put_next (Slot slot) (Page i).

Definition new_page_chunk (i shift slot : Z) : MS Z :=
  if shift <? ngx_slab_exact_shift then
    let n := map_chunks shift in
    store_bitmap i ((Z.shiftl 2 n - 1) :: replicate (Z.to_nat (map_words shift) - 1) 0) ;;
    put_slab (Page i) shift ;;
    link_slot i slot NGX_SLAB_SMALL ;;
    mret (Z.shiftl i ngx_pagesize_shift + Z.shiftl 1 shift * n + start)
  else if shift =? ngx_slab_exact_shift then
    put_slab (Page i) 1 ;;
    link_slot i slot NGX_SLAB_EXACT ;;
    mret (Z.shiftl i ngx_pagesize_shift + start)
  else
    put_slab (Page i) (Z.lor (Z.shiftl 1 NGX_SLAB_MAP_SHIFT) shift) ;;
    link_slot i slot NGX_SLAB_BIG ;;
    mret (Z.shiftl i ngx_pagesize_shift + start).

(** [for (s = size - 1; s >>= 1; shift++)] *)
Fixpoint size_shift_loop (fuel : nat) (s shift : Z) : Z :=
  match fuel with
  | O => shift
  | S fuel' => let s := Z.shiftr s 1 in if s =? 0 then shift else size_shift_loop fuel' s (shift + 1)
  end.

Definition size_shift (size : Z) : Z :=
  if Z.shiftl 1 min_shift <? size then size_shift_loop 64 (size - 1) 1 else min_shift.

(** The address, [NULL] is [None]. *)
Definition ngx_slab_alloc_locked (size : Z) : MS (option Z) :=
  if ngx_slab_max_size <=? size then
    page <-- ngx_slab_alloc_pages (Z.shiftr (u64 (size + ngx_pagesize - 1)) ngx_pagesize_shift);
    mret (match page with Some i => Some (Z.shiftl i ngx_pagesize_shift + start) | None => None end)
  else
    let shift := size_shift size in
    let slot := shift - min_shift in
    p <-- slot_chunk shift slot;
    match p with
    | Some p => mret (Some p)
    | None =>
        page <-- ngx_slab_alloc_pages 1;
        match page with
        | Some i => p <-- new_page_chunk i shift slot; mret (Some p)
        | None => mret None
        end
    end.

(** * Freeing *)

Inductive free_result := Freed | Outside_pool | Wrong_chunk | Already_free | Page_already_free | Wrong_page.

(** The page goes back to the head of the list of its slot. *)
Definition relink (i slot type : Z) : MS unit :=
  next <-- get_next (Slot slot);
  put_next (Page i) next ;;
  put_next (Slot slot) (Page i) ;;
  put_prev (Page i) (Slot slot, type) ;;
  next <-- get_next (Page i);
  put_prev next (Page i, type).

Definition relink_full (i slot type : Z) : MS unit :=
  next <-- get_next (Page i);
  match next with Null => relink i slot type | _ => mret tt end.

Definition free_small (i p slab : Z) : MS free_result :=
  let shift := Z.land slab NGX_SLAB_SHIFT_MASK in
  if negb (Z.land p (Z.shiftl 1 shift - 1) =? 0) then mret Wrong_chunk
  else
    let c := Z.shiftr (Z.land p (ngx_pagesize - 1)) shift in
    let m := Z.shiftl 1 (Z.land c 63) in
    let w := Z.to_nat (c / 64) in
    ws <-- load_bitmap i;
    match ws !! w with
    | None => mstuck
    | Some word =>
        if Z.land word m =? 0 then mret Already_free
        else
          relink_full i (shift - min_shift) NGX_SLAB_SMALL ;;
          let ws := <[w := Z.land word (Z.lnot m)]> ws in
          store_bitmap i ws ;;
          match ws with
          | [] => mstuck
          | w0 :: ws' =>
              if negb (Z.land w0 (Z.lnot (Z.shiftl 1 (map_chunks shift) - 1)) =? 0) then mret Freed
              else if existsb (fun w => negb (w =? 0)) (take (Z.to_nat (map_words shift) - 1) ws') then mret Freed
              else ngx_slab_free_pages i 1 ;; mret Freed
          end
    end.

Definition free_exact (i p slab : Z) : MS free_result :=
  let m := Z.shiftl 1 (Z.shiftr (Z.land p (ngx_pagesize - 1)) ngx_slab_exact_shift) in
  if negb (Z.land p (ngx_slab_exact_size - 1) =? 0) then mret Wrong_chunk
  else if Z.land slab m =? 0 then mret Already_free
  else
    (if slab =? NGX_SLAB_BUSY then relink i (ngx_slab_exact_shift - min_shift) NGX_SLAB_EXACT else mret tt) ;;
    slab <-- get_slab (Page i);
    put_slab (Page i) (Z.land slab (Z.lnot m)) ;;
    slab <-- get_slab (Page i);
    if negb (slab =? 0) then mret Freed
    else ngx_slab_free_pages i 1 ;; mret Freed.

Definition free_big (i p slab : Z) : MS free_result :=
  let shift := Z.land slab NGX_SLAB_SHIFT_MASK in
  if negb (Z.land p (Z.shiftl 1 shift - 1) =? 0) then mret Wrong_chunk
  else
    let m := Z.shiftl 1 (Z.shiftr (Z.land p (ngx_pagesize - 1)) shift + NGX_SLAB_MAP_SHIFT) in
    if Z.land slab m =? 0 then mret Already_free
    else
      relink_full i (shift - min_shift) NGX_SLAB_BIG ;;
      slab <-- get_slab (Page i);
      put_slab (Page i) (Z.land slab (Z.lnot m)) ;;
      slab <-- get_slab (Page i);
      if negb (Z.land slab NGX_SLAB_MAP_MASK =? 0) then mret Freed
      else ngx_slab_free_pages i 1 ;; mret Freed.

Definition free_page (i p slab : Z) : MS free_result :=
  if negb (Z.land p (ngx_pagesize - 1) =? 0) then mret Wrong_chunk
  else if slab =? NGX_SLAB_PAGE_FREE then mret Page_already_free
  else if slab =? NGX_SLAB_PAGE_BUSY then mret Wrong_page
  else ngx_slab_free_pages i (Z.land slab (NGX_SLAB_PAGE_START - 1)) ;; mret Freed.

Definition ngx_slab_free_locked (p : Z) : MS free_result :=
  if (p <? start) || (pool_end <? p) then mret Outside_pool
  else
    let i := Z.shiftr (p - start) ngx_pagesize_shift in
    slab <-- get_slab (Page i);
    prev <-- get_prev (Page i);
    let type := prev.2 in
    if type =? NGX_SLAB_SMALL then free_small i p slab
    else if type =? NGX_SLAB_EXACT then free_exact i p slab
    else if type =? NGX_SLAB_BIG then free_big i p slab
    else free_page i p slab.
End pool.

(** * A new pool *)

Definition PAGE_T_SIZE : Z := 24.

(** The descriptors [f 0], ..., [f (n - 1)] with a field set to [v]. *)
Definition fields {A} (f : Z -> desc) (v : Z -> A) (n : Z) : gmap desc A :=
  list_to_map ((fun i => (f i, v i)) <$> seqZ 0 n).

(** [first] is the address that follows [ngx_slab_pool_t].  The fields of the pool, its
    [start] and the number of pages it has. *)
Definition ngx_slab_init (first pool_end min_shift : Z) : slab_pool * Z * Z :=
  let size := pool_end - first in
  let n := ngx_pagesize_shift - min_shift in
  let p := first + n * PAGE_T_SIZE in
  let pages := size / (ngx_pagesize + PAGE_T_SIZE) in
  let start := ngx_align_ptr (p + pages * PAGE_T_SIZE) ngx_pagesize in
  let m := pages - (pool_end - start) / ngx_pagesize in
  let count := if 0 <? m then pages - m else pages in
  (mk_pool
     (<[Free := 0]> (<[Page 0 := count]> (fields Slot (fun _ => 0) n ∪ fields Page (fun _ => 0) pages)))
     (<[Free := Page 0]> (<[Page 0 := Free]> (fields Slot Slot n ∪ fields Page (fun _ => Null) pages)))
     (<[Free := (Null, 0)]> (<[Page 0 := (Free, NGX_SLAB_PAGE)]> (fields Slot (fun _ => (Null, 0)) n ∪ fields Page (fun _ => (Null, 0)) pages)))
     ∅,
   start, count).
