(* ===== verification/NgxSlabLists.v ===== *)
(** The lists of page descriptors in [NgxSlab]: what unlinking a page, pushing one and
    putting one in the place of another do to a list and to the other links. *)

From S2P Require Import Prelude NgxStore NgxSlab.

Open Scope Z_scope.
Open Scope store_scope.

#[local] Arguments mthen : simpl never.

(** * Steps *)

Lemma get_slab_run s d v : slabs s !! d = Some v -> get_slab d s = Some (v, s).
Proof. unfold get_slab. by intros ->. Qed.

Lemma get_next_run s d v : nexts s !! d = Some v -> get_next d s = Some (v, s).
Proof. unfold get_next. by intros ->. Qed.

Lemma get_prev_run s d v : prevs s !! d = Some v -> get_prev d s = Some (v, s).
Proof. unfold get_prev. by intros ->. Qed.

Lemma put_slab_run s d v : is_Some (slabs s !! d) -> put_slab d v s = Some (tt, mk_pool (<[d := v]> (slabs s)) (nexts s) (prevs s) (bitmaps s)).
Proof. unfold put_slab. by intros [? ->]. Qed.

Lemma put_next_run s d v : is_Some (nexts s !! d) -> put_next d v s = Some (tt, mk_pool (slabs s) (<[d := v]> (nexts s)) (prevs s) (bitmaps s)).
Proof. unfold put_next. by intros [? ->]. Qed.

Lemma put_prev_run s d v : is_Some (prevs s !! d) -> put_prev d v s = Some (tt, mk_pool (slabs s) (nexts s) (<[d := v]> (prevs s)) (bitmaps s)).
Proof. unfold put_prev. by intros [? ->]. Qed.

(** * A list of pages *)

(** The links from [p] through the pages [l] to [e], each page of type [t]. *)
Fixpoint seg (s : slab_pool) (t : Z) (p : desc) (l : list Z) (e : desc) : Prop :=
  match l with
  | [] => nexts s !! p = Some e
  | i :: l' => nexts s !! p = Some (Page i) /\ prevs s !! Page i = Some (p, t) /\ seg s t (Page i) l' e
  end.

Definition last_of (p : desc) (l : list Z) : desc := match last l with Some i => Page i | None => p end.
Definition first_of (l : list Z) (e : desc) : desc := match l with i :: _ => Page i | [] => e end.

Definition is_head (h : desc) : Prop := match h with Free | Slot _ => True | _ => False end.

(** The pages in the list with head [h] are those with [Q]. *)
Definition list_ok (s : slab_pool) (h : desc) (t : Z) (Q : Z -> Prop) : Prop :=
  is_head h /\ is_Some (prevs s !! h) /\ exists l, NoDup l /\ seg s t h l h /\ forall i, i ∈ l <-> Q i.

Lemma seg_app s t p l1 i l2 e :
  seg s t p (l1 ++ i :: l2) e <-> seg s t p l1 (Page i) /\ prevs s !! Page i = Some (last_of p l1, t) /\ seg s t (Page i) l2 e.
Proof.
  revert p. induction l1 as [|j l1 IH]; intros p; cbn [app seg]; [tauto|]. rewrite IH.
  replace (last_of p (j :: l1)) with (last_of (Page j) l1); [tauto|]. unfold last_of. rewrite last_cons. by destruct (last l1).
Qed.

Lemma seg_frame s s' t p l e :
  seg s t p l e -> nexts s' !! p = nexts s !! p ->
  (forall i, i ∈ l -> nexts s' !! Page i = nexts s !! Page i /\ prevs s' !! Page i = prevs s !! Page i) -> seg s' t p l e.
Proof.
  revert p. induction l as [|i l IH]; intros p; cbn; [by intros ? ->|]. intros (H1 & H2 & H3) Hp Hl.
  destruct (Hl i) as [Hi1 Hi2]; [set_solver|]. rewrite Hp, Hi2. split_and!; [done|done|]. apply IH; [done|done|]. intros j Hj. apply Hl. set_solver.
Qed.

Lemma seg_first s t p l e : seg s t p l e -> nexts s !! p = Some (first_of l e).
Proof. by destruct l as [|i l]; [|intros [? _]]. Qed.

Lemma seg_page s t p l e i : seg s t p l e -> i ∈ l -> is_Some (nexts s !! Page i) /\ exists q, prevs s !! Page i = Some (q, t).
Proof.
  intros H (l1 & l2 & ->)%list_elem_of_split. apply seg_app in H as (_ & H1 & H2). split; [eexists; by eapply seg_first|by eexists].
Qed.

Lemma list_ok_page s h t Q i : list_ok s h t Q -> Q i -> is_Some (nexts s !! Page i) /\ exists q, prevs s !! Page i = Some (q, t).
Proof. intros (_ & _ & l & _ & H & Hl) Hi. apply (seg_page _ _ _ _ _ _ H). by apply Hl. Qed.

Lemma list_ok_head s h t Q : list_ok s h t Q -> is_Some (nexts s !! h) /\ is_Some (prevs s !! h).
Proof. intros (_ & Hp & l & _ & H & _). split; [|done]. eexists. by eapply seg_first. Qed.

(** The descriptors of a list. *)
Definition in_list (h : desc) (Q : Z -> Prop) (d : desc) : Prop := d = h \/ exists i, d = Page i /\ Q i.

(** The links of [d] are the same. *)
Definition same_links (s s' : slab_pool) (d : desc) : Prop := nexts s' !! d = nexts s !! d /\ prevs s' !! d = prevs s !! d.

Lemma list_ok_frame s s' h t Q :
  list_ok s h t Q -> (forall d, in_list h Q d -> same_links s s' d) -> list_ok s' h t Q.
Proof.
  intros (Hh & Hp & l & Hnd & Hs & Hl) Hf. destruct (Hf h) as [Hn Hpr]; [by left|]. split; [done|]. split; [by rewrite Hpr|].
  exists l. split_and!; [done| |done]. apply (seg_frame s); [done|done|]. intros i Hi. apply Hf. right. exists i. split; [done|by apply Hl].
Qed.

Lemma list_ok_ext s h t Q Q' : list_ok s h t Q -> (forall i, Q i <-> Q' i) -> list_ok s h t Q'.
Proof. intros (Hh & Hp & l & Hnd & Hs & Hl) HQ. split; [done|]. split; [done|]. exists l. split_and!; [done|done|]. intros i. by rewrite Hl. Qed.

Lemma head_not_page h i : is_head h -> Page i <> h.
Proof. by destruct h. Qed.

Lemma last_of_elem h l : last_of h l = h \/ exists i, i ∈ l /\ last_of h l = Page i.
Proof. unfold last_of. destruct (last l) as [i|] eqn:E; [right; exists i; split; [by apply last_Some_elem_of|done]|by left]. Qed.

(** ** Splicing

    The list [h, l1, x..., l2] becomes [h, l1, m, l2] when the neighbours of the middle are set. *)

(** The part before: its last link is set to [e']. *)
Lemma seg_retarget s s' t p l e e' :
  seg s t p l e -> NoDup l -> (forall i, i ∈ l -> Page i <> p) ->
  nexts s' !! last_of p l = Some e' ->
  (forall d, d = p \/ (exists i, d = Page i /\ i ∈ l) -> d <> last_of p l -> nexts s' !! d = nexts s !! d) ->
  (forall i, i ∈ l -> prevs s' !! Page i = prevs s !! Page i) -> seg s' t p l e'.
Proof.
  revert p. induction l as [|i l IH]; intros p; cbn [seg]; [done|]. intros (H1 & H2 & H3) [Hi Hnd]%NoDup_cons Hp Hlast Hn Hpr.
  assert (last_of p (i :: l) = last_of (Page i) l) as El by (unfold last_of; rewrite last_cons; by destruct (last l)).
  rewrite El in *. split_and!.
  - rewrite Hn; [done|by left|]. destruct (last_of_elem (Page i) l) as [-> |(j & Hj & ->)]; apply not_eq_sym, Hp; set_solver.
  - rewrite Hpr by set_solver. done.
  - apply (IH (Page i)); [done|done|intros j Hj [= ->]; done|done| |intros; apply Hpr; set_solver].
    intros d [-> |(j & -> & Hj)]; apply Hn; right; eexists; (split; [done|set_solver]).
Qed.

(** The part after: its first page gets another predecessor. *)
Lemma seg_restart s s' t p p' l e :
  seg s t p l e -> NoDup l -> nexts s' !! p' = Some (first_of l e) ->
  (forall i, head l = Some i -> prevs s' !! Page i = Some (p', t)) ->
  (forall i, i ∈ l -> nexts s' !! Page i = nexts s !! Page i) ->
  (forall i, i ∈ l -> head l <> Some i -> prevs s' !! Page i = prevs s !! Page i) -> seg s' t p' l e.
Proof.
  destruct l as [|i l]; cbn [seg first_of]; [done|]. intros (H1 & H2 & H3) [Hi Hnd]%NoDup_cons Hp' Hh Hn Hpr. split_and!; [done|by apply Hh|].
  apply (seg_frame s); [done|apply Hn; set_solver|]. intros j Hj. split; [apply Hn; set_solver|]. apply Hpr; [set_solver|]. cbn. by intros [= ->].
Qed.


(** ** What a step on a list leaves alone *)

Record list_step (s s' : slab_pool) (h : desc) (Q : Z -> Prop) : Prop := {
  step_slabs : slabs s' = slabs s;
  step_bitmaps : bitmaps s' = bitmaps s;
  step_links : forall d, ~ in_list h Q d -> same_links s s' d;
  step_nexts : forall d, is_Some (nexts s !! d) -> is_Some (nexts s' !! d);
  step_prevs : forall d, is_Some (prevs s !! d) -> is_Some (prevs s' !! d);
}.

Lemma is_Some_insert {A} (m : gmap desc A) d v x : is_Some (m !! x) -> is_Some (<[d := v]> m !! x).
Proof. intros H. destruct (decide (d = x)) as [-> |]; [rewrite lookup_insert_eq; by eexists|by rewrite lookup_insert_ne]. Qed.

#[local] Hint Resolve is_Some_insert : core.

Lemma in_list_last h l Q : (forall i, i ∈ l -> Q i) -> in_list h Q (last_of h l).
Proof. intros Hl. destruct (last_of_elem h l) as [-> |(i & Hi & ->)]; [by left|right; exists i; auto]. Qed.

Lemma in_list_first h l Q : (forall i, i ∈ l -> Q i) -> in_list h Q (first_of l h).
Proof. intros Hl. destruct l as [|i l]; [by left|]. right. exists i. split; [done|apply Hl; set_solver]. Qed.

Ltac ne := solve [congruence | let E := fresh in intros E; simplify_eq; set_solver].

(** The pages between [l1] and [l2] are replaced by [m], given the links of [m]. *)
Lemma splice s s' t h l1 i l2 (m : list Z) :
  is_head h -> NoDup (l1 ++ i :: l2) -> seg s t h (l1 ++ i :: l2) h ->
  NoDup (l1 ++ m ++ l2) ->
  nexts s' !! last_of h l1 = Some (first_of (m ++ l2) h) ->
  (forall k, head l2 = Some k -> prevs s' !! Page k = Some (last_of h (l1 ++ m), t)) ->
  (forall d, in_list h (fun k => k ∈ l1 \/ k ∈ l2) d -> d <> last_of h l1 -> nexts s' !! d = nexts s !! d) ->
  (forall k, k ∈ l1 \/ k ∈ l2 -> head l2 <> Some k -> prevs s' !! Page k = prevs s !! Page k) ->
  match m with
  | [] => True
  | [x] => nexts s' !! Page x = Some (first_of l2 h) /\ prevs s' !! Page x = Some (last_of h l1, t)
  | _ => False
  end ->
  seg s' t h (l1 ++ m ++ l2) h.
Proof.
  intros Hh Hnd Hs Hnd' Hl1 Hl2 Hn Hp Hm. apply seg_app in Hs as (H1 & _ & H2).
  apply NoDup_app in Hnd as (Hnd1 & Hd & [Hi Hnd2]%NoDup_cons).
  assert (forall e, nexts s' !! last_of h l1 = Some e -> seg s' t h l1 e) as Before.
  { intros e He. apply (seg_retarget s s' t h l1 (Page i)); [done|done|intros; by apply head_not_page|done| |].
    - intros d Hd1 Hd2. apply Hn; [|done]. destruct Hd1 as [-> |(k & -> & Hk)]; [by left|right; exists k; auto].
    - intros k Hk. apply Hp; [by left|]. intros E. apply (Hd k Hk). destruct l2; cbn in E; [done|]. simplify_eq. set_solver. }
  assert (forall p, nexts s' !! p = Some (first_of l2 h) -> p = last_of h (l1 ++ m) -> seg s' t p l2 h) as After.
  { intros p Hp1 ->. apply (seg_restart s s' t (Page i)); [done|done|done|done| |].
    - intros k Hk. apply Hn; [right; exists k; auto|]. destruct (last_of_elem h l1) as [-> |(j & Hj & ->)]; [by apply head_not_page|].
      intros [= ->]. apply (Hd j Hj). set_solver.
    - intros k Hk E. apply Hp; [by right|done]. }
  destruct m as [|x [|y m]]; [| |done]; cbn [app] in *.
  - rewrite app_nil_r in After. destruct l2 as [|k l2]; [rewrite app_nil_r; by apply Before|].
    apply seg_app. cbn [first_of] in *. specialize (After _ Hl1 eq_refl) as (_ & A2 & A3). split_and!; [by apply Before|done|done].
  - destruct Hm as [Hm1 Hm2]. apply seg_app. split_and!; [by apply Before|done|]. apply After; [done|]. unfold last_of. by rewrite last_snoc.
Qed.

Lemma slab_unlink_run s h t Q i :
  list_ok s h t Q -> Q i ->
  exists s', unlink (Page i) s = Some (tt, s') /\ list_ok s' h t (fun j => Q j /\ j <> i) /\ list_step s s' h Q /\ same_links s s' (Page i).
Proof.
  intros (Hh & Hph & l & Hnd & Hs & Hl) Hi. apply Hl, list_elem_of_split in Hi as (l1 & l2 & ->).
  pose proof Hs as (H1 & Hprev & H2)%seg_app. pose proof (seg_first _ _ _ _ _ H2) as Hnext.
  pose proof (seg_first _ _ _ _ _ Hs) as Hfirst.
  assert ((i ∉ l1) /\ (i ∉ l2)) as [Hi1 Hi2] by (apply NoDup_app in Hnd as (_ & Hd & [Hi _]%NoDup_cons); split; [intros Hx; apply (Hd i Hx); set_solver|done]).
  assert (is_Some (nexts s !! last_of h l1)) as Hsl.
  { destruct (last_of_elem h l1) as [-> |(j & Hj & ->)]; [by eexists|]. apply (seg_page _ _ _ _ _ j Hs). set_solver. }
  assert (is_Some (prevs s !! first_of l2 h)) as Hsf.
  { destruct l2 as [|k l2]; [done|]. cbn. destruct (seg_page _ _ _ _ _ k Hs) as [_ [q Hq]]; [set_solver|]. by eexists. }
  assert (last_of h l1 <> Page i) as Hne1.
  { destruct (last_of_elem h l1) as [-> |(j & Hj & ->)]; [by apply not_eq_sym, head_not_page|]. ne. }
  assert (first_of l2 h <> Page i) as Hne2 by (destruct l2; [by apply not_eq_sym, head_not_page|cbn; ne]).
  unfold unlink. erewrite mthen_run by (by apply get_prev_run). erewrite mthen_run by (by apply get_next_run). cbn [fst].
  erewrite mthen_run by (by apply put_next_run). erewrite mthen_run by (apply get_next_run; cbn; by rewrite lookup_insert_ne).
  erewrite mthen_run by (by apply get_prev_run). rewrite put_prev_run by done. cbn [slabs nexts prevs bitmaps].
  eexists. split; [reflexivity|].
  assert (NoDup (l1 ++ l2)) as Hnd' by (rewrite <- Permutation_middle in Hnd; by apply NoDup_cons in Hnd as [_ ?]).
  split_and!.
  - split; [done|]. split; [cbn; auto|]. exists (l1 ++ l2). split_and!; [done| |].
    + apply (splice s _ t h l1 i l2 []); cbn [nexts prevs app]; try done.
      * apply lookup_insert_eq.
      * intros k Hk. rewrite app_nil_r. destruct l2; [done|]. cbn in Hk. simplify_eq. apply lookup_insert_eq.
      * intros d _ Hd. by apply lookup_insert_ne.
      * intros k _ Hk. apply lookup_insert_ne. destruct l2; cbn in *; [by apply not_eq_sym, head_not_page|congruence].
    + intros j. rewrite <- Hl, !elem_of_app, elem_of_cons. split; [|naive_solver]. intros [H|H]; (split; [tauto|]); by intros ->.
  - split; cbn; try done; auto. intros d Hd. split; cbn; apply lookup_insert_ne; intros <-; apply Hd.
    + apply in_list_last. intros; apply Hl. set_solver.
    + apply in_list_first. intros; apply Hl. set_solver.
  - split; cbn; by apply lookup_insert_ne.
Qed.


(** The state after a page is put at the head of a list. *)
Definition pushed (s : slab_pool) (h : desc) (t i : Z) (f : desc) : slab_pool :=
  mk_pool (slabs s) (<[h := Page i]> (<[Page i := f]> (nexts s))) (<[f := (Page i, t)]> (<[Page i := (h, t)]> (prevs s))) (bitmaps s).

Lemma pushed_ok s h t Q i f :
  list_ok s h t Q -> ~ Q i -> nexts s !! h = Some f -> is_Some (nexts s !! Page i) -> is_Some (prevs s !! Page i) ->
  list_ok (pushed s h t i f) h t (fun j => Q j \/ j = i) /\ list_step s (pushed s h t i f) h (fun j => Q j \/ j = i) /\
  is_Some (prevs s !! f) /\ f <> Page i.
Proof.
  intros (Hh & Hph & l & Hnd & Hs & Hl) Hi Hf Hn Hp. pose proof (seg_first _ _ _ _ _ Hs) as Hf'. assert (f = first_of l h) as -> by congruence. clear Hf.
  assert (i ∉ l) as Hil by (by rewrite Hl).
  assert (first_of l h <> Page i) as Hne by (destruct l; [by apply not_eq_sym, head_not_page|cbn; ne]).
  assert (h <> Page i) as Hhi by (by apply not_eq_sym, head_not_page).
  assert (is_Some (prevs s !! first_of l h)) as Hsf.
  { destruct l as [|k l]; [done|]. cbn. destruct (seg_page _ _ _ _ _ k Hs) as [_ [q Hq]]; [set_solver|]. by eexists. }
  split_and!; [|split| |]; try done; cbn; auto.
  - split; [done|]. split; [cbn; auto|]. exists (i :: l). split_and!; [by constructor| |].
    + cbn. rewrite lookup_insert_eq, (lookup_insert_ne _ (first_of l h)), lookup_insert_eq by done. split_and!; [done|done|].
      apply (seg_restart s _ t h); [done|done|cbn; by rewrite lookup_insert_ne, lookup_insert_eq| | |]; cbn.
      * intros k Hk. destruct l; cbn in Hk; [done|]. simplify_eq. apply lookup_insert_eq.
      * intros k Hk. rewrite !lookup_insert_ne; [done|ne|by apply not_eq_sym, head_not_page].
      * intros k Hk E. rewrite !lookup_insert_ne; [done|ne|]. destruct l; cbn in *; [by apply not_eq_sym, head_not_page|congruence].
    + intros j. rewrite elem_of_cons, Hl. tauto.
  - intros d Hd. split; cbn; rewrite !lookup_insert_ne; try done; intros <-; apply Hd.
    + right. exists i. auto.
    + by left.
    + right. exists i. auto.
    + apply in_list_first. intros; left; by apply Hl.
Qed.

(** The end of [ngx_slab_free_pages]. *)
Lemma push_free_run s h t Q i :
  list_ok s h t Q -> ~ Q i -> is_Some (nexts s !! Page i) -> is_Some (prevs s !! Page i) ->
  exists s', (put_prev (Page i) (h, t) ;; next <-- get_next h; put_next (Page i) next ;;
    next <-- get_next (Page i); put_prev next (Page i, t) ;; put_next h (Page i)) s = Some (tt, s') /\
    list_ok s' h t (fun j => Q j \/ j = i) /\ list_step s s' h (fun j => Q j \/ j = i).
Proof.
  intros Hlist Hi Hn Hp. destruct (list_ok_head _ _ _ _ Hlist) as [[f Hf] _].
  destruct (pushed_ok s h t Q i f Hlist Hi Hf Hn Hp) as (H1 & H2 & Hsf & Hne).
  assert (h <> Page i) as Hhi by (apply not_eq_sym, head_not_page; apply Hlist).
  exists (pushed s h t i f). split; [|done].
  erewrite mthen_run by (by apply put_prev_run). erewrite mthen_run by (by apply get_next_run).
  erewrite mthen_run by (by apply put_next_run). erewrite mthen_run by (apply get_next_run; apply lookup_insert_eq).
  erewrite mthen_run by (apply put_prev_run; cbn; auto). rewrite put_next_run by (cbn; apply is_Some_insert; by eexists). done.
Qed.

Lemma slab_relink_run s k t Q i :
  list_ok s (Slot k) t Q -> ~ Q i -> is_Some (nexts s !! Page i) -> is_Some (prevs s !! Page i) ->
  exists s', relink i k t s = Some (tt, s') /\
    list_ok s' (Slot k) t (fun j => Q j \/ j = i) /\ list_step s s' (Slot k) (fun j => Q j \/ j = i).
Proof.
  intros Hlist Hi Hn Hp. destruct (list_ok_head _ _ _ _ Hlist) as [[f Hf] _].
  destruct (pushed_ok s (Slot k) t Q i f Hlist Hi Hf Hn Hp) as (H1 & H2 & Hsf & Hne).
  exists (pushed s (Slot k) t i f). split; [|done]. unfold relink.
  erewrite mthen_run by (by apply get_next_run). erewrite mthen_run by (by apply put_next_run).
  erewrite mthen_run by (apply put_next_run; cbn; apply is_Some_insert; by eexists).
  erewrite mthen_run by (apply put_prev_run; cbn; auto).
  erewrite mthen_run by (apply get_next_run; cbn; by rewrite lookup_insert_ne, lookup_insert_eq).
  rewrite put_prev_run by (cbn; auto). done.
Qed.

(** The first page of a list. *)
Lemma link_slot_run s k t Q i :
  list_ok s (Slot k) t Q -> (forall j, ~ Q j) -> is_Some (nexts s !! Page i) -> is_Some (prevs s !! Page i) ->
  exists s', link_slot i k t s = Some (tt, s') /\
    list_ok s' (Slot k) t (fun j => j = i) /\ list_step s s' (Slot k) (fun j => j = i).
Proof.
  intros (_ & Hph & l & Hnd & Hs & Hl) Hempty Hn Hp. assert (l = []) as -> by (destruct l as [|j l]; [done|]; exfalso; apply (Hempty j), Hl; set_solver).
  cbn in Hs. unfold link_slot. erewrite mthen_run by (by apply put_next_run). erewrite mthen_run by (by apply put_prev_run).
  rewrite put_next_run by (cbn; apply is_Some_insert; by eexists). eexists. split; [reflexivity|]. split.
  - split; [done|]. split; [cbn; auto|]. exists [i]. split_and!; [apply NoDup_singleton| |intros j; by rewrite list_elem_of_singleton].
    cbn. rewrite lookup_insert_eq, lookup_insert_eq, lookup_insert_ne, lookup_insert_eq by done. done.
  - split; cbn; auto. intros d Hd. split; cbn; rewrite !lookup_insert_ne; try done; intros <-; apply Hd; try (by left); right; by exists i.
Qed.

(** The first steps of [take_pages] on a run that is longer than asked for: the rest of
    the run takes the place of the page. *)
Lemma slab_replace_run s h t Q i i' :
  list_ok s h t Q -> Q i -> ~ Q i' -> is_Some (nexts s !! Page i') -> is_Some (prevs s !! Page i') ->
  exists s', (next <-- get_next (Page i); put_next (Page i') next ;;
     prev <-- get_prev (Page i); put_prev (Page i') prev ;;
     prev <-- get_prev (Page i); put_next prev.1 (Page i') ;;
     next <-- get_next (Page i); put_prev next (Page i', t)) s = Some (tt, s') /\
    list_ok s' h t (fun j => (Q j /\ j <> i) \/ j = i') /\ list_step s s' h (fun j => Q j \/ j = i').
Proof.
  intros (Hh & Hph & l & Hnd & Hs & Hl) Hi Hi' Hn Hp. pose proof Hi as Hii. apply Hl, list_elem_of_split in Hi as (l1 & l2 & ->).
  pose proof Hs as (H1 & Hprev & H2)%seg_app. pose proof (seg_first _ _ _ _ _ H2) as Hnext. pose proof (seg_first _ _ _ _ _ Hs) as Hfirst.
  assert ((i ∉ l1) /\ (i ∉ l2)) as [Hi1 Hi2] by (apply NoDup_app in Hnd as (_ & Hd & [Hi _]%NoDup_cons); split; [intros Hx; apply (Hd i Hx); set_solver|done]).
  assert (i' ∉ l1 ++ i :: l2) as Hin by (by rewrite Hl). assert (i <> i') as Hii' by (by intros ->).
  assert (is_Some (nexts s !! last_of h l1)) as Hsl.
  { destruct (last_of_elem h l1) as [-> |(j & Hj & ->)]; [by eexists|]. apply (seg_page _ _ _ _ _ j Hs). set_solver. }
  assert (is_Some (prevs s !! first_of l2 h)) as Hsf.
  { destruct l2 as [|x l2]; [done|]. cbn. destruct (seg_page _ _ _ _ _ x Hs) as [_ [q Hq]]; [set_solver|]. by eexists. }
  assert (last_of h l1 <> Page i /\ last_of h l1 <> Page i') as [Hne1 Hne1'].
  { destruct (last_of_elem h l1) as [-> |(j & Hj & ->)]; [split; by apply not_eq_sym, head_not_page|]. split; ne. }
  assert (first_of l2 h <> Page i /\ first_of l2 h <> Page i') as [Hne2 Hne2'].
  { destruct l2; [split; by apply not_eq_sym, head_not_page|cbn; split; ne]. }
  erewrite mthen_run by (by apply get_next_run). erewrite mthen_run by (by apply put_next_run).
  erewrite mthen_run by (by apply get_prev_run). erewrite mthen_run by (by apply put_prev_run).
  erewrite mthen_run by (apply get_prev_run; cbn; rewrite lookup_insert_ne by congruence; done). cbn [fst].
  erewrite mthen_run by (apply put_next_run; cbn; auto).
  erewrite mthen_run by (apply get_next_run; cbn; rewrite !lookup_insert_ne by congruence; done).
  rewrite put_prev_run by (cbn; auto). cbn [slabs nexts prevs bitmaps].
  eexists. split; [reflexivity|]. split.
  - split; [done|]. split; [cbn; auto|]. exists (l1 ++ [i'] ++ l2).
    assert (NoDup (l1 ++ [i'] ++ l2)) as Hnd'.
    { cbn. rewrite <- Permutation_middle in Hnd |- *. apply NoDup_cons in Hnd as [_ Hnd]. apply NoDup_cons. split; [set_solver|done]. }
    split_and!; [done| |].
    + apply (splice s _ t h l1 i l2 [i']); cbn [nexts prevs app]; try done.
      * apply lookup_insert_eq.
      * intros x Hx. destruct l2; [done|]. cbn in Hx. simplify_eq. unfold last_of. rewrite last_snoc. apply lookup_insert_eq.
      * intros d Hd1 Hd. rewrite !lookup_insert_ne; [done| |done]. destruct Hd1 as [-> |(x & -> & Hx)]; [by apply head_not_page|ne].
      * intros x Hx E. rewrite !lookup_insert_ne; [done|ne|]. destruct l2; cbn in *; [by apply not_eq_sym, head_not_page|congruence].
      * split; [by rewrite lookup_insert_ne, lookup_insert_eq|]. by rewrite lookup_insert_ne, lookup_insert_eq.
    + intros j. cbn. rewrite <- Hl, !elem_of_app, !elem_of_cons. split; [|naive_solver].
      intros [H|[->|H]]; [|by right|]; left; (split; [tauto|]); by intros ->.
  - split; cbn; auto. intros d Hd. split; cbn; rewrite !lookup_insert_ne; try done; intros <-; apply Hd; try (right; exists i'; by auto).
    + apply in_list_last. intros; left; apply Hl. set_solver.
    + apply in_list_first. intros; left; apply Hl. set_solver.
Qed.
