(* ===== verification/NgxSlabMap.v ===== *)
(** The maps of chunks in [NgxSlab], as numbers: bit [b] of the map of a page says that
    chunk [b] is in use.  What the searches for a clear bit, setting it and clearing one
    do to that number, for the three layouts of the map. *)

From S2P Require Import Prelude NgxStore NgxSlab NgxSlabLists.

Open Scope Z_scope.

(** * The number of a page *)

Definition chunks (shift : Z) : Z := 2 ^ (ngx_pagesize_shift - shift).
Definition all_used (shift : Z) : Z := Z.ones (chunks shift).
Definition reserved (shift : Z) : Z := if shift <? ngx_slab_exact_shift then map_chunks shift else 0.
Definition kind (shift : Z) : Z :=
  if shift <? ngx_slab_exact_shift then NGX_SLAB_SMALL else if shift =? ngx_slab_exact_shift then NGX_SLAB_EXACT else NGX_SLAB_BIG.

Definition word (w : Z) : Prop := 0 <= w < 2 ^ 64.
Definition word_bits (ws : list Z) : Z := foldr (fun w acc => Z.lor w (Z.shiftl acc 64)) 0 ws.

(** The map of page [i] is [used]. *)
Definition page_map (s : slab_pool) (i shift used : Z) : Prop :=
  if shift <? ngx_slab_exact_shift then
    slabs s !! Page i = Some shift /\
    exists ws, bitmaps s !! i = Some ws /\ Z.of_nat (length ws) = map_words shift /\ Forall word ws /\ word_bits ws = used
  else if shift =? ngx_slab_exact_shift then slabs s !! Page i = Some used
  else slabs s !! Page i = Some (Z.lor (Z.shiftl used NGX_SLAB_MAP_SHIFT) shift).

(** * Bits *)

Lemma ones_bit n b : 0 <= n -> Z.testbit (Z.ones n) b = bool_decide (0 <= b < n).
Proof.
  intros Hn. case_bool_decide as H; [by apply Z.ones_spec_low|].
  destruct (decide (b < 0)); [by apply Z.testbit_neg_r|]. apply Z.ones_spec_high. lia.
Qed.

Lemma bits_above w n b : 0 <= w < 2 ^ n -> n <= b -> Z.testbit w b = false.
Proof.
  intros Hw Hb. destruct (decide (w = 0)) as [-> |]; [apply Z.bits_0|]. apply Z.bits_above_log2; [lia|].
  assert (Z.log2 w < n); [|lia]. apply Z.log2_lt_pow2; lia.
Qed.

Lemma below_of_bits w n : 0 <= n -> 0 <= w -> (forall b, n <= b -> Z.testbit w b = false) -> w < 2 ^ n.
Proof.
  intros Hn Hw H. destruct (decide (w = 0)) as [-> |]; [lia|]. apply Z.log2_lt_pow2; [lia|]. destruct (decide (Z.log2 w < n)); [done|].
  pose proof (H (Z.log2 w) ltac:(lia)) as H1. rewrite Z.bit_log2 in H1 by lia. done.
Qed.

Lemma ones_of_bits w n : 0 <= n -> 0 <= w < 2 ^ n -> (forall b, 0 <= b < n -> Z.testbit w b = true) -> w = Z.ones n.
Proof.
  intros Hn Hw H. apply Z.bits_inj'. intros b Hb. rewrite ones_bit by done. case_bool_decide; [by apply H|]. apply (bits_above _ n); lia.
Qed.

Lemma ones_below n : 0 <= n -> Z.ones n = 2 ^ n - 1.
Proof. intros. rewrite Z.ones_equiv. lia. Qed.

Lemma set_bit_bit w b c : 0 <= b -> Z.testbit (Z.lor w (2 ^ b)) c = Z.testbit w c || bool_decide (c = b).
Proof.
  intros Hb. rewrite Z.lor_spec. f_equal. case_bool_decide; [subst; by apply Z.pow2_bits_true|]. apply Z.pow2_bits_false. lia.
Qed.

Lemma clear_bit_bit w b c : 0 <= b -> Z.testbit (Z.land w (Z.lnot (2 ^ b))) c = Z.testbit w c && negb (bool_decide (c = b)).
Proof.
  intros Hb. destruct (decide (c < 0)); [by rewrite !Z.testbit_neg_r|]. rewrite Z.land_spec, Z.lnot_spec by lia. f_equal. f_equal.
  case_bool_decide; [subst; by apply Z.pow2_bits_true|]. apply Z.pow2_bits_false. lia.
Qed.

Lemma set_bit_below w b n : 0 <= w < 2 ^ n -> 0 <= b < n -> 0 <= Z.lor w (2 ^ b) < 2 ^ n.
Proof.
  intros Hw Hb. assert (0 <= Z.lor w (2 ^ b)) by (apply Z.lor_nonneg; split; [lia|apply Z.pow_nonneg; lia]). split; [done|].
  apply below_of_bits; [lia|done|]. intros c Hc. rewrite set_bit_bit, (bits_above w n), bool_decide_false; [done|lia|done|lia|lia].
Qed.

Lemma clear_bit_below w b n : 0 <= w < 2 ^ n -> 0 <= b -> 0 <= Z.land w (Z.lnot (2 ^ b)) < 2 ^ n.
Proof.
  intros Hw Hb. assert (0 <= n) by (destruct (decide (n < 0)) as [Hn|]; [rewrite Z.pow_neg_r in Hw by done|]; lia).
  assert (0 <= Z.land w (Z.lnot (2 ^ b))) by (apply Z.land_nonneg; left; lia). split; [done|].
  apply below_of_bits; [done|done|]. intros c Hc. by rewrite clear_bit_bit, (bits_above w n).
Qed.

Lemma test_bit w b : 0 <= b -> (Z.land w (2 ^ b) =? 0) = negb (Z.testbit w b).
Proof.
  intros Hb. destruct (Z.testbit w b) eqn:E; cbn.
  - apply Z.eqb_neq. intros H. apply (f_equal (fun z => Z.testbit z b)) in H. by rewrite Z.land_spec, E, Z.pow2_bits_true, Z.bits_0 in H.
  - apply Z.eqb_eq, Z.bits_inj'. intros c Hc. rewrite Z.land_spec, Z.bits_0. destruct (decide (c = b)) as [-> |]; [by rewrite E|].
    rewrite Z.pow2_bits_false by lia. by rewrite andb_false_r.
Qed.

(** ** The search in a word *)

Lemma clear_bit_spec fuel w i :
  0 <= i -> (exists b, i <= b < i + Z.of_nat fuel /\ Z.testbit w b = false) ->
  exists b, clear_bit fuel w i = Some b /\ i <= b < i + Z.of_nat fuel /\ Z.testbit w b = false.
Proof.
  revert i. induction fuel as [|fuel IH]; intros i Hi (b & Hb & E); [lia|]. cbn [clear_bit]. destruct (Z.testbit w i) eqn:Ei.
  - destruct (IH (i + 1)) as (c & H1 & H2 & H3); [lia|exists b; split; [|done]; assert (b <> i) by congruence; lia|]. exists c. split_and!; [done|lia|lia|done].
  - exists i. split_and!; [done|lia|lia|done].
Qed.

Lemma not_ones_clear w n : 0 <= n -> 0 <= w < 2 ^ n -> w <> Z.ones n -> exists b, 0 <= b < n /\ Z.testbit w b = false.
Proof.
  intros Hn Hw Hne. destruct (decide (Forall (fun b => Z.testbit w b = true) (seqZ 0 n))) as [H|H].
  - destruct Hne. apply ones_of_bits; [done|done|]. intros b Hb. rewrite Forall_forall in H. apply H, elem_of_seqZ. lia.
  - apply not_Forall_Exists, Exists_exists in H as (b & Hb%elem_of_seqZ & E); [|tc_solve]. exists b. split; [lia|]. by apply not_true_is_false.
Qed.

Lemma clear_bit_word w : word w -> w <> NGX_SLAB_BUSY ->
  exists b, clear_bit 64 w 0 = Some b /\ 0 <= b < 64 /\ Z.testbit w b = false.
Proof.
  intros Hw Hne. destruct (not_ones_clear w 64) as (b & Hb & E); [lia|done|done|]. apply (clear_bit_spec 64 w 0); [lia|by exists b].
Qed.

(** ** The words of a small page *)

Lemma word_bits_cons w ws b : word w -> 0 <= b ->
  Z.testbit (word_bits (w :: ws)) b = if b <? 64 then Z.testbit w b else Z.testbit (word_bits ws) (b - 64).
Proof.
  intros Hw Hb. cbn. rewrite Z.lor_spec, Z.shiftl_spec by lia. destruct (Z.ltb_spec b 64).
  - rewrite (Z.testbit_neg_r (word_bits ws)) by lia. apply orb_false_r.
  - by rewrite (bits_above w 64).
Qed.

Lemma word_bits_bounds ws : Forall word ws -> 0 <= word_bits ws < 2 ^ (64 * Z.of_nat (length ws)).
Proof.
  induction 1 as [|w ws Hw Hws IH]; [cbn; lia|]. assert (0 <= word_bits (w :: ws)) as H0.
  { cbn. apply Z.lor_nonneg. split; [apply Hw|]. apply Z.shiftl_nonneg, IH. }
  split; [done|]. apply below_of_bits; [lia|done|]. intros b Hb. cbn [length] in Hb.
  rewrite word_bits_cons by (done || lia). destruct (Z.ltb_spec b 64); [lia|]. apply (bits_above _ (64 * Z.of_nat (length ws))); [done|lia].
Qed.

Lemma word_bits_full ws : Forall word ws ->
  forallb (fun w => w =? NGX_SLAB_BUSY) ws = (word_bits ws =? Z.ones (64 * Z.of_nat (length ws))).
Proof.
  induction 1 as [|w ws Hw Hws IH]; [done|]. cbn [forallb]. rewrite IH. pose proof (word_bits_bounds (w :: ws) ltac:(by constructor)) as Hb.
  apply Bool.eq_iff_eq_true. rewrite andb_true_iff, !Z.eqb_eq. split.
  - intros [-> E]. apply ones_of_bits; [lia|done|]. intros b Hb'. rewrite word_bits_cons by (done || lia). cbn [length] in Hb'.
    destruct (Z.ltb_spec b 64); [change NGX_SLAB_BUSY with (Z.ones 64); apply Z.ones_spec_low; lia|]. rewrite E. apply Z.ones_spec_low. lia.
  - intros E. assert (forall b, 0 <= b < 64 * Z.of_nat (length (w :: ws)) -> Z.testbit (word_bits (w :: ws)) b = true) as Ht.
    { intros b Hb'. rewrite E. by apply Z.ones_spec_low. }
    cbn [length] in Ht. change NGX_SLAB_BUSY with (Z.ones 64); split; (apply ones_of_bits; [lia|first [exact Hw|by apply word_bits_bounds]|]); intros b Hb'.
    + specialize (Ht b ltac:(lia)). rewrite word_bits_cons in Ht by (done || lia). by destruct (Z.ltb_spec b 64); [|lia].
    + specialize (Ht (b + 64) ltac:(lia)). rewrite word_bits_cons in Ht by (done || lia). destruct (Z.ltb_spec (b + 64) 64); [lia|].
      by replace (b + 64 - 64) with b in Ht by lia.
Qed.

Lemma word_bits_set w ws b : word w -> 0 <= b < 64 -> word_bits (Z.lor w (2 ^ b) :: ws) = Z.lor (word_bits (w :: ws)) (2 ^ b).
Proof. intros _ _. cbn. rewrite <- !Z.lor_assoc. f_equal. apply Z.lor_comm. Qed.

Lemma word_bits_tail_set w ws ws' b : 0 <= b -> word_bits ws' = Z.lor (word_bits ws) (2 ^ b) ->
  word_bits (w :: ws') = Z.lor (word_bits (w :: ws)) (2 ^ (64 + b)).
Proof.
  intros Hb E. unfold word_bits in *. cbn [foldr]. rewrite E, Z.shiftl_lor, Z.lor_assoc. do 2 f_equal. rewrite Z.shiftl_mul_pow2, Z.pow_add_r by lia. lia.
Qed.

(** The outcome of the search for a clear chunk in a map. *)
Definition marked (used used' b n : Z) : Prop := 0 <= b < n /\ Z.testbit used b = false /\ used' = Z.lor used (2 ^ b).

Lemma small_words_spec ws n shift :
  Forall word ws -> 0 <= n -> 0 <= shift -> word_bits ws <> Z.ones (64 * Z.of_nat (length ws)) ->
  exists ws' b, marked (word_bits ws) (word_bits ws') b (64 * Z.of_nat (length ws)) /\
    small_words ws n shift = Some (ws', word_bits ws' =? Z.ones (64 * Z.of_nat (length ws)), Z.shiftl (n * 64 + b) shift) /\
    length ws' = length ws /\ Forall word ws'.
Proof.
  intros Hws. revert n. induction Hws as [|w ws Hw Hws IH]; intros n Hn Hs Hne; [done|]. cbn [small_words]. destruct (Z.eqb_spec w NGX_SLAB_BUSY) as [E|E].
  - pose proof (word_bits_full (w :: ws) ltac:(by constructor)) as Hf. pose proof (word_bits_full ws Hws) as Hf'.
    apply Z.eqb_neq in Hne. rewrite Hne in Hf. cbn [forallb] in Hf. rewrite E, Z.eqb_refl, Hf' in Hf. cbn [andb] in Hf. apply Z.eqb_neq in Hf.
    destruct (IH (n + 1)) as (ws' & b & (Hb1 & Hb2 & Hb3) & Hrun & Hlen & Hw'); [lia|done|done|]. exists (w :: ws'), (64 + b).
    assert (Forall word (w :: ws')) as Hww by (by constructor). rewrite Hrun. cbn [mbind option_bind option_map].
    split_and!; [split_and!| |cbn; lia|done].
    + lia.
    + cbn [length]. lia.
    + rewrite word_bits_cons by (done || lia). destruct (Z.ltb_spec (64 + b) 64); [lia|]. by replace (64 + b - 64) with b by lia.
    + apply word_bits_tail_set; [lia|done].
    + replace ((n + 1) * 64 + b) with (n * 64 + (64 + b)) by lia. do 3 f_equal. rewrite <- Hlen.
      replace (length (w :: ws)) with (length (w :: ws')) by (cbn; lia).
      rewrite <- !word_bits_full by done. cbn [forallb]. by rewrite E, Z.eqb_refl.
  - destruct (clear_bit_word w Hw E) as (b & Hrun & Hb & Hbit). rewrite Hrun. cbn [mbind option_bind].
    rewrite (Z.shiftl_1_l b). assert (word (Z.lor w (2 ^ b))) as Hw' by (by apply set_bit_below).
    exists (Z.lor w (2 ^ b) :: ws), b. split_and!; [split_and!| |done|by constructor].
    + lia.
    + cbn [length]. lia.
    + rewrite word_bits_cons by (done || lia). by destruct (Z.ltb_spec b 64); [|lia].
    + by apply word_bits_set.
    + replace (Z.shiftl (n * 64) shift + Z.shiftl b shift) with (Z.shiftl (n * 64 + b) shift) by (rewrite !Z.shiftl_mul_pow2 by lia; lia).
      by rewrite word_bits_full by (by constructor).
Qed.

(** ** The search in the high half of the field [slab] *)

Lemma big_bit_spec fuel w n i :
  0 <= i -> 0 <= n < i + Z.of_nat fuel -> (exists b, i <= b < n /\ Z.testbit w (32 + b) = false) ->
  exists b, big_bit fuel w (Z.shiftl (Z.ones n) NGX_SLAB_MAP_SHIFT) i = Some b /\ i <= b < n /\ Z.testbit w (32 + b) = false.
Proof.
  unfold NGX_SLAB_MAP_SHIFT. revert i. induction fuel as [|fuel IH]; intros i Hi Hn (b & Hb & E); [lia|]. cbn [big_bit].
  rewrite Z.shiftl_spec by (unfold NGX_SLAB_MAP_SHIFT; lia). replace (NGX_SLAB_MAP_SHIFT + i - 32) with i by (unfold NGX_SLAB_MAP_SHIFT; lia).
  rewrite ones_bit, bool_decide_true by lia. unfold NGX_SLAB_MAP_SHIFT in *. destruct (Z.testbit w (32 + i)) eqn:Ei.
  - destruct (IH (i + 1)) as (c & H1 & H2 & H3); [lia|lia|exists b; split; [|done]; assert (b <> i) by congruence; lia|].
    exists c. split_and!; [done|lia|lia|done].
  - exists i. split_and!; [done|lia|lia|done].
Qed.

(** The field [slab] of a page with big chunks. *)
Definition big_slab (used shift : Z) : Z := Z.lor (Z.shiftl used NGX_SLAB_MAP_SHIFT) shift.

Lemma big_slab_bit used shift b : 0 <= used -> 0 <= shift < 16 -> 0 <= b -> Z.testbit (big_slab used shift) (32 + b) = Z.testbit used b.
Proof.
  intros. unfold big_slab, NGX_SLAB_MAP_SHIFT. rewrite Z.lor_spec, Z.shiftl_spec, (bits_above shift 4) by lia. rewrite orb_false_r. f_equal. lia.
Qed.

Lemma big_slab_shift used shift : 0 <= shift < 16 -> Z.land (big_slab used shift) NGX_SLAB_SHIFT_MASK = shift.
Proof.
  intros Hs. apply Z.bits_inj'. intros b Hb. unfold big_slab, NGX_SLAB_MAP_SHIFT. change NGX_SLAB_SHIFT_MASK with (Z.ones 4).
  rewrite Z.land_spec, Z.lor_spec, Z.shiftl_spec, ones_bit by lia. case_bool_decide.
  - rewrite andb_true_r, (Z.testbit_neg_r used) by lia. done.
  - rewrite andb_false_r. symmetry. apply (bits_above _ 4); lia.
Qed.

Lemma big_slab_map used shift : 0 <= used < 2 ^ 32 -> 0 <= shift < 16 -> Z.land (big_slab used shift) NGX_SLAB_MAP_MASK = Z.shiftl used 32.
Proof.
  intros Hu Hs. apply Z.bits_inj'. intros b Hb. change NGX_SLAB_MAP_MASK with (Z.shiftl (Z.ones 32) 32). rewrite Z.land_spec, !Z.shiftl_spec, ones_bit by lia.
  case_bool_decide.
  - replace b with (32 + (b - 32)) at 1 by lia. rewrite big_slab_bit by lia. apply andb_true_r.
  - rewrite andb_false_r. symmetry. destruct (decide (b < 32)); [by apply Z.testbit_neg_r; lia|]. apply (bits_above _ 32); lia.
Qed.

Lemma big_slab_set used shift b : 0 <= b -> Z.lor (big_slab used shift) (2 ^ (32 + b)) = big_slab (Z.lor used (2 ^ b)) shift.
Proof.
  intros Hb. unfold big_slab, NGX_SLAB_MAP_SHIFT. rewrite Z.shiftl_lor, (Z.shiftl_mul_pow2 (2 ^ b)), <- Z.pow_add_r, (Z.add_comm b) by lia.
  rewrite <- !Z.lor_assoc. f_equal. apply Z.lor_comm.
Qed.

Lemma big_slab_clear used shift b : 0 <= used -> 0 <= shift < 16 -> 0 <= b ->
  Z.land (big_slab used shift) (Z.lnot (2 ^ (32 + b))) = big_slab (Z.land used (Z.lnot (2 ^ b))) shift.
Proof.
  intros Hu Hs Hb. apply Z.bits_inj'. intros c Hc. rewrite clear_bit_bit by lia. unfold big_slab, NGX_SLAB_MAP_SHIFT.
  rewrite !Z.lor_spec, !Z.shiftl_spec, clear_bit_bit by lia. destruct (decide (c < 32)).
  - rewrite !(Z.testbit_neg_r used) by lia. rewrite (bool_decide_false (c = _)) by lia. cbn. apply andb_true_r.
  - rewrite (bits_above shift 4), !orb_false_r by lia. do 2 f_equal. apply bool_decide_ext. lia.
Qed.

(** ** Clearing a bit of the words *)

Lemma word_bits_bit ws b : Forall word ws -> 0 <= b ->
  Z.testbit (word_bits ws) b = match ws !! Z.to_nat (b / 64) with Some w => Z.testbit w (b mod 64) | None => false end.
Proof.
  intros Hws. revert b. induction Hws as [|w ws Hw Hws IH]; intros b Hb; [by rewrite Z.bits_0|]. rewrite word_bits_cons by done.
  destruct (Z.ltb_spec b 64).
  - by rewrite Z.div_small, Z.mod_small by lia.
  - rewrite IH by lia. assert (b = b - 64 + 1 * 64) as E by lia. assert (b / 64 = (b - 64) / 64 + 1) as -> by (rewrite E at 1; by rewrite Z.div_add).
    assert (b mod 64 = (b - 64) mod 64) as -> by (rewrite E at 1; by rewrite Z.mod_add).
    by replace (Z.to_nat ((b - 64) / 64 + 1)) with (S (Z.to_nat ((b - 64) / 64))) by (pose proof (Z.div_pos (b - 64) 64); lia).
Qed.

Lemma word_bits_clear ws b w : Forall word ws -> 0 <= b -> ws !! Z.to_nat (b / 64) = Some w ->
  let ws' := <[Z.to_nat (b / 64) := Z.land w (Z.lnot (2 ^ (b mod 64)))]> ws in
  Forall word ws' /\ word_bits ws' = Z.land (word_bits ws) (Z.lnot (2 ^ b)).
Proof.
  intros Hws Hb Hw ws'. pose proof (Z.mod_pos_bound b 64 ltac:(lia)) as Hm. pose proof (Z.div_mod b 64 ltac:(lia)) as Hdm.
  pose proof (Z.div_pos b 64 Hb ltac:(lia)) as Hd.
  assert (Forall word ws') as Hws'.
  { apply Forall_insert; [done|]. apply clear_bit_below; [|lia]. rewrite Forall_lookup in Hws. by eapply Hws. }
  split; [done|]. apply Z.bits_inj'. intros c Hc. rewrite clear_bit_bit, !word_bits_bit by done.
  destruct (decide (Z.to_nat (c / 64) = Z.to_nat (b / 64))) as [E|E].
  - unfold ws'. rewrite E, list_lookup_insert_eq by (by eapply lookup_lt_Some). rewrite Hw, clear_bit_bit by lia. do 2 f_equal. apply bool_decide_ext.
    pose proof (Z.div_mod c 64 ltac:(lia)). pose proof (Z.div_pos c 64 Hc ltac:(lia)). split; [|by intros ->]. intros. lia.
  - unfold ws'. rewrite list_lookup_insert_ne by congruence. rewrite bool_decide_false by congruence. by rewrite andb_true_r.
Qed.

(** No chunk is in use but those of the map. *)
Definition no_chunks (shift used : Z) : bool := Z.shiftr used (reserved shift) =? 0.

Lemma shiftr_zero w r : 0 <= r -> Z.shiftr w r = 0 <-> (forall b, r <= b -> Z.testbit w b = false).
Proof.
  intros Hr. split.
  - intros H b Hb. apply (f_equal (fun z => Z.testbit z (b - r))) in H. rewrite Z.shiftr_spec, Z.bits_0 in H by lia. by replace (b - r + r) with b in H by lia.
  - intros H. apply Z.bits_inj'. intros b Hb. rewrite Z.shiftr_spec, Z.bits_0 by done. apply H. lia.
Qed.

Lemma high_bits w r : 0 <= r -> (Z.land w (Z.lnot (Z.shiftl 1 r - 1)) =? 0) = (Z.shiftr w r =? 0).
Proof.
  intros Hr. apply Bool.eq_iff_eq_true. rewrite !Z.eqb_eq, shiftr_zero by done. rewrite Z.shiftl_1_l, <- ones_below by done. split.
  - intros H b Hb. apply (f_equal (fun z => Z.testbit z b)) in H. rewrite Z.land_spec, Z.lnot_spec, ones_bit, bool_decide_false, Z.bits_0 in H by lia.
    by rewrite andb_true_r in H.
  - intros H. apply Z.bits_inj'. intros b Hb. rewrite Z.land_spec, Z.lnot_spec, ones_bit, Z.bits_0 by lia. case_bool_decide; [apply andb_false_r|].
    rewrite H by lia. done.
Qed.

Lemma small_no_chunks w ws r : Forall word (w :: ws) -> 0 <= r < 64 ->
  (Z.land w (Z.lnot (Z.shiftl 1 r - 1)) =? 0) && negb (existsb (fun w => negb (w =? 0)) ws) = (Z.shiftr (word_bits (w :: ws)) r =? 0).
Proof.
  intros [Hw Hws]%Forall_cons Hr. rewrite high_bits by lia.
  assert (negb (existsb (fun w => negb (w =? 0)) ws) = (word_bits ws =? 0)) as ->.
  { clear Hw. induction Hws as [|x ws Hx Hws IH]; [done|]. cbn [existsb]. rewrite negb_orb, negb_involutive, IH.
    apply Bool.eq_iff_eq_true. rewrite andb_true_iff, !Z.eqb_eq. cbn. rewrite Z.lor_eq_0_iff, Z.shiftl_eq_0_iff by lia. done. }
  apply Bool.eq_iff_eq_true. rewrite andb_true_iff, !Z.eqb_eq, !shiftr_zero by lia. split.
  - intros [H E] b Hb. rewrite word_bits_cons by (done || lia). destruct (Z.ltb_spec b 64); [by apply H|]. by rewrite E, Z.bits_0.
  - intros H. split.
    + intros b Hb. destruct (decide (b < 64)); [|apply (bits_above _ 64); [done|lia]]. specialize (H b Hb). rewrite word_bits_cons in H by (done || lia).
      by destruct (Z.ltb_spec b 64); [|lia].
    + apply Z.bits_inj'. intros b Hb. specialize (H (b + 64) ltac:(lia)). rewrite word_bits_cons in H by (done || lia).
      destruct (Z.ltb_spec (b + 64) 64); [lia|]. replace (b + 64 - 64) with b in H by lia. by rewrite Z.bits_0.
Qed.

(** ** The shifts there are *)

Lemma shift_cases (P : Z -> Prop) : P 3 -> P 4 -> P 5 -> P 6 -> P 7 -> P 8 -> P 9 -> P 10 -> P 11 -> forall shift, 3 <= shift <= 11 -> P shift.
Proof.
  intros. assert (shift = 3 \/ shift = 4 \/ shift = 5 \/ shift = 6 \/ shift = 7 \/ shift = 8 \/ shift = 9 \/ shift = 10 \/ shift = 11) as Hs by lia.
  by repeat (destruct Hs as [-> | Hs]; [done|]); subst.
Qed.

Lemma chunks_size shift : 3 <= shift <= 11 -> chunks shift * 2 ^ shift = ngx_pagesize.
Proof. revert shift. by apply shift_cases. Qed.

Lemma chunks_words shift : 3 <= shift < 6 -> chunks shift = 64 * map_words shift.
Proof. intros Hs. revert shift Hs. refine (fun s H => _). assert (s = 3 \/ s = 4 \/ s = 5) as [->|[->| ->]] by lia; done. Qed.

Lemma reserved_bounds shift : 3 <= shift <= 11 -> 0 <= reserved shift < chunks shift /\ reserved shift < 64 /\ (6 <= shift -> reserved shift = 0).
Proof. revert shift. apply shift_cases; vm_compute; intuition congruence. Qed.
