(* ===== verification/NgxSlabPages.v ===== *)
(** The pages of a pool of [NgxSlab]: which runs of pages are free, which are allocated
    as a whole and which pages are cut into chunks, how the descriptors represent that,
    and what taking pages and giving them back do to it. *)

From S2P Require Import Prelude NgxStore NgxSlab NgxSlabLists NgxSlabMap.

Open Scope Z_scope.
Open Scope store_scope.

#[local] Arguments mthen : simpl never.

(** * The layout of a pool *)

Inductive region :=
| RFree (n : Z)            (* a run of [n] free pages *)
| RBusy (n : Z)            (* [n] pages allocated as one block *)
| RSlab (shift used : Z).  (* a page of chunks of 2^shift bytes, and the map of those in use *)

Definition pages_of (r : region) : Z := match r with RFree n | RBusy n => n | RSlab _ _ => 1 end.

(** The regions of a pool, by their first page. *)
Abbreviation regions := (gmap Z region).

Section pool.
Context (N min_shift : Z).

Definition region_ok (r : region) : Prop :=
  match r with
  | RFree n | RBusy n => 1 <= n
  | RSlab shift used =>
      min_shift <= shift <= 11 /\ 0 <= used < 2 ^ chunks shift /\ forall b, 0 <= b < reserved shift -> Z.testbit used b = true
  end.

(** The regions are disjoint and cover the [N] pages. *)
Record layout (g : regions) : Prop := {
  layout_ok : forall i r, g !! i = Some r -> region_ok r /\ 0 <= i /\ i + pages_of r <= N;
  layout_disjoint : forall i j r r', g !! i = Some r -> g !! j = Some r' -> i < j -> i + pages_of r <= j;
  layout_cover : forall k, 0 <= k < N -> exists i r, g !! i = Some r /\ i <= k < i + pages_of r;
}.

(** * The lists *)

(** The heads of lists there are, with the type of their pages. *)
Definition valid_head (h : desc) : Prop := match h with Free => True | Slot k => 0 <= k < 12 - min_shift | _ => False end.
Definition head_type (h : desc) : Z := match h with Slot k => kind (min_shift + k) | _ => NGX_SLAB_PAGE end.

(** A region whose first page is in the list of [h]. *)
Definition listed (h : desc) (r : region) : Prop :=
  match h, r with
  | Free, RFree _ => True
  | Slot k, RSlab shift used => shift = min_shift + k /\ used <> all_used shift
  | _, _ => False
  end.
Definition owner (g : regions) (h : desc) (i : Z) : Prop := exists r, g !! i = Some r /\ listed h r.

(** A region whose page number [k] is in no list, with the type of the page. *)
Definition unlisted (r : region) (k t : Z) : Prop :=
  match r with
  | RFree n => 0 < k /\ t = NGX_SLAB_PAGE
  | RBusy _ => t = NGX_SLAB_PAGE
  | RSlab shift used => used = all_used shift /\ t = kind shift
  end.
Definition loose (g : regions) (k t : Z) : Prop := exists i r, g !! i = Some r /\ i <= k < i + pages_of r /\ unlisted r (k - i) t.

(** The descriptors are linked as the regions say; nothing is said of the links of page [x]. *)
Record links_but (x : option Z) (s : slab_pool) (g : regions) : Prop := {
  links_list : forall h, valid_head h -> list_ok s h (head_type h) (owner g h);
  links_loose : forall k t, loose g k t -> x <> Some k -> nexts s !! Page k = Some Null /\ prevs s !! Page k = Some (Null, t);
  links_page : forall k, 0 <= k < N -> is_Some (nexts s !! Page k) /\ is_Some (prevs s !! Page k);
}.
Definition linked := links_but None.

(** * The fields [slab] and the maps *)

Definition contents_of (s : slab_pool) (i : Z) (r : region) : Prop :=
  match r with
  | RFree n => slabs s !! Page i = Some n /\ forall k, i < k < i + n -> slabs s !! Page k = Some NGX_SLAB_PAGE_FREE
  | RBusy n => slabs s !! Page i = Some (Z.lor n NGX_SLAB_PAGE_START) /\ forall k, i < k < i + n -> slabs s !! Page k = Some NGX_SLAB_PAGE_BUSY
  | RSlab shift used => page_map s i shift used
  end.
Definition contents (s : slab_pool) (g : regions) : Prop := forall i r, g !! i = Some r -> contents_of s i r.

Record pool_ok (s : slab_pool) (g : regions) : Prop := {
  pool_layout : layout g;
  pool_links : linked s g;
  pool_contents : contents s g;
}.

(** * Changing a region *)

Lemma layout_same g i r k r' : layout g -> g !! i = Some r -> g !! k = Some r' -> i <= k < i + pages_of r -> k = i.
Proof. intros Hg Hi Hk H. destruct (decide (k = i)); [done|]. pose proof (layout_disjoint g Hg i k r r' Hi Hk ltac:(lia)). lia. Qed.

Lemma layout_change g i r r' : layout g -> g !! i = Some r -> pages_of r' = pages_of r -> region_ok r' -> layout (<[i := r']> g).
Proof.
  intros Hg Hi Hn Hr. split.
  - intros j x. rewrite lookup_insert_Some. intros [[-> ->]|[Hj Hx]]; [|by apply Hg]. rewrite Hn. split; [done|]. by apply (layout_ok g Hg _ r).
  - intros j k x y. rewrite !lookup_insert_Some. intros [[-> ->]|[Hj Hx]] [[-> ->]|[Hk Hy]] Hlt; [lia| | |]; try rewrite Hn; by eapply (layout_disjoint g Hg).
  - intros k Hk. destruct (layout_cover g Hg k Hk) as (j & x & Hj & Hr'). destruct (decide (j = i)) as [-> |].
    + exists i, r'. rewrite lookup_insert_eq, Hn. split; [done|]. by simplify_eq.
    + exists j, x. by rewrite lookup_insert_ne.
Qed.

Lemma layout_pos g i r : layout g -> g !! i = Some r -> 1 <= pages_of r.
Proof. intros Hg Hi. destruct (layout_ok g Hg i r Hi) as [Hr _]. destruct r; cbn in *; lia. Qed.

(** The first [n] pages of a free run are allocated. *)
Definition carve (g : regions) (i m n : Z) : regions := <[i := RBusy n]> (if n <? m then <[i + n := RFree (m - n)]> g else g).

Lemma layout_carve g i m n : layout g -> g !! i = Some (RFree m) -> 1 <= n <= m -> layout (carve g i m n).
Proof.
  intros Hg Hi Hn. unfold carve. destruct (Z.ltb_spec n m); [|assert (n = m) as -> by lia; by eapply layout_change; [| | |cbn; lia]].
  destruct (layout_ok g Hg _ _ Hi) as (_ & Hi0 & HiN). cbn in HiN.
  assert (forall j x, g !! j = Some x -> j <> i -> 1 <= pages_of x /\ (j + pages_of x <= i \/ i + m <= j)) as Hout.
  { intros j x Hj Hne. split; [by eapply layout_pos|]. destruct (decide (j < i)); [left; by apply (layout_disjoint g Hg j i x (RFree m))|].
    right. apply (layout_disjoint g Hg i j (RFree m) x); [done|done|lia]. }
  assert (forall j x, <[i:=RBusy n]> (<[i + n:=RFree (m - n)]> g) !! j = Some x <->
    (j = i /\ x = RBusy n) \/ (j = i + n /\ x = RFree (m - n)) \/ (j <> i /\ j <> i + n /\ g !! j = Some x)) as Hl.
  { intros j x. assert (i <> i + n) by lia. rewrite !lookup_insert_Some. split.
    - intros [[<- <-]|[Hj [[<- <-]|[Hj' Hx]]]]; [by left|right; by left|right; right; by auto].
    - intros [[-> ->]|[[-> ->]|(Hj1 & Hj2 & Hx)]]; [by left|right; by auto|right; split; [done|right; by auto]]. }
  split.
  - intros j x [[-> ->]|[[-> ->]|(_ & _ & Hx)]]%Hl; cbn; [lia|lia|by apply Hg].
  - intros j k x y [[-> ->]|[[-> ->]|(Hj1 & Hj2 & Hx)]]%Hl [[-> ->]|[[-> ->]|(Hk1 & Hk2 & Hy)]]%Hl Hlt; cbn;
      try (destruct (Hout _ _ Hx ltac:(done))); try (destruct (Hout _ _ Hy ltac:(done))); try lia. by eapply (layout_disjoint g Hg).
  - intros k Hk. destruct (layout_cover g Hg k Hk) as (j & x & Hj & Hr). destruct (decide (j = i)) as [-> |Hne].
    + simplify_eq. cbn in Hr. destruct (decide (k < i + n)); [exists i, (RBusy n)|exists (i + n), (RFree (m - n))]; rewrite Hl; cbn; (split; [auto|lia]).
    + exists j, x. rewrite Hl. split; [|done]. right; right. split; [done|]. split; [|done]. intros ->.
      destruct (Hout _ _ Hj Hne); lia.
Qed.

(** * Moving a page between the lists *)

Lemma owner_head g h h' i : owner g h i -> owner g h' i -> h = h'.
Proof. intros (r & H1 & H2) (r' & H3 & H4). simplify_eq. destruct h, h', r; cbn in *; try done. f_equal. lia. Qed.

Lemma listed_unlisted h r t : listed h r -> unlisted r 0 t -> False.
Proof. destruct h, r; cbn; try done; [lia|]. by intros [? ?] [? ?]. Qed.

Lemma loose_owner g h k t : layout g -> loose g k t -> owner g h k -> False.
Proof.
  intros Hg (i & r & Hi & Hk & Hu) (r' & Hr' & Hl). pose proof (layout_same g i r k r' Hg Hi Hr' Hk) as ->. simplify_eq.
  rewrite Z.sub_diag in Hu. by eapply listed_unlisted.
Qed.

Lemma owner_insert g i r h k : owner (<[i := r]> g) h k <-> (k = i /\ listed h r) \/ (k <> i /\ owner g h k).
Proof.
  unfold owner. destruct (decide (k = i)) as [-> |].
  - rewrite lookup_insert_eq. naive_solver.
  - rewrite lookup_insert_ne by done. naive_solver.
Qed.

Lemma loose_insert g i r r' k t : layout g -> g !! i = Some r -> pages_of r' = pages_of r -> loose (<[i := r']> g) k t ->
  (i <= k < i + pages_of r /\ unlisted r' (k - i) t) \/ (~ (i <= k < i + pages_of r) /\ loose g k t).
Proof.
  intros Hg Hi Hn (j & x & Hj & Hk & Hu). apply lookup_insert_Some in Hj as [[-> ->]|[Hne Hj]].
  - left. by rewrite <- Hn.
  - right. split; [|by exists j, x]. intros H. pose proof (layout_pos g _ _ Hg Hi). pose proof (layout_pos g _ _ Hg Hj).
    destruct (decide (i < j)); [pose proof (layout_disjoint g Hg i j r x Hi Hj)|pose proof (layout_disjoint g Hg j i x r Hj Hi)]; lia.
Qed.

(** A step on the list of [h]. *)
Lemma links_step x x' s s' g g' h :
  layout g -> layout g' -> links_but x s g -> valid_head h ->
  list_ok s' h (head_type h) (owner g' h) -> list_step s s' h (fun j => owner g h j \/ owner g' h j) ->
  (forall h' k, h' <> h -> owner g h' k <-> owner g' h' k) ->
  (forall k t, loose g' k t -> x' <> Some k -> loose g k t /\ x <> Some k) ->
  links_but x' s' g'.
Proof.
  intros Hg Hg' Hs Hh Hlist Hstep Howner Hloose. split.
  - intros h' Hh'. destruct (decide (h' = h)) as [-> |Hne]; [done|]. apply (list_ok_ext _ _ _ (owner g h')); [|intros; by apply Howner].
    apply (list_ok_frame s); [by apply Hs|]. intros d Hd. apply (step_links _ _ _ _ Hstep). intros [-> |(k & -> & Hk)].
    + destruct Hd as [Hd|(k & Hd & _)]; [done|]. by subst.
    + destruct Hd as [Hd|(k' & Hd & Hk')]; [by subst|]. simplify_eq. apply Hne. destruct Hk as [Hk|Hk]; [eapply owner_head; eassumption|].
      eapply (owner_head g'); [|eassumption]. apply Howner; [done|eassumption].
  - intros k t Hk Hx. destruct (Hloose k t Hk Hx) as [Hk' Hx']. destruct (step_links _ _ _ _ Hstep (Page k)) as [-> ->]; [|by apply Hs].
    intros [E|(k' & E & [Ho|Ho])]; [by subst| |]; simplify_eq; [by apply (loose_owner g h k' t)|by apply (loose_owner g' h k' t)].
  - intros k Hk. destruct (links_page _ _ _ Hs k Hk). split; [by apply (step_nexts _ _ _ _ Hstep)|by apply (step_prevs _ _ _ _ Hstep)].
Qed.

Lemma busy_ok g i r : layout g -> g !! i = Some r -> layout (<[i := RBusy (pages_of r)]> g).
Proof. intros Hg Hi. apply (layout_change g i r); [done|done|done|]. by eapply layout_pos. Qed.

(** What is loose when a region becomes busy was so, but for its first page. *)
Lemma loose_busy g i r k t : layout g -> g !! i = Some r -> loose (<[i := RBusy (pages_of r)]> g) k t -> k <> i -> loose g k t.
Proof.
  intros Hg Hi Hk Hne. apply (loose_insert g i r) in Hk as [[Hk Hu]|[_ ?]]; try done. cbn in Hu. exists i, r. split_and!; [done|lia|lia|].
  destruct r; cbn in *; [split; [lia|done]|done|lia].
Qed.

(** Conversely, for a region of [n] pages. *)
Lemma loose_unbusy g i n r k t : layout g -> g !! i = Some (RBusy n) -> pages_of r = n -> loose (<[i := r]> g) k t -> k <> i -> loose g k t.
Proof.
  intros Hg Hi Hn Hk Hne. apply (loose_insert g i (RBusy n)) in Hk as [[Hk Hu]|[_ ?]]; try done. cbn in Hk. exists i, (RBusy n). cbn. split_and!; [done|lia|lia|].
  destruct r; cbn in *; [by destruct Hu|done|lia].
Qed.

Lemma detach_list_run s g h i r :
  layout g -> linked s g -> valid_head h -> g !! i = Some r -> listed h r ->
  exists s', unlink (Page i) s = Some (tt, s') /\ links_but (Some i) s' (<[i := RBusy (pages_of r)]> g) /\
    slabs s' = slabs s /\ bitmaps s' = bitmaps s /\ same_links s s' (Page i).
Proof.
  intros Hg Hs Hh Hi Hl. destruct (slab_unlink_run s h (head_type h) (owner g h) i) as (s' & Hrun & Hlist & Hstep & Hsame).
  { by apply Hs. } { by exists r. }
  exists s'. split_and!; [done| |apply Hstep|apply Hstep|done].
  apply (links_step None _ s _ g _ h); [done|by apply busy_ok|done|done| | | |].
  - apply (list_ok_ext _ _ _ _ _ Hlist). intros j. rewrite owner_insert. split; [naive_solver|].
    intros [[_ Hb]|[? ?]]; [by destruct h|done].
  - destruct Hstep as [H1 H2 H3 H4 H5]. split; try done. intros d Hd. apply H3. intros [-> |(j & -> & Hj)]; apply Hd; [by left|right; eauto].
  - intros h' k Hne. rewrite owner_insert. split; [|by intros [[_ Hb]|[_ ?]]; [destruct h'|]].
    intros Ho. right. split; [|done]. intros ->. apply Hne. apply (owner_head g h' h i); [done|by exists r].
  - intros k t Hk Hx. split; [|done]. apply (loose_busy g i r); [done|done|done|congruence].
Qed.

Lemma detach_loose s g i r : layout g -> linked s g -> g !! i = Some r -> (forall h, ~ listed h r) ->
  links_but (Some i) s (<[i := RBusy (pages_of r)]> g).
Proof.
  intros Hg Hs Hi Hl. assert (forall h k, owner g h k <-> owner (<[i := RBusy (pages_of r)]> g) h k) as Ho.
  { intros h k. rewrite owner_insert. split; [|by intros [[_ Hb]|[_ ?]]; [destruct h|]].
    intros (x & Hx & Hlx). destruct (decide (k = i)) as [-> |]; [by simplify_eq; destruct (Hl h)|right; split; [done|by exists x]]. }
  split; [| |apply Hs].
  - intros h Hh. apply (list_ok_ext _ _ _ (owner g h)); [by apply Hs|apply Ho].
  - intros k t Hk Hx. apply (links_loose _ _ _ Hs); [|done]. apply (loose_busy g i r); [done|done|done|congruence].
Qed.

Lemma attach s s' g h i n r :
  layout g -> links_but (Some i) s g -> valid_head h -> g !! i = Some (RBusy n) -> pages_of r = n -> region_ok r -> listed h r ->
  list_ok s' h (head_type h) (fun j => owner g h j \/ j = i) -> list_step s s' h (fun j => owner g h j \/ j = i) ->
  linked s' (<[i := r]> g).
Proof.
  intros Hg Hs Hh Hi Hn Hr Hl Hlist Hstep. assert (forall h, ~ owner g h i) as Hni by (intros h' (x & Hx & Hlx); simplify_eq; by destruct h').
  apply (links_step (Some i) _ s _ g _ h); [done|by eapply layout_change|done|done| | | |].
  - apply (list_ok_ext _ _ _ _ _ Hlist). intros j. rewrite owner_insert. split; [|naive_solver].
    intros [H| ->]; [right; split; [|done]|by left]. intros ->. by apply Hni in H.
  - destruct Hstep as [H1 H2 H3 H4 H5]. split; try done. intros d Hd. apply H3. intros [-> |(j & -> & Hj)]; apply Hd; [by left|right].
    exists j. split; [done|]. destruct Hj as [? | ->]; [by left|right; apply owner_insert; by left].
  - intros h' k Hne. rewrite owner_insert. split.
    + intros Ho. right. split; [|done]. intros ->. by apply Hni in Ho.
    + intros [[-> Hl']|[_ ?]]; [|done]. destruct Hne. eapply (owner_head (<[i := r]> g) h' h i); apply owner_insert; by left.
  - intros k t Hk _. assert (k <> i); [|split; [by eapply loose_unbusy|congruence]].
    intros ->. eapply (loose_owner (<[i := r]> g) h); [by eapply layout_change|done|apply owner_insert; by left].
Qed.

Lemma settle s s' g i n r t :
  layout g -> links_but (Some i) s g -> g !! i = Some (RBusy n) -> pages_of r = n -> unlisted r 0 t ->
  nexts s' = <[Page i := Null]> (nexts s) -> prevs s' = <[Page i := (Null, t)]> (prevs s) ->
  linked s' (<[i := r]> g).
Proof.
  intros Hg Hs Hi Hn Hu En Ep. assert (forall h, ~ owner g h i) as Hni by (intros h' (x & Hx & Hlx); simplify_eq; by destruct h').
  assert (forall d, d <> Page i -> same_links s s' d) as Hsame by (intros d Hd; split; [rewrite En|rewrite Ep]; by apply lookup_insert_ne).
  split.
  - intros h Hh. apply (list_ok_ext _ _ _ (owner g h)).
    + apply (list_ok_frame s); [by apply Hs|]. intros d [-> |(k & -> & Hk)]; apply Hsame; [by destruct h|]. intros [= ->]. by apply Hni in Hk.
    + intros k. rewrite owner_insert. split; [|intros [[_ Hl]|[_ ?]]; [by destruct (listed_unlisted h r t)|done]].
      intros Ho. right. split; [|done]. intros ->. by apply Hni in Ho.
  - intros k t' Hk _. destruct (decide (k = i)) as [-> |].
    + rewrite En, Ep, !lookup_insert_eq. split; [done|]. apply (loose_insert g i (RBusy n)) in Hk as [[_ Hu']|[Hx _]]; try done.
      * rewrite Z.sub_diag in Hu'. do 2 f_equal. destruct r; cbn in *; [lia|congruence|destruct Hu, Hu'; congruence].
      * pose proof (layout_pos g _ _ Hg Hi). cbn in *. lia.
    + destruct (Hsame (Page k) ltac:(congruence)) as [-> ->]. apply (links_loose _ _ _ Hs); [by eapply loose_unbusy|congruence].
  - intros k Hk. destruct (links_page _ _ _ Hs k Hk). rewrite En, Ep. split; by apply is_Some_insert.
Qed.

(** * Writing descriptors *)

Lemma links_cong x s s' g : links_but x s g -> nexts s' = nexts s -> prevs s' = prevs s -> links_but x s' g.
Proof.
  intros Hs En Ep. split.
  - intros h Hh. apply (list_ok_frame s); [by apply Hs|]. intros d _. split; [by rewrite En|by rewrite Ep].
  - rewrite En, Ep. apply Hs.
  - rewrite En, Ep. apply Hs.
Qed.

Lemma links_ext x s s' g : links_but x s g -> (forall d, same_links s s' d) -> links_but x s' g.
Proof. intros Hs H. apply (links_cong x s); [done| |]; apply map_eq; intros d; by apply H. Qed.

(** The region is represented by its descriptors and its map only. *)
Lemma contents_frame s s' i r :
  contents_of s i r -> 1 <= pages_of r -> (forall k, i <= k < i + pages_of r -> slabs s' !! Page k = slabs s !! Page k) ->
  bitmaps s' !! i = bitmaps s !! i -> contents_of s' i r.
Proof.
  intros Hc Hr Hk Hb. destruct r as [n|n|shift used]; cbn in *.
  - rewrite Hk by lia. split; [apply Hc|]. intros k Hk'. rewrite Hk by lia. by apply Hc.
  - rewrite Hk by lia. split; [apply Hc|]. intros k Hk'. rewrite Hk by lia. by apply Hc.
  - unfold page_map in *. rewrite Hk, Hb by lia. done.
Qed.

Lemma contents_change s s' g i r r' :
  layout g -> contents s g -> g !! i = Some r -> contents_of s' i r' ->
  (forall k, ~ (i <= k < i + pages_of r) -> slabs s' !! Page k = slabs s !! Page k) -> (forall j, j <> i -> bitmaps s' !! j = bitmaps s !! j) ->
  contents s' (<[i := r']> g).
Proof.
  intros Hg Hs Hi Hc Hk Hb j x. rewrite lookup_insert_Some. intros [[<- <-]|[Hj Hx]]; [done|].
  pose proof (layout_pos g _ _ Hg Hx). pose proof (layout_pos g _ _ Hg Hi).
  apply (contents_frame s); [by apply Hs|done| |by apply Hb].
  intros k Hk'. apply Hk. intros Hik.
  destruct (decide (i < j)); [pose proof (layout_disjoint g Hg i j r x Hi Hx)|pose proof (layout_disjoint g Hg j i x r Hx Hi)]; lia.
Qed.

Lemma contents_some s g k : layout g -> contents s g -> 0 <= k < N -> is_Some (slabs s !! Page k).
Proof.
  intros Hg Hs Hk. destruct (layout_cover g Hg k Hk) as (i & r & Hi & Hr). specialize (Hs i r Hi).
  destruct r as [n|n|shift used]; cbn in *; [| |assert (k = i) as -> by lia; unfold page_map in Hs; repeat case_match; naive_solver];
    (destruct (decide (k = i)) as [-> |]; [by destruct Hs as [-> _]|]; destruct Hs as [_ Hs]; rewrite Hs by lia; done).
Qed.

(** There are as many descriptors as pages. *)
Lemma descriptors_bound s : (forall k, 0 <= k < N -> is_Some (slabs s !! Page k)) -> N <= Z.of_nat (size (slabs s)).
Proof.
  intros Hs. destruct (decide (0 <= N)); [|lia]. rewrite <- size_dom.
  assert (list_to_set (Page <$> seqZ 0 N) ⊆@{gset desc} dom (slabs s)) as Hsub.
  { intros d Hd. apply elem_of_list_to_set, list_elem_of_fmap in Hd as (k & -> & Hk%elem_of_seqZ). apply elem_of_dom, Hs. lia. }
  apply subseteq_size in Hsub. rewrite size_list_to_set in Hsub; [rewrite length_fmap, length_seqZ in Hsub; lia|].
  apply NoDup_fmap; [intros ? ? [=]; done|apply NoDup_seqZ].
Qed.

Fixpoint fill (n : nat) (i v : Z) : MS unit :=
  match n with
  | O => mret tt
  | S n' => set_page (Page i) v Null (Null, NGX_SLAB_PAGE) ;; fill n' (i + 1) v
  end.

Lemma zero_loop_fill n i : zero_loop n i = fill n i NGX_SLAB_PAGE_FREE.
Proof. revert i. induction n as [|n IH]; intros i; [done|]. cbn. by rewrite IH. Qed.

Lemma busy_loop_fill fuel n i s : (n <= fuel)%nat -> Z.of_nat n < 2 ^ 64 -> busy_loop fuel i (Z.of_nat n) s = fill n i NGX_SLAB_PAGE_BUSY s.
Proof.
  revert fuel i s. induction n as [|n IH]; intros fuel i s Hf Hn; [by destruct fuel|]. destruct fuel as [|fuel]; [lia|].
  unfold busy_loop; fold busy_loop. destruct (Z.eqb_spec (Z.of_nat (S n)) 0); [lia|]. cbn [fill]. unfold mthen. case_match; [|done]. case_match.
  rewrite wrap_small by lia. replace (Z.of_nat (S n) - 1) with (Z.of_nat n) by lia. apply IH; lia.
Qed.

(** The descriptor of a page has its fields. *)
Definition page_there (s : slab_pool) (k : Z) : Prop := is_Some (slabs s !! Page k) /\ is_Some (nexts s !! Page k) /\ is_Some (prevs s !! Page k).

Lemma set_page_run s k v n p : page_there s k ->
  set_page (Page k) v n p s = Some (tt, mk_pool (<[Page k := v]> (slabs s)) (<[Page k := n]> (nexts s)) (<[Page k := p]> (prevs s)) (bitmaps s)).
Proof.
  intros (H1 & H2 & H3). unfold set_page. erewrite mthen_run by (by apply put_slab_run). erewrite mthen_run by (by apply put_next_run).
  by rewrite put_prev_run.
Qed.

(** The pages from [i] on have been written, nothing else. *)
Record filled (s s' : slab_pool) (i n v : Z) : Prop := {
  filled_in : forall k, i <= k < i + n -> slabs s' !! Page k = Some v /\ nexts s' !! Page k = Some Null /\ prevs s' !! Page k = Some (Null, NGX_SLAB_PAGE);
  filled_out : forall d, (forall k, i <= k < i + n -> d <> Page k) -> slabs s' !! d = slabs s !! d /\ same_links s s' d;
  filled_maps : bitmaps s' = bitmaps s;
}.

Lemma fill_run n i v s : (forall k, i <= k < i + Z.of_nat n -> page_there s k) -> exists s', fill n i v s = Some (tt, s') /\ filled s s' i (Z.of_nat n) v.
Proof.
  revert i s. induction n as [|n IH]; intros i s Hs; [exists s; split; [done|split; [lia|done|done]]|]. cbn [fill].
  erewrite mthen_run by (apply set_page_run, Hs; lia).
  destruct (IH (i + 1) (mk_pool (<[Page i := v]> (slabs s)) (<[Page i := Null]> (nexts s)) (<[Page i := (Null, NGX_SLAB_PAGE)]> (prevs s)) (bitmaps s))) as (s' & Hrun & Hf).
  { intros k Hk. destruct (Hs k ltac:(lia)) as (? & ? & ?). split_and!; by apply is_Some_insert. }
  exists s'. split; [done|]. split; [| |by rewrite (filled_maps _ _ _ _ _ Hf)].
  - intros k Hk. destruct (decide (k = i)) as [-> |]; [|apply Hf; lia].
    destruct (filled_out _ _ _ _ _ Hf (Page i)) as (-> & -> & ->); [intros; congruence || (intros [= ->]; lia)|]. cbn. by rewrite !lookup_insert_eq.
  - intros d Hd. destruct (filled_out _ _ _ _ _ Hf d) as (H1 & H2 & H3); [intros; apply Hd; lia|]. unfold same_links. rewrite H1, H2, H3. cbn.
    rewrite !lookup_insert_ne by (apply not_eq_sym, Hd; lia). done.
Qed.

(** * Taking pages *)

Context (N_range : 0 <= N < 2 ^ 52).

Lemma page_there_ok s g k : pool_ok s g -> 0 <= k < N -> page_there s k.
Proof. intros [Hg Hl Hc] Hk. split; [by eapply contents_some|]. by apply (links_page _ _ _ Hl). Qed.

Lemma filled_links x s s' g i n v : links_but x s g -> filled s s' i n v ->
  (forall k, i <= k < i + n -> loose g k NGX_SLAB_PAGE /\ x <> Some k) -> links_but x s' g.
Proof.
  intros Hs Hf Hl. apply (links_ext x s); [done|]. intros d.
  assert ((forall k, i <= k < i + n -> d <> Page k) \/ exists k, i <= k < i + n /\ d = Page k) as [H|(k & Hk & ->)].
  { destruct d as [| | |k]; [by left..|]. destruct (decide (i <= k < i + n)); [right; by exists k|left; intros j Hj [= ->]; done]. }
  - by apply (filled_out _ _ _ _ _ Hf).
  - destruct (filled_in _ _ _ _ _ Hf k Hk) as (_ & H1 & H2). destruct (Hl k Hk) as [Hl1 Hl2]. destruct (links_loose _ _ _ Hs k _ Hl1 Hl2). split; congruence.
Qed.

(** The end of [take_pages]: the pages are marked. *)
Lemma mark_run s g i n :
  layout g -> links_but (Some i) s g -> g !! i = Some (RBusy n) -> (forall k, 0 <= k < N -> is_Some (slabs s !! Page k)) ->
  exists s', (set_page (Page i) (Z.lor n NGX_SLAB_PAGE_START) Null (Null, NGX_SLAB_PAGE) ;;
              fuel <-- descriptors; busy_loop fuel (i + 1) (u64 (n - 1))) s = Some (tt, s') /\
    linked s' g /\ contents_of s' i (RBusy n) /\ bitmaps s' = bitmaps s /\
    forall k, ~ (i <= k < i + n) -> slabs s' !! Page k = slabs s !! Page k.
Proof.
  intros Hg Hl Hi Hs. destruct (layout_ok g Hg _ _ Hi) as (Hn & Hi0 & HiN). cbn in Hn, HiN.
  assert (forall k, 0 <= k < N -> page_there s k) as Hthere by (intros k Hk; split; [by apply Hs|by apply (links_page _ _ _ Hl)]).
  erewrite mthen_run by (apply set_page_run, Hthere; lia). erewrite mthen_run by done.
  set (s1 := mk_pool _ _ _ _). assert (linked s1 g) as Hl1.
  { rewrite <- (insert_id g i (RBusy n)) by done. by apply (settle s s1 g i n (RBusy n) NGX_SLAB_PAGE). }
  rewrite wrap_small by lia. replace (n - 1) with (Z.of_nat (Z.to_nat (n - 1))) by lia.
  assert (forall k, 0 <= k < N -> is_Some (slabs s1 !! Page k)) as Hs1 by (intros k Hk; cbn; by apply is_Some_insert, Hs).
  rewrite busy_loop_fill; [|pose proof (descriptors_bound s1 Hs1); cbn in *; lia|lia].
  destruct (fill_run (Z.to_nat (n - 1)) (i + 1) NGX_SLAB_PAGE_BUSY s1) as (s' & Hrun & Hf).
  { intros k Hk. destruct (links_page _ _ _ Hl1 k ltac:(lia)). split; [apply Hs1; lia|done]. }
  rewrite Z2Nat.id in Hf by lia. exists s'. split_and!; [done| | |by rewrite (filled_maps _ _ _ _ _ Hf)|].
  - apply (filled_links None s1 _ _ _ _ _ Hl1 Hf). intros k Hk. split; [|done]. exists i, (RBusy n). split_and!; [done|lia|cbn; lia|done].
  - destruct (filled_out _ _ _ _ _ Hf (Page i)) as [E _]; [intros k Hk [= ->]; lia|]. split; [rewrite E; apply lookup_insert_eq|].
    intros k Hk. apply (filled_in _ _ _ _ _ Hf). lia.
  - intros k Hk. destruct (filled_out _ _ _ _ _ Hf (Page k)) as [-> _]; [intros j Hj [= ->]; lia|]. cbn. apply lookup_insert_ne. intros [= ->]. lia.
Qed.

Lemma owner_carve g i m n h k : g !! i = Some (RFree m) -> 1 <= n < m ->
  owner (carve g i m n) h k <-> (k = i + n /\ h = Free) \/ (k <> i /\ k <> i + n /\ owner g h k).
Proof.
  intros Hi Hn. unfold carve. destruct (Z.ltb_spec n m); [|lia]. rewrite !owner_insert. split.
  - intros [[_ Hb]|[Hk [[-> Hf]|[Hk' Ho]]]]; [by destruct h|left; by destruct h|right; auto].
  - intros [[-> ->]|(H1 & H2 & H3)]; right; [split; [lia|by left]|auto].
Qed.

(** The run is longer than asked for. *)
Lemma split_links s s' g i m n : layout g -> linked s g -> g !! i = Some (RFree m) -> 1 <= n < m ->
  list_ok s' Free NGX_SLAB_PAGE (fun j => (owner g Free j /\ j <> i) \/ j = i + n) -> list_step s s' Free (fun j => owner g Free j \/ j = i + n) ->
  links_but (Some i) s' (carve g i m n).
Proof.
  intros Hg Hl Hi Hn Hlist Hstep. pose proof (layout_carve g i m n Hg Hi ltac:(lia)) as Hg'.
  assert (g !! (i + n) = None) as Hin.
  { destruct (g !! (i + n)) as [x|] eqn:E; [|done]. pose proof (layout_same g i _ _ _ Hg Hi E ltac:(cbn; lia)). lia. }
  assert (forall h, ~ owner g h (i + n)) as Hno by (intros h (x & Hx & _); congruence).
  apply (links_step None _ s _ g _ Free); [done|done|done|done| | | |].
  - apply (list_ok_ext _ _ _ _ _ Hlist). intros j. rewrite owner_carve by done. split; [|naive_solver].
    intros [[Ho Hj]| ->]; [right; split_and!; [done|by intros ->; apply Hno in Ho|done]|by left].
  - destruct Hstep as [H1 H2 H3 H4 H5]. split; try done. intros d Hd. apply H3. intros [-> |(j & -> & Hj)]; apply Hd; [by left|right].
    exists j. split; [done|]. destruct Hj as [? | ->]; [by left|right; apply owner_carve; auto].
  - intros h' k Hne. rewrite owner_carve by done. split; [|naive_solver]. intros Ho. right. split_and!; [| |done]; intros ->; [|by apply Hno in Ho].
    apply Hne. apply (owner_head g h' Free i); [done|by exists (RFree m)].
  - intros k t (j & x & Hj & Hk & Hu) Hx. split; [|done]. unfold carve in Hj. destruct (Z.ltb_spec n m); [|lia].
    apply lookup_insert_Some in Hj as [[<- <-]|[_ [[<- <-]|[Hj' Hj]]%lookup_insert_Some]]; cbn in *; [| |by exists j, x].
    + exists i, (RFree m). cbn. assert (k <> i) by congruence. split_and!; [done|lia|lia|lia|done].
    + exists i, (RFree m). cbn. destruct Hu as [Hu ->]. split_and!; [done|lia|lia|lia|done].
Qed.

Lemma take_pages_run s g i m n : pool_ok s g -> g !! i = Some (RFree m) -> 1 <= n <= m ->
  exists s', take_pages i n s = Some (tt, s') /\ pool_ok s' (carve g i m n) /\ bitmaps s' = bitmaps s.
Proof.
  intros Hs Hi Hn. pose proof Hs as [Hg Hl Hc]. destruct (layout_ok g Hg _ _ Hi) as (_ & Hi0 & HiN). cbn in HiN.
  pose proof (layout_carve g i m n Hg Hi Hn) as Hg'. destruct (Hc _ _ Hi) as [Hsi _].
  unfold take_pages. erewrite mthen_run by (by apply get_slab_run).
  assert (exists s1, (if n <? m then put_slab (Page (i + n)) (m - n) ;;
     next <-- get_next (Page i); put_next (Page (i + n)) next ;; prev <-- get_prev (Page i); put_prev (Page (i + n)) prev ;;
     prev <-- get_prev (Page i); put_next prev.1 (Page (i + n)) ;; next <-- get_next (Page i); put_prev next (Page (i + n), NGX_SLAB_PAGE)
   else unlink (Page i)) s = Some (tt, s1) /\ links_but (Some i) s1 (carve g i m n) /\ bitmaps s1 = bitmaps s /\
     slabs s1 = if n <? m then <[Page (i + n) := m - n]> (slabs s) else slabs s) as (s1 & Hrun & Hl1 & Hb1 & Hs1).
  { destruct (Z.ltb_spec n m).
    - destruct (page_there_ok s g (i + n) Hs ltac:(lia)) as (H1 & H2 & H3). erewrite mthen_run by (by apply put_slab_run). set (s0 := mk_pool _ _ _ _).
      assert (linked s0 g) as Hl0 by (by apply (links_cong None s)).
      destruct (slab_replace_run s0 Free NGX_SLAB_PAGE (owner g Free) i (i + n)) as (s1 & Hrun & Hlist & Hstep).
      { by apply (links_list _ _ _ Hl0 Free). } { by exists (RFree m). }
      { intros (x & Hx & _). pose proof (layout_same g i _ _ _ Hg Hi Hx ltac:(cbn; lia)). lia. } { done. } { done. }
      exists s1. split_and!; [done| |by rewrite (step_bitmaps _ _ _ _ Hstep)|by rewrite (step_slabs _ _ _ _ Hstep)].
      apply (split_links s0); try done. lia.
    - assert (n = m) as -> by lia. destruct (detach_list_run s g Free i (RFree m)) as (s1 & Hrun & Hl1 & Hs1 & Hb1 & _); try done.
      exists s1. split_and!; try done. unfold carve. by destruct (Z.ltb_spec m m); [lia|]. }
  erewrite mthen_run by done.
  destruct (mark_run s1 (carve g i m n) i n) as (s2 & Hrun2 & Hl2 & Hc2 & Hb2 & Hk2); [done|done|apply lookup_insert_eq| |].
  { intros k Hk. rewrite Hs1. destruct (page_there_ok s g k Hs Hk) as [? _]. case_match; [by apply is_Some_insert|done]. }
  exists s2. split_and!; [done| |by rewrite Hb2]. split; [done|done|].
  assert (forall k, ~ (i <= k < i + n) -> k <> i + n -> slabs s2 !! Page k = slabs s !! Page k) as Hout.
  { intros k Hk Hne. rewrite Hk2, Hs1 by done. case_match; [|done]. apply lookup_insert_ne. congruence. }
  intros j x Hj. unfold carve in Hj. apply lookup_insert_Some in Hj as [[<- <-]|[Hne Hj]]; [done|].
  assert (forall k, j <= k < j + pages_of x -> g !! j = Some x -> ~ (i <= k < i + m)) as Hdis.
  { intros k Hk Hx Hik. destruct (decide (i < j)); [pose proof (layout_disjoint g Hg i j _ x Hi Hx)|pose proof (layout_disjoint g Hg j i x _ Hx Hi)]; cbn in *; lia. }
  destruct (Z.ltb_spec n m); [apply lookup_insert_Some in Hj as [[<- <-]|[Hne' Hj]]|].
  - cbn. rewrite Hk2, Hs1, lookup_insert_eq by lia. split; [done|]. intros k Hk. rewrite Hout by lia. apply (Hc _ _ Hi). lia.
  - apply (contents_frame s); [by apply Hc|by apply (layout_pos g j)| |by rewrite Hb2, Hb1].
    intros k Hk. apply Hout; pose proof (Hdis k Hk Hj); lia.
  - apply (contents_frame s); [by apply Hc|by apply (layout_pos g j)| |by rewrite Hb2, Hb1].
    intros k Hk. pose proof (Hdis k Hk Hj). rewrite Hk2, Hs1 by lia. done.
Qed.

Lemma alloc_pages_loop_run s g n fuel l d :
  pool_ok s g -> 1 <= n -> seg s NGX_SLAB_PAGE d l Free -> (forall i, i ∈ l -> owner g Free i) -> (length l <= fuel)%nat ->
  (exists s' i m, alloc_pages_loop fuel (first_of l Free) n s = Some (Some i, s') /\ g !! i = Some (RFree m) /\ n <= m /\
     pool_ok s' (carve g i m n) /\ bitmaps s' = bitmaps s) \/
  (alloc_pages_loop fuel (first_of l Free) n s = Some (None, s) /\ forall i m, i ∈ l -> g !! i = Some (RFree m) -> m < n).
Proof.
  intros Hs Hn. revert d fuel. induction l as [|i l IH]; intros d fuel Hseg Hl Hf.
  - right. split; [by destruct fuel|]. intros i m Hi. by apply elem_of_nil in Hi.
  - destruct fuel as [|fuel]; [cbn in Hf; lia|]. cbn [first_of alloc_pages_loop]. destruct Hseg as (_ & _ & Hseg).
    destruct (Hl i ltac:(set_solver)) as (r & Hr & Hlr). destruct r as [m| |]; [|done..].
    destruct (pool_contents _ _ Hs _ _ Hr) as [Hsi _]. erewrite mthen_run by (by apply get_slab_run). destruct (Z.leb_spec n m).
    + left. destruct (take_pages_run s g i m n Hs Hr ltac:(lia)) as (s' & Hrun & Hok & Hb). exists s', i, m. by erewrite mthen_run.
    + erewrite mthen_run by (eapply get_next_run, seg_first, Hseg).
      destruct (IH (Page i) fuel) as [(s' & j & m' & Hx)|[Hx Hall]]; [done|set_solver|cbn in Hf; lia|left; by exists s', j, m'|].
      right. split; [done|]. intros j m' [-> |Hj]%elem_of_cons Hm'; [by simplify_eq|by apply (Hall j)].
Qed.

(** A run of pages is allocated, or none is long enough. *)
Lemma alloc_pages_run s g n : pool_ok s g -> 1 <= n ->
  (exists s' i m, ngx_slab_alloc_pages n s = Some (Some i, s') /\ g !! i = Some (RFree m) /\ n <= m /\
     pool_ok s' (carve g i m n) /\ bitmaps s' = bitmaps s) \/
  (ngx_slab_alloc_pages n s = Some (None, s) /\ forall i m, g !! i = Some (RFree m) -> m < n).
Proof.
  intros Hs Hn. pose proof Hs as [Hg Hl Hc]. destruct (links_list _ _ _ Hl Free I) as (_ & _ & l & Hnd & Hseg & Hmem).
  assert (Z.of_nat (length l) <= N) as Hlen.
  { assert (l ⊆ seqZ 0 N) as Hsub.
    { intros i Hi. apply Hmem in Hi as (r & Hr & _). destruct (layout_ok g Hg i r Hr) as (_ & H1 & H2). pose proof (layout_pos g i r Hg Hr). apply elem_of_seqZ. lia. }
    apply NoDup_submseteq in Hsub; [|done]. apply submseteq_length in Hsub. rewrite length_seqZ in Hsub. lia. }
  unfold ngx_slab_alloc_pages. erewrite mthen_run by (by eapply get_next_run, seg_first). erewrite mthen_run by done.
  destruct (alloc_pages_loop_run s g n (size (slabs s)) l Free) as [Hx|[Hx Hall]]; [done|done|done|intros; by apply Hmem| |by left|].
  - pose proof (descriptors_bound s ltac:(intros; by eapply contents_some)). lia.
  - right. split; [done|]. intros i m Hi. apply (Hall i); [|done]. apply Hmem. by exists (RFree m).
Qed.

(** * Giving pages back *)

Lemma region_place r : min_shift <= 11 -> region_ok r -> (exists h, valid_head h /\ listed h r) \/ forall h, ~ listed h r.
Proof.
  intros Hm Hr. destruct r as [n|n|shift used]; [left; by exists Free|right; by intros [] ?|].
  destruct (decide (used = all_used shift)) as [-> |]; [right; intros []; cbn; naive_solver|].
  left. exists (Slot (shift - min_shift)). cbn in *. split; [lia|]. split; [lia|done].
Qed.

Lemma region_tail g i r k : layout g -> g !! i = Some r -> i < k < i + pages_of r -> loose g k NGX_SLAB_PAGE.
Proof. intros Hg Hi Hk. exists i, r. split_and!; [done|lia|lia|]. destruct r; cbn in *; [split; [lia|done]|done|lia]. Qed.

Lemma list_next s h t Q i : list_ok s h t Q -> Q i -> exists d, nexts s !! Page i = Some d /\ d <> Null.
Proof.
  intros (Hh & _ & l & _ & Hseg & Hl) Hi. apply Hl, list_elem_of_split in Hi as (l1 & l2 & ->). apply seg_app in Hseg as (_ & _ & Hseg).
  exists (first_of l2 h). split; [by eapply seg_first|]. destruct l2; [by destruct h|done].
Qed.

(** A page leaves the list it is in, if it is in one. *)
Lemma detach_run s g i r : min_shift <= 11 -> layout g -> linked s g -> g !! i = Some r ->
  exists s', (next <-- get_next (Page i); match next with Null => mret tt | _ => unlink (Page i) end) s = Some (tt, s') /\
    links_but (Some i) s' (<[i := RBusy (pages_of r)]> g) /\ slabs s' = slabs s /\ bitmaps s' = bitmaps s.
Proof.
  intros Hm Hg Hl Hi. destruct (layout_ok g Hg i r Hi) as (Hr & Hi0 & HiN). destruct (region_place r Hm Hr) as [(h & Hh & Hlr)|Hno].
  - destruct (list_next s h (head_type h) (owner g h) i) as (d & Hd & Hne); [by apply Hl|by exists r|].
    destruct (detach_list_run s g h i r) as (s' & Hrun & Hl' & Hs' & Hb' & _); try done. exists s'.
    erewrite mthen_run by (by apply get_next_run). split_and!; try done. by destruct d.
  - assert (nexts s !! Page i = Some Null) as Hn.
    { assert (exists t, unlisted r 0 t) as [t Ht].
      { destruct r as [n|n|shift used]; [by destruct (Hno Free)|by eexists|]. exists (kind shift). split; [|done].
        destruct (decide (used = all_used shift)); [done|]. destruct (Hno (Slot (shift - min_shift))). split; [lia|done]. }
      apply (links_loose _ _ _ Hl i t); [|done]. exists i, r. rewrite Z.sub_diag. pose proof (layout_pos g i r Hg Hi). split_and!; [done|lia|lia|done]. }
    exists s. erewrite mthen_run by (by apply get_next_run). split_and!; [done| |done|done]. by apply detach_loose.
Qed.

Lemma free_pages_run s g i r : min_shift <= 11 -> pool_ok s g -> g !! i = Some r ->
  exists s', ngx_slab_free_pages i (pages_of r) s = Some (tt, s') /\ pool_ok s' (<[i := RFree (pages_of r)]> g) /\ bitmaps s' = bitmaps s.
Proof.
  intros Hm Hs Hi. pose proof Hs as [Hg Hl Hc]. destruct (layout_ok g Hg i r Hi) as (Hr & Hi0 & HiN). pose proof (layout_pos g i r Hg Hi) as Hn.
  set (n := pages_of r) in *. unfold ngx_slab_free_pages. destruct (page_there_ok s g i Hs ltac:(lia)) as (H1 & _ & _).
  erewrite mthen_run by (by apply put_slab_run). set (s1 := mk_pool _ _ _ _). rewrite zero_loop_fill, wrap_small by lia.
  assert (linked s1 g) as Hl1 by (by apply (links_cong None s)).
  assert (forall k, 0 <= k < N -> page_there s1 k) as Hthere.
  { intros k Hk. destruct (page_there_ok s g k Hs Hk) as (? & ? & ?). split_and!; [by apply is_Some_insert|done|done]. }
  destruct (fill_run (Z.to_nat (n - 1)) (i + 1) NGX_SLAB_PAGE_FREE s1) as (s2 & Hrun2 & Hf); [intros k Hk; apply Hthere; lia|].
  rewrite Z2Nat.id in Hf by lia. erewrite mthen_run by done.
  assert (linked s2 g) as Hl2.
  { apply (filled_links None s1 _ _ _ _ _ Hl1 Hf). intros k Hk. split; [|done]. apply (region_tail g i r); [done|done|]. fold n. lia. }
  destruct (detach_run s2 g i r Hm Hg Hl2 Hi) as (s3 & Hrun3 & Hl3 & Hs3 & Hb3). rewrite <- mthen_assoc. erewrite mthen_run by done.
  fold n in Hl3. set (g3 := <[i := RBusy n]> g) in *. assert (layout g3) as Hg3 by (by apply busy_ok).
  destruct (push_free_run s3 Free NGX_SLAB_PAGE (owner g3 Free) i) as (s4 & Hrun4 & Hlist & Hstep).
  { by apply (links_list _ _ _ Hl3 Free). } { intros (x & Hx & Hlx). unfold g3 in Hx. rewrite lookup_insert_eq in Hx. by simplify_eq. }
  { apply (links_page _ _ _ Hl3). lia. } { apply (links_page _ _ _ Hl3). lia. }
  exists s4. split; [exact Hrun4|]. assert (bitmaps s4 = bitmaps s) as Hb by (by rewrite (step_bitmaps _ _ _ _ Hstep), Hb3, (filled_maps _ _ _ _ _ Hf)).
  split; [|done]. split.
  - by apply (layout_change g i r).
  - rewrite <- (insert_insert_eq g i (RFree n) (RBusy n)). apply (attach s3 s4 g3 Free i n (RFree n)); try done. apply lookup_insert_eq.
  - apply (contents_change s s4 g i r); try done; [| |by intros; rewrite Hb].
    + assert (slabs s4 = slabs s2) as E by (by rewrite (step_slabs _ _ _ _ Hstep), Hs3). split.
      * rewrite E. destruct (filled_out _ _ _ _ _ Hf (Page i)) as [-> _]; [intros k Hk [= ->]; lia|]. apply lookup_insert_eq.
      * intros k Hk. rewrite E. apply (filled_in _ _ _ _ _ Hf). lia.
    + intros k Hk. fold n in Hk. rewrite (step_slabs _ _ _ _ Hstep), Hs3. destruct (filled_out _ _ _ _ _ Hf (Page k)) as [-> _]; [intros j Hj [= ->]; lia|].
      cbn. apply lookup_insert_ne. intros [= ->]. lia.
Qed.

End pool.
