(* ===== verification/NgxSlabChunks.v ===== *)
(** The chunks of a pool of [NgxSlab]: what taking a chunk of a page, cutting a new page
    and giving a chunk back do to the regions of the pool. *)

From S2P Require Import Prelude NgxStore NgxSlab NgxSlabLists NgxSlabMap NgxSlabPages.

Open Scope Z_scope.
Open Scope store_scope.

#[local] Arguments mthen : simpl never.

Section pool.
Context (start N min_shift : Z).
Context (N_range : 0 <= N < 2 ^ 52) (min_shift_range : 3 <= min_shift <= 11).

#[local] Abbreviation layout := (layout N min_shift).
#[local] Abbreviation linked := (linked N min_shift).
#[local] Abbreviation links_but := (links_but N min_shift).
#[local] Abbreviation pool_ok := (pool_ok N min_shift).
#[local] Abbreviation owner := (owner min_shift).
#[local] Abbreviation listed := (listed min_shift).
#[local] Abbreviation region_ok := (region_ok min_shift).

(** * Pages that keep their place *)

Lemma links_same s g i r r' : layout g -> linked s g -> g !! i = Some r -> pages_of r' = pages_of r ->
  (forall h, listed h r <-> listed h r') -> (forall k t, unlisted r' k t -> unlisted r k t) -> linked s (<[i := r']> g).
Proof.
  intros Hg Hl Hi Hn Hlr Hu. split; [| |apply Hl].
  - intros h Hh. apply (list_ok_ext _ _ _ (owner g h)); [by apply Hl|]. intros k. rewrite owner_insert. split.
    + intros (x & Hx & Hlx). destruct (decide (k = i)) as [-> |]; [left; simplify_eq; split; [done|by apply Hlr]|right; split; [done|by exists x]].
    + intros [[-> Hx]|[_ ?]]; [|done]. exists r. split; [done|by apply Hlr].
  - intros k t Hk Hx. apply (links_loose _ _ _ _ _ Hl); [|done]. apply (loose_insert N min_shift g i r) in Hk as [[Hk Hu']|[_ ?]]; try done.
    exists i, r. split_and!; [done|lia|lia|by apply Hu].
Qed.

(** The map of page [i] has been written, nothing else. *)
Record map_step (s s' : slab_pool) (i : Z) : Prop := {
  map_nexts : nexts s' = nexts s;
  map_prevs : prevs s' = prevs s;
  map_slabs : forall k, k <> i -> slabs s' !! Page k = slabs s !! Page k;
  map_bitmaps : forall k, k <> i -> bitmaps s' !! k = bitmaps s !! k;
}.

Lemma map_contents s s' g i shift used used' : layout g -> contents s g -> g !! i = Some (RSlab shift used) ->
  (forall k, k <> i -> slabs s' !! Page k = slabs s !! Page k) -> (forall k, k <> i -> bitmaps s' !! k = bitmaps s !! k) ->
  page_map s' i shift used' -> contents s' (<[i := RSlab shift used']> g).
Proof. intros Hg Hc Hi H1 H2 Hm. apply (contents_change N min_shift s s' g i (RSlab shift used)); try done. intros k Hk. apply H1. cbn in Hk. lia. Qed.

Lemma valid_slot shift : min_shift <= shift <= 11 -> valid_head min_shift (Slot (shift - min_shift)) /\ head_type min_shift (Slot (shift - min_shift)) = kind shift.
Proof. intros Hs. cbn. split; [lia|]. f_equal. lia. Qed.

Lemma slot_listed shift used : used <> all_used shift -> listed (Slot (shift - min_shift)) (RSlab shift used).
Proof. intros H. cbn. split; [lia|done]. Qed.

(** * Taking a chunk of a page *)

Lemma marked_ok shift used used' b : region_ok (RSlab shift used) -> marked used used' b (chunks shift) -> region_ok (RSlab shift used').
Proof.
  intros (Hs & Hu & Hr) (Hb & _ & ->). split; [done|]. split; [by apply set_bit_below|].
  intros c Hc. rewrite set_bit_bit, Hr by lia. done.
Qed.

Lemma mark_chunk_run s s1 g i shift used used' b :
  pool_ok s g -> g !! i = Some (RSlab shift used) -> used <> all_used shift -> marked used used' b (chunks shift) ->
  map_step s s1 i -> page_map s1 i shift used' ->
  exists s', (if used' =? all_used shift then full_page (Page i) (kind shift) else mret tt) s1 = Some (tt, s') /\ pool_ok s' (<[i := RSlab shift used']> g).
Proof.
  intros [Hg Hl Hc] Hi Hu Hm [En Ep Hs Hb] Hpm. destruct (layout_ok _ _ g Hg _ _ Hi) as (Hr & Hi0 & HiN). cbn in HiN.
  pose proof (marked_ok _ _ _ _ Hr Hm) as Hr'. destruct (valid_slot shift ltac:(apply Hr)) as [Hvh Hht].
  assert (layout (<[i := RSlab shift used']> g)) as Hg' by (by apply (layout_change _ _ g i (RSlab shift used))).
  assert (linked s1 g) as Hl1 by (by apply (links_cong _ _ None s)).
  destruct (Z.eqb_spec used' (all_used shift)) as [E|E].
  - destruct (detach_list_run N min_shift s1 g (Slot (shift - min_shift)) i (RSlab shift used)) as (s2 & Hrun & Hl2 & Hs2 & Hb2 & Hsame); try done.
    { by apply slot_listed. }
    unfold full_page. erewrite mthen_run by done. destruct (links_page _ _ _ _ _ Hl2 i ltac:(lia)) as [Hn2 Hp2].
    erewrite mthen_run by (by apply put_next_run). rewrite put_prev_run by done. eexists. split; [reflexivity|].
    split; [done| |apply (map_contents s _ g i shift used); cbn; try done; [by rewrite Hs2|by rewrite Hb2|]; unfold page_map; cbn; by rewrite Hs2, Hb2].
    rewrite <- (insert_insert_eq g i (RSlab shift used') (RBusy 1)).
    apply (settle N min_shift s2 _ _ i 1 _ (kind shift)); cbn; try done; [by apply (busy_ok N min_shift g i (RSlab shift used))|apply lookup_insert_eq].
  - exists s1. split; [done|]. split; [done| |by apply (map_contents s _ g i shift used)].
    apply (links_same _ _ _ (RSlab shift used)); try done; [|cbn; naive_solver]. intros []; cbn; naive_solver.
Qed.

Lemma page_map_small s i shift used : shift < 6 -> page_map s i shift used <->
  slabs s !! Page i = Some shift /\ exists ws, bitmaps s !! i = Some ws /\ Z.of_nat (length ws) = map_words shift /\ Forall word ws /\ word_bits ws = used.
Proof. intros Hs. unfold page_map. change ngx_slab_exact_shift with 6. by destruct (Z.ltb_spec shift 6); [|lia]. Qed.

Lemma page_map_exact s i used : page_map s i 6 used = (slabs s !! Page i = Some used).
Proof. done. Qed.

Lemma page_map_big s i shift used : 6 < shift -> page_map s i shift used <-> slabs s !! Page i = Some (big_slab used shift).
Proof.
  intros Hs. unfold page_map. change ngx_slab_exact_shift with 6. destruct (Z.ltb_spec shift 6); [lia|]. by destruct (Z.eqb_spec shift 6); [lia|].
Qed.

Lemma kind_eq shift : kind shift = if shift <? 6 then NGX_SLAB_SMALL else if shift =? 6 then NGX_SLAB_EXACT else NGX_SLAB_BIG.
Proof. done. Qed.

(** The chunk a search on page [i] gives. *)
Definition chunk_found (g : regions) (i shift used : Z) (chunk : MS (option Z)) (s : slab_pool) : Prop :=
  exists s' used' b, marked used used' b (chunks shift) /\ chunk s = Some (Some (Z.shiftl b shift), s') /\ pool_ok s' (<[i := RSlab shift used']> g).

Lemma small_chunk_run s g i shift used :
  pool_ok s g -> g !! i = Some (RSlab shift used) -> used <> all_used shift -> shift < 6 -> chunk_found g i shift used (small_chunk i shift) s.
Proof.
  intros Hs Hi Hu H6. destruct (layout_ok _ _ g (pool_layout _ _ _ _ Hs) _ _ Hi) as ((Hsh & _) & _).
  pose proof (pool_contents _ _ _ _ Hs _ _ Hi) as (Hsl & ws & Hws & Hlen & Hw & <-)%page_map_small; [|done].
  assert (64 * Z.of_nat (length ws) = chunks shift) as Hch by (rewrite Hlen, chunks_words by lia; done).
  destruct (small_words_spec ws 0 shift) as (ws' & b & Hm & Hrun & Hlen' & Hw'); [done|lia|lia|by rewrite Hch|].
  rewrite Hch in Hm, Hrun.
  unfold chunk_found, small_chunk. set (s1 := mk_pool (slabs s) (nexts s) (prevs s) (<[i := ws']> (bitmaps s))).
  destruct (mark_chunk_run s s1 g i shift _ (word_bits ws') b Hs Hi Hu Hm) as (s' & Hfull & Hok).
  { split; cbn; try done. intros k Hk. by apply lookup_insert_ne. }
  { apply page_map_small; [done|]. cbn. split; [done|]. exists ws'. rewrite lookup_insert_eq, Hlen'. done. }
  exists s', (word_bits ws'), b. split_and!; [done| |done]. erewrite mthen_run by (unfold load_bitmap; by rewrite Hws).
  rewrite <- Hlen, Nat2Z.id, firstn_all, drop_all, Hrun, app_nil_r. erewrite mthen_run by done.
  rewrite kind_eq in Hfull. destruct (Z.ltb_spec shift 6); [|lia]. change (Z.ones (chunks shift)) with (all_used shift).
  erewrite mthen_run by exact Hfull. done.
Qed.

Lemma exact_chunk_run s g i used :
  pool_ok s g -> g !! i = Some (RSlab 6 used) -> used <> all_used 6 -> chunk_found g i 6 used (exact_chunk i 6) s.
Proof.
  intros Hs Hi Hu. destruct (layout_ok _ _ g (pool_layout _ _ _ _ Hs) _ _ Hi) as ((_ & Hw & _) & _).
  pose proof (pool_contents _ _ _ _ Hs _ _ Hi) as Hsl. cbn [contents_of] in Hsl. rewrite page_map_exact in Hsl. destruct (clear_bit_word used Hw Hu) as (b & Hrun & Hb & Hbit).
  set (used' := Z.lor used (2 ^ b)). set (s1 := mk_pool (<[Page i := used']> (slabs s)) (nexts s) (prevs s) (bitmaps s)).
  assert (marked used used' b (chunks 6)) as Hm by done.
  destruct (mark_chunk_run s s1 g i 6 used used' b Hs Hi Hu Hm) as (s' & Hfull & Hok).
  { split; cbn; try done. intros k Hk. apply lookup_insert_ne. congruence. }
  { rewrite page_map_exact. cbn. apply lookup_insert_eq. }
  exists s', used', b. split_and!; [done| |done]. unfold exact_chunk. erewrite mthen_run by (by apply get_slab_run).
  destruct (Z.eqb_spec used NGX_SLAB_BUSY); [by destruct Hu|]. rewrite Hrun, (Z.shiftl_1_l b). fold used'.
  erewrite mthen_run by (apply put_slab_run; by eexists). erewrite mthen_run by exact Hfull. done.
Qed.

Lemma big_chunks shift : 6 < shift <= 11 -> 1 <= chunks shift <= 32.
Proof. intros. assert (shift = 7 \/ shift = 8 \/ shift = 9 \/ shift = 10 \/ shift = 11) as [->|[->|[->|[->| ->]]]] by lia; vm_compute; intuition congruence. Qed.

Lemma big_mask_eq used shift : 6 < shift <= 11 -> big_mask (big_slab used shift) = Z.shiftl (all_used shift) NGX_SLAB_MAP_SHIFT.
Proof. intros. unfold big_mask. rewrite big_slab_shift, !Z.shiftl_1_l by lia. unfold all_used, chunks. rewrite ones_below; [done|]. apply Z.pow_nonneg. lia. Qed.

(** The comparison of the map of a big page with the mask. *)
Lemma big_full used shift : 6 < shift <= 11 -> 0 <= used < 2 ^ chunks shift ->
  (Z.land (big_slab used shift) NGX_SLAB_MAP_MASK =? Z.shiftl (all_used shift) NGX_SLAB_MAP_SHIFT) = (used =? all_used shift).
Proof.
  intros Hs Hu. pose proof (big_chunks shift Hs). assert (2 ^ chunks shift <= 2 ^ 32) by (apply Z.pow_le_mono_r; lia).
  rewrite big_slab_map by lia. unfold NGX_SLAB_MAP_SHIFT. rewrite !Z.shiftl_mul_pow2 by lia. apply Bool.eq_iff_eq_true. rewrite !Z.eqb_eq. lia.
Qed.

Lemma big_chunk_run s g i shift used :
  pool_ok s g -> g !! i = Some (RSlab shift used) -> used <> all_used shift -> 6 < shift ->
  chunk_found g i shift used (big_chunk (Z.shiftl (all_used shift) NGX_SLAB_MAP_SHIFT) i shift) s.
Proof.
  intros Hs Hi Hu H6. destruct (layout_ok _ _ g (pool_layout _ _ _ _ Hs) _ _ Hi) as ((Hsh & Hw & _) & _).
  pose proof (pool_contents _ _ _ _ Hs _ _ Hi) as Hsl%page_map_big; [|done]. pose proof (big_chunks shift ltac:(lia)) as Hch.
  destruct (not_ones_clear used (chunks shift)) as (b0 & Hb0 & Hbit0); [lia|done|done|].
  destruct (big_bit_spec 33 (big_slab used shift) (chunks shift) 0) as (b & Hrun & Hb & Hbit); [lia|lia|exists b0; by rewrite big_slab_bit by lia|].
  rewrite big_slab_bit in Hbit by lia.
  set (used' := Z.lor used (2 ^ b)). set (s1 := mk_pool (<[Page i := big_slab used' shift]> (slabs s)) (nexts s) (prevs s) (bitmaps s)).
  assert (marked used used' b (chunks shift)) as Hm by done.
  destruct (mark_chunk_run s s1 g i shift used used' b Hs Hi Hu Hm) as (s' & Hfull & Hok).
  { split; cbn; try done. intros k Hk. apply lookup_insert_ne. congruence. }
  { apply page_map_big; [done|]. cbn. apply lookup_insert_eq. }
  exists s', used', b. split_and!; [done| |done]. unfold big_chunk. erewrite mthen_run by (by apply get_slab_run).
  rewrite big_full by (done || lia). destruct (Z.eqb_spec used (all_used shift)); [done|]. fold (all_used shift) in Hrun. rewrite Hrun, Z.shiftl_1_l.
  change (NGX_SLAB_MAP_SHIFT + b) with (32 + b). rewrite big_slab_set by lia. fold used'.
  erewrite mthen_run by (apply put_slab_run; by eexists). rewrite big_full by (lia || (by apply set_bit_below)).
  rewrite kind_eq in Hfull. destruct (Z.ltb_spec shift 6); [lia|]. destruct (Z.eqb_spec shift 6); [lia|]. erewrite mthen_run by exact Hfull. done.
Qed.

(** * The pages of a slot *)

Definition page_addr (i : Z) : Z := start + i * ngx_pagesize.
Definition chunk_addr (i shift b : Z) : Z := page_addr i + b * 2 ^ shift.

Lemma shiftl_addr i shift b : 0 <= shift -> Z.shiftl i ngx_pagesize_shift + Z.shiftl b shift + start = chunk_addr i shift b.
Proof. intros. unfold chunk_addr, page_addr, ngx_pagesize_shift, ngx_pagesize. rewrite !Z.shiftl_mul_pow2 by lia. lia. Qed.

Lemma chunk_loop_run fuel chunk g i shift used s : 0 <= shift -> chunk_found g i shift used (chunk i) s ->
  exists s' used' b, marked used used' b (chunks shift) /\
    chunk_loop start (S fuel) chunk (Page i) s = Some (Some (chunk_addr i shift b), s') /\ pool_ok s' (<[i := RSlab shift used']> g).
Proof.
  intros Hsh (s' & used' & b & Hm & Hrun & Hok). exists s', used', b. split_and!; [done| |done]. cbn [chunk_loop].
  erewrite mthen_run by done. cbn. by rewrite shiftl_addr.
Qed.

Lemma slot_chunk_run s g shift : pool_ok s g -> min_shift <= shift <= 11 ->
  (exists s' i used used' b, g !! i = Some (RSlab shift used) /\ marked used used' b (chunks shift) /\
     slot_chunk start shift (shift - min_shift) s = Some (Some (chunk_addr i shift b), s') /\ pool_ok s' (<[i := RSlab shift used']> g)) \/
  (slot_chunk start shift (shift - min_shift) s = Some (None, s) /\ forall i, ~ owner g (Slot (shift - min_shift)) i).
Proof.
  intros Hs Hsh. pose proof Hs as [Hg Hl Hc]. destruct (valid_slot shift Hsh) as [Hvh Hht].
  destruct (links_list _ _ _ _ _ Hl _ Hvh) as (_ & _ & l & Hnd & Hseg & Hmem). unfold slot_chunk.
  erewrite mthen_run by (by eapply get_next_run, seg_first). destruct l as [|i l]; cbn [first_of].
  - right. erewrite mthen_run by (by apply get_next_run). rewrite bool_decide_true by done. split; [done|]. intros i Hi. apply Hmem in Hi. set_solver.
  - left. destruct (proj1 (Hmem i) ltac:(set_solver)) as (r & Hi & Hlr). destruct r as [| |sh used]; [done..|]. destruct Hlr as [-> Hu].
    replace (min_shift + (shift - min_shift)) with shift in * by lia. destruct Hseg as (_ & _ & Hseg). apply NoDup_cons in Hnd as [Hil _].
    erewrite mthen_run by (by eapply get_next_run, seg_first).
    rewrite bool_decide_false by (destruct l as [|j l]; cbn; [done|intros [= ->]; set_solver]).
    assert (1 <= Z.of_nat (size (slabs s))) as Hfuel.
    { pose proof (descriptors_bound N s ltac:(intros; by eapply contents_some)). destruct (layout_ok _ _ g Hg _ _ Hi) as (_ & ? & ?). cbn in *. lia. }
    unfold descriptors. erewrite mthen_run by done. destruct (size (slabs s)) as [|fuel]; [lia|].
    assert (forall chunk, chunk_found g i shift used (chunk i) s -> exists s' i0 used0 used' b, g !! i0 = Some (RSlab shift used0) /\ marked used0 used' b (chunks shift) /\
      chunk_loop start (S fuel) chunk (Page i) s = Some (Some (chunk_addr i0 shift b), s') /\ pool_ok s' (<[i0 := RSlab shift used']> g)) as Hloop.
    { intros chunk Hch. apply (chunk_loop_run fuel) in Hch as (s' & used' & b & Hx); [|lia]. exists s', i, used, used', b. done. }
    change ngx_slab_exact_shift with 6. destruct (Z.ltb_spec shift 6); [by apply Hloop, small_chunk_run|].
    destruct (Z.eqb_spec shift 6) as [-> |]; [by apply Hloop, exact_chunk_run|].
    pose proof (Hc _ _ Hi) as Hsl%page_map_big; [|lia]. erewrite mthen_run by (by apply get_slab_run). rewrite big_mask_eq by lia.
    apply Hloop, big_chunk_run; try done. lia.
Qed.

(** * A new page *)

Lemma new_page_ok shift : min_shift <= shift <= 11 -> region_ok (RSlab shift (Z.ones (reserved shift + 1))).
Proof.
  intros Hs. destruct (reserved_bounds shift ltac:(lia)) as (Hr & _). split; [done|]. split.
  - rewrite ones_below by lia. assert (0 < 2 ^ (reserved shift + 1)) by (apply Z.pow_pos_nonneg; lia).
    assert (2 ^ (reserved shift + 1) <= 2 ^ chunks shift) by (apply Z.pow_le_mono_r; lia). lia.
  - intros b Hb. apply Z.ones_spec_low. lia.
Qed.

Lemma new_page_not_full shift : 3 <= shift <= 11 -> Z.ones (reserved shift + 1) <> all_used shift.
Proof. revert shift. by apply shift_cases. Qed.

(** The page goes to the list of its slot once its map is written. *)
Lemma new_page_link_run s s1 g i shift :
  pool_ok s g -> min_shift <= shift <= 11 -> g !! i = Some (RBusy 1) -> (forall j, ~ owner g (Slot (shift - min_shift)) j) ->
  map_step s s1 i -> page_map s1 i shift (Z.ones (reserved shift + 1)) ->
  exists s', link_slot i (shift - min_shift) (kind shift) s1 = Some (tt, s') /\ pool_ok s' (<[i := RSlab shift (Z.ones (reserved shift + 1))]> g).
Proof.
  intros [Hg Hl Hc] Hsh Hi Hno [En Ep Hs Hb] Hpm. destruct (valid_slot shift Hsh) as [Hvh Hht]. destruct (layout_ok _ _ g Hg _ _ Hi) as (_ & Hi0 & HiN). cbn in HiN.
  assert (linked s1 g) as Hl1 by (by apply (links_cong _ _ None s)).
  assert (links_but (Some i) s1 g) as Hl1' by (split; [apply Hl1|intros; by apply (links_loose _ _ _ _ _ Hl1)|apply Hl1]).
  pose proof (links_list _ _ _ _ _ Hl1 _ Hvh) as Hlist. rewrite Hht in Hlist. destruct (links_page _ _ _ _ _ Hl1 i ltac:(lia)) as [Hn Hp].
  destruct (link_slot_run s1 (shift - min_shift) (kind shift) _ i Hlist Hno Hn Hp) as (s' & Hrun & Hlist' & Hstep). exists s'. split; [done|].
  pose proof (new_page_ok shift Hsh) as Hr. split; [by apply (layout_change _ _ g i (RBusy 1))| |].
  - apply (attach N min_shift s1 s' g (Slot (shift - min_shift)) i 1); try done; [by apply slot_listed, new_page_not_full; lia| |].
    + rewrite Hht. apply (list_ok_ext _ _ _ _ _ Hlist'). intros j. split; [by right|]. by intros [?%Hno|].
    + destruct Hstep as [H1 H2 H3 H4 H5]. split; try done. intros d Hd. apply H3. intros [-> |(j & -> & ->)]; apply Hd; [by left|right; eauto].
  - apply (contents_change N min_shift s s' g i (RBusy 1)); try done.
    + cbn. unfold page_map in *. by rewrite (step_slabs _ _ _ _ Hstep), (step_bitmaps _ _ _ _ Hstep).
    + intros k Hk. cbn in Hk. rewrite (step_slabs _ _ _ _ Hstep). apply Hs. lia.
    + intros k Hk. rewrite (step_bitmaps _ _ _ _ Hstep). by apply Hb.
Qed.

Lemma word_bits_zero n : word_bits (replicate n 0) = 0.
Proof. induction n as [|n IH]; [done|]. unfold word_bits in *. cbn [replicate foldr]. by rewrite IH. Qed.

Lemma new_page_run s g i shift :
  pool_ok s g -> min_shift <= shift <= 11 -> g !! i = Some (RBusy 1) -> (forall j, ~ owner g (Slot (shift - min_shift)) j) ->
  exists s', new_page_chunk start i shift (shift - min_shift) s = Some (chunk_addr i shift (reserved shift), s') /\
    pool_ok s' (<[i := RSlab shift (Z.ones (reserved shift + 1))]> g).
Proof.
  intros Hs Hsh Hi Hno. pose proof Hs as [Hg Hl Hc]. destruct (reserved_bounds shift ltac:(lia)) as (Hr & Hr64 & Hr6).
  assert (is_Some (slabs s !! Page i)) as Hsi by (destruct (Hc _ _ Hi) as [-> _]; done).
  unfold new_page_chunk. change ngx_slab_exact_shift with 6.
  assert (reserved shift = if shift <? 6 then map_chunks shift else 0) as Hres by done.
  destruct (Z.ltb_spec shift 6); [|destruct (Z.eqb_spec shift 6) as [-> |]].
  - erewrite mthen_run by done. erewrite mthen_run by (by apply put_slab_run). rewrite <- Hres. cbn [slabs nexts prevs bitmaps]. set (s1 := mk_pool _ _ _ _).
    replace NGX_SLAB_SMALL with (kind shift) by (rewrite kind_eq; by destruct (Z.ltb_spec shift 6); [|lia]).
    destruct (new_page_link_run s s1 g i shift Hs Hsh Hi Hno) as (s' & Hrun & Hok).
    { split; cbn; try done; intros k Hk; apply lookup_insert_ne; congruence. }
    { apply page_map_small; [done|]. cbn. rewrite !lookup_insert_eq. split; [done|]. eexists. split; [done|]. rewrite Z.shiftl_mul_pow2 by lia.
      replace (2 * 2 ^ reserved shift - 1) with (Z.ones (reserved shift + 1)) by (rewrite ones_below, Z.pow_add_r by lia; lia). split_and!.
      - cbn [length]. rewrite length_replicate. assert (1 <= map_words shift); [|lia]. assert (shift = 3 \/ shift = 4 \/ shift = 5) as [->|[->| ->]] by lia; vm_compute; congruence.
      - constructor; [|apply Forall_replicate; unfold word; lia]. unfold word. rewrite ones_below by lia.
        assert (0 < 2 ^ (reserved shift + 1)) by (apply Z.pow_pos_nonneg; lia). assert (2 ^ (reserved shift + 1) <= 2 ^ 64) by (apply Z.pow_le_mono_r; lia). lia.
      - unfold word_bits. cbn [foldr]. fold (word_bits (replicate (Z.to_nat (map_words shift) - 1) 0)). rewrite word_bits_zero, Z.shiftl_0_l. apply Z.lor_0_r. }
    exists s'. split; [|done]. erewrite mthen_run by done. unfold mret. rewrite <- shiftl_addr by lia. rewrite Z.shiftl_1_l, (Z.shiftl_mul_pow2 (reserved shift)) by lia.
    do 3 f_equal. lia.
  - erewrite mthen_run by (by apply put_slab_run). set (s1 := mk_pool _ _ _ _). change NGX_SLAB_EXACT with (kind 6).
    destruct (new_page_link_run s s1 g i 6 Hs Hsh Hi Hno) as (s' & Hrun & Hok).
    { split; cbn; try done; intros k Hk; apply lookup_insert_ne; congruence. }
    { rewrite page_map_exact. cbn. apply lookup_insert_eq. }
    exists s'. split; [|done]. erewrite mthen_run by done. unfold mret. rewrite <- shiftl_addr by lia. rewrite Hres. cbn [Z.ltb]. rewrite Z.shiftl_0_l. do 3 f_equal. lia.
  - erewrite mthen_run by (by apply put_slab_run). set (s1 := mk_pool _ _ _ _).
    replace NGX_SLAB_BIG with (kind shift) by (rewrite kind_eq; destruct (Z.ltb_spec shift 6); [lia|]; by destruct (Z.eqb_spec shift 6); [lia|]).
    destruct (new_page_link_run s s1 g i shift Hs Hsh Hi Hno) as (s' & Hrun & Hok).
    { split; cbn; try done; intros k Hk; apply lookup_insert_ne; congruence. }
    { apply page_map_big; [lia|]. cbn. rewrite Hres. apply lookup_insert_eq. }
    exists s'. split; [|done]. erewrite mthen_run by done. unfold mret. rewrite <- shiftl_addr by lia. rewrite Hres, Z.shiftl_0_l. do 3 f_equal. lia.
Qed.

(** * Giving a chunk back *)

Definition cleared (used b : Z) : Z := Z.land used (Z.lnot (2 ^ b)).

Lemma cleared_not_full shift used b : 0 <= b < chunks shift -> cleared used b <> all_used shift.
Proof.
  intros Hb E. apply (f_equal (fun z => Z.testbit z b)) in E. unfold cleared, all_used in E.
  rewrite clear_bit_bit, bool_decide_true, Z.ones_spec_low in E by lia. by rewrite andb_false_r in E.
Qed.

Lemma cleared_ok shift used b : region_ok (RSlab shift used) -> reserved shift <= b < chunks shift -> region_ok (RSlab shift (cleared used b)).
Proof.
  intros (Hs & Hu & Hr) Hb. destruct (reserved_bounds shift ltac:(lia)) as (Hres & _). split; [done|]. split; [apply clear_bit_below; [done|lia]|].
  intros c Hc. unfold cleared. rewrite clear_bit_bit, Hr, bool_decide_false by lia. done.
Qed.

(** A full page goes back to the list of its slot, before its map is written. *)
Lemma relink_full_run s g i shift used used' :
  pool_ok s g -> g !! i = Some (RSlab shift used) -> region_ok (RSlab shift used') -> used' <> all_used shift ->
  exists s1, (if used =? all_used shift then relink i (shift - min_shift) (kind shift) else mret tt) s = Some (tt, s1) /\
    linked s1 (<[i := RSlab shift used']> g) /\ slabs s1 = slabs s /\ bitmaps s1 = bitmaps s.
Proof.
  intros [Hg Hl Hc] Hi Hr' Hu'. destruct (layout_ok _ _ g Hg _ _ Hi) as (Hr & Hi0 & HiN). cbn in HiN. destruct (valid_slot shift ltac:(apply Hr)) as [Hvh Hht].
  destruct (Z.eqb_spec used (all_used shift)) as [E|E].
  - set (g1 := <[i := RBusy 1]> g). assert (layout g1) as Hg1 by (by apply (busy_ok N min_shift g i (RSlab shift used))).
    assert (links_but (Some i) s g1) as Hl1 by (apply (detach_loose N min_shift s g i (RSlab shift used)); try done; intros []; cbn; naive_solver).
    destruct (links_page _ _ _ _ _ Hl1 i ltac:(lia)) as [Hn Hp]. pose proof (links_list _ _ _ _ _ Hl1 _ Hvh) as Hlist. rewrite Hht in Hlist.
    destruct (slab_relink_run s (shift - min_shift) (kind shift) (owner g1 (Slot (shift - min_shift))) i) as (s1 & Hrun & Hlist1 & Hstep); try done.
    { intros (x & Hx & Hlx). unfold g1 in Hx. rewrite lookup_insert_eq in Hx. by simplify_eq. }
    exists s1. split_and!; [done| |apply Hstep|apply Hstep]. rewrite <- (insert_insert_eq g i (RSlab shift used') (RBusy 1)).
    apply (attach N min_shift s s1 g1 (Slot (shift - min_shift)) i 1); try done; [apply lookup_insert_eq|by apply slot_listed|by rewrite Hht].
  - exists s. split_and!; [done| |done|done]. apply (links_same _ _ _ (RSlab shift used)); try done; [|cbn; naive_solver]. intros []; cbn; naive_solver.
Qed.

Lemma relink_full_eq s g i shift used : pool_ok s g -> g !! i = Some (RSlab shift used) ->
  relink_full i (shift - min_shift) (kind shift) s = (if used =? all_used shift then relink i (shift - min_shift) (kind shift) else mret tt) s.
Proof.
  intros [Hg Hl Hc] Hi. destruct (layout_ok _ _ g Hg _ _ Hi) as (Hr & Hi0 & HiN). destruct (valid_slot shift ltac:(apply Hr)) as [Hvh Hht]. unfold relink_full.
  destruct (Z.eqb_spec used (all_used shift)) as [E|E].
  - destruct (links_loose _ _ _ _ _ Hl i (kind shift)) as [Hn _]; [|done|by erewrite mthen_run by (by apply get_next_run)].
    exists i, (RSlab shift used). cbn. split_and!; [done|lia|lia|done|done].
  - destruct (list_next s (Slot (shift - min_shift)) (kind shift) (owner g (Slot (shift - min_shift))) i) as (d & Hd & Hne).
    { rewrite <- Hht. by apply Hl. } { exists (RSlab shift used). split; [done|by apply slot_listed]. }
    erewrite mthen_run by (by apply get_next_run). by destruct d.
Qed.

(** The page is given back with its last chunk. *)
Definition freed_region (shift used : Z) : region := if no_chunks shift used then RFree 1 else RSlab shift used.

Lemma free_end_run s g i shift used : pool_ok s (<[i := RSlab shift used]> g) ->
  exists s', (if no_chunks shift used then ngx_slab_free_pages i 1 ;; mret Freed else mret Freed) s = Some (Freed, s') /\
    pool_ok s' (<[i := freed_region shift used]> g).
Proof.
  intros Hs. unfold freed_region. destruct (no_chunks shift used); [|by exists s].
  destruct (free_pages_run N min_shift N_range s _ i (RSlab shift used) ltac:(lia) Hs) as (s' & Hrun & Hok & _); [apply lookup_insert_eq|].
  rewrite insert_insert_eq in Hok. exists s'. split; [|done]. by erewrite mthen_run by exact Hrun.
Qed.

Context (start_aligned : start mod ngx_pagesize = 0).

Lemma page_low i off n : 0 <= n <= 12 -> Z.land (page_addr i + off) (2 ^ n - 1) = off mod 2 ^ n.
Proof.
  intros Hn. rewrite <- ones_below, Z.land_ones by lia. unfold page_addr. apply Z.div_exact in start_aligned; [|done]. rewrite start_aligned.
  change ngx_pagesize with (2 ^ 12). assert (2 ^ 12 = 2 ^ n * 2 ^ (12 - n)) as -> by (rewrite <- Z.pow_add_r by lia; f_equal; lia).
  set (q := start / _). replace (2 ^ n * 2 ^ (12 - n) * q + i * (2 ^ n * 2 ^ (12 - n)) + off) with (off + (2 ^ (12 - n) * (q + i)) * 2 ^ n) by lia.
  apply Z.mod_add. apply Z.pow_nonzero; lia.
Qed.

Lemma page_offset i off : 0 <= off < ngx_pagesize -> Z.land (page_addr i + off) (ngx_pagesize - 1) = off.
Proof. intros Ho. change (ngx_pagesize - 1) with (2 ^ 12 - 1). rewrite page_low by lia. by apply Z.mod_small. Qed.

(** The outcome of freeing the address at [off] in page [i]. *)
Definition free_spec (g : regions) (i shift used off : Z) (m : MS free_result) (s : slab_pool) : Prop :=
  let b := off / 2 ^ shift in
  (off mod 2 ^ shift <> 0 /\ m s = Some (Wrong_chunk, s)) \/
  (off mod 2 ^ shift = 0 /\ Z.testbit used b = false /\ m s = Some (Already_free, s)) \/
  (off mod 2 ^ shift = 0 /\ Z.testbit used b = true /\
    (reserved shift <= b -> exists s', m s = Some (Freed, s') /\ pool_ok s' (<[i := freed_region shift (cleared used b)]> g))).

Lemma chunk_index shift off : 3 <= shift <= 11 -> 0 <= off < ngx_pagesize -> 0 <= off / 2 ^ shift < chunks shift.
Proof.
  intros Hs Ho. assert (0 < 2 ^ shift) by (apply Z.pow_pos_nonneg; lia). split; [apply Z.div_pos; lia|]. apply Z.div_lt_upper_bound; [done|].
  rewrite (Z.mul_comm (2 ^ shift)), chunks_size by done. lia.
Qed.

(** What the three layouts have in common: the page is linked, its map written, and the page given back when it is empty. *)
Lemma clear_chunk_run s g i shift used b (write : slab_pool -> slab_pool) :
  pool_ok s g -> g !! i = Some (RSlab shift used) -> reserved shift <= b < chunks shift ->
  (forall s1, slabs s1 = slabs s -> bitmaps s1 = bitmaps s -> map_step s1 (write s1) i /\ page_map (write s1) i shift (cleared used b)) ->
  exists s1 s', (if used =? all_used shift then relink i (shift - min_shift) (kind shift) else mret tt) s = Some (tt, s1) /\
    slabs s1 = slabs s /\ bitmaps s1 = bitmaps s /\
    (if no_chunks shift (cleared used b) then ngx_slab_free_pages i 1 ;; mret Freed else mret Freed) (write s1) = Some (Freed, s') /\
    pool_ok s' (<[i := freed_region shift (cleared used b)]> g).
Proof.
  intros Hs Hi Hb Hw. pose proof Hs as [Hg Hl Hc]. destruct (layout_ok _ _ g Hg _ _ Hi) as (Hr & _). pose proof Hr as (Hsh & _).
  destruct (reserved_bounds shift ltac:(lia)) as (Hres & _). pose proof (cleared_ok shift used b Hr Hb) as Hr'.
  destruct (relink_full_run s g i shift used (cleared used b) Hs Hi Hr') as (s1 & Hrun & Hl1 & Hs1 & Hb1); [apply cleared_not_full; lia|].
  destruct (Hw s1 Hs1 Hb1) as [[En Ep Hk Hkb] Hpm].
  destruct (free_end_run (write s1) g i shift (cleared used b)) as (s' & Hrun' & Hok).
  { split; [by apply (layout_change N min_shift g i (RSlab shift used))|by apply (links_cong _ _ None s1)|].
    apply (map_contents s _ g i shift used); try done; intros k Hne; [rewrite Hk, Hs1|rewrite Hkb, Hb1]; done. }
  by exists s1, s'.
Qed.

Lemma free_small_run s g i shift used off :
  pool_ok s g -> g !! i = Some (RSlab shift used) -> shift < 6 -> 0 <= off < ngx_pagesize ->
  free_spec g i shift used off (free_small min_shift i (page_addr i + off) shift) s.
Proof.
  intros Hs Hi H6 Ho. destruct (layout_ok _ _ g (pool_layout _ _ _ _ Hs) _ _ Hi) as (Hr & _). pose proof Hr as (Hsh & Hu & _).
  pose proof (pool_contents _ _ _ _ Hs _ _ Hi) as (Hsl & ws & Hws & Hlen & Hw & <-)%page_map_small; [|done].
  pose proof (chunk_index shift off ltac:(lia) Ho) as Hb. set (b := off / 2 ^ shift) in *.
  destruct (reserved_bounds shift ltac:(lia)) as (Hres & Hr64 & _).
  assert (Z.land shift NGX_SLAB_SHIFT_MASK = shift) as Hmask by (change NGX_SLAB_SHIFT_MASK with (Z.ones 4); rewrite Z.land_ones, Z.mod_small by lia; done).
  unfold free_spec, free_small. fold b. rewrite Hmask, Z.shiftl_1_l, page_low, page_offset, (Z.shiftr_div_pow2 off) by (done || lia). fold b.
  destruct (Z.eqb_spec (off mod 2 ^ shift) 0) as [E|E]; [right|by left]. cbn [negb].
  pose proof (Z.mod_pos_bound b 64 ltac:(lia)) as Hm. change 63 with (Z.ones 6). rewrite Z.land_ones by lia. change (2 ^ 6) with 64. rewrite Z.shiftl_1_l.
  assert (exists w, ws !! Z.to_nat (b / 64) = Some w) as [w Hbw].
  { apply lookup_lt_is_Some. rewrite chunks_words in Hb by lia. pose proof (Z.div_pos b 64 ltac:(lia) ltac:(lia)).
    assert (b / 64 < map_words shift) by (apply Z.div_lt_upper_bound; lia). lia. }
  erewrite mthen_run by (unfold load_bitmap; by rewrite Hws). rewrite Hbw, test_bit by lia.
  assert (Z.testbit (word_bits ws) b = Z.testbit w (b mod 64)) as Hbit by (rewrite word_bits_bit, Hbw by (done || lia); done). rewrite Hbit.
  destruct (Z.testbit w (b mod 64)); [right|left; done]. split_and!; [done|done|]. intros Hrb. cbn [negb].
  destruct (word_bits_clear ws b w Hw ltac:(lia) Hbw) as [Hw' Hcl]. set (ws' := <[Z.to_nat (b / 64) := _]> ws) in *. fold (cleared (word_bits ws) b) in Hcl.
  assert (length ws' = length ws) as Hlen' by apply length_insert.
  destruct (clear_chunk_run s g i shift (word_bits ws) b (fun s1 => mk_pool (slabs s1) (nexts s1) (prevs s1) (<[i := ws']> (bitmaps s1))) Hs Hi ltac:(lia))
    as (s1 & s' & Hlink & Hs1 & Hb1 & Hend & Hok).
  { intros s1 Hs1 Hb1. split; [split; cbn; try done; intros k Hk; by apply lookup_insert_ne|].
    apply page_map_small; [done|]. cbn. rewrite Hs1, lookup_insert_eq. split; [done|]. exists ws'. by rewrite Hlen'. }
  exists s'. split; [|done]. replace NGX_SLAB_SMALL with (kind shift) by (rewrite kind_eq; by destruct (Z.ltb_spec shift 6); [|lia]).
  erewrite mthen_run by (rewrite (relink_full_eq s g i shift _ Hs Hi); exact Hlink). erewrite mthen_run by done.
  destruct ws' as [|w0 ws0]; [exfalso; cbn in Hlen'; destruct ws; [by rewrite lookup_nil in Hbw|done]|].
  rewrite <- Hend, <- Hcl. unfold no_chunks. assert (reserved shift = map_chunks shift) as Hrm by (unfold reserved; change ngx_slab_exact_shift with 6; by destruct (Z.ltb_spec shift 6); [|lia]).
  rewrite Hrm in *. rewrite <- small_no_chunks by (done || lia). rewrite take_ge by (cbn in Hlen'; lia).
  destruct (Z.land w0 _ =? 0); [|done]. by destruct (existsb _ ws0).
Qed.

Lemma free_exact_run s g i used off :
  pool_ok s g -> g !! i = Some (RSlab 6 used) -> 0 <= off < ngx_pagesize ->
  free_spec g i 6 used off (free_exact min_shift i (page_addr i + off) used) s.
Proof.
  intros Hs Hi Ho. destruct (layout_ok _ _ g (pool_layout _ _ _ _ Hs) _ _ Hi) as (Hr & _). pose proof Hr as (Hsh & Hu & _).
  pose proof (pool_contents _ _ _ _ Hs _ _ Hi) as Hsl. cbn [contents_of] in Hsl. rewrite page_map_exact in Hsl.
  pose proof (chunk_index 6 off ltac:(lia) Ho) as Hb. set (b := off / 2 ^ 6) in *.
  unfold free_spec, free_exact. fold b. change (ngx_slab_exact_size - 1) with (2 ^ 6 - 1). change ngx_slab_exact_shift with 6.
  rewrite page_low, page_offset, (Z.shiftr_div_pow2 off) by (done || lia). fold b.
  destruct (Z.eqb_spec (off mod 2 ^ 6) 0) as [E|E]; [right|by left]. cbn [negb]. rewrite Z.shiftl_1_l, test_bit by lia.
  destruct (Z.testbit used b); [right|left; done]. split_and!; [done|done|]. intros Hrb. cbn [negb].
  destruct (clear_chunk_run s g i 6 used b (fun s1 => mk_pool (<[Page i := cleared used b]> (slabs s1)) (nexts s1) (prevs s1) (bitmaps s1)) Hs Hi ltac:(lia))
    as (s1 & s' & Hlink & Hs1 & Hb1 & Hend & Hok).
  { intros s1 Hs1 Hb1. split; [split; cbn; try done; intros k Hk; apply lookup_insert_ne; congruence|]. rewrite page_map_exact. cbn. apply lookup_insert_eq. }
  exists s'. split; [|done]. change (all_used 6) with NGX_SLAB_BUSY in Hlink. change (kind 6) with NGX_SLAB_EXACT in Hlink. erewrite mthen_run by exact Hlink.
  erewrite mthen_run by (apply get_slab_run; by rewrite Hs1). erewrite mthen_run by (apply put_slab_run; rewrite Hs1; by eexists).
  erewrite mthen_run by (apply get_slab_run; cbn; apply lookup_insert_eq). rewrite <- Hend. unfold no_chunks. change (reserved 6) with 0. rewrite Z.shiftr_0_r.
  fold (cleared used b). by destruct (cleared used b =? 0).
Qed.

Lemma free_big_run s g i shift used off :
  pool_ok s g -> g !! i = Some (RSlab shift used) -> 6 < shift -> 0 <= off < ngx_pagesize ->
  free_spec g i shift used off (free_big min_shift i (page_addr i + off) (big_slab used shift)) s.
Proof.
  intros Hs Hi H6 Ho. destruct (layout_ok _ _ g (pool_layout _ _ _ _ Hs) _ _ Hi) as (Hr & _). pose proof Hr as (Hsh & Hu & _).
  pose proof (pool_contents _ _ _ _ Hs _ _ Hi) as Hsl%page_map_big; [|done]. pose proof (big_chunks shift ltac:(lia)) as Hch.
  pose proof (chunk_index shift off ltac:(lia) Ho) as Hb. set (b := off / 2 ^ shift) in *.
  unfold free_spec, free_big. fold b. rewrite big_slab_shift, (Z.shiftl_1_l shift), page_low, page_offset, (Z.shiftr_div_pow2 off) by (done || lia). fold b.
  destruct (Z.eqb_spec (off mod 2 ^ shift) 0) as [E|E]; [right|by left]. cbn [negb].
  rewrite Z.shiftl_1_l. replace (b + NGX_SLAB_MAP_SHIFT) with (32 + b) by (unfold NGX_SLAB_MAP_SHIFT; lia). rewrite test_bit, big_slab_bit by lia.
  destruct (Z.testbit used b); [right|left; done]. split_and!; [done|done|]. intros Hrb. cbn [negb].
  destruct (clear_chunk_run s g i shift used b (fun s1 => mk_pool (<[Page i := big_slab (cleared used b) shift]> (slabs s1)) (nexts s1) (prevs s1) (bitmaps s1)) Hs Hi ltac:(lia))
    as (s1 & s' & Hlink & Hs1 & Hb1 & Hend & Hok).
  { intros s1 Hs1 Hb1. split; [split; cbn; try done; intros k Hk; apply lookup_insert_ne; congruence|]. apply page_map_big; [done|]. cbn. apply lookup_insert_eq. }
  exists s'. split; [|done]. replace NGX_SLAB_BIG with (kind shift) by (rewrite kind_eq; destruct (Z.ltb_spec shift 6); [lia|]; by destruct (Z.eqb_spec shift 6); [lia|]).
  erewrite mthen_run by (rewrite (relink_full_eq s g i shift _ Hs Hi); exact Hlink).
  erewrite mthen_run by (apply get_slab_run; by rewrite Hs1). rewrite big_slab_clear by lia. fold (cleared used b).
  erewrite mthen_run by (apply put_slab_run; rewrite Hs1; by eexists). erewrite mthen_run by (apply get_slab_run; cbn; apply lookup_insert_eq).
  pose proof (clear_bit_below used b _ Hu ltac:(lia)) as Hc'. fold (cleared used b) in Hc'. assert (2 ^ chunks shift <= 2 ^ 32) by (apply Z.pow_le_mono_r; lia).
  rewrite big_slab_map by lia. rewrite <- Hend. unfold no_chunks. destruct (reserved_bounds shift ltac:(lia)) as (_ & _ & ->); [|lia]. rewrite Z.shiftr_0_r.
  rewrite Z.shiftl_mul_pow2 by lia. destruct (Z.eqb_spec (cleared used b) 0) as [-> |Hne]; [done|]. by destruct (Z.eqb_spec (cleared used b * 2 ^ 32) 0); [lia|].
Qed.

End pool.
