(* ===== verification/NgxSlabCorrect.v ===== *)
(** The slab allocator of [NgxSlab] is correct: an allocated block lies in the pool, is
    large enough and overlaps no block in use; freeing a block removes that block and no
    other; a wrong address is refused and nothing changes.  A new pool has no blocks. *)

From S2P Require Import Prelude NgxStore NgxSlab NgxSlabLists NgxSlabMap NgxSlabPages NgxSlabChunks.

Open Scope Z_scope.
Open Scope store_scope.

#[local] Arguments mthen : simpl never.

(** The place of the pages of a pool. *)
Record geometry (start pool_end N min_shift : Z) : Prop := {
  geo_pages : 0 <= N < 2 ^ 52;
  geo_shift : 3 <= min_shift <= 11;
  geo_aligned : start mod ngx_pagesize = 0;
  geo_end : start + N * ngx_pagesize <= pool_end;
}.

Section pool.
Context (start pool_end N min_shift : Z).

#[local] Abbreviation layout := (layout N min_shift).
#[local] Abbreviation pool_ok := (pool_ok N min_shift).
#[local] Abbreviation owner := (owner min_shift).
#[local] Abbreviation page_addr := (page_addr start).
#[local] Abbreviation chunk_addr := (chunk_addr start).

(** * The blocks in use *)

Definition block_of (i : Z) (r : region) (a n : Z) : Prop :=
  match r with
  | RFree _ => False
  | RBusy m => a = page_addr i /\ n = m * ngx_pagesize
  | RSlab shift used => n = 2 ^ shift /\ exists b, reserved shift <= b < chunks shift /\ Z.testbit used b = true /\ a = chunk_addr i shift b
  end.

(** [n] bytes at [a] are in use. *)
Definition block (g : regions) (a n : Z) : Prop := exists i r, g !! i = Some r /\ block_of i r a n.

Definition other_block (g : regions) (i a n : Z) : Prop := exists j r, j <> i /\ g !! j = Some r /\ block_of j r a n.

Lemma block_split g i r a n : g !! i = Some r -> block g a n <-> block_of i r a n \/ other_block g i a n.
Proof.
  intros Hi. split.
  - intros (j & x & Hj & Hb). destruct (decide (j = i)) as [-> |]; [left; by simplify_eq|right; by exists j, x].
  - intros [Hb|(j & x & _ & Hj & Hb)]; [by exists i, r|by exists j, x].
Qed.

Lemma other_block_insert g i r a n : other_block (<[i := r]> g) i a n <-> other_block g i a n.
Proof. split; intros (j & x & Hne & Hj & Hb); exists j, x; (split; [done|]); [rewrite lookup_insert_ne in Hj by done|rewrite lookup_insert_ne by done]; done. Qed.

Lemma other_block_carve g i m n a k : g !! i = Some (RFree m) -> layout g -> 1 <= n <= m -> other_block (carve g i m n) i a k <-> other_block g i a k.
Proof.
  intros Hi Hg Hn. unfold carve. rewrite other_block_insert. destruct (Z.ltb_spec n m); [|done]. split.
  - intros (j & x & Hne & [[<- <-]|[Hj' Hj]]%lookup_insert_Some & Hb); [done|]. by exists j, x.
  - intros (j & x & Hne & Hj & Hb). exists j, x. split_and!; [done| |done]. rewrite lookup_insert_ne; [done|]. intros <-.
    pose proof (layout_same _ _ g i _ _ _ Hg Hi Hj ltac:(cbn; lia)). lia.
Qed.

Lemma block_insert g i r a n : block (<[i := r]> g) a n <-> block_of i r a n \/ other_block g i a n.
Proof. rewrite (block_split _ i r) by apply lookup_insert_eq. by rewrite other_block_insert. Qed.

Context (geo : geometry start pool_end N min_shift).

Lemma region_shift g i shift used : layout g -> g !! i = Some (RSlab shift used) -> 3 <= shift <= 11.
Proof. intros Hg Hi. destruct (layout_ok _ _ g Hg _ _ Hi) as ((Hs & _) & _). pose proof (geo_shift _ _ _ _ geo). lia. Qed.

Lemma chunk_range i shift b : 3 <= shift <= 11 -> 0 <= b < chunks shift -> page_addr i <= chunk_addr i shift b /\ chunk_addr i shift b + 2 ^ shift <= page_addr (i + 1).
Proof.
  intros Hs Hb. pose proof (chunks_size shift Hs). unfold NgxSlabChunks.chunk_addr, NgxSlabChunks.page_addr in *. assert (0 < 2 ^ shift) by (apply Z.pow_pos_nonneg; lia).
  nia.
Qed.

Lemma block_range g i r a n : layout g -> g !! i = Some r -> block_of i r a n -> page_addr i <= a /\ a + n <= page_addr (i + pages_of r) /\ 0 < n.
Proof.
  intros Hg Hi Hb. pose proof (layout_pos _ _ g i r Hg Hi) as Hp. destruct r as [m|m|shift used]; [done| |].
  - destruct Hb as [-> ->]. unfold NgxSlabChunks.page_addr, ngx_pagesize. cbn in *. lia.
  - destruct Hb as (-> & b & Hb & _ & ->). pose proof (region_shift g _ _ _ Hg Hi) as Hs. destruct (reserved_bounds shift Hs) as (? & _).
    destruct (chunk_range i shift b Hs ltac:(lia)). split_and!; [done|done|]. apply Z.pow_pos_nonneg; lia.
Qed.

(** Two blocks are the same or do not overlap. *)
Lemma blocks_disjoint g a n a' n' : layout g -> block g a n -> block g a' n' -> (a = a' /\ n = n') \/ a + n <= a' \/ a' + n' <= a.
Proof.
  intros Hg (i & r & Hi & Hb) (j & x & Hj & Hb'). destruct (block_range g i r a n Hg Hi Hb) as (H1 & H2 & H3).
  destruct (block_range g j x a' n' Hg Hj Hb') as (H4 & H5 & H6). unfold NgxSlabChunks.page_addr, ngx_pagesize in *.
  destruct (decide (i = j)) as [<- |Hne].
  - assert (x = r) as -> by congruence. destruct r as [m|m|shift used]; [done|left; destruct Hb as [-> ->], Hb' as [-> ->]; done|].
    destruct Hb as (-> & b & Hb & _ & ->), Hb' as (-> & b' & Hb' & _ & ->). unfold NgxSlabChunks.chunk_addr in *.
    destruct (decide (b = b')) as [-> |]; [by left|right]. assert (b < b' \/ b' < b) as [?|?] by lia; [left|right]; nia.
  - destruct (decide (i < j)); [pose proof (layout_disjoint _ _ g Hg i j r x Hi Hj)|pose proof (layout_disjoint _ _ g Hg j i x r Hj Hi)]; lia.
Qed.

Lemma block_in_pool g a n : layout g -> block g a n -> start <= a /\ a + n <= start + N * ngx_pagesize /\ 0 < n.
Proof.
  intros Hg (i & r & Hi & Hb). destruct (block_range g i r a n Hg Hi Hb) as (H1 & H2 & H3). destruct (layout_ok _ _ g Hg i r Hi) as (_ & H4 & H5).
  unfold NgxSlabChunks.page_addr, ngx_pagesize in *. lia.
Qed.

(** [g'] has one block more than [g]. *)
Definition grown (g g' : regions) (a n : Z) : Prop := ~ block g a n /\ forall a' n', block g' a' n' <-> block g a' n' \/ (a' = a /\ n' = n).

(** The block allocated for [size] bytes. *)
Definition allocated (g : regions) (size : Z) (s' : slab_pool) (a : Z) : Prop :=
  exists g' n, pool_ok s' g' /\ size <= n /\ grown g g' a n.

(** ** The size of the chunks *)

Lemma size_shift_loop_spec fuel s shift : 0 < s -> Z.log2 s < Z.of_nat fuel -> size_shift_loop fuel s shift = shift + Z.log2 s.
Proof.
  revert s shift. induction fuel as [|fuel IH]; intros s shift Hs Hf; [pose proof (Z.log2_nonneg s); lia|]. cbn [size_shift_loop].
  pose proof (Z.log2_nonneg s). destruct (Z.eqb_spec (Z.shiftr s 1) 0) as [E|E].
  - apply Z.shiftr_eq_0_iff in E as [->|[_ E]]; lia.
  - assert (0 < Z.shiftr s 1) by (pose proof (Z.shiftr_nonneg s 1); lia). pose proof (Z.log2_shiftr s 1 Hs) as Hl.
    assert (1 <= Z.log2 s). { destruct (decide (1 <= Z.log2 s)); [done|]. destruct E. apply Z.shiftr_eq_0; lia. }
    rewrite IH by lia. lia.
Qed.

Lemma size_shift_spec size : 0 <= size < ngx_slab_max_size -> min_shift <= size_shift min_shift size <= 11 /\ size <= 2 ^ size_shift min_shift size.
Proof.
  intros Hs. change ngx_slab_max_size with 2048 in Hs. pose proof (geo_shift _ _ _ _ geo) as Hm. unfold size_shift. rewrite Z.shiftl_1_l.
  destruct (Z.ltb_spec (2 ^ min_shift) size); [|lia]. assert (2 ^ 3 <= 2 ^ min_shift) by (apply Z.pow_le_mono_r; lia).
  assert (Z.log2 (size - 1) <= 10) as Hl by (pose proof (Z.log2_lt_pow2 (size - 1) 11 ltac:(lia)) as [Hx _]; specialize (Hx ltac:(lia)); lia).
  assert (min_shift <= Z.log2 (size - 1)) as Hl' by (apply Z.log2_le_pow2; lia). rewrite size_shift_loop_spec by lia.
  pose proof (Z.log2_spec (size - 1) ltac:(lia)) as [_ Hx]. replace (1 + Z.log2 (size - 1)) with (Z.succ (Z.log2 (size - 1))) by lia. lia.
Qed.

(** ** Allocation *)

Lemma chunk_not_used g i shift used b : g !! i = Some (RSlab shift used) -> layout g -> 0 <= b < chunks shift -> Z.testbit used b = false ->
  ~ block_of i (RSlab shift used) (chunk_addr i shift b) (2 ^ shift).
Proof.
  intros Hi Hg Hb Hu (_ & b' & Hb' & Hu' & E). unfold NgxSlabChunks.chunk_addr in E. pose proof (region_shift g _ _ _ Hg Hi).
  assert (b = b') as -> by (apply (Z.mul_reg_r _ _ (2 ^ shift)); [apply Z.pow_nonzero; lia|lia]). congruence.
Qed.

(** A block is a block of the page it starts in. *)
Lemma block_page g i r a n : layout g -> g !! i = Some r -> page_addr i <= a < page_addr (i + pages_of r) -> block g a n -> block_of i r a n.
Proof.
  intros Hg Hi Ha (j & x & Hj & Hb). destruct (decide (j = i)) as [-> |Hne]; [by simplify_eq|]. exfalso.
  destruct (block_range g j x a n Hg Hj Hb) as (H4 & H5 & H6). unfold NgxSlabChunks.page_addr, ngx_pagesize in *.
  destruct (decide (i < j)); [pose proof (layout_disjoint _ _ g Hg i j r x Hi Hj)|pose proof (layout_disjoint _ _ g Hg j i x r Hj Hi)]; lia.
Qed.

Lemma mark_grown g i shift used used' b : layout g -> g !! i = Some (RSlab shift used) -> marked used used' b (chunks shift) ->
  (forall c, 0 <= c < reserved shift -> Z.testbit used c = true) -> grown g (<[i := RSlab shift used']> g) (chunk_addr i shift b) (2 ^ shift).
Proof.
  intros Hg Hi (Hb & Hu & ->) Hr. pose proof (region_shift g _ _ _ Hg Hi) as Hs. assert (reserved shift <= b).
  { destruct (decide (reserved shift <= b)); [done|]. rewrite Hr in Hu by lia. done. }
  split.
  - intros H0. apply (block_page g i (RSlab shift used)) in H0; try done; [by eapply chunk_not_used|]. destruct (chunk_range i shift b Hs Hb). cbn.
    assert (0 < 2 ^ shift) by (apply Z.pow_pos_nonneg; lia). lia.
  - intros a' n'. rewrite block_insert, (block_split g i (RSlab shift used)) by done. cbn. split.
    + intros [(-> & c & Hc & Hbit & ->)|Hoth]; [|by auto]. rewrite set_bit_bit in Hbit by lia. apply orb_true_iff in Hbit as [Hbit|Hbit%bool_decide_eq_true].
      * left; left. split; [done|]. by exists c.
      * subst. by right.
    + intros [[(-> & c & Hc & Hbit & ->)|Hoth]|[-> ->]]; [left|by right|left]; (split; [done|]).
      * exists c. split_and!; [lia|lia| |done]. by rewrite set_bit_bit, Hbit by lia.
      * exists b. split_and!; [lia|lia| |done]. rewrite set_bit_bit, bool_decide_true by lia. apply orb_true_r.
Qed.

(** No run of free pages is long enough, and every page of the chunks asked for is full. *)
Definition no_room (g : regions) (size : Z) : Prop :=
  (forall i m, g !! i = Some (RFree m) -> ngx_slab_max_size <= size /\ m * ngx_pagesize < size) /\
  (size < ngx_slab_max_size -> forall i used, g !! i = Some (RSlab (size_shift min_shift size) used) -> used = all_used (size_shift min_shift size)).

Lemma carve_grown g i m n : layout g -> g !! i = Some (RFree m) -> 1 <= n <= m -> grown g (carve g i m n) (page_addr i) (n * ngx_pagesize).
Proof.
  intros Hg Hi Hn. split.
  - intros H0. apply (block_page g i (RFree m)) in H0; try done. unfold NgxSlabChunks.page_addr, ngx_pagesize. cbn. lia.
  - intros a' n'. rewrite (block_split (carve g i m n) i (RBusy n)) by apply lookup_insert_eq. rewrite other_block_carve by done.
    rewrite (block_split g i (RFree m)) by done. cbn. tauto.
Qed.

(** The page of a new slab is none of the pages in use before. *)
Lemma new_page_grown g i m shift : layout g -> g !! i = Some (RFree m) -> 1 <= m -> 3 <= shift <= 11 ->
  grown g (<[i := RSlab shift (Z.ones (reserved shift + 1))]> (carve g i m 1)) (chunk_addr i shift (reserved shift)) (2 ^ shift).
Proof.
  intros Hg Hi Hm Hs. destruct (reserved_bounds shift Hs) as (Hr & _). split.
  - intros H0. apply (block_page g i (RFree m)) in H0; try done. destruct (chunk_range i shift (reserved shift) Hs Hr).
    assert (0 < 2 ^ shift) by (apply Z.pow_pos_nonneg; lia). unfold NgxSlabChunks.page_addr, ngx_pagesize in *. cbn. lia.
  - intros a' n'. rewrite block_insert, other_block_carve by (done || lia). rewrite (block_split g i (RFree m)) by done. cbn. split.
    + intros [(-> & b & Hb & Hbit & ->)|?]; [|by auto]. right. rewrite ones_bit in Hbit by lia. apply bool_decide_eq_true in Hbit.
      by replace b with (reserved shift) by lia.
    + intros [[[]|?]|[-> ->]]; [by right|left]. split; [done|]. exists (reserved shift). split_and!; [lia|lia| |done]. rewrite ones_bit, bool_decide_true by lia. done.
Qed.

Lemma size_pages size : ngx_slab_max_size <= size <= 2 ^ 64 - ngx_pagesize ->
  let n := Z.shiftr (u64 (size + ngx_pagesize - 1)) ngx_pagesize_shift in 1 <= n /\ size <= n * ngx_pagesize < size + ngx_pagesize.
Proof.
  unfold ngx_pagesize, ngx_pagesize_shift. change ngx_slab_max_size with 2048. intros Hs. cbn zeta. rewrite wrap_small, Z.shiftr_div_pow2 by lia. change (2 ^ 12) with 4096.
  pose proof (Z.div_mod (size + 4096 - 1) 4096 ltac:(lia)). pose proof (Z.mod_pos_bound (size + 4096 - 1) 4096 ltac:(lia)). lia.
Qed.

Lemma slab_alloc_run s g size : pool_ok s g -> 0 <= size <= 2 ^ 64 - ngx_pagesize ->
  (exists s' a, ngx_slab_alloc_locked start min_shift size s = Some (Some a, s') /\ allocated g size s' a) \/
  (ngx_slab_alloc_locked start min_shift size s = Some (None, s) /\ no_room g size).
Proof.
  intros Hs Hsize. pose proof Hs as [Hg _ _]. pose proof (geo_pages _ _ _ _ geo) as HN. pose proof (geo_shift _ _ _ _ geo) as Hm. unfold ngx_slab_alloc_locked.
  destruct (Z.leb_spec ngx_slab_max_size size) as [Hbig|Hsmall].
  - destruct (size_pages size ltac:(lia)) as [Hn1 Hn2]. set (n := Z.shiftr _ _) in *.
    destruct (alloc_pages_run N min_shift HN s g n Hs Hn1) as [(s' & i & m & Hrun & Hi & Hnm & Hok & _)|[Hrun Hno]]; erewrite mthen_run by done.
    + left. exists s', (page_addr i). split.
      * unfold mret, ngx_pagesize_shift, NgxSlabChunks.page_addr, ngx_pagesize. rewrite Z.shiftl_mul_pow2 by lia. do 3 f_equal. lia.
      * exists (carve g i m n), (n * ngx_pagesize). split_and!; [done|lia|]. apply carve_grown; [done|done|lia].
    + right. split; [done|]. split; [|lia]. intros i m Hi. specialize (Hno i m Hi). split; [done|]. unfold ngx_pagesize in *. lia.
  - destruct (size_shift_spec size ltac:(lia)) as [Hsh Hle]. set (shift := size_shift min_shift size) in *.
    destruct (slot_chunk_run start N min_shift HN Hm s g shift Hs Hsh) as [(s' & i & used & used' & b & Hi & Hmk & Hrun & Hok)|[Hrun Hno]]; erewrite mthen_run by done.
    + left. exists s', (chunk_addr i shift b). split; [done|]. exists (<[i := RSlab shift used']> g), (2 ^ shift). split_and!; [done|done|].
      destruct (layout_ok _ _ g Hg _ _ Hi) as ((_ & _ & Hr) & _). by apply (mark_grown g i shift used used' b).
    + destruct (alloc_pages_run N min_shift HN s g 1 Hs ltac:(lia)) as [(s1 & i & m & Hrun1 & Hi & Hnm & Hok & _)|[Hrun1 Hno1]]; erewrite mthen_run by done.
      * left. destruct (new_page_run start N min_shift Hm s1 (carve g i m 1) i shift Hok Hsh) as (s' & Hrun2 & Hok2); [apply lookup_insert_eq| |].
        { intros j (r & Hr & Hlr). destruct r as [| |sh u]; [done..|]. unfold carve in Hr. apply lookup_insert_Some in Hr as [[_ [=]]|[Hne Hr]].
          destruct (1 <? m); [apply lookup_insert_Some in Hr as [[_ [=]]|[_ Hr]]|]; apply (Hno j); by exists (RSlab sh u). }
        exists s', (chunk_addr i shift (reserved shift)). split; [by erewrite mthen_run by done|].
        eexists _, (2 ^ shift). split_and!; [done|done|]. apply new_page_grown; [done|done|lia|lia].
      * right. split; [done|]. split.
        -- intros i m Hi. specialize (Hno1 i m Hi). pose proof (layout_pos _ _ g _ _ Hg Hi). cbn in *. lia.
        -- intros _ i used Hi. fold shift in Hi |- *. destruct (decide (used = all_used shift)); [done|]. destruct (Hno i). exists (RSlab shift used). split; [done|].
           by apply slot_listed.
Qed.

(** ** Freeing *)

(** [g'] has the blocks of [g] but the one at [a]. *)
Definition shrunk (g g' : regions) (a : Z) : Prop := forall a' n', block g' a' n' <-> block g a' n' /\ a' <> a.

Lemma page_index i off : 0 <= off < ngx_pagesize -> Z.shiftr (page_addr i + off - start) ngx_pagesize_shift = i.
Proof.
  intros Ho. unfold NgxSlabChunks.page_addr, ngx_pagesize_shift, ngx_pagesize in *. rewrite Z.shiftr_div_pow2 by lia. change (2 ^ 12) with 4096.
  replace (start + i * 4096 + off - start) with (off + i * 4096) by lia. rewrite Z.div_add, Z.div_small by lia. lia.
Qed.

Lemma no_chunks_bits shift used : 3 <= shift <= 11 -> no_chunks shift used = true -> forall b, reserved shift <= b -> Z.testbit used b = false.
Proof. intros Hs H. destruct (reserved_bounds shift Hs) as (? & _). apply Z.eqb_eq in H. apply (shiftr_zero used (reserved shift)); [lia|done]. Qed.

Lemma clear_shrunk g i shift used b : layout g -> g !! i = Some (RSlab shift used) -> reserved shift <= b < chunks shift ->
  Z.testbit used b = true -> shrunk g (<[i := freed_region shift (cleared used b)]> g) (chunk_addr i shift b).
Proof.
  intros Hg Hi Hb Hbit a' n'. pose proof (region_shift g _ _ _ Hg Hi) as Hs. destruct (reserved_bounds shift Hs) as (Hr & _).
  assert (block_of i (freed_region shift (cleared used b)) a' n' <-> block_of i (RSlab shift (cleared used b)) a' n') as E.
  { unfold freed_region. destruct (no_chunks shift (cleared used b)) eqn:Hno; [|done]. split; [done|]. intros (_ & c & Hc & Hx & _).
    rewrite (no_chunks_bits shift _ Hs Hno) in Hx by lia. done. }
  rewrite block_insert, E, (block_split g i (RSlab shift used)) by done. cbn. unfold cleared. assert (0 < 2 ^ shift) by (apply Z.pow_pos_nonneg; lia). split.
  - intros [(-> & c & Hc & Hx & ->)|Hoth].
    + rewrite clear_bit_bit in Hx by lia. apply andb_true_iff in Hx as [Hx Hne%negb_true_iff%bool_decide_eq_false]. split; [left; split; [done|by exists c]|].
      unfold NgxSlabChunks.chunk_addr. nia.
    + split; [by right|]. intros ->. destruct Hoth as (j & x & Hne & Hj & Hbx). assert (block g (chunk_addr i shift b) n') as Hblk by (by exists j, x).
      destruct (block_range g j x _ n' Hg Hj Hbx) as (H4 & H5 & H6). destruct (chunk_range i shift b Hs ltac:(lia)).
      unfold NgxSlabChunks.page_addr, ngx_pagesize in *.
      destruct (decide (i < j)); [pose proof (layout_disjoint _ _ g Hg i j _ x Hi Hj)|pose proof (layout_disjoint _ _ g Hg j i x _ Hj Hi)]; cbn in *; lia.
  - intros [[(-> & c & Hc & Hx & ->)|Hoth] Hne]; [left|by right]. split; [done|]. exists c. split_and!; [lia|lia| |done].
    rewrite clear_bit_bit, Hx, bool_decide_false by (lia || by intros ->). done.
Qed.

(** The type of a page. *)
Lemma region_type s g i r k : pool_ok s g -> g !! i = Some r -> i <= k < i + pages_of r ->
  exists d, prevs s !! Page k = Some (d, match r with RSlab shift _ => kind shift | _ => NGX_SLAB_PAGE end).
Proof.
  intros [Hg Hl _] Hi Hk. destruct (layout_ok _ _ g Hg _ _ Hi) as (Hr & _). pose proof (geo_shift _ _ _ _ geo) as Hm.
  assert (forall h, valid_head min_shift h -> listed min_shift h r -> k = i -> exists d, prevs s !! Page k = Some (d, head_type min_shift h)) as Hlist.
  { intros h Hh Hlr ->. destruct (list_ok_page s h (head_type min_shift h) (owner g h) i) as [_ Hx]; [by apply Hl|by exists r|done]. }
  assert (forall t, unlisted r (k - i) t -> exists d, prevs s !! Page k = Some (d, t)) as Hloose.
  { intros t Hu. exists Null. apply (links_loose _ _ _ _ _ Hl k t); [by exists i, r|done]. }
  destruct r as [m|m|shift used]; [|by apply Hloose|].
  - destruct (decide (k = i)); [by apply (Hlist Free)|apply Hloose; cbn; split; [lia|done]].
  - destruct (valid_slot min_shift shift ltac:(apply Hr)) as [Hvh Hht]. rewrite <- Hht.
    destruct (decide (used = all_used shift)) as [-> |]; [rewrite Hht; by apply Hloose|]. apply Hlist; [done|by apply slot_listed|cbn in Hk; lia].
Qed.

(** An address in page [k] is freed by the branch of the type of the page. *)
Lemma free_locked_run s g i r k off slab : pool_ok s g -> g !! i = Some r -> i <= k < i + pages_of r -> 0 <= off < ngx_pagesize -> slabs s !! Page k = Some slab ->
  ngx_slab_free_locked start pool_end min_shift (page_addr k + off) s =
  match r with
  | RSlab shift _ => if shift <? 6 then free_small min_shift k (page_addr k + off) slab
                     else if shift =? 6 then free_exact min_shift k (page_addr k + off) slab else free_big min_shift k (page_addr k + off) slab
  | _ => free_page k (page_addr k + off) slab
  end s.
Proof.
  intros Hs Hi Hk Ho Hsl. destruct (region_type s g i r k Hs Hi Hk) as [d Hd]. destruct (layout_ok _ _ g (pool_layout _ _ _ _ Hs) _ _ Hi) as (_ & H1 & H2).
  pose proof (geo_end _ _ _ _ geo) as He. unfold ngx_slab_free_locked. rewrite page_index by done.
  destruct (Z.ltb_spec (page_addr k + off) start); [unfold NgxSlabChunks.page_addr, ngx_pagesize in *; lia|].
  destruct (Z.ltb_spec pool_end (page_addr k + off)); [unfold NgxSlabChunks.page_addr, ngx_pagesize in *; nia|]. cbn [orb].
  erewrite mthen_run by (by apply get_slab_run). erewrite mthen_run by (by apply get_prev_run). cbn [snd].
  destruct r as [| |shift used]; [done..|]. rewrite kind_eq. by destruct (shift <? 6); [|destruct (shift =? 6)].
Qed.

Lemma slab_page_free_run s g i shift used off : pool_ok s g -> g !! i = Some (RSlab shift used) -> 0 <= off < ngx_pagesize ->
  free_spec N min_shift g i shift used off (ngx_slab_free_locked start pool_end min_shift (page_addr i + off)) s.
Proof.
  intros Hs Hi Ho. pose proof (geo_pages _ _ _ _ geo) as HN. pose proof (geo_shift _ _ _ _ geo) as Hm. pose proof (geo_aligned _ _ _ _ geo) as Ha.
  pose proof (pool_contents _ _ _ _ Hs _ _ Hi) as Hc. cbn [contents_of] in Hc.
  assert (i <= i < i + pages_of (RSlab shift used)) as Hii by (cbn; lia).
  pose proof (fun slab => free_locked_run s g i (RSlab shift used) i off slab Hs Hi Hii Ho) as Hrun. cbn beta iota in Hrun.
  unfold free_spec. destruct (Z.ltb_spec shift 6); [|destruct (Z.eqb_spec shift 6) as [-> |]].
  - destruct (proj1 (page_map_small s i shift used ltac:(lia)) Hc) as [Hsl _]. rewrite (Hrun _ Hsl). by apply free_small_run.
  - rewrite page_map_exact in Hc. rewrite (Hrun _ Hc). by apply free_exact_run.
  - apply page_map_big in Hc; [|lia]. rewrite (Hrun _ Hc). apply free_big_run; try done. lia.
Qed.

Lemma busy_slab n : 1 <= n < 2 ^ 52 -> Z.lor n NGX_SLAB_PAGE_START <> NGX_SLAB_PAGE_FREE /\ Z.lor n NGX_SLAB_PAGE_START <> NGX_SLAB_PAGE_BUSY /\
  Z.land (Z.lor n NGX_SLAB_PAGE_START) (NGX_SLAB_PAGE_START - 1) = n.
Proof.
  intros Hn. change NGX_SLAB_PAGE_START with (2 ^ 63). split_and!.
  - intros E. apply Z.lor_eq_0_iff in E. lia.
  - intros E. apply (f_equal (fun z => Z.testbit z 60)) in E. rewrite set_bit_bit, (bits_above n 52), bool_decide_false in E by lia. by vm_compute in E.
  - rewrite <- ones_below by lia. apply Z.bits_inj'. intros b Hb. rewrite Z.land_spec, set_bit_bit, ones_bit by lia. destruct (decide (b < 63)).
    + rewrite (bool_decide_false (b = _)), bool_decide_true by lia. by rewrite orb_false_r, andb_true_r.
    + rewrite (bool_decide_false (0 <= b < 63)), andb_false_r by lia. symmetry. apply (bits_above _ 52); lia.
Qed.

Lemma slab_free_run s g a n : pool_ok s g -> block g a n ->
  exists s' g', ngx_slab_free_locked start pool_end min_shift a s = Some (Freed, s') /\ pool_ok s' g' /\ shrunk g g' a.
Proof.
  intros Hs (i & r & Hi & Hb). pose proof Hs as [Hg Hl Hc]. pose proof (geo_pages _ _ _ _ geo) as HN. pose proof (geo_shift _ _ _ _ geo) as Hm.
  destruct r as [m|m|shift used]; [done| |].
  - destruct Hb as [-> _]. destruct (Hc _ _ Hi) as [Hsl _]. destruct (layout_ok _ _ g Hg _ _ Hi) as (Hr & Hi0 & HiN). cbn in Hr, HiN.
    pose proof (free_locked_run s g i (RBusy m) i 0 _ Hs Hi ltac:(cbn; lia) ltac:(done) Hsl) as Hfree. unfold free_page in Hfree.
    rewrite page_offset, Z.add_0_r in Hfree by (done || apply (geo_aligned _ _ _ _ geo)). rewrite Hfree. clear Hfree.
    destruct (busy_slab m ltac:(lia)) as (H1 & H2 & H3). cbn [Z.eqb negb]. destruct (Z.eqb_spec (Z.lor m NGX_SLAB_PAGE_START) NGX_SLAB_PAGE_FREE); [done|].
    destruct (Z.eqb_spec (Z.lor m NGX_SLAB_PAGE_START) NGX_SLAB_PAGE_BUSY); [done|]. rewrite H3.
    destruct (free_pages_run N min_shift HN s g i (RBusy m) ltac:(lia) Hs Hi) as (s' & Hrun & Hok & _). exists s', (<[i := RFree m]> g).
    split_and!; [by erewrite mthen_run by exact Hrun|done|]. intros a' n'. rewrite block_insert, (block_split g i (RBusy m)) by done. cbn. split; [|naive_solver].
    intros [[]|Hoth]. split; [by right|]. intros ->. destruct Hoth as (j & x & Hne & Hj & Hbx).
    assert (block_of i (RBusy m) (page_addr i) (m * ngx_pagesize)) as Hbi by done.
    destruct (block_range g j x _ n' Hg Hj Hbx) as (H4 & H5 & H6). unfold NgxSlabChunks.page_addr, ngx_pagesize in *.
    destruct (decide (i < j)); [pose proof (layout_disjoint _ _ g Hg i j _ x Hi Hj)|pose proof (layout_disjoint _ _ g Hg j i x _ Hj Hi)]; cbn in *; lia.
  - destruct Hb as (_ & b & Hb & Hbit & ->). pose proof (region_shift g _ _ _ Hg Hi) as Hsh. assert (0 < 2 ^ shift) by (apply Z.pow_pos_nonneg; lia).
    pose proof (chunks_size shift Hsh) as Hcs. destruct (reserved_bounds shift Hsh) as (Hres & _).
    pose proof (slab_page_free_run s g i shift used (b * 2 ^ shift) Hs Hi ltac:(nia)) as Hspec. unfold free_spec in Hspec. cbn zeta in Hspec.
    rewrite Z.mod_mul, Z.div_mul in Hspec by lia. fold (chunk_addr i shift b) in Hspec. destruct Hspec as [[? _]|[(_ & Hx & _)|(_ & _ & Hf)]]; [done|congruence|].
    destruct (Hf ltac:(lia)) as (s' & Hrun & Hok). exists s', (<[i := freed_region shift (cleared used b)]> g). split_and!; [exact Hrun|done|]. by apply clear_shrunk.
Qed.

(** ** Wrong addresses *)

(** The map of a page takes the first chunks of the page. *)
Definition map_chunk (g : regions) (a : Z) : Prop := exists i shift used b, g !! i = Some (RSlab shift used) /\ 0 <= b < reserved shift /\ a = chunk_addr i shift b.
Definition run_start (g : regions) (a : Z) : Prop := exists i m, g !! i = Some (RFree m) /\ a = page_addr i.

Lemma slab_free_wrong_run s g a : pool_ok s g -> a < start \/ pool_end < a \/ start <= a < start + N * ngx_pagesize ->
  (forall n, ~ block g a n) -> ~ map_chunk g a -> ~ run_start g a ->
  exists e, e <> Freed /\ ngx_slab_free_locked start pool_end min_shift a s = Some (e, s).
Proof.
  intros Hs Ha Hnb Hnm Hnr. pose proof Hs as [Hg Hl Hc]. assert ((a < start \/ pool_end < a) \/ start <= a < start + N * ngx_pagesize) as [Hout|Hin] by tauto.
  { exists Outside_pool. split; [done|]. unfold ngx_slab_free_locked. destruct (Z.ltb_spec a start), (Z.ltb_spec pool_end a); done || lia. }
  set (k := (a - start) / ngx_pagesize). set (off := (a - start) mod ngx_pagesize).
  assert (a = page_addr k + off) as Ea by (unfold NgxSlabChunks.page_addr, k, off; pose proof (Z.div_mod (a - start) ngx_pagesize ltac:(done)); lia).
  assert (0 <= off < ngx_pagesize) as Ho by (by apply Z.mod_pos_bound).
  assert (0 <= k < N) as Hk by (unfold NgxSlabChunks.page_addr, ngx_pagesize in *; lia).
  clearbody k off. destruct (layout_cover _ _ g Hg k Hk) as (i & r & Hi & Hik). pose proof (Hc _ _ Hi) as Hci.
  assert (forall slab, slabs s !! Page k = Some slab -> off <> 0 -> free_page k (page_addr k + off) slab s = Some (Wrong_chunk, s)) as Hwrong.
  { intros slab _ Hoff. unfold free_page. rewrite page_offset by (done || apply (geo_aligned _ _ _ _ geo)). by destruct (Z.eqb_spec off 0). }
  rewrite Ea in *. destruct r as [m|m|shift used].
  - destruct (contents_some N min_shift s g k Hg Hc Hk) as [slab Hsl]. rewrite (free_locked_run s g i (RFree m) k off slab) by done.
    destruct (decide (off = 0)) as [E|E]; [|exists Wrong_chunk; split; [done|by apply Hwrong]]. destruct (decide (k = i)) as [-> |].
    { destruct Hnr. exists i, m. split; [done|]. lia. }
    destruct Hci as [_ Hci]. cbn in Hik. rewrite Hci in Hsl by lia. simplify_eq. exists Page_already_free. split; [done|]. unfold free_page.
    rewrite page_offset by (done || apply (geo_aligned _ _ _ _ geo)). done.
  - destruct (contents_some N min_shift s g k Hg Hc Hk) as [slab Hsl]. rewrite (free_locked_run s g i (RBusy m) k off slab) by done.
    destruct (decide (off = 0)) as [E|E]; [|exists Wrong_chunk; split; [done|by apply Hwrong]]. destruct (decide (k = i)) as [-> |].
    { destruct (Hnb (m * ngx_pagesize)). exists i, (RBusy m). split; [done|]. cbn. split; [lia|done]. }
    destruct Hci as [_ Hci]. cbn in Hik. rewrite Hci in Hsl by lia. simplify_eq. exists Wrong_page. split; [done|]. unfold free_page.
    rewrite page_offset by (done || apply (geo_aligned _ _ _ _ geo)). done.
  - cbn in Hik. assert (k = i) as -> by lia. pose proof (region_shift g _ _ _ Hg Hi) as Hsh.
    destruct (slab_page_free_run s g i shift used off Hs Hi Ho) as [[_ Hx]|[(_ & _ & Hx)|(E & Hbit & _)]]; [by exists Wrong_chunk|by exists Already_free|].
    pose proof (chunk_index shift off Hsh Ho) as Hb. assert (page_addr i + off = chunk_addr i shift (off / 2 ^ shift)) as Eo.
    { unfold NgxSlabChunks.chunk_addr. pose proof (Z.div_mod off (2 ^ shift) ltac:(apply Z.pow_nonzero; lia)). lia. }
    destruct (decide (reserved shift <= off / 2 ^ shift)).
    + destruct (Hnb (2 ^ shift)). exists i, (RSlab shift used). split; [done|]. split; [done|]. exists (off / 2 ^ shift). split_and!; [lia|lia|done|done].
    + destruct Hnm. exists i, shift, used, (off / 2 ^ shift). split_and!; [done|lia|lia|done].
Qed.
End pool.

(** * A new pool *)

Lemma fields_lookup {A} (f : Z -> desc) (v : Z -> A) n k : (forall i j, f i = f j -> i = j) -> 0 <= k < n -> fields f v n !! f k = Some (v k).
Proof.
  intros Hf Hk. unfold fields. apply elem_of_list_to_map.
  - rewrite <- list_fmap_compose. apply NoDup_fmap; [intros i j; cbn; apply Hf|apply NoDup_seqZ].
  - apply list_elem_of_fmap. exists k. split; [done|]. apply elem_of_seqZ. lia.
Qed.

Lemma fields_none {A} (f : Z -> desc) (v : Z -> A) n d : (forall i, f i <> d) -> fields f v n !! d = None.
Proof.
  intros Hf. unfold fields. apply not_elem_of_list_to_map. rewrite <- list_fmap_compose. intros (i & -> & _)%list_elem_of_fmap. by apply (Hf i).
Qed.

Lemma slot_field {A} (v w : Z -> A) n m k : 0 <= k < n -> (fields Slot v n ∪ fields Page w m) !! Slot k = Some (v k).
Proof. intros Hk. apply lookup_union_Some_l. apply fields_lookup; [by intros i j [=]|done]. Qed.

Lemma page_field {A} (v w : Z -> A) n m k : 0 <= k < m -> (fields Slot v n ∪ fields Page w m) !! Page k = Some (w k).
Proof. intros Hk. rewrite lookup_union_r by (by apply fields_none). apply fields_lookup; [by intros i j [=]|done]. Qed.

Lemma align_page p : 0 <= p -> let a := ngx_align_ptr p ngx_pagesize in a mod ngx_pagesize = 0 /\ p <= a < p + ngx_pagesize.
Proof.
  intros Hp. cbn zeta. rewrite (align_pow2 p 12 ltac:(lia) : ngx_align_ptr p ngx_pagesize = _). change ngx_pagesize with 4096. change (2 ^ 12) with 4096.
  pose proof (Z.mod_pos_bound (p + (4096 - 1)) 4096 ltac:(lia)). split; [|lia]. rewrite Zminus_mod, Zmod_mod. by rewrite Z.sub_diag.
Qed.

(** The pool [ngx_slab_init] makes of the memory from [first] to [pool_end]. *)
Lemma slab_init_run first pool_end min_shift pool start N :
  3 <= min_shift <= 11 -> 0 <= first -> first + 3 * ngx_pagesize <= pool_end < 2 ^ 63 ->
  ngx_slab_init first pool_end min_shift = (pool, start, N) ->
  geometry start pool_end N min_shift /\ first <= start /\ 1 <= N /\ pool_ok N min_shift pool {[0 := RFree N]}.
Proof.
  unfold ngx_pagesize. intros Hm Hf He. unfold ngx_slab_init, ngx_pagesize_shift, PAGE_T_SIZE. set (n := 12 - min_shift) in *.
  change (ngx_pagesize + 24) with 4120. set (pages := (pool_end - first) / 4120).
  assert (3 <= pages + 1 /\ 4120 * pages <= pool_end - first) as [Hp1 Hp2].
  { unfold pages. pose proof (Z.div_mod (pool_end - first) 4120 ltac:(lia)). pose proof (Z.mod_pos_bound (pool_end - first) 4120 ltac:(lia)). lia. }
  destruct (align_page (first + n * 24 + pages * 24) ltac:(lia)) as [Ha1 Ha2]. set (st := ngx_align_ptr _ _) in *. unfold ngx_pagesize in *.
  assert (1 <= (pool_end - st) / 4096 /\ 4096 * ((pool_end - st) / 4096) <= pool_end - st) as [Hq1 Hq2].
  { pose proof (Z.div_mod (pool_end - st) 4096 ltac:(lia)). pose proof (Z.mod_pos_bound (pool_end - st) 4096 ltac:(lia)). lia. }
  set (q := (pool_end - st) / 4096) in *. set (count := if 0 <? pages - q then pages - (pages - q) else pages).
  assert (1 <= count <= pages /\ count <= q) as [Hc1 Hc2] by (unfold count; destruct (Z.ltb_spec 0 (pages - q)); lia). clearbody count q st pages.
  intros [= <- <- <-]. split_and!; [|lia|lia|].
  { split; [lia|done|done|unfold ngx_pagesize; lia]. }
  set (pool := mk_pool _ _ _ _).
  assert (forall k, 0 < k < pages -> slabs pool !! Page k = Some 0 /\ nexts pool !! Page k = Some Null /\ prevs pool !! Page k = Some (Null, 0)) as Hpage.
  { intros k Hk. cbn. rewrite !lookup_insert_ne, !page_field by (lia || congruence || (intros [=]; lia)). done. }
  assert (slabs pool !! Page 0 = Some count /\ nexts pool !! Page 0 = Some Free /\ prevs pool !! Page 0 = Some (Free, 0)) as (H01 & H02 & H03).
  { cbn. rewrite !(lookup_insert_ne _ Free), !lookup_insert_eq by done. done. }
  split.
  - split.
    + intros i r [<- <-]%lookup_singleton_Some. cbn. lia.
    + intros i j r r' [<- <-]%lookup_singleton_Some [<- <-]%lookup_singleton_Some. lia.
    + intros k Hk. exists 0, (RFree count). rewrite lookup_singleton_eq. cbn. split; [done|lia].
  - split.
    + intros [| |k|] Hh; [done| | |done].
      * split; [done|]. split; [cbn; rewrite lookup_insert_eq; done|]. exists [0]. split_and!; [apply NoDup_singleton|cbn [seg]; split_and!; [cbn; by rewrite lookup_insert_eq|done|done]|].
        intros i. rewrite list_elem_of_singleton. split; [intros ->; exists (RFree count); by rewrite lookup_singleton_eq|]. by intros (r & [<- _]%lookup_singleton_Some & _).
      * split; [done|]. assert (0 <= k < n) as Hk by done. split; [cbn; rewrite !lookup_insert_ne, slot_field by done; done|]. exists [].
        split_and!; [apply NoDup_nil_2|cbn; rewrite !lookup_insert_ne, slot_field by done; done|].
        intros i. split; [by intros ?%elem_of_nil|]. by intros (r & [<- <-]%lookup_singleton_Some & Hl).
    + intros k t (i & r & [<- <-]%lookup_singleton_Some & Hk & Hu) _. cbn in Hk. destruct Hu as [Hu ->]. apply Hpage. lia.
    + intros k Hk. destruct (decide (k = 0)) as [-> |]; [rewrite H02, H03; done|]. destruct (Hpage k ltac:(lia)) as (_ & -> & ->). done.
  - intros i r [<- <-]%lookup_singleton_Some. cbn [contents_of]. split; [done|]. intros k Hk. apply Hpage. lia.
Qed.

(** * Histories of a pool *)

Section history.
Context (first pool_end min_shift start N : Z) (pool : slab_pool).
Context (shift_range : 3 <= min_shift <= 11) (first_pos : 0 <= first) (pool_size : first + 3 * ngx_pagesize <= pool_end < 2 ^ 63).
Context (pool_init : ngx_slab_init first pool_end min_shift = (pool, start, N)).

(** The pool after calls with the mutex held.  [live] has the blocks that have been
    allocated and not freed since, with the sizes asked for; only those are freed. *)
Inductive history : slab_pool -> gmap Z Z -> Prop :=
| history_init : history pool ∅
| history_alloc s live size a s' :
    history s live -> 0 <= size <= 2 ^ 64 - ngx_pagesize -> ngx_slab_alloc_locked start min_shift size s = Some (Some a, s') ->
    history s' (<[a := size]> live)
| history_no_memory s live size s' :
    history s live -> 0 <= size <= 2 ^ 64 - ngx_pagesize -> ngx_slab_alloc_locked start min_shift size s = Some (None, s') -> history s' live
| history_free s live a e s' :
    history s live -> is_Some (live !! a) -> ngx_slab_free_locked start pool_end min_shift a s = Some (e, s') -> history s' (delete a live).

(** The blocks of the regions are those of [live]. *)
Record tracks (g : regions) (live : gmap Z Z) : Prop := {
  tracks_block : forall a m, live !! a = Some m -> exists n, block start g a n /\ m <= n;
  tracks_live : forall a n, block start g a n -> is_Some (live !! a);
}.

Lemma init_geometry : geometry start pool_end N min_shift.
Proof. by apply (slab_init_run first pool_end min_shift pool start N). Qed.

Lemma tracks_grown g g' live a n size : tracks g live -> grown start g g' a n -> size <= n -> tracks g' (<[a := size]> live).
Proof.
  intros [Hb Hl] [_ Hg] Hn. split.
  - intros a' m [[<- <-]|[Hne Hm]]%lookup_insert_Some; [exists n; split; [apply Hg; by right|done]|].
    destruct (Hb a' m Hm) as (n' & Hn' & ?). exists n'. split; [apply Hg; by left|done].
  - intros a' n' [Hb'|[-> ->]]%Hg; [|by rewrite lookup_insert_eq]. destruct (decide (a = a')) as [-> |]; [by rewrite lookup_insert_eq|].
    rewrite lookup_insert_ne by done. by eapply Hl.
Qed.

Lemma tracks_shrunk g g' live a : tracks g live -> shrunk start g g' a -> tracks g' (delete a live).
Proof.
  intros [Hb Hl] Hg. split.
  - intros a' m [Hne Hm]%lookup_delete_Some. destruct (Hb a' m Hm) as (n' & Hn' & ?). exists n'. split; [by apply Hg|done].
  - intros a' n' [Hb' Hne]%Hg. rewrite lookup_delete_ne by done. by eapply Hl.
Qed.

Lemma history_ok s live : history s live -> exists g, pool_ok N min_shift s g /\ tracks g live.
Proof.
  pose proof init_geometry as geo. induction 1 as [|s live size a s' _ (g & Hok & Ht) Hsize Hrun|s live size s' _ (g & Hok & Ht) Hsize Hrun|s live a e s' _ (g & Hok & Ht) Ha Hrun].
  - destruct (slab_init_run first pool_end min_shift pool start N) as (_ & _ & _ & Hok); [done..|]. exists {[0 := RFree N]}. split; [done|]. split.
    + intros a m. by rewrite lookup_empty.
    + by intros a n (i & r & [<- <-]%lookup_singleton_Some & Hb).
  - destruct (slab_alloc_run start pool_end N min_shift geo s g size Hok Hsize) as [(s1 & a1 & Hrun1 & g1 & n & Hok1 & Hn & Hg)|[Hrun1 _]]; [|congruence].
    assert (a1 = a /\ s1 = s') as [-> ->] by (split; congruence). exists g1. split; [done|]. by eapply tracks_grown.
  - destruct (slab_alloc_run start pool_end N min_shift geo s g size Hok Hsize) as [(s1 & a1 & Hrun1 & _)|[Hrun1 _]]; [congruence|].
    exists g. assert (s' = s) as -> by congruence. done.
  - destruct Ha as [m Hm]. destruct (tracks_block _ _ Ht a m Hm) as (n & Hn & _).
    destruct (slab_free_run start pool_end N min_shift geo s g a n Hok Hn) as (s1 & g1 & Hrun1 & Hok1 & Hg). exists g1.
    assert (s1 = s') as <- by congruence. split; [done|]. by eapply tracks_shrunk.
Qed.


Lemma history_blocks s live : history s live ->
  (forall a m, live !! a = Some m -> start <= a /\ a + m <= pool_end) /\
  (forall a m a' m', live !! a = Some m -> live !! a' = Some m' -> a <> a' -> a + m <= a' \/ a' + m' <= a).
Proof.
  intros (g & Hok & Ht)%history_ok. pose proof init_geometry as geo. pose proof (pool_layout _ _ _ _ Hok) as Hg. split.
  - intros a m Ha. destruct (tracks_block _ _ Ht a m Ha) as (n & Hb & Hn). destruct (block_in_pool start pool_end N min_shift geo g a n Hg Hb) as (? & ? & _).
    pose proof (geo_end _ _ _ _ geo). lia.
  - intros a m a' m' Ha Ha' Hne. destruct (tracks_block _ _ Ht a m Ha) as (n & Hb & Hn). destruct (tracks_block _ _ Ht a' m' Ha') as (n' & Hb' & Hn').
    destruct (blocks_disjoint start pool_end N min_shift geo g a n a' n' Hg Hb Hb') as [[? _]|?]; [done|lia].
Qed.

(** What a client of the allocator sees after any history. *)
Lemma history_alloc_run s live size : history s live -> 0 <= size <= 2 ^ 64 - ngx_pagesize ->
  exists r s', ngx_slab_alloc_locked start min_shift size s = Some (r, s') /\
    match r with
    | Some a => start <= a /\ a + size <= pool_end /\ live !! a = None /\ forall a' m, live !! a' = Some m -> a + size <= a' \/ a' + m <= a
    | None => s' = s
    end.
Proof.
  intros (g & Hok & Ht)%history_ok Hsize. pose proof init_geometry as geo.
  destruct (slab_alloc_run start pool_end N min_shift geo s g size Hok Hsize) as [(s' & a & Hrun & g' & n & Hok' & Hn & Hno & Hg)|[Hrun _]]; [|by exists None, s].
  exists (Some a), s'. split; [done|]. pose proof (pool_layout _ _ _ _ Hok') as Hlay. assert (block start g' a n) as Hb by (apply Hg; by right).
  destruct (block_in_pool start pool_end N min_shift geo g' a n Hlay Hb) as (H1 & H2 & H3). pose proof (geo_end _ _ _ _ geo).
  assert (forall a' m, live !! a' = Some m -> exists n', m <= n' /\ 0 < n' /\ (a + n <= a' \/ a' + n' <= a)) as Hdis.
  { intros a' m Hm. destruct (tracks_block _ _ Ht a' m Hm) as (n' & Hn' & Hmn). assert (block start g' a' n') as Hb' by (apply Hg; by left).
    destruct (block_in_pool start pool_end N min_shift geo g' a' n' Hlay Hb') as (_ & _ & ?). exists n'. split_and!; [done|done|].
    destruct (blocks_disjoint start pool_end N min_shift geo g' a n a' n' Hlay Hb Hb') as [[-> ->]|?]; [done|done]. }
  split_and!; [done|lia| |].
  - destruct (live !! a) as [m|] eqn:E; [|done]. destruct (Hdis a m E) as (n' & ? & ? & ?). lia.
  - intros a' m Hm. destruct (Hdis a' m Hm) as (n' & ? & ? & ?). lia.
Qed.

Lemma history_free_run s live a : history s live -> is_Some (live !! a) -> exists s', ngx_slab_free_locked start pool_end min_shift a s = Some (Freed, s').
Proof.
  intros (g & Hok & Ht)%history_ok [m Hm]. destruct (tracks_block _ _ Ht a m Hm) as (n & Hn & _).
  destruct (slab_free_run start pool_end N min_shift init_geometry s g a n Hok Hn) as (s' & _ & Hrun & _). by exists s'.
Qed.
End history.

(** * Theorems *)

(** C3: the allocator implements the abstract pool of blocks.  The blocks of a pool are
    the regions and chunks in use; no two of them overlap.  An allocation adds one block,
    of at least the size asked for and in the pool, or changes nothing and returns [NULL]
    when no run of free pages is long enough and every page of that chunk size is full;
    freeing a block removes exactly that block.  The page and chunk structure is kept. *)
Theorem slab_refines start pool_end N min_shift s g :
  geometry start pool_end N min_shift -> pool_ok N min_shift s g ->
  (forall a n a' n', block start g a n -> block start g a' n' -> (a = a' /\ n = n') \/ a + n <= a' \/ a' + n' <= a) /\
  (forall size, 0 <= size <= 2 ^ 64 - ngx_pagesize ->
    (exists s' a g' n, ngx_slab_alloc_locked start min_shift size s = Some (Some a, s') /\ pool_ok N min_shift s' g' /\
       size <= n /\ start <= a /\ a + n <= pool_end /\ grown start g g' a n) \/
    (ngx_slab_alloc_locked start min_shift size s = Some (None, s) /\ no_room min_shift g size)) /\
  (forall a n, block start g a n ->
    exists s' g', ngx_slab_free_locked start pool_end min_shift a s = Some (Freed, s') /\ pool_ok N min_shift s' g' /\ shrunk start g g' a).
Proof.
  intros geo Hok. split_and!.
  - intros a n a' n'. apply (blocks_disjoint start pool_end N min_shift geo). apply Hok.
  - intros size Hsize. destruct (slab_alloc_run start pool_end N min_shift geo s g size Hok Hsize) as [(s' & a & Hrun & g' & n & Hok' & Hn & Hg)|?]; [left|by right].
    destruct (block_in_pool start pool_end N min_shift geo g' a n) as (H1 & H2 & _); [apply Hok'|apply Hg; by right|].
    pose proof (geo_end _ _ _ _ geo). exists s', a, g', n. split_and!; try done. lia.
  - intros a n Hb. by apply (slab_free_run start pool_end N min_shift geo s g a n).
Qed.

(** C4: in every history of a new pool, the blocks in use lie in the pool and do not
    overlap; every further allocation returns, a fresh block that overlaps none of them
    or [NULL] with the pool unchanged; and every block in use can be freed. *)
Theorem slab_safe first pool_end min_shift start N pool s live :
  3 <= min_shift <= 11 -> 0 <= first -> first + 3 * ngx_pagesize <= pool_end < 2 ^ 63 ->
  ngx_slab_init first pool_end min_shift = (pool, start, N) -> history pool_end min_shift start pool s live ->
  first <= start /\
  (forall a m, live !! a = Some m -> start <= a /\ a + m <= pool_end) /\
  (forall a m a' m', live !! a = Some m -> live !! a' = Some m' -> a <> a' -> a + m <= a' \/ a' + m' <= a) /\
  (forall size, 0 <= size <= 2 ^ 64 - ngx_pagesize ->
    exists r s', ngx_slab_alloc_locked start min_shift size s = Some (r, s') /\
      match r with
      | Some a => start <= a /\ a + size <= pool_end /\ live !! a = None /\ forall a' m, live !! a' = Some m -> a + size <= a' \/ a' + m <= a
      | None => s' = s
      end) /\
  (forall a, is_Some (live !! a) -> exists s', ngx_slab_free_locked start pool_end min_shift a s = Some (Freed, s')).
Proof.
  intros Hm Hf He Hinit Hh. destruct (slab_init_run first pool_end min_shift pool start N) as (_ & Hst & _ & _); [done..|].
  destruct (history_blocks first pool_end min_shift start N pool Hm Hf He Hinit s live Hh) as [Hin Hdis]. split_and!; [done|done|done| |].
  - intros size Hsize. by apply (history_alloc_run first pool_end min_shift start N pool).
  - intros a Ha. by apply (history_free_run first pool_end min_shift start N pool Hm Hf He Hinit s live).
Qed.

(** C37: an address that is no block in use is refused with one of the four errors, or as
    outside of the pool, and the pool does not change.  Three kinds of address are
    excepted: the chunks that hold the map of a page and the first page of a free run,
    which the code takes for blocks in use, and the addresses from the end of the last
    page up to [pool->end] inclusive, which pass the test against the ends of the pool
    and make the code read a page descriptor after the last one
    ([slab_end_accepted]). *)
Theorem slab_free_wrong start pool_end N min_shift s g a :
  geometry start pool_end N min_shift -> pool_ok N min_shift s g -> a < start \/ pool_end < a \/ start <= a < start + N * ngx_pagesize ->
  (forall n, ~ block start g a n) -> ~ map_chunk start g a -> ~ run_start start g a ->
  exists e, e <> Freed /\ ngx_slab_free_locked start pool_end min_shift a s = Some (e, s).
Proof. intros geo. by apply (slab_free_wrong_run start pool_end N min_shift geo). Qed.

(** ** A small pool *)

Definition demo_first : Z := 65736.
Definition demo_end : Z := 90112.
Definition demo_pool : slab_pool := (ngx_slab_init demo_first demo_end 3).1.1.
Definition demo_start : Z := 69632.
Definition demo_alloc := ngx_slab_alloc_locked demo_start 3.
Definition demo_free := ngx_slab_free_locked demo_start demo_end 3.

(** The pool after [f]. *)
Definition demo_after {A} (f : MS A) (s : slab_pool) : slab_pool := match f s with Some (_, s') => s' | None => s end.

Lemma demo_init : ngx_slab_init demo_first demo_end 3 = (demo_pool, demo_start, 5).
Proof. vm_compute. reflexivity. Qed.

Lemma demo_ok : geometry demo_start demo_end 5 3 /\ pool_ok 5 3 demo_pool {[0 := RFree 5]}.
Proof.
  destruct (slab_init_run demo_first demo_end 3 demo_pool demo_start 5) as (H1 & _ & _ & H2); [lia|done|done|exact demo_init|done].
Qed.

Lemma slab_refines_witness :
  (exists s' a g' n, demo_alloc 100 demo_pool = Some (Some a, s') /\ pool_ok 5 3 s' g' /\ 100 <= n /\ demo_start <= a /\ a + n <= demo_end /\ grown demo_start {[0 := RFree 5]} g' a n) \/
  (demo_alloc 100 demo_pool = Some (None, demo_pool) /\ no_room 3 {[0 := RFree 5]} 100).
Proof.
  destruct (slab_refines demo_start demo_end 5 3 demo_pool {[0 := RFree 5]} (proj1 demo_ok) (proj2 demo_ok)) as (_ & H & _).
  apply (H 100). split; vm_compute; discriminate.
Defined.

Definition demo_state : slab_pool := demo_after (demo_alloc 8192) (demo_after (demo_alloc 100) demo_pool).

Lemma demo_history : history demo_end 3 demo_start demo_pool demo_state {[73728 := 8192; 69632 := 100]}.
Proof.
  apply (history_alloc _ _ _ _ (demo_after (demo_alloc 100) demo_pool) {[69632 := 100]} 8192 73728); [|unfold ngx_pagesize; lia|vm_compute; reflexivity].
  apply (history_alloc _ _ _ _ demo_pool ∅ 100 69632); [apply history_init|unfold ngx_pagesize; lia|vm_compute; reflexivity].
Qed.

Lemma slab_safe_witness : exists s', demo_free 73728 demo_state = Some (Freed, s').
Proof.
  destruct (slab_safe demo_first demo_end 3 demo_start 5 demo_pool demo_state {[73728 := 8192; 69632 := 100]}) as (_ & _ & _ & _ & H);
    [lia|done|done|exact demo_init|exact demo_history|].
  apply (H 73728). rewrite lookup_insert_eq. by eexists.
Defined.

(** The second page of a free run is no block. *)
Lemma slab_free_wrong_witness : exists e, e <> Freed /\ demo_free 73728 demo_pool = Some (e, demo_pool).
Proof.
  apply (slab_free_wrong demo_start demo_end 5 3 demo_pool {[0 := RFree 5]} 73728 (proj1 demo_ok) (proj2 demo_ok)).
  - right; right. unfold demo_start, ngx_pagesize. lia.
  - by intros n (i & r & [<- <-]%lookup_singleton_Some & Hb).
  - by intros (i & shift & used & b & [_ [=]]%lookup_singleton_Some & _).
  - intros (i & m & [<- _]%lookup_singleton_Some & H). by vm_compute in H.
Defined.

(** ** What the code does not detect *)

(** A size within [ngx_pagesize] of 2^64 wraps to no pages at all: the descriptors are
    then marked past the end of the array. *)
Theorem slab_size_wraps : demo_alloc (2 ^ 64 - 1) demo_pool = None.
Proof. vm_compute. reflexivity. Qed.

(** The pages of a block can be freed twice, and no error is reported. *)
Theorem slab_page_freed_twice :
  let s := demo_after (demo_alloc 4096) demo_pool in
  fst <$> demo_alloc 4096 demo_pool = Some (Some 69632) /\ fst <$> demo_free 69632 s = Some Freed /\
  fst <$> demo_free 69632 (demo_after (demo_free 69632) s) = Some Freed.
Proof. vm_compute. split_and!; reflexivity. Qed.

(** The chunk that holds the map of a page can be freed; it is then handed out. *)
Theorem slab_map_freed :
  let s := demo_after (demo_alloc 8) demo_pool in
  fst <$> demo_free 69632 s = Some Freed /\ fst <$> demo_alloc 8 (demo_after (demo_free 69632) s) = Some (Some 69632).
Proof. vm_compute. split_and!; reflexivity. Qed.

(** The address [pool->end] passes the test against the end of the pool: the descriptor
    after the last one is read. *)
Theorem slab_end_accepted : demo_free demo_end demo_pool = None.
Proof. vm_compute. reflexivity. Qed.
