(* ===== verification/NgxHttpLimitReq.v ===== *)
(** The request limits of src/http/modules/ngx_http_limit_req_module.c: a zone of shared
    memory holds a leaky bucket for each value of a variable, in a red-black tree ordered
    by checksum and value and in a queue ordered by use.

    The zone's state is the tree, the links of the queue, the nodes' own fields by
    address and the slab pool the nodes come from, which is seen through the interface
    [SlabPool].  The node at [p] has its link of the queue at [lr_queue p].  All of the
    handler but the timer runs under the mutex of the pool, so it is one step. *)

From stdpp Require Import sorting.
From S2P Require Import Prelude NgxStr NgxStore NgxRbtree NgxRbtreeDelete NgxRbtreeClient NgxQueue NgxCrc32.

Open Scope Z_scope.
Open Scope store_scope.

Definition NGX_HTTP_SERVICE_UNAVAILABLE : Z := 503.
Definition NGX_HTTP_INTERNAL_SERVER_ERROR : Z := 500.

(** * The slab pool

    What the module relies on: an allocated block overlaps none of those in use, and a
    freed block is no longer in use.  [slab_live] has the sizes asked for by address. *)
Class SlabPool (P : Type) := {
  slab_live : P -> gmap loc Z;
  ngx_slab_alloc_locked : Z -> P -> option loc * P;
  ngx_slab_free_locked : loc -> P -> P;
  slab_alloc_some : forall n pool p pool',
    ngx_slab_alloc_locked n pool = (Some p, pool') ->
    slab_live pool !! p = None /\ slab_live pool' = <[p := n]> (slab_live pool) /\
    forall q m, slab_live pool !! q = Some m -> p + n <= q \/ q + m <= p;
  slab_alloc_none : forall n pool pool', ngx_slab_alloc_locked n pool = (None, pool') -> slab_live pool' = slab_live pool;
  slab_free : forall p pool, is_Some (slab_live pool !! p) -> slab_live (ngx_slab_free_locked p pool) = base.delete p (slab_live pool);
}.

(** * The zone *)

(** The fields of a node besides those of the tree and the queue. *)
Record ngx_http_limit_req_node_t := mk_limit_node {
  lr_len : Z;
  lr_last : Z;
  lr_excess : Z;
  lr_data : list Z;
}.

#[export] Instance eta_limit_node : EtaRecord ngx_http_limit_req_node_t := fun n =>
  mk_limit_node (lr_len n) (lr_last n) (lr_excess n) (lr_data n).
#[export] Instance set_lr_last : FieldSetter lr_last := ltac:(field_setter).
#[export] Instance set_lr_excess : FieldSetter lr_excess := ltac:(field_setter).

Record limit_zone (P : Type) := mk_zone {
  zone_rbtree : ngx_rbtree_t;
  zone_queue : links;
  zone_nodes : gmap loc ngx_http_limit_req_node_t;
  zone_pool : P;
}.
Arguments mk_zone {P}.
Arguments zone_rbtree {P}.
Arguments zone_queue {P}.
Arguments zone_nodes {P}.
Arguments zone_pool {P}.

#[export] Program Instance zone_objects P : Objects (limit_zone P) ngx_http_limit_req_node_t := {
  objects := zone_nodes;
  set_objects h z := mk_zone (zone_rbtree z) (zone_queue z) h (zone_pool z);
}.
Next Obligation. done. Qed.

(** [offsetof(ngx_rbtree_node_t, color) + offsetof(ngx_http_limit_req_node_t, queue)] *)
Definition lr_queue (p : loc) : loc := p + 40.
Definition node_of_link (q : loc) : loc := q - 40.

(** [offsetof(ngx_rbtree_node_t, color) + offsetof(ngx_http_limit_req_node_t, data)] *)
Definition NODE_SIZE : Z := 72.

(** [ngx_http_limit_req_shctx_t]: the tree (24 bytes), its sentinel (40 bytes) and the
    head of the queue (16 bytes) in one block. *)
Definition sh_sentinel (sh : loc) : loc := sh + 24.
Definition sh_queue (sh : loc) : loc := sh + 64.
Definition SHCTX_SIZE : Z := 80.

(** The configuration: [ctx->rate], [lrcf->burst], [lrcf->nodelay]. *)
Record limit_conf := mk_limit_conf {
  conf_rate : Z;
  conf_burst : Z;
  conf_nodelay : bool;
}.

Section limit_req.
Context {P : Type} `{!SlabPool P} (sh : loc).

Abbreviation MZ := (M (limit_zone P)).
Abbreviation sentinel := (sh_sentinel sh).
Abbreviation head := (sh_queue sh).

Definition on_tree {A} (m : M ngx_rbtree_t A) : MZ A := fun z =>
  match m (zone_rbtree z) with
  | Some (x, t) => Some (x, mk_zone t (zone_queue z) (zone_nodes z) (zone_pool z))
  | None => None
  end.

Definition on_queue {A} (m : M links A) : MZ A := fun z =>
  match m (zone_queue z) with
  | Some (x, q) => Some (x, mk_zone (zone_rbtree z) q (zone_nodes z) (zone_pool z))
  | None => None
  end.

(** * The tree *)

(** The test of [ngx_http_limit_req_rbtree_insert_value]. *)
Definition limit_less (h : gmap loc ngx_http_limit_req_node_t) (n t : loc * Z) : bool :=
  if n.2 <? t.2 then true
  else if t.2 <? n.2 then false
  else
    match h !! n.1, h !! t.1 with
    | Some lrn, Some lrnt =>
        match ngx_memn2cmp (lr_data lrn) (lr_data lrnt) (Z.to_nat (lr_len lrn)) (Z.to_nat (lr_len lrnt)) with
        | Some m => m <? 0
        | None => false
        end
    | _, _ => false
    end.

Definition ngx_http_limit_req_rbtree_insert_value (h : gmap loc ngx_http_limit_req_node_t) : loc -> loc -> M ngx_rbtree_t unit :=
  insert_by sentinel (limit_less h).

(** The descent of [ngx_http_limit_req_lookup]. *)
Fixpoint lookup_loop (fuel : nat) (hash : Z) (data : list Z) (node : loc) : MZ (option loc) :=
  if node =? sentinel then mret None
  else match fuel with
  | O => mstuck
  | S fuel' =>
      n <-- on_tree (NgxStore.load node);
      if hash <? key n then lookup_loop fuel' hash data (left n)
      else if key n <? hash then lookup_loop fuel' hash data (right n)
      else
        lr <-- NgxStore.load node;
        match ngx_memn2cmp data (lr_data lr) (length data) (Z.to_nat (lr_len lr)) with
        | None => mstuck
        | Some rc =>
            if rc =? 0 then mret (Some node)
            else lookup_loop fuel' hash data (if rc <? 0 then left n else right n)
        end
  end.

(** [lr->excess - ctx->rate * ngx_abs(ms) / 1000], in unsigned arithmetic; [ms] is not
    negative. *)
Definition leaked (rate excess ms : Z) : Z := u64 (excess - u64 (rate * ms) / 1000).

(** The result and the excess that is stored in [*ep]. *)
Definition ngx_http_limit_req_lookup (conf : limit_conf) (now hash : Z) (data : list Z) : MZ (Z * Z) :=
  root <-- mget (fun z => root (zone_rbtree z));
  fuel <-- mget (fun z => size (nodes (zone_rbtree z)));
  found <-- lookup_loop fuel hash data root;
  match found with
  | None => mret (NGX_DECLINED, 0)
  | Some node =>
      on_queue (ngx_queue_remove (lr_queue node)) ;;
      on_queue (ngx_queue_insert_head head (lr_queue node)) ;;
      lr <-- NgxStore.load node;
      let ms := i64 (now - lr_last lr) in
      let excess := i64 (leaked (conf_rate conf) (lr_excess lr) (ngx_abs ms) + 1000) in
      let excess := if excess <? 0 then 0 else excess in
      if conf_burst conf <? excess then mret (NGX_BUSY, excess)
      else
        update node (fun lr : ngx_http_limit_req_node_t => lr <| lr_excess := excess |> <| lr_last := now |>) ;;
        mret (if negb (excess =? 0) then NGX_AGAIN else NGX_OK, excess)
  end.

(** * Expiry *)

(** [ngx_slab_free_locked]: the node is gone. *)
Definition free_node (p : loc) : MZ unit := mput (fun z =>
  mk_zone (mk_tree (root (zone_rbtree z)) (base.delete p (nodes (zone_rbtree z))))
    (mk_links (base.delete (lr_queue p) (nexts (zone_queue z))) (base.delete (lr_queue p) (prevs (zone_queue z))))
    (base.delete p (zone_nodes z)) (ngx_slab_free_locked p (zone_pool z))).

(** [fuel] is the number of turns left, [3 - n]. *)
Fixpoint expire_loop (fuel : nat) (conf : limit_conf) (now n : Z) : MZ unit :=
  match fuel with
  | O => mret tt
  | S fuel' =>
      empty <-- on_queue (ngx_queue_empty head);
      if empty : bool then mret tt
      else
        q <-- on_queue (ngx_queue_last head);
        lr <-- NgxStore.load (node_of_link q);
        let ms := ngx_abs (i64 (now - lr_last lr)) in
        if negb (n =? 0) && ((ms <? 60000) || (0 <? i64 (leaked (conf_rate conf) (lr_excess lr) ms))) then mret tt
        else
          on_queue (ngx_queue_remove q) ;;
          on_tree (ngx_rbtree_delete sentinel (node_of_link q)) ;;
          free_node (node_of_link q) ;;
          expire_loop fuel' conf now (n + 1)
  end.

Definition ngx_http_limit_req_expire (conf : limit_conf) (now n : Z) : MZ unit :=
  expire_loop (Z.to_nat (3 - n)) conf now n.

(** * The handler *)

(** A block for a node; what it holds before it is written is not specified. *)
Definition alloc_node (n : Z) : MZ (option loc) := fun z =>
  let '(p, pool) := ngx_slab_alloc_locked n (zone_pool z) in
  match p with
  | None => Some (None, mk_zone (zone_rbtree z) (zone_queue z) (zone_nodes z) pool)
  | Some p =>
      Some (Some p, mk_zone (mk_tree (root (zone_rbtree z)) (<[p := mk_node 0 0 0 0 0]> (nodes (zone_rbtree z))))
        (mk_links (<[lr_queue p := 0]> (nexts (zone_queue z))) (<[lr_queue p := 0]> (prevs (zone_queue z))))
        (<[p := mk_limit_node 0 0 0 []]> (zone_nodes z)) pool)
  end.

(** A new bucket; [lr->len = (u_char) len]. *)
Definition new_node (now hash : Z) (data : list Z) (node : loc) : MZ unit :=
  on_tree (put key node hash) ;;
  update node (fun _ : ngx_http_limit_req_node_t => mk_limit_node (u8 (Z.of_nat (length data))) now 0 data) ;;
  h <-- mget zone_nodes;
  on_tree (ngx_rbtree_insert sentinel (ngx_http_limit_req_rbtree_insert_value h) node) ;;
  on_queue (ngx_queue_insert_head head (lr_queue node)).

(** The part of the handler that holds the mutex: the result of the lookup, or of the
    insertion that follows it. *)
Definition limit_req_locked (conf : limit_conf) (now hash : Z) (data : list Z) : MZ (Z * Z) :=
  ngx_http_limit_req_expire conf now 1 ;;
  r <-- ngx_http_limit_req_lookup conf now hash data;
  let '(rc, excess) := r in
  if rc =? NGX_DECLINED then
    let n := NODE_SIZE + Z.of_nat (length data) in
    node <-- alloc_node n;
    match node with
    | Some node => new_node now hash data node ;; mret (NGX_DECLINED, 0)
    | None =>
        ngx_http_limit_req_expire conf now 0 ;;
        node <-- alloc_node n;
        match node with
        | Some node => new_node now hash data node ;; mret (NGX_DECLINED, 0)
        | None => mret (NGX_HTTP_SERVICE_UNAVAILABLE, 0)
        end
    end
  else mret (rc, excess).

(** [conf] is [None] when [lrcf->shm_zone == NULL]; [vv] is [None] when the variable has
    no value; [read_event] tells whether [ngx_handle_read_event] succeeds.  The result is
    the handler's, [r->main->limit_req_set] and the timer that is set; a division by a
    rate of 0 has none. *)
Definition ngx_http_limit_req_handler (conf : option limit_conf) (now : Z) (read_event limit_req_set : bool) (vv : option (list Z))
  : MZ (Z * bool * option Z) :=
  if limit_req_set then mret (NGX_DECLINED, limit_req_set, None)
  else match conf with
  | None => mret (NGX_DECLINED, limit_req_set, None)
  | Some conf =>
      match vv with
      | None => mret (NGX_DECLINED, limit_req_set, None)
      | Some data =>
          if (length data =? 0)%nat || (65535 <? Z.of_nat (length data)) then mret (NGX_DECLINED, limit_req_set, None)
          else
            match ngx_crc32_short data with
            | None => mstuck
            | Some hash =>
                r <-- limit_req_locked conf now hash data;
                let '(rc, excess) := r in
                if rc =? NGX_HTTP_SERVICE_UNAVAILABLE then mret (rc, true, None)
                else if (rc =? NGX_DECLINED) || (rc =? NGX_OK) then mret (NGX_DECLINED, true, None)
                else if rc =? NGX_BUSY then mret (NGX_HTTP_SERVICE_UNAVAILABLE, true, None)
                else if conf_nodelay conf then mret (NGX_DECLINED, true, None)
                else if negb read_event then mret (NGX_HTTP_INTERNAL_SERVER_ERROR, true, None)
                else if conf_rate conf =? 0 then mstuck
                else mret (NGX_AGAIN, true, Some (u64 (excess * 1000) / conf_rate conf))
            end
      end
  end.
End limit_req.

(** * A new zone *)

Section init_zone.
Context {P : Type} `{!SlabPool P}.

(** The block of [ctx->sh]; what it holds before it is written is not specified. *)
Definition alloc_shctx : M (limit_zone P) (option loc) := fun z =>
  let '(p, pool) := ngx_slab_alloc_locked SHCTX_SIZE (zone_pool z) in
  match p with
  | None => Some (None, mk_zone (zone_rbtree z) (zone_queue z) (zone_nodes z) pool)
  | Some sh =>
      Some (Some sh, mk_zone (mk_tree (root (zone_rbtree z)) (<[sh_sentinel sh := mk_node 0 0 0 0 0]> (nodes (zone_rbtree z))))
        (mk_links (<[sh_queue sh := 0]> (nexts (zone_queue z))) (<[sh_queue sh := 0]> (prevs (zone_queue z)))) (zone_nodes z) pool)
  end.

(** The block of the log context, which holds a text. *)
Definition alloc_text (n : Z) : M (limit_zone P) (option loc) := fun z =>
  let '(p, pool) := ngx_slab_alloc_locked n (zone_pool z) in
  Some (p, mk_zone (zone_rbtree z) (zone_queue z) (zone_nodes z) pool).

(** [octx] is the context of the previous configuration, its variable and its [sh];
    [data] is [shpool->data] when [shm.exists].  The result is the code with [ctx->sh]
    and [shpool->data].  The variables are words of the configuration, without a zero
    byte, so that [ngx_strcmp] compares them to their ends. *)
Definition ngx_http_limit_req_init_zone (var : list Z) (octx : option (list Z * loc)) (data : option loc) (name : list Z)
  : M (limit_zone P) (Z * option loc * option loc) :=
  match octx with
  | Some (ovar, osh) => mret (if bool_decide (var = ovar) then (NGX_OK, Some osh, data) else (NGX_ERROR, None, data))
  | None =>
      match data with
      | Some sh => mret (NGX_OK, Some sh, data)
      | None =>
          sh <-- alloc_shctx;
          match sh with
          | None => mret (NGX_ERROR, None, None)
          | Some sh =>
              on_tree (ngx_rbtree_init (sh_sentinel sh)) ;;
              on_queue (ngx_queue_init (sh_queue sh)) ;;
              log_ctx <-- alloc_text (Z.of_nat (length (cstr " in limit_req zone ''")) + 1 + Z.of_nat (length name));
              match log_ctx with
              | None => mret (NGX_ERROR, Some sh, Some sh)
              | Some _ => mret (NGX_OK, Some sh, Some sh)
              end
          end
      end
  end.
End init_zone.

(** * The order of the tree *)

(** What the tree is ordered by: the checksum, then the value. *)
Definition data_of (h : gmap loc ngx_http_limit_req_node_t) (p : loc) : list Z :=
  match h !! p with Some n => lr_data n | None => [] end.

Definition entry_key (h : gmap loc ngx_http_limit_req_node_t) (e : loc * Z) : list Z := e.2 :: data_of h e.1.

(** A node with the length and the checksum of its value. *)
Definition node_ok (h : gmap loc ngx_http_limit_req_node_t) (e : loc * Z) : Prop :=
  exists n, h !! e.1 = Some n /\ lr_len n = Z.of_nat (length (lr_data n)) /\ ngx_crc32_short (lr_data n) = Some e.2 /\
    0 <= lr_last n < 2 ^ 64 /\ 0 <= lr_excess n < 2 ^ 64.

Lemma limit_less_lex h a b :
  node_ok h a -> node_ok h b -> limit_less h a b = bool_decide (blt (entry_key h a) (entry_key h b)).
Proof.
  intros (na & Ea & La & _) (nb & Eb & Lb & _). unfold limit_less, entry_key, data_of. rewrite Ea, Eb, La, Lb, !Nat2Z.id. cbn [lex].
  destruct (Z.ltb_spec a.2 b.2) as [H|H]; [by rewrite (proj2 (Z.compare_lt_iff _ _) H)|].
  destruct (Z.ltb_spec b.2 a.2) as [H'|H']; [rewrite (proj2 (Z.compare_gt_iff _ _)) by lia; done|].
  replace (a.2) with (b.2) by lia. rewrite Z.compare_refl.
  destruct (memn2cmp_lex (lr_data na) (lr_data nb)) as (m & -> & Hm). unfold sign_is in Hm.
  destruct (lex (lr_data na) (lr_data nb)); [subst; done| |].
  - rewrite (proj2 (Z.ltb_lt _ _)) by lia. done.
  - rewrite (proj2 (Z.ltb_ge _ _)) by lia. done.
Qed.

Lemma blt_total a b : ~ blt a b -> b = a \/ blt b a.
Proof. destruct (lex a b) eqn:E; [apply lex_eq in E; by left|done|apply lex_gt in E; by right]. Qed.

Lemma limit_orders h ks : (forall e, e ∈ ks -> node_ok h e) -> orders (limit_less h) ks.
Proof.
  intros Hks. split.
  - intros a b c Ha Hb Hc. rewrite !limit_less_lex, !bool_decide_eq_false by auto. intros [<- |H1]%blt_total H2 H3; [done|].
    apply H2. by eapply blt_trans.
  - intros a b Ha Hb. rewrite !limit_less_lex, bool_decide_eq_false, bool_decide_eq_true by auto. intros H1 H2.
    eapply blt_irrefl, blt_trans; eauto.
Qed.

Lemma height_inorder t : (height t <= length (inorder t))%nat.
Proof. induction t as [|c l IHl x k r IHr]; cbn; [done|]. rewrite length_app. cbn. lia. Qed.

Lemma holds_size sentinel less s l : holds sentinel less s l -> (length l <= size (nodes s))%nat.
Proof.
  intros Hh. pose proof (holds_nodup _ _ _ _ Hh) as Hnd. rewrite <- (length_fmap fst), <- size_dom.
  rewrite <- (size_list_to_set (C := gset loc)) by done. apply subseteq_size. intros p Hp.
  apply elem_of_list_to_set, list_elem_of_fmap in Hp as ([q k] & -> & Hq). apply elem_of_dom.
  destruct (holds_entry _ _ _ _ _ _ Hh Hq) as (n & Hn & _). by exists n.
Qed.

Section proofs.
Context {P : Type} `{!SlabPool P} (sh : loc).

Abbreviation sentinel := (sh_sentinel sh).
Abbreviation head := (sh_queue sh).

Lemma zone_tree_run {A} (m : M ngx_rbtree_t A) (z : limit_zone P) x t :
  m (zone_rbtree z) = Some (x, t) -> on_tree m z = Some (x, mk_zone t (zone_queue z) (zone_nodes z) (zone_pool z)).
Proof. unfold on_tree. by intros ->. Qed.

Lemma zone_queue_run {A} (m : M links A) (z : limit_zone P) x q :
  m (zone_queue z) = Some (x, q) -> on_queue m z = Some (x, mk_zone (zone_rbtree z) q (zone_nodes z) (zone_pool z)).
Proof. unfold on_queue. by intros ->. Qed.

Lemma zone_eta (z : limit_zone P) : mk_zone (zone_rbtree z) (zone_queue z) (zone_nodes z) (zone_pool z) = z.
Proof. by destruct z. Qed.

(** The descent finds the value if it is there. *)
Lemma lookup_loop_run (z : limit_zone P) hash data t par fuel :
  tree_in sentinel (nodes (zone_rbtree z)) par t -> occ sentinel t = 0%nat -> (height t <= fuel)%nat ->
  ordered (limit_less (zone_nodes z)) (inorder t) -> (forall e, e ∈ inorder t -> node_ok (zone_nodes z) e) ->
  exists r, lookup_loop sh fuel hash data (ptr sentinel t) z = Some (r, z) /\
    match r with
    | Some p => (p, hash) ∈ inorder t /\ data_of (zone_nodes z) p = data
    | None => forall e, e ∈ inorder t -> entry_key (zone_nodes z) e <> hash :: data
    end.
Proof.
  revert par fuel. induction t as [|c l IHl x k r IHr]; intros par fuel Ht Hs Hf Ho Hok.
  { exists None. cbn [ptr]. split; [destruct fuel; cbn; by rewrite Z.eqb_refl|]. intros e []%elem_of_nil. }
  destruct Ht as (Hx & Htl & Htr). cbn [occ height inorder] in *.
  apply StronglySorted_split in Ho as (Ho & Hbx & Hax). apply StronglySorted_app in Ho as (_ & Hol & Hor).
  assert (node_ok (zone_nodes z) (x, k)) as (n & Hn & Hlen & Hcrc & _) by (apply Hok; set_solver).
  assert (entry_key (zone_nodes z) (x, k) = k :: lr_data n) as Ek by (unfold entry_key, data_of; cbn in *; by rewrite Hn).
  assert (forall e, e ∈ inorder l -> ~ blt (k :: lr_data n) (entry_key (zone_nodes z) e)) as Hl.
  { intros e He. rewrite Forall_forall in Hbx. specialize (Hbx e He).
    rewrite limit_less_lex, bool_decide_eq_false, Ek in Hbx by (apply Hok; set_solver). done. }
  assert (forall e, e ∈ inorder r -> ~ blt (entry_key (zone_nodes z) e) (k :: lr_data n)) as Hr.
  { intros e He. rewrite Forall_forall in Hax. specialize (Hax e He).
    rewrite limit_less_lex, bool_decide_eq_false, Ek in Hax by (apply Hok; set_solver). done. }
  assert (blt (hash :: data) (k :: lr_data n) -> exists r0, lookup_loop sh (pred fuel) hash data (ptr sentinel l) z = Some (r0, z) /\
    match r0 with
    | Some p => (p, hash) ∈ inorder l ++ (x, k) :: inorder r /\ data_of (zone_nodes z) p = data
    | None => forall e, e ∈ inorder l ++ (x, k) :: inorder r -> entry_key (zone_nodes z) e <> hash :: data
    end) as Left.
  { intros Hlt. destruct (IHl x (pred fuel)) as (r0 & E & Hr0); [done|lia|lia|done|intros; apply Hok; set_solver|].
    exists r0. split; [done|]. destruct r0 as [p|]; [split; [set_solver|tauto]|].
    intros e [He|[-> |He]%elem_of_cons]%elem_of_app Ee; [by eapply Hr0| |].
    - rewrite Ek in Ee. rewrite Ee in Hlt. by eapply blt_irrefl.
    - apply (Hr e He). by rewrite Ee. }
  assert (blt (k :: lr_data n) (hash :: data) -> exists r0, lookup_loop sh (pred fuel) hash data (ptr sentinel r) z = Some (r0, z) /\
    match r0 with
    | Some p => (p, hash) ∈ inorder l ++ (x, k) :: inorder r /\ data_of (zone_nodes z) p = data
    | None => forall e, e ∈ inorder l ++ (x, k) :: inorder r -> entry_key (zone_nodes z) e <> hash :: data
    end) as Right.
  { intros Hlt. destruct (IHr x (pred fuel)) as (r0 & E & Hr0); [done|lia|lia|done|intros; apply Hok; set_solver|].
    exists r0. split; [done|]. destruct r0 as [p|]; [split; [set_solver|tauto]|].
    intros e [He|[-> |He]%elem_of_cons]%elem_of_app Ee; [| |by eapply Hr0].
    - apply (Hl e He). by rewrite Ee.
    - rewrite Ek in Ee. rewrite Ee in Hlt. by eapply blt_irrefl. }
  destruct fuel as [|fuel]; [lia|]. cbn [lookup_loop ptr pred] in *.
  assert (x <> sentinel) as Hxs by (apply hit_ne; lia). rewrite (proj2 (Z.eqb_neq _ _) Hxs).
  erewrite mthen_run by (apply zone_tree_run; by apply load_run). rewrite zone_eta. cbn [key left right].
  destruct (Z.ltb_spec hash k) as [H1|H1]; [apply Left; cbn; by rewrite (proj2 (Z.compare_lt_iff _ _))|].
  destruct (Z.ltb_spec k hash) as [H2|H2]; [apply Right; cbn; by rewrite (proj2 (Z.compare_lt_iff _ _))|].
  assert (hash = k) as -> by lia. erewrite mthen_run by (by apply load_run).
  rewrite Hlen, Nat2Z.id. destruct (memn2cmp_lex data (lr_data n)) as (m & -> & Hm). unfold sign_is in Hm.
  destruct (lex data (lr_data n)) eqn:El.
  - subst m. cbn. exists (Some x). split; [done|]. split; [set_solver|]. apply lex_eq in El as ->. unfold data_of. cbn in Hn. by rewrite Hn.
  - rewrite (proj2 (Z.eqb_neq _ _)), (proj2 (Z.ltb_lt _ _)) by lia. apply Left. cbn. by rewrite Z.compare_refl.
  - rewrite (proj2 (Z.eqb_neq _ _)), (proj2 (Z.ltb_ge _ _)) by lia. apply Right. cbn. rewrite Z.compare_refl. by apply lex_gt.
Qed.

(** ** The zone as a list of buckets *)

(** A bucket is a value with the time and the excess of its last accepted request; the
    list has the blocks with their buckets, the most recently used first. *)
Abbreviation bucket := (list Z * (Z * Z))%type.
Abbreviation held := (loc * bucket)%type.

Definition bucket_of (h : gmap loc ngx_http_limit_req_node_t) (p : loc) : held :=
  (p, match h !! p with Some n => (lr_data n, (lr_last n, lr_excess n)) | None => ([], (0, 0)) end).

Definition idle (conf : limit_conf) (now : Z) (b : bucket) : bool :=
  negb ((ngx_abs (i64 (now - b.2.1)) <? 60000) || (0 <? i64 (leaked (conf_rate conf) b.2.2 (ngx_abs (i64 (now - b.2.1)))))).

(** The last bucket goes when it is idle, or for [n = 0], and its block is freed; then
    the one before it. *)
Fixpoint spec_expire (fuel : nat) (conf : limit_conf) (now n : Z) (l : list held) (pool : P) : list held * P :=
  match fuel, last l with
  | S fuel', Some (p, b) =>
      if (n =? 0) || idle conf now b then spec_expire fuel' conf now (n + 1) (take (length l - 1) l) (ngx_slab_free_locked p pool)
      else (l, pool)
  | _, _ => (l, pool)
  end.

(** The bucket of a value taken out of the list. *)
Fixpoint take_out (s : list Z) (l : list held) : option ((loc * (Z * Z)) * list held) :=
  match l with
  | [] => None
  | b :: l' => if bool_decide (b.2.1 = s) then Some ((b.1, b.2.2), l')
               else '(x, r) ← take_out s l'; Some (x, b :: r)
  end.

Definition next_excess (conf : limit_conf) (now last excess : Z) : Z :=
  let e := i64 (leaked (conf_rate conf) excess (ngx_abs (i64 (now - last))) + 1000) in
  if e <? 0 then 0 else e.

Definition spec_lookup (conf : limit_conf) (now : Z) (s : list Z) (l : list held) : (Z * Z) * list held :=
  match take_out s l with
  | None => ((NGX_DECLINED, 0), l)
  | Some ((p, (last, excess)), l') =>
      let e := next_excess conf now last excess in
      if conf_burst conf <? e then ((NGX_BUSY, e), (p, (s, (last, excess))) :: l')
      else ((if negb (e =? 0) then NGX_AGAIN else NGX_OK, e), (p, (s, (now, e))) :: l')
  end.

(** A block for a value: 72 bytes and the value. *)
Definition spec_alloc (s : list Z) (pool : P) : option loc * P := ngx_slab_alloc_locked (72 + Z.of_nat (length s)) pool.

(** A value without a bucket gets one, if need be after an expiry by force; only when
    the pool has no block even then is the request refused. *)
Definition spec_add (conf : limit_conf) (now : Z) (s : list Z) (l : list held) (pool : P) : (Z * Z) * (list held * P) :=
  match spec_alloc s pool with
  | (Some p, pool) => ((NGX_DECLINED, 0), ((p, (s, (now, 0))) :: l, pool))
  | (None, pool) =>
      let '(l, pool) := spec_expire 3 conf now 0 l pool in
      match spec_alloc s pool with
      | (Some p, pool) => ((NGX_DECLINED, 0), ((p, (s, (now, 0))) :: l, pool))
      | (None, pool) => ((NGX_HTTP_SERVICE_UNAVAILABLE, 0), (l, pool))
      end
  end.

Definition spec_locked (conf : limit_conf) (now : Z) (s : list Z) (l : list held) (pool : P) : (Z * Z) * (list held * P) :=
  let '(l, pool) := spec_expire 2 conf now 1 l pool in
  let '(r, l) := spec_lookup conf now s l in
  if r.1 =? NGX_DECLINED then spec_add conf now s l pool else (r, (l, pool)).

(** Whether the pool has no block when the request comes to need one. *)
Definition spec_short (conf : limit_conf) (now : Z) (s : list Z) (l : list held) (pool : P) : bool :=
  let '(l, pool) := spec_expire 2 conf now 1 l pool in
  ((spec_lookup conf now s l).1.1 =? NGX_DECLINED) && bool_decide ((spec_alloc s pool).1 = None).

Definition apart (live : gmap loc Z) : Prop :=
  forall p m q n, live !! p = Some m -> live !! q = Some n -> p <> q -> p + m <= q \/ q + n <= p.

(** The state of a zone: the tree [es] and the queue [ps] hold the same nodes, each with
    its own value and in a block of its own that has room for it; the sentinel and the
    head of the queue are in the block [sh]. *)
Record zone_ok (z : limit_zone P) (es : list (loc * Z)) (ps : list loc) : Prop := {
  ok_tree : holds sentinel (limit_less (zone_nodes z)) (zone_rbtree z) es;
  ok_queue : ring (zone_queue z) head (lr_queue <$> ps);
  ok_same : es.*1 ≡ₚ ps;
  ok_nodes : forall e, e ∈ es -> node_ok (zone_nodes z) e;
  ok_values : NoDup (data_of (zone_nodes z) <$> ps);
  ok_live : forall p, p ∈ ps -> slab_live (zone_pool z) !! p = Some (NODE_SIZE + Z.of_nat (length (data_of (zone_nodes z) p)));
  ok_sh : slab_live (zone_pool z) !! sh = Some SHCTX_SIZE;
  ok_sh_own : sh ∉ ps;
  ok_apart : apart (slab_live (zone_pool z));
}.

Lemma lr_queue_inj p q : lr_queue p = lr_queue q -> p = q.
Proof. unfold lr_queue. lia. Qed.

#[local] Instance lr_queue_Inj : Inj (=) (=) lr_queue := lr_queue_inj.

Lemma zone_ok_entry z es ps p : zone_ok z es ps -> p ∈ ps -> exists k, (p, k) ∈ es.
Proof.
  intros Hz Hp. rewrite <- (ok_same _ _ _ Hz) in Hp. apply list_elem_of_fmap in Hp as ([q k] & -> & Hq). by exists k.
Qed.

Lemma zone_ok_node z es ps p : zone_ok z es ps -> p ∈ ps -> exists n, zone_nodes z !! p = Some n.
Proof.
  intros Hz Hp. destruct (zone_ok_entry _ _ _ _ Hz Hp) as [k Hk]. destruct (ok_nodes _ _ _ Hz _ Hk) as (n & Hn & _). by exists n.
Qed.

Lemma zone_ok_nodup z es ps : zone_ok z es ps -> NoDup ps.
Proof. intros Hz. rewrite <- (ok_same _ _ _ Hz). apply (holds_nodup _ _ _ _ (ok_tree _ _ _ Hz)). Qed.

(** The order only looks at the values of the nodes in the tree. *)
Definition value_of (h : gmap loc ngx_http_limit_req_node_t) (p : loc) : option (Z * list Z) :=
  (fun n => (lr_len n, lr_data n)) <$> h !! p.

Lemma limit_less_value h h' a b :
  value_of h' a.1 = value_of h a.1 -> value_of h' b.1 = value_of h b.1 -> limit_less h' a b = limit_less h a b.
Proof.
  unfold value_of, limit_less. intros Ha Hb.
  destruct (h' !! a.1), (h !! a.1), (h' !! b.1), (h !! b.1); cbn in Ha, Hb; simplify_eq; try done.
  by repeat match goal with H : lr_len _ = _ |- _ => rewrite H; clear H | H : lr_data _ = _ |- _ => rewrite H; clear H end.
Qed.

Lemma holds_value h h' s es :
  (forall p, p ∈ es.*1 -> value_of h' p = value_of h p) -> holds sentinel (limit_less h) s es -> holds sentinel (limit_less h') s es.
Proof.
  intros Hh (t & Ht & <- & Ho). exists t. split_and!; [done|done|]. clear Ht. unfold ordered in *.
  induction Ho as [|e es Ho IH Hf]; [constructor|]. constructor; [apply IH; set_solver|].
  rewrite Forall_forall in Hf |- *. intros a Ha. rewrite (limit_less_value h); [by apply Hf|apply Hh..]; [|set_solver].
  apply elem_of_cons. right. by apply list_elem_of_fmap_2.
Qed.

Lemma holds_ext h h' s es :
  (forall p, p ∈ es.*1 -> h' !! p = h !! p) -> holds sentinel (limit_less h) s es -> holds sentinel (limit_less h') s es.
Proof. intros Hh. apply holds_value. intros p Hp. unfold value_of. by rewrite Hh. Qed.

(** A freed node is not needed by the tree. *)
Lemma holds_erase less s es p :
  holds sentinel less s es -> p ∉ es.*1 -> p <> sentinel -> holds sentinel less (mk_tree (root s) (base.delete p (nodes s))) es.
Proof.
  intros (t & ((Hd & (ns & Hns & Hc) & par & Hpar & Ht) & Hrb) & <- & Ho) Hp Hps.
  exists t. split_and!; [|done|done]. split; [|done]. split_and!; [done| |].
  - exists ns. cbn. by rewrite lookup_delete_ne.
  - exists par. split; [done|]. apply (tree_in_frame _ (nodes s)); [|done]. intros q Hq. cbn. rewrite lookup_delete_ne; [done|].
    intros <-. by apply Hp, occ_inorder.
Qed.

Lemma ring_erase s h l x :
  ring s h l -> x ∉ h :: l -> ring (mk_links (base.delete x (nexts s)) (base.delete x (prevs s))) h l.
Proof.
  intros [Hnd Hc] Hx. split; [done|]. eapply chain_frame; [done|..]; intros y Hy; cbn; apply lookup_delete_ne; intros ->; apply Hx; set_solver.
Qed.

Lemma ring_extend s h l x v w :
  ring s h l -> x ∉ h :: l -> ring (mk_links (<[x := v]> (nexts s)) (<[x := w]> (prevs s))) h l.
Proof.
  intros [Hnd Hc] Hx. split; [done|]. eapply chain_frame; [done|..]; intros y Hy; cbn; apply lookup_insert_ne; intros ->; apply Hx; set_solver.
Qed.

Lemma data_of_ext h h' (l : list loc) : (forall p, p ∈ l -> h' !! p = h !! p) -> data_of h' <$> l = data_of h <$> l.
Proof. intros Hh. apply list_fmap_ext. intros i p Hp%list_elem_of_lookup_2. unfold data_of. by rewrite Hh. Qed.

Lemma bucket_of_ext h h' (l : list loc) : (forall p, p ∈ l -> h' !! p = h !! p) -> bucket_of h' <$> l = bucket_of h <$> l.
Proof. intros Hh. apply list_fmap_ext. intros i p Hp%list_elem_of_lookup_2. unfold bucket_of. by rewrite Hh. Qed.

Lemma node_ok_ext h h' e : h' !! e.1 = h !! e.1 -> node_ok h e -> node_ok h' e.
Proof. intros Hh (n & Hn & H). exists n. by rewrite Hh. Qed.

Lemma apart_delete live p : apart live -> apart (base.delete p live).
Proof. intros Ha a m b n [_ H1]%lookup_delete_Some [_ H2]%lookup_delete_Some. by apply Ha. Qed.

Lemma apart_insert live p n :
  apart live -> (forall q m, live !! q = Some m -> p + n <= q \/ q + m <= p) -> apart (<[p := n]> live).
Proof.
  intros Ha Hp a m b k [[<- <-]|[_ H1]]%lookup_insert_Some [[<- <-]|[_ H2]]%lookup_insert_Some Hne; [done|by apply Hp| |by eapply Ha].
  apply Hp in H1. lia.
Qed.

(** ** Expiry *)

Lemma evict_run {A} (z : limit_zone P) es ps1 p ps2 (k : M (limit_zone P) A) :
  zone_ok z es (ps1 ++ p :: ps2) ->
  exists z' es',
    (on_queue (ngx_queue_remove (lr_queue p)) ;; on_tree (ngx_rbtree_delete sentinel p) ;; free_node p ;; k) z = k z' /\
    zone_ok z' es' (ps1 ++ ps2) /\ bucket_of (zone_nodes z') <$> (ps1 ++ ps2) = bucket_of (zone_nodes z) <$> (ps1 ++ ps2) /\
    zone_pool z' = ngx_slab_free_locked p (zone_pool z).
Proof.
  intros Hz. destruct (zone_ok_entry _ _ _ p Hz) as [kp Hp]; [set_solver|].
  pose proof (zone_ok_nodup _ _ _ Hz) as Hnd. destruct Hz as [Ht Hq Hsame Hok Hval Hlive Hsh Hown Hap].
  rewrite fmap_app, fmap_cons in Hq. destruct (remove_run _ _ _ _ _ Hq) as (q' & Eq & Hq' & _).
  erewrite mthen_run by (by apply zone_queue_run).
  pose proof (holds_not_sentinel _ _ _ _ p Ht (list_elem_of_fmap_2 fst _ _ Hp)) as Hps.
  apply list_elem_of_split in Hp as (es1 & es2 & ->).
  destruct (holds_delete _ _ _ _ _ _ _ Ht) as (t' & Et & Ht' & _).
  erewrite mthen_run by (apply zone_tree_run; exact Et). cbn [zone_rbtree zone_queue zone_nodes zone_pool].
  assert (p ∉ ps1 ++ ps2) as Hp. { rewrite <- Permutation_middle in Hnd. by apply NoDup_cons in Hnd as [? _]. }
  assert ((es1 ++ es2).*1 ≡ₚ ps1 ++ ps2) as Hsame'.
  { rewrite fmap_app, fmap_cons, <- !Permutation_middle in Hsame. cbn in Hsame. apply Permutation_cons_inv in Hsame. by rewrite fmap_app. }
  assert (forall q, q ∈ ps1 ++ ps2 -> base.delete p (zone_nodes z) !! q = zone_nodes z !! q) as Hframe.
  { intros q Hqp. apply lookup_delete_ne. by intros ->. }
  eexists _, (es1 ++ es2). split; [reflexivity|]. cbn.
  assert (is_Some (slab_live (zone_pool z) !! p)) as Hpl by (eexists; apply Hlive; set_solver).
  split; [|split; [by apply bucket_of_ext|done]].
  split; cbn.
  - apply (holds_ext (zone_nodes z)); [intros q Hqe; apply Hframe; by rewrite <- Hsame'|].
    apply holds_erase; [done|by rewrite Hsame'|done].
  - rewrite fmap_app. apply ring_erase; [done|]. intros [E|E]%elem_of_cons.
    + destruct Hq as [Hndq _]. apply NoDup_cons in Hndq as [Hh _]. apply Hh. rewrite <- E. set_solver.
    + rewrite <- fmap_app in E. apply list_elem_of_fmap in E as (q & E & Hqp). apply lr_queue_inj in E as ->. done.
  - done.
  - intros e He. apply (node_ok_ext (zone_nodes z)); [|apply Hok; set_solver]. apply Hframe. rewrite <- Hsame'. by apply list_elem_of_fmap_2.
  - rewrite (data_of_ext (zone_nodes z)) by done. rewrite fmap_app, fmap_cons in Hval. rewrite <- Permutation_middle in Hval.
    apply NoDup_cons in Hval as [_ Hval]. by rewrite fmap_app.
  - intros q Hqp. rewrite slab_free, lookup_delete_ne by (done || (intros ->; done)). unfold data_of. rewrite Hframe by done. apply Hlive. set_solver.
  - rewrite slab_free, lookup_delete_ne; [done|set_solver|done].
  - set_solver.
  - rewrite slab_free by done. by apply apart_delete.
Qed.

Lemma take_pred_app {A} (l : list A) x : take (length (l ++ [x]) - 1) (l ++ [x]) = l.
Proof. rewrite length_app. cbn. replace (length l + 1 - 1)%nat with (length l) by lia. by rewrite take_app_length. Qed.

Lemma expire_loop_run fuel conf now n z es ps :
  zone_ok z es ps -> 0 <= n ->
  exists z' es' ps', expire_loop sh fuel conf now n z = Some (tt, z') /\ zone_ok z' es' ps' /\
    (bucket_of (zone_nodes z') <$> ps', zone_pool z') = spec_expire fuel conf now n (bucket_of (zone_nodes z) <$> ps) (zone_pool z).
Proof.
  revert n z es ps. induction fuel as [|fuel IH]; intros n z es ps Hz Hn; [by eexists _, _, _|].
  cbn [expire_loop spec_expire]. pose proof (ok_queue _ _ _ Hz) as Hq.
  erewrite mthen_run by (apply zone_queue_run; by apply queue_empty_run). rewrite zone_eta.
  destruct ps as [|p ps _] using rev_ind; cbn [fmap list_fmap].
  { rewrite bool_decide_eq_true_2 by done. by eexists _, _, _. }
  rewrite bool_decide_eq_false_2 by (rewrite fmap_app; by destruct (lr_queue <$> ps)).
  erewrite mthen_run; [|apply zone_queue_run; apply prev_run; destruct Hq as [_ Hq]; by eapply chain_prev].
  rewrite zone_eta, fmap_app. cbn [fmap list_fmap]. rewrite last_snoc. cbn [default from_option id].
  replace (node_of_link (lr_queue p)) with p by (unfold node_of_link, lr_queue; lia).
  destruct (zone_ok_node _ _ _ p Hz) as [lr Hlr]; [set_solver|].
  erewrite mthen_run by (by apply load_run). rewrite fmap_app. cbn [fmap list_fmap]. rewrite last_snoc.
  assert (bucket_of (zone_nodes z) p = (p, (lr_data lr, (lr_last lr, lr_excess lr)))) as Eb by (unfold bucket_of; by rewrite Hlr).
  unfold idle. rewrite Eb. cbn [fst snd]. cbn zeta.
  match goal with |- context [negb (n =? 0) && ?b] => destruct (n =? 0) eqn:En, b eqn:Eidle end; cbn [negb andb orb];
    try (eexists _, _, _; split; [done|]; split; [done|]; by rewrite fmap_app, <- Eb).
  all: destruct (evict_run z es ps p [] (expire_loop sh fuel conf now (n + 1)) Hz) as (z' & es' & -> & Hz' & Hb & Hpool);
    rewrite app_nil_r in *;
    (destruct (IH (n + 1) z' es' ps Hz') as (z2 & es2 & ps2 & E2 & Hz2 & Hb2); [lia|]);
    exists z2, es2, ps2; (split; [done|]); (split; [done|]); by rewrite Hb2, Hb, Hpool, take_pred_app.
Qed.

(** ** Lookup *)

Lemma bucket_value h p : (bucket_of h p).2.1 = data_of h p.
Proof. unfold bucket_of, data_of. by destruct (h !! p). Qed.

Lemma take_out_none h ps s : s ∉ data_of h <$> ps -> take_out s (bucket_of h <$> ps) = None.
Proof.
  induction ps as [|p ps IH]; [done|]. rewrite !fmap_cons. intros Hs. apply not_elem_of_cons in Hs as [H1 H2]. cbn [take_out].
  rewrite bucket_value, bool_decide_eq_false_2 by congruence. by rewrite IH.
Qed.

Lemma take_out_some h ps1 p ps2 :
  data_of h p ∉ data_of h <$> ps1 ->
  take_out (data_of h p) (bucket_of h <$> (ps1 ++ p :: ps2)) = Some ((p, (bucket_of h p).2.2), bucket_of h <$> (ps1 ++ ps2)).
Proof.
  induction ps1 as [|q ps1 IH]; cbn [app fmap list_fmap take_out].
  - by rewrite bucket_value, bool_decide_eq_true_2.
  - intros Hs. apply not_elem_of_cons in Hs as [H1 H2]. rewrite bucket_value, bool_decide_eq_false_2 by congruence.
    rewrite (IH H2). done.
Qed.

Lemma lookup_found z es ps hash data :
  zone_ok z es ps ->
  exists r, lookup_loop sh (size (nodes (zone_rbtree z))) hash data (root (zone_rbtree z)) z = Some (r, z) /\
    match r with
    | Some p => (p, hash) ∈ es /\ data_of (zone_nodes z) p = data
    | None => ngx_crc32_short data = Some hash -> data ∉ data_of (zone_nodes z) <$> ps
    end.
Proof.
  intros Hz. pose proof (holds_size _ _ _ _ (ok_tree _ _ _ Hz)) as Hsz.
  destruct (ok_tree _ _ _ Hz) as (t & (((_ & Hs) & _ & par & Hroot & Ht) & _) & Ein & Ho). cbn in Hroot, Hs. rewrite Hroot.
  destruct (lookup_loop_run z hash data t par (size (nodes (zone_rbtree z)))) as (r & E & Hr);
    [done|lia|pose proof (height_inorder t); rewrite Ein in *; lia|by rewrite Ein|rewrite Ein; by apply ok_nodes with ps|].
  exists r. split; [done|]. destruct r as [p|]; rewrite Ein in Hr; [done|].
  intros Hcrc (p & -> & Hp)%list_elem_of_fmap. destruct (zone_ok_entry _ _ _ _ Hz Hp) as [k Hk].
  apply (Hr _ Hk). unfold entry_key. cbn. destruct (ok_nodes _ _ _ Hz _ Hk) as (n & Hn & _ & Hk' & _).
  unfold data_of in *. cbn in Hn, Hk'. rewrite Hn in *. congruence.
Qed.

(** The node moves to the head of the queue. *)
Lemma touch_run {A} z es ps1 p ps2 (k : M (limit_zone P) A) :
  zone_ok z es (ps1 ++ p :: ps2) ->
  exists z', (on_queue (ngx_queue_remove (lr_queue p)) ;; on_queue (ngx_queue_insert_head head (lr_queue p)) ;; k) z = k z' /\
    zone_ok z' es (p :: ps1 ++ ps2) /\ zone_nodes z' = zone_nodes z /\ zone_pool z' = zone_pool z.
Proof.
  intros Hz. pose proof (zone_ok_nodup _ _ _ Hz) as Hnd. destruct Hz as [Ht Hq Hsame Hok Hval Hlive Hsh Hown Hap].
  rewrite fmap_app, fmap_cons in Hq. destruct (remove_run _ _ _ _ _ Hq) as (q1 & E1 & Hq1 & [_ Hl1]).
  erewrite mthen_run by (by apply zone_queue_run).
  assert (lr_queue p ∉ head :: (lr_queue <$> ps1) ++ (lr_queue <$> ps2)) as Hp.
  { destruct Hq as [Hndq _]. rewrite <- Permutation_middle in Hndq. apply NoDup_cons in Hndq as [H1 H2]. apply NoDup_cons in H2 as [H2 _].
    intros [E|E]%elem_of_cons; [|done]. apply H1. rewrite <- E. set_solver. }
  destruct (insert_head_run q1 head ((lr_queue <$> ps1) ++ (lr_queue <$> ps2)) (lr_queue p) Hq1) as (q2 & E2 & Hq2 & _); [|done|].
  { apply Hl1. eapply ring_link; [exact Hq|]. set_solver. }
  erewrite mthen_run by (apply zone_queue_run; exact E2). cbn [zone_rbtree zone_nodes zone_pool].
  assert (ps1 ++ p :: ps2 ≡ₚ p :: ps1 ++ ps2) as Hperm by (by rewrite Permutation_middle).
  eexists. split; [reflexivity|]. split; [|done]. split; cbn; try done.
  - by rewrite fmap_app.
  - by rewrite Hsame.
  - rewrite Hperm in Hval. done.
  - intros q Hqp. apply Hlive. by rewrite Hperm.
  - by rewrite <- Hperm.
Qed.

Lemma next_excess_range conf now last excess : 0 <= next_excess conf now last excess < 2 ^ 63.
Proof. unfold next_excess. cbn zeta. case_match; [lia|]. pose proof (swrap_range 64 (leaked (conf_rate conf) excess (ngx_abs (i64 (now - last))) + 1000) ltac:(lia)). lia. Qed.

(** A bucket is filled. *)
Lemma fill_ok z es p ps n now e :
  zone_ok z es (p :: ps) -> zone_nodes z !! p = Some n -> 0 <= now < 2 ^ 64 -> 0 <= e < 2 ^ 63 ->
  let h := <[p := n <| lr_excess := e |> <| lr_last := now |>]> (zone_nodes z) in
  zone_ok (mk_zone (zone_rbtree z) (zone_queue z) h (zone_pool z)) es (p :: ps) /\
  bucket_of h <$> (p :: ps) = (p, (lr_data n, (now, e))) :: (bucket_of (zone_nodes z) <$> ps).
Proof.
  intros Hz Hn Hnow He h. pose proof (zone_ok_nodup _ _ _ Hz) as [Hp _]%NoDup_cons. destruct Hz as [Ht Hq Hsame Hok Hval Hlive Hsh Hown Hap].
  assert (forall q, value_of h q = value_of (zone_nodes z) q) as Hv.
  { intros q. unfold value_of, h. destruct (decide (p = q)) as [<-|Hne]; [by rewrite lookup_insert_eq, Hn|by rewrite lookup_insert_ne]. }
  assert (forall q, data_of h q = data_of (zone_nodes z) q) as Hdata.
  { intros q. specialize (Hv q). unfold value_of, data_of in *. destruct (h !! q), (zone_nodes z !! q); cbn in Hv; congruence. }
  split.
  - split; cbn; try done.
    + apply (holds_value (zone_nodes z)); [|done]. intros q _. apply Hv.
    + intros [q k] Hqe. destruct (Hok _ Hqe) as (m & Hm & H1 & H2 & H3). unfold h. unfold node_ok. cbn in *.
      destruct (decide (p = q)) as [<-|Hne]; [rewrite lookup_insert_eq; eexists; split; [done|]|by rewrite lookup_insert_ne; [exists m|]].
      simplify_eq. cbn. split_and!; try done; lia.
    + enough (data_of h <$> p :: ps = data_of (zone_nodes z) <$> p :: ps) as E by (cbn in E; rewrite E; done).
      apply list_fmap_ext. intros i q _. apply Hdata.
    + intros q Hqp. rewrite Hdata. by apply Hlive.
  - cbn. f_equal; [unfold bucket_of, h; by rewrite lookup_insert_eq|]. apply bucket_of_ext. intros q Hqp. unfold h. apply lookup_insert_ne. by intros ->.
Qed.

Lemma lookup_run conf now hash data z es ps :
  zone_ok z es ps -> 0 <= now < 2 ^ 64 -> ngx_crc32_short data = Some hash ->
  exists r z' ps', ngx_http_limit_req_lookup sh conf now hash data z = Some (r, z') /\ zone_ok z' es ps' /\
    (r, bucket_of (zone_nodes z') <$> ps') = spec_lookup conf now data (bucket_of (zone_nodes z) <$> ps) /\
    (r.1 = NGX_DECLINED -> data ∉ data_of (zone_nodes z') <$> ps') /\ zone_pool z' = zone_pool z.
Proof.
  intros Hz Hnow Hcrc. unfold ngx_http_limit_req_lookup, spec_lookup.
  destruct (lookup_found z es ps hash data Hz) as (r & E & Hr).
  erewrite mthen_run by reflexivity. erewrite mthen_run by reflexivity. erewrite mthen_run by exact E.
  destruct r as [p|]; [|specialize (Hr Hcrc); rewrite take_out_none by done; by eexists _, _, _].
  destruct Hr as [Hp Hd]. assert (p ∈ ps) as Hpp by (rewrite <- (ok_same _ _ _ Hz); by apply (list_elem_of_fmap_2 fst _ _ Hp)).
  apply list_elem_of_split in Hpp as (ps1 & ps2 & ->).
  assert (take_out data (bucket_of (zone_nodes z) <$> (ps1 ++ p :: ps2)) =
    Some ((p, (bucket_of (zone_nodes z) p).2.2), bucket_of (zone_nodes z) <$> (ps1 ++ ps2))) as ->.
  { rewrite <- Hd. apply take_out_some. pose proof (ok_values _ _ _ Hz) as Hv. rewrite fmap_app, fmap_cons, <- Permutation_middle in Hv.
    apply NoDup_cons in Hv as [Hv _]. set_solver. }
  destruct (zone_ok_node _ _ _ p Hz) as [n Hn]; [set_solver|].
  assert (bucket_of (zone_nodes z) p = (p, (data, (lr_last n, lr_excess n)))) as Eb by (unfold bucket_of, data_of in *; by rewrite Hn in *; rewrite <- Hd).
  match goal with |- context [(on_queue _ ;; on_queue _ ;; ?k) z] => destruct (touch_run z es ps1 p ps2 k Hz) as (z1 & -> & Hz1 & Hnodes & Hpool) end.
  rewrite <- Hnodes in Hn, Eb |- *. erewrite mthen_run by (by apply load_run). rewrite Eb. cbn [snd fst]. cbn zeta.
  fold (next_excess conf now (lr_last n) (lr_excess n)).
  assert (n.(lr_data) = data) as Ed by (unfold data_of in Hd; rewrite <- Hnodes, Hn in Hd; done).
  destruct (conf_burst conf <? next_excess conf now (lr_last n) (lr_excess n)) eqn:Eburst.
  - eexists _, _, _. split; [done|]. split; [exact Hz1|]. split; [by rewrite fmap_cons, Eb|done].
  - destruct (fill_ok z1 es p (ps1 ++ ps2) n now (next_excess conf now (lr_last n) (lr_excess n)) Hz1 Hn Hnow (next_excess_range _ _ _ _)) as [Hz2 Hb2].
    erewrite mthen_run by (by apply update_run). eexists _, _, _. split; [done|]. split; [exact Hz2|]. cbn [zone_nodes] in *.
    split; [etransitivity; [apply f_equal, Hb2|by rewrite Ed]|]. split; [|done]. cbn. by case_match.
Qed.

(** ** Insertion *)

Lemma inserted_perm less e l l' : inserted less e l l' -> l' ≡ₚ e :: l.
Proof. intros (l1 & l2 & -> & -> & _). by rewrite Permutation_middle. Qed.

(** A new node, not yet in the tree and the queue. *)
Lemma fresh_node z es ps p m pool :
  zone_ok z es ps -> ngx_slab_alloc_locked m (zone_pool z) = (Some p, pool) -> NODE_SIZE <= m ->
  (p ∉ es.*1) /\ (p ∉ ps) /\ p <> sh /\ p <> sentinel /\ (lr_queue p ∉ head :: (lr_queue <$> ps)) /\
  slab_live pool = <[p := m]> (slab_live (zone_pool z)) /\ apart (slab_live pool).
Proof.
  intros [Ht Hq Hsame Hok Hval Hlive Hsh Hown Hap] (Hp & Hpool & Hdis)%slab_alloc_some Hm.
  assert (p ∉ ps) as Hpp by (intros H%Hlive; congruence). assert (p <> sh) by (intros ->; congruence). apply Hdis in Hsh as Hd.
  unfold NODE_SIZE, SHCTX_SIZE in *.
  split_and!; [by rewrite Hsame|done|done|unfold sh_sentinel; lia| |done|rewrite Hpool; by apply apart_insert].
  intros [E|(q & E & Hqp)%list_elem_of_fmap]%elem_of_cons; [unfold lr_queue, sh_queue in E; lia|].
  apply lr_queue_inj in E as ->. done.
Qed.

Lemma new_node_run now hash data z es ps p pool :
  zone_ok z es ps -> ngx_slab_alloc_locked (NODE_SIZE + Z.of_nat (length data)) (zone_pool z) = (Some p, pool) ->
  0 <= now < 2 ^ 64 -> ngx_crc32_short data = Some hash -> Z.of_nat (length data) <= 255 -> data ∉ data_of (zone_nodes z) <$> ps ->
  exists z' es',
    new_node sh now hash data p
      (mk_zone (mk_tree (root (zone_rbtree z)) (<[p := mk_node 0 0 0 0 0]> (nodes (zone_rbtree z))))
        (mk_links (<[lr_queue p := 0]> (nexts (zone_queue z))) (<[lr_queue p := 0]> (prevs (zone_queue z))))
        (<[p := mk_limit_node 0 0 0 []]> (zone_nodes z)) pool) = Some (tt, z') /\
    zone_ok z' es' (p :: ps) /\ bucket_of (zone_nodes z') <$> (p :: ps) = (p, (data, (now, 0))) :: (bucket_of (zone_nodes z) <$> ps) /\
    zone_pool z' = pool.
Proof.
  intros Hz Hp Hnow Hcrc Hlen Hnew. destruct (fresh_node _ _ _ _ _ _ Hz Hp ltac:(lia)) as (Hpes & Hpps & Hpsh & Hps & Hlink & Hpool & Hap').
  destruct Hz as [Ht Hq Hsame Hok Hval Hlive Hsh Hown Hap]. unfold new_node.
  erewrite mthen_run by (apply zone_tree_run, put_run, lookup_insert_eq). cbn [zone_rbtree zone_queue zone_nodes zone_pool].
  erewrite mthen_run by (apply update_run; cbn; apply lookup_insert_eq).
  cbn [zone_rbtree zone_queue zone_nodes zone_pool objects set_objects zone_objects root nodes].
  rewrite !insert_insert_eq. rewrite (wrap_small 8) by lia.
  set (n := mk_limit_node (Z.of_nat (length data)) now 0 data). set (h := <[p := n]> (zone_nodes z)).
  erewrite mthen_run by reflexivity. cbn [zone_nodes].
  assert (forall q, q ∈ ps -> h !! q = zone_nodes z !! q) as Hframe by (intros q Hqp; apply lookup_insert_ne; by intros ->).
  assert (forall e, e ∈ (p, hash) :: es -> node_ok h e) as Hok'.
  { intros e [->|He]%elem_of_cons.
    - exists n. cbn. unfold h. rewrite lookup_insert_eq. split_and!; try done; lia.
    - apply (node_ok_ext (zone_nodes z)); [|by apply Hok]. apply Hframe. rewrite <- Hsame. by apply list_elem_of_fmap_2. }
  destruct (holds_insert sentinel (limit_less h) (ngx_http_limit_req_rbtree_insert_value sh h)
    (mk_tree (root (zone_rbtree z)) (<[p := (mk_node 0 0 0 0 0) <| key := hash |>]> (nodes (zone_rbtree z)))) es p
    ((mk_node 0 0 0 0 0) <| key := hash |>) ((p, hash) :: es)) as (t' & es' & Et & Ht' & Hins & _).
  { apply holds_outside; [|done|done]. apply (holds_ext (zone_nodes z)); [|done]. intros q Hqe. apply Hframe. by rewrite <- Hsame. }
  { apply lookup_insert_eq. }
  { done. }
  { done. }
  { by apply limit_orders. }
  { set_solver. }
  { set_solver. }
  { intros a b. apply keeps_insert_by. }
  erewrite mthen_run by (apply zone_tree_run; exact Et). cbn [zone_rbtree zone_queue zone_nodes zone_pool].
  destruct (insert_head_run _ _ _ (lr_queue p) (ring_extend _ _ _ (lr_queue p) 0 0 Hq Hlink)) as (q' & Eq & Hq' & _).
  { split; cbn; by rewrite lookup_insert_eq. }
  { done. }
  erewrite zone_queue_run by exact Eq. eexists _, es'. split; [reflexivity|]. cbn [zone_nodes]. split; [|split].
  - split; cbn; try done.
    + rewrite (inserted_perm _ _ _ _ Hins). cbn. by rewrite Hsame.
    + intros e He. apply Hok'. by rewrite <- (inserted_perm _ _ _ _ Hins).
    + constructor; [|by rewrite (data_of_ext (zone_nodes z))].
      rewrite (data_of_ext (zone_nodes z)) by done. unfold data_of at 1, h. by rewrite lookup_insert_eq.
    + intros q [-> |Hqp]%elem_of_cons; rewrite Hpool; unfold data_of.
      * unfold h. by rewrite !lookup_insert_eq.
      * rewrite lookup_insert_ne by (by intros ->). rewrite Hframe by done. by apply Hlive.
    + rewrite Hpool, lookup_insert_ne by done. done.
    + set_solver.
  - rewrite fmap_cons. f_equal; [unfold bucket_of, h; by rewrite lookup_insert_eq|]. by apply bucket_of_ext.
  - done.
Qed.

(** The allocation and, when it succeeds, the new bucket. *)
Lemma node_alloc_run now hash data z es ps :
  zone_ok z es ps -> 0 <= now < 2 ^ 64 -> ngx_crc32_short data = Some hash -> Z.of_nat (length data) <= 255 ->
  data ∉ data_of (zone_nodes z) <$> ps ->
  exists r z1, alloc_node (NODE_SIZE + Z.of_nat (length data)) z = Some (r, z1) /\ spec_alloc data (zone_pool z) = (r, zone_pool z1) /\
    match r with
    | None => zone_ok z1 es ps /\ zone_nodes z1 = zone_nodes z
    | Some p => exists z2 es', new_node sh now hash data p z1 = Some (tt, z2) /\ zone_ok z2 es' (p :: ps) /\
        bucket_of (zone_nodes z2) <$> (p :: ps) = (p, (data, (now, 0))) :: (bucket_of (zone_nodes z) <$> ps) /\ zone_pool z2 = zone_pool z1
    end.
Proof.
  intros Hz Hnow Hcrc Hlen Hnew. unfold alloc_node, spec_alloc. fold NODE_SIZE.
  destruct (ngx_slab_alloc_locked _ (zone_pool z)) as [[p|] pool] eqn:E.
  - eexists _, _. split; [done|]. split; [done|]. by apply (new_node_run _ _ _ z es).
  - eexists _, _. split; [done|]. split; [done|]. apply slab_alloc_none in E. destruct Hz. by split; [split; cbn; rewrite ?E|].
Qed.

(** ** The handler *)

Lemma take_out_app_none s a b : take_out s (a ++ b) = None -> take_out s a = None.
Proof.
  induction a as [|x a IH]; [done|]. cbn. case_match; [done|]. intros E. rewrite IH; [done|]. by destruct (take_out s (a ++ b)) as [[??]|].
Qed.

Lemma spec_expire_absent s fuel conf now n l pool : take_out s l = None -> take_out s (spec_expire fuel conf now n l pool).1 = None.
Proof.
  revert n l pool. induction fuel as [|fuel IH]; intros n l pool Hs; [done|]. cbn [spec_expire].
  destruct l as [|[p b] l _] using rev_ind; [done|]. rewrite last_snoc. case_match; [|done]. apply IH. rewrite take_pred_app. by eapply take_out_app_none.
Qed.

Lemma absent_value h ps s : take_out s (bucket_of h <$> ps) = None -> s ∉ data_of h <$> ps.
Proof.
  induction ps as [|p ps IH]; cbn [fmap list_fmap take_out]; [intros _ []%elem_of_nil|]. case_bool_decide as Hb; [done|].
  rewrite bucket_value in Hb. intros E [->|Hin]%elem_of_cons; [done|]. revert Hin. apply IH. by destruct (take_out s (bucket_of h <$> ps)) as [[??]|].
Qed.

(** Whether the pool has no block when the request comes to need one: the request ran
    the first expiry, its value has no bucket and the first allocation fails. *)
Definition runs_short (conf : limit_conf) (now hash : Z) (data : list Z) (z : limit_zone P) : bool :=
  match (ngx_http_limit_req_expire sh conf now 1 ;; ngx_http_limit_req_lookup sh conf now hash data) z with
  | Some ((rc, _), z1) =>
      (rc =? NGX_DECLINED) && bool_decide ((ngx_slab_alloc_locked (NODE_SIZE + Z.of_nat (length data)) (zone_pool z1)).1 = None)
  | None => false
  end.

Lemma locked_run conf now hash data z es ps :
  zone_ok z es ps -> 0 <= now < 2 ^ 64 -> ngx_crc32_short data = Some hash -> Z.of_nat (length data) <= 255 ->
  exists r z' es' ps', limit_req_locked sh conf now hash data z = Some (r, z') /\ zone_ok z' es' ps' /\
    (r, (bucket_of (zone_nodes z') <$> ps', zone_pool z')) = spec_locked conf now data (bucket_of (zone_nodes z) <$> ps) (zone_pool z) /\
    runs_short conf now hash data z = spec_short conf now data (bucket_of (zone_nodes z) <$> ps) (zone_pool z).
Proof.
  intros Hz Hnow Hcrc Hlen. unfold limit_req_locked, spec_locked, runs_short, spec_short, ngx_http_limit_req_expire.
  destruct (expire_loop_run (Z.to_nat (3 - 1)) conf now 1 z es ps Hz) as (z1 & es1 & ps1 & E1 & Hz1 & Hb1); [lia|].
  change (Z.to_nat (3 - 1)) with 2%nat in *. rewrite <- Hb1. clear Hb1.
  destruct (lookup_run conf now hash data z1 es1 ps1 Hz1 Hnow Hcrc) as ([rc e] & z2 & ps2 & E2 & Hz2 & Hb2 & Habs & Hp2).
  assert ((expire_loop sh 2 conf now 1 ;; ngx_http_limit_req_lookup sh conf now hash data) z = Some ((rc, e), z2)) as ->
    by (by erewrite mthen_run by exact E1).
  erewrite mthen_run by exact E1. erewrite mthen_run by exact E2. rewrite <- Hb2. cbn [fst snd]. fold NODE_SIZE. unfold spec_add. rewrite <- Hp2.
  destruct (Z.eqb_spec rc NGX_DECLINED) as [-> |Hrc]; [|by eexists _, _, _, _].
  specialize (Habs eq_refl). cbn [andb].
  destruct (node_alloc_run now hash data z2 es1 ps2) as (r & z3 & E3 & Hs3 & H3); [done..|]. rewrite Hs3.
  erewrite mthen_run by exact E3. destruct r as [p|].
  { destruct H3 as (z4 & es4 & E4 & Hz4 & Hb4 & Hp4). erewrite mthen_run by exact E4. eexists _, _, _, _. split; [reflexivity|].
    split; [exact Hz4|]. split; [by rewrite Hb4, Hp4|by unfold spec_alloc, NODE_SIZE in *; rewrite Hs3]. }
  destruct H3 as (Hz3 & Hn3).
  destruct (expire_loop_run (Z.to_nat (3 - 0)) conf now 0 z3 es1 ps2 Hz3) as (z5 & es5 & ps5 & E5 & Hz5 & Hb5); [lia|].
  change (Z.to_nat (3 - 0)) with 3%nat in *. erewrite mthen_run by exact E5. rewrite Hn3 in Hb5.
  assert (data ∉ data_of (zone_nodes z5) <$> ps5) as Habs5.
  { apply absent_value. change (bucket_of (zone_nodes z5) <$> ps5) with (bucket_of (zone_nodes z5) <$> ps5, zone_pool z5).1.
    rewrite Hb5. by apply spec_expire_absent, take_out_none. }
  rewrite <- Hb5. destruct (node_alloc_run now hash data z5 es5 ps5) as (r & z6 & E6 & Hs6 & H6); [done..|]. rewrite Hs6.
  erewrite mthen_run by exact E6. destruct r as [p|].
  - destruct H6 as (z7 & es7 & E7 & Hz7 & Hb7 & Hp7). erewrite mthen_run by exact E7. eexists _, _, _, _. split; [reflexivity|].
    split; [exact Hz7|]. split; [by rewrite Hb7, Hp7|by unfold spec_alloc, NODE_SIZE in *; rewrite Hs3].
  - destruct H6 as (Hz6 & Hn6). eexists _, _, _, _. split; [reflexivity|]. split; [exact Hz6|]. split; [by rewrite Hn6|by unfold spec_alloc, NODE_SIZE in *; rewrite Hs3].
Qed.

(** The results of a lookup; a delayed request is within the burst. *)
Lemma spec_locked_cases conf now s l pool :
  let '(rc, e) := (spec_locked conf now s l pool).1 in
  (rc = NGX_DECLINED \/ rc = NGX_OK \/ rc = NGX_BUSY \/ rc = NGX_HTTP_SERVICE_UNAVAILABLE) \/ (rc = NGX_AGAIN /\ 0 <= e <= conf_burst conf).
Proof.
  unfold spec_locked, spec_lookup, spec_add. destruct (spec_expire 2 conf now 1 l pool) as [l' pool'].
  destruct (take_out s l') as [[[p [last excess]] r]|]; cycle 1.
  { cbn [fst snd]. rewrite Z.eqb_refl. destruct (spec_alloc s pool') as [[?|] pool1]; [cbn; auto 10|]. destruct (spec_expire 3 conf now 0 l' pool1) as [l2 pool2].
    destruct (spec_alloc s pool2) as [[?|] ?]; cbn; auto 10. }
  pose proof (next_excess_range conf now last excess). destruct (Z.ltb_spec (conf_burst conf) (next_excess conf now last excess)); [cbn; auto 10|].
  destruct (next_excess conf now last excess =? 0); [cbn; auto 10|]. cbn. right. lia.
Qed.

(** What the handler makes of the result. *)
Definition verdict (conf : limit_conf) (read_event : bool) (r : Z * Z) : Z * bool * option Z :=
  let '(rc, excess) := r in
  if rc =? NGX_HTTP_SERVICE_UNAVAILABLE then (rc, true, None)
  else if (rc =? NGX_DECLINED) || (rc =? NGX_OK) then (NGX_DECLINED, true, None)
  else if rc =? NGX_BUSY then (NGX_HTTP_SERVICE_UNAVAILABLE, true, None)
  else if conf_nodelay conf then (NGX_DECLINED, true, None)
  else if negb read_event then (NGX_HTTP_INTERNAL_SERVER_ERROR, true, None)
  else (NGX_AGAIN, true, Some (excess * 1000 / conf_rate conf)).

Lemma handler_run conf now read_event data z es ps :
  zone_ok z es ps -> 0 <= now < 2 ^ 64 -> is_bytes data -> 0 < Z.of_nat (length data) <= 255 ->
  0 < conf_rate conf -> conf_burst conf < 2 ^ 50 ->
  exists z' es' ps',
    let '(r, (l', pool')) := spec_locked conf now data (bucket_of (zone_nodes z) <$> ps) (zone_pool z) in
    ngx_http_limit_req_handler sh (Some conf) now read_event false (Some data) z = Some (verdict conf read_event r, z') /\
    zone_ok z' es' ps' /\ bucket_of (zone_nodes z') <$> ps' = l' /\ zone_pool z' = pool' /\
    runs_short conf now (crc32 data) data z = spec_short conf now data (bucket_of (zone_nodes z) <$> ps) (zone_pool z).
Proof.
  intros Hz Hnow Hbytes Hlen Hrate Hburst. unfold ngx_http_limit_req_handler.
  destruct (Nat.eqb_spec (length data) 0); [lia|]. destruct (Z.ltb_spec 65535 (Z.of_nat (length data))); [lia|]. cbn [orb].
  unfold ngx_crc32_short at 1. destruct (locked_run conf now (crc32 data) data z es ps) as (r & z' & es' & ps' & E & Hz' & Hb & Hs); [done|done| |lia|].
  { unfold ngx_crc32_short. by rewrite crc_short_loop_correct. }
  exists z', es', ps'. rewrite <- Hb. rewrite crc_short_loop_correct by done. cbn [mbind option_bind]. fold (crc32 data).
  erewrite mthen_run by exact E. split; [|done]. destruct r as [rc excess]. unfold verdict.
  repeat (case_match; [done|]). case_match; [lia|].
  pose proof (spec_locked_cases conf now data (bucket_of (zone_nodes z) <$> ps) (zone_pool z)) as Hc. rewrite <- Hb in Hc. cbn in Hc.
  rewrite (wrap_small 64) by lia. done.
Qed.

(** * The bound on the accepted requests *)

(** The bucket of a value. *)
Definition find_bucket (s : list Z) (l : list held) : option (Z * Z) := snd ∘ fst <$> take_out s l.
#[local] Arguments find_bucket : simpl never.

Lemma find_bucket_cons s b l : find_bucket s (b :: l) = if bool_decide (b.2.1 = s) then Some b.2.2 else find_bucket s l.
Proof. unfold find_bucket. cbn. case_bool_decide; [done|]. by destruct (take_out s l) as [[??]|]. Qed.

Lemma find_bucket_app s a b : find_bucket s (a ++ b) = match find_bucket s a with Some x => Some x | None => find_bucket s b end.
Proof. induction a as [|x a IH]; [done|]. cbn [app]. rewrite !find_bucket_cons. by case_bool_decide. Qed.

Lemma find_take_out s s' l x r : s <> s' -> take_out s' l = Some (x, r) -> find_bucket s r = find_bucket s l.
Proof.
  intros Hne. revert r. induction l as [|b l IH]; intros r; [done|]. cbn [take_out]. case_bool_decide as Hb.
  - intros [= _ <-]. rewrite find_bucket_cons, bool_decide_eq_false_2 by congruence. done.
  - destruct (take_out s' l) as [[y r']|] eqn:E; [|done]. cbn [mbind option_bind]. intros [= -> <-]. rewrite !find_bucket_cons. specialize (IH r' eq_refl). by rewrite IH.
Qed.

(** Expiry takes away only what is idle, but for the bucket that goes by force. *)
Lemma expire_find s fuel conf now n l pool :
  let l' := (spec_expire fuel conf now n l pool).1 in
  find_bucket s l' = find_bucket s l \/
  find_bucket s l' = None /\ exists x, find_bucket s l = Some x /\ (0 < n -> idle conf now (s, x) = true).
Proof.
  cbn zeta. revert n l pool. induction fuel as [|fuel IH]; intros n l pool; [by left|]. cbn [spec_expire].
  destruct l as [|[p b] l _] using rev_ind; [by left|]. rewrite last_snoc, take_pred_app.
  destruct ((n =? 0) || idle conf now b) eqn:Hb; [|by left]. rewrite find_bucket_app.
  assert (0 < n -> idle conf now b = true) as Hidle by (intros Hn; destruct (Z.eqb_spec n 0); [lia|done]).
  destruct (IH (n + 1) l (ngx_slab_free_locked p pool)) as [-> |(-> & x & Hx & Hi)]; cycle 1.
  { right. split; [done|]. exists x. rewrite Hx. split; [done|]. intros Hn. apply Hi. lia. }
  destruct (find_bucket s l) as [x|]; [by left|]. rewrite find_bucket_cons. case_bool_decide as Hs; [|by left].
  right. split; [done|]. exists b.2. split; [done|]. intros Hn. destruct b as [v x]. cbn in *. subst v. auto.
Qed.

(** Whether a request goes through, at once or delayed. *)
Definition accepted (rc : Z) : bool := negb ((rc =? NGX_BUSY) || (rc =? NGX_HTTP_SERVICE_UNAVAILABLE)).

Section bound.
Context (conf : limit_conf) (s : list Z) (t0 : Z).
Context (Hrate : 0 < conf_rate conf) (Hburst : 0 <= conf_burst conf < 2 ^ 50) (Ht0 : 0 <= t0).

Let rate := conf_rate conf.

(** What is known of the bucket at [now] when [n] requests were accepted since [t0], [k] of
    them without a bucket, and the pool ran short [f] times. *)
Definition account (now n k f : Z) (b : option (Z * Z)) : Prop :=
  0 <= f /\
  (n = 0 /\ k = 0 \/
   1 <= k /\
   match b with
   | Some (last, e) => t0 <= last <= now /\ 0 <= e <= conf_burst conf /\ 60000 * (k - 1 - f) <= last - t0 /\
       1000000 * (n - k) <= 1000 * conf_burst conf * f + 1000 * e + rate * (last - t0)
   | None => 60000 * (k - f) <= now - t0 /\ 1000000 * (n - k) <= 1000 * conf_burst conf * f + rate * (now - t0)
   end).

Lemma account_later now now' n k f b : account now n k f b -> now <= now' -> account now' n k f b.
Proof.
  unfold account. fold rate in Hrate. intros [Hf [?|[Hk Hb]]] Hn; (split; [done|]); [by left|right; split; [done|]]. destruct b as [[last e]|]; [lia|]. nia.
Qed.

Lemma account_short now n k f b : account now n k f b -> account now n k (f + 1) b.
Proof.
  unfold account. intros [Hf [?|[Hk Hb]]]; (split; [lia|]); [by left|right; split; [done|]]. destruct b as [[last e]|]; [lia|]. lia.
Qed.

(** A bucket that goes by force takes what is in it. *)
Lemma account_forced now n k f x : account now n k f (Some x) -> account now n k (f + 1) None.
Proof.
  unfold account. fold rate in Hrate. destruct x as [last e]. intros [Hf [?|[Hk Hb]]]; (split; [lia|]); [by left|right; split; [done|]]. nia.
Qed.

(** The unsigned arithmetic of the code, in the range of the bound. *)
Lemma leaked_exact now last e :
  0 <= last <= now -> now < 2 ^ 62 -> rate * (now - last) < 2 ^ 62 -> 0 <= e < 2 ^ 50 ->
  ngx_abs (i64 (now - last)) = now - last /\
  i64 (leaked rate e (now - last)) = e - rate * (now - last) / 1000 /\
  i64 (leaked rate e (now - last) + 1000) = e - rate * (now - last) / 1000 + 1000.
Proof.
  intros Hl Hn Hr He. fold rate in Hrate. rewrite (swrap_small 64 (now - last)) by lia. rewrite ngx_abs_small by lia.
  assert (0 <= rate * (now - last)) by nia.
  assert (0 <= rate * (now - last) / 1000 < 2 ^ 62) by (split; [apply Z.div_pos; lia|apply Z.div_lt_upper_bound; lia]).
  unfold leaked. rewrite (wrap_small 64 (rate * (now - last))) by lia. split; [lia|]. split.
  - rewrite i64_u64. apply swrap_small; lia.
  - rewrite <- (swrap_small 64 (e - rate * (now - last) / 1000 + 1000)) by lia. apply swrap_eq_mod. unfold wrap. by rewrite Zplus_mod_idemp_l.
Qed.

Lemma idle_account now n k f x :
  account now n k f (Some x) -> now < 2 ^ 62 -> rate * (now - t0) < 2 ^ 62 -> idle conf now (s, x) = true -> account now n k f None.
Proof.
  intros [Hf [?|[Hk Hb]]] Hn Hr Hi; (split; [done|]); [by left|]. destruct x as [last e]. destruct Hb as (Hl & He & Hk1 & Hacc). fold rate in Hrate.
  assert (rate * (now - last) <= rate * (now - t0)) by nia.
  destruct (leaked_exact now last e) as (E1 & E2 & _); [lia|lia|lia|lia|].
  unfold idle in Hi. cbn [fst snd] in Hi. rewrite E1 in Hi. fold rate in Hi. rewrite E2 in Hi.
  apply negb_true_iff, orb_false_iff in Hi as [H1 H2]. apply Z.ltb_ge in H1, H2.
  pose proof (Z.mul_div_le (rate * (now - last)) 1000 ltac:(lia)).
  right. split; [done|]. split; [lia|]. nia.
Qed.

Lemma expire_account now n k f l pool :
  account now n k f (find_bucket s l) -> now < 2 ^ 62 -> rate * (now - t0) < 2 ^ 62 ->
  account now n k f (find_bucket s (spec_expire 2 conf now 1 l pool).1).
Proof.
  intros Ha Hn Hr. destruct (expire_find s 2 conf now 1 l pool) as [-> |(-> & x & Hx & Hi)]; [done|]. rewrite Hx in Ha.
  eapply idle_account; [done..|]. by apply Hi.
Qed.

Lemma next_excess_account now last e :
  t0 <= last <= now -> now < 2 ^ 62 -> rate * (now - t0) < 2 ^ 62 -> 0 <= e < 2 ^ 50 ->
  1000 * e + 1000000 <= 1000 * next_excess conf now last e + rate * (now - last).
Proof.
  intros Hl Hn Hr He. fold rate in Hrate. assert (rate * (now - last) <= rate * (now - t0)) by nia.
  destruct (leaked_exact now last e) as (E1 & _ & E3); [lia|lia|lia|lia|].
  unfold next_excess. cbn zeta. rewrite E1. fold rate. rewrite E3.
  pose proof (Z.mul_div_le (rate * (now - last)) 1000 ltac:(lia)). destruct (Z.ltb_spec (e - rate * (now - last) / 1000 + 1000) 0); lia.
Qed.

(** A new bucket. *)
Lemma account_new now n k f : t0 <= now -> account now n k f None -> exists k', account now (n + 1) k' f (Some (now, 0)).
Proof.
  intros Hn [Hf [[-> ->]|(Hk & Hk1 & Hacc)]]; [exists 1|exists (k + 1)]; (split; [done|]); right; fold rate in Hrate; split_and!; lia || nia.
Qed.

(** A request with a bucket. *)
Lemma account_fill now n k f last e :
  account now n k f (Some (last, e)) -> t0 <= now -> now < 2 ^ 62 -> rate * (now - t0) < 2 ^ 62 ->
  next_excess conf now last e <= conf_burst conf ->
  exists k', account now (n + 1) k' f (Some (now, next_excess conf now last e)).
Proof.
  intros [Hf Ha] Hn Hn' Hr Hb. pose proof (next_excess_range conf now last e). fold rate in Hrate.
  destruct Ha as [[-> ->]|(Hk & Hl & He & Hk1 & Hacc)].
  - exists 1. split; [done|]. right. split_and!; lia || nia.
  - exists k. split; [done|]. right. pose proof (next_excess_account now last e ltac:(lia) Hn' Hr ltac:(lia)). split_and!; lia || nia.
Qed.

Lemma account_add now n k f v l pool :
  t0 <= now -> take_out v l = None -> account now n k f (find_bucket s l) ->
  let r := spec_add conf now v l pool in
  exists k', account now (n + (if bool_decide (v = s) && accepted r.1.1 then 1 else 0)) k'
    (f + (if bool_decide ((spec_alloc v pool).1 = None) then 1 else 0)) (find_bucket s r.2.1).
Proof.
  intros Hn Hv Ha. assert (forall n' f' p l', take_out v l' = None -> account now n' k f' (find_bucket s l') ->
    exists k', account now (n' + if bool_decide (v = s) && true then 1 else 0) k' f' (find_bucket s ((p, (v, (now, 0))) :: l'))) as Hnew.
  { intros n' f' p l' Hv' Ha'. rewrite find_bucket_cons. cbn [fst snd]. case_bool_decide as Hs; cbn [andb]; [|exists k; by rewrite Z.add_0_r].
    subst v. unfold find_bucket in Ha'. rewrite Hv' in Ha'. by apply (account_new now n' k f'). }
  cbn zeta. unfold spec_add. destruct (spec_alloc v pool) as [[p|] pool1]; cbn [fst snd].
  { rewrite (bool_decide_eq_false_2 (Some p = None)), (Z.add_0_r f) by done. by apply Hnew. }
  rewrite (bool_decide_eq_true_2 (None = None)) by done.
  pose proof (spec_expire_absent v 3 conf now 0 l pool1 Hv) as Hv1.
  assert (account now n k (f + 1) (find_bucket s (spec_expire 3 conf now 0 l pool1).1)) as Ha1.
  { destruct (expire_find s 3 conf now 0 l pool1) as [-> |(-> & x & Hx & _)]; [by apply account_short|]. rewrite Hx in Ha. by eapply account_forced. }
  destruct (spec_expire 3 conf now 0 l pool1) as [l2 pool2]. cbn [fst] in *. destruct (spec_alloc v pool2) as [[p|] pool3]; cbn [fst snd].
  - by apply Hnew.
  - exists k. rewrite andb_false_r, Z.add_0_r. done.
Qed.

(** A request keeps the account. *)
Lemma account_step now now' n k f v l pool :
  account now n k f (find_bucket s l) -> t0 <= now <= now' -> now' < 2 ^ 62 -> rate * (now' - t0) < 2 ^ 62 ->
  let r := spec_locked conf now' v l pool in
  exists k', account now' (n + (if bool_decide (v = s) && accepted r.1.1 then 1 else 0)) k'
    (f + (if spec_short conf now' v l pool then 1 else 0)) (find_bucket s r.2.1).
Proof.
  intros Ha Hn Hn' Hr. apply (account_later now now') in Ha; [|lia]. apply (expire_account _ _ _ _ _ pool) in Ha; [|done..]. cbn zeta.
  unfold spec_locked, spec_short. destruct (spec_expire 2 conf now' 1 l pool) as [l1 pool1]. cbn [fst] in Ha. unfold spec_lookup.
  destruct (take_out v l1) as [[[p [last e]] l2]|] eqn:Et; cycle 1.
  { cbn [fst snd]. rewrite Z.eqb_refl. apply (account_add now' n k f); [lia|done|done]. }
  assert (v = s -> account now' n k f (Some (last, e))) as Hs.
  { intros ->. unfold find_bucket in Ha. by rewrite Et in Ha. }
  assert (v <> s -> find_bucket s l2 = find_bucket s l1) as Ho by (intros; by eapply find_take_out).
  destruct (Z.ltb_spec (conf_burst conf) (next_excess conf now' last e)) as [Hb|Hb]; cbn [fst snd].
  { cbn. exists k. rewrite andb_false_r, !Z.add_0_r, find_bucket_cons. cbn [fst snd]. case_bool_decide; [auto|by rewrite Ho]. }
  assert (accepted (if negb (next_excess conf now' last e =? 0) then NGX_AGAIN else NGX_OK) = true /\
    ((if negb (next_excess conf now' last e =? 0) then NGX_AGAIN else NGX_OK) =? NGX_DECLINED) = false) as [Hacc Hd] by (by case_match).
  rewrite Hd. cbn [andb fst snd]. rewrite Hacc, andb_true_r, Z.add_0_r, find_bucket_cons. cbn [fst snd].
  case_bool_decide; [apply (account_fill now' n k f); auto; lia|]. exists k. by rewrite Z.add_0_r, Ho.
Qed.

Lemma account_bound now n k f b :
  account now n k f b -> t0 <= now ->
  1000000 * n <= 1000000 * (1 + f + (now - t0) / 60000) + 1000 * conf_burst conf * (1 + f) + rate * (now - t0).
Proof.
  intros [Hf Ha] Hn. fold rate in Hrate. assert (0 <= (now - t0) / 60000) by (apply Z.div_pos; lia).
  destruct Ha as [[-> ->]|[Hk Hb]]; [nia|].
  assert (k - 1 - f <= (now - t0) / 60000).
  { apply Z.div_le_lower_bound; [lia|]. destruct b as [[last e]|]; lia. }
  destruct b as [[last e]|]; nia.
Qed.
End bound.

(** * Theorems *)

(** C36: the handler does what a list of buckets in the order of use does: whatever the
    tree and the queue look like inside, a request for a value of 1 to 255 bytes expires,
    finds, fills, rejects or adds buckets as [spec_locked] says, with the answer that
    follows from it.  The pool gets the same calls, in the same order and with the same
    sizes, as the list gives it: a block is asked for 72 bytes and the value, asked for
    again after the expiry by force, and each expired bucket's block is freed; the answer
    depends on what the pool really says.  The tree, the queue and the nodes stay
    consistent. *)
Theorem limit_req_refines conf now read_event data z es ps :
  zone_ok z es ps -> 0 <= now < 2 ^ 64 -> is_bytes data -> 0 < Z.of_nat (length data) <= 255 ->
  0 < conf_rate conf -> conf_burst conf < 2 ^ 50 ->
  exists z' es' ps',
    let '(r, (l', pool')) := spec_locked conf now data (bucket_of (zone_nodes z) <$> ps) (zone_pool z) in
    ngx_http_limit_req_handler sh (Some conf) now read_event false (Some data) z = Some (verdict conf read_event r, z') /\
    zone_ok z' es' ps' /\ bucket_of (zone_nodes z') <$> ps' = l' /\ zone_pool z' = pool'.
Proof.
  intros Hz Hnow Hb Hl Hr Hu. destruct (handler_run conf now read_event data z es ps Hz Hnow Hb Hl Hr Hu) as (z' & es' & ps' & H).
  exists z', es', ps'. destruct (spec_locked _ _ _ _ _) as [r [l' pool']]. tauto.
Qed.

(** The requests of a zone one after the other, each with its time and its value. *)
Fixpoint serve (conf : limit_conf) (reqs : list (Z * list Z)) (z : limit_zone P) : option (list Z * limit_zone P) :=
  match reqs with
  | [] => Some ([], z)
  | (now, data) :: reqs' =>
      '(r, z) ← ngx_http_limit_req_handler sh (Some conf) now true false (Some data) z;
      '(rcs, z) ← serve conf reqs' z;
      Some (r.1.1 :: rcs, z)
  end.

(** How often the pool runs short on the way. *)
Fixpoint shortages (conf : limit_conf) (reqs : list (Z * list Z)) (z : limit_zone P) : Z :=
  match reqs with
  | [] => 0
  | (now, data) :: reqs' =>
      (if runs_short conf now (crc32 data) data z then 1 else 0) +
      match ngx_http_limit_req_handler sh (Some conf) now true false (Some data) z with
      | Some (_, z) => shortages conf reqs' z
      | None => 0
      end
  end.

Definition passes (rc : Z) : bool := negb (rc =? NGX_HTTP_SERVICE_UNAVAILABLE).

(** How many of the requests for [s] are passed on. *)
Fixpoint passed (s : list Z) (reqs : list (Z * list Z)) (rcs : list Z) : Z :=
  match reqs, rcs with
  | (_, v) :: reqs', rc :: rcs' => (if bool_decide (v = s) && passes rc then 1 else 0) + passed s reqs' rcs'
  | _, _ => 0
  end.

Definition request_ok (r : Z * list Z) : Prop := is_bytes r.2 /\ 0 < Z.of_nat (length r.2) <= 255.

(** In order of time, from [now] to [t1]. *)
Fixpoint in_time (now t1 : Z) (reqs : list (Z * list Z)) : Prop :=
  match reqs with
  | [] => now <= t1
  | (t, _) :: reqs' => now <= t /\ in_time t t1 reqs'
  end.

Lemma in_time_le now t1 reqs : in_time now t1 reqs -> now <= t1.
Proof. revert now. induction reqs as [|[t v] reqs IH]; intros now; [done|]. intros [? ?%IH]. lia. Qed.

Lemma verdict_passes conf now s l pool :
  passes (verdict conf true (spec_locked conf now s l pool).1).1.1 = accepted (spec_locked conf now s l pool).1.1.
Proof.
  pose proof (spec_locked_cases conf now s l pool) as Hc. destruct (spec_locked conf now s l pool).1 as [rc e].
  destruct Hc as [[-> |[-> |[-> | ->]]]|[-> _]]; cbn; try done. by destruct (conf_nodelay conf).
Qed.

Lemma serve_account conf s t0 t1 reqs z es ps now n k f :
  0 < conf_rate conf -> 0 <= conf_burst conf < 2 ^ 50 -> 0 <= t0 <= now -> t1 < 2 ^ 62 -> conf_rate conf * (t1 - t0) < 2 ^ 62 ->
  zone_ok z es ps -> Forall request_ok reqs -> in_time now t1 reqs ->
  account conf t0 now n k f (find_bucket s (bucket_of (zone_nodes z) <$> ps)) ->
  exists rcs z' k' b, serve conf reqs z = Some (rcs, z') /\ account conf t0 t1 (n + passed s reqs rcs) k' (f + shortages conf reqs z) b.
Proof.
  intros Hrate Hburst Ht0 Ht1 Hspan. revert z es ps now n k f Ht0.
  induction reqs as [|[t v] reqs IH]; intros z es ps now n k f Ht0 Hz Hok Htime Ha.
  { eexists _, _, _, _. split; [done|]. cbn. rewrite !Z.add_0_r. by eapply account_later. }
  destruct Htime as [Hnow Htime]. pose proof (in_time_le _ _ _ Htime). apply Forall_cons in Hok as [[Hbytes Hlen] Hok]. cbn [fst snd] in *.
  destruct (handler_run conf t true v z es ps) as (z' & es' & ps' & E); [done|lia|done|done|done|lia|].
  destruct (account_step conf s t0 Hrate Hburst ltac:(lia) now t n k f v (bucket_of (zone_nodes z) <$> ps) (zone_pool z) Ha) as [k' Ha'];
    [lia|lia|nia|].
  pose proof (verdict_passes conf t v (bucket_of (zone_nodes z) <$> ps) (zone_pool z)) as Hpass.
  destruct (spec_locked conf t v (bucket_of (zone_nodes z) <$> ps) (zone_pool z)) as [r [l' pool']].
  destruct E as (E & Hz' & <- & _ & Hs). cbn [fst snd] in Ha', Hpass. rewrite <- Hs in Ha'.
  assert (0 <= t0 <= t) as Ht by lia.
  edestruct (IH z' es' ps' t) as (rcs & z2 & k2 & b & E2 & Ha2); [done|done|done|done|exact Ha'|].
  eexists _, z2, k2, b. split.
  - cbn [serve]. rewrite E. cbn [mbind option_bind]. rewrite E2. reflexivity.
  - cbn [passed shortages fst snd]. rewrite Hpass, E, !Z.add_assoc. done.
Qed.


(** Every sequence of requests is answered. *)
Lemma serve_run conf reqs z es ps :
  0 < conf_rate conf -> conf_burst conf < 2 ^ 50 -> zone_ok z es ps -> Forall request_ok reqs -> Forall (fun r => 0 <= r.1 < 2 ^ 64) reqs ->
  exists rcs z' es' ps', serve conf reqs z = Some (rcs, z') /\ zone_ok z' es' ps'.
Proof.
  intros Hrate Hburst. revert z es ps. induction reqs as [|[t v] reqs IH]; intros z es ps Hz Hok Ht; [by exists [], z, es, ps|].
  apply Forall_cons in Hok as [[Hbytes Hlen] Hok]. apply Forall_cons in Ht as [Ht Hts]. cbn [fst snd] in *.
  destruct (handler_run conf t true v z es ps Hz Ht Hbytes Hlen Hrate Hburst) as (z1 & es1 & ps1 & E).
  destruct (spec_locked _ _ _ _ _) as [r [l' pool']]. destruct E as (E & Hz1 & _). destruct (IH z1 es1 ps1 Hz1 Hok Hts) as (rcs & z' & es' & ps' & E' & Hz').
  eexists _, z', es', ps'. split; [|done]. cbn [serve]. rewrite E. cbn [mbind option_bind]. rewrite E'. reflexivity.
Qed.
End proofs.

(** ** A new zone *)

Section new_zone.
Context {P : Type} `{!SlabPool P}.

Lemma alloc_some_apart n (pool : P) p pool' :
  apart (slab_live pool) -> ngx_slab_alloc_locked n pool = (Some p, pool') ->
  apart (slab_live pool') /\ slab_live pool' !! p = Some n /\
  (forall q m, slab_live pool !! q = Some m -> slab_live pool' !! q = Some m).
Proof.
  intros Ha (Hp & -> & Hd)%slab_alloc_some. split_and!; [by apply apart_insert|apply lookup_insert_eq|].
  intros q m Hq. rewrite lookup_insert_ne; [done|]. by intros ->; rewrite Hp in Hq.
Qed.

(** A zone that is neither kept from the previous configuration nor found in the shared
    memory is empty and consistent, unless a block is missing. *)
Lemma init_zone_run var name (z : limit_zone P) :
  apart (slab_live (zone_pool z)) ->
  exists rc sh z', ngx_http_limit_req_init_zone var None None name z = Some ((rc, sh, sh), z') /\
    match ngx_slab_alloc_locked 80 (zone_pool z) with
    | (None, _) => rc = NGX_ERROR
    | (Some a, pool) =>
        match ngx_slab_alloc_locked (22 + Z.of_nat (length name)) pool with
        | (None, _) => rc = NGX_ERROR
        | (Some _, pool) => rc = NGX_OK /\ sh = Some a /\ zone_ok a z' [] [] /\ zone_pool z' = pool
        end
    end.
Proof.
  intros Ha. unfold ngx_http_limit_req_init_zone, alloc_shctx. unfold mthen at 1. fold SHCTX_SIZE.
  destruct (ngx_slab_alloc_locked SHCTX_SIZE (zone_pool z)) as [[sh|] pool1] eqn:E1; [|eexists _, _, _; by split; [reflexivity|]].
  destruct (alloc_some_apart _ _ _ _ Ha E1) as (Ha1 & Hsh & _). cbn beta iota.
  set (t := mk_tree _ (<[sh_sentinel sh := _]> _)). set (q := mk_links _ _).
  destruct (holds_init (sh_sentinel sh) (limit_less (zone_nodes z)) t (mk_node 0 0 0 0 0)) as (t' & Et & Ht & _); [apply lookup_insert_eq|].
  erewrite mthen_run by (apply zone_tree_run; exact Et). cbn [zone_rbtree zone_queue zone_nodes zone_pool].
  destruct (queue_init_run q (sh_queue sh)) as (q' & Eq & Hr & _); [split; cbn; by rewrite lookup_insert_eq|].
  erewrite mthen_run by (apply zone_queue_run; exact Eq). unfold mthen at 1, alloc_text. cbn [zone_rbtree zone_queue zone_nodes zone_pool].
  change (Z.of_nat (length (cstr " in limit_req zone ''")) + 1) with 22.
  destruct (ngx_slab_alloc_locked (22 + _) pool1) as [[p|] pool2] eqn:E2; [|eexists _, _, _; by split; [reflexivity|]].
  destruct (alloc_some_apart _ _ _ _ Ha1 E2) as (Ha2 & _ & Hkeep).
  eexists _, _, _. split; [reflexivity|]. split; [done|]. split; [done|]. split; [|done].
  apply Hkeep in Hsh. split; cbn; try done; try set_solver; try constructor.
Qed.
End new_zone.

(** * A pool with a fixed number of blocks *)

Definition block_end (b : loc * Z) : Z := Z.max b.1 (b.1 + b.2).
Definition new_block (used : gmap loc Z) : loc := foldr Z.max 0 (block_end <$> map_to_list used) + 8.

Lemma new_block_above used q m : used !! q = Some m -> q < new_block used /\ q + m <= new_block used.
Proof.
  assert (forall l x, x ∈ l -> x <= foldr Z.max 0 l) as H.
  { induction l as [|y l IH]; intros x; [intros []%elem_of_nil|]. cbn. intros [-> |Hx%IH]%elem_of_cons; lia. }
  intros Hq%elem_of_map_to_list. apply (list_elem_of_fmap_2 block_end), H in Hq. unfold new_block, block_end in *. cbn in Hq. lia.
Qed.

Definition blocks_alloc (capacity : nat) (n : Z) (used : gmap loc Z) : option loc * gmap loc Z :=
  if (size used <? capacity)%nat then (Some (new_block used), <[new_block used := n]> used) else (None, used).

Lemma blocks_alloc_some capacity n used p used' :
  blocks_alloc capacity n used = (Some p, used') ->
  used !! p = None /\ used' = <[p := n]> used /\ forall q m, used !! q = Some m -> p + n <= q \/ q + m <= p.
Proof.
  unfold blocks_alloc. case_match; [|done]. intros [= <- <-]. split_and!; [|done|intros q m Hq; right; by eapply new_block_above].
  destruct (used !! new_block used) as [m|] eqn:E; [|done]. apply new_block_above in E. lia.
Qed.

Lemma blocks_alloc_none capacity n used used' : blocks_alloc capacity n used = (None, used') -> used' = used.
Proof. unfold blocks_alloc. case_match; [done|]. by intros [= <-]. Qed.

Definition blocks_slab (capacity : nat) : SlabPool (gmap loc Z) := {|
  slab_live used := used;
  ngx_slab_alloc_locked := blocks_alloc capacity;
  ngx_slab_free_locked p used := base.delete p used;
  slab_alloc_some := blocks_alloc_some capacity;
  slab_alloc_none := blocks_alloc_none capacity;
  slab_free p used _ := eq_refl;
|}.

(** The zone that [ngx_http_limit_req_init_zone] makes of an empty pool: [sh] is at 8,
    the log context at 96. *)
Definition empty_zone : limit_zone (gmap loc Z) :=
  mk_zone (mk_tree 32 {[32 := mk_node 0 0 0 0 0]}) (mk_links {[72 := 72]} {[72 := 72]}) ∅ (<[96 := 25]> {[8 := 80]}).

Lemma empty_zone_ok c : (1 < c)%nat -> @zone_ok _ (blocks_slab c) 8 empty_zone [] [].
Proof.
  intros Hc. destruct (@init_zone_run _ (blocks_slab c) (cstr "$addr") (cstr "one") (mk_zone (mk_tree 0 ∅) (mk_links ∅ ∅) ∅ ∅)) as (rc & sh & z & E & Hz); [done|].
  destruct c as [|[|c]]; [lia|lia|]. assert (@ngx_http_limit_req_init_zone _ (blocks_slab (S (S c))) (cstr "$addr") None None (cstr "one")
    (mk_zone (mk_tree 0 ∅) (mk_links ∅ ∅) ∅ ∅) = Some ((NGX_OK, Some 8, Some 8), empty_zone)) as E' by reflexivity.
  rewrite E' in E. simplify_eq.
  by destruct (Hz : NGX_OK = NGX_OK /\ Some 8 = Some 8 /\ @zone_ok _ (blocks_slab (S (S c))) 8 empty_zone [] [] /\ _) as (_ & _ & ? & _).
Qed.

(** Ten requests a second, a burst of two. *)
Definition sample_conf : limit_conf := mk_limit_conf 10000 2000 false.

Lemma limit_req_refines_witness :
  exists z' es' ps',
    let '(r, (l', pool')) := @spec_locked _ (blocks_slab 9) sample_conf 5 (cstr "10.0.0.1") [] (zone_pool empty_zone) in
    @ngx_http_limit_req_handler _ (blocks_slab 9) 8 (Some sample_conf) 5 true false (Some (cstr "10.0.0.1")) empty_zone
      = Some (verdict sample_conf true r, z') /\
    @zone_ok _ (blocks_slab 9) 8 z' es' ps' /\ bucket_of (zone_nodes z') <$> ps' = l' /\ zone_pool z' = pool'.
Proof.
  apply (@limit_req_refines _ (blocks_slab 9) 8 sample_conf 5 true (cstr "10.0.0.1") empty_zone [] []).
  - apply empty_zone_ok. lia.
  - lia.
  - repeat constructor; vm_compute; congruence.
  - cbn. lia.
  - cbn. lia.
  - cbn. lia.
Defined.


(** The rate and the burst at work: the pool has room, and the fourth request within three
    milliseconds is rejected. *)
Example limit_req_example :
  let reqs := [(5, cstr "a"); (5, cstr "b"); (6, cstr "a"); (7, cstr "a"); (8, cstr "a")] in
  fst <$> @serve _ (blocks_slab 9) 8 sample_conf reqs empty_zone
  = Some [NGX_DECLINED; NGX_DECLINED; NGX_AGAIN; NGX_AGAIN; NGX_HTTP_SERVICE_UNAVAILABLE] /\
  @shortages _ (blocks_slab 9) 8 sample_conf reqs empty_zone = 0.
Proof. vm_compute. done. Qed.

(** A pool that is full: each new value takes the block of the other one, whatever is in
    its bucket, and with a burst of 0 all seven requests for a value in one millisecond
    are passed on. *)
Theorem limit_req_full_zone :
  let reqs := [(5, cstr "a"); (5, cstr "b"); (5, cstr "a"); (5, cstr "b"); (5, cstr "a"); (5, cstr "b"); (5, cstr "a"); (5, cstr "b");
    (5, cstr "a"); (5, cstr "b"); (5, cstr "a"); (5, cstr "b"); (5, cstr "a")] in
  fst <$> @serve _ (blocks_slab 3) 8 (mk_limit_conf 1 0 false) reqs empty_zone = Some (replicate 13 NGX_DECLINED) /\
  passed (cstr "a") reqs (replicate 13 NGX_DECLINED) = 7 /\
  @shortages _ (blocks_slab 3) 8 (mk_limit_conf 1 0 false) reqs empty_zone = 12.
Proof. vm_compute. done. Qed.

(** [lr->len = (u_char) len]: a value of 256 bytes is stored with length 0 and never
    found again, so that no limit holds for it. *)
Theorem limit_req_long_value :
  let v := replicate 256 "a"%cc in
  fst <$> @serve _ (blocks_slab 9) 8 (mk_limit_conf 1 0 false) [(5, v); (5, v); (5, v); (5, v)] empty_zone
  = Some [NGX_DECLINED; NGX_DECLINED; NGX_DECLINED; NGX_DECLINED].
Proof. vm_compute. reflexivity. Qed.

(** A rate of 0 divides by zero when a request is delayed. *)
Theorem limit_req_rate_zero :
  @serve _ (blocks_slab 9) 8 (mk_limit_conf 0 5000 false) [(5, cstr "a"); (5, cstr "a")] empty_zone = None.
Proof. vm_compute. reflexivity. Qed.
