(* ===== verification/NgxSlabZone.v ===== *)
(** The slab allocator under the request limits: the pools of [NgxSlab] discharge what
    [NgxHttpLimitReq] relies on. *)

From S2P Require Import Prelude NgxStore NgxSlab NgxSlabPages NgxSlabCorrect NgxStr NgxRbtree NgxQueue NgxHttpLimitReq.

Open Scope Z_scope.

Section zone.
Context (first pool_end min_shift start N : Z) (pool : slab_pool).
Context (shift_range : 3 <= min_shift <= 11) (first_pos : 0 <= first) (pool_size : first + 3 * ngx_pagesize <= pool_end < 2 ^ 63).
Context (pool_init : ngx_slab_init first pool_end min_shift = (pool, start, N)).

(** A pool with its history: the blocks its clients have. *)
Record zone_slab := mk_zone_slab {
  zs_pool : slab_pool;
  zs_live : gmap Z Z;
  zs_history : history pool_end min_shift start pool zs_pool zs_live;
}.

(** The pool after a call, given its outcome; there is one by [history_alloc_run]. *)
Definition alloc_outcome (size : Z) (z : zone_slab) (Hsize : 0 <= size <= 2 ^ 64 - ngx_pagesize) (r : option (option loc * slab_pool)) :
    NgxSlab.ngx_slab_alloc_locked start min_shift size (zs_pool z) = r -> option loc * zone_slab :=
  match r with
  | Some (Some a, s') => fun E => (Some a, mk_zone_slab s' (<[a := size]> (zs_live z)) (history_alloc _ _ _ _ _ _ _ _ _ (zs_history z) Hsize E))
  | Some (None, s') => fun E => (None, mk_zone_slab s' (zs_live z) (history_no_memory _ _ _ _ _ _ _ _ (zs_history z) Hsize E))
  | None => fun _ => (None, z)
  end.

(** A size that wraps is not asked for. *)
Definition zone_alloc (size : Z) (z : zone_slab) : option loc * zone_slab :=
  match decide (0 <= size <= 2 ^ 64 - ngx_pagesize) with
  | Specif.left Hsize => alloc_outcome size z Hsize _ eq_refl
  | Specif.right _ => (None, z)
  end.

Definition free_outcome (p : loc) (z : zone_slab) (Hp : is_Some (zs_live z !! p)) (r : option (free_result * slab_pool)) :
    NgxSlab.ngx_slab_free_locked start pool_end min_shift p (zs_pool z) = r -> zone_slab :=
  match r with
  | Some (e, s') => fun E => mk_zone_slab s' (base.delete p (zs_live z)) (history_free _ _ _ _ _ _ _ _ _ (zs_history z) Hp E)
  | None => fun _ => z
  end.

(** Only blocks in use are freed. *)
Definition zone_free (p : loc) (z : zone_slab) : zone_slab :=
  match decide (is_Some (zs_live z !! p)) with
  | Specif.left Hp => free_outcome p z Hp _ eq_refl
  | Specif.right _ => z
  end.

Lemma alloc_outcome_run size z Hsize r E a s' : r = Some (a, s') ->
  (alloc_outcome size z Hsize r E).1 = a /\ zs_pool (alloc_outcome size z Hsize r E).2 = s' /\
  zs_live (alloc_outcome size z Hsize r E).2 = match a with Some a => <[a := size]> (zs_live z) | None => zs_live z end.
Proof. intros ->. by destruct a. Qed.

Lemma free_outcome_run p z Hp r E e s' : r = Some (e, s') -> zs_live (free_outcome p z Hp r E) = base.delete p (zs_live z).
Proof. by intros ->. Qed.

Lemma zone_alloc_run size z : 0 <= size <= 2 ^ 64 - ngx_pagesize ->
  exists r s', NgxSlab.ngx_slab_alloc_locked start min_shift size (zs_pool z) = Some (r, s') /\ (zone_alloc size z).1 = r /\
    zs_pool (zone_alloc size z).2 = s' /\ zs_live (zone_alloc size z).2 = match r with Some a => <[a := size]> (zs_live z) | None => zs_live z end.
Proof.
  intros Hsize. destruct (history_alloc_run first pool_end min_shift start N pool shift_range first_pos pool_size pool_init _ _ size (zs_history z) Hsize) as (r & s' & Hrun & _).
  exists r, s'. split; [done|]. unfold zone_alloc. case_decide; [|done]. by apply alloc_outcome_run.
Qed.

Lemma zone_alloc_live size z r z' : zone_alloc size z = (r, z') ->
  match r with
  | Some a => zs_live z !! a = None /\ zs_live z' = <[a := size]> (zs_live z) /\
      forall q m, zs_live z !! q = Some m -> a + size <= q \/ q + m <= a
  | None => zs_live z' = zs_live z
  end.
Proof.
  intros E. destruct (decide (0 <= size <= 2 ^ 64 - ngx_pagesize)) as [Hsize|Hsize].
  - destruct (zone_alloc_run size z Hsize) as (r' & s' & Hrun & H1 & _ & H2). rewrite E in H1, H2. cbn in *. subst r'. rewrite H2. destruct r as [a|]; [|done].
    destruct (history_alloc_run first pool_end min_shift start N pool shift_range first_pos pool_size pool_init _ _ size (zs_history z) Hsize) as (r' & s'' & Hrun' & Hr').
    assert (r' = Some a) as -> by congruence. destruct Hr' as (_ & _ & ? & ?). done.
  - unfold zone_alloc in E. case_decide; [done|]. by simplify_eq.
Qed.

Lemma zone_free_live p z : is_Some (zs_live z !! p) -> zs_live (zone_free p z) = base.delete p (zs_live z).
Proof.
  intros Hp. destruct (history_free_run first pool_end min_shift start N pool shift_range first_pos pool_size pool_init _ _ p (zs_history z) Hp) as (s' & Hrun).
  unfold zone_free. case_decide; [|done]. by eapply free_outcome_run.
Qed.

#[export] Instance zone_slab_pool : SlabPool zone_slab := {|
  slab_live := zs_live;
  ngx_slab_alloc_locked := zone_alloc;
  ngx_slab_free_locked := zone_free;
  slab_alloc_some n z p z' := zone_alloc_live n z (Some p) z';
  slab_alloc_none n z z' := zone_alloc_live n z None z';
  slab_free := zone_free_live;
|}.

(** The memory before [ngx_http_limit_req_init_zone]. *)
Definition new_slab : zone_slab := mk_zone_slab pool ∅ (history_init _ _ _ _).
Definition fresh_memory : limit_zone zone_slab := mk_zone (mk_tree 0 ∅) (mk_links ∅ ∅) ∅ new_slab.

Lemma new_memory_zone var name sh data z :
  ngx_http_limit_req_init_zone var None None name fresh_memory = Some ((NGX_OK, sh, data), z) -> exists a, sh = Some a /\ zone_ok a z [] [].
Proof.
  intros E. destruct (init_zone_run var name fresh_memory) as (rc & sh' & z' & E' & H); [done|]. rewrite E in E'. simplify_eq.
  destruct (NgxHttpLimitReq.ngx_slab_alloc_locked 80 _) as [[a|] pool1]; [|done].
  destruct (NgxHttpLimitReq.ngx_slab_alloc_locked _ pool1) as [[p|] pool2]; [|done]. destruct H as (_ & -> & Hz & _). by exists a.
Qed.
End zone.

(** * Theorems *)

(** C38: the request limits run on the slab allocator: in a zone that
    [ngx_http_limit_req_init_zone] has made in a pool made by [ngx_slab_init], every
    request of any sequence is answered (values of 1 to 255 bytes, a positive rate), and
    afterwards the tree and the queue are consistent, [sh] has its block of 80 bytes and
    each node one of 72 bytes and its value; all blocks lie in the pool and no two
    overlap. *)
Theorem limit_req_on_slab first pool_end min_shift start N pool Hm Hf He Hinit var name conf reqs sh data z :
  let _ := zone_slab_pool first pool_end min_shift start N pool Hm Hf He Hinit in
  ngx_http_limit_req_init_zone var None None name (fresh_memory pool_end min_shift start pool) = Some ((NGX_OK, sh, data), z) ->
  0 < conf_rate conf -> conf_burst conf < 2 ^ 50 -> Forall request_ok reqs -> Forall (fun r => 0 <= r.1 < 2 ^ 64) reqs ->
  exists a rcs z' es ps, sh = Some a /\ serve a conf reqs z = Some (rcs, z') /\ zone_ok a z' es ps /\
    let live := zs_live _ _ _ _ (zone_pool z') in
    live !! a = Some 80 /\ (forall p, p ∈ ps -> live !! p = Some (72 + Z.of_nat (length (data_of (zone_nodes z') p)))) /\
    (forall p m, live !! p = Some m -> start <= p /\ p + m <= pool_end) /\
    (forall p m q n, live !! p = Some m -> live !! q = Some n -> p <> q -> p + m <= q \/ q + n <= p).
Proof.
  cbn zeta. intros Hz0 Hrate Hburst Hok Ht. destruct (new_memory_zone _ _ _ _ _ _ _ _ _ _ _ _ _ _ _ Hz0) as (a & -> & Hz).
  destruct (@serve_run _ (zone_slab_pool first pool_end min_shift start N pool Hm Hf He Hinit) a conf reqs z [] [] Hrate Hburst Hz Hok Ht) as (rcs & z' & es & ps & E & Hz').
  destruct (history_blocks first pool_end min_shift start N pool Hm Hf He Hinit _ _ (zs_history _ _ _ _ (zone_pool z'))) as [Hin Hdis].
  exists a, rcs, z', es, ps. split_and!; [done|done|done| | |exact Hin|exact Hdis]; [apply (ok_sh _ _ _ _ Hz')|apply (ok_live _ _ _ _ Hz')].
Qed.

(** ** A zone on the small pool *)

Lemma demo_shift : 3 <= 3 <= 11.
Proof. lia. Qed.

Lemma demo_pos : 0 <= demo_first.
Proof. done. Qed.

Lemma demo_size : demo_first + 3 * ngx_pagesize <= demo_end < 2 ^ 63.
Proof. unfold demo_first, demo_end, ngx_pagesize. lia. Qed.

Definition demo_instance : SlabPool (zone_slab demo_end 3 demo_start demo_pool) :=
  zone_slab_pool demo_first demo_end 3 demo_start 5 demo_pool demo_shift demo_pos demo_size demo_init.

Definition demo_memory := fresh_memory demo_end 3 demo_start demo_pool.

Definition demo_sh : slab_pool := demo_after (demo_alloc 80) demo_pool.

Lemma demo_sh_run : demo_alloc 80 demo_pool = Some (Some 69632, demo_sh).
Proof. vm_compute. reflexivity. Qed.

Lemma demo_log_run : demo_alloc 25 demo_sh = Some (Some 73760, demo_after (demo_alloc 25) demo_sh).
Proof. vm_compute. reflexivity. Qed.

Lemma some_pair_inj {A B} (a a' : A) (b b' : B) : Some (a, b) = Some (a', b') -> a = a' /\ b = b'.
Proof. by intros [= -> ->]. Qed.

(** [sh] and the log context get a block each. *)
Lemma demo_zone : exists z, @ngx_http_limit_req_init_zone _ demo_instance (cstr "$addr") None None (cstr "one") demo_memory = Some ((NGX_OK, Some 69632, Some 69632), z).
Proof.
  destruct (@init_zone_run _ demo_instance (cstr "$addr") (cstr "one") demo_memory) as (rc & sh & z & E & H); [done|].
  change (22 + Z.of_nat (length (cstr "one"))) with 25 in H.
  cbn [NgxHttpLimitReq.ngx_slab_alloc_locked demo_instance zone_slab_pool demo_memory fresh_memory zone_pool] in H.
  destruct (zone_alloc_run demo_first demo_end 3 demo_start 5 demo_pool demo_shift demo_pos demo_size demo_init 80 (new_slab demo_end 3 demo_start demo_pool))
    as (r1 & p1 & Hr1 & Ha1 & Hp1 & _); [unfold ngx_pagesize; lia|].
  destruct (some_pair_inj _ _ _ _ (eq_trans (eq_sym demo_sh_run) Hr1)) as [<- <-].
  destruct (zone_alloc _ _ _ _ 80 _) as [o1 s1]. cbn [fst snd] in Ha1, Hp1. subst o1.
  destruct (zone_alloc_run demo_first demo_end 3 demo_start 5 demo_pool demo_shift demo_pos demo_size demo_init 25 s1) as (r2 & p2 & Hr2 & Ha2 & _);
    [unfold ngx_pagesize; lia|]. rewrite Hp1 in Hr2. destruct (some_pair_inj _ _ _ _ (eq_trans (eq_sym demo_log_run) Hr2)) as [<- <-].
  destruct (zone_alloc _ _ _ _ 25 _) as [o2 s2]. cbn [fst snd] in Ha2. subst o2.
  destruct H as (-> & -> & _). exists z. exact E.
Qed.

Lemma limit_req_on_slab_witness :
  exists z, @ngx_http_limit_req_init_zone _ demo_instance (cstr "$addr") None None (cstr "one") demo_memory = Some ((NGX_OK, Some 69632, Some 69632), z) /\
    exists a rcs z' es ps, Some 69632 = Some a /\
      @serve _ demo_instance a sample_conf [(5, cstr "a"); (6, cstr "b")] z = Some (rcs, z') /\ @zone_ok _ demo_instance a z' es ps.
Proof.
  destruct demo_zone as [z Hz]. exists z. split; [exact Hz|].
  destruct (limit_req_on_slab demo_first demo_end 3 demo_start 5 demo_pool demo_shift demo_pos demo_size demo_init (cstr "$addr") (cstr "one") sample_conf
    [(5, cstr "a"); (6, cstr "b")] (Some 69632) (Some 69632) z) as (a & rcs & z' & es & ps & Ea & E & Hok & _).
  - exact Hz.
  - cbn. lia.
  - cbn. lia.
  - repeat constructor; vm_compute; congruence.
  - repeat constructor; cbn; lia.
  - exact (ex_intro _ a (ex_intro _ rcs (ex_intro _ z' (ex_intro _ es (ex_intro _ ps (conj Ea (conj E Hok))))))).
Defined.
