(* ===== verification/NgxResolver.v ===== *)
(** The DNS messages of src/core/ngx_resolver.c: the queries, the names of a response
    with their compression pointers, and the answers.

    A message is in a buffer of [NGX_RESOLVER_UDP_SIZE] bytes, of which the first [last]
    have been received; a read outside of the buffer is [None].  A name is copied into
    memory of the length the first pass over it has found; a write past that memory is
    [None] too.  [alloc] says whether [ngx_resolver_alloc] has memory of a size.  The trees
    of names and addresses, the contexts that wait and the timers are not modelled. *)

From S2P Require Import Prelude NgxNumber NgxSprintf.

Open Scope Z_scope.

Definition NGX_RESOLVER_UDP_SIZE : Z := 4096.
Definition NGX_RESOLVE_A : Z := 1.
Definition NGX_RESOLVE_CNAME : Z := 5.
Definition NGX_RESOLVE_PTR : Z := 12.
Definition NGX_RESOLVE_DNAME : Z := 39.
Definition NGX_RESOLVE_FORMERR : Z := 1.
Definition NGX_RESOLVE_NXDOMAIN : Z := 3.
Definition NGX_RESOLVE_REFUSED : Z := 5.

Definition sizeof_query : Z := 12.
Definition sizeof_qs : Z := 4.
Definition sizeof_an : Z := 10.

(** [n & 0xc0] *)
Definition is_pointer (n : Z) : bool := negb (Z.land n 0xc0 =? 0).

Section message.
Context (buf : list Z) (last : Z).

Definition rd16 (i : Z) : option Z := hi ← rd buf i; lo ← rd buf (i + 1); Some (Z.shiftl hi 8 + lo).

(** The bytes [ngx_memcpy] reads. *)
Definition rd_bytes (i n : Z) : option (list Z) := mapM (rd buf) (seqZ i n).

(** [((n & 0x3f) << 8) + *p] *)
Definition pointer_target (n b : Z) : Z := Z.shiftl (Z.land n 0x3f) 8 + b.

(** * Names *)

Inductive walk_result := Walk_done (len : Z) | Walk_out | Walk_loop.

(** The first pass: the length of the name. *)
Fixpoint length_loop (i : nat) (p len : Z) : option walk_result :=
  match i with
  | O => Some Walk_loop
  | S i' =>
      n ← rd buf p;
      let p := p + 1 in
      if n =? 0 then Some (Walk_done len)
      else
        '(p, len) ← (if is_pointer n then b ← rd buf p; Some (pointer_target n b, len) else Some (p + n, len + (1 + n)));
        if last <=? p then Some Walk_out else length_loop i' p len
  end.

(** Bytes written after [d] into memory of [len] bytes. *)
Definition put (len : Z) (d bytes : list Z) : option (list Z) :=
  if Z.of_nat (length d) + Z.of_nat (length bytes) <=? len then Some (d ++ bytes) else None.

(** The second pass: the labels are copied. *)
Fixpoint copy_loop (fuel : nat) (len src n : Z) (d : list Z) : option (list Z) :=
  match fuel with
  | O => None
  | S fuel' =>
      '(src, n, d) ←
        (if is_pointer n then
           b ← rd buf src;
           let src := pointer_target n b in
           n ← rd buf src; Some (src + 1, n, d)
         else
           bytes ← rd_bytes src n;
           d ← put len d bytes;
           let src := src + n in
           n ← rd buf src;
           d ← (if negb (n =? 0) then put len d ["."%cc] else Some d);
           Some (src + 1, n, d));
      if n =? 0 then Some d else copy_loop fuel' len src n d
  end.

(** The result and the name; [want] is [name != NULL]. *)
Definition ngx_resolver_copy (alloc : Z -> bool) (want : bool) (src : Z) : option (Z * option (list Z)) :=
  r ← length_loop 128 src (-1);
  match r with
  | Walk_out | Walk_loop => Some (NGX_ERROR, None)
  | Walk_done len =>
      if negb want then Some (NGX_OK, None)
      else if len =? -1 then Some (NGX_OK, Some [])
      else if negb (alloc len) then Some (NGX_ERROR, None)
      else
        n ← rd buf src;
        d ← copy_loop 128 len (src + 1) n [];
        Some (NGX_OK, Some d)
  end.

(** * Answers *)

Inductive skipped := Found (i : Z) | Test_length (i : Z) | Short.

(** [while (i < last)]: the name of an answer is passed over. *)
Fixpoint skip_loop (fuel : nat) (i : Z) : option skipped :=
  match fuel with
  | O => None
  | S fuel' =>
      if i <? last then
        c ← rd buf i;
        if is_pointer c then Some (Found (i + 2))
        else if c =? 0 then Some (Test_length (i + 1))
        else skip_loop fuel' (i + (1 + c))
      else Some Short
  end.

Inductive answers_error := Short_response | Invalid_name.

(** What the first pass over the answers has found: the number of addresses, the last
    one, the alias, and the types that are logged as unexpected. *)
Record scan := mk_scan { sc_naddrs : Z; sc_addr : list Z; sc_cname : option Z; sc_qtype : Z; sc_log : list Z }.

Definition skip_answer_name (i : Z) : option (answers_error + Z) :=
  r ← skip_loop (Z.to_nat last + 1) i;
  Some (match r with
        | Short => inl Short_response
        | Test_length j => if j - i <? 2 then inl Invalid_name else inr j
        | Found j => inr j
        end).

Fixpoint answers_loop (nan : nat) (i : Z) (s : scan) : option (answers_error + scan) :=
  match nan with
  | O => Some (inr s)
  | S nan' =>
      r ← skip_answer_name i;
      match r with
      | inl e => Some (inl e)
      | inr i =>
          if last <=? i + sizeof_an then Some (inl Short_response)
          else
            qtype ← rd16 i;
            len ← rd16 (i + 8);
            if qtype =? NGX_RESOLVE_A then
              let i := i + sizeof_an in
              if last <? i + len then Some (inl Short_response)
              else
                addr ← rd_bytes i 4;
                answers_loop nan' (i + len) (mk_scan (sc_naddrs s + 1) addr (sc_cname s) qtype (sc_log s))
            else if qtype =? NGX_RESOLVE_CNAME then
              answers_loop nan' (i + sizeof_an + len) (mk_scan (sc_naddrs s) (sc_addr s) (Some (i + sizeof_an)) qtype (sc_log s))
            else if qtype =? NGX_RESOLVE_DNAME then
              answers_loop nan' (i + sizeof_an + len) (mk_scan (sc_naddrs s) (sc_addr s) (sc_cname s) qtype (sc_log s))
            else
              answers_loop nan' i (mk_scan (sc_naddrs s) (sc_addr s) (sc_cname s) qtype (sc_log s ++ [qtype]))
      end
  end.

(** [for ( ;; )] of the second pass, without a test of the end. *)
Fixpoint pass_loop (fuel : nat) (i : Z) : option Z :=
  match fuel with
  | O => None
  | S fuel' =>
      c ← rd buf i;
      if is_pointer c then Some (i + 2)
      else if c =? 0 then Some (i + 1)
      else pass_loop fuel' (i + (1 + c))
  end.

(** The second pass: the addresses. *)
Fixpoint collect_loop (nan : nat) (naddrs i : Z) (addrs : list (list Z)) : option (list (list Z)) :=
  match nan with
  | O => Some addrs
  | S nan' =>
      i ← pass_loop (length buf + 1) i;
      qtype ← rd16 i;
      len ← rd16 (i + 8);
      let i := i + sizeof_an in
      if qtype =? NGX_RESOLVE_A then
        addr ← rd_bytes i 4;
        let addrs := addrs ++ [addr] in
        if Z.of_nat (length addrs) =? naddrs then Some addrs
        else collect_loop nan' naddrs (i + len) addrs
      else collect_loop nan' naddrs (i + len) addrs
  end.

Inductive answers_result := Bad_response (e : answers_error) | No_memory | Addresses (l : list (list Z)) | Alias (name : list Z) | Bad_alias | No_address (qtype : Z).

(** The answers from [ans] on. *)
Definition read_answers (alloc : Z -> bool) (nan : nat) (ans : Z) : option answers_result :=
  r ← answers_loop nan ans (mk_scan 0 [0; 0; 0; 0] None 0 []);
  match r with
  | inl e => Some (Bad_response e)
  | inr s =>
      if negb (sc_naddrs s =? 0) then
        if sc_naddrs s =? 1 then Some (Addresses [sc_addr s])
        else if negb (alloc (sc_naddrs s * 4)) then Some No_memory
        else l ← collect_loop nan (sc_naddrs s) ans []; Some (Addresses l)
      else
        match sc_cname s with
        | Some cname =>
            '(rc, name) ← ngx_resolver_copy alloc true cname;
            Some (match name with Some name => if rc =? NGX_OK then Alias name else Bad_alias | None => Bad_alias end)
        | None => Some (No_address (sc_qtype s))
        end
  end.

(** ** Responses for names *)

Inductive a_response := A_bad_name | A_unexpected | A_wrong_ident | A_failed (code : Z) | A_answers (a : answers_result).

(** [expects] is the ident of the query that is under way for a name, if there is one. *)
Definition ngx_resolver_process_a (alloc : Z -> bool) (expects : list Z -> option Z) (ident code : Z) (nan : nat) (ans : Z) : option a_response :=
  '(rc, name) ← ngx_resolver_copy alloc true 12;
  match name with
  | None => Some A_bad_name
  | Some name =>
      match expects name with
      | None => Some A_unexpected
      | Some qident =>
          if negb (ident =? qident) then Some A_wrong_ident
          else
            let code := if (code =? 0) && (nan =? 0)%nat then NGX_RESOLVE_NXDOMAIN else code in
            if negb (code =? 0) then Some (A_failed code)
            else A_answers <$> read_answers alloc nan ans
      end
  end.

(** ** Responses for addresses *)

(** [ngx_atoi(&buf[i], len)]: the bytes up to the first one that is no digit are read. *)
Definition atoi_at (i len : Z) : option Z :=
  let line := take (Z.to_nat len) (drop (Z.to_nat i) buf) in
  if (Z.of_nat (length line) <? len) && forallb is_digit line then None else Some (ngx_atoi line).

(** [ngx_strcmp(&buf[i], s) == 0], [s] with its zero. *)
Fixpoint strcmp_at (i : Z) (s : list Z) : option bool :=
  match s with
  | [] => Some true
  | c :: s' => b ← rd buf i; if b =? c then strcmp_at (i + 1) s' else Some false
  end.

Definition in_addr_arpa : list Z := 7 :: cstr "in-addr" ++ 4 :: cstr "arpa" ++ [0].

(** The four numbers of the name, and where they end. *)
Fixpoint digits_at (k : nat) (i mask addr : Z) : option (option (Z * Z)) :=
  match k with
  | O => Some (Some (addr, i))
  | S k' =>
      len ← rd buf i;
      let i := i + 1 in
      digit ← atoi_at i len;
      if (digit =? NGX_ERROR) || (255 <? digit) then Some None
      else digits_at k' (i + len) (mask + 8) (u32 (addr + Z.shiftl digit mask))
  end.

Inductive ptr_response :=
| Ptr_bad_arpa | Ptr_unexpected | Ptr_wrong_ident | Ptr_failed (code : Z) | Ptr_short | Ptr_invalid | Ptr_bad_name | Ptr_name (addr : Z) (name : list Z).

Definition ngx_resolver_process_ptr (alloc : Z -> bool) (expects : Z -> option Z) (ident code : Z) (nan : nat) : option ptr_response :=
  '(rc, _) ← ngx_resolver_copy alloc false 12;
  if negb (rc =? NGX_OK) then Some Ptr_bad_arpa
  else
    digits ← digits_at 4 12 0 0;
    match digits with
    | None => Some Ptr_bad_arpa
    | Some (addr, i) =>
        same ← strcmp_at i in_addr_arpa;
        if negb same then Some Ptr_bad_arpa
        else
          match expects addr with
          | None => Some Ptr_unexpected
          | Some qident =>
              if negb (ident =? qident) then Some Ptr_wrong_ident
              else
                let code := if (code =? 0) && (nan =? 0)%nat then NGX_RESOLVE_NXDOMAIN else code in
                if negb (code =? 0) then Some (Ptr_failed code)
                else
                  let i := i + 14 + sizeof_qs in
                  if last <? i + 2 + sizeof_an then Some Ptr_short
                  else
                    c ← rd buf i; c' ← rd buf (i + 1);
                    if negb (c =? 0xc0) || negb (c' =? 0x0c) then Some Ptr_invalid
                    else
                      len ← rd16 (i + 2 + 8);
                      let i := i + (2 + sizeof_an) in
                      if last <? i + len then Some Ptr_short
                      else
                        '(rc, name) ← ngx_resolver_copy alloc true i;
                        Some (match name with Some name => Ptr_name addr name | None => Ptr_bad_name end)
          end
    end.

(** * Responses *)

Inductive response :=
| Short_message | Not_a_response | Formerr | Dns_error (code : Z) | Bad_questions | Zero_name | Unknown_class (c : Z) | Unknown_type (t : Z)
| Process_a (ident code nan ans : Z) | Process_ptr (ident code nan : Z).

(** [for (q = ngx_queue_head(...); q != ngx_queue_sentinel(...) || times++ < 100; ...)] on
    the idents of the queries in the queue: after the last one the head of the queue itself
    is taken for a query. *)
Fixpoint formerr_loop (idents : list Z) (ident : Z) : option response :=
  match idents with
  | [] => None
  | qident :: idents' => if qident =? ident then Some Formerr else formerr_loop idents' ident
  end.

(** [while (i < n)]: the end of the name of the question. *)
Fixpoint question_loop (fuel : nat) (i : Z) : option (option Z) :=
  match fuel with
  | O => None
  | S fuel' =>
      if i <? last then
        c ← rd buf i;
        if c =? 0 then Some (Some i) else question_loop fuel' (i + (1 + c))
      else Some None
  end.

Definition ngx_resolver_process_response (idents : list Z) : option response :=
  if last <? sizeof_query then Some Short_message
  else
    ident ← rd16 0; flags ← rd16 2; nqs ← rd16 4; nan ← rd16 6;
    if Z.land flags 0x8000 =? 0 then Some Not_a_response
    else
      let code := Z.land flags 0x7f in
      if code =? NGX_RESOLVE_FORMERR then formerr_loop idents ident
      else if NGX_RESOLVE_REFUSED <? code then Some (Dns_error code)
      else if negb (nqs =? 1) then Some Bad_questions
      else
        found ← question_loop (Z.to_nat last + 1) sizeof_query;
        match found with
        | None => Some Short_message
        | Some i =>
            if i =? 0 then Some Zero_name
            else
              let i := i + 1 in
              if last <? i + sizeof_qs + nan * (2 + sizeof_an) then Some Short_message
              else
                qtype ← rd16 i; qclass ← rd16 (i + 2);
                if negb (qclass =? 1) then Some (Unknown_class qclass)
                else if qtype =? NGX_RESOLVE_A then Some (Process_a ident code nan (i + sizeof_qs))
                else if qtype =? NGX_RESOLVE_PTR then Some (Process_ptr ident code nan)
                else Some (Unknown_type qtype)
        end.
End message.

(** * Queries *)

(** The header with the ident, one question and the recursion flag. *)
Definition query_header (ident : Z) : list Z :=
  [u8 (Z.land (Z.shiftr ident 8) 0xff); u8 (Z.land ident 0xff); 1; 0; 0; 1; 0; 0; 0; 0; 0; 0].

(** From the end of the name on: the bytes that follow and the length of the label. *)
Fixpoint qname_loop (s : list Z) (len : Z) (acc : list Z) : option (list Z) :=
  match s with
  | [] => Some (u8 len :: acc)
  | c :: s' =>
      if negb (c =? "."%cc) then qname_loop s' (len + 1) (c :: acc)
      else if len =? 0 then None
      else qname_loop s' 0 (u8 len :: acc)
  end.

(** The result and [rn->query]; the name is written backwards up to the end of the room
    it has. *)
Definition ngx_resolver_create_name_query (alloc : Z -> bool) (ident type : Z) (name : list Z) : Z * option (list Z) :=
  let nlen := if (length name =? 0)%nat then 1 else 1 + Z.of_nat (length name) + 1 in
  let len := sizeof_query + nlen + sizeof_qs in
  if negb (alloc len) then (NGX_ERROR, None)
  else
    match qname_loop (rev name) 0 [0] with
    | None => (NGX_DECLINED, None)
    | Some qname => (NGX_OK, Some (take (Z.to_nat (sizeof_query + nlen) - length qname) (query_header ident) ++ qname ++ [0; u8 type; 0; 1]))
    end.

(** [ngx_sprintf(&p[1], "%ud", (ctx->addr >> n) & 0xff)], with its length before it; [p] is an address. *)
Fixpoint addr_labels (k : nat) (p addr n : Z) : option (list Z) :=
  match k with
  | O => Some []
  | S k' =>
      d ← ngx_sprintf (p + 1) (cstr "%ud") [va_int (Z.land (Z.shiftr addr n) 0xff)];
      rest ← addr_labels k' (p + 1 + Z.of_nat (length d)) addr (n + 8);
      Some (u8 (Z.of_nat (length d)) :: d ++ rest)
  end.

(** [p] is where the allocated memory is. *)
Definition ngx_resolver_create_addr_query (alloc : Z -> bool) (p ident addr : Z) : option (Z * option (list Z)) :=
  if negb (alloc (sizeof_query + 30 + sizeof_qs)) then Some (NGX_ERROR, None)
  else
    labels ← addr_labels 4 (p + sizeof_query) addr 0;
    Some (NGX_OK, Some (query_header ident ++ labels ++ in_addr_arpa ++ [0; NGX_RESOLVE_PTR; 0; 1])).

(** * Names, as they are meant

    RFC 1035, 4.1.4: a name is a sequence of labels that ends with a root label or goes on
    at the place a pointer gives. *)

Inductive item := Label (l : list Z) | Pointer (t : Z).

Fixpoint labels (l : list item) : list (list Z) :=
  match l with
  | [] => []
  | Label b :: l' => b :: labels l'
  | Pointer _ :: l' => labels l'
  end.

Fixpoint ends_in_label (l : list item) : bool :=
  match l with
  | [] => false
  | [Label _] => true
  | _ :: l' => ends_in_label l'
  end.

(** "www.example.com" *)
Fixpoint join_dots (ls : list (list Z)) : list Z :=
  match ls with
  | [] => []
  | [l] => l
  | l :: ls' => l ++ "."%cc :: join_dots ls'
  end.

Definition items_len (l : list item) : Z := foldr (fun x n => match x with Label b => 1 + Z.of_nat (length b) | Pointer _ => 0 end + n) 0 l.

Lemma is_pointer_byte n : is_byte n -> is_pointer n = (64 <=? n).
Proof.
  intros Hn. pose proof (byte_forall (fun c => eqb (is_pointer c) (64 <=? c)) ltac:(by vm_compute) n Hn) as H. by apply eqb_prop in H.
Qed.

Lemma pointer_target_low n b : is_byte n -> is_byte b -> pointer_target n b = (n * 256 + b) mod 16384.
Proof.
  unfold is_byte, pointer_target. intros Hn Hb. change 0x3f with (Z.ones 6). rewrite Z.land_ones, Z.shiftl_mul_pow2 by lia. change (2 ^ 6) with 64. change (2 ^ 8) with 256.
  pose proof (Z.mod_pos_bound n 64 ltac:(lia)). pose proof (Z.div_mod n 64 ltac:(lia)). apply (Z.mod_unique _ _ (n / 64)); [left|]; lia.
Qed.

Lemma pointer_low_pos n b : 0 <= (n * 256 + b) mod 16384.
Proof. by apply Z.mod_pos_bound. Qed.

Section names.
Context (buf : list Z) (last : Z).

(** A name at [p], by the lengths of its parts: a zero ends it, a number below 64 is the
    length of a label, and anything else is the first byte of a pointer, whose 14 low bits
    are the offset it points to (RFC 1035, 4.1.4, which has 192 and more for pointers and
    nothing for 64 to 191). *)
Inductive dns_name_at : Z -> list item -> Prop :=
| name_root p : rd buf p = Some 0 -> dns_name_at p []
| name_label p n bytes l :
    rd buf p = Some n -> 0 < n < 64 -> rd_bytes buf (p + 1) n = Some bytes -> p + 1 + n < last ->
    dns_name_at (p + 1 + n) l -> dns_name_at p (Label bytes :: l)
| name_pointer p n b t l :
    rd buf p = Some n -> 64 <= n < 256 -> rd buf (p + 1) = Some b -> t = (n * 256 + b) mod 16384 -> t < last ->
    dns_name_at t l -> dns_name_at p (Pointer t :: l).

Context (buf_bytes : is_bytes buf) (last_in : last < Z.of_nat (length buf)).

Lemma rd_byte_of p c : rd buf p = Some c -> is_byte c.
Proof. unfold rd. case_match; [done|]. intros Hc. unfold is_bytes in buf_bytes. rewrite Forall_lookup in buf_bytes. by eapply buf_bytes. Qed.

Lemma rd_bytes_total i n : 0 <= i -> i + n <= Z.of_nat (length buf) -> 0 <= n ->
  exists l, rd_bytes buf i n = Some l /\ Z.of_nat (length l) = n.
Proof.
  intros Hi Hn Hn0. unfold rd_bytes. destruct (mapM (rd buf) (seqZ i n)) as [l|] eqn:E.
  - exists l. split; [done|]. apply mapM_Some, Forall2_length in E. rewrite length_seqZ in E. lia.
  - exfalso. apply mapM_None, Exists_exists in E as (j & Hj%elem_of_seqZ & E). destruct (rd_in buf j) as [c Hc]; [lia|]. congruence.
Qed.

Lemma name_at_cons p x l : dns_name_at p (x :: l) -> exists n, rd buf p = Some n /\ n <> 0.
Proof. inversion 1; subst; eexists; (split; [done|]); lia. Qed.

(** The first pass follows the name. *)
Lemma length_loop_run i p len : 0 <= p < last ->
  (exists l, dns_name_at p l /\ (length l < i)%nat /\ length_loop buf last i p len = Some (Walk_done (len + items_len l))) \/
  ((forall l, dns_name_at p l -> (i <= length l)%nat) /\ (length_loop buf last i p len = Some Walk_out \/ length_loop buf last i p len = Some Walk_loop)).
Proof.
  revert p len. induction i as [|i IH]; intros p len Hp; [right; split; [intros; lia|by right]|]. cbn [length_loop].
  destruct (rd_in buf p) as [n Hn]; [lia|]. pose proof (rd_byte_of _ _ Hn) as Hb. rewrite Hn. cbn [mbind option_bind].
  destruct (Z.eqb_spec n 0) as [-> |Hn0].
  { left. exists []. split_and!; [by constructor|cbn; lia|cbn; do 2 f_equal; lia]. }
  rewrite is_pointer_byte by done. destruct (Z.leb_spec 64 n) as [Ep|Ep].
  - destruct (rd_in buf (p + 1)) as [b Hb1]; [lia|]. rewrite Hb1. cbn [mbind option_bind]. rewrite pointer_target_low by (done || exact (rd_byte_of _ _ Hb1)).
    pose proof (pointer_low_pos n b). set (t := (n * 256 + b) mod 16384) in *. destruct (Z.leb_spec last t).
    + right. split; [|by left]. intros l Hl. inversion Hl; subst; simplify_eq; try lia.
    + destruct (IH t len ltac:(lia)) as [(l & Hl & Hlen & E)|[Hno E]].
      * left. exists (Pointer t :: l). split_and!; [apply (name_pointer p n b); [done|unfold is_byte in Hb; lia|done..]|cbn; lia|]. rewrite E. do 2 f_equal.
      * right. split; [|done]. intros l Hl. inversion Hl; subst; simplify_eq; try lia. cbn. apply le_n_S. by apply Hno.
  - cbn [mbind option_bind]. unfold is_byte in Hb. destruct (Z.leb_spec last (p + 1 + n)).
    + right. split; [|by left]. intros l Hl. inversion Hl; subst; simplify_eq; lia.
    + destruct (rd_bytes_total (p + 1) n ltac:(lia) ltac:(lia) ltac:(lia)) as (bytes & Hbytes & Hblen).
      destruct (IH (p + 1 + n) (len + (1 + n)) ltac:(lia)) as [(l & Hl & Hlen & E)|[Hno E]].
      * left. exists (Label bytes :: l). split_and!; [eapply name_label; [done|lia|done..]|cbn; lia|]. rewrite E. do 2 f_equal. cbn. unfold items_len. lia.
      * right. split; [|done]. intros l Hl. inversion Hl; subst; simplify_eq; try lia. cbn. apply le_n_S. by apply Hno.
Qed.

(** What the second pass writes: a dot after every label that is not followed by the root. *)
Fixpoint copied (l : list item) : list Z :=
  match l with
  | [] => []
  | Label b :: l' => b ++ match l' with [] => [] | _ => ["."%cc] end ++ copied l'
  | Pointer _ :: l' => copied l'
  end.

Lemma copied_length l : Z.of_nat (length (copied l)) = items_len l - (if ends_in_label l then 1 else 0).
Proof.
  induction l as [|[b|t] l IH]; [done| |]; cbn [copied].
  - destruct l as [|y l]; [cbn [copied ends_in_label]; rewrite !app_nil_r; unfold items_len; cbn [foldr]; lia|]. rewrite !length_app. cbn [length]. change (ends_in_label (Label b :: y :: l)) with (ends_in_label (y :: l)).
    cbn [items_len foldr] in *. unfold items_len in *. cbn [foldr] in *. lia.
  - rewrite IH. destruct l; cbn; lia.
Qed.

Lemma labels_nil l : labels l = [] <-> items_len l = 0.
Proof.
  assert (forall l, 0 <= items_len l) as Hpos by (induction l0 as [|[b|t] l0 IH]; cbn; unfold items_len in *; lia).
  induction l as [|[b|t] l IH]; cbn; [done| |done]. pose proof (Hpos l). unfold items_len in *. split; [done|lia].
Qed.

Lemma copied_join l : ends_in_label l = true -> copied l = join_dots (labels l).
Proof.
  induction l as [|[b|t] l IH]; [done| |]; cbn [copied labels].
  - destruct l as [|y l]; [intros _; cbn; apply app_nil_r|]. intros E. change (ends_in_label (y :: l) = true) in E. rewrite (IH E).
    assert (labels (y :: l) <> []) as Hne.
    { intros Hn%labels_nil. pose proof (copied_length (y :: l)) as Hc. rewrite E, Hn in Hc. lia. }
    destruct (labels (y :: l)) as [|c ls]; [done|]. done.
  - destruct l; [done|]. intros E. by apply IH.
Qed.

Lemma resolver_put_run len d bytes : put len d bytes = if Z.of_nat (length (d ++ bytes)) <=? len then Some (d ++ bytes) else None.
Proof. unfold put. rewrite length_app, Nat2Z.inj_add. done. Qed.

Lemma copy_loop_run l x p n len fuel d :
  dns_name_at p (x :: l) -> rd buf p = Some n -> (length l < fuel)%nat -> Z.of_nat (length d) <= len ->
  copy_loop buf fuel len (p + 1) n d = if Z.of_nat (length (d ++ copied (x :: l))) <=? len then Some (d ++ copied (x :: l)) else None.
Proof.
  revert x p n fuel d. induction l as [|y l IH]; intros x p n fuel d Hname Hn Hf Hd; (destruct fuel as [|fuel]; [cbn in Hf; lia|]); cbn [copy_loop].
  - inversion Hname as [|p' n' bytes l' Hn' Hp Hb Hlast Hrest|p' n' b t l' Hn' Hp Hb Ht Hlast Hrest]; subst; simplify_eq;
      rewrite is_pointer_byte by (exact (rd_byte_of _ _ Hn)); destruct (Z.leb_spec 64 n); try lia;
      (assert (rd buf _ = Some 0) as Hz by (inversion Hrest; eassumption)).
    + rewrite Hb. cbn [mbind option_bind]. rewrite resolver_put_run. cbn [copied]. rewrite !app_nil_r. case_match; [|done]. cbn [mbind option_bind]. rewrite Hz. done.
    + rewrite Hb. cbn [mbind option_bind]. rewrite pointer_target_low by (exact (rd_byte_of _ _ Hn) || exact (rd_byte_of _ _ Hb)). rewrite Hz. cbn. rewrite app_nil_r. by destruct (Z.leb_spec (Z.of_nat (length d)) len); [|lia].
  - inversion Hname as [|p' n' bytes l' Hn' Hp Hb Hlast Hrest|p' n' b t l' Hn' Hp Hb Ht Hlast Hrest]; subst; simplify_eq;
      rewrite is_pointer_byte by (exact (rd_byte_of _ _ Hn)); destruct (Z.leb_spec 64 n); try lia;
      destruct (name_at_cons _ _ _ Hrest) as (m & Hm & Hm0); cbn in Hf.
    + rewrite Hb. cbn [mbind option_bind]. rewrite resolver_put_run. change (copied (Label bytes :: y :: l)) with (bytes ++ ["."%cc] ++ copied (y :: l)). set (rest := copied (y :: l)) in *.
      destruct (Z.leb_spec (Z.of_nat (length (d ++ bytes))) len); cbn [mbind option_bind].
      2: { destruct (Z.leb_spec (Z.of_nat (length (d ++ bytes ++ ["."%cc] ++ rest))) len) as [Hle|]; [|done]. rewrite !length_app in *. lia. }
      rewrite Hm. cbn [mbind option_bind]. destruct (Z.eqb_spec m 0); [done|]. cbn [negb]. rewrite resolver_put_run.
      destruct (Z.leb_spec (Z.of_nat (length ((d ++ bytes) ++ ["."%cc]))) len); cbn [mbind option_bind].
      2: { destruct (Z.leb_spec (Z.of_nat (length (d ++ bytes ++ ["."%cc] ++ rest))) len) as [Hle|]; [|done]. rewrite !length_app in *. lia. }
      destruct (Z.eqb_spec m 0); [done|]. rewrite (IH y (p + 1 + n) m fuel _ Hrest Hm) by (done || lia). fold rest. by rewrite <- !app_assoc.
    + rewrite Hb. cbn [mbind option_bind]. rewrite pointer_target_low by (exact (rd_byte_of _ _ Hn) || exact (rd_byte_of _ _ Hb)).
      rewrite Hm. cbn [mbind option_bind]. destruct (Z.eqb_spec m 0); [done|].
      by rewrite (IH y _ m fuel _ Hrest Hm) by (done || lia).
Qed.

(** The outcome for a name of the items [l]. *)
Definition copy_outcome (alloc : Z -> bool) (l : list item) : option (Z * option (list Z)) :=
  match labels l with
  | [] => Some (NGX_OK, Some [])
  | ls =>
      if negb (alloc (items_len l - 1)) then Some (NGX_ERROR, None)
      else if ends_in_label l then Some (NGX_OK, Some (join_dots ls)) else None
  end.

Lemma resolver_copy_run alloc src : 0 <= src < last ->
  (exists l, dns_name_at src l /\ (length l < 128)%nat /\ ngx_resolver_copy buf last alloc true src = copy_outcome alloc l /\
     ngx_resolver_copy buf last alloc false src = Some (NGX_OK, None)) \/
  ((forall l, dns_name_at src l -> (128 <= length l)%nat) /\ forall want, ngx_resolver_copy buf last alloc want src = Some (NGX_ERROR, None)).
Proof.
  intros Hs. unfold ngx_resolver_copy. destruct (length_loop_run 128 src (-1) Hs) as [(l & Hl & Hlen & E)|[Hno E]].
  - left. exists l. rewrite E. cbn [mbind option_bind negb]. split_and!; [done|done| |done].
    unfold copy_outcome. destruct (Z.eqb_spec (-1 + items_len l) (-1)).
    { rewrite (proj2 (labels_nil l)) by lia. done. }
    assert (labels l <> []) as Hne by (intros Hx%labels_nil; lia). destruct (labels l) as [|b ls] eqn:El; [done|]. rewrite <- El.
    replace (items_len l - 1) with (-1 + items_len l) by lia. destruct (alloc (-1 + items_len l)); [|done]. cbn [negb].
    destruct l as [|x l]; [done|]. destruct (name_at_cons _ _ _ Hl) as (c & Hn & _). rewrite Hn. cbn [mbind option_bind].
    pose proof (copied_length (x :: l)) as Hc. assert (0 < items_len (x :: l)) by (destruct (ends_in_label (x :: l)); lia).
    rewrite (copy_loop_run l x src c _ 128 []) by (done || (cbn in *; lia)). cbn [app]. destruct (ends_in_label (x :: l)) eqn:Ee.
    + destruct (Z.leb_spec (Z.of_nat (length (copied (x :: l)))) (-1 + items_len (x :: l))); [|lia]. cbn [mbind option_bind]. by rewrite copied_join.
    + by destruct (Z.leb_spec (Z.of_nat (length (copied (x :: l)))) (-1 + items_len (x :: l))); [lia|].
  - right. split; [done|]. intros want. by destruct E as [-> | ->].
Qed.
End names.

(** * Queries that are read back *)

(** "\3www\7example\3com" *)
Definition wire (ls : list (list Z)) : list Z := concat ((fun l => Z.of_nat (length l) :: l) <$> ls).

Definition label_ok (l : list Z) : Prop := 1 <= Z.of_nat (length l) <= 63 /\ ("."%cc ∉ l) /\ is_bytes l.

Lemma not_elem_rev {A} (x : A) l : x ∉ l -> x ∉ rev l.
Proof. by rewrite !list_elem_of_In, <- in_rev. Qed.

Lemma qname_label r rest len acc : "."%cc ∉ r -> qname_loop (r ++ rest) len acc = qname_loop rest (len + Z.of_nat (length r)) (rev r ++ acc).
Proof.
  revert len acc. induction r as [|c r IH]; intros len acc Hr; [cbn; f_equal; lia|]. apply not_elem_of_cons in Hr as [Hc Hr]. cbn [app qname_loop].
  destruct (Z.eqb_spec c "."%cc) as [-> |]; [done|]. cbn [negb]. rewrite IH by done. cbn [rev length]. rewrite <- app_assoc. f_equal. lia.
Qed.

Lemma qname_join ls l rest acc : Forall label_ok (l :: ls) ->
  qname_loop (rev (join_dots (l :: ls)) ++ rest) 0 acc = qname_loop rest (Z.of_nat (length l)) (l ++ wire ls ++ acc).
Proof.
  revert l rest. induction ls as [|l2 ls IH]; intros l rest Hls.
  - apply Forall_cons in Hls as [(_ & Hl & _) _]. cbn [join_dots]. rewrite qname_label by (by apply not_elem_rev).
    rewrite length_rev, rev_involutive. done.
  - apply Forall_cons in Hls as [(Hlen & Hl & _) Hls]. change (join_dots (l :: l2 :: ls)) with (l ++ "."%cc :: join_dots (l2 :: ls)).
    rewrite rev_app_distr. cbn [rev]. rewrite <- !app_assoc. cbn [app]. rewrite IH by done. cbn [qname_loop]. rewrite Z.eqb_refl. cbn [negb].
    apply Forall_cons in Hls as [(Hlen2 & _) _]. destruct (Z.eqb_spec (Z.of_nat (length l2)) 0); [lia|].
    rewrite qname_label by (by apply not_elem_rev). rewrite length_rev, rev_involutive, wrap_small by lia. f_equal. unfold wire. cbn. by rewrite <- app_assoc.
Qed.

Lemma wire_length ls : Z.of_nat (length (wire ls)) = foldr (fun l n => 1 + Z.of_nat (length l) + n) 0 ls.
Proof. induction ls as [|l ls IH]; [done|]. unfold wire in *. cbn [fmap list_fmap concat foldr length app]. rewrite length_app. lia. Qed.

Lemma join_length ls l : Z.of_nat (length (join_dots (l :: ls))) = Z.of_nat (length (wire (l :: ls))) - 1.
Proof.
  revert l. induction ls as [|l2 ls IH]; intros l; rewrite wire_length; [cbn [join_dots foldr]; lia|].
  change (join_dots (l :: l2 :: ls)) with (l ++ "."%cc :: join_dots (l2 :: ls)). rewrite length_app. cbn [length]. rewrite Nat2Z.inj_add, Nat2Z.inj_succ, IH, wire_length.
  cbn [foldr]. lia.
Qed.

(** The query for a name. *)
Lemma name_query alloc ident type ls l : Forall label_ok (l :: ls) -> (forall n, alloc n = true) ->
  ngx_resolver_create_name_query alloc ident type (join_dots (l :: ls)) =
  (NGX_OK, Some (query_header ident ++ wire (l :: ls) ++ [0] ++ [0; u8 type; 0; 1])).
Proof.
  intros Hls Ha. unfold ngx_resolver_create_name_query. rewrite Ha. cbn [negb]. pose proof (join_length ls l) as Hj. pose proof (qname_join ls l [] [0] Hls) as Hq.
  rewrite app_nil_r in Hq. rewrite Hq. cbn [qname_loop]. assert (label_ok l) as [Hl _] by (by apply Forall_cons in Hls as [? _]).
  assert (u8 (Z.of_nat (length l)) :: l ++ wire ls ++ [0] = wire (l :: ls) ++ [0]) as E.
  { rewrite wrap_small by lia. unfold wire. cbn. by rewrite <- app_assoc. }
  rewrite E. destruct (Nat.eqb_spec (length (join_dots (l :: ls))) 0).
  { pose proof (wire_length (l :: ls)) as Hw. cbn [foldr] in Hw. assert (0 <= foldr (fun l n => 1 + Z.of_nat (length l) + n) 0 ls) by (clear; induction ls; cbn; lia). lia. }
  rewrite take_ge, <- app_assoc; [done|]. rewrite length_app. unfold sizeof_query. cbn [length query_header]. lia.
Qed.

Lemma rd_bytes_app a l b : rd_bytes (a ++ l ++ b) (Z.of_nat (length a)) (Z.of_nat (length l)) = Some l.
Proof.
  unfold rd_bytes. apply mapM_Some, Forall2_same_length_lookup_2; [rewrite length_seqZ; lia|]. intros i x c Hx Hc.
  apply lookup_seqZ in Hx as [-> Hi]. rewrite rd_app_r. by apply lookup_app_l_Some.
Qed.

Lemma rd_first pre c rest : rd (pre ++ c :: rest) (Z.of_nat (length pre)) = Some c.
Proof. pose proof (rd_app_r pre (c :: rest) 0) as H. by rewrite Z.add_0_r in H. Qed.

(** The labels of a question. *)
Lemma name_at_wire ls : forall pre rest last, Forall label_ok ls -> Z.of_nat (length (pre ++ wire ls)) < last ->
  dns_name_at (pre ++ wire ls ++ 0 :: rest) last (Z.of_nat (length pre)) (Label <$> ls).
Proof.
  induction ls as [|l ls IH]; intros pre rest last Hls Hlast.
  - apply name_root. apply rd_first.
  - apply Forall_cons in Hls as [(Hl & _ & _) Hls]. assert (wire (l :: ls) = Z.of_nat (length l) :: l ++ wire ls) as Ew by done. rewrite Ew in *.
    rewrite !length_app in Hlast. cbn [length] in Hlast. rewrite length_app in Hlast.
    assert (pre ++ (Z.of_nat (length l) :: l ++ wire ls) ++ 0 :: rest = (pre ++ [Z.of_nat (length l)]) ++ l ++ wire ls ++ 0 :: rest) as E1.
    { rewrite <- !app_assoc. cbn. by rewrite <- app_assoc. }
    rewrite E1. apply name_label with (n := Z.of_nat (length l)).
    + rewrite <- E1. apply rd_first.
    + lia.
    + replace (Z.of_nat (length pre) + 1) with (Z.of_nat (length (pre ++ [Z.of_nat (length l)]))) by (rewrite length_app; cbn; lia). apply rd_bytes_app.
    + lia.
    + replace (Z.of_nat (length pre) + 1 + Z.of_nat (length l)) with (Z.of_nat (length ((pre ++ [Z.of_nat (length l)]) ++ l))) by (rewrite !length_app; cbn; lia).
      rewrite app_assoc. apply IH; [done|]. rewrite !length_app. cbn. lia.
Qed.

Lemma labels_fmap ls : labels (Label <$> ls) = ls.
Proof. induction ls as [|l ls IH]; [done|]. cbn. f_equal. apply IH. Qed.

Lemma ends_fmap ls l : ends_in_label (Label <$> (l :: ls)) = true.
Proof. revert l. induction ls as [|l2 ls IH]; intros l; [done|]. exact (IH l2). Qed.

Lemma name_at_det buf last p l l' : dns_name_at buf last p l -> dns_name_at buf last p l' -> l = l'.
Proof.
  intros H. revert l'. induction H as [p H|p n bytes l Hn Hp Hb Hlast H IH|p n b t l Hn Hp Hb -> Hlast H IH]; intros l' H'; inversion H'; subst; simplify_eq; try lia; f_equal; by apply IH.
Qed.

(** ** Addresses *)

Lemma resolver_print_ud p n : 0 <= p <= 2 ^ 62 -> is_byte n -> ngx_sprintf p (cstr "%ud") [va_int n] = Some (decimal n).
Proof.
  unfold is_byte. intros Hp Hn. destruct (decimal_digits n) as (Hd & Hl & _); [lia|]. unfold ngx_sprintf.
  assert (run_directive (2 ^ 64 - 1 - p) (cstr "ud") [va_int n] = Some (decimal n, [], [])) as E.
  { unfold run_directive. cbn -[ngx_sprintf_num Z.of_nat decimal Z.pow]. unfold conversion. cbn -[ngx_sprintf_num decimal Z.ltb Z.pow].
    unfold write_number. cbn -[ngx_sprintf_num decimal Z.ltb Z.pow]. rewrite (wrap_small 32), (wrap_small 64) by lia.
    rewrite (sprintf_num_full _ _ _ _ _ (decimal n)) by (done || lia). cbn. by replace (Z.to_nat _) with 0%nat by lia. }
  change (cstr "%ud") with ("%"%cc :: cstr "ud"). rewrite (vslprintf_directive _ _ _ (decimal n) [] []); [|lia|exact E]. cbn. by rewrite app_nil_r.
Qed.

(** A byte of an address, in decimal. *)
Lemma decimal_byte c : is_byte c -> ngx_atoi (decimal c) = c /\ 1 <= Z.of_nat (length (decimal c)) <= 3.
Proof.
  intros Hc. pose proof (byte_forall (fun c => (ngx_atoi (decimal c) =? c) && (1 <=? Z.of_nat (length (decimal c))) && (Z.of_nat (length (decimal c)) <=? 3)) ltac:(by vm_compute) c Hc) as H.
  cbn beta in H. apply andb_true_iff in H as [[H1 H2]%andb_true_iff H3]. split; lia.
Qed.

Definition addr_byte (addr n : Z) : Z := Z.land (Z.shiftr addr n) 0xff.

Lemma addr_byte_byte addr n : is_byte (addr_byte addr n).
Proof. unfold addr_byte, is_byte. change 255 with (Z.ones 8). rewrite Z.land_ones by lia. change 256 with (2 ^ 8). by apply Z.mod_pos_bound. Qed.

(** One number of the name is read back. *)
Lemma digits_step pre c rest k mask acc : is_byte c ->
  digits_at (pre ++ Z.of_nat (length (decimal c)) :: decimal c ++ rest) (S k) (Z.of_nat (length pre)) mask acc =
  digits_at (pre ++ Z.of_nat (length (decimal c)) :: decimal c ++ rest) k (Z.of_nat (length pre) + 1 + Z.of_nat (length (decimal c))) (mask + 8) (u32 (acc + Z.shiftl c mask)).
Proof.
  intros Hc. destruct (decimal_byte c Hc) as [Ha Hl]. cbn [digits_at]. rewrite rd_first. cbn [mbind option_bind]. unfold atoi_at.
  assert (take (Z.to_nat (Z.of_nat (length (decimal c)))) (drop (Z.to_nat (Z.of_nat (length pre) + 1)) (pre ++ Z.of_nat (length (decimal c)) :: decimal c ++ rest)) = decimal c) as ->.
  { replace (Z.to_nat (Z.of_nat (length pre) + 1)) with (length (pre ++ [Z.of_nat (length (decimal c))])) by (rewrite length_app; cbn; lia).
    change (Z.of_nat (length (decimal c)) :: decimal c ++ rest) with ([Z.of_nat (length (decimal c))] ++ decimal c ++ rest). rewrite app_assoc, drop_app_length, Nat2Z.id, take_app_length. done. }
  rewrite Z.ltb_irrefl. cbn [andb mbind option_bind]. rewrite Ha. unfold is_byte, NGX_ERROR in *.
  destruct (Z.eqb_spec c (-1)); [lia|]. destruct (Z.ltb_spec 255 c); [lia|]. done.
Qed.

Fixpoint addr_sum (k : nat) (addr n acc : Z) : Z :=
  match k with O => acc | S k' => addr_sum k' addr (n + 8) (u32 (acc + Z.shiftl (addr_byte addr n) n)) end.

Lemma addr_labels_run k : forall p addr n, 0 <= p -> p + 4 * Z.of_nat k <= 2 ^ 62 - 1 ->
  exists l, addr_labels k p addr n = Some l /\ Z.of_nat (length l) <= 4 * Z.of_nat k /\
    forall pre rest acc, digits_at (pre ++ l ++ rest) k (Z.of_nat (length pre)) n acc = Some (Some (addr_sum k addr n acc, Z.of_nat (length pre) + Z.of_nat (length l))).
Proof.
  induction k as [|k IH]; intros p addr n Hp Hk; [exists []; split_and!; [done|done|]; intros; cbn; do 3 f_equal; lia|].
  pose proof (addr_byte_byte addr n) as Hc. destruct (decimal_byte _ Hc) as [_ Hl]. cbn [addr_labels]. fold (addr_byte addr n). set (c := addr_byte addr n) in *.
  rewrite resolver_print_ud by (done || lia). cbn [mbind option_bind].
  destruct (IH (p + 1 + Z.of_nat (length (decimal c))) addr (n + 8)) as (l & -> & Hlen & Hd); [lia|lia|]. cbn [mbind option_bind]. rewrite wrap_small by lia.
  eexists. split; [done|]. split; [cbn [length]; rewrite length_app; lia|]. intros pre rest acc.
  change ((Z.of_nat (length (decimal c)) :: decimal c ++ l) ++ rest) with (Z.of_nat (length (decimal c)) :: (decimal c ++ l) ++ rest). rewrite <- (app_assoc (decimal c)), digits_step by done.
  assert (pre ++ Z.of_nat (length (decimal c)) :: decimal c ++ l ++ rest = (pre ++ Z.of_nat (length (decimal c)) :: decimal c) ++ l ++ rest) as -> by (by rewrite <- app_assoc).
  replace (Z.of_nat (length pre) + 1 + Z.of_nat (length (decimal c))) with (Z.of_nat (length (pre ++ Z.of_nat (length (decimal c)) :: decimal c))) by (rewrite length_app; cbn [length]; lia).
  rewrite Hd. cbn [addr_sum]. fold c. do 3 f_equal. rewrite !length_app. cbn [length]. rewrite length_app. lia.
Qed.

Lemma addr_sum_all addr : 0 <= addr < 2 ^ 32 -> addr_sum 4 addr 0 0 = addr.
Proof.
  intros Ha. cbn [addr_sum]. unfold addr_byte. change 255 with (Z.ones 8). rewrite !Z.land_ones, !Z.shiftr_div_pow2, !Z.shiftl_mul_pow2 by lia.
  change (0 + 8) with 8. change (8 + 8) with 16. change (16 + 8) with 24. change (2 ^ 0) with 1. change (2 ^ 8) with 256. change (2 ^ 16) with 65536. change (2 ^ 24) with 16777216.
  rewrite Z.div_1_r. change 65536 with (256 * 256). change 16777216 with (256 * 256 * 256). rewrite <- !Z.div_div by lia.
  pose proof (Z.div_mod addr 256 ltac:(lia)). pose proof (Z.div_mod (addr / 256) 256 ltac:(lia)). pose proof (Z.div_mod (addr / 256 / 256) 256 ltac:(lia)).
  pose proof (Z.mod_pos_bound addr 256 ltac:(lia)). pose proof (Z.mod_pos_bound (addr / 256) 256 ltac:(lia)). pose proof (Z.mod_pos_bound (addr / 256 / 256) 256 ltac:(lia)).
  assert (0 <= addr / 256 / 256 / 256 < 256) by (split; [repeat apply Z.div_pos; lia|]; repeat (apply Z.div_lt_upper_bound; [lia|]); lia). rewrite (Z.mod_small (addr / 256 / 256 / 256)) by lia. set (a0 := addr mod 256) in *. set (a1 := (addr / 256) mod 256) in *.
  set (a2 := (addr / 256 / 256) mod 256) in *. set (a3 := addr / 256 / 256 / 256) in *. unfold wrap. change (2 ^ 32) with 4294967296.
  rewrite (Z.mod_small (0 + a0 * 1)), (Z.mod_small (0 + a0 * 1 + _)), (Z.mod_small (0 + a0 * 1 + _ + _)), Z.mod_small by lia. lia.
Qed.

Lemma strcmp_at_app pre s rest : strcmp_at (pre ++ s ++ rest) (Z.of_nat (length pre)) s = Some true.
Proof.
  revert pre. induction s as [|c s IH]; intros pre; [done|]. cbn [strcmp_at app]. rewrite rd_first. cbn [mbind option_bind]. rewrite Z.eqb_refl.
  replace (Z.of_nat (length pre) + 1) with (Z.of_nat (length (pre ++ [c]))) by (rewrite length_app; cbn; lia).
  replace (pre ++ c :: s ++ rest) with ((pre ++ [c]) ++ s ++ rest) by (by rewrite <- app_assoc). apply IH.
Qed.

(** * The two passes over the answers *)

Lemma last_default {A} (x d : A) l : List.last (x :: l) d = List.last l x.
Proof. revert x. induction l as [|y l IH]; intros x; [done|]. cbn [List.last] in *. destruct l; [done|apply (IH x)]. Qed.

Section answers.
Context (buf : list Z) (last : Z).
Context (buf_bytes : is_bytes buf) (last_pos : 0 <= last) (last_in : last + 3 <= Z.of_nat (length buf)).

Lemma skip_pass fuel fuel' i r : (fuel <= fuel')%nat -> skip_loop buf last fuel i = Some r ->
  match r with Found j | Test_length j => pass_loop buf fuel' i = Some j | Short => True end.
Proof.
  revert fuel' i. induction fuel as [|fuel IH]; intros fuel' i Hf; [done|]. destruct fuel' as [|fuel']; [lia|]. cbn [skip_loop pass_loop].
  destruct (Z.ltb_spec i last); [|by intros [= <-]]. destruct (rd buf i) as [c|]; [|done]. cbn [mbind option_bind].
  destruct (is_pointer c); [by intros [= <-]|]. destruct (Z.eqb_spec c 0); [by intros [= <-]|]. apply IH. lia.
Qed.

Lemma skip_loop_total fuel i : 0 <= i -> Z.max 0 (last - i) < Z.of_nat fuel -> exists r, skip_loop buf last fuel i = Some r /\
  match r with Found j | Test_length j => i < j | Short => True end.
Proof.
  revert i. induction fuel as [|fuel IH]; intros i Hi Hf; cbn [skip_loop]; [lia|].
  destruct (Z.ltb_spec i last); [|by exists Short]. destruct (rd_in buf i) as [c Hc]; [lia|]. pose proof (rd_byte_of buf buf_bytes i c Hc) as Hb. unfold is_byte in Hb.
  rewrite Hc. cbn [mbind option_bind]. destruct (is_pointer c); [exists (Found (i + 2)); split; [done|lia]|].
  destruct (Z.eqb_spec c 0); [exists (Test_length (i + 1)); split; [done|lia]|]. destruct (IH (i + (1 + c))) as (r & Hr & Hj); [lia|lia|]. exists r. split; [done|]. destruct r; lia || done.
Qed.

Lemma skip_answer_name_run i : 0 <= i -> exists r, skip_answer_name buf last i = Some r /\
  match r with inr j => i < j /\ pass_loop buf (length buf + 1) i = Some j | inl _ => True end.
Proof.
  intros Hi. unfold skip_answer_name. destruct (skip_loop_total (Z.to_nat last + 1) i) as (r & Hr & Hj); [lia|lia|]. rewrite Hr. cbn [mbind option_bind].
  eexists. split; [done|]. apply (skip_pass _ (length buf + 1)) in Hr; [|lia]. destruct r; [done| |done]. by destruct (_ <? 2).
Qed.

Lemma rd16_in i : 0 <= i -> i + 1 < Z.of_nat (length buf) -> exists v, rd16 buf i = Some v /\ 0 <= v.
Proof.
  intros Hi H. unfold rd16. destruct (rd_in buf i) as [hi Hhi]; [lia|]. destruct (rd_in buf (i + 1)) as [lo Hlo]; [lia|]. rewrite Hhi, Hlo. cbn [mbind option_bind].
  eexists. split; [done|]. apply rd_byte_of in Hhi, Hlo; [|done|done]. unfold is_byte in *. assert (0 <= Z.shiftl hi 8) by (apply Z.shiftl_nonneg; lia). lia.
Qed.

(** What the passes agree on: the addresses from [i] on. *)
Definition agree (nan : nat) (i : Z) (s : scan) (l : list (list Z)) (r : scan) : Prop :=
  sc_naddrs r = sc_naddrs s + Z.of_nat (length l) /\ sc_addr r = List.last l (sc_addr s) /\
  forall acc, sc_naddrs r = Z.of_nat (length acc + length l) -> collect_loop buf nan (sc_naddrs r) i acc = Some (acc ++ l).

Lemma answers_loop_run nan : forall i s, 0 <= i ->
  exists r, answers_loop buf last nan i s = Some r /\
    match r with inl _ => True | inr r => (exists t, sc_log r = sc_log s ++ t) /\ (sc_log r = [] -> exists l, agree nan i s l r) end.
Proof.
  induction nan as [|nan IH]; intros i s Hi.
  { eexists. split; [done|]. split; [exists []; by rewrite app_nil_r|]. intros _. exists []. split_and!; [cbn; lia|done|]. intros acc _. cbn. by rewrite app_nil_r. }
  cbn [answers_loop]. destruct (skip_answer_name_run i Hi) as ([e|j] & Hr & Hj); rewrite Hr; cbn [mbind option_bind]; [by eexists|]. destruct Hj as [Hij Hpass].
  unfold sizeof_an. destruct (Z.leb_spec last (j + 10)); [by eexists|].
  destruct (rd16_in j) as (qtype & Hq & _); [lia|lia|]. destruct (rd16_in (j + 8)) as (len & Hlen & Hl0); [lia|lia|]. rewrite Hq, Hlen. cbn [mbind option_bind].
  assert (forall i' s', 0 <= i' -> sc_naddrs s' = sc_naddrs s -> sc_addr s' = sc_addr s -> sc_log s' = sc_log s -> qtype <> NGX_RESOLVE_A -> i' = j + 10 + len ->
    exists r, answers_loop buf last nan i' s' = Some r /\
      match r with inl _ => True | inr r => (exists t, sc_log r = sc_log s ++ t) /\ (sc_log r = [] -> exists l, agree (S nan) i s l r) end) as Hskip.
  { intros i' s' Hi' E1 E2 E3 Hne ->. destruct (IH (j + 10 + len) s' Hi') as (r & Hrun & Hm). exists r. split; [done|]. destruct r as [|r]; [done|]. rewrite E3 in Hm.
    destruct Hm as [Hlog Hag]. split; [done|]. intros Hx. destruct (Hag Hx) as (l & H1 & H2 & H3). exists l. rewrite E1 in H1. rewrite E2 in H2. split_and!; [done|done|].
    intros acc Hacc. cbn [collect_loop]. rewrite Hpass. cbn [mbind option_bind]. rewrite Hq, Hlen. cbn [mbind option_bind]. unfold sizeof_an.
    destruct (Z.eqb_spec qtype NGX_RESOLVE_A); [done|]. by apply H3. }
  destruct (Z.eqb_spec qtype NGX_RESOLVE_A) as [Ea|Ea].
  - destruct (Z.ltb_spec last (j + 10 + len)); [by eexists|]. destruct (rd_bytes_total buf (j + 10) 4) as (addr & Haddr & _); [lia|lia|lia|]. rewrite Haddr. cbn [mbind option_bind].
    destruct (IH (j + 10 + len) (mk_scan (sc_naddrs s + 1) addr (sc_cname s) qtype (sc_log s)) ltac:(lia)) as (r & Hrun & Hm). exists r. split; [done|].
    destruct r as [|r]; [done|]. destruct Hm as [Hlog Hag]. split; [done|]. intros Hx. destruct (Hag Hx) as (l & H1 & H2 & H3). cbn in H1, H2. exists (addr :: l). split_and!.
    + cbn [length]. lia.
    + by rewrite H2, last_default.
    + intros acc Hacc. cbn [collect_loop]. rewrite Hpass. cbn [mbind option_bind]. rewrite Hq, Hlen. cbn [mbind option_bind]. unfold sizeof_an.
      destruct (Z.eqb_spec qtype NGX_RESOLVE_A); [|done]. rewrite Haddr. cbn [mbind option_bind length] in *. rewrite length_app. cbn [length].
      destruct (Z.eqb_spec (Z.of_nat (length acc + 1)) (sc_naddrs r)).
      * assert (l = []) as -> by (destruct l; [done|cbn in *; lia]). done.
      * rewrite H3 by (rewrite length_app; cbn; lia). by rewrite <- app_assoc.
  - destruct (Z.eqb_spec qtype NGX_RESOLVE_CNAME); [by apply Hskip; [lia|..]|]. destruct (Z.eqb_spec qtype NGX_RESOLVE_DNAME); [by apply Hskip; [lia|..]|].
    destruct (IH j (mk_scan (sc_naddrs s) (sc_addr s) (sc_cname s) qtype (sc_log s ++ [qtype])) ltac:(lia)) as (r & Hrun & Hm). exists r. split; [done|].
    destruct r as [|r]; [done|]. destruct Hm as [[t Ht] _]. cbn in Ht. split; [exists (qtype :: t); by rewrite <- app_assoc in Ht|].
    intros Hx. rewrite Hx in Ht. by destruct (sc_log s).
Qed.
End answers.

(** * Theorems *)

(** C6: a name of a response is copied as it is meant: for every response that is shorter
    than its buffer and every place in it, a name of fewer than 128 labels and pointers is
    returned with dots between its labels, in exactly the memory the first pass has found
    for it, and every other name is an error, in particular one whose pointers make a
    loop.  There are two exceptions: a name that ends with a pointer to a root label, for
    which a dot is written past the end ([copy_outcome] has no result;
    [resolver_copy_overflow]), and a response that fills its buffer, which the hypothesis
    excludes ([resolver_copy_overread]). *)
Theorem resolver_copy_correct buf last alloc src :
  is_bytes buf -> last < Z.of_nat (length buf) -> 0 <= src < last ->
  (exists l, dns_name_at buf last src l /\ (length l < 128)%nat /\ ngx_resolver_copy buf last alloc true src = copy_outcome alloc l /\
     ngx_resolver_copy buf last alloc false src = Some (NGX_OK, None)) \/
  ((forall l, dns_name_at buf last src l -> (128 <= length l)%nat) /\ forall want, ngx_resolver_copy buf last alloc want src = Some (NGX_ERROR, None)).
Proof. intros Hb Hl. by apply resolver_copy_run. Qed.

(** C39: the query for a name is read back as that name: from any response that repeats
    the question, whatever its header and what follows, [ngx_resolver_copy] returns the
    name, for labels of 1 to 63 bytes. *)
Theorem resolver_query_roundtrip alloc ident type l ls header rest last :
  Forall label_ok (l :: ls) -> (length (l :: ls) < 128)%nat -> (forall n, alloc n = true) ->
  length header = 12%nat -> is_bytes header -> is_bytes rest ->
  exists q, ngx_resolver_create_name_query alloc ident type (join_dots (l :: ls)) = (NGX_OK, Some q) /\
    (Z.of_nat (length q) <= last < Z.of_nat (length (header ++ drop 12 q ++ rest)) ->
     ngx_resolver_copy (header ++ drop 12 q ++ rest) last alloc true 12 = Some (NGX_OK, Some (join_dots (l :: ls)))).
Proof.
  intros Hls Hn Ha Hh Hhb Hrb. eexists. split; [by apply name_query|].
  replace (drop 12 _) with (wire (l :: ls) ++ [0] ++ [0; u8 type; 0; 1]) by done. rewrite <- app_assoc.
  set (tail := ([0; u8 type; 0; 1] ++ rest)). change (([0] ++ [0; u8 type; 0; 1]) ++ rest) with (0 :: tail). intros Hlast.
  assert (is_bytes (wire (l :: ls))) as Hw.
  { unfold wire. clear -Hls. apply Forall_concat, Forall_fmap. apply (Forall_impl _ _ _ Hls). intros x (Hx & _ & Hxb). constructor; [unfold is_byte; lia|done]. }
  assert (is_bytes (header ++ wire (l :: ls) ++ 0 :: tail)) as Hbytes.
  { apply Forall_app. split; [done|]. apply Forall_app. split; [done|]. constructor; [done|]. unfold tail. apply Forall_app. split; [|done].
    repeat (constructor; [first [by apply wrap_range|unfold is_byte; lia]|]). constructor. }
  assert (dns_name_at (header ++ wire (l :: ls) ++ 0 :: tail) last 12 (Label <$> l :: ls)) as Hname.
  { change 12 with (Z.of_nat 12). rewrite <- Hh. apply name_at_wire; [done|]. rewrite !length_app in *. cbn [length query_header] in *. lia. }
  destruct (resolver_copy_run _ last Hbytes ltac:(lia) alloc 12) as [(l' & Hl' & Hlen & E & _)|[Hno _]].
  { rewrite !length_app in Hlast. cbn [length query_header] in Hlast. lia. }
  - rewrite E, (name_at_det _ _ _ _ _ Hl' Hname). unfold copy_outcome. rewrite labels_fmap, Ha, ends_fmap. done.
  - specialize (Hno _ Hname). rewrite length_fmap in Hno. lia.
Qed.

(** The query for an address fits the memory that is allocated for it, and the
    address is read back from any response that repeats the question. *)
Theorem resolver_addr_roundtrip alloc p ident addr header rest :
  (forall n, alloc n = true) -> 0 <= p <= 2 ^ 61 -> 0 <= addr < 2 ^ 32 -> length header = 12%nat ->
  exists q i, ngx_resolver_create_addr_query alloc p ident addr = Some (NGX_OK, Some q) /\ Z.of_nat (length q) <= sizeof_query + 30 + sizeof_qs /\
    digits_at (header ++ drop 12 q ++ rest) 4 12 0 0 = Some (Some (addr, i)) /\ strcmp_at (header ++ drop 12 q ++ rest) i in_addr_arpa = Some true.
Proof.
  intros Ha Hp Haddr Hh. unfold ngx_resolver_create_addr_query. rewrite Ha. cbn [negb].
  destruct (addr_labels_run 4 (p + sizeof_query) addr 0) as (l & El & Hl & Hd); [unfold sizeof_query; lia|unfold sizeof_query; lia|]. rewrite El. cbn [mbind option_bind].
  eexists _, (Z.of_nat (length header) + Z.of_nat (length l)). split; [done|].
  replace (drop 12 (query_header ident ++ l ++ in_addr_arpa ++ [0; NGX_RESOLVE_PTR; 0; 1])) with (l ++ in_addr_arpa ++ [0; NGX_RESOLVE_PTR; 0; 1]) by done. split_and!.
  - rewrite !length_app. change (length in_addr_arpa) with 14%nat. cbn [length query_header]. unfold sizeof_query, sizeof_qs. lia.
  - rewrite <- !app_assoc. replace 12 with (Z.of_nat (length header)) by lia. rewrite Hd, addr_sum_all by done. done.
  - replace (Z.of_nat (length header) + Z.of_nat (length l)) with (Z.of_nat (length (header ++ l))) by (rewrite length_app; lia).
    replace (header ++ (l ++ in_addr_arpa ++ [0; NGX_RESOLVE_PTR; 0; 1]) ++ rest) with ((header ++ l) ++ in_addr_arpa ++ [0; NGX_RESOLVE_PTR; 0; 1] ++ rest) by (by rewrite <- !app_assoc).
    apply strcmp_at_app.
Qed.

(** C40: the two passes over the answers agree: when the response ends at least three
    bytes before its buffer, the first pass reads it to its end without leaving the buffer,
    and unless it has met an answer of an unexpected type, the second pass finds exactly
    the addresses it has counted, the last one of them being the one it has kept.  The
    three bytes are needed: an address is read even when its record is shorter
    ([resolver_answers_overread]). *)
Theorem resolver_answers_agree buf last nan ans :
  is_bytes buf -> 0 <= ans -> 0 <= last -> last + 3 <= Z.of_nat (length buf) ->
  exists r, answers_loop buf last nan ans (mk_scan 0 [0; 0; 0; 0] None 0 []) = Some r /\
    match r with
    | inl _ => True
    | inr s => sc_log s = [] ->
        exists l, sc_naddrs s = Z.of_nat (length l) /\ collect_loop buf nan (sc_naddrs s) ans [] = Some l /\ sc_addr s = List.last l [0; 0; 0; 0]
    end.
Proof.
  intros Hb Ha Hl Hlen. destruct (answers_loop_run buf last Hb Hl Hlen nan ans (mk_scan 0 [0; 0; 0; 0] None 0 []) Ha) as (r & E & Hr). exists r. split; [done|].
  destruct r as [|s]; [done|]. intros Hlog. destruct Hr as [_ Hag]. destruct (Hag Hlog) as (l & H1 & H2 & H3). cbn in H1, H2. exists l. split_and!; [lia| |done]. apply (H3 []). cbn. lia.
Qed.

(** ** Messages *)

Definition any_memory (_ : Z) : bool := true.

(** A question for "a.bc", an answer with a pointer to it and the address 10.0.0.1. *)
Definition sample_response : list Z :=
  [0x12; 0x34; 0x81; 0x80; 0; 1; 0; 2; 0; 0; 0; 0] ++ [1; "a"%cc; 2; "b"%cc; "c"%cc; 0; 0; 1; 0; 1] ++
  [0xc0; 12; 0; 1; 0; 1; 0; 0; 0; 60; 0; 4; 10; 0; 0; 1] ++ [0xc0; 12; 0; 1; 0; 1; 0; 0; 0; 60; 0; 4; 10; 0; 0; 2] ++ replicate 8 0.

Example sample_response_read :
  ngx_resolver_process_response sample_response 54 [] = Some (Process_a 0x1234 0 2 22) /\
  ngx_resolver_process_a sample_response 54 any_memory (fun name => if bool_decide (name = cstr "a.bc") then Some 0x1234 else None) 0x1234 0 2 22
  = Some (A_answers (Addresses [[10; 0; 0; 1]; [10; 0; 0; 2]])).
Proof. vm_compute. split; reflexivity. Qed.

Lemma resolver_copy_correct_witness :
  (exists l, dns_name_at sample_response 54 22 l /\ (length l < 128)%nat /\ ngx_resolver_copy sample_response 54 any_memory true 22 = copy_outcome any_memory l /\
     ngx_resolver_copy sample_response 54 any_memory false 22 = Some (NGX_OK, None)) \/
  ((forall l, dns_name_at sample_response 54 22 l -> (128 <= length l)%nat) /\ forall want, ngx_resolver_copy sample_response 54 any_memory want 22 = Some (NGX_ERROR, None)).
Proof.
  apply (resolver_copy_correct sample_response 54 any_memory 22); [|vm_compute; reflexivity|lia].
  apply (bool_decide_unpack (is_bytes sample_response)). vm_compute. exact I.
Defined.

Lemma resolver_query_roundtrip_witness :
  exists q, ngx_resolver_create_name_query any_memory 7 1 (cstr "a.bc") = (NGX_OK, Some q) /\
    (Z.of_nat (length q) <= 22 < Z.of_nat (length (replicate 12 0 ++ drop 12 q ++ [0; 0])) ->
     ngx_resolver_copy (replicate 12 0 ++ drop 12 q ++ [0; 0]) 22 any_memory true 12 = Some (NGX_OK, Some (cstr "a.bc"))).
Proof.
  apply (resolver_query_roundtrip any_memory 7 1 (cstr "a") [cstr "bc"] (replicate 12 0) [0; 0] 22).
  - repeat constructor; vm_compute; try congruence; intros H; repeat (apply elem_of_cons in H as [H|H]; [congruence|]); by apply elem_of_nil in H.
  - cbn. lia.
  - done.
  - done.
  - repeat constructor; vm_compute; congruence.
  - repeat constructor; vm_compute; congruence.
Defined.

Lemma resolver_addr_roundtrip_witness :
  exists q i, ngx_resolver_create_addr_query any_memory 4096 7 0x7f000001 = Some (NGX_OK, Some q) /\ Z.of_nat (length q) <= sizeof_query + 30 + sizeof_qs /\
    digits_at (replicate 12 0 ++ drop 12 q ++ []) 4 12 0 0 = Some (Some (0x7f000001, i)) /\ strcmp_at (replicate 12 0 ++ drop 12 q ++ []) i in_addr_arpa = Some true.
Proof. apply (resolver_addr_roundtrip any_memory 4096 7 0x7f000001 (replicate 12 0) []); [done|lia|lia|done]. Defined.

Lemma resolver_answers_agree_witness :
  exists r, answers_loop sample_response 54 2 22 (mk_scan 0 [0; 0; 0; 0] None 0 []) = Some r /\
    match r with
    | inl _ => True
    | inr s => sc_log s = [] ->
        exists l, sc_naddrs s = Z.of_nat (length l) /\ collect_loop sample_response 2 (sc_naddrs s) 22 [] = Some l /\ sc_addr s = List.last l [0; 0; 0; 0]
    end.
Proof.
  apply (resolver_answers_agree sample_response 54 2 22); [|lia|lia|vm_compute; congruence].
  apply (bool_decide_unpack (is_bytes sample_response)). vm_compute. exact I.
Defined.

(** ** What the code gets wrong *)

(** "a" followed by a pointer to a root label: two bytes are written into memory of one. *)
Theorem resolver_copy_overflow :
  let buf := [1; "a"%cc; 0xc0; 4; 0; 0] in
  length_loop buf 5 128 0 (-1) = Some (Walk_done 1) /\ ngx_resolver_copy buf 5 any_memory true 0 = None.
Proof. vm_compute. split; reflexivity. Qed.

(** A pointer cut off at the end of a response that fills the buffer: the byte after the
    buffer is read. *)
Theorem resolver_copy_overread : length_loop [1; "a"%cc; 0xc0] 3 128 0 (-1) = None.
Proof. vm_compute. reflexivity. Qed.

(** An address record of length 0 at the end of a response that fills the buffer: four
    bytes of address are read where one is left. *)
Theorem resolver_answers_overread :
  let buf := [0xc0; 12; 0; 1; 0; 1; 0; 0; 0; 60; 0; 0; 7] in
  answers_loop buf 13 1 0 (mk_scan 0 [0; 0; 0; 0] None 0 []) = None /\
  exists s, answers_loop (buf ++ replicate 3 0) 13 1 0 (mk_scan 0 [0; 0; 0; 0] None 0 []) = Some (inr s) /\ sc_addr s = [7; 0; 0; 0].
Proof. vm_compute. split; [reflexivity|]. eexists. split; reflexivity. Qed.

(** An answer of an unexpected type is not passed over by the first pass but is by the
    second: the first counts two addresses, the second finds one. *)
Theorem resolver_passes_disagree :
  let buf := [0xc0; 12; 0xc0; 0; 0; 1; 0; 0; 0; 60; 0; 6; 0; 4; 10; 0; 0; 1] ++ [0xc0; 12; 0; 1; 0; 1; 0; 0; 0; 60; 0; 4; 10; 0; 0; 2] ++ replicate 16 0 in
  (exists s, answers_loop buf 34 3 0 (mk_scan 0 [0; 0; 0; 0] None 0 []) = Some (inr s) /\ sc_naddrs s = 2) /\
  collect_loop buf 3 2 0 [] = Some [[10; 0; 0; 2]].
Proof. vm_compute. split; [|reflexivity]. eexists. split; reflexivity. Qed.

(** A format error whose ident is that of no query under way: the head of the queue is
    taken for a query. *)
Theorem resolver_formerr_runs_off idents : (0x1234 ∉ idents) ->
  ngx_resolver_process_response [0x12; 0x34; 0x80; 1; 0; 1; 0; 0; 0; 0; 0; 0] 12 idents = None.
Proof.
  intros Hi. assert (ngx_resolver_process_response [0x12; 0x34; 0x80; 1; 0; 1; 0; 0; 0; 0; 0; 0] 12 idents = formerr_loop idents 0x1234) as -> by reflexivity.
  induction idents as [|q idents IH]; [done|]. apply not_elem_of_cons in Hi as [Hq Hi]. cbn [formerr_loop]. destruct (Z.eqb_spec q 0x1234); [congruence|]. by apply IH.
Qed.

(** A label of more than 63 bytes is put into the query all the same, where its length is
    a pointer. *)
Theorem resolver_long_label :
  match ngx_resolver_create_name_query any_memory 7 1 (replicate 192 "a"%cc) with
  | (rc, Some q) => rc = NGX_OK /\ rd q 12 = Some 192 /\ is_pointer 192 = true
  | _ => False
  end.
Proof. vm_compute. split_and!; reflexivity. Qed.
