(* ===== verification/NgxHttpUpstreamRr.v ===== *)
(** Round-robin balancing, src/http/ngx_http_upstream_round_robin.c: the choice of a peer
    for a connection to an upstream, with weights, failures and backup peers.

    The peers of an upstream are a chain of groups (the second one the backup peers), each
    an array of peers; a peer is named by its index.  The state of a request
    ([ngx_http_upstream_rr_peer_data_t] and [pc->tries]) says which group it is in, which
    peers it has tried, as a bit map in words of 64 bits, and how many tries are left.  An
    access outside of an array, a division by zero, a product that overflows and a count of
    tries that goes below zero are [None]; the counts of failures and the current weights have no bounds.
    [ngx_time] is an argument. *)

From S2P Require Import Prelude.

Open Scope Z_scope.

Definition NGX_PEER_FAILED : Z := 4.

Record ngx_http_upstream_rr_peer_t := mk_peer {
  p_addr : Z;
  p_current_weight : Z;
  p_weight : Z;
  p_fails : Z;
  p_accessed : Z;
  p_max_fails : Z;
  p_fail_timeout : Z;
  p_down : bool;
}.

#[export] Instance eta_rr_peer : EtaRecord ngx_http_upstream_rr_peer_t := fun p =>
  mk_peer (p_addr p) (p_current_weight p) (p_weight p) (p_fails p) (p_accessed p) (p_max_fails p) (p_fail_timeout p) (p_down p).
#[export] Instance set_p_current_weight : FieldSetter p_current_weight := ltac:(field_setter).
#[export] Instance set_p_fails : FieldSetter p_fails := ltac:(field_setter).
#[export] Instance set_p_accessed : FieldSetter p_accessed := ltac:(field_setter).

(** [number] is the length of the array. *)
Record ngx_http_upstream_rr_peers_t := mk_peers {
  g_single : bool;
  g_last_cached : Z;
  g_cached : list Z;
  g_peer : list ngx_http_upstream_rr_peer_t;
}.

#[export] Instance eta_rr_peers : EtaRecord ngx_http_upstream_rr_peers_t := fun g => mk_peers (g_single g) (g_last_cached g) (g_cached g) (g_peer g).
#[export] Instance set_g_last_cached : FieldSetter g_last_cached := ltac:(field_setter).
#[export] Instance set_g_peer : FieldSetter g_peer := ltac:(field_setter).

Definition number (g : ngx_http_upstream_rr_peers_t) : Z := Z.of_nat (length (g_peer g)).

(** The chain of groups; [rr_peers] is the place of [rrp->peers] in it. *)
Record rr_state := mk_rr {
  rr_groups : list ngx_http_upstream_rr_peers_t;
  rr_peers : nat;
  rr_current : Z;
  rr_tried : list Z;
  rr_tries : Z;
}.

#[export] Instance eta_rr : EtaRecord rr_state := fun s => mk_rr (rr_groups s) (rr_peers s) (rr_current s) (rr_tried s) (rr_tries s).
#[export] Instance set_rr_groups : FieldSetter rr_groups := ltac:(field_setter).
#[export] Instance set_rr_peers : FieldSetter rr_peers := ltac:(field_setter).
#[export] Instance set_rr_current : FieldSetter rr_current := ltac:(field_setter).
#[export] Instance set_rr_tried : FieldSetter rr_tried := ltac:(field_setter).
#[export] Instance set_rr_tries : FieldSetter rr_tries := ltac:(field_setter).

(** * The next peer by weight *)

Definition peer_at (ps : list ngx_http_upstream_rr_peer_t) (i : Z) : option ngx_http_upstream_rr_peer_t :=
  if i <? 0 then None else ps !! Z.to_nat i.

(** C division, which truncates and has no value for 0. *)
Definition c_div (a b : Z) : option Z := if b =? 0 then None else Some (Z.quot a b).

(** Signed multiplication, which has no value when it overflows. *)
Definition c_mul (a b : Z) : option Z := if (- 2 ^ 63 <=? a * b) && (a * b <? 2 ^ 63) then Some (a * b) else None.

(** [while (i < peers->number - 1)] and what follows it. *)
Fixpoint weight_loop (fuel : nat) (ps : list ngx_http_upstream_rr_peer_t) (n i : Z) : option Z :=
  match fuel with
  | O => None
  | S fuel' =>
      if i <? Z.of_nat (length ps) - 1 then
        let i := i + 1 in
        pi ← peer_at ps i;
        if p_current_weight pi <=? 0 then weight_loop fuel' ps n i
        else
          pn ← peer_at ps n;
          a ← c_mul (p_current_weight pn) 1000; a ← c_div a (p_current_weight pi);
          b ← c_mul (p_weight pn) 1000; b ← c_div b (p_weight pi);
          if b <? a then Some n else weight_loop fuel' ps i i
      else
        pi ← peer_at ps i;
        Some (if 0 <? p_current_weight pi then i else n)
  end.

(** [for (i = 0; i < peers->number; i++)] *)
Fixpoint positive_loop (fuel : nat) (ps : list ngx_http_upstream_rr_peer_t) (i : Z) : option (option Z) :=
  match fuel with
  | O => None
  | S fuel' =>
      if i <? Z.of_nat (length ps) then
        p ← peer_at ps i;
        if p_current_weight p <=? 0 then positive_loop fuel' ps (i + 1)
        else Some <$> weight_loop fuel' ps i i
      else Some None
  end.

Definition reset_weights (ps : list ngx_http_upstream_rr_peer_t) : list ngx_http_upstream_rr_peer_t :=
  (fun p => p <| p_current_weight := p_weight p |>) <$> ps.

(** The index of the peer, and the peers. *)
Definition ngx_http_upstream_get_peer (ps : list ngx_http_upstream_rr_peer_t) : option (Z * list ngx_http_upstream_rr_peer_t) :=
  r ← positive_loop (length ps + 1) ps 0;
  match r with
  | Some n => Some (n, ps)
  | None =>
      let ps := reset_weights ps in
      r ← positive_loop (length ps + 1) ps 0;
      Some (match r with Some n => n | None => 0 end, ps)
  end.

(** * The peer of a request *)

Definition group (s : rr_state) : option ngx_http_upstream_rr_peers_t := rr_groups s !! rr_peers s.
Definition group_peers (s : rr_state) : option (list ngx_http_upstream_rr_peer_t) := g_peer <$> group s.

Definition set_group (g : ngx_http_upstream_rr_peers_t) (s : rr_state) : rr_state := s <| rr_groups := <[rr_peers s := g]> (rr_groups s) |>.
Definition set_peers (ps : list ngx_http_upstream_rr_peer_t) (s : rr_state) : option rr_state := g ← group s; Some (set_group (g <| g_peer := ps |>) s).

Definition upd_peer (i : Z) (f : ngx_http_upstream_rr_peer_t -> ngx_http_upstream_rr_peer_t) (s : rr_state) : option rr_state :=
  ps ← group_peers s; p ← peer_at ps i; set_peers (<[Z.to_nat i := f p]> ps) s.

(** [n = rrp->current / 64; m = 1 << rrp->current % 64] *)
Definition tried_bit (s : rr_state) (i : Z) : option bool := w ← rr_tried s !! Z.to_nat (i / 64); Some (Z.testbit w (i mod 64)).
Definition mark_tried (i : Z) (s : rr_state) : option rr_state :=
  w ← rr_tried s !! Z.to_nat (i / 64); Some (s <| rr_tried := <[Z.to_nat (i / 64) := Z.lor w (Z.shiftl 1 (i mod 64))]> (rr_tried s) |>).

(** The body of the two loops: whether the current peer is taken. *)
Definition check_peer (now : Z) (s : rr_state) : option (bool * rr_state) :=
  tried ← tried_bit s (rr_current s);
  if tried : bool then Some (false, s)
  else
    ps ← group_peers s; p ← peer_at ps (rr_current s);
    if negb (p_down p) then
      if (p_max_fails p =? 0) || (p_fails p <? p_max_fails p) then Some (true, s)
      else if p_fail_timeout p <? now - p_accessed p then s ← upd_peer (rr_current s) (fun p => p <| p_fails := 0 |>) s; Some (true, s)
      else s ← upd_peer (rr_current s) (fun p => p <| p_current_weight := 0 |>) s; Some (false, s <| rr_tries := rr_tries s - 1 |>)
    else s ← mark_tried (rr_current s) s; Some (false, s <| rr_tries := rr_tries s - 1 |>).

(** The first try: the peers in the order of their weights.  The result says whether a
    peer has been found. *)
Fixpoint first_loop (i : nat) (now : Z) (s : rr_state) : option (bool * rr_state) :=
  match i with
  | O => None
  | S i' =>
      ps ← group_peers s;
      '(current, ps) ← ngx_http_upstream_get_peer ps;
      s ← set_peers ps s;
      '(found, s) ← check_peer now (s <| rr_current := current |>);
      if found : bool then Some (true, s)
      else if rr_tries s =? 0 then Some (false, s)
      else if (i' =? 0)%nat then Some (false, s)
      else first_loop i' now s
  end.

(** The next tries: the peers one after the other. *)
Fixpoint next_loop (i : nat) (now : Z) (s : rr_state) : option (bool * rr_state) :=
  match i with
  | O => None
  | S i' =>
      '(found, s) ← check_peer now s;
      if found : bool then Some (true, s)
      else
        g ← group s;
        let current := rr_current s + 1 in
        let s := s <| rr_current := if number g <=? current then 0 else current |> in
        if rr_tries s =? 0 then Some (false, s)
        else if (i' =? 0)%nat then Some (false, s)
        else next_loop i' now s
  end.

(** [for (i = 0; i < n; i++) rrp->tried[i] = 0] with [n = number / 64 + 1] *)
Definition clear_tried (num : Z) (s : rr_state) : option rr_state :=
  let n := Z.to_nat (num / 64 + 1) in
  if (length (rr_tried s) <? n)%nat then None else Some (s <| rr_tried := replicate n 0 ++ drop n (rr_tried s) |>).

Inductive rr_result := Connection (c : Z) | Peer (g : nat) (i : Z) | Busy (g : nat).

(** The end of a successful call. *)
Definition found_peer (i : Z) (s : rr_state) : option (rr_result * rr_state) :=
  match rr_groups s !! S (rr_peers s) with
  | Some next =>
      if rr_tries s =? 1 then
        s' ← clear_tried (number next) (s <| rr_tries := rr_tries s + number next |>); Some (Peer (rr_peers s) i, s')
      else Some (Peer (rr_peers s) i, s)
  | None => Some (Peer (rr_peers s) i, s)
  end.

(** [peers->peer[i].fails = 0] for all of a group *)
Definition forget_fails (k : nat) (s : rr_state) : option rr_state :=
  g ← rr_groups s !! k;
  Some (s <| rr_groups := <[k := g <| g_peer := (fun p => p <| p_fails := 0 |>) <$> g_peer g |>]> (rr_groups s) |>).

(** The calls nest as long as there are further groups. *)
Fixpoint get_peer_loop (fuel : nat) (now : Z) (s : rr_state) : option (rr_result * rr_state) :=
  match fuel with
  | O => None
  | S fuel' =>
      g ← group s;
      if negb (g_last_cached g =? 0) then
        c ← (if g_last_cached g <? 0 then None else g_cached g !! Z.to_nat (g_last_cached g));
        Some (Connection c, set_group (g <| g_last_cached := g_last_cached g - 1 |>) s)
      else if g_single g then found_peer 0 s
      else
        let i := Z.to_nat (rr_tries s) in
        '(found, s) ← (if rr_tries s =? number g then first_loop i now s else next_loop i now s);
        if found : bool then
          s ← upd_peer (rr_current s) (fun p => p <| p_current_weight := p_current_weight p - 1 |>) s;
          s ← mark_tried (rr_current s) s;
          found_peer (rr_current s) s
        else
          let k := rr_peers s in
          match rr_groups s !! S k with
          | Some next =>
              s ← clear_tried (number next) (s <| rr_peers := S k |> <| rr_tries := number next |>);
              '(r, s) ← get_peer_loop fuel' now s;
              match r with
              | Busy _ => s ← forget_fails k s; Some (Busy k, s)
              | _ => Some (r, s)
              end
          | None => s ← forget_fails k s; Some (Busy k, s)
          end
  end.

Definition ngx_http_upstream_get_round_robin_peer (now : Z) (s : rr_state) : option (rr_result * rr_state) :=
  get_peer_loop (length (rr_groups s)) now s.

(** The peer of a connection that failed; [weight / max_fails] is between numbers that are
    not negative. *)
Definition fail_peer (now : Z) (p : ngx_http_upstream_rr_peer_t) : ngx_http_upstream_rr_peer_t :=
  let w := if negb (p_max_fails p =? 0) then p_current_weight p - Z.quot (p_weight p) (p_max_fails p) else p_current_weight p in
  p <| p_fails := p_fails p + 1 |> <| p_accessed := now |> <| p_current_weight := if w <? 0 then 0 else w |>.

Definition ngx_http_upstream_free_round_robin_peer (now state : Z) (s : rr_state) : option rr_state :=
  if (state =? 0) && (rr_tries s =? 0) then Some s
  else
    g ← group s;
    if g_single g then Some (s <| rr_tries := 0 |>)
    else
      s ← (if negb (Z.land state NGX_PEER_FAILED =? 0) then upd_peer (rr_current s) (fail_peer now) s else Some s);
      let current := rr_current s + 1 in
      let s := s <| rr_current := if number g <=? current then 0 else current |> in
      Some (if negb (rr_tries s =? 0) then s <| rr_tries := rr_tries s - 1 |> else s).

(** * The choice by weight *)

Definition positive (ps : list ngx_http_upstream_rr_peer_t) (i : Z) : Prop := exists p, peer_at ps i = Some p /\ 0 < p_current_weight p.

(** Weights are not negative, and small enough for the products. *)
Definition weight_ok (w : Z) : Prop := 0 <= w <= 2 ^ 63 / 1000 - 1.
Definition peer_ok (p : ngx_http_upstream_rr_peer_t) : Prop := weight_ok (p_weight p) /\ p_current_weight p <= p_weight p /\ 0 <= p_max_fails p.

Lemma peer_at_range ps i : is_Some (peer_at ps i) <-> 0 <= i < Z.of_nat (length ps).
Proof. unfold peer_at. destruct (Z.ltb_spec i 0); [split; [by intros []|lia]|]. rewrite lookup_lt_is_Some. lia. Qed.

Lemma peer_at_ok ps i p : Forall peer_ok ps -> peer_at ps i = Some p -> peer_ok p.
Proof. unfold peer_at. case_match; [done|]. intros Hps Hi. rewrite Forall_lookup in Hps. by eapply Hps. Qed.

Lemma positive_range ps i : positive ps i -> 0 <= i < Z.of_nat (length ps).
Proof. intros (p & Hp & _). apply peer_at_range. by eexists. Qed.

Lemma weight_loop_run ps fuel n i : Forall peer_ok ps -> positive ps n -> 0 <= i < Z.of_nat (length ps) -> Z.of_nat (length ps) - i <= Z.of_nat fuel ->
  exists m, weight_loop fuel ps n i = Some m /\ positive ps m.
Proof.
  intros Hok. revert n i. induction fuel as [|fuel IH]; intros n i Hn Hi Hf; [lia|]. cbn [weight_loop]. destruct (Z.ltb_spec i (Z.of_nat (length ps) - 1)).
  - destruct (proj2 (peer_at_range ps (i + 1))) as [p Hp]; [lia|]. rewrite Hp. cbn [mbind option_bind]. destruct (Z.leb_spec (p_current_weight p) 0); [apply IH; try done; lia|].
    destruct Hn as (pn & Hpn & Hw). rewrite Hpn. cbn [mbind option_bind]. pose proof (peer_at_ok _ _ _ Hok Hp) as (_ & Hpw & _). unfold c_div.
    assert (forall w, weight_ok w -> c_mul w 1000 = Some (w * 1000)) as Hmul.
    { intros w [W1 W2]. unfold c_mul. change (2 ^ 63 / 1000 - 1) with 9223372036854774 in W2. destruct (Z.leb_spec (- 2 ^ 63) (w * 1000)), (Z.ltb_spec (w * 1000) (2 ^ 63)); done || lia. }
    pose proof (peer_at_ok _ _ _ Hok Hpn) as (Hpn1 & Hpn2 & _). rewrite (Hmul (p_weight pn) Hpn1), (Hmul (p_current_weight pn)) by (split; [lia|]; destruct Hpn1; lia). cbn [mbind option_bind].
    destruct (Z.eqb_spec (p_current_weight p) 0); [lia|]. destruct (Z.eqb_spec (p_weight p) 0); [lia|]. cbn [mbind option_bind].
    case_match; [exists n; split; [done|by exists pn]|]. apply IH; [by exists p|lia|lia].
  - destruct (proj2 (peer_at_range ps i)) as [p Hp]; [lia|]. rewrite Hp. cbn [mbind option_bind]. eexists. split; [done|]. destruct (Z.ltb_spec 0 (p_current_weight p)); [by exists p|done].
Qed.

Lemma positive_loop_run ps fuel i : Forall peer_ok ps -> 0 <= i <= Z.of_nat (length ps) -> Z.of_nat (length ps) - i < Z.of_nat fuel ->
  exists r, positive_loop fuel ps i = Some r /\ match r with Some m => positive ps m | None => forall j, i <= j -> ~ positive ps j end.
Proof.
  intros Hok. revert i. induction fuel as [|fuel IH]; intros i Hi Hf; [lia|]. cbn [positive_loop]. destruct (Z.ltb_spec i (Z.of_nat (length ps))).
  - destruct (proj2 (peer_at_range ps i)) as [p Hp]; [lia|]. rewrite Hp. cbn [mbind option_bind]. destruct (Z.leb_spec (p_current_weight p) 0).
    + destruct (IH (i + 1)) as (r & Hr & Hm); [lia|lia|]. exists r. split; [done|]. destruct r; [done|]. intros j Hj (q & Hq & Hqw).
      destruct (decide (j = i)) as [-> |]; [simplify_eq; lia|]. apply (Hm j); [lia|by exists q].
    + destruct (weight_loop_run ps fuel i i) as (m & -> & Hm); [done|by exists p|lia|lia|]. by exists (Some m).
  - exists None. split; [done|]. intros j Hj Hp%positive_range. lia.
Qed.

Lemma reset_ok ps : Forall peer_ok ps -> Forall peer_ok (reset_weights ps).
Proof. intros H. apply Forall_fmap. apply (Forall_impl _ _ _ H). intros p (H1 & _ & H2). split_and!; cbn; [done|lia|done]. Qed.

Lemma get_peer_run ps : Forall peer_ok ps -> ps <> [] ->
  exists n ps', ngx_http_upstream_get_peer ps = Some (n, ps') /\ 0 <= n < Z.of_nat (length ps) /\ length ps' = length ps /\ Forall peer_ok ps' /\
    ((ps' = ps /\ positive ps n) \/ ((forall j, ~ positive ps j) /\ ps' = reset_weights ps /\ (positive ps' n \/ forall j, ~ positive ps' j))).
Proof.
  intros Hok Hne. assert (0 < length ps)%nat by (destruct ps; [done|cbn; lia]). unfold ngx_http_upstream_get_peer.
  destruct (positive_loop_run ps (length ps + 1) 0) as ([n|] & -> & Hm); [done|lia|lia| |]; cbn [mbind option_bind].
  - pose proof (positive_range _ _ Hm). exists n, ps. split_and!; [done|lia|lia|done|done|by left].
  - assert (length (reset_weights ps) = length ps) as Hl by apply length_fmap. pose proof (reset_ok ps Hok) as Hr.
    assert (forall j, ~ positive ps j) as Hno by (intros j Hj; apply (Hm j); [pose proof (positive_range _ _ Hj); lia|done]).
    destruct (positive_loop_run (reset_weights ps) (length (reset_weights ps) + 1) 0) as ([n|] & -> & Hm'); [done|lia|lia| |]; cbn [mbind option_bind].
    + apply positive_range in Hm' as Hn. exists n, (reset_weights ps). split_and!; [done|lia|lia|done|done|right; split_and!; [done|done|by left]].
    + exists 0, (reset_weights ps). split_and!; [done|lia|lia|done|done|right; split_and!; [done|done|right]]. intros j Hj. apply (Hm' j); [pose proof (positive_range _ _ Hj); lia|done].
Qed.

(** * The state of a request *)

Definition group_ok (words : nat) (g : ngx_http_upstream_rr_peers_t) : Prop :=
  g_peer g <> [] /\ Forall peer_ok (g_peer g) /\ g_last_cached g = 0 /\ number g <= 64 * Z.of_nat words.

(** The words that are cleared for a further group are there. *)
Record rr_ok (s : rr_state) : Prop := {
  ok_groups : Forall (group_ok (length (rr_tried s))) (rr_groups s);
  ok_group : is_Some (group s);
  ok_next : Forall (fun g => (Z.to_nat (number g / 64 + 1) <= length (rr_tried s))%nat) (drop 1 (rr_groups s));
}.
Definition current_ok (s : rr_state) : Prop := exists g, group s = Some g /\ 0 <= rr_current s < number g.

(** A peer that may get a connection. *)
Definition usable (p : ngx_http_upstream_rr_peer_t) : Prop := p_down p = false /\ (p_max_fails p = 0 \/ p_fails p < p_max_fails p).

(** The bits that are set stay set. *)
Definition keeps_tried (s s' : rr_state) : Prop := forall i, 0 <= i -> tried_bit s i = Some true -> tried_bit s' i = Some true.

(** What a request does not change of the groups. *)
Definition group_shape (g : ngx_http_upstream_rr_peers_t) : Z * bool := (number g, g_single g).
Definition shape (s : rr_state) : list (Z * bool) := group_shape <$> rr_groups s.

(** A step within the group. *)
Record rr_step (s s' : rr_state) : Prop := {
  step_ok : rr_ok s';
  step_peers : rr_peers s' = rr_peers s;
  step_shape : shape s' = shape s;
  step_words : length (rr_tried s') = length (rr_tried s);
  step_tried : keeps_tried s s';
}.

Lemma shape_length s s' : shape s' = shape s -> length (rr_groups s') = length (rr_groups s).
Proof. intros H%(f_equal length). unfold shape in H. by rewrite !length_fmap in H. Qed.

Lemma step_groups s s' : rr_step s s' -> length (rr_groups s') = length (rr_groups s).
Proof. intros H. by apply shape_length, step_shape. Qed.

Lemma shape_group s s' g g' : shape s' = shape s -> rr_peers s' = rr_peers s -> group s = Some g -> group s' = Some g' -> number g' = number g /\ g_single g' = g_single g.
Proof.
  unfold group. intros H Hp Hg Hg'. rewrite Hp in Hg'. apply (f_equal (lookup (rr_peers s))) in H. unfold shape in H. rewrite !list_lookup_fmap, Hg, Hg' in H. by injection H.
Qed.

Lemma step_number s s' g g' : rr_step s s' -> group s = Some g -> group s' = Some g' -> number g' = number g /\ g_single g' = g_single g.
Proof. intros H. apply shape_group; [apply (step_shape _ _ H)|apply (step_peers _ _ H)]. Qed.

Lemma rr_step_refl s : rr_ok s -> rr_step s s.
Proof. intros H. split; [done..|by intros i]. Qed.

Lemma rr_step_trans s1 s2 s3 : rr_step s1 s2 -> rr_step s2 s3 -> rr_step s1 s3.
Proof. intros [A1 A2 A3 A4 A5] [B1 B2 B3 B4 B5]. split; [done|congruence|congruence|congruence|intros i Hi Ht; by apply B5, A5]. Qed.

(** The request's own fields do not matter. *)
Lemma rr_step_fields s c t : rr_ok s -> rr_step s (s <| rr_current := c |> <| rr_tries := t |>).
Proof. intros [H1 H2 H3]. split; [by split|done..|by intros i]. Qed.

Lemma next_insert w k g g' gs : Forall (fun g => (Z.to_nat (number g / 64 + 1) <= w)%nat) (drop 1 gs) -> gs !! k = Some g -> number g' = number g ->
  Forall (fun g => (Z.to_nat (number g / 64 + 1) <= w)%nat) (drop 1 (<[k := g']> gs)).
Proof.
  intros H Hg Hn. destruct k as [|k]; [by rewrite drop_insert_lt by lia|]. rewrite drop_insert_ge by lia. apply Forall_insert; [done|].
  rewrite Forall_lookup in H. rewrite Hn. apply (H k). by rewrite lookup_drop.
Qed.

Lemma shape_insert s k g g' : rr_groups s !! k = Some g -> number g' = number g /\ g_single g' = g_single g -> group_shape <$> <[k := g']> (rr_groups s) = shape s.
Proof. intros Hg [H1 H2]. rewrite list_fmap_insert. apply list_insert_id. etransitivity; [apply list_lookup_fmap|]. rewrite Hg. cbn. unfold group_shape. by rewrite H1, H2. Qed.

Lemma set_peers_run s g ps : rr_ok s -> group s = Some g -> length ps = length (g_peer g) -> Forall peer_ok ps ->
  exists s', set_peers ps s = Some s' /\ rr_step s s' /\ group_peers s' = Some ps /\ rr_current s' = rr_current s /\ rr_tries s' = rr_tries s /\ rr_tried s' = rr_tried s.
Proof.
  intros [H1 H2 H3] Hg Hl Hps. unfold set_peers. rewrite Hg. cbn [mbind option_bind]. eexists. split; [done|].
  assert (group (set_group (g <| g_peer := ps |>) s) = Some (g <| g_peer := ps |>)) as Hg'.
  { unfold group, set_group. cbn. apply list_lookup_insert_eq. by eapply lookup_lt_Some. }
  split_and!; [|by unfold group_peers; rewrite Hg'|done|done|done].
  split; [|done|by apply (shape_insert _ _ g); [|unfold number; cbn; rewrite Hl]|done|by intros i].
  split; [|by eexists|cbn; apply (next_insert _ _ g); [done|done|unfold number; cbn; by rewrite Hl]]. cbn. apply Forall_insert; [done|]. rewrite Forall_lookup in H1. destruct (H1 _ _ Hg) as (Ha & Hb & Hc & Hd).
  split_and!; cbn; [by destruct ps, (g_peer g)|done|done|]. unfold number in *. cbn. by rewrite Hl.
Qed.

Lemma upd_peer_run s g i p f : rr_ok s -> group s = Some g -> peer_at (g_peer g) i = Some p -> peer_ok (f p) ->
  exists s' ps, upd_peer i f s = Some s' /\ rr_step s s' /\ group_peers s' = Some ps /\ peer_at ps i = Some (f p) /\
    rr_current s' = rr_current s /\ rr_tries s' = rr_tries s /\ rr_tried s' = rr_tried s.
Proof.
  intros Hok Hg Hp Hf. pose proof (ok_groups _ Hok) as Hgs. rewrite Forall_lookup in Hgs. destruct (Hgs _ _ Hg) as (_ & Hb & _).
  unfold upd_peer, group_peers. rewrite Hg. cbn [fmap option_fmap option_map mbind option_bind]. rewrite Hp. cbn [mbind option_bind].
  destruct (set_peers_run s g (<[Z.to_nat i := f p]> (g_peer g)) Hok Hg) as (s' & -> & H1 & H2 & H3); [apply length_insert|by apply Forall_insert|].
  exists s', (<[Z.to_nat i := f p]> (g_peer g)). split_and!; [done|done|done| |apply H3..].
  pose proof (proj1 (peer_at_range (g_peer g) i) (ex_intro _ _ Hp)). unfold peer_at. destruct (Z.ltb_spec i 0); [lia|]. apply list_lookup_insert_eq. lia.
Qed.

Definition in_group (s : rr_state) (i : Z) : Prop := exists g, group s = Some g /\ 0 <= i < number g.

Lemma in_group_peer s i : in_group s i -> exists ps p, group_peers s = Some ps /\ peer_at ps i = Some p.
Proof. intros (g & Hg & Hi). exists (g_peer g). destruct (proj2 (peer_at_range (g_peer g) i) Hi) as [p Hp]. exists p. unfold group_peers. by rewrite Hg. Qed.

Lemma in_group_step s s' i : rr_step s s' -> in_group s i -> in_group s' i.
Proof. intros H (g & Hg & Hi). destruct (ok_group _ (step_ok _ _ H)) as [g' Hg']. exists g'. by destruct (step_number _ _ _ _ H Hg Hg') as [-> _]. Qed.

Lemma in_group_word s i : rr_ok s -> in_group s i -> exists w, rr_tried s !! Z.to_nat (i / 64) = Some w.
Proof.
  intros Hok (g & Hg & Hi). pose proof (ok_groups _ Hok) as Hgs. rewrite Forall_lookup in Hgs. destruct (Hgs _ _ Hg) as (_ & _ & _ & Hw).
  apply lookup_lt_is_Some_2. pose proof (Z.div_lt_upper_bound i 64 (Z.of_nat (length (rr_tried s))) ltac:(lia) ltac:(lia)). pose proof (Z.div_pos i 64 ltac:(lia) ltac:(lia)). lia.
Qed.

Lemma mark_tried_run s i : rr_ok s -> in_group s i -> exists s', mark_tried i s = Some s' /\ rr_step s s' /\ rr_groups s' = rr_groups s /\ rr_current s' = rr_current s /\ rr_tries s' = rr_tries s.
Proof.
  intros Hok Hi. destruct (in_group_word s i Hok Hi) as [w Hw]. unfold mark_tried. rewrite Hw. cbn [mbind option_bind]. eexists. split; [done|]. split_and!; [|done..].
  split; [|done|done|cbn; apply length_insert|].
  - destruct Hok as [H1 H2 H3]. split; [|done|]; cbn; by rewrite length_insert.
  - intros j Hj. unfold tried_bit. cbn. destruct (decide (Z.to_nat (j / 64) = Z.to_nat (i / 64))) as [-> |Hn]; [|by rewrite list_lookup_insert_ne].
    rewrite Hw, list_lookup_insert_eq by (by eapply lookup_lt_Some). cbn. intros [= Ht]. by rewrite Z.lor_spec, Ht.
Qed.

(** What a loop leaves. *)
Definition looked (s : rr_state) (b : bool) (s' : rr_state) : Prop :=
  rr_step s s' /\ in_group s' (rr_current s') /\ 0 <= rr_tries s' <= rr_tries s /\
  (b = true -> 1 <= rr_tries s' /\ tried_bit s (rr_current s') <> Some true /\ exists ps p, group_peers s' = Some ps /\ peer_at ps (rr_current s') = Some p /\ usable p).

Lemma check_peer_run now s : rr_ok s -> in_group s (rr_current s) -> 1 <= rr_tries s ->
  exists b s', check_peer now s = Some (b, s') /\ looked s b s' /\ rr_current s' = rr_current s.
Proof.
  intros Hok Hc Ht. destruct (in_group_word s _ Hok Hc) as [w Hw]. unfold check_peer. unfold tried_bit at 1. rewrite Hw. cbn [mbind option_bind].
  destruct (Z.testbit w (rr_current s mod 64)) eqn:Hb.
  { exists false, s. split_and!; [done| |done]. split_and!; [by apply rr_step_refl|done|lia|lia|done]. }
  destruct (in_group_peer s _ Hc) as (ps & p & Hps & Hp). rewrite Hps. cbn [mbind option_bind]. rewrite Hp. cbn [mbind option_bind].
  assert (tried_bit s (rr_current s) <> Some true) as Hnt by (unfold tried_bit; rewrite Hw; cbn; congruence).
  destruct (group s) as [g|] eqn:Hg; [|by unfold group_peers in Hps; rewrite Hg in Hps]. assert (ps = g_peer g) as -> by (unfold group_peers in Hps; rewrite Hg in Hps; by simplify_eq/=).
  assert (peer_ok p) as (P1 & P2 & P3). { pose proof (ok_groups _ Hok) as Hgs. rewrite Forall_lookup in Hgs. destruct (Hgs _ _ Hg) as (_ & Hb' & _). by eapply peer_at_ok. }
  destruct (p_down p) eqn:Hd; cbn [negb].
  - destruct (mark_tried_run s (rr_current s) Hok Hc) as (s' & -> & Hs & _ & Hcur & Htr). cbn [mbind option_bind]. eexists false, _. split; [done|]. split; [|done].
    assert (rr_step s (s' <| rr_tries := rr_tries s' - 1 |>)) as Hs'. { apply (rr_step_trans _ _ _ Hs (rr_step_fields s' (rr_current s') _ (step_ok _ _ Hs))). }
    split_and!; [done|cbn; rewrite Hcur; by eapply in_group_step|cbn; lia|cbn; lia|done].
  - destruct ((p_max_fails p =? 0) || (p_fails p <? p_max_fails p)) eqn:Hm.
    { exists true, s. split_and!; [done| |done]. split_and!; [by apply rr_step_refl|done|lia|lia|]. intros _. split_and!; [lia|done|]. exists (g_peer g), p. split_and!; [done|done|split; [done|]].
      apply orb_true_iff in Hm as [Hm%Z.eqb_eq|Hm%Z.ltb_lt]; auto. }
    apply orb_false_iff in Hm as [Hm%Z.eqb_neq _]. case_match.
    + destruct (upd_peer_run s g (rr_current s) p (fun p => p <| p_fails := 0 |>) Hok Hg Hp) as (s' & ps & -> & Hs & Hps' & Hp' & Hcur & Htr & _); [done|]. cbn [mbind option_bind].
      exists true, s'. split_and!; [done| |done]. split_and!; [done|rewrite Hcur; by eapply in_group_step|lia|lia|]. intros _. rewrite Hcur. split_and!; [lia|done|]. eexists ps, _. split_and!; [done|done|]. split; [done|]. right. cbn. lia.
    + destruct (upd_peer_run s g (rr_current s) p (fun p => p <| p_current_weight := 0 |>) Hok Hg Hp) as (s' & ps & -> & Hs & Hps' & Hp' & Hcur & Htr & _); [split_and!; cbn; [done|destruct P1; lia|done]|]. cbn [mbind option_bind].
      eexists false, _. split; [done|]. split; [|done].
      assert (rr_step s (s' <| rr_tries := rr_tries s' - 1 |>)) as Hs'. { apply (rr_step_trans _ _ _ Hs (rr_step_fields s' (rr_current s') _ (step_ok _ _ Hs))). }
      split_and!; [done|cbn; rewrite Hcur; by eapply in_group_step|cbn; lia|cbn; lia|done].
Qed.

Lemma looked_trans s1 s2 s3 b : looked s1 false s2 -> looked s2 b s3 -> looked s1 b s3.
Proof.
  intros (A1 & A2 & A3 & _) (B1 & B2 & B3 & B4). split_and!; [by eapply rr_step_trans|done|lia|lia|]. intros Hb. destruct (B4 Hb) as (C1 & C2 & C3). split_and!; [done| |done].
  destruct B2 as (g & _ & Hi). intros Ht. apply C2, (step_tried _ _ A1); [lia|done].
Qed.

Lemma group_facts s : rr_ok s -> exists g, group s = Some g /\ group_ok (length (rr_tried s)) g.
Proof. intros [H1 [g Hg] _]. exists g. split; [done|]. rewrite Forall_lookup in H1. by apply (H1 (rr_peers s)). Qed.

(** Setting the place of the request. *)
Lemma looked_current s s' c : looked s false s' -> in_group s' c -> looked s false (s' <| rr_current := c |>).
Proof.
  intros (A1 & _ & A3 & _) Hc. split_and!; [|done|cbn; lia|cbn; lia|done]. eapply rr_step_trans; [done|]. apply (rr_step_fields s' c (rr_tries s')), A1.
Qed.

Lemma first_loop_run now i s : (0 < i)%nat -> rr_ok s -> 1 <= rr_tries s -> exists b s', first_loop i now s = Some (b, s') /\ looked s b s'.
Proof.
  revert s. induction i as [|i IH]; intros s Hi Hok Ht; [lia|]. cbn [first_loop]. destruct (group_facts s Hok) as (g & Hg & G1 & G2 & _).
  unfold group_peers. rewrite Hg. cbn [fmap option_fmap option_map mbind option_bind].
  destruct (get_peer_run (g_peer g) G2 G1) as (n & ps & -> & Hn & Hl & Hps & _). cbn [mbind option_bind].
  destruct (set_peers_run s g ps Hok Hg Hl Hps) as (s1 & -> & Hs1 & _ & _ & Ht1 & _). cbn [mbind option_bind].
  assert (in_group s1 n) as Hin by (eapply in_group_step; [done|by exists g]).
  assert (looked s false (s1 <| rr_current := n |>)) as L1.
  { split_and!; [|done|cbn; lia|cbn; lia|done]. eapply rr_step_trans; [done|]. apply (rr_step_fields s1 n (rr_tries s1)), Hs1. }
  destruct (check_peer_run now (s1 <| rr_current := n |>)) as (b & s2 & -> & L2 & _); [apply L1|done|cbn; lia|]. cbn [mbind option_bind].
  pose proof (looked_trans _ _ _ _ L1 L2) as L. destruct b; [by eexists _, _|]. case_match; [by eexists _, _|]. case_match; [by eexists _, _|].
  destruct (IH s2) as (b & s3 & -> & L3); [|apply L|destruct L as (_ & _ & ? & _)|]. 
  - destruct (Nat.eqb_spec i 0); [done|lia].
  - destruct (Z.eqb_spec (rr_tries s2) 0); [done|lia].
  - eexists _, _. split; [done|]. by eapply looked_trans.
Qed.

Lemma next_loop_run now i s : (0 < i)%nat -> rr_ok s -> in_group s (rr_current s) -> 1 <= rr_tries s -> exists b s', next_loop i now s = Some (b, s') /\ looked s b s'.
Proof.
  revert s. induction i as [|i IH]; intros s Hi Hok Hc Ht; [lia|]. cbn [next_loop].
  destruct (check_peer_run now s Hok Hc Ht) as (b & s1 & -> & L1 & _). cbn [mbind option_bind]. destruct b; [by eexists _, _|].
  destruct (proj1 (proj2 L1)) as (g & Hg & Hr). rewrite Hg. cbn [mbind option_bind].
  set (s2 := s1 <| rr_current := _ |>).
  assert (looked s false s2) as L2 by (apply looked_current; [done|]; exists g; split; [done|]; destruct (Z.leb_spec (number g) (rr_current s1 + 1)); lia).
  case_match; [by eexists _, _|]. case_match; [by eexists _, _|].
  destruct (IH s2) as (b & s3 & -> & L3); [|apply L2|apply L2|destruct L2 as (_ & _ & ? & _)|].
  - destruct (Nat.eqb_spec i 0); [done|lia].
  - destruct (Z.eqb_spec (rr_tries s2) 0); [done|lia].
  - eexists _, _. split; [done|]. by eapply looked_trans.
Qed.

(** * The choice of a peer *)

(** The place of the request matters after its first try, and with several peers. *)
Definition place_ok (s : rr_state) : Prop :=
  exists g, group s = Some g /\ (g_single g = true \/ rr_tries s = number g \/ 0 <= rr_current s < number g).

(** After a call: the place is that of the last peer that was looked at. *)
Definition at_place (s : rr_state) : Prop := exists g, group s = Some g /\ (g_single g = true \/ 0 <= rr_current s < number g).

Lemma at_place_shape s s' : is_Some (group s') -> shape s' = shape s -> rr_peers s' = rr_peers s -> rr_current s' = rr_current s -> at_place s -> at_place s'.
Proof. intros [g' Hg'] H1 H2 H3 (g & Hg & H). destruct (shape_group s s' g g' H1 H2 Hg Hg') as [E1 E2]. exists g'. split; [done|]. by rewrite E1, E2, H3. Qed.

(** What a call has to say about its result. *)
Definition chosen (s : rr_state) (r : rr_result) (s' : rr_state) : Prop :=
  match r with
  | Connection _ => False
  | Peer k i =>
      rr_peers s' = k /\ (rr_peers s <= k)%nat /\ 1 <= rr_tries s' /\
      exists g p, group s' = Some g /\ peer_at (g_peer g) i = Some p /\
        (g_single g = false -> rr_current s' = i /\ usable p /\ (k = rr_peers s -> tried_bit s i <> Some true))
  | Busy k => k = rr_peers s /\ forall k' g, (k <= k')%nat -> rr_groups s' !! k' = Some g -> Forall (fun p => p_fails p = 0) (g_peer g)
  end.

Lemma clear_tried_run s k g : rr_ok s -> rr_groups s !! S k = Some g ->
  exists ws, clear_tried (number g) s = Some (s <| rr_tried := ws |>) /\ length ws = length (rr_tried s).
Proof.
  intros [_ _ H1] Hk. rewrite Forall_lookup in H1. pose proof (H1 k g ltac:(by rewrite lookup_drop)) as Hw. unfold clear_tried.
  destruct (Nat.ltb_spec (length (rr_tried s)) (Z.to_nat (number g / 64 + 1))); [lia|]. eexists. split; [done|]. rewrite length_app, length_replicate, length_drop. lia.
Qed.

Lemma found_peer_run s i : rr_ok s -> 1 <= rr_tries s ->
  exists s', found_peer i s = Some (Peer (rr_peers s) i, s') /\ rr_ok s' /\ rr_groups s' = rr_groups s /\ rr_peers s' = rr_peers s /\ rr_current s' = rr_current s /\ 1 <= rr_tries s'.
Proof.
  intros Hok Ht. unfold found_peer. destruct (rr_groups s !! S (rr_peers s)) as [next|] eqn:Hn; [|by exists s]. case_match; [|by exists s].
  assert (rr_ok (s <| rr_tries := rr_tries s + number next |>)) as Hok'. { apply (rr_step_fields s (rr_current s) (rr_tries s + number next)), Hok. }
  destruct (clear_tried_run _ (rr_peers s) next Hok' Hn) as (ws & -> & Hl). cbn [mbind option_bind]. eexists. split; [done|].
  split_and!; [|done|done|done|cbn; unfold number; lia]. destruct Hok as [H1 H2 H3]. split; [|done|]; cbn in *; by rewrite Hl.
Qed.

Lemma forget_ok w g : group_ok w g -> group_ok w (g <| g_peer := (fun p => p <| p_fails := 0 |>) <$> g_peer g |>).
Proof.
  intros (H1 & H2 & H3 & H4). split_and!; [cbn; by destruct (g_peer g)| |done|unfold number in *; cbn; by rewrite length_fmap].
  cbn. apply Forall_fmap. apply (Forall_impl _ _ _ H2). by intros p.
Qed.

Lemma forget_fails_run s k : rr_ok s -> (k < length (rr_groups s))%nat ->
  exists s', forget_fails k s = Some s' /\ rr_ok s' /\ rr_peers s' = rr_peers s /\ shape s' = shape s /\ rr_current s' = rr_current s /\ rr_tries s' = rr_tries s /\
    (forall k', k' <> k -> rr_groups s' !! k' = rr_groups s !! k') /\ (forall g, rr_groups s' !! k = Some g -> Forall (fun p => p_fails p = 0) (g_peer g)).
Proof.
  intros [H1 H2 H3] Hk. destruct (lookup_lt_is_Some_2 _ _ Hk) as [g Hg]. unfold forget_fails. rewrite Hg. cbn [mbind option_bind]. eexists. split; [done|].
  set (s' := s <| rr_groups := _ |>). assert (length (rr_groups s') = length (rr_groups s)) as Hl by apply length_insert.
  split_and!; [|done|by apply (shape_insert _ _ g); [|split; [unfold number; cbn; rewrite length_fmap|]]|done|done|intros k' Hn; by apply list_lookup_insert_ne|].
  - split; [|unfold group; apply lookup_lt_is_Some; rewrite Hl; by apply lookup_lt_is_Some|cbn; apply (next_insert _ _ g); [done|done|unfold number; cbn; by rewrite length_fmap]]. cbn. apply Forall_insert; [done|]. apply forget_ok. rewrite Forall_lookup in H1. by apply (H1 k).
  - intros g' Hg'. pose proof (list_lookup_insert_eq (rr_groups s) k (g <| g_peer := (fun p => p <| p_fails := 0 |>) <$> g_peer g |>) Hk) as E.
    pose proof (eq_trans (eq_sym Hg') E) as E'. injection E' as ->. cbn. apply Forall_fmap, Forall_forall. by intros p.
Qed.

Lemma taken_run s s1 : looked s true s1 -> exists s2, 
  (s ← upd_peer (rr_current s1) (fun p => p <| p_current_weight := p_current_weight p - 1 |>) s1; s ← mark_tried (rr_current s) s; found_peer (rr_current s) s)
    = Some (Peer (rr_peers s) (rr_current s1), s2) /\ rr_ok s2 /\ shape s2 = shape s /\ at_place s2 /\ chosen s (Peer (rr_peers s) (rr_current s1)) s2.
Proof.
  intros (A1 & A2 & A3 & A4). destruct (A4 eq_refl) as (B1 & B2 & ps & p & Hps & Hp & Hu). destruct A2 as (g & Hg & Hr).
  assert (ps = g_peer g) as -> by (unfold group_peers in Hps; rewrite Hg in Hps; by simplify_eq/=).
  assert (peer_ok p) as (P1 & P2 & P3). { destruct (group_facts _ (step_ok _ _ A1)) as (g' & Hg' & _ & F & _). simplify_eq. by eapply peer_at_ok. }
  destruct (upd_peer_run s1 g (rr_current s1) p (fun p => p <| p_current_weight := p_current_weight p - 1 |>) (step_ok _ _ A1) Hg Hp) as (s2 & ps & -> & Hs & Hps' & Hp' & Hcur & Htr & _);
    [split_and!; cbn; [done|lia|done]|]. cbn [mbind option_bind]. rewrite Hcur.
  destruct (mark_tried_run s2 (rr_current s1) (step_ok _ _ Hs)) as (s3 & -> & Hs3 & Hgr & Hcur3 & Htr3); [eapply in_group_step; [done|by exists g]|]. cbn [mbind option_bind].
  destruct (found_peer_run s3 (rr_current s3) (step_ok _ _ Hs3)) as (s4 & -> & F1 & F2 & F3 & F4 & F5); [lia|].
  pose proof (step_peers _ _ A1). pose proof (step_peers _ _ Hs). pose proof (step_peers _ _ Hs3). pose proof (step_shape _ _ A1). pose proof (step_shape _ _ Hs).
  assert (rr_peers s3 = rr_peers s) as Hp3 by congruence. assert (rr_current s3 = rr_current s1) as Hc3 by congruence. exists s4. split; [by rewrite Hp3, Hc3|]. assert (shape s4 = shape s) as Hsh by (unfold shape in *; congruence).
  split_and!; [done|done| |].
  { apply (at_place_shape s1); [apply F1|congruence|congruence|congruence|]. exists g. split; [done|by right]. }
  split_and!; [congruence|lia|done|].
  unfold group_peers, group in Hps'. destruct (rr_groups s2 !! rr_peers s2) as [g2|] eqn:Hg2; [|done]. cbn in Hps'. simplify_eq.
  exists g2, (p <| p_current_weight := p_current_weight p - 1 |>). split_and!; [unfold group; congruence|done|]. intros _. split_and!; [congruence|done|done].
Qed.

Lemma get_peer_loop_run fuel now s : (length (rr_groups s) <= rr_peers s + fuel)%nat -> rr_ok s -> place_ok s -> 1 <= rr_tries s ->
  exists r s', get_peer_loop fuel now s = Some (r, s') /\ rr_ok s' /\ shape s' = shape s /\ at_place s' /\ 0 <= rr_tries s' /\ chosen s r s'.
Proof.
  revert s. induction fuel as [|fuel IH]; intros s Hf Hok (g & Hg & Hpl) Ht; pose proof (lookup_lt_Some _ _ _ Hg); [lia|]. cbn [get_peer_loop].
  rewrite Hg. cbn [mbind option_bind]. destruct (group_facts s Hok) as (g' & Hg' & G1 & G2 & G3 & G4). simplify_eq. rewrite G3. cbn [negb Z.eqb].
  destruct (g_single g) eqn:Hsg.
  { destruct (found_peer_run s 0 Hok Ht) as (s' & -> & F1 & F2 & F3 & F4 & F5). eexists _, _. split; [done|]. split_and!; [done|by unfold shape; rewrite F2|exists g; split; [unfold group; by rewrite F2, F3|by left]|lia|]. split_and!; [done|lia|done|].
    destruct (proj2 (peer_at_range (g_peer g) 0)) as [p Hp]; [destruct (g_peer g); [done|cbn; lia]|]. exists g, p. split_and!; [unfold group; by rewrite F2, F3|done|congruence]. }
  destruct Hpl as [|Hpl]; [done|].
  assert (exists b s1, (if rr_tries s =? number g then first_loop (Z.to_nat (rr_tries s)) now s else next_loop (Z.to_nat (rr_tries s)) now s) = Some (b, s1) /\ looked s b s1) as (b & s1 & -> & L).
  { destruct (Z.eqb_spec (rr_tries s) (number g)); [apply first_loop_run|apply next_loop_run]; try done; [lia|lia|]. exists g. split; [done|lia]. }
  cbn [mbind option_bind]. destruct b.
  { destruct (taken_run s s1 L) as (s2 & E & T1 & T2 & T3 & T4). eexists _, s2. split; [exact E|]. split_and!; [done|done|done| |done]. destruct T4 as (_ & _ & ? & _). lia. }
  destruct L as (L1 & L2 & L3 & _). pose proof (step_peers _ _ L1) as Hp1. pose proof (step_groups _ _ L1) as Hgl. pose proof (step_shape _ _ L1) as Hsh. rewrite Hp1. cbv zeta.
  destruct (rr_groups s1 !! S (rr_peers s)) as [next|] eqn:Hn.
  - set (s2 := s1 <| rr_peers := S (rr_peers s) |> <| rr_tries := number next |>).
    assert (rr_ok s2) as Hok2. { destruct L1 as [[O1 O2 O3] _]. split; [done|by exists next|done]. }
    destruct (clear_tried_run s2 (rr_peers s) next Hok2 Hn) as (ws & -> & Hws). cbn [mbind option_bind].
    assert (1 <= number next). { destruct (group_facts s2 Hok2) as (x & Hx & X1 & _). pose proof (eq_trans (eq_sym Hx) Hn). simplify_eq. unfold number. destruct (g_peer next); [done|cbn; lia]. }
    destruct (IH (s2 <| rr_tried := ws |>)) as (r & s3 & -> & R1 & R2 & R4 & R5 & R3); [cbn; lia| | |done|].
    + destruct Hok2 as [O1 O2 O3]. split; [|done|]; cbn in *; by rewrite Hws.
    + exists next. split; [done|]. right. by left.
    + cbn [mbind option_bind]. change (shape s3 = shape s1) in R2. pose proof (shape_length _ _ R2). destruct r as [c|k i|k]; [done| |].
      * eexists _, _. split; [done|]. split_and!; [done|congruence|done|done|]. destruct R3 as (C1 & C2 & C3 & x & p & C4 & C5 & C6). cbn in C2. split_and!; [done|lia|done|].
        exists x, p. split_and!; [done|done|]. intros Hx. destruct (C6 Hx) as (D1 & D2 & D3). split_and!; [done|done|lia].
      * destruct (forget_fails_run s3 (rr_peers s) R1) as (s4 & -> & F1 & F2 & F3 & F6 & F7 & F4 & F5); [lia|]. cbn [mbind option_bind]. eexists _, _. split; [done|]. split_and!; [done|congruence|by apply (at_place_shape s3); [apply F1|..]|lia|].
        destruct R3 as [-> R3]. cbn in R3. split; [done|]. intros k' x Hk Hx. destruct (decide (k' = rr_peers s)) as [-> |Hne]; [by apply F5|].
        rewrite F4 in Hx by done. apply (R3 k'); [lia|done].
  - destruct (forget_fails_run s1 (rr_peers s) (step_ok _ _ L1)) as (s4 & -> & F1 & F2 & F3 & F6 & F7 & F4 & F5); [lia|]. cbn [mbind option_bind]. eexists _, _. split; [done|]. split_and!; [done|congruence| |lia|].
    { apply (at_place_shape s1); [apply F1|done|done|done|]. destruct L2 as (x & Hx & Hr). exists x. by auto. }
    split; [done|]. intros k' x Hk Hx. destruct (decide (k' = rr_peers s)) as [-> |Hne]; [by apply F5|].
    apply lookup_lt_Some in Hx. apply lookup_ge_None in Hn. rewrite (shape_length _ _ F3) in Hx. lia.
Qed.

(** The report that follows a call. *)
Lemma rr_free_run now state s : rr_ok s -> at_place s -> 0 <= rr_tries s ->
  exists s', ngx_http_upstream_free_round_robin_peer now state s = Some s' /\ rr_ok s' /\ shape s' = shape s /\ at_place s' /\ 0 <= rr_tries s'.
Proof.
  intros Hok (g & Hg & Hpl) Ht. unfold ngx_http_upstream_free_round_robin_peer. case_match; [exists s; split_and!; [done|done|done|by exists g|done]|]. rewrite Hg. cbn [mbind option_bind].
  destruct (g_single g) eqn:Hsg. { eexists. split; [done|]. split_and!; [apply (rr_step_fields s (rr_current s) 0 Hok)|done|exists g; by auto|done]. }
  destruct Hpl as [|Hr]; [done|]. destruct (proj2 (peer_at_range (g_peer g) (rr_current s)) Hr) as [p Hp].
  assert (peer_ok p) as (P1 & P2 & P3). { destruct (group_facts _ Hok) as (g' & Hg' & _ & F & _). simplify_eq. by eapply peer_at_ok. }
  assert (exists s1, (if negb (Z.land state NGX_PEER_FAILED =? 0) then upd_peer (rr_current s) (fail_peer now) s else Some s) = Some s1 /\ rr_step s s1 /\ rr_current s1 = rr_current s /\ rr_tries s1 = rr_tries s)
    as (s1 & -> & S1 & S2 & S3).
  { case_match; [|exists s; split_and!; [done|by apply rr_step_refl|done|done]].
    destruct (upd_peer_run s g (rr_current s) p (fail_peer now) Hok Hg Hp) as (s1 & ps & -> & Hs & _ & _ & Hcur & Htr & _); [|by exists s1].
    unfold fail_peer. split_and!; cbn; [done| |done]. destruct P1 as [P1 _]. pose proof (Z.quot_pos (p_weight p) (p_max_fails p) P1). destruct (Z.eqb_spec (p_max_fails p) 0); cbn [negb]; case_match; lia. }
  cbn [mbind option_bind]. eexists. split; [done|]. set (c := if number g <=? _ then _ else _).
  destruct (ok_group _ (step_ok _ _ S1)) as [g1 Hg1]. destruct (step_number _ _ _ _ S1 Hg Hg1) as [En _]. pose proof (step_ok _ _ S1) as Hok1.
  assert (0 <= c < number g1) by (rewrite En; unfold c, number in *; case_match; lia).
  change (rr_tries (s1 <| rr_current := c |>)) with (rr_tries s1). destruct (Z.eqb_spec (rr_tries s1) 0) as [E0|E0]; cbn [negb].
  - pose proof (rr_step_fields s1 c (rr_tries s1) Hok1) as Hf. split_and!; [apply Hf|apply (step_shape _ _ S1)|exists g1; split; [done|by right]|cbn; lia].
  - pose proof (rr_step_fields s1 c (rr_tries s1 - 1) Hok1) as Hf. split_and!; [apply Hf|apply (step_shape _ _ S1)|exists g1; split; [done|by right]|cbn; lia].
Qed.
