(* ===== verification/NgxHttpUpstreamPeers.v ===== *)
(** The use of the round-robin balancer: the peers of an upstream from its configuration
    ([ngx_http_upstream_init_round_robin] and [ngx_http_upstream_init_round_robin_peer]) and
    the requests that share them.

    Requests run interleaved in a worker process.  They share the groups of peers, and each
    has its own tries.  An event is a new request's first call of the balancer, a further
    call, or a report on a connection; what src/http/ngx_http_upstream.c makes of the results
    decides which events come, so that the theorems are on all sequences of events.  *)

From stdpp Require Import sorting.
From S2P Require Import Prelude NgxStr NgxHttpUpstreamRr.

Open Scope Z_scope.

(** * The configuration *)

(** An address is what [sockaddr], [socklen] and [name] stand for. *)
Record ngx_http_upstream_server_t := mk_server {
  sv_addrs : list Z;
  sv_weight : Z;
  sv_max_fails : Z;
  sv_fail_timeout : Z;
  sv_down : bool;
  sv_backup : bool;
}.

Record ngx_http_upstream_srv_conf_t := mk_srv {
  us_servers : option (list ngx_http_upstream_server_t);
  us_port : Z;
  us_default_port : Z;
}.

Definition main_peer (sv : ngx_http_upstream_server_t) (addr : Z) : ngx_http_upstream_rr_peer_t :=
  let w := if sv_down sv then 0 else sv_weight sv in mk_peer addr w w 0 0 (sv_max_fails sv) (sv_fail_timeout sv) (sv_down sv).

Definition backup_peer (sv : ngx_http_upstream_server_t) (addr : Z) : ngx_http_upstream_rr_peer_t :=
  mk_peer addr (sv_weight sv) (sv_weight sv) 0 0 (sv_max_fails sv) (sv_fail_timeout sv) (sv_down sv).

(** The loops over the servers and their addresses. *)
Fixpoint main_peers (svs : list ngx_http_upstream_server_t) : list ngx_http_upstream_rr_peer_t :=
  match svs with
  | [] => []
  | sv :: svs => (if sv_backup sv then [] else main_peer sv <$> sv_addrs sv) ++ main_peers svs
  end.

Fixpoint backup_peers (svs : list ngx_http_upstream_server_t) : list ngx_http_upstream_rr_peer_t :=
  match svs with
  | [] => []
  | sv :: svs => (if negb (sv_backup sv) then [] else backup_peer sv <$> sv_addrs sv) ++ backup_peers svs
  end.

Definition ngx_http_upstream_cmp_servers (first second : ngx_http_upstream_rr_peer_t) : Z := if p_weight first <? p_weight second then 1 else 0.

Definition implicit_peer (addr : Z) : ngx_http_upstream_rr_peer_t := mk_peer addr 1 1 0 0 1 10 false.

(** [None] is [NGX_ERROR].  [pcalloc] tells whether the first and the second allocation
    succeed, [salloc] the same of those in [ngx_sort]; [resolve] is
    [ngx_inet_resolve_host] for the upstream's host and a port. *)
Definition ngx_http_upstream_init_round_robin (pcalloc salloc : nat -> bool) (resolve : Z -> option (list Z)) (us : ngx_http_upstream_srv_conf_t) :
    option (list ngx_http_upstream_rr_peers_t) :=
  match us_servers us with
  | Some svs =>
      if negb (pcalloc 0%nat) then None
      else
        let peers := ngx_sort ngx_http_upstream_cmp_servers (salloc 0%nat) (main_peers svs) in
        let backup := backup_peers svs in
        if (length backup =? 0)%nat then Some [mk_peers (length peers =? 1)%nat 0 [] peers]
        else if negb (pcalloc 1%nat) then None
        else Some [mk_peers false 0 [] peers; mk_peers false 0 [] (ngx_sort ngx_http_upstream_cmp_servers (salloc 1%nat) backup)]
  | None =>
      if (us_port us =? 0) && (us_default_port us =? 0) then None
      else
        addrs ← resolve ((if negb (us_port us =? 0) then us_port us else us_default_port us) mod 2 ^ 16);
        if negb (pcalloc 0%nat) then None else Some [mk_peers (length addrs =? 1)%nat 0 [] (implicit_peer <$> addrs)]
  end.

(** A new request, whose allocations succeed; [n] words for the peers of the larger of the
    first two groups. *)
Definition ngx_http_upstream_init_round_robin_peer (groups : list ngx_http_upstream_rr_peers_t) : option rr_state :=
  g ← groups !! 0%nat;
  let n := match groups !! 1%nat with Some next => if number g <? number next then number next else number g | None => number g end in
  let words := if n <=? 64 then 1 else (n + 63) / 64 in
  Some (mk_rr groups 0 0 (replicate (Z.to_nat words) 0) (number g)).

(** * Requests *)

(** The groups, the requests (each with whether it has a connection) and the calls of the
    balancer so far, with the states around each. *)
Record rr_world := mk_world {
  w_groups : list ngx_http_upstream_rr_peers_t;
  w_requests : list (bool * rr_state);
  w_log : list (rr_state * rr_result * rr_state);
}.

Inductive rr_event := Ask | Retry (j : nat) | Report (j : nat) (state : Z).

Definition connected (r : rr_result) : bool := match r with Busy _ => false | _ => true end.

(** A request calls the balancer again when its connection has been reported on and a try is
    left; it reports on a connection it has, and once more, with [0], when it ends. *)
Definition rr_event_step (now : Z) (e : rr_event) (w : rr_world) : option rr_world :=
  match e with
  | Ask =>
      s ← ngx_http_upstream_init_round_robin_peer (w_groups w); '(r, s') ← ngx_http_upstream_get_round_robin_peer now s;
      Some (mk_world (rr_groups s') (w_requests w ++ [(connected r, s')]) (w_log w ++ [(s, r, s')]))
  | Retry j =>
      match w_requests w !! j with
      | Some (false, s) =>
          if 0 <? rr_tries s then
            let s := s <| rr_groups := w_groups w |> in
            '(r, s') ← ngx_http_upstream_get_round_robin_peer now s;
            Some (mk_world (rr_groups s') (<[j := (connected r, s')]> (w_requests w)) (w_log w ++ [(s, r, s')]))
          else Some w
      | _ => Some w
      end
  | Report j state =>
      match w_requests w !! j with
      | Some (b, s) =>
          if b || (state =? 0) then
            s' ← ngx_http_upstream_free_round_robin_peer now state (s <| rr_groups := w_groups w |>);
            Some (mk_world (rr_groups s') (<[j := (false, s')]> (w_requests w)) (w_log w))
          else Some w
      | None => Some w
      end
  end.

Fixpoint rr_events (es : list (Z * rr_event)) (w : rr_world) : option rr_world :=
  match es with [] => Some w | (now, e) :: es => w ← rr_event_step now e w; rr_events es w end.

Definition choices (w : rr_world) : list rr_result := (fun '(_, r, _) => r) <$> w_log w.

(** * The configured peers *)

(** The heavier peers come first. *)
Lemma sort_servers ps : StronglySorted (fun a b => p_weight b <= p_weight a) (ngx_sort ngx_http_upstream_cmp_servers true ps) /\ ngx_sort ngx_http_upstream_cmp_servers true ps ≡ₚ ps.
Proof.
  pose (c := fun a b : ngx_http_upstream_rr_peer_t => p_weight b - p_weight a).
  assert (ngx_sort ngx_http_upstream_cmp_servers true ps = ngx_sort c true ps) as ->.
  { rewrite !ngx_sort_insert. apply insert_all_ext. intros x y. unfold ngx_http_upstream_cmp_servers, c. destruct (Z.ltb_spec (p_weight x) (p_weight y)), (Z.ltb_spec 0 (p_weight y - p_weight x)); done || lia. }
  destruct (ngx_sort_correct c) with (base := ps) as (H1 & H2 & _); [unfold c; intros; lia|unfold c; intros; lia|]. split; [|done].
  clear H2. induction H1 as [|a l _ IH Ha]; constructor; [done|]. apply (Forall_impl _ _ _ Ha). unfold c. cbn. lia.
Qed.

Lemma sort_servers_perm b ps : ngx_sort ngx_http_upstream_cmp_servers b ps ≡ₚ ps.
Proof. destruct b; [apply sort_servers|done]. Qed.

(** What the configuration has to say of an upstream. *)
Definition server_ok (sv : ngx_http_upstream_server_t) : Prop := weight_ok (sv_weight sv) /\ 0 <= sv_max_fails sv.

Definition conf_ok (resolve : Z -> option (list Z)) (us : ngx_http_upstream_srv_conf_t) : Prop :=
  match us_servers us with
  | Some svs =>
      Forall server_ok svs /\ main_peers svs <> [] /\
      (Z.of_nat (length (backup_peers svs)) mod 64 <> 0 \/ (length (backup_peers svs) < length (main_peers svs))%nat)
  | None => forall port, resolve port <> Some []
  end.

Definition group_base (g : ngx_http_upstream_rr_peers_t) : Prop := g_peer g <> [] /\ Forall peer_ok (g_peer g) /\ g_last_cached g = 0.

(** The groups a request may start with. *)
Definition startable (sh : list (Z * bool)) : Prop :=
  exists n b rest, sh = (n, b) :: rest /\ (length rest <= 1)%nat /\ Forall (fun x => x.1 mod 64 <> 0 \/ x.1 < n) rest.

Lemma main_peers_ok svs : Forall server_ok svs -> Forall peer_ok (main_peers svs).
Proof.
  induction 1 as [|sv svs [H1 H2] _ IH]; [constructor|]. cbn. apply Forall_app. split; [|done]. destruct (sv_backup sv); [constructor|]. apply Forall_fmap, Forall_forall. intros a _.
  split_and!; cbn; [by destruct (sv_down sv)|done|done].
Qed.

Lemma backup_peers_ok svs : Forall server_ok svs -> Forall peer_ok (backup_peers svs).
Proof.
  induction 1 as [|sv svs [H1 H2] _ IH]; [constructor|]. cbn. apply Forall_app. split; [|done]. destruct (sv_backup sv); [|constructor]. apply Forall_fmap, Forall_forall. intros a _.
  by split_and!.
Qed.

Lemma sorted_base b ps single : ps <> [] -> Forall peer_ok ps -> group_base (mk_peers single 0 [] (ngx_sort ngx_http_upstream_cmp_servers b ps)).
Proof.
  intros H1 H2. pose proof (sort_servers_perm b ps) as Hp. split_and!; [|cbn; by rewrite Hp|done]. cbn. intros E. rewrite E in Hp. by apply Permutation_nil in Hp.
Qed.

Lemma init_round_robin_ok pcalloc salloc resolve us gs : ngx_http_upstream_init_round_robin pcalloc salloc resolve us = Some gs -> conf_ok resolve us ->
  Forall group_base gs /\ startable (group_shape <$> gs).
Proof.
  unfold ngx_http_upstream_init_round_robin, conf_ok. destruct (us_servers us) as [svs|].
  - intros H (C1 & C2 & C3). case_match; [done|]. pose proof (main_peers_ok _ C1). pose proof (backup_peers_ok _ C1). destruct (Nat.eqb_spec (length (backup_peers svs)) 0) as [E|E].
    + injection H as <-. split; [constructor; [by apply sorted_base|constructor]|]. eexists _, _, []. split_and!; [done|cbn; lia|constructor].
    + case_match; [done|]. injection H as <-. split; [repeat constructor; apply sorted_base; try done; by intros E'; rewrite E' in E|].
      eexists _, _, [_]. split_and!; [done|done|]. constructor; [|constructor]. cbn. unfold number. cbn. rewrite !(Permutation_length (sort_servers_perm _ _)). lia.
  - intros H C. case_match; [done|]. apply bind_Some in H as (addrs & Ha & H). case_match; [done|]. injection H as <-. split.
    + constructor; [|constructor]. split_and!; [cbn; intros E%fmap_nil_inv; subst; by apply (C _ Ha)| |done]. cbn. apply Forall_fmap, Forall_forall. by intros a _.
    + eexists _, _, []. split_and!; [done|cbn; lia|constructor].
Qed.

(** * Requests are safe *)

Definition words_ok (n : nat) (sh : list (Z * bool)) : Prop :=
  Forall (fun x => x.1 <= 64 * Z.of_nat n) sh /\ Forall (fun x => (Z.to_nat (x.1 / 64 + 1) <= n)%nat) (drop 1 sh).

Lemma rr_ok_iff s : rr_ok s <-> Forall group_base (rr_groups s) /\ words_ok (length (rr_tried s)) (shape s) /\ is_Some (group s).
Proof.
  unfold words_ok, shape. rewrite skipn_map. split.
  - intros [H1 H2 H3]. split_and!; [|apply Forall_fmap|by apply Forall_fmap|done].
    + apply (Forall_impl _ _ _ H1). intros g (G1 & G2 & G3 & G4). by split_and!.
    + apply (Forall_impl _ _ _ H1). by intros g (G1 & G2 & G3 & G4).
  - intros (H1 & [H2 H3] & H4). rewrite Forall_fmap in H2. rewrite Forall_fmap in H3. split; [|done|done]. apply Forall_forall. intros g Hg. rewrite Forall_forall in H1. pose proof (proj1 (Forall_forall _ _) H2 g Hg) as G4.
    destruct (H1 g Hg) as (G1 & G2 & G3). by split_and!.
Qed.

(** A request is in order over the groups as they are now. *)
Definition request_ok (gs : list ngx_http_upstream_rr_peers_t) (q : bool * rr_state) : Prop :=
  let s := q.2 <| rr_groups := gs |> in rr_ok s /\ at_place s /\ 0 <= rr_tries s.

Record world_ok (w : rr_world) : Prop := {
  wo_groups : Forall group_base (w_groups w);
  wo_start : startable (group_shape <$> w_groups w);
  wo_requests : Forall (request_ok (w_groups w)) (w_requests w);
  wo_log : Forall (fun '(a, r, b) => chosen a r b) (w_log w);
}.

(** What one request does to the groups leaves the others in order. *)
Lemma request_ok_shape gs gs' q : Forall group_base gs' -> group_shape <$> gs' = group_shape <$> gs -> request_ok gs q -> request_ok gs' q.
Proof.
  intros Hb Hsh (H1 & H2 & H3). pose proof H1 as (_ & Hw & Hg)%rr_ok_iff.
  assert (is_Some (group (q.2 <| rr_groups := gs' |>))) as Hg'.
  { unfold group in *. cbn in *. apply lookup_lt_is_Some in Hg. apply lookup_lt_is_Some. apply (f_equal length) in Hsh. rewrite !length_fmap in Hsh. lia. }
  split_and!; [apply rr_ok_iff; split_and!; [done|cbn; unfold shape; cbn; by rewrite Hsh|done]| |done].
  by apply (at_place_shape (q.2 <| rr_groups := gs |>)).
Qed.

(** The words cleared for a group of [x] peers are among those allocated for [n]. *)
Lemma words_next x n : 0 <= x <= n -> x mod 64 <> 0 \/ x < n -> (Z.to_nat (x / 64 + 1) <= Z.to_nat (if (n <=? 64)%Z then 1 else (n + 63) / 64))%nat.
Proof.
  intros H1 H2. pose proof (Z.div_mod x 64). pose proof (Z.mod_pos_bound x 64). destruct (Z.leb_spec n 64).
  - assert (x < 64) by (destruct (decide (x = 64)) as [-> |]; [destruct H2; [by cbn in *|lia]|lia]). rewrite (Z.div_small x 64); lia.
  - pose proof (Z.div_mod (n + 63) 64). pose proof (Z.mod_pos_bound (n + 63) 64). lia.
Qed.

Lemma rr_init_ok gs s : ngx_http_upstream_init_round_robin_peer gs = Some s -> Forall group_base gs -> startable (group_shape <$> gs) -> rr_ok s /\ place_ok s /\ 1 <= rr_tries s /\ rr_groups s = gs.
Proof.
  intros Hi Hb (n0 & b & rest & Hsh & Hl & Hn). unfold ngx_http_upstream_init_round_robin_peer in Hi. destruct gs as [|g gs]; [done|]. cbn [lookup list_lookup mbind option_bind] in Hi.
  injection Hi as <-. injection Hsh as <- <- <-. set (n := match gs !! 0%nat with Some _ => _ | None => _ end). set (words := if n <=? 64 then 1 else (n + 63) / 64).
  assert (0 <= words /\ n <= 64 * words). { unfold words. destruct (Z.leb_spec n 64); [lia|]. pose proof (Z.div_mod (n + 63) 64). pose proof (Z.mod_pos_bound (n + 63) 64). lia. }
  rewrite length_fmap in Hl. rewrite Forall_fmap in Hn.
  assert (Forall (fun x => number x <= n) (g :: gs)) as Hmax.
  { unfold n. destruct gs as [|g' [|]]; [by repeat constructor| |cbn in Hl; lia]. cbn. destruct (Z.ltb_spec (number g) (number g')); repeat constructor; lia. }
  split_and!; [|eexists; split; [done|right; by left]| |done].
  2: { cbn. apply Forall_cons in Hb as [(G1 & _) _]. unfold number. destruct (g_peer g); [done|cbn; lia]. }
  apply rr_ok_iff. split_and!; [done| |by eexists]. unfold words_ok, shape. cbn [rr_tried rr_groups]. rewrite length_replicate. split.
  - rewrite Forall_fmap. apply (Forall_impl _ _ _ Hmax). intros x Hx. cbn. lia.
  - rewrite fmap_cons. cbn [drop]. rewrite drop_0, Forall_fmap. apply Forall_cons in Hmax as [Hg Hmax]. apply Forall_forall. intros x Hx. rewrite Forall_forall in Hn, Hmax.
    specialize (Hn x Hx). specialize (Hmax x Hx). cbn in *. apply words_next; [unfold number in *; lia|lia].
Qed.

(** The world after a request has changed the groups. *)
Lemma world_new w b s j log : world_ok w -> shape s = group_shape <$> w_groups w -> rr_ok s -> at_place s -> 0 <= rr_tries s -> Forall (fun '(a, r, b) => chosen a r b) log ->
  world_ok (mk_world (rr_groups s) (<[j := (b, s)]> (w_requests w)) log) /\ world_ok (mk_world (rr_groups s) (w_requests w ++ [(b, s)]) log).
Proof.
  intros [W1 W2 W3 W4] Hsh Hok Hat Ht Hlog. pose proof Hok as (Hb & _ & _)%rr_ok_iff. unfold shape in Hsh.
  assert (Forall (request_ok (rr_groups s)) (w_requests w)) by (apply (Forall_impl _ _ _ W3); intros q; by apply request_ok_shape).
  assert (request_ok (rr_groups s) (b, s)) by (by destruct s). split; split; cbn; try done; [by rewrite Hsh|by apply Forall_insert|by rewrite Hsh|]. apply Forall_app. auto.
Qed.

Lemma event_step_ok now e w : world_ok w -> exists w', rr_event_step now e w = Some w' /\ world_ok w'.
Proof.
  intros Hw. pose proof Hw as [W1 W2 W3 W4].
  destruct e as [|j|j state]; cbn [rr_event_step].
  - assert (exists s, ngx_http_upstream_init_round_robin_peer (w_groups w) = Some s) as [s Hs]. { destruct W2 as (n & b & rest & E & _). destruct (w_groups w) as [|g gs]; [done|]. by eexists. }
    destruct (rr_init_ok _ _ Hs W1 W2) as (H1 & H2 & H3 & H4). rewrite Hs. cbn [mbind option_bind]. unfold ngx_http_upstream_get_round_robin_peer.
    destruct (get_peer_loop_run (length (rr_groups s)) now s) as (r & s' & -> & R1 & R2 & R3 & R4 & R5); [lia|done..|]. cbn [mbind option_bind]. eexists. split; [done|].
    apply (world_new w _ s' 0%nat); [done|by rewrite R2; unfold shape; rewrite H4|done..|]. apply Forall_app. auto.
  - destruct (w_requests w !! j) as [[[] s]|] eqn:Hj; [by exists w|..|by exists w]. destruct (Z.ltb_spec 0 (rr_tries s)); [|by exists w].
    destruct (proj1 (Forall_lookup _ _) W3 _ _ Hj) as (H1 & H2 & H3). cbn in H1, H2, H3. cbv zeta. unfold ngx_http_upstream_get_round_robin_peer.
    set (s0 := s <| rr_groups := w_groups w |>) in *.
    destruct (get_peer_loop_run (length (rr_groups s0)) now s0) as (r & s' & -> & R1 & R2 & R3 & R4 & R5); [lia|done| |cbn; lia|].
    { destruct H2 as (g & Hg & Hp). exists g. split; [done|]. destruct Hp; auto. }
    cbn [mbind option_bind]. eexists. split; [done|]. apply (world_new w); [done|by rewrite R2|done..|]. apply Forall_app. auto.
  - destruct (w_requests w !! j) as [[b s]|] eqn:Hj; [|by exists w]. destruct (b || (state =? 0)); [|by exists w].
    destruct (proj1 (Forall_lookup _ _) W3 _ _ Hj) as (H1 & H2 & H3). cbn in H1, H2, H3.
    destruct (rr_free_run now state (s <| rr_groups := w_groups w |>)) as (s' & -> & F1 & F2 & F3 & F4); [done..|]. cbn [mbind option_bind]. eexists. split; [done|]. by apply world_new.
Qed.

Lemma events_ok es w : world_ok w -> exists w', rr_events es w = Some w' /\ world_ok w'.
Proof.
  revert w. induction es as [|[now e] es IH]; intros w Hw; [by exists w|]. cbn [rr_events]. destruct (event_step_ok now e w Hw) as (w1 & -> & Hw1). cbn [mbind option_bind]. by apply IH.
Qed.


(** * Requests in turn *)

Definition healthy (g : ngx_http_upstream_rr_peers_t) : Prop :=
  g_single g = false /\ g_last_cached g = 0 /\ g_peer g <> [] /\ Forall peer_ok (g_peer g) /\ Forall usable (g_peer g).

Definition took (n : Z) (ps : list ngx_http_upstream_rr_peer_t) : list ngx_http_upstream_rr_peer_t :=
  alter (fun p => p <| p_current_weight := p_current_weight p - 1 |>) (Z.to_nat n) ps.

Lemma check_peer_usable now s ps p : tried_bit s (rr_current s) = Some false -> group_peers s = Some ps -> peer_at ps (rr_current s) = Some p -> usable p -> check_peer now s = Some (true, s).
Proof.
  intros Ht Hps Hp [U1 U2]. unfold check_peer. rewrite Ht. cbn [mbind option_bind]. rewrite Hps. cbn [mbind option_bind]. rewrite Hp. cbn [mbind option_bind]. rewrite U1. cbn [negb].
  assert ((p_max_fails p =? 0) || (p_fails p <? p_max_fails p) = true) as ->; [|done]. apply orb_true_iff. rewrite Z.eqb_eq, Z.ltb_lt. done.
Qed.

Lemma ask_healthy now w g n ps : w_groups w = [g] -> healthy g -> ngx_http_upstream_get_peer (g_peer g) = Some (n, ps) -> length ps = length (g_peer g) -> 0 <= n < Z.of_nat (length ps) -> Forall usable ps ->
  exists w', rr_event_step now Ask w = Some w' /\ w_groups w' = [g <| g_peer := took n ps |>] /\ choices w' = choices w ++ [Peer 0 n].
Proof.
  intros Hgs (H1 & H2 & H3 & H4 & H5) Hn Hl Hr Hu. cbn [rr_event_step]. rewrite Hgs. unfold ngx_http_upstream_init_round_robin_peer. cbn [lookup list_lookup mbind option_bind].
  set (words := if _ <=? 64 then _ else _). assert (number g <= 64 * words /\ 1 <= words).
  { unfold words. destruct (Z.leb_spec (number g) 64); [lia|]. pose proof (Z.div_mod (number g + 63) 64). pose proof (Z.mod_pos_bound (number g + 63) 64). lia. }
  unfold ngx_http_upstream_get_round_robin_peer. cbn [rr_groups length get_peer_loop]. unfold group at 1. cbn [rr_groups rr_peers lookup list_lookup mbind option_bind rr_tries].
  rewrite H2, H1. cbn [Z.eqb negb]. assert (exists k, Z.to_nat (number g) = S k) as [k ->] by (exists (Nat.pred (Z.to_nat (number g))); unfold number in *; lia).
  cbn [first_loop]. unfold group_peers at 1, group at 1. cbn [rr_groups rr_peers lookup list_lookup mbind option_bind fmap option_fmap option_map]. rewrite Hn. cbn [mbind option_bind].
  unfold set_peers at 1, group at 1. cbn [rr_groups rr_peers lookup list_lookup mbind option_bind].
  destruct (proj2 (peer_at_range ps n) Hr) as [p Hp].
  rewrite Z.eqb_refl. pose (s := mk_rr [g <| g_peer := ps |>] 0 n (replicate (Z.to_nat words) 0) (number g)). change (check_peer now _) with (check_peer now s).
  assert (rr_tried s !! Z.to_nat (n / 64) = Some 0) as Hw.
  { apply lookup_replicate_2. unfold number in *. pose proof (Z.div_lt_upper_bound n 64 words ltac:(lia) ltac:(lia)). pose proof (Z.div_pos n 64 ltac:(lia) ltac:(lia)). lia. }
  rewrite (check_peer_usable now s ps p); [| |done|done|].
  2: { unfold tried_bit. cbn [rr_current s]. rewrite Hw. cbn. by rewrite Z.testbit_0_l. }
  2: { unfold peer_at in Hp. case_match; [done|]. rewrite Forall_lookup in Hu. by eapply Hu. }
  assert (<[Z.to_nat n := p <| p_current_weight := p_current_weight p - 1 |>]> ps = took n ps) as Htook.
  { unfold peer_at in Hp. case_match; [done|]. unfold took. rewrite list_insert_alter. apply list_alter_ext; [|done]. intros x Hx. by simplify_eq. }
  cbn [mbind option_bind]. unfold upd_peer. change (group_peers s) with (Some ps). cbn [mbind option_bind]. change (rr_current s) with n. rewrite Hp. cbn [mbind option_bind]. rewrite Htook.
  unfold set_peers. change (group s) with (Some (g <| g_peer := ps |>)). cbn [mbind option_bind]. unfold mark_tried. change (rr_tried (set_group _ s)) with (rr_tried s).
  change (rr_current (set_group _ s)) with n. rewrite Hw. cbn [mbind option_bind].
  eexists. split_and!; [done|done|]. unfold choices. cbn [w_log]. by rewrite fmap_app.
Qed.

(** ** A cycle *)

Definition total (ps : list ngx_http_upstream_rr_peer_t) : nat := sum_list_with (fun p => Z.to_nat (p_current_weight p)) ps.

Lemma took_length n ps : length (took n ps) = length ps.
Proof. apply length_alter. Qed.

Lemma took_reset n ps : reset_weights (took n ps) = reset_weights ps.
Proof. unfold reset_weights, took. apply list_eq. intros i. rewrite !list_lookup_fmap. destruct (decide (i = Z.to_nat n)) as [-> |Hi]; [rewrite list_lookup_alter_eq|by rewrite list_lookup_alter_ne]. by destruct (ps !! Z.to_nat n). Qed.

Lemma took_forall (P : ngx_http_upstream_rr_peer_t -> Prop) n ps : (forall p, P p -> P (p <| p_current_weight := p_current_weight p - 1 |>)) -> Forall P ps -> Forall P (took n ps).
Proof. intros HP H. unfold took. apply Forall_alter; [done|]. intros p Hp. by apply HP. Qed.

Lemma took_total n ps : positive ps n -> S (total (took n ps)) = total ps.
Proof.
  intros (p & Hp & Hw). unfold peer_at in Hp. destruct (Z.ltb_spec n 0); [done|]. unfold took, total. revert Hp. generalize (Z.to_nat n). clear -Hw. intros k. revert k.
  induction ps as [|q ps IH]; intros [|k] Hk; [done|done| |].
  - injection Hk as ->. cbn. lia.
  - cbn. specialize (IH k Hk). cbn in IH. lia.
Qed.

Lemma total_positive ps : (0 < total ps)%nat -> exists i, positive ps i.
Proof.
  unfold total. induction ps as [|p ps IH]; cbn; [lia|]. intros H. destruct (decide (0 < p_current_weight p)); [by exists 0, p|].
  destruct IH as (i & q & Hq & Hw); [lia|]. exists (i + 1), q. split; [|done]. unfold peer_at in *. destruct (Z.ltb_spec i 0); [done|]. destruct (Z.ltb_spec (i + 1) 0); [lia|].
  by replace (Z.to_nat (i + 1)) with (S (Z.to_nat i)) by lia.
Qed.

Definition chosen_times (i : Z) (cs : list Z) : Z := Z.of_nat (length (filter (fun c => c = i) cs)).

(** The peers as the next choice sees them. *)
Definition seen_as (ps E : list ngx_http_upstream_rr_peer_t) : Prop := ps = E \/ ((forall j, ~ positive ps j) /\ E = reset_weights ps).

Lemma seen_as_reset ps E : seen_as ps E -> reset_weights ps = reset_weights E.
Proof. intros [-> |[_ ->]]; [done|]. unfold reset_weights. rewrite <- list_fmap_compose. by apply list_fmap_ext. Qed.

Lemma seen_as_forall (P : ngx_http_upstream_rr_peer_t -> Prop) ps E : seen_as ps E -> (forall p, P p -> P (p <| p_current_weight := p_weight p |>)) -> Forall P ps -> Forall P E.
Proof. intros [-> |[_ ->]] HP H; [done|]. apply Forall_fmap. by apply (Forall_impl _ _ _ H). Qed.

Lemma get_peer_seen ps E : Forall peer_ok ps -> ps <> [] -> seen_as ps E -> (0 < total E)%nat -> exists n, ngx_http_upstream_get_peer ps = Some (n, E) /\ positive E n.
Proof.
  intros Hok Hne Hs [i Hi]%total_positive. destruct (get_peer_run ps Hok Hne) as (n & ps' & -> & _ & _ & _ & [[-> Hn]|(Hno & -> & Hn)]); exists n.
  - destruct Hs as [-> |[Hno _]]; [done|]. by destruct (Hno n).
  - destruct Hs as [-> |[_ ->]]; [by destruct (Hno i)|]. split; [done|]. destruct Hn as [|Hn]; [done|]. by destruct (Hn i).
Qed.

Lemma turn_step now w g E : w_groups w = [g] -> healthy g -> seen_as (g_peer g) E -> (0 < total E)%nat ->
  exists n w', rr_event_step now Ask w = Some w' /\ w_groups w' = [g <| g_peer := took n E |>] /\ choices w' = choices w ++ [Peer 0 n] /\ positive E n /\ healthy (g <| g_peer := took n E |>).
Proof.
  intros Hw Hg Hs Ht. pose proof Hg as (H1 & H2 & H3 & H4 & H5). destruct (get_peer_seen _ _ H4 H3 Hs Ht) as (n & Hn & Hp).
  assert (length E = length (g_peer g)) as Hl by (destruct Hs as [-> |[_ ->]]; [done|apply length_fmap]).
  assert (Forall usable E) as HE by (apply (seen_as_forall _ _ _ Hs); [by intros p|done]).
  destruct (ask_healthy now w g n E Hw Hg Hn Hl (positive_range _ _ Hp) HE) as (w' & Hst & Hgs & Hch). exists n, w'. split_and!; [done..|]. split_and!; [done|done| | |].
  - cbn. intros E0. apply (f_equal length) in E0. rewrite took_length, Hl in E0. by destruct (g_peer g).
  - cbn. apply took_forall; [intros p (P1 & P2 & P3); split_and!; cbn; [done|lia|done]|]. apply (seen_as_forall _ _ _ Hs); [|done]. intros p (P1 & P2 & P3). split_and!; cbn; [done|lia|done].
  - cbn. by apply took_forall; [intros p|].
Qed.

Lemma total_zero ps i p : total ps = 0%nat -> peer_at ps i = Some p -> p_current_weight p <= 0.
Proof.
  intros Ht Hp. destruct (Z.le_gt_cases (p_current_weight p) 0); [done|]. assert (positive ps i) as Hi%took_total by (exists p; split; [done|lia]). lia.
Qed.

Lemma took_at n ps i p : 0 <= n -> peer_at ps i = Some p -> peer_at (took n ps) i = Some (if decide (i = n) then p <| p_current_weight := p_current_weight p - 1 |> else p).
Proof.
  unfold peer_at, took. destruct (Z.ltb_spec i 0); [done|]. intros Hn0 Hp. destruct (decide (i = n)) as [-> |Hn]; [by rewrite list_lookup_alter_eq, Hp|].
  by rewrite list_lookup_alter_ne by lia.
Qed.

Lemma took_nonneg m ps : positive ps m -> Forall (fun p => 0 <= p_current_weight p) ps -> Forall (fun p => 0 <= p_current_weight p) (took m ps).
Proof.
  intros (q & Hq & Hw) Hpos. apply Forall_lookup. intros k p Hk. unfold took in Hk. unfold peer_at in Hq. destruct (Z.ltb_spec m 0); [done|]. destruct (decide (k = Z.to_nat m)) as [-> |Hne].
  - rewrite list_lookup_alter_eq, Hq in Hk. injection Hk as <-. cbn. lia.
  - rewrite list_lookup_alter_ne in Hk by done. by apply (proj1 (Forall_lookup _ _) Hpos k).
Qed.

Lemma turn_run now n w g E : w_groups w = [g] -> healthy g -> seen_as (g_peer g) E -> total E = n -> Forall (fun p => 0 <= p_current_weight p) E ->
  exists w' g' cs, rr_events (replicate n (now, Ask)) w = Some w' /\ w_groups w' = [g'] /\ choices w' = choices w ++ (Peer 0 <$> cs) /\ healthy g' /\ (forall j, ~ positive (g_peer g') j) /\
    reset_weights (g_peer g') = reset_weights E /\ forall i p, peer_at E i = Some p -> chosen_times i cs = p_current_weight p.
Proof.
  revert w g E. induction n as [|n IH]; intros w g E Hw Hg Hs Ht Hpos.
  - exists w, g, []. cbn [replicate rr_events]. rewrite app_nil_r. split_and!; [done|done|done|done| |by apply seen_as_reset|].
    + intros j Hj. destruct Hs as [<- |[Hno _]]; [|by apply (Hno j)]. apply took_total in Hj. lia.
    + intros i p Hp. pose proof (total_zero _ _ _ Ht Hp). unfold peer_at in Hp. destruct (i <? 0); [done|]. pose proof (proj1 (Forall_lookup _ _) Hpos _ _ Hp). cbn in *. change (0 = p_current_weight p). lia.
  - destruct (turn_step now w g E Hw Hg Hs ltac:(lia)) as (m & w1 & Hst & Hgs & Hch & Hm & Hg1). cbn [replicate rr_events]. rewrite Hst. cbn [mbind option_bind].
    pose proof (positive_range _ _ Hm).
    destruct (IH w1 (g <| g_peer := took m E |>) (took m E)) as (w' & g' & cs & -> & R0 & R1 & R2 & R3 & R4 & R5); [done|done|by left|pose proof (took_total _ _ Hm); lia|by apply took_nonneg|].
    exists w', g', (m :: cs). split_and!; [done|done|by rewrite R1, Hch, <- app_assoc|done|done|by rewrite R4, took_reset|].
    intros i p Hp. pose proof (took_at m E i p ltac:(lia) Hp) as Hp'. specialize (R5 _ _ Hp'). unfold chosen_times in *. rewrite filter_cons. destruct (decide (i = m)) as [-> |Hne].
    + rewrite decide_True by done. cbn [length]. cbn in R5. lia.
    + by rewrite decide_False by congruence.
Qed.

Lemma rr_events_app a b w : rr_events (a ++ b) w = w ← rr_events a w; rr_events b w.
Proof. revert w. induction a as [|[now e] a IH]; intros w; [done|]. cbn. destruct (rr_event_step now e w); [apply IH|done]. Qed.

Lemma cycles_run now k w g E : w_groups w = [g] -> healthy g -> seen_as (g_peer g) E -> reset_weights E = E -> Forall (fun p => 0 <= p_current_weight p) E ->
  exists w' g' cs, rr_events (replicate (k * total E) (now, Ask)) w = Some w' /\ w_groups w' = [g'] /\ choices w' = choices w ++ (Peer 0 <$> cs) /\ seen_as (g_peer g') E /\
    forall i p, peer_at E i = Some p -> chosen_times i cs = Z.of_nat k * p_current_weight p.
Proof.
  intros Hw Hg Hs HE Hpos. revert w g Hw Hg Hs. induction k as [|k IH]; intros w g Hw Hg Hs; [exists w, g, []; by rewrite app_nil_r|].
  destruct (turn_run now (total E) w g E Hw Hg Hs eq_refl Hpos) as (w1 & g1 & cs1 & E1 & A0 & A1 & A2 & A3 & A4 & A5).
  destruct (IH w1 g1 A0 A2) as (w2 & g2 & cs2 & E2 & B0 & B1 & B2 & B3); [right; split; [done|congruence]|].
  exists w2, g2, (cs1 ++ cs2). split_and!; [|done|by rewrite B1, A1, fmap_app, app_assoc|done|].
  - cbn [Nat.mul]. rewrite replicate_add, rr_events_app, E1. cbn [mbind option_bind]. done.
  - intros i p Hp. specialize (A5 i p Hp). specialize (B3 i p Hp). unfold chosen_times in *. rewrite filter_app, length_app. lia.
Qed.

(** C8: weights are shares: when the peers of an upstream are all in order and no request
    fails, then of [k * W] requests, where [W] is the sum of the weights, each peer gets
    exactly [k] times its weight, and the next request again sees the full weights. *)
Theorem rr_cycles_fair now g k : healthy g -> Forall (fun p => p_current_weight p = p_weight p) (g_peer g) ->
  exists w g' cs, rr_events (replicate (k * total (g_peer g)) (now, Ask)) (mk_world [g] [] []) = Some w /\ w_groups w = [g'] /\ choices w = Peer 0 <$> cs /\ seen_as (g_peer g') (g_peer g) /\
    forall i p, peer_at (g_peer g) i = Some p -> chosen_times i cs = Z.of_nat k * p_weight p.
Proof.
  intros Hg Hw. destruct (cycles_run now k (mk_world [g] [] []) g (g_peer g)) as (w & g' & cs & H1 & H2 & H3 & H4 & H5); [done|done|by left| | |].
  - unfold reset_weights. rewrite <- (list_fmap_id (g_peer g)) at 2. apply Forall_fmap_ext. apply (Forall_impl _ _ _ Hw). intros [] E. cbn in *. by rewrite E.
  - destruct Hg as (_ & _ & _ & Hok & _). rewrite Forall_forall in Hw, Hok. apply Forall_forall. intros p Hp. destruct (Hok p Hp) as ([? _] & _). by rewrite (Hw p Hp).
  - exists w, g', cs. split_and!; [done..|]. intros i p Hp. rewrite (H5 i p Hp). f_equal. unfold peer_at in Hp. destruct (i <? 0); [done|]. by apply (proj1 (Forall_lookup _ _) Hw _ _ Hp).
Qed.

(** * Examples *)

Definition serve (addr weight max_fails : Z) : ngx_http_upstream_server_t := mk_server [addr] weight max_fails 10 false false.
Definition spare (addr max_fails : Z) : ngx_http_upstream_server_t := mk_server [addr] 1 max_fails 10 false true.
Definition upstream (svs : list ngx_http_upstream_server_t) : ngx_http_upstream_srv_conf_t := mk_srv (Some svs) 0 0.
Definition configured (us : ngx_http_upstream_srv_conf_t) : option (list ngx_http_upstream_rr_peers_t) :=
  ngx_http_upstream_init_round_robin (fun _ => true) (fun _ => true) (fun _ => None) us.
Definition run_upstream (us : ngx_http_upstream_srv_conf_t) (es : list rr_event) : option rr_world := gs ← configured us; rr_events (pair 100 <$> es) (mk_world gs [] []).

Definition new_peer (addr weight max_fails : Z) : ngx_http_upstream_rr_peer_t := mk_peer addr weight weight 0 0 max_fails 10 false.
Definition three_peers : ngx_http_upstream_rr_peers_t := mk_peers false 0 [] [new_peer 12 3 1; new_peer 11 2 1; new_peer 13 1 1].

(** The peers come in the order of their weights. *)
Example rr_order : configured (upstream [serve 11 2 1; serve 12 3 1; serve 13 1 1]) = Some [three_peers] /\
  choices <$> rr_events (replicate 7 (100, Ask)) (mk_world [three_peers] [] []) = Some (Peer 0 <$> [2; 1; 0; 0; 1; 0; 2]).
Proof. split; vm_compute; reflexivity. Qed.

Lemma rr_cycles_fair_witness : exists w g' cs, rr_events (replicate 12 (100, Ask)) (mk_world [three_peers] [] []) = Some w /\ w_groups w = [g'] /\ choices w = Peer 0 <$> cs /\
  seen_as (g_peer g') (g_peer three_peers) /\ forall i p, peer_at (g_peer three_peers) i = Some p -> chosen_times i cs = 2 * p_weight p.
Proof.
  apply (rr_cycles_fair 100 three_peers 2).
  - split_and!; [done|done|done|by repeat (apply Forall_cons; split; [done|])|]. repeat constructor; cbn; try done; right; lia.
  - by repeat constructor.
Defined.

(** A request that fails at every peer: three servers, of which one is down, and a backup. *)
Definition four_servers : ngx_http_upstream_srv_conf_t := upstream [serve 11 2 1; spare 14 1; serve 12 1 1; mk_server [13] 1 1 10 true false].
Definition tries_on (n : nat) : list rr_event := Ask :: concat (replicate n [Report 0 NGX_PEER_FAILED; Retry 0]).

Example rr_failing : choices <$> run_upstream four_servers (tries_on 5) = Some [Peer 0 1; Peer 0 0; Peer 1 0].
Proof. vm_compute. reflexivity. Qed.


(** ** What goes wrong *)

(** With 64 backup servers the words of the tried peers that are cleared are one more than
    those that were allocated: the request that has failed at the two servers writes past
    them. *)
Theorem rr_backup_overflow : run_upstream (upstream (serve 11 1 1 :: serve 12 1 1 :: ((fun k => spare (Z.of_nat k) 1) <$> seq 100 64))) (tries_on 1) = None /\
  is_Some (run_upstream (upstream (serve 11 1 1 :: serve 12 1 1 :: ((fun k => spare (Z.of_nat k) 1) <$> seq 100 63))) (tries_on 1)).
Proof. split; [vm_compute; reflexivity|]. vm_compute. by eexists. Qed.

(** A weight is refused only when it is 0 or no number.  With two weights of [10 ^ 16] the
    first request multiplies one of them by 1000, past the range of [ngx_int_t]. *)
Theorem rr_weight_overflow :
  (exists gs, configured (upstream [serve 11 (10 ^ 16) 1; serve 12 (10 ^ 16) 1]) = Some gs) /\
  run_upstream (upstream [serve 11 (10 ^ 16) 1; serve 12 (10 ^ 16) 1]) [Ask] = None /\
  is_Some (run_upstream (upstream [serve 11 9223372036854774 1; serve 12 9223372036854774 1]) [Ask]).
Proof. split_and!; [by eexists|vm_compute; reflexivity|vm_compute; by eexists]. Qed.

(** A server that is marked as down is given to every request when it is the only one. *)
Theorem rr_lone_down : choices <$> run_upstream (upstream [mk_server [11] 1 1 10 true false]) [Ask; Ask] = Some [Peer 0 0; Peer 0 0].
Proof. vm_compute. reflexivity. Qed.

(** An upstream of backup servers only is accepted, and the first request reads a peer of a
    group that has none. *)
Theorem rr_backups_only : (exists gs, configured (upstream [spare 11 1]) = Some gs) /\ run_upstream (upstream [spare 11 1]) [Ask] = None.
Proof. split; [by eexists|vm_compute; reflexivity]. Qed.

(** Two servers of the weights 3 and 2 that may fail three times.  Eight requests are
    accepted; then the three that went to the second peer fail, and one of those that went to
    the first.  The ninth request finds no peer, though the first has failed only once. *)
Definition four_fail : list rr_event := replicate 8 Ask ++ ((fun j => Report j NGX_PEER_FAILED) <$> [0; 3; 5; 1]%nat).

Theorem rr_healthy_missed : exists a b w w', run_upstream (upstream [serve 11 3 3; serve 12 2 3]) four_fail = Some w /\ w_groups w = [mk_peers false 0 [] [a; b]] /\
  usable a /\ rr_event_step 100 Ask w = Some w' /\ choices w' = choices w ++ [Busy 0].
Proof.
  destruct (run_upstream (upstream [serve 11 3 3; serve 12 2 3]) four_fail) as [w|] eqn:E; [|vm_compute in E; discriminate E]. vm_compute in E. injection E as <-.
  eexists _, _, _, _. split; [reflexivity|]. split; [reflexivity|]. split; [split; [done|right; cbn; lia]|]. split; vm_compute; reflexivity.
Qed.

(** Two servers whose failures do not count, and a backup, after two failures or more: the
    groups, and the request, which is to go on with the peer [c]. *)
Definition forever_groups (fa fb : Z) : list ngx_http_upstream_rr_peers_t :=
  [mk_peers false 0 [] [mk_peer 11 0 1 fa 100 0 10 false; mk_peer 12 0 1 fb 100 0 10 false]; mk_peers false 0 [] [new_peer 13 1 1]].
Definition forever (c fa fb : Z) : rr_state := mk_rr (forever_groups fa fb) 0 c [0] 1.

Lemma forever_step c fa fb log : c = 0 \/ c = 1 -> exists fa' fb' log',
  rr_events [(100, Retry 0); (100, Report 0 NGX_PEER_FAILED)] (mk_world (forever_groups fa fb) [(false, forever c fa fb)] log)
    = Some (mk_world (forever_groups fa' fb') [(false, forever (1 - c) fa' fb')] log') /\
  ((fun '(_, r, _) => r) <$> log') = ((fun '(_, r, _) => r) <$> log) ++ [Peer 0 c].
Proof. intros [-> | ->]; eexists _, _, _; (split; [reflexivity|exact (fmap_app _ log _)]). Qed.

Lemma forever_steps n c fa fb log : c = 0 \/ c = 1 -> exists w s cs,
  rr_events (concat (replicate n [(100, Retry 0); (100, Report 0 NGX_PEER_FAILED)])) (mk_world (forever_groups fa fb) [(false, forever c fa fb)] log) = Some w /\
  w_requests w = [(false, s)] /\ rr_tries s = 1 /\ choices w = ((fun '(_, r, _) => r) <$> log) ++ (Peer 0 <$> cs) /\ length cs = n.
Proof.
  revert c fa fb log. induction n as [|n IH]; intros c fa fb log Hc; [eexists _, _, []; by rewrite app_nil_r|]. destruct (forever_step c fa fb log Hc) as (fa' & fb' & log' & E & Hl).
  cbn [replicate concat]. rewrite rr_events_app, E. cbn [mbind option_bind]. destruct (IH (1 - c) fa' fb' log') as (w & s & cs & -> & R1 & R2 & R3 & R4); [lia|].
  exists w, s, (c :: cs). split_and!; [done|done|done|by rewrite R3, Hl, <- app_assoc|cbn; lia].
Qed.

(** A request to servers with [max_fails=0] that fail goes on for ever, and does not come to
    the backup server: whenever one try is left, those of the backup servers are added
    again, while the request stays with the first group. *)
Theorem rr_never_ends n : exists w s cs,
  run_upstream (upstream [serve 11 1 0; serve 12 1 0; spare 13 1]) ([Ask; Report 0 NGX_PEER_FAILED; Retry 0; Report 0 NGX_PEER_FAILED] ++ concat (replicate n [Retry 0; Report 0 NGX_PEER_FAILED])) = Some w /\
  w_requests w = [(false, s)] /\ rr_tries s = 1 /\ choices w = Peer 0 <$> cs /\ length cs = (2 + n)%nat.
Proof.
  unfold run_upstream. destruct (configured (upstream [serve 11 1 0; serve 12 1 0; spare 13 1])) as [gs|] eqn:E; [|vm_compute in E; discriminate E]. cbn [mbind option_bind].
  rewrite fmap_app, rr_events_app.
  destruct (rr_events (pair 100 <$> [Ask; Report 0 NGX_PEER_FAILED; Retry 0; Report 0 NGX_PEER_FAILED]) (mk_world gs [] [])) as [w0|] eqn:E0; [|vm_compute in E; injection E as <-; vm_compute in E0; discriminate E0].
  vm_compute in E. injection E as <-. vm_compute in E0. injection E0 as <-. cbn [mbind option_bind].
  assert (pair 100 <$> concat (replicate n [Retry 0; Report 0 NGX_PEER_FAILED]) = concat (replicate n [(100, Retry 0); (100, Report 0 NGX_PEER_FAILED)])) as ->.
  { induction n as [|n IH]; [done|]. cbn [replicate concat]. by rewrite fmap_app, IH. }
  match goal with |- context [mk_world _ _ ?l] => destruct (forever_steps n 1 1 1 l (or_intror eq_refl)) as (w & s & cs & E & R1 & R2 & R3 & R4) end.
  exists w, s, (1 :: 0 :: cs). split_and!; [exact E|done|done|exact R3|cbn; lia].
Qed.
